(* ===== verification/_CoqProject ===== *)
-Q . S2P
Prelude.v
GorpcCodec.v
GorpcFacts.v
PeerRpc.v
GorpcTheorems.v
Storage.v
Keys.v
MapBackend.v
StateDelta.v
RocksBackend.v
StateNode.v
StateDeltaFacts.v
StateCommit.v
RocksBackendTheorems.v
StateDatabase.v
StateDiscard.v
StateInvariant.v
StateGrow.v
StateTheorems.v
StateProperties.v
StateExample.v
MergeIterator.v
MergeFacts.v
MergeBack.v
ObjectIteration.v
ObjectIterationTheorems.v
Mempool.v
MempoolImpl.v
MempoolAdapter.v
MempoolFacts.v
MempoolPool.v
MempoolQueries.v
MempoolState.v
MempoolChanges.v
MempoolAdd.v
MempoolReads.v
MempoolReach.v
MempoolTheorems.v
MempoolExample.v
BlockApplicator.v
BlockApplicatorTheorems.v
RecordStores.v
AccountHistory.v
RecordStoresTheorems.v
AccountHistoryTheorems.v
SkipList.v
BlockStore.v
BlockStoreTheorems.v
PeerPolicy.v
P2PNode.v
PeerPolicyTheorems.v
P2PTheorems.v
ServeTheorems.v
P2PExample.v
JsonRpc.v
JsonRpcTheorems.v
Session.v
Chronicler.v
ResourceMeter.v
MeteringTheorems.v
ChainTypes.v
BlockProducer.v
BlockProducerTheorems.v
Indexer.v
IndexerTheorems.v
IndexerAnswers.v
ExecutionContext.v
ProtoUtils.v
SystemCalls.v
Dispatch.v
VirtualMachine.v
Rectify.v
Controller.v
ProgramLogic.v
ExecutionFacts.v
FrameFacts.v
ExecutionTheorems.v
IsolationTheorems.v
ControllerTheorems.v
ChainExample.v
