(* ===== verification/Prelude.v ===== *)
(** * A verification of teleno, a C++ node of the Koinos blockchain

    The node applies blocks to a state database that keeps one delta per
    block, stores blocks in a block store with skip-list pointers, and
    exchanges both with its peers over libp2p: gossip of new blocks, and a
    Peer RPC, in msgpack, by which a node that is behind asks for blocks.
    This development models these parts as pure functions and proves what
    makes them correct.  Paths are relative to the repository.

    ** How the code is read

    A member function is a [prog] (below): it takes the state of its object
    and returns, throws, or runs out of fuel, with the state it leaves
    behind.  A C++ exception is a value of an inductive type of the
    component.  Machine integers are [Z] with their wrap-around written out
    ([u8] ... [u64], [i64]); byte strings are [list ascii].  Objects that are
    shared by [shared_ptr] live in a heap of locations (StateDelta).  A
    public operation that runs under a mutex is one atomic step; where the
    code gives the mutex up, or other threads can run between two calls,
    the interference is an argument of the operation (StateDatabase,
    P2PNode).  Code outside the repository (RocksDB, protobuf, libp2p, the
    cryptography, boost) enters as a class of operations with the laws the
    code relies on, and every witness runs on an instance of it.

    ** The parts

    - Peer RPC (src/src/p2p/gorpc_codec.cpp and the exchange in
      libp2p_transport.cpp).  GorpcCodec: writers, [Reader], encoders and
      decoders, one definition per function; PeerRpc: the client's loop over
      partial reads, the server's answer, and the client's calls.
      GorpcFacts holds two program logics, [good] (any input) and [reads]
      (a given encoding), and what the decoders read of what the encoders
      write, GorpcTheorems the claims: decoders are total, throw only what
      they declare, but for the memory a response may ask for, and never
      read outside the buffer; encodings round trip; a response is decoded
      the same however it is fragmented; request and answer end to end.
    - Block store (src/src/block_store).  SkipList: the pointer arithmetic
      of skip_list.hpp; BlockStore: every operation of block_store.cpp over
      the RocksDB interface of Storage; BlockStoreTheorems: reads and writes
      on well-formed databases, and the claims: the ancestor search is the
      walk over parents and terminates on any database, range queries, and
      the history of a store fed by broadcasts.
    - State database (src/src/koinos/state_db).  Keys: [std::map] over byte
      strings; MapBackend: the in-memory backend with its metadata;
      StateDelta: state_delta.cpp on a heap of deltas; StateNode: nodes and
      anonymous sessions; MergeIterator: the merge of the objects of stacked
      deltas, used by ObjectIteration for the neighbours of an object (the
      Merge files and ObjectIterationTheorems compare it with the view);
      StateDatabase: [database_impl] with its locks, fork heads and
      comparators.  The abstract state of a delta is its [view], the
      key-value map a reader sees (StateDeltaFacts, StateCommit); the
      invariant of the database is [db_ok] (StateDiscard), kept by every
      operation (StateDiscard, StateInvariant, StateGrow, StateTheorems);
      StateProperties states the claims: the invariant of everything
      reachable, commit as a change of representation that no reader sees,
      isolation of forks, branching, discarding, lookup by revision,
      finalizing, anonymous sessions.  StateExample has their witnesses.
      RocksBackend: the backend of backends/rocksdb with its LRU cache, its
      batches, metadata and iterators, and in RocksCommit the commit of a
      delta whose root is on it; RocksBackendTheorems: its simulation of the
      map backend, which is the one StateDelta is over, for operations and
      iterators outside a batch, and the commit of a stack of deltas: what
      StateDelta's commit does, as one synced write, and what a later opening
      finds, after a crash too.
    - Mempool (src/src/koinos/mempool, src/src/mempool), a client of a second
      state database.  Mempool: the object spaces and the members that work
      on one node, programs over its heap; MempoolImpl: the members that pick
      nodes, programs over the database; MempoolAdapter: the interface of
      the node.  The abstract state is a [pool] per block, the list of its
      pending transactions: MempoolFacts has a triple for programs on a
      node's view, MempoolPool and MempoolQueries what [pool_view] relates
      to the five stored tables, MempoolState the invariant [mempool_ok],
      MempoolChanges (blocks too), MempoolAdd and MempoolReads one group of
      operations each, MempoolReach the constructor and all of them as
      steps.  MempoolTheorems states the claims, with witnesses in
      MempoolExample: the invariant of everything reachable, adding as
      appending to every pool that takes the transaction or to none, blocks,
      finality, removal and pruning, every query.  BlockApplicator and its
      theorems: blocks that wait for their parents are all applied.
    - Stores of the accepted blocks (src/src/transaction_store,
      src/src/contract_meta_store, src/src/account_history).  RecordStores:
      iterators over a table of the database, the broadcast, the store of transactions and the
      store of contract metadata; AccountHistory: the history of accounts,
      whose keys order it by number (Keys).  RecordStoresTheorems and
      AccountHistoryTheorems: what each store answers after any sequence of
      accepted blocks, against the list of those blocks.
    - Peer policies and the p2p node (src/src/p2p).  PeerPolicy: error
      scores, fork watchdog, gossip switch; P2PNode: every handler of
      p2p_node.cpp as a program over the node and the trace of its calls
      to the outside, which an arbitrary environment answers.
      PeerPolicyTheorems, P2PTheorems: what handlers add to the trace, the
      watchdog against an independent record, what synchronization and
      gossip may submit to the chain, whom the node dials and drops;
      ServeTheorems: blocks served from the block store reach a client
      through the codec unchanged.  P2PExample has the witnesses.
    - JSON-RPC (src/src/jsonrpc, core/rpc_access_policy.hpp).  JsonRpc: the
      policy, bytes in JSON in both directions, dispatch, requests and
      batches, sessions and the count of connections, over the calls made to
      the services so far.  JsonRpcTheorems: [asks], which bounds the calls
      of a program, and with it what is called and what is answered; bytes
      that are printed and read again.
    - Metering (src/src/koinos/chain).  Session, Chronicler, ResourceMeter:
      session.cpp, chronicler.cpp, resource_meter.cpp and the ticks of
      host_api.cpp.  MeteringTheorems: the books of a meter, exact accounting, refusals without a trace,
      exhaustion of ticks, numbering of events.

    - Execution (src/src/koinos/chain, src/src/koinos/vm_manager).
      ChainTypes: the messages and the exceptions with their classes;
      ExecutionContext: execution_context.cpp and the object spaces of
      state.cpp, as programs over a [machine] (the heap of deltas, the cached
      modules, the context); ProtoUtils: fields of messages; SystemCalls:
      every thunk of system_calls.cpp over the open recursion of the system
      calls it makes; Dispatch: thunk_utils.hpp, thunk_dispatcher.hpp with
      the types of the registered functions and the cast to the type of a
      call, and host_api.cpp, with the memory of a contract's instance; VirtualMachine:
      the module cache and the runner over the fizzy interpreter, and the
      knot [knot_at] of the recursion.  ProgramLogic: a relational logic of
      programs ([agrees]) and the frames of a heap; ExecutionFacts: what each
      layer keeps of an invariant that the thunks keep; FrameFacts: the frame
      of an execution ([framed]: the stack, and all deltas but the current
      one), in any knot; IsolationTheorems: the invariant [isolated] of the
      objects of the system spaces, and that user contracts keep it;
      ExecutionTheorems: what a call may change, reverted transactions, the
      depth of calls, dispatch.
    - Controller (controller.cpp, rectify.cpp).  Rectify: the corrections of
      history; Controller: every operation of [controller_impl] over the
      state database, a context and the other services, which answer requests
      by an arbitrary function.  ControllerTheorems:
      reads and submitted transactions change no block, blocks that are
      refused change nothing, the order of the fork heads.  ChainExample has
      the witnesses of execution and controller.
    - Block producer (src/src/block_production).  BlockProducer: key files,
      both ways of producing, filling a block, proofs of burn, submission
      with its repetitions and the production loop, as programs over the
      producer and the trace of its calls to the chain and the mempool.
      BlockProducerTheorems: what is proposed and signed, limits, the
      deletion of failed transactions, termination, keys.
    - Indexer (indexer.cpp).  Indexer: its handlers cut into tasks where they
      take a lock or wait, with a step per task, so that a run is any
      interleaving.  IndexerTheorems: an invariant of every run (one place
      where the requests go on, what waits in which order), and from it that
      blocks are applied once and in order, and all of them when it succeeds.
      IndexerAnswers: from every point of a run its own tasks lead to an
      answer, by a measure of what is left to do.

    A state database hands the chain the nodes it executes blocks on; the
    meter charges an execution; the controller applies blocks and
    transactions by system calls and tells the mempool and the stores.  The
    p2p node submits blocks to the chain and reads the block store: its
    environment is arbitrary, and for the block store the accepted blocks are
    an argument, so that neither depends on the model of the controller.

    ** Fuel

    [ancestor_loop] runs on 128 units: every step of the skip list clears or
    lowers a bit of a 64-bit height, and [get_ancestor_total] shows that the
    bound is never reached.  The loops of the codec run once per announced
    element or per byte of the buffer; [decoders_safe] shows that they end.
    The loops over parents and over the index (find, commit, rewind, discard)
    run on the size of the heap or of the index, and the theorems about them
    prove results, not just partial correctness: parents have lower
    locations, and an index holds each node once.  Loops of the mempool over
    objects run on the number of keys stored in the heap, the loop of the
    block applicator on the number of waiting blocks.  System calls and
    contracts nest by [knot_at] to a depth of 258 ([full_depth]);
    [stack_bounds_depth] shows that no greater depth has another result, as
    every level pushes a frame and the stack is limited to 256.  The host
    calls of one contract run on a fuel that is a parameter of every theorem:
    the meter ends a contract, by ticks that only the interpreter counts.
    [to_string] prints up to 21 digits, one more than a 64-bit number has.
    The loop of submissions of the producer runs on the number of transactions,
    which [produce_once_terminates] shows to be enough.  The indexer is a
    function from a state and a step to a state, without fuel; [index_answers]
    shows that it can always end.

    ** What is not modelled

    Deltas over a RocksDB backend, but for their commit: StateDelta is over
    the map backend, and the simulation between the backends is stated for
    themselves.  Memory that runs out, but for the one allocation whose size
    a peer announces, and the native stack of recursive functions.  Sockets and
    transports, the gRPC server, configuration, migration and backup, which
    are input and output.  Of execution: log lines and the rendering of times;
    a null context of fizzy; the order that [std::sort] gives fork heads of
    one height, where the model keeps the order it finds; and a session is
    held by the meter and the chronicler each, of which the innermost counts
    if a transaction were applied inside another.
    Locks are modelled by whether they are owned and by interference, not as
    a memory model; the clock, random choices and floating-point decay are
    arguments.  The mempool is proved for the [fifo] fork resolution, which the
    program uses, for transactions that reserve resources ([rc_limit] not
    zero) and for blocks that arrive once.

    ** Conditions of the theorems

    Some theorems hold under conditions that the code does not check; each
    claim states its own, and what happens outside of them is a lemma or a
    finding.  The invariant of the state database is kept by commits on the
    head's chain ([commit_off_head]); the RocksDB backend is the map backend
    while reads of the database succeed and objects fit into the cache; the
    meter counts exactly below 2^63 ([default_limit_wraps]); an account's
    history is its own where no address extends another
    ([foreign_records]). *)

From Stdlib Require Export ZArith Lia Ascii String.
From stdpp Require Export base tactics option list gmap strings fin_maps sorting.

#[global] Close Scope string_scope.
#[global] Open Scope Z_scope.
#[global] Set Default Goal Selector "!".

(** ** Machine integers

    A [w]-bit unsigned integer is the [Z] in [0, 2^w); every C++ operation
    that can leave that range is written with the wrap-around it has. *)

Definition wrap (w x : Z) : Z := x `mod` 2 ^ w.

Definition u8 : Z → Z := wrap 8.
Definition u16 : Z → Z := wrap 16.
Definition u32 : Z → Z := wrap 32.
Definition u64 : Z → Z := wrap 64.

(** [static_cast< intW_t >] of an unsigned value: the two's complement
    reading of the low [w] bits. *)
Definition signed (w x : Z) : Z :=
  let y := wrap w x in if y <? 2 ^ (w - 1) then y else y - 2 ^ w.

Definition i8 : Z → Z := signed 8.
Definition i16 : Z → Z := signed 16.
Definition i32 : Z → Z := signed 32.
Definition i64 : Z → Z := signed 64.

Definition is_u32 (x : Z) : Prop := 0 ≤ x < 2 ^ 32.
Definition is_u64 (x : Z) : Prop := 0 ≤ x < 2 ^ 64.
Definition is_i64 (x : Z) : Prop := - 2 ^ 63 ≤ x < 2 ^ 63.

Definition u16_max : Z := 2 ^ 16 - 1.
Definition u32_max : Z := 2 ^ 32 - 1.
Definition u64_max : Z := 2 ^ 64 - 1.
Definition i64_max : Z := 2 ^ 63 - 1.

#[global] Instance is_u32_dec x : Decision (is_u32 x).
Proof. unfold is_u32. apply _. Defined.
#[global] Instance is_u64_dec x : Decision (is_u64 x).
Proof. unfold is_u64. apply _. Defined.
#[global] Instance is_i64_dec x : Decision (is_i64 x).
Proof. unfold is_i64. apply _. Defined.

Lemma wrap_small w x : 0 ≤ x < 2 ^ w → wrap w x = x.
Proof. apply Z.mod_small. Qed.

Lemma u64_small x : 0 ≤ x < 2 ^ 64 → u64 x = x.
Proof. apply wrap_small. Qed.

Lemma u32_small x : 0 ≤ x < 2 ^ 32 → u32 x = x.
Proof. apply wrap_small. Qed.

Lemma wrap_range w x : 0 ≤ w → 0 ≤ wrap w x < 2 ^ w.
Proof. intros Hw. apply Z.mod_pos_bound. lia. Qed.

Lemma signed_range w x : 0 < w → - 2 ^ (w - 1) ≤ signed w x < 2 ^ (w - 1).
Proof.
  intros Hw. unfold signed.
  pose proof (wrap_range w x ltac:(lia)).
  assert (2 ^ w = 2 * 2 ^ (w - 1)) by (rewrite <- Z.pow_succ_r by lia; f_equal; lia).
  destruct (Z.ltb_spec (wrap w x) (2 ^ (w - 1))); lia.
Qed.

Lemma signed_small w x : 0 < w → - 2 ^ (w - 1) ≤ x < 2 ^ (w - 1) → signed w x = x.
Proof.
  intros Hw Hx. unfold signed, wrap.
  assert (2 ^ w = 2 * 2 ^ (w - 1)) by (rewrite <- Z.pow_succ_r by lia; f_equal; lia).
  destruct (decide (0 ≤ x)) as [Hp|Hn].
  - rewrite Z.mod_small by lia. destruct (Z.ltb_spec x (2 ^ (w - 1))); lia.
  - rewrite <- (Z.mod_add x 1 (2 ^ w)), Z.mod_small by lia.
    destruct (Z.ltb_spec (x + 1 * 2 ^ w) (2 ^ (w - 1))); lia.
Qed.

(** ** Programs: state, exceptions and fuel

    A C++ member function is a [prog]: it takes the state of its object,
    and leaves a new state behind whether it returns or throws.  A loop
    whose bound is not structural is run on fuel; [OutOfFuel] is the value
    of a run that was cut short, and the termination theorems show that it
    never comes out. *)

Inductive outcome (E A : Type) : Type :=
| Ok (a : A)
| Throw (e : E)
| OutOfFuel.
Arguments Ok {E A} a.
Arguments Throw {E A} e.
Arguments OutOfFuel {E A}.

Definition prog (S E A : Type) : Type := S → outcome E A * S.

#[global] Instance prog_ret {S E} : MRet (prog S E) := λ A a s, (Ok a, s).

#[global] Instance prog_bind {S E} : MBind (prog S E) := λ A B k m s,
  match m s with
  | (Ok a, s') => k a s'
  | (Throw e, s') => (Throw e, s')
  | (OutOfFuel, s') => (OutOfFuel, s')
  end.

Section Effects.
Context {S E : Type}.

Definition get_state : prog S E S := λ s, (Ok s, s).
Definition gets_state {A} (f : S → A) : prog S E A := λ s, (Ok (f s), s).
Definition put_state (s' : S) : prog S E unit := λ _, (Ok tt, s').
Definition mod_state (f : S → S) : prog S E unit := λ s, (Ok tt, f s).
Definition raise {A} (e : E) : prog S E A := λ s, (Throw e, s).

(** [KOINOS_ASSERT( cond, exception, ... )]. *)
Definition assert_that (b : bool) (e : E) : prog S E unit :=
  if b then mret tt else raise e.

(** [try { m } catch( ... ) { h }]: the handler sees the state the
    exception left behind. *)
Definition try_catch {A} (m : prog S E A) (h : E → prog S E A) : prog S E A := λ s,
  match m s with
  | (Throw e, s') => h e s'
  | r => r
  end.

(** [for( i = 0; i < n; ++i ) body], threading the values the body
    updates; one unit of fuel per iteration. *)
Fixpoint for_loop {A} (fuel : nat) (n : Z) (body : A → prog S E A) (a : A) : prog S E A :=
  if n <=? 0 then mret a
  else match fuel with
       | O => λ s, (OutOfFuel, s)
       | Datatypes.S fuel' => body a ≫= for_loop fuel' (n - 1) body
       end.

End Effects.

Arguments for_loop {S E A} fuel n body a : simpl never.

Section EffectsFacts.
Context {S E : Type}.

Lemma run_bind {A B} (m : prog S E A) (k : A → prog S E B) s :
  (m ≫= k) s = match m s with
               | (Ok a, s') => k a s'
               | (Throw e, s') => (Throw e, s')
               | (OutOfFuel, s') => (OutOfFuel, s')
               end.
Proof. reflexivity. Qed.

Lemma run_gets {A B} (f : S → A) (k : A → prog S E B) s : (gets_state f ≫= k) s = k (f s) s.
Proof. reflexivity. Qed.

Lemma run_bind_ok {A B} (m : prog S E A) (k : A → prog S E B) s a s' :
  m s = (Ok a, s') → (m ≫= k) s = k a s'.
Proof. intros H. rewrite run_bind, H. reflexivity. Qed.

Lemma bind_ok_inv {A B} (m : prog S E A) (k : A → prog S E B) s b s' :
  (m ≫= k) s = (Ok b, s') → ∃ a s1, m s = (Ok a, s1) ∧ k a s1 = (Ok b, s').
Proof.
  rewrite run_bind. destruct (m s) as [[a|e|] s1]; [eauto|congruence..].
Qed.

Lemma for_loop_stop {A} fuel n (body : A → prog S E A) a :
  n ≤ 0 → for_loop fuel n body a = mret a.
Proof. intros Hn. destruct fuel; simpl; unfold for_loop; destruct (Z.leb_spec n 0); done || lia. Qed.

Lemma for_loop_step {A} fuel n (body : A → prog S E A) a :
  0 < n → for_loop (Datatypes.S fuel) n body a = body a ≫= for_loop fuel (n - 1) body.
Proof. intros Hn. unfold for_loop at 1. destruct (Z.leb_spec n 0); [lia|reflexivity]. Qed.

End EffectsFacts.

(** ** Bytes

    [std::string] and [std::string_view] as byte sequences. *)

Abbreviation bytes := (list ascii).

(** [static_cast< char >( x )]. *)
Definition byte_of (x : Z) : ascii := ascii_of_N (Z.to_N (u8 x)).

(** [static_cast< uint8_t >( c )]. *)
Definition code (c : ascii) : Z := Z.of_N (N_of_ascii c).

(** A string literal. *)
Definition str (s : string) : bytes := list_ascii_of_string s.

Lemma code_range c : 0 ≤ code c < 256.
Proof. unfold code. pose proof (N_ascii_bounded c). lia. Qed.

Lemma code_byte_of x : code (byte_of x) = u8 x.
Proof.
  unfold code, byte_of. pose proof (wrap_range 8 x ltac:(lia)) as Hr.
  change (2 ^ 8) with 256 in Hr. unfold u8 in *.
  rewrite N_ascii_embedding by lia. lia.
Qed.

Lemma code_byte_of_small x : 0 ≤ x < 256 → code (byte_of x) = x.
Proof. intros Hx. rewrite code_byte_of. apply wrap_small. exact Hx. Qed.

Lemma drop_app_exact {A} (l1 l2 : list A) n : n = length l1 → drop n (l1 ++ l2) = l2.
Proof. intros ->. apply drop_app_length. Qed.

Lemma lookup_app_exact {A} (l1 l2 : list A) x n :
  n = length l1 → (l1 ++ x :: l2) !! n = Some x.
Proof. intros ->. apply list_lookup_middle. reflexivity. Qed.

Lemma filter_ext_in {A} (P Q : A → Prop) `{!∀ x, Decision (P x), !∀ x, Decision (Q x)} (l : list A) :
  (∀ x, x ∈ l → P x ↔ Q x) → filter P l = filter Q l.
Proof.
  induction l as [|x l IH]; intros Hin; [done|]. rewrite !filter_cons.
  rewrite IH by (intros; apply Hin; by right). specialize (Hin x ltac:(by left)).
  destruct (decide (P x)), (decide (Q x)); tauto.
Qed.

Lemma filter_all {A} (P : A → Prop) `{!∀ x, Decision (P x)} (l : list A) :
  (∀ x, x ∈ l → P x) → filter P l = l.
Proof.
  induction l as [|x l IH]; intros Hin; [done|]. rewrite filter_cons, IH by (intros; apply Hin; by right).
  rewrite decide_True; [done|]. apply Hin. by left.
Qed.

(** ** Big-endian composition

    [( hi << k ) | lo] is [hi * 2^k + lo] when [lo] fits in [k] bits, which
    turns the shifts and masks of the codecs into arithmetic for [lia]. *)

Lemma lor_shiftl_add hi lo k : 0 ≤ k → 0 ≤ lo < 2 ^ k → Z.lor (Z.shiftl hi k) lo = hi * 2 ^ k + lo.
Proof.
  intros Hk Hlo. rewrite <- Z.shiftl_mul_pow2 by lia.
  rewrite <- Z.add_lor_land.
  assert (Z.land (Z.shiftl hi k) lo = 0) as ->; [|lia].
  apply Z.bits_inj'. intros i Hi. rewrite Z.land_spec, Z.bits_0.
  destruct (decide (i < k)).
  - rewrite Z.shiftl_spec_low by lia. reflexivity.
  - replace lo with (lo `mod` 2 ^ k) by (apply Z.mod_small; lia).
    rewrite Z.mod_pow2_bits_high by lia. apply andb_false_r.
Qed.

Lemma land_255 x : Z.land x 255 = x `mod` 256.
Proof. apply (Z.land_ones x 8). lia. Qed.

(** Discharge a closed, decidable hypothesis by evaluation. *)
Ltac concrete :=
  repeat match goal with
  | |- _ ∧ _ => split
  | |- Forall _ _ => constructor
  | |- _ => progress vm_compute
  end; try done; try congruence.

Ltac decided := apply (bool_decide_unpack _); vm_compute; exact I.
