(* ===== verification/GorpcCodec.v ===== *)
(** The msgpack codec of the Peer RPC protocol: [src/src/p2p/gorpc_codec.cpp]
    and [src/src/p2p/gorpc_codec.hpp].

    The encoders append to a byte string; the decoders are programs over a
    [Reader], a byte string with a read position, that throw [DecodeErr].
    [OutOfBounds] marks an unchecked [_raw[ index ]] beyond the end of the
    buffer, which is undefined behaviour in the source; [GorpcFacts] shows
    that no decoder reaches it.  [BadAlloc] is the [std::bad_alloc] of the one
    allocation whose size a message announces; memory for what a message
    holds, and a native stack for the recursion of [skip], are assumed. *)

From S2P Require Import Prelude.

Module Gorpc.

Definition mp_nil     : Z := 0xc0.
Definition mp_false   : Z := 0xc2.
Definition mp_true    : Z := 0xc3.
Definition mp_bin8    : Z := 0xc4.
Definition mp_bin16   : Z := 0xc5.
Definition mp_bin32   : Z := 0xc6.
Definition mp_float32 : Z := 0xca.
Definition mp_float64 : Z := 0xcb.
Definition mp_uint8   : Z := 0xcc.
Definition mp_uint16  : Z := 0xcd.
Definition mp_uint32  : Z := 0xce.
Definition mp_uint64  : Z := 0xcf.
Definition mp_int8    : Z := 0xd0.
Definition mp_int16   : Z := 0xd1.
Definition mp_int32   : Z := 0xd2.
Definition mp_int64   : Z := 0xd3.
Definition mp_str8    : Z := 0xd9.
Definition mp_str16   : Z := 0xda.
Definition mp_str32   : Z := 0xdb.
Definition mp_array16 : Z := 0xdc.
Definition mp_array32 : Z := 0xdd.
Definition mp_map16   : Z := 0xde.
Definition mp_map32   : Z := 0xdf.

(** ** The data of [gorpc_codec.hpp] *)

Inductive DecodeError : Type :=
| DecodeErr (message : string) (truncated : bool)
| OutOfBounds
| BadAlloc.

(** [DecodeError::truncated()]. *)
Definition truncated (e : DecodeError) : bool :=
  match e with DecodeErr _ t => t | OutOfBounds | BadAlloc => false end.

(** The memory of the process: the longest list of strings that
    [std::vector< std::string >::reserve] finds room for, which is 32 bytes for
    each; two megabytes are there. *)
Class Memory := { max_strings : Z; max_strings_large : 2 ^ 16 ≤ max_strings }.

Record ServiceID := mkServiceID { name : bytes; method : bytes }.

(** [enum class ErrorType : uint64_t]: any 64-bit value may be cast to it. *)
Definition ErrorType := Z.
Definition non_rpc : ErrorType := 0.
Definition server : ErrorType := 1.
Definition client : ErrorType := 2.
Definition authorization : ErrorType := 3.

Record ResponseHeader := mkResponseHeader {
  service : ServiceID;
  error : bytes;
  err_type : ErrorType
}.

Record Response := mkResponse { header : ResponseHeader; payload : bytes }.

Record DecodedRequest := mkDecodedRequest { req_service : ServiceID; args : bytes }.

Record HeadBlockResponse := mkHeadBlockResponse { id : bytes; height : Z }.

Record AncestorBlockIDRequest := mkAncestorBlockIDRequest {
  parent_id : bytes;
  child_height : Z
}.

Record BlocksRequest := mkBlocksRequest {
  head_block_id : bytes;
  start_block_height : Z;
  num_blocks : Z
}.

(** ** Writing *)

Definition append_u16 (out : bytes) (value : Z) : bytes :=
  out ++ [byte_of (Z.land (Z.shiftr value 8) 0xff); byte_of (Z.land value 0xff)].

Definition append_u32 (out : bytes) (value : Z) : bytes :=
  out ++ [byte_of (Z.land (Z.shiftr value 24) 0xff);
          byte_of (Z.land (Z.shiftr value 16) 0xff);
          byte_of (Z.land (Z.shiftr value 8) 0xff);
          byte_of (Z.land value 0xff)].

Definition append_u64 (out : bytes) (value : Z) : bytes :=
  let out := append_u32 out (u32 (Z.shiftr value 32)) in
  append_u32 out (u32 (Z.land value 0xffffffff)).

Definition size (l : bytes) : Z := Z.of_nat (length l).

Definition append_map_header (out : bytes) (size : Z) : bytes :=
  if size <? 16 then
    out ++ [byte_of (Z.lor 0x80 size)]
  else if size <=? u16_max then
    append_u16 (out ++ [byte_of mp_map16]) (u16 size)
  else
    append_u32 (out ++ [byte_of mp_map32]) (u32 size).

Definition append_array_header (out : bytes) (size : Z) : bytes :=
  if size <? 16 then
    out ++ [byte_of (Z.lor 0x90 size)]
  else if size <=? u16_max then
    append_u16 (out ++ [byte_of mp_array16]) (u16 size)
  else
    append_u32 (out ++ [byte_of mp_array32]) (u32 size).

Definition append_raw (out value : bytes) : bytes :=
  let out :=
    if size value <? 32 then
      out ++ [byte_of (Z.lor 0xa0 (size value))]
    else if size value <=? u16_max then
      append_u16 (out ++ [byte_of mp_str16]) (u16 (size value))
    else
      append_u32 (out ++ [byte_of mp_str32]) (u32 (size value)) in
  out ++ value.

Definition append_uint (out : bytes) (value : Z) : bytes :=
  if value <=? 0x7f then
    out ++ [byte_of value]
  else if value <=? 2 ^ 8 - 1 then
    out ++ [byte_of mp_uint8; byte_of value]
  else if value <=? u16_max then
    append_u16 (out ++ [byte_of mp_uint16]) (u16 value)
  else if value <=? u32_max then
    append_u32 (out ++ [byte_of mp_uint32]) (u32 value)
  else
    append_u64 (out ++ [byte_of mp_uint64]) value.

Definition append_service_id (out service method : bytes) : bytes :=
  let out := append_map_header out 2 in
  let out := append_raw out (str "Name") in
  let out := append_raw out service in
  let out := append_raw out (str "Method") in
  append_raw out method.

(** ** Reading *)

Record Reader := mkReader { _raw : bytes; _pos : nat }.

Abbreviation reader := (prog Reader DecodeError).

(** [_raw.size()]. *)
Definition raw_size (r : Reader) : Z := size (_raw r).

Definition position : reader nat := gets_state _pos.

Definition done : reader bool := gets_state (λ r, Z.of_nat (_pos r) =? raw_size r).

Definition slice (begin end_ : nat) : reader bytes :=
  gets_state (λ r, take (end_ - begin) (drop begin (_raw r))).

(** [_pos += count]. *)
Definition advance (count : Z) : reader unit :=
  mod_state (λ r, mkReader (_raw r) (_pos r + Z.to_nat count)).

Definition byte_at (index : nat) : reader Z :=
  λ r, match _raw r !! index with
       | Some c => (Ok (code c), r)
       | None => (Throw OutOfBounds, r)
       end.

(** [count > _raw.size() - _pos] compares unsigned 64-bit values. *)
Definition ensure (count : Z) : reader unit :=
  r ← get_state;
  if u64 (raw_size r - Z.of_nat (_pos r)) <? count
  then raise (DecodeErr "truncated msgpack object" true)
  else mret tt.

Definition read_byte : reader Z :=
  r ← get_state;
  if raw_size r <=? Z.of_nat (_pos r)
  then raise (DecodeErr "truncated msgpack object" true)
  else b ← byte_at (_pos r);
       advance 1;;
       mret b.

Definition read_u16 : reader Z :=
  ensure 2;;
  r ← get_state;
  b0 ← byte_at (_pos r);
  b1 ← byte_at (_pos r + 1);
  advance 2;;
  mret (u16 (Z.lor (Z.shiftl b0 8) b1)).

Definition read_u32 : reader Z :=
  ensure 4;;
  r ← get_state;
  b0 ← byte_at (_pos r);
  b1 ← byte_at (_pos r + 1);
  b2 ← byte_at (_pos r + 2);
  b3 ← byte_at (_pos r + 3);
  advance 4;;
  mret (u32 (Z.lor (Z.lor (Z.lor (Z.shiftl b0 24) (Z.shiftl b1 16)) (Z.shiftl b2 8)) b3)).

Definition read_u64 : reader Z :=
  hi ← read_u32;
  lo ← read_u32;
  mret (Z.lor (u64 (Z.shiftl hi 32)) lo).

Definition negative_error : DecodeError :=
  DecodeErr "negative msgpack integer where unsigned integer was expected" false.

(** The [mp_intN] cases of [read_uint]: a negative value is refused. *)
Definition read_signed (value : Z) : reader Z :=
  if value <? 0 then raise negative_error else mret (u64 value).

Definition read_uint : reader Z :=
  b ← read_byte;
  if b <=? 0x7f then mret b
  else if 0xe0 <=? b then raise negative_error
  else if b =? mp_uint8 then read_byte
  else if b =? mp_uint16 then read_u16
  else if b =? mp_uint32 then read_u32
  else if b =? mp_uint64 then read_u64
  else if b =? mp_int8 then value ← read_byte; read_signed (i8 value)
  else if b =? mp_int16 then value ← read_u16; read_signed (i16 value)
  else if b =? mp_int32 then value ← read_u32; read_signed (i32 value)
  else if b =? mp_int64 then
    raw ← read_u64;
    if negb (Z.land raw (Z.shiftl 1 63) =? 0) then raise negative_error else mret raw
  else raise (DecodeErr "msgpack value is not an unsigned integer" false).

Definition read_raw_size (b : Z) : reader Z :=
  if Z.land b 0xe0 =? 0xa0 then mret (Z.land b 0x1f)
  else if (b =? mp_str8) || (b =? mp_bin8) then read_byte
  else if (b =? mp_str16) || (b =? mp_bin16) then read_u16
  else if (b =? mp_str32) || (b =? mp_bin32) then read_u32
  else raise (DecodeErr "msgpack value is not raw/string data" false).

Definition read_raw : reader bytes :=
  b ← read_byte;
  size ← read_raw_size b;
  ensure size;;
  r ← get_state;
  let value := take (Z.to_nat size) (drop (_pos r) (_raw r)) in
  advance size;;
  mret value.

Definition read_map_size : reader Z :=
  b ← read_byte;
  if Z.land b 0xf0 =? 0x80 then mret (Z.land b 0x0f)
  else if b =? mp_map16 then read_u16
  else if b =? mp_map32 then read_u32
  else raise (DecodeErr "msgpack value is not a map" false).

Definition read_array_size : reader Z :=
  b ← read_byte;
  if Z.land b 0xf0 =? 0x90 then mret (Z.land b 0x0f)
  else if b =? mp_array16 then read_u16
  else if b =? mp_array32 then read_u32
  else raise (DecodeErr "msgpack value is not an array" false).

Definition read_nil : reader unit :=
  b ← read_byte;
  if negb (b =? mp_nil) then raise (DecodeErr "msgpack value is not nil" false)
  else mret tt.

(** [for( size_t i = 0; i < n; ++i ) body]: every iteration of a decoding
    loop reads at least one byte, so the bytes of the buffer and one more
    unit are fuel enough. *)
Definition for_each {A} (n : Z) (body : A → reader A) (a : A) : reader A :=
  r ← get_state;
  for_loop (S (length (_raw r))) n body a.

(** [Reader::skip].  [depth] bounds the nesting of the containers the
    recursion descends into. *)
Fixpoint skip_depth (depth : nat) : reader unit :=
  match depth with
  | O => λ r, (OutOfFuel, r)
  | S depth' =>
    b ← read_byte;
    if (b <=? 0x7f) || (0xe0 <=? b) || (b =? mp_nil) || (b =? mp_false) || (b =? mp_true)
    then mret tt
    else if (Z.land b 0xe0 =? 0xa0) || (b =? mp_str8) || (b =? mp_str16) || (b =? mp_str32)
            || (b =? mp_bin8) || (b =? mp_bin16) || (b =? mp_bin32)
    then size ← read_raw_size b;
         ensure size;;
         advance size
    else if (Z.land b 0xf0 =? 0x90) || (b =? mp_array16) || (b =? mp_array32)
    then size ← (if Z.land b 0xf0 =? 0x90 then mret (Z.land b 0x0f)
                 else if b =? mp_array16 then read_u16
                 else read_u32);
         for_each size (λ _, skip_depth depth') tt
    else if (Z.land b 0xf0 =? 0x80) || (b =? mp_map16) || (b =? mp_map32)
    then size ← (if Z.land b 0xf0 =? 0x80 then mret (Z.land b 0x0f)
                 else if b =? mp_map16 then read_u16
                 else read_u32);
         for_each size (λ _, skip_depth depth';; skip_depth depth') tt
    else if (b =? mp_uint8) || (b =? mp_int8) then ensure 1;; advance 1
    else if (b =? mp_uint16) || (b =? mp_int16) then ensure 2;; advance 2
    else if (b =? mp_uint32) || (b =? mp_int32) || (b =? mp_float32) then ensure 4;; advance 4
    else if (b =? mp_uint64) || (b =? mp_int64) || (b =? mp_float64) then ensure 8;; advance 8
    else raise (DecodeErr "unsupported msgpack descriptor" false)
  end.

(** A value nests no deeper than it has bytes. *)
Definition skip : reader unit :=
  r ← get_state;
  skip_depth (S (length (_raw r))).

(** ** Structures *)

(** [key == literal] of a [std::string]. *)
Definition is_key (key : bytes) (literal : string) : bool := bool_decide (key = str literal).

Definition is_empty (value : bytes) : bool := bool_decide (value = []).

Definition read_service_id : reader ServiceID :=
  map_size ← read_map_size;
  service ← for_each map_size (λ service : ServiceID,
    key ← read_raw;
    if is_key key "Name" then
      value ← read_raw; mret (mkServiceID value (method service))
    else if is_key key "Method" then
      value ← read_raw; mret (mkServiceID (name service) value)
    else skip;; mret service) (mkServiceID [] []);
  if is_empty (name service) || is_empty (method service)
  then raise (DecodeErr "gorpc ServiceID is missing Name or Method" false)
  else mret service.

Definition read_response_header : reader ResponseHeader :=
  map_size ← read_map_size;
  for_each map_size (λ header : ResponseHeader,
    key ← read_raw;
    if is_key key "Service" then
      value ← read_service_id;
      mret (mkResponseHeader value (error header) (err_type header))
    else if is_key key "Error" then
      value ← read_raw;
      mret (mkResponseHeader (service header) value (err_type header))
    else if is_key key "ErrType" then
      value ← read_uint;
      mret (mkResponseHeader (service header) (error header) value)
    else skip;; mret header) (mkResponseHeader (mkServiceID [] []) [] non_rpc).

Definition read_id_field_response : reader bytes :=
  map_size ← read_map_size;
  for_each map_size (λ id : bytes,
    key ← read_raw;
    if is_key key "ID" then read_raw
    else skip;; mret id) [].

(** ** The encoders *)

Definition encode_empty_request : bytes := append_map_header [] 0.

Definition encode_get_ancestor_block_id_request (parent_id : bytes) (child_height : Z) : bytes :=
  let out := append_map_header [] 2 in
  let out := append_raw out (str "ParentID") in
  let out := append_raw out parent_id in
  let out := append_raw out (str "ChildHeight") in
  append_uint out child_height.

Definition encode_get_blocks_request (head_block_id : bytes) (start_block_height num_blocks : Z)
  : bytes :=
  let out := append_map_header [] 3 in
  let out := append_raw out (str "HeadBlockID") in
  let out := append_raw out head_block_id in
  let out := append_raw out (str "StartBlockHeight") in
  let out := append_uint out start_block_height in
  let out := append_raw out (str "NumBlocks") in
  append_uint out num_blocks.

Definition encode_id_response (id : bytes) : bytes :=
  let out := append_map_header [] 1 in
  let out := append_raw out (str "ID") in
  append_raw out id.

Definition encode_head_block_response (id : bytes) (height : Z) : bytes :=
  let out := append_map_header [] 2 in
  let out := append_raw out (str "ID") in
  let out := append_raw out id in
  let out := append_raw out (str "Height") in
  append_uint out height.

Definition encode_blocks_response (block_payloads : list bytes) : bytes :=
  let out := append_map_header [] 1 in
  let out := append_raw out (str "Blocks") in
  let out := append_array_header out (Z.of_nat (length block_payloads)) in
  fold_left append_raw block_payloads out.

Definition encode_request (service method msgpack_args : bytes) : bytes :=
  append_service_id [] service method ++ msgpack_args.

Definition encode_success_response (service : ServiceID) (msgpack_payload : bytes) : bytes :=
  let out := append_map_header [] 1 in
  let out := append_raw out (str "Service") in
  let out := append_service_id out (name service) (method service) in
  out ++ msgpack_payload.

Definition encode_error_response (service : ServiceID) (error : bytes) (err_type : ErrorType)
  : bytes :=
  let out := append_map_header [] 3 in
  let out := append_raw out (str "Service") in
  let out := append_service_id out (name service) (method service) in
  let out := append_raw out (str "Error") in
  let out := append_raw out error in
  let out := append_raw out (str "ErrType") in
  let out := append_uint out err_type in
  out ++ [byte_of mp_nil].

(** ** The decoders *)

(** [Reader reader( raw )], then the body of the decoder. *)
Definition run_reader {A} (m : reader A) (raw : bytes) : outcome DecodeError A :=
  fst (m (mkReader raw 0)).

(** [if( !reader.done() ) throw DecodeError( message, false )]. *)
Definition expect_done (message : string) : reader unit :=
  d ← done;
  if negb d then raise (DecodeErr message false) else mret tt.

Definition decode_request : bytes → outcome DecodeError DecodedRequest :=
  run_reader (
    service ← read_service_id;
    args_begin ← position;
    skip;;
    args_end ← position;
    args ← slice args_begin args_end;
    mret (mkDecodedRequest service args)).

Definition decode_response : bytes → outcome DecodeError Response :=
  run_reader (
    header ← read_response_header;
    payload_begin ← position;
    skip;;
    payload_end ← position;
    payload ← slice payload_begin payload_end;
    mret (mkResponse header payload)).

Definition decode_get_ancestor_block_id_request
  : bytes → outcome DecodeError AncestorBlockIDRequest :=
  run_reader (
    map_size ← read_map_size;
    request ← for_each map_size (λ request : AncestorBlockIDRequest,
      key ← read_raw;
      if is_key key "ParentID" then
        value ← read_raw; mret (mkAncestorBlockIDRequest value (child_height request))
      else if is_key key "ChildHeight" then
        value ← read_uint; mret (mkAncestorBlockIDRequest (parent_id request) value)
      else skip;; mret request) (mkAncestorBlockIDRequest [] 0);
    expect_done "trailing bytes after GetAncestorBlockID request";;
    mret request).

Definition decode_get_blocks_request : bytes → outcome DecodeError BlocksRequest :=
  run_reader (
    map_size ← read_map_size;
    request ← for_each map_size (λ request : BlocksRequest,
      key ← read_raw;
      if is_key key "HeadBlockID" then
        value ← read_raw;
        mret (mkBlocksRequest value (start_block_height request) (num_blocks request))
      else if is_key key "StartBlockHeight" then
        value ← read_uint;
        mret (mkBlocksRequest (head_block_id request) value (num_blocks request))
      else if is_key key "NumBlocks" then
        value ← read_uint;
        if u32_max <? value
        then raise (DecodeErr "GetBlocks NumBlocks exceeds uint32" false)
        else mret (mkBlocksRequest (head_block_id request) (start_block_height request) (u32 value))
      else skip;; mret request) (mkBlocksRequest [] 0 0);
    expect_done "trailing bytes after GetBlocks request";;
    mret request).

Definition decode_id_response : bytes → outcome DecodeError bytes :=
  run_reader (
    id ← read_id_field_response;
    expect_done "trailing bytes after ID response";;
    mret id).

Definition decode_head_block_response : bytes → outcome DecodeError HeadBlockResponse :=
  run_reader (
    map_size ← read_map_size;
    response ← for_each map_size (λ response : HeadBlockResponse,
      key ← read_raw;
      if is_key key "ID" then
        value ← read_raw; mret (mkHeadBlockResponse value (height response))
      else if is_key key "Height" then
        value ← read_uint; mret (mkHeadBlockResponse (id response) value)
      else skip;; mret response) (mkHeadBlockResponse [] 0);
    expect_done "trailing bytes after head block response";;
    mret response).

(** [blocks.reserve( block_count )]: the count is what the message announces. *)
Definition reserve `{!Memory} (block_count : Z) : reader unit := assert_that (block_count <=? max_strings) BadAlloc.

Definition decode_blocks_response `{!Memory} : bytes → outcome DecodeError (list bytes) :=
  run_reader (
    map_size ← read_map_size;
    blocks ← for_each map_size (λ blocks : list bytes,
      key ← read_raw;
      if is_key key "Blocks" then
        block_count ← read_array_size;
        reserve block_count;;
        for_each block_count (λ blocks : list bytes,
          value ← read_raw; mret (blocks ++ [value])) blocks
      else skip;; mret blocks) [];
    expect_done "trailing bytes after blocks response";;
    mret blocks).

End Gorpc.
