(* ===== verification/GorpcFacts.v ===== *)
(** Facts about the msgpack reader: the two program logics the codec's
    theorems are proved in.

    - [good]: on any buffer a program returns or throws a [DecodeErr],
      moves forward within the buffer, and, when the buffer is cut inside
      the bytes it consumes, throws a truncation error;
    - [reads]: a program consumes exactly a given encoding.

    What the decoders read of what the encoders write: the logic [reads],
    the msgpack values the codec produces, and the encodings of the Peer RPC
    structures as such values. *)

From S2P Require Import Prelude GorpcCodec.
Import Gorpc.

(** ** Arithmetic of the writers *)

Lemma u16_bytes v :
  0 ≤ v < 2 ^ 16 →
  u16 (Z.lor (Z.shiftl (code (byte_of (Z.land (Z.shiftr v 8) 255))) 8)
             (code (byte_of (Z.land v 255)))) = v.
Proof.
  intros Hv. rewrite !land_255, !Z.shiftr_div_pow2 by lia.
  rewrite !code_byte_of_small by (Z.div_mod_to_equations; lia).
  rewrite lor_shiftl_add by (Z.div_mod_to_equations; lia).
  unfold u16, wrap. Z.div_mod_to_equations; lia.
Qed.

Lemma u32_bytes v :
  0 ≤ v < 2 ^ 32 →
  u32 (Z.lor (Z.lor (Z.lor
    (Z.shiftl (code (byte_of (Z.land (Z.shiftr v 24) 255))) 24)
    (Z.shiftl (code (byte_of (Z.land (Z.shiftr v 16) 255))) 16))
    (Z.shiftl (code (byte_of (Z.land (Z.shiftr v 8) 255))) 8))
    (code (byte_of (Z.land v 255)))) = v.
Proof.
  intros Hv. rewrite !land_255, !Z.shiftr_div_pow2 by lia.
  rewrite !code_byte_of_small by (Z.div_mod_to_equations; lia).
  rewrite <- !Z.lor_assoc.
  rewrite (lor_shiftl_add (_ `mod` 256) (v `mod` 256)) by (Z.div_mod_to_equations; lia).
  rewrite (lor_shiftl_add _ (_ * 2 ^ 8 + _)) by (Z.div_mod_to_equations; lia).
  rewrite lor_shiftl_add by (Z.div_mod_to_equations; lia).
  unfold u32, wrap. Z.div_mod_to_equations; lia.
Qed.

Lemma u64_halves v :
  0 ≤ v < 2 ^ 64 →
  Z.lor (u64 (Z.shiftl (u32 (Z.shiftr v 32)) 32)) (u32 (Z.land v 0xffffffff)) = v.
Proof.
  intros Hv. change 0xffffffff with (Z.ones 32). rewrite Z.land_ones by lia.
  rewrite Z.shiftr_div_pow2 by lia.
  unfold u32, u64. rewrite (wrap_small 32 (v / _)) by (Z.div_mod_to_equations; lia).
  rewrite (wrap_small 32 (v `mod` _)) by (Z.div_mod_to_equations; lia).
  rewrite wrap_small.
  2: { rewrite Z.shiftl_mul_pow2 by lia. Z.div_mod_to_equations; lia. }
  rewrite lor_shiftl_add by (Z.div_mod_to_equations; lia). Z.div_mod_to_equations; lia.
Qed.

(** The tag of a short object carries its size in the low bits. *)
Lemma tag_small tag bits n :
  0 ≤ bits ≤ 8 → 0 ≤ n < 2 ^ bits → 0 ≤ tag → Z.lor (Z.shiftl tag bits) n < 256 →
  Z.land (code (byte_of (Z.lor (Z.shiftl tag bits) n))) (Z.ones bits) = n ∧
  Z.land (code (byte_of (Z.lor (Z.shiftl tag bits) n))) (Z.shiftl (Z.ones (8 - bits)) bits)
    = Z.shiftl tag bits.
Proof.
  intros Hb Hn Ht Hlt.
  assert (0 ≤ Z.lor (Z.shiftl tag bits) n).
  { apply Z.lor_nonneg. rewrite Z.shiftl_nonneg. lia. }
  rewrite code_byte_of_small by lia.
  rewrite lor_shiftl_add in * by lia.
  split.
  - rewrite Z.land_ones by lia. rewrite Z.add_comm, Z.mod_add by lia. apply Z.mod_small. lia.
  - apply Z.bits_inj'. intros i Hi.
    rewrite Z.land_spec.
    destruct (decide (i < bits)).
    { rewrite !(Z.shiftl_spec_low _ _ i) by lia. apply andb_false_r. }
    rewrite !Z.shiftl_spec by lia.
    replace i with ((i - bits) + bits) at 1 by lia.
    rewrite <- Z.shiftr_spec, Z.shiftr_div_pow2, Z.add_comm by lia.
    rewrite Z.div_add, Z.div_small, Z.add_0_l by lia.
    rewrite Z.testbit_ones_nonneg by lia.
    destruct (Z.ltb_spec (i - bits) (8 - bits)); [apply andb_true_r|].
    rewrite andb_false_r. symmetry.
    assert (tag < 2 ^ (8 - bits)).
    { assert (tag * 2 ^ bits < 2 ^ (8 - bits) * 2 ^ bits); [|nia].
      rewrite <- Z.pow_add_r by lia. replace (8 - bits + bits) with 8 by lia. lia. }
    rewrite <- (Z.mod_small tag (2 ^ (8 - bits))) by lia.
    apply Z.mod_pow2_bits_high. lia.
Qed.

(** ** Readers inside their buffer *)

Definition wf (r : Reader) : Prop :=
  (_pos r ≤ length (_raw r))%nat ∧ raw_size r < 2 ^ 64.

Definition remaining (r : Reader) : nat := length (_raw r) - _pos r.

(** [r'] is [r] moved forward, by at least one byte when [strict]. *)
Definition forward (strict : bool) (r r' : Reader) : Prop :=
  _raw r' = _raw r ∧ (_pos r ≤ _pos r' ≤ length (_raw r))%nat ∧
  (strict = true → (_pos r < _pos r')%nat).

Definition cut (n : nat) (r : Reader) : Reader := mkReader (take n (_raw r)) (_pos r).

Definition fails_truncated {A} (o : outcome DecodeError A * Reader) : Prop :=
  match o with (Throw (DecodeErr _ true), _) => True | _ => False end.

(** [m] and [m'] are the same program with different fuel: [k] bounds the
    bytes that remain in the buffer, [k'] those that remain in the cut. *)
Definition good {A} (strict : bool) (k k' : nat) (m m' : reader A) : Prop :=
  ∀ r, wf r → (remaining r < k)%nat →
    match m r with
    | (Ok a, r') =>
        forward strict r r' ∧
        ∀ n, (_pos r ≤ n ≤ length (_raw r))%nat → (n - _pos r < k')%nat →
          if decide (_pos r' ≤ n)%nat then m' (cut n r) = (Ok a, cut n r')
          else fails_truncated (m' (cut n r))
    | (Throw (DecodeErr _ _), _) => True
    | (Throw OutOfBounds, _) | (Throw BadAlloc, _) => False
    | (OutOfFuel, _) => False
    end.

Lemma forward_wf s r r' : wf r → forward s r r' → wf r'.
Proof. intros [? ?] (Hr & ? & ?). unfold wf, raw_size in *. rewrite Hr. split; [lia|done]. Qed.

Lemma forward_trans s1 s2 r1 r2 r3 :
  forward s1 r1 r2 → forward s2 r2 r3 → forward (s1 || s2) r1 r3.
Proof.
  intros (E1 & ? & S1) (E2 & ? & S2). rewrite E1 in *. repeat split; [congruence|lia|lia|].
  destruct s1, s2; simpl; intros; try discriminate; try specialize (S1 eq_refl);
    try specialize (S2 eq_refl); lia.
Qed.

Lemma forward_weaken s r r' : forward s r r' → forward false r r'.
Proof. intros (? & ? & ?). repeat split; try done; lia. Qed.

Lemma forward_refl r : wf r → forward false r r.
Proof. intros [? ?]. repeat split; [lia..|done]. Qed.

Lemma wf_cut n r : wf r → (_pos r ≤ n ≤ length (_raw r))%nat → wf (cut n r).
Proof.
  intros [H1 H2] Hn. unfold wf, cut, raw_size, size in *. simpl. rewrite length_take. lia.
Qed.

Lemma good_anti {A} s k k' l l' (m m' : reader A) :
  (l ≤ k)%nat → (l' ≤ k')%nat → good s k k' m m' → good s l l' m m'.
Proof.
  intros Hk Hk' Hg r Hwf Hr. specialize (Hg r Hwf ltac:(lia)).
  destruct (m r) as [[a|[]|] r']; try done. destruct Hg as [Hf Hc].
  split; [done|]. intros n Hn Hr'. apply Hc; [done|lia].
Qed.

Lemma good_weaken {A} s k k' (m m' : reader A) : good s k k' m m' → good false k k' m m'.
Proof.
  intros Hg r Hwf Hr. specialize (Hg r Hwf Hr).
  destruct (m r) as [[a|[]|] r']; try done. destruct Hg as [Hf Hc]. eauto using forward_weaken.
Qed.

Lemma good_ext {A} s k k' (m m' p p' : reader A) :
  (∀ r, wf r → p r = m r) → (∀ r, wf r → p' r = m' r) → good s k k' m m' → good s k k' p p'.
Proof.
  intros Hm Hm' Hg r Hwf Hr. specialize (Hg r Hwf Hr). rewrite Hm by done.
  destruct (m r) as [[a|[]|] r']; try done. destruct Hg as [Hf Hc]. split; [done|].
  intros n Hn Hr'. rewrite Hm' by auto using wf_cut. by apply Hc.
Qed.

Lemma good_ret {A} k k' (a : A) : good false k k' (mret a) (mret a).
Proof.
  intros r Hwf Hr. simpl. split; [auto using forward_refl|]. intros n Hn _.
  destruct (decide _); [done|lia].
Qed.

Lemma good_raise {A} s k k' msg t (m' : reader A) : good s k k' (raise (DecodeErr msg t)) m'.
Proof. intros r Hwf Hr. done. Qed.

Lemma good_bind_gen {A B} (s1 s2 : bool) (k k2 l l2 : nat) (m m' : reader A)
    (f f' : A → reader B) :
  (k ≤ (if s1 then S k2 else k2))%nat → (l ≤ (if s1 then S l2 else l2))%nat →
  good s1 k l m m' → (∀ a, good s2 k2 l2 (f a) (f' a)) →
  good (s1 || s2) k l (m ≫= f) (m' ≫= f').
Proof.
  intros Hk Hl Hm Hf r Hwf Hr. specialize (Hm r Hwf Hr). rewrite !run_bind.
  destruct (m r) as [[a|[]|] r1]; try done. destruct Hm as [Hfw Hcut].
  pose proof Hfw as (Er & Hp & Hs).
  assert (Hr1 : (remaining r1 < k2)%nat).
  { unfold remaining in *. rewrite Er. destruct s1; [specialize (Hs eq_refl)|]; lia. }
  specialize (Hf a r1 (forward_wf _ _ _ Hwf Hfw) Hr1).
  destruct (f a r1) as [[b|[]|] r2]; try done. destruct Hf as [Hfw2 Hcut2].
  pose proof Hfw2 as (_ & Hp2 & _).
  split; [eauto using forward_trans|]. intros n Hn Hl'. specialize (Hcut n Hn Hl').
  rewrite run_bind. destruct (decide (_pos r1 ≤ n)%nat) as [Hle|Hgt].
  - rewrite Hcut. apply Hcut2; [rewrite Er; lia|].
    destruct s1; [specialize (Hs eq_refl)|]; lia.
  - destruct (decide (_pos r2 ≤ n)%nat); [lia|].
    destruct (m' (cut n r)) as [[|[? []| |]|] ?]; done.
Qed.

(** A consuming step pays one unit of the bounds. *)
Lemma good_bind_strict {A B} s2 k l (m m' : reader A) (f f' : A → reader B) :
  good true (S k) (S l) m m' → (∀ a, good s2 k l (f a) (f' a)) →
  good true (S k) (S l) (m ≫= f) (m' ≫= f').
Proof. intros Hm Hf. apply (good_bind_gen true s2 (S k) k (S l) l); [lia..|done|done]. Qed.

Lemma good_bind {A B} s2 k l (m m' : reader A) (f f' : A → reader B) :
  good false k l m m' → (∀ a, good s2 k l (f a) (f' a)) → good s2 k l (m ≫= f) (m' ≫= f').
Proof. intros Hm Hf. apply (good_bind_gen false s2 k k l l); [lia..|done|done]. Qed.

Lemma good_bind_l {A B} k l (m m' : reader A) (f f' : A → reader B) :
  good true k l m m' → (∀ a, good false k l (f a) (f' a)) → good true k l (m ≫= f) (m' ≫= f').
Proof. intros Hm Hf. apply (good_bind_gen true false k k l l); [lia..|done|done]. Qed.

(** ** The primitives *)

(** [ensure( count )], then [count] bytes of the buffer. *)
Definition grab {A} (count : Z) (f : bytes → A) : reader A :=
  ensure count;;
  r ← get_state;
  advance count;;
  mret (f (take (Z.to_nat count) (drop (_pos r) (_raw r)))).

Lemma ensure_run r count :
  wf r →
  ensure count r = if decide (Z.to_nat count ≤ remaining r)%nat then (Ok tt, r)
                   else (Throw (DecodeErr "truncated msgpack object" true), r).
Proof.
  intros [Hp Hs]. unfold ensure, raw_size, size, remaining in *.
  rewrite run_bind. unfold get_state.
  unfold u64. rewrite wrap_small by lia.
  destruct (Z.ltb_spec (Z.of_nat (length (_raw r)) - Z.of_nat (_pos r)) count);
    destruct (decide _); try lia; reflexivity.
Qed.

Lemma take_drop_take {A} (l : list A) p c n :
  (p + c ≤ n)%nat → take c (drop p (take n l)) = take c (drop p l).
Proof.
  intros Hle. rewrite !take_drop_commute, take_take, Nat.min_l by lia. reflexivity.
Qed.

Lemma grab_run {A} count (f : bytes → A) r :
  wf r →
  grab count f r =
    if decide (Z.to_nat count ≤ remaining r)%nat
    then (Ok (f (take (Z.to_nat count) (drop (_pos r) (_raw r)))),
          mkReader (_raw r) (_pos r + Z.to_nat count))
    else (Throw (DecodeErr "truncated msgpack object" true), r).
Proof.
  intros Hwf. unfold grab. rewrite run_bind, ensure_run by done.
  destruct (decide _); reflexivity.
Qed.

Lemma good_grab {A} k l count (f : bytes → A) :
  good (0 <? count) k l (grab count f) (grab count f).
Proof.
  intros r Hwf Hr. rewrite !grab_run by done.
  destruct (decide (Z.to_nat count ≤ remaining r)%nat); [|done].
  unfold remaining in *. split.
  - repeat split; cbn; destruct Hwf; [lia..|]. intros ?%Z.ltb_lt. lia.
  - intros n Hn Hl. rewrite grab_run by auto using wf_cut.
    unfold remaining. cbn [_raw _pos cut]. rewrite length_take.
    repeat destruct (decide _); try lia; [|done].
    rewrite take_drop_take by lia. reflexivity.
Qed.

Lemma drop_lookup_cons {A} (l : list A) p :
  (p < length l)%nat → ∃ x, l !! p = Some x ∧ drop p l = x :: drop (S p) l.
Proof.
  intros [x Hx]%lookup_lt_is_Some_2. exists x. split; [done|]. by apply drop_S.
Qed.

Definition be16 (l : bytes) : Z :=
  match l with
  | [b0; b1] => u16 (Z.lor (Z.shiftl (code b0) 8) (code b1))
  | _ => 0
  end.

Definition be32 (l : bytes) : Z :=
  match l with
  | [b0; b1; b2; b3] =>
    u32 (Z.lor (Z.lor (Z.lor (Z.shiftl (code b0) 24) (Z.shiftl (code b1) 16))
      (Z.shiftl (code b2) 8)) (code b3))
  | _ => 0
  end.

Definition be8 (l : bytes) : Z := match l with [b] => code b | _ => 0 end.

Lemma byte_at_run p r :
  (p < length (_raw r))%nat →
  ∃ x, byte_at p r = (Ok (code x), r) ∧ drop p (_raw r) = x :: drop (S p) (_raw r).
Proof.
  intros Hp. destruct (drop_lookup_cons _ _ Hp) as (x & Hx & Hd).
  exists x. split; [|done]. unfold byte_at. rewrite Hx. reflexivity.
Qed.

Lemma read_byte_grab r : wf r → read_byte r = grab 1 be8 r.
Proof.
  intros Hwf. rewrite grab_run by done. unfold read_byte, raw_size, size, remaining.
  rewrite run_bind. cbn [get_state].
  destruct (Z.leb_spec (Z.of_nat (length (_raw r))) (Z.of_nat (_pos r)));
    destruct (decide _); try lia; [done|].
  destruct (byte_at_run (_pos r) r ltac:(lia)) as (x & Hb & Hd).
  rewrite (run_bind_ok _ _ _ _ _ Hb), Hd. reflexivity.
Qed.

Lemma read_u16_grab r : wf r → read_u16 r = grab 2 be16 r.
Proof.
  intros Hwf. rewrite grab_run by done. unfold read_u16.
  rewrite run_bind, ensure_run by done. unfold remaining.
  destruct (decide _); [|done].
  destruct (byte_at_run (_pos r) r ltac:(lia)) as (x0 & Hb0 & Hd0).
  destruct (byte_at_run (_pos r + 1) r ltac:(lia)) as (x1 & Hb1 & Hd1).
  rewrite (run_bind_ok get_state _ r r r eq_refl), (run_bind_ok _ _ _ _ _ Hb0).
  rewrite (run_bind_ok _ _ _ _ _ Hb1), Hd0.
  replace (S (_pos r)) with (_pos r + 1)%nat by lia. rewrite Hd1. reflexivity.
Qed.

Lemma read_u32_grab r : wf r → read_u32 r = grab 4 be32 r.
Proof.
  intros Hwf. rewrite grab_run by done. unfold read_u32.
  rewrite run_bind, ensure_run by done. unfold remaining.
  destruct (decide _); [|done].
  destruct (byte_at_run (_pos r) r ltac:(lia)) as (x0 & Hb0 & Hd0).
  destruct (byte_at_run (_pos r + 1) r ltac:(lia)) as (x1 & Hb1 & Hd1).
  destruct (byte_at_run (_pos r + 2) r ltac:(lia)) as (x2 & Hb2 & Hd2).
  destruct (byte_at_run (_pos r + 3) r ltac:(lia)) as (x3 & Hb3 & Hd3).
  rewrite (run_bind_ok get_state _ r r r eq_refl), (run_bind_ok _ _ _ _ _ Hb0).
  rewrite (run_bind_ok _ _ _ _ _ Hb1), (run_bind_ok _ _ _ _ _ Hb2).
  rewrite (run_bind_ok _ _ _ _ _ Hb3), Hd0.
  replace (S (_pos r)) with (_pos r + 1)%nat by lia. rewrite Hd1.
  replace (S (_pos r + 1)) with (_pos r + 2)%nat by lia. rewrite Hd2.
  replace (S (_pos r + 2)) with (_pos r + 3)%nat by lia. rewrite Hd3. reflexivity.
Qed.

Create HintDb gorpc.

Lemma good_read_byte k l : good true k l read_byte read_byte.
Proof. eapply good_ext; [apply read_byte_grab..|]. apply (good_grab k l 1). Qed.
Lemma good_read_u16 k l : good true k l read_u16 read_u16.
Proof. eapply good_ext; [apply read_u16_grab..|]. apply (good_grab k l 2). Qed.
Lemma good_read_u32 k l : good true k l read_u32 read_u32.
Proof. eapply good_ext; [apply read_u32_grab..|]. apply (good_grab k l 4). Qed.

Lemma good_ensure_advance s k l count :
  s = (0 <? count) → good s k l (ensure count;; advance count) (ensure count;; advance count).
Proof.
  intros ->. apply (good_ext _ _ _ (grab count (λ _, tt)) (grab count (λ _, tt)));
    [..|by apply good_grab];
    intros r Hwf; rewrite grab_run, run_bind, ensure_run by done; by destruct (decide _).
Qed.

#[export] Hint Resolve good_read_byte good_read_u16 good_read_u32 good_ret good_raise : gorpc.
#[export] Hint Extern 1 (good _ _ _ (ensure _;; advance _) _) =>
  apply good_ensure_advance; reflexivity : gorpc.

(** Decide the branch of a program and solve the leaves by the hints; a
    leaf that consumes more than it has to is weakened. *)
Ltac good_step :=
  match goal with
  | |- good _ _ _ ?m _ => solve [auto with gorpc | eapply good_weaken; eauto with gorpc]
  | |- good _ _ _ (if ?b then _ else _) _ => destruct b
  | |- good true _ _ (_ ≫= _) _ => apply good_bind_l; [|intros ?]
  | |- good false _ _ (_ ≫= _) _ => apply (good_bind false); [|intros ?]
  end.

Ltac good_auto := repeat good_step.

Lemma good_read_u64 k l : good true k l read_u64 read_u64.
Proof. unfold read_u64. good_auto. Qed.

Lemma good_read_signed k l v : good false k l (read_signed v) (read_signed v).
Proof. unfold read_signed, negative_error. good_auto. Qed.
#[export] Hint Resolve good_read_u64 good_read_signed : gorpc.

Lemma good_read_uint k l : good true k l read_uint read_uint.
Proof. unfold read_uint, negative_error. good_auto. Qed.

Lemma good_read_raw_size k l b : good false k l (read_raw_size b) (read_raw_size b).
Proof. unfold read_raw_size. good_auto. Qed.

Lemma good_read_map_size k l : good true k l read_map_size read_map_size.
Proof. unfold read_map_size. good_auto. Qed.

Lemma good_read_array_size k l : good true k l read_array_size read_array_size.
Proof. unfold read_array_size. good_auto. Qed.
#[export] Hint Resolve good_read_uint good_read_raw_size good_read_map_size
  good_read_array_size : gorpc.

Lemma good_read_raw k l : good true k l read_raw read_raw.
Proof.
  unfold read_raw. good_step; [good_step|]. good_step; [good_step|]. rename a0 into count.
  apply (good_weaken (0 <? count)). apply (good_grab k l count (λ s, s)).
Qed.
#[export] Hint Resolve good_read_raw : gorpc.

(** ** Loops and [skip] *)

(** Nothing is said of a cut that no bytes are left of. *)
Lemma good_zero {A} s k (m m1 m2 : reader A) : good s k 0 m m1 → good s k 0 m m2.
Proof.
  intros Hg r Hwf Hr. specialize (Hg r Hwf Hr).
  destruct (m r) as [[a|[]|] r']; try done. destruct Hg as [Hf _]. split; [done|]. lia.
Qed.

(** Fuel taken from the length of the buffer. *)
Lemma good_fuel {A} s k l (m m' : nat → reader A) :
  (∀ f f' k1 l1, (k1 ≤ k)%nat → (l1 ≤ l)%nat → (k1 ≤ f)%nat → (l1 ≤ f')%nat →
    good s k1 l1 (m f) (m' f')) →
  good s k l (r ← get_state; m (S (length (_raw r)))) (r ← get_state; m' (S (length (_raw r)))).
Proof.
  intros Hm r Hwf Hr. unfold get_state. rewrite run_bind.
  pose proof (Hm (S (length (_raw r))) 0%nat (S (remaining r)) 0%nat
    ltac:(lia) ltac:(lia) ltac:(unfold remaining; lia) ltac:(lia) r Hwf ltac:(lia)) as Hrun.
  destruct (m _ r) as [[a|[]|] r'] eqn:E; try done.
  split; [apply Hrun|]. intros n Hn Hl. rewrite run_bind.
  pose proof (Hm (S (length (_raw r))) (S (length (_raw (cut n r)))) (S (remaining r))
    (S (n - _pos r)) ltac:(lia) ltac:(lia) ltac:(unfold remaining; lia)
    ltac:(cbn; rewrite length_take; lia) r Hwf ltac:(lia)) as Hcut.
  rewrite E in Hcut. apply Hcut; [done|lia].
Qed.

Lemma good_for_loop {A} k l fuel fuel' n (body body' : A → reader A) a :
  (k ≤ fuel)%nat → (l ≤ fuel')%nat → (∀ a, good true k l (body a) (body' a)) →
  good false k l (for_loop fuel n body a) (for_loop fuel' n body' a).
Proof.
  revert l fuel fuel' n a. induction k as [|k IH]; intros l fuel fuel' n a Hk Hl Hb.
  { intros r _ Hr. lia. }
  destruct fuel as [|fuel]; [lia|].
  destruct (decide (n ≤ 0)) as [Hn|Hn].
  { rewrite !for_loop_stop by done. apply good_ret. }
  rewrite for_loop_step by lia.
  assert (∀ f', (pred l ≤ f')%nat → good false (S k) l
    (body a ≫= for_loop fuel (n - 1) body) (body' a ≫= for_loop f' (n - 1) body')) as Hstep.
  { intros f' Hf'. apply (good_weaken (true || false)).
    apply (good_bind_gen true false (S k) k l (pred l)); [lia..|done|].
    intros b. apply IH; [lia..|]. intros c. apply (good_anti _ (S k) l k (pred l)); [lia..|done]. }
  destruct fuel' as [|fuel'].
  - destruct l; [|lia]. eapply good_zero, (Hstep 0%nat). lia.
  - rewrite for_loop_step by lia. apply Hstep. lia.
Qed.

Lemma good_for_each {A} k l n (body body' : A → reader A) a :
  (∀ a, good true k l (body a) (body' a)) →
  good false k l (for_each n body a) (for_each n body' a).
Proof.
  intros Hb. unfold for_each.
  apply (good_fuel _ _ _ (λ f, for_loop f n body a) (λ f, for_loop f n body' a)).
  intros f f' k1 l1 Hk1 Hl1 Hf Hf'. apply good_for_loop; [done..|].
  intros b. eapply good_anti; [..|apply Hb]; done.
Qed.

Lemma good_skip_depth k l d d' :
  (k ≤ d)%nat → (l ≤ d')%nat → good true k l (skip_depth d) (skip_depth d').
Proof.
  revert l d d'. induction k as [|k IH]; intros l d d' Hk Hl.
  { intros r _ Hr. lia. }
  destruct d as [|d]; [lia|].
  assert (∀ d', (pred l ≤ d')%nat → good true (S k) l (skip_depth (S d)) (skip_depth (S d'))) as Hs.
  { intros f' Hf'. cbn [skip_depth].
    apply (good_bind_gen true false (S k) k l (pred l)); [lia..|apply good_read_byte|].
    intros b. specialize (IH (pred l) d f' ltac:(lia) Hf').
    repeat match goal with
    | |- good _ _ _ (if ?c then _ else _) _ => destruct c
    end; good_auto.
    all: apply good_for_each; intros []; good_auto. }
  destruct d' as [|d'].
  - destruct l; [|lia]. eapply good_zero, (Hs 0%nat). lia.
  - apply Hs. lia.
Qed.

Lemma good_skip k l : good true k l skip skip.
Proof. apply good_fuel. intros. by apply good_skip_depth. Qed.
#[export] Hint Resolve good_skip : gorpc.

Ltac good_auto ::= repeat first [good_step | apply good_for_each; intros ?].

(** ** Structures *)

Lemma good_read_service_id k l : good true k l read_service_id read_service_id.
Proof. unfold read_service_id. good_auto. Qed.
#[export] Hint Resolve good_read_service_id : gorpc.

Lemma good_read_response_header k l : good true k l read_response_header read_response_header.
Proof. unfold read_response_header. good_auto. Qed.

Lemma good_read_id_field_response k l :
  good true k l read_id_field_response read_id_field_response.
Proof. unfold read_id_field_response. good_auto. Qed.
#[export] Hint Resolve good_read_response_header good_read_id_field_response : gorpc.

(** What a decoder may do on arbitrary bytes: return, or throw a
    [DecodeErr]. *)
Definition returns_or_throws {A} (o : outcome DecodeError A) : Prop :=
  match o with Ok _ => True | Throw (DecodeErr _ _) => True | _ => False end.

Definition fits (raw : bytes) : Prop := size raw < 2 ^ 64.

Lemma wf_initial raw : fits raw → wf (mkReader raw 0).
Proof. split; [cbn; lia|done]. Qed.

Lemma good_run {A B} s (m : reader A) (f : A → reader B) raw :
  fits raw → (∀ k l, good s k l m m) →
  (∀ a r, wf r → returns_or_throws (fst (f a r))) →
  returns_or_throws (run_reader (m ≫= f) raw).
Proof.
  intros Hw Hg Hf. unfold run_reader. rewrite run_bind.
  specialize (Hg (S (length raw)) 0%nat (mkReader raw 0) (wf_initial _ Hw)).
  unfold remaining in Hg; cbn in Hg. specialize (Hg ltac:(lia)).
  destruct (m _) as [[a|[]|] r']; try done. destruct Hg as [Hfw _].
  apply Hf. eapply forward_wf; [|done]. by apply wf_initial.
Qed.

(** [position], [skip], [position], [slice]: the bytes of one object. *)
Definition captured {A} (f : bytes → A) : reader A :=
  begin ← position;
  skip;;
  end_ ← position;
  value ← slice begin end_;
  mret (f value).

Lemma good_captured {A} k l (f : bytes → A) : good true k l (captured f) (captured f).
Proof.
  intros r Hwf Hr. pose proof (good_skip k l r Hwf Hr) as Hg. unfold captured.
  unfold position, slice, gets_state. rewrite !run_bind.
  destruct (skip r) as [[[]|[]|] r'] eqn:E; try done. destruct Hg as [Hfw Hcut].
  rewrite !run_bind. split; [done|].
  intros n Hn Hl. specialize (Hcut n Hn Hl). rewrite !run_bind.
  destruct (decide (_pos r' ≤ n)%nat).
  - rewrite Hcut. destruct Hfw as (Er & ? & ?). unfold mbind, prog_bind, mret, prog_ret.
    cbn. rewrite Er, take_drop_take by lia. done.
  - destruct (skip (cut n r)) as [[|[? []| |]|] ?]; done.
Qed.
#[export] Hint Resolve good_captured : gorpc.

(** The body of [decode_request] and of [decode_response]. *)
Lemma good_decode_request k l :
  good true k l (service ← read_service_id; captured (mkDecodedRequest service))
                (service ← read_service_id; captured (mkDecodedRequest service)).
Proof. good_auto. Qed.

Lemma good_decode_response k l :
  good true k l (header ← read_response_header; captured (mkResponse header))
                (header ← read_response_header; captured (mkResponse header)).
Proof. good_auto. Qed.

(** A decoder that succeeds on a buffer and stops at [p] is short of bytes
    on every cut before [p], and unchanged by one after it. *)
Lemma run_reader_cut {A} (m : reader A) raw n a r' :
  fits raw → (∀ k l, good true k l m m) → m (mkReader raw 0) = (Ok a, r') →
  (n ≤ length raw)%nat →
  if decide (_pos r' ≤ n)%nat then run_reader m (take n raw) = Ok a
  else ∃ msg, run_reader m (take n raw) = Throw (DecodeErr msg true).
Proof.
  intros Hw Hg Hm Hn. specialize (Hg (S (length raw)) (S n) (mkReader raw 0) (wf_initial _ Hw)).
  unfold remaining in Hg; cbn in Hg. specialize (Hg ltac:(lia)).
  rewrite Hm in Hg. destruct Hg as [_ Hcut]. specialize (Hcut n ltac:(lia) ltac:(lia)).
  unfold run_reader. change (mkReader (take n raw) 0) with (cut n (mkReader raw 0)).
  destruct (decide _); [by rewrite Hcut|].
  destruct (m (cut _ _)) as [[|[? []| |]|] ?]; try done. eauto.
Qed.

(** ** Appending

    Every writer appends its own encoding to the buffer. *)

Lemma append_u16_app out v : append_u16 out v = out ++ append_u16 [] v.
Proof. reflexivity. Qed.

Lemma append_u32_app out v : append_u32 out v = out ++ append_u32 [] v.
Proof. reflexivity. Qed.

Lemma append_u64_app out v : append_u64 out v = out ++ append_u64 [] v.
Proof. unfold append_u64, append_u32. rewrite <- !app_assoc. reflexivity. Qed.

Ltac append_app :=
  repeat case_match;
  repeat first [rewrite (append_u16_app (_ ++ _)) | rewrite (append_u32_app (_ ++ _))
               | rewrite (append_u64_app (_ ++ _))];
  rewrite <- ?app_assoc; reflexivity.

Lemma append_map_header_app out n : append_map_header out n = out ++ append_map_header [] n.
Proof. unfold append_map_header. append_app. Qed.

Lemma append_array_header_app out n :
  append_array_header out n = out ++ append_array_header [] n.
Proof. unfold append_array_header. append_app. Qed.

Lemma append_raw_app out s : append_raw out s = out ++ append_raw [] s.
Proof. unfold append_raw. append_app. Qed.

Lemma append_uint_app out n : append_uint out n = out ++ append_uint [] n.
Proof. unfold append_uint. append_app. Qed.

Lemma fold_append_raw l out : fold_left append_raw l out = out ++ concat (append_raw [] <$> l).
Proof.
  revert out. induction l as [|s l IH]; intros out; cbn; [by rewrite app_nil_r|].
  rewrite IH, append_raw_app, <- app_assoc. reflexivity.
Qed.

(** ** Reading an encoding back *)

Definition reads {A} (m : reader A) (bs : bytes) (a : A) : Prop :=
  ∀ pre post r, wf r → _raw r = pre ++ bs ++ post → _pos r = length pre →
    m r = (Ok a, mkReader (_raw r) (length pre + length bs)).

Lemma reads_wf r pre bs post :
  wf r → _raw r = pre ++ bs ++ post →
  wf (mkReader (_raw r) (length pre + length bs)).
Proof.
  intros [_ ?] E. split; [|done]. cbn. rewrite E, !length_app. lia.
Qed.

Lemma reads_ret {A} (a : A) : reads (mret a) [] a.
Proof.
  intros pre post r _ _ Hp. destruct r as [raw pos]. cbn in *. subst.
  rewrite Nat.add_0_r. reflexivity.
Qed.

Lemma reads_bind {A B} (m : reader A) (f : A → reader B) b1 b2 a b :
  reads m b1 a → reads (f a) b2 b → reads (m ≫= f) (b1 ++ b2) b.
Proof.
  intros Hm Hf pre post r Hw Er Ep. rewrite <- app_assoc in Er.
  rewrite (run_bind_ok _ _ _ _ _ (Hm pre (b2 ++ post) r Hw Er Ep)).
  rewrite (Hf (pre ++ b1) post).
  - cbn. rewrite !length_app, Nat.add_assoc. reflexivity.
  - by eapply reads_wf.
  - cbn. rewrite <- app_assoc. exact Er.
  - cbn. by rewrite length_app.
Qed.

Lemma reads_bind_ret {A B} (m : reader A) (f : A → B) bs a :
  reads m bs a → reads (x ← m; mret (f x)) bs (f a).
Proof.
  intros Hm. rewrite <- (app_nil_r bs). eapply reads_bind; [done|apply reads_ret].
Qed.

Lemma reads_bind_last {A B} (m : reader A) (f : A → reader B) bs a b :
  reads m bs a → reads (f a) [] b → reads (m ≫= f) bs b.
Proof. intros Hm Hf. rewrite <- (app_nil_r bs). by eapply reads_bind. Qed.

Lemma reads_ext {A} (m p : reader A) bs a :
  (∀ r, wf r → p r = m r) → reads m bs a → reads p bs a.
Proof. intros Hp Hm pre post r Hw Er Ep. rewrite Hp by done. by eapply Hm. Qed.

Lemma reads_grab {A} count (f : bytes → A) bs :
  length bs = Z.to_nat count → reads (grab count f) bs (f bs).
Proof.
  intros Hl pre post r Hw Er Ep. rewrite grab_run by done. unfold remaining.
  rewrite Er, Ep, drop_app_length, !length_app, <- Hl, take_app_length.
  destruct (decide _); [done|lia].
Qed.

Lemma reads_byte x : 0 ≤ x < 256 → reads read_byte [byte_of x] x.
Proof.
  intros Hx. eapply reads_ext; [apply read_byte_grab|].
  rewrite <- (code_byte_of_small x Hx) at 2. by apply (reads_grab 1 be8).
Qed.

Lemma reads_u16 v : 0 ≤ v < 2 ^ 16 → reads read_u16 (append_u16 [] v) v.
Proof.
  intros Hv. eapply reads_ext; [apply read_u16_grab|].
  rewrite <- (u16_bytes v Hv) at 2. by apply (reads_grab 2 be16).
Qed.

Lemma reads_u32 v : 0 ≤ v < 2 ^ 32 → reads read_u32 (append_u32 [] v) v.
Proof.
  intros Hv. eapply reads_ext; [apply read_u32_grab|].
  rewrite <- (u32_bytes v Hv) at 2. by apply (reads_grab 4 be32).
Qed.

Lemma reads_u64 v : 0 ≤ v < 2 ^ 64 → reads read_u64 (append_u64 [] v) v.
Proof.
  intros Hv. rewrite <- (u64_halves v Hv) at 2.
  unfold append_u64. rewrite append_u32_app.
  eapply reads_bind; [apply reads_u32, wrap_range; lia|].
  apply reads_bind_ret, (reads_u32). apply wrap_range. lia.
Qed.

Lemma reads_uint v : is_u64 v → reads read_uint (append_uint [] v) v.
Proof.
  intros Hv. unfold append_uint, read_uint, is_u64, u16_max, u32_max in *.
  destruct (Z.leb_spec v 0x7f).
  { apply (reads_bind _ _ [byte_of v] [] v); [apply reads_byte; lia|].
    rewrite (proj2 (Z.leb_le v 0x7f)) by lia. apply reads_ret. }
  destruct (Z.leb_spec v (2 ^ 8 - 1)).
  { apply (reads_bind _ _ [byte_of mp_uint8] [byte_of v] mp_uint8); [apply reads_byte; done|]. apply reads_byte. lia. }
  destruct (Z.leb_spec v (2 ^ 16 - 1)).
  { rewrite append_u16_app. unfold u16. rewrite wrap_small by lia.
    apply (reads_bind _ _ [byte_of mp_uint16] _ mp_uint16); [by apply reads_byte|].
    apply reads_u16. lia. }
  destruct (Z.leb_spec v (2 ^ 32 - 1)).
  { rewrite append_u32_app. unfold u32. rewrite wrap_small by lia.
    apply (reads_bind _ _ [byte_of mp_uint32] _ mp_uint32); [by apply reads_byte|].
    apply reads_u32. lia. }
  rewrite append_u64_app.
  apply (reads_bind _ _ [byte_of mp_uint64] _ mp_uint64); [by apply reads_byte|].
  apply reads_u64. lia.
Qed.

(** The header of a container: a tagged size below 16, or a 16 or 32-bit
    size after its descriptor. *)
Lemma header_small tag n :
  0 ≤ n < 16 → tag = 0x80 ∨ tag = 0x90 →
  0 ≤ Z.lor tag n < 256 ∧ Z.land (Z.lor tag n) 0xf0 = tag ∧ Z.land (Z.lor tag n) 0x0f = n.
Proof.
  intros Hn Ht.
  assert (∃ t, tag = Z.shiftl t 4 ∧ 0 ≤ t < 16) as (t & -> & Ht').
  { destruct Ht as [->| ->]; [exists 8|exists 9]; done. }
  rewrite lor_shiftl_add by lia.
  destruct (tag_small t 4 n) as [H1 H2]; [lia..| |].
  { rewrite lor_shiftl_add by lia. lia. }
  rewrite lor_shiftl_add in H1, H2 by lia.
  rewrite code_byte_of_small in H1, H2 by lia.
  split; [lia|]. by split.
Qed.

Lemma raw_small n :
  0 ≤ n < 32 →
  0 ≤ Z.lor 0xa0 n < 256 ∧ Z.land (Z.lor 0xa0 n) 0xe0 = 0xa0 ∧ Z.land (Z.lor 0xa0 n) 0x1f = n.
Proof.
  intros Hn. change 0xa0 with (Z.shiftl 5 5). rewrite lor_shiftl_add by lia.
  destruct (tag_small 5 5 n) as [H1 H2]; [lia..| |].
  { rewrite lor_shiftl_add by lia. lia. }
  rewrite lor_shiftl_add in H1, H2 by lia.
  rewrite code_byte_of_small in H1, H2 by lia.
  split; [lia|]. by split.
Qed.

(** Sizes the 32-bit headers can hold. *)
Definition sized (n : Z) : Prop := 0 ≤ n < 2 ^ 32.

Lemma reads_map_size n : sized n → reads read_map_size (append_map_header [] n) n.
Proof.
  intros Hn. unfold append_map_header, read_map_size, sized, u16_max in *.
  destruct (Z.ltb_spec n 16).
  { destruct (header_small 0x80 n) as (Hr & Hf & Hl); [lia|tauto|].
    apply (reads_bind _ _ [byte_of (Z.lor 0x80 n)] [] (Z.lor 0x80 n)); [by apply reads_byte|].
    rewrite Hf, Hl. apply reads_ret. }
  destruct (Z.leb_spec n (2 ^ 16 - 1)).
  { rewrite append_u16_app. unfold u16. rewrite wrap_small by lia.
    apply (reads_bind _ _ [byte_of mp_map16] _ mp_map16); [by apply reads_byte|].
    apply reads_u16. lia. }
  rewrite append_u32_app. unfold u32. rewrite wrap_small by lia.
  apply (reads_bind _ _ [byte_of mp_map32] _ mp_map32); [by apply reads_byte|].
  apply reads_u32. lia.
Qed.

Lemma reads_array_size n : sized n → reads read_array_size (append_array_header [] n) n.
Proof.
  intros Hn. unfold append_array_header, read_array_size, sized, u16_max in *.
  destruct (Z.ltb_spec n 16).
  { destruct (header_small 0x90 n) as (Hr & Hf & Hl); [lia|tauto|].
    apply (reads_bind _ _ [byte_of (Z.lor 0x90 n)] [] (Z.lor 0x90 n)); [by apply reads_byte|].
    rewrite Hf, Hl. apply reads_ret. }
  destruct (Z.leb_spec n (2 ^ 16 - 1)).
  { rewrite append_u16_app. unfold u16. rewrite wrap_small by lia.
    apply (reads_bind _ _ [byte_of mp_array16] _ mp_array16); [by apply reads_byte|].
    apply reads_u16. lia. }
  rewrite append_u32_app. unfold u32. rewrite wrap_small by lia.
  apply (reads_bind _ _ [byte_of mp_array32] _ mp_array32); [by apply reads_byte|].
  apply reads_u32. lia.
Qed.

(** The header of a string: its descriptor [b] and what [read_raw_size]
    reads after it. *)
Lemma raw_header s :
  sized (size s) →
  ∃ b h, 0 ≤ b < 256 ∧ append_raw [] s = [byte_of b] ++ h ++ s ∧
    reads (read_raw_size b) h (size s) ∧
    ¬ (b ≤ 0x7f) ∧ ¬ (0xe0 ≤ b) ∧ b ≠ mp_nil ∧ b ≠ mp_false ∧ b ≠ mp_true ∧
    (Z.land b 0xe0 = 0xa0 ∨ b = mp_str16 ∨ b = mp_str32).
Proof.
  intros Hn. unfold append_raw, read_raw_size, sized, u16_max in *.
  destruct (Z.ltb_spec (size s) 32).
  { destruct (raw_small (size s)) as (Hr & Hf & Hl); [lia|].
    exists (Z.lor 0xa0 (size s)), []. rewrite Hf, Hl.
    assert (Z.lor 0xa0 (size s) = 160 + size s).
    { change (Z.lor 0xa0 (size s)) with (Z.lor (Z.shiftl 5 5) (size s)).
      rewrite lor_shiftl_add by lia. lia. }
    unfold mp_nil, mp_false, mp_true.
    split_and!; [lia..|done|apply reads_ret|lia|lia|lia|lia|lia|by left]. }
  destruct (Z.leb_spec (size s) (2 ^ 16 - 1)).
  { exists mp_str16, (append_u16 [] (size s)). rewrite append_u16_app. unfold u16.
    rewrite wrap_small by lia. rewrite <- app_assoc.
    split_and!; try done; first [apply reads_u16; lia|by vm_compute|tauto]. }
  exists mp_str32, (append_u32 [] (size s)). rewrite append_u32_app. unfold u32.
  rewrite wrap_small by lia. rewrite <- app_assoc.
  split_and!; try done; first [apply reads_u32; lia|by vm_compute|tauto].
Qed.

Lemma reads_raw s : sized (size s) → reads read_raw (append_raw [] s) s.
Proof.
  intros Hs. destruct (raw_header s Hs) as (b & h & Hb & -> & Hh & _).
  unfold read_raw. eapply reads_bind; [by apply reads_byte|].
  eapply reads_bind; [exact Hh|].
  apply (reads_grab (size s) (λ x, x)). unfold size. lia.
Qed.

Lemma reads_ensure_advance count bs :
  length bs = Z.to_nat count → reads (ensure count;; advance count) bs tt.
Proof.
  intros Hl. eapply reads_ext; [|by apply (reads_grab count (λ _, tt))].
  intros r Hw. rewrite grab_run, run_bind, ensure_run by done. by destruct (decide _).
Qed.

(** ** Loops *)

(** [n] runs of [body] read [bs] and take [a] to [a']. *)
Definition reads_loop {A} (n : nat) (body : A → reader A) (a : A) (bs : bytes) (a' : A) : Prop :=
  (n ≤ length bs)%nat ∧
  ∀ fuel, (n ≤ fuel)%nat → reads (for_loop fuel (Z.of_nat n) body a) bs a'.

Lemma reads_loop_nil {A} (body : A → reader A) a : reads_loop 0 body a [] a.
Proof. split; [done|]. intros fuel _. rewrite for_loop_stop by lia. apply reads_ret. Qed.

Lemma reads_loop_cons {A} n (body : A → reader A) a b1 a1 b2 a2 :
  reads (body a) b1 a1 → b1 ≠ [] → reads_loop n body a1 b2 a2 →
  reads_loop (S n) body a (b1 ++ b2) a2.
Proof.
  intros H1 Hne [Hn H2]. split.
  { rewrite length_app. destruct b1; [done|]. cbn. lia. }
  intros [|fuel] Hf; [lia|]. rewrite for_loop_step by lia.
  eapply reads_bind; [exact H1|].
  replace (Z.of_nat (S n) - 1) with (Z.of_nat n) by lia. apply H2. lia.
Qed.

Lemma reads_for_each {A} n z (body : A → reader A) a bs a' :
  z = Z.of_nat n → reads_loop n body a bs a' → reads (for_each z body a) bs a'.
Proof.
  intros -> [Hn Hl] pre post r Hw Er Ep. unfold for_each. unfold get_state.
  rewrite run_bind. eapply Hl; [|done..].
  rewrite Er, !length_app. lia.
Qed.

(** ** The msgpack values the codec writes *)

#[warnings="-register-all"] Inductive msgpack : Type :=
| MNil
| MUint (n : Z)
| MRaw (s : bytes)
| MArray (l : list msgpack)
| MMap (l : list (bytes * msgpack)).

Fixpoint mp_encode (v : msgpack) : bytes :=
  match v with
  | MNil => [byte_of mp_nil]
  | MUint n => append_uint [] n
  | MRaw s => append_raw [] s
  | MArray l =>
    append_array_header [] (Z.of_nat (length l)) ++ concat (map mp_encode l)
  | MMap l =>
    append_map_header [] (Z.of_nat (length l))
    ++ concat (map (λ kv, append_raw [] (fst kv) ++ mp_encode (snd kv)) l)
  end.

(** Every size and integer fits its field. *)
Fixpoint mp_sized (v : msgpack) : Prop :=
  match v with
  | MNil => True
  | MUint n => is_u64 n
  | MRaw s => sized (size s)
  | MArray l => sized (Z.of_nat (length l)) ∧ foldr (λ v P, mp_sized v ∧ P) True l
  | MMap l =>
    sized (Z.of_nat (length l)) ∧
    foldr (λ kv P, (sized (size (fst kv)) ∧ mp_sized (snd kv)) ∧ P) True l
  end.

Fixpoint mp_depth (v : msgpack) : nat :=
  match v with
  | MNil | MUint _ | MRaw _ => 1
  | MArray l => S (foldr (λ v d, Nat.max (mp_depth v) d) 0%nat l)
  | MMap l => S (foldr (λ kv d, Nat.max (mp_depth (snd kv)) d) 1%nat l)
  end.

Section MsgpackInd.
Context (P : msgpack → Prop).
Context (HNil : P MNil) (HUint : ∀ n, P (MUint n)) (HRaw : ∀ s, P (MRaw s)).
Context (HArray : ∀ l, Forall P l → P (MArray l)).
Context (HMap : ∀ l, Forall (λ kv, P (snd kv)) l → P (MMap l)).

Fixpoint msgpack_ind' (v : msgpack) : P v :=
  match v with
  | MNil => HNil
  | MUint n => HUint n
  | MRaw s => HRaw s
  | MArray l => HArray l
      ((fix go l := match l return Forall P l with
        | [] => Forall_nil_2 _
        | v :: l => Forall_cons_2 _ _ _ (msgpack_ind' v) (go l)
        end) l)
  | MMap l => HMap l
      ((fix go l := match l return Forall (λ kv, P (snd kv)) l with
        | [] => Forall_nil_2 _
        | kv :: l => Forall_cons_2 _ _ _ (msgpack_ind' (snd kv)) (go l)
        end) l)
  end.
End MsgpackInd.

(** ** Skipping *)

(** The descriptor tests of [skip], in the order it makes them. *)
Definition is_immediate (b : Z) : bool :=
  (b <=? 0x7f) || (0xe0 <=? b) || (b =? mp_nil) || (b =? mp_false) || (b =? mp_true).
Definition is_raw (b : Z) : bool :=
  (Z.land b 0xe0 =? 0xa0) || (b =? mp_str8) || (b =? mp_str16) || (b =? mp_str32)
  || (b =? mp_bin8) || (b =? mp_bin16) || (b =? mp_bin32).
Definition is_array (b : Z) : bool :=
  (Z.land b 0xf0 =? 0x90) || (b =? mp_array16) || (b =? mp_array32).
Definition is_map (b : Z) : bool :=
  (Z.land b 0xf0 =? 0x80) || (b =? mp_map16) || (b =? mp_map32).

Definition array_size (b : Z) : reader Z :=
  if Z.land b 0xf0 =? 0x90 then mret (Z.land b 0x0f)
  else if b =? mp_array16 then read_u16 else read_u32.
Definition map_size (b : Z) : reader Z :=
  if Z.land b 0xf0 =? 0x80 then mret (Z.land b 0x0f)
  else if b =? mp_map16 then read_u16 else read_u32.

Lemma small_cases (P : Z → bool) k n :
  forallb P (seqZ 0 k) = true → 0 ≤ n < k → P n = true.
Proof.
  intros HP Hn. rewrite forallb_forall in HP. apply HP, list_elem_of_In, elem_of_seqZ. lia.
Qed.

Lemma array_header n :
  sized n →
  ∃ b h, 0 ≤ b < 256 ∧ append_array_header [] n = [byte_of b] ++ h ∧
    (is_immediate b, is_raw b, is_array b) = (false, false, true) ∧ reads (array_size b) h n.
Proof.
  intros Hn. unfold append_array_header, array_size, sized, u16_max in *.
  destruct (Z.ltb_spec n 16).
  { destruct (header_small 0x90 n) as (Hr & Hf & Hl); [lia|tauto|].
    exists (Z.lor 0x90 n), []. rewrite Hf, Hl. split_and!; [lia..|done| |apply reads_ret].
    pose proof (small_cases (λ n, negb (is_immediate (Z.lor 0x90 n)) &&
      negb (is_raw (Z.lor 0x90 n)) && is_array (Z.lor 0x90 n)) 16 n eq_refl ltac:(lia)) as Hc.
    cbn beta in Hc. by destruct (is_immediate _), (is_raw _), (is_array _). }
  destruct (Z.leb_spec n (2 ^ 16 - 1)).
  { exists mp_array16, (append_u16 [] n). rewrite append_u16_app. unfold u16.
    rewrite wrap_small by lia. split_and!; try done. apply reads_u16; lia. }
  exists mp_array32, (append_u32 [] n). rewrite append_u32_app. unfold u32.
  rewrite wrap_small by lia. split_and!; try done. apply reads_u32; lia.
Qed.

Lemma map_header n :
  sized n →
  ∃ b h, 0 ≤ b < 256 ∧ append_map_header [] n = [byte_of b] ++ h ∧
    (is_immediate b, is_raw b, is_array b, is_map b) = (false, false, false, true) ∧
    reads (map_size b) h n.
Proof.
  intros Hn. unfold append_map_header, map_size, sized, u16_max in *.
  destruct (Z.ltb_spec n 16).
  { destruct (header_small 0x80 n) as (Hr & Hf & Hl); [lia|tauto|].
    exists (Z.lor 0x80 n), []. rewrite Hf, Hl. split_and!; [lia..|done| |apply reads_ret].
    pose proof (small_cases (λ n, negb (is_immediate (Z.lor 0x80 n)) &&
      negb (is_raw (Z.lor 0x80 n)) && negb (is_array (Z.lor 0x80 n)) && is_map (Z.lor 0x80 n))
      16 n eq_refl ltac:(lia)) as Hc.
    cbn beta in Hc. by destruct (is_immediate _), (is_raw _), (is_array _), (is_map _). }
  destruct (Z.leb_spec n (2 ^ 16 - 1)).
  { exists mp_map16, (append_u16 [] n). rewrite append_u16_app. unfold u16.
    rewrite wrap_small by lia. split_and!; try done. apply reads_u16; lia. }
  exists mp_map32, (append_u32 [] n). rewrite append_u32_app. unfold u32.
  rewrite wrap_small by lia. split_and!; try done. apply reads_u32; lia.
Qed.

Lemma reads_skip_raw d s : sized (size s) → reads (skip_depth (S d)) (append_raw [] s) tt.
Proof.
  intros Hs. destruct (raw_header s Hs)
    as (b & h & Hb & -> & Hh & H1 & H2 & H3 & H4 & H5 & H6).
  cbn [skip_depth]. eapply reads_bind; [by apply reads_byte|].
  fold (is_immediate b) (is_raw b).
  assert (is_immediate b = false) as ->.
  { unfold is_immediate. rewrite !orb_false_iff, !Z.leb_gt, !Z.eqb_neq. lia. }
  assert (is_raw b = true) as ->.
  { unfold is_raw. rewrite !orb_true_iff, !Z.eqb_eq. tauto. }
  eapply reads_bind; [exact Hh|]. apply reads_ensure_advance. unfold size. lia.
Qed.

Lemma reads_skip_uint d n : is_u64 n → reads (skip_depth (S d)) (append_uint [] n) tt.
Proof.
  intros Hn. unfold append_uint, u16_max, u32_max, is_u64 in *. cbn [skip_depth].
  destruct (Z.leb_spec n 0x7f).
  { apply (reads_bind _ _ [byte_of n] [] n); [apply reads_byte; lia|].
    rewrite (proj2 (Z.leb_le n 0x7f)) by lia. apply reads_ret. }
  destruct (Z.leb_spec n (2 ^ 8 - 1)).
  { apply (reads_bind _ _ [byte_of mp_uint8] [byte_of n] mp_uint8); [by apply reads_byte|].
    by apply reads_ensure_advance. }
  destruct (Z.leb_spec n (2 ^ 16 - 1)).
  { rewrite append_u16_app.
    apply (reads_bind _ _ [byte_of mp_uint16] _ mp_uint16); [by apply reads_byte|].
    by apply reads_ensure_advance. }
  destruct (Z.leb_spec n (2 ^ 32 - 1)).
  { rewrite append_u32_app.
    apply (reads_bind _ _ [byte_of mp_uint32] _ mp_uint32); [by apply reads_byte|].
    by apply reads_ensure_advance. }
  rewrite append_u64_app.
  apply (reads_bind _ _ [byte_of mp_uint64] _ mp_uint64); [by apply reads_byte|].
  by apply reads_ensure_advance.
Qed.

Lemma append_raw_nonempty s : append_raw [] s ≠ [].
Proof. unfold append_raw, append_u16, append_u32. by repeat case_match. Qed.

Lemma header_nonempty n : append_array_header [] n ≠ [] ∧ append_map_header [] n ≠ [].
Proof.
  unfold append_array_header, append_map_header, append_u16, append_u32.
  by split; repeat case_match.
Qed.

Lemma mp_encode_nonempty v : mp_encode v ≠ [].
Proof.
  destruct v as [|n|s|l|l]; cbn; [done| |apply append_raw_nonempty|..].
  - unfold append_uint, append_u16, append_u32, append_u64. by repeat case_match.
  - intros [H _]%app_nil. by apply header_nonempty in H.
  - intros [H _]%app_nil. by apply header_nonempty in H.
Qed.

Lemma reads_skip_depth v d :
  mp_sized v → (mp_depth v ≤ d)%nat → reads (skip_depth d) (mp_encode v) tt.
Proof.
  revert d. induction v as [|n|s|l IH|l IH] using msgpack_ind'; intros d Hs Hd;
    cbn [mp_depth mp_sized mp_encode] in *; (destruct d as [|d]; [lia|]).
  - cbn [skip_depth]. apply (reads_bind _ _ [byte_of mp_nil] [] mp_nil);
      [by apply reads_byte|apply reads_ret].
  - by apply reads_skip_uint.
  - by apply reads_skip_raw.
  - destruct Hs as [Hsz Hs].
    destruct (array_header _ Hsz) as (b & h & Hb & -> & [= H1 H2 H3] & Hh).
    cbn [skip_depth]. rewrite <- app_assoc. eapply reads_bind; [by apply reads_byte|].
    fold (is_immediate b) (is_raw b) (is_array b). rewrite H1, H2, H3.
    eapply reads_bind; [exact Hh|]. apply (reads_for_each (length l)); [done|].
    clear - IH Hs Hd. induction l as [|v l IHl]; [apply reads_loop_nil|]. cbn in *.
    apply Forall_cons in IH as [IHv IH]. destruct Hs as [Hsv Hs].
    apply (reads_loop_cons _ _ tt _ tt); [apply IHv; [done|lia]|apply mp_encode_nonempty|].
    apply IHl; [done..|lia].
  - destruct Hs as [Hsz Hs].
    destruct (map_header _ Hsz) as (b & h & Hb & -> & [= H1 H2 H3 H4] & Hh).
    cbn [skip_depth]. rewrite <- app_assoc. eapply reads_bind; [by apply reads_byte|].
    fold (is_immediate b) (is_raw b) (is_array b) (is_map b). rewrite H1, H2, H3, H4.
    eapply reads_bind; [exact Hh|]. apply (reads_for_each (length l)); [done|].
    assert (∃ d', d = S d') as [d' ->].
    { destruct d; [|eauto]. exfalso. clear - Hd. induction l; cbn in *; lia. }
    clear - IH Hs Hd. induction l as [|v l IHl]; [apply reads_loop_nil|].
    cbn [foldr map concat length] in *.
    apply Forall_cons in IH as [IHv IH]. destruct Hs as [[Hsk Hsv] Hs].
    apply (reads_loop_cons _ _ tt _ tt).
    + apply (reads_bind _ _ _ _ tt); [by apply reads_skip_raw|apply IHv; [done|lia]].
    + intros [H _]%app_nil. by apply append_raw_nonempty in H.
    + apply IHl; [done..|lia].
Qed.

Lemma mp_depth_length v : (mp_depth v ≤ S (length (mp_encode v)))%nat.
Proof.
  assert (∀ n, 0 < length (append_array_header [] n) ∧ 0 < length (append_map_header [] n))%nat
    as Hh.
  { intros n. destruct (header_nonempty n).
    destruct (append_array_header [] n), (append_map_header [] n); cbn; by try lia. }
  induction v as [|n|s|l IH|l IH] using msgpack_ind'; cbn [mp_depth mp_encode]; [lia..| |].
  - rewrite length_app. destruct (Hh (Z.of_nat (length l))) as [Hl _].
    revert Hl. generalize (length (append_array_header [] (Z.of_nat (length l)))). intros h Hl.
    induction IH as [|v l Hv _ IHl]; cbn [foldr map concat]; [lia|]. rewrite length_app. lia.
  - rewrite length_app. destruct (Hh (Z.of_nat (length l))) as [_ Hl].
    revert Hl. generalize (length (append_map_header [] (Z.of_nat (length l)))). intros h Hl.
    induction IH as [|v l Hv _ IHl]; cbn [foldr map concat]; [lia|]. rewrite !length_app. lia.
Qed.

Lemma reads_skip v : mp_sized v → reads skip (mp_encode v) tt.
Proof.
  intros Hs pre post r Hw Er Ep. unfold skip, get_state. rewrite run_bind.
  assert (mp_depth v ≤ S (length (_raw r)))%nat as Hd.
  { pose proof (mp_depth_length v). rewrite Er, !length_app. lia. }
  exact (reads_skip_depth v _ Hs Hd pre post r Hw Er Ep).
Qed.

(** ** The Peer RPC structures *)

(** Bring every write to the form [out ++ encoding]. *)
Ltac norm_app :=
  repeat match goal with
  | |- context [append_raw ?o ?s] =>
    lazymatch o with [] => fail | _ => rewrite (append_raw_app o s) end
  | |- context [append_uint ?o ?s] =>
    lazymatch o with [] => fail | _ => rewrite (append_uint_app o s) end
  | |- context [append_map_header ?o ?s] =>
    lazymatch o with [] => fail | _ => rewrite (append_map_header_app o s) end
  | |- context [append_array_header ?o ?s] =>
    lazymatch o with [] => fail | _ => rewrite (append_array_header_app o s) end
  end; rewrite <- ?app_assoc.

Lemma reads_field {A} (f : bytes → reader A) key bs a :
  sized (size (str key)) → reads (f (str key)) bs a →
  reads (read_raw ≫= f) (append_raw [] (str key) ++ bs) a.
Proof. intros Hs Hf. eapply reads_bind; [by apply reads_raw|done]. Qed.

(** One entry of a map loop: a literal key and its value. *)
Lemma reads_entry {A} n (body : A → reader A) f a key b1 a1 b2 a2 :
  body a = read_raw ≫= f → sized (size (str key)) → reads (f (str key)) b1 a1 →
  reads_loop n body a1 b2 a2 →
  reads_loop (S n) body a (append_raw [] (str key) ++ b1 ++ b2) a2.
Proof.
  intros Hb Hk Hf Hl. rewrite app_assoc. apply (reads_loop_cons _ _ _ _ a1); [|..|done].
  - rewrite Hb. by apply reads_field.
  - intros [H _]%app_nil. by apply append_raw_nonempty in H.
Qed.

Lemma reads_entry_last {A} (body : A → reader A) f a key b1 a1 :
  body a = read_raw ≫= f → sized (size (str key)) → reads (f (str key)) b1 a1 →
  reads_loop 1 body a (append_raw [] (str key) ++ b1) a1.
Proof.
  intros Hb Hk Hf. rewrite <- (app_nil_r b1).
  eapply reads_entry; [done..|]. apply reads_loop_nil.
Qed.

Lemma append_service_id_app out s m :
  append_service_id out s m = out ++ append_service_id [] s m.
Proof. unfold append_service_id. cbv zeta. norm_app. reflexivity. Qed.

Ltac encode_eq :=
  cbv zeta; norm_app; cbn [mp_encode map concat fst snd];
  rewrite app_nil_r, <- ?app_assoc; reflexivity.

Lemma append_service_id_encode s m :
  append_service_id [] s m = mp_encode (MMap [(str "Name", MRaw s); (str "Method", MRaw m)]).
Proof. unfold append_service_id. encode_eq. Qed.

Lemma encode_get_ancestor_block_id_request_encode p h :
  encode_get_ancestor_block_id_request p h
  = mp_encode (MMap [(str "ParentID", MRaw p); (str "ChildHeight", MUint h)]).
Proof. unfold encode_get_ancestor_block_id_request. encode_eq. Qed.

Lemma encode_get_blocks_request_encode b s n :
  encode_get_blocks_request b s n
  = mp_encode (MMap [(str "HeadBlockID", MRaw b); (str "StartBlockHeight", MUint s);
                     (str "NumBlocks", MUint n)]).
Proof. unfold encode_get_blocks_request. encode_eq. Qed.

Lemma encode_id_response_encode i :
  encode_id_response i = mp_encode (MMap [(str "ID", MRaw i)]).
Proof. unfold encode_id_response. encode_eq. Qed.

Lemma encode_head_block_response_encode i h :
  encode_head_block_response i h
  = mp_encode (MMap [(str "ID", MRaw i); (str "Height", MUint h)]).
Proof. unfold encode_head_block_response. encode_eq. Qed.

Lemma encode_blocks_response_encode l :
  encode_blocks_response l = mp_encode (MMap [(str "Blocks", MArray (MRaw <$> l))]).
Proof.
  unfold encode_blocks_response. cbv zeta. rewrite fold_append_raw. norm_app.
  cbn [mp_encode map concat fst snd]. rewrite app_nil_r, length_fmap, <- ?app_assoc.
  do 4 f_equal. unfold fmap. induction l; cbn; by f_equal.
Qed.

Lemma reads_service_id s m :
  sized (size s) → sized (size m) → s ≠ [] → m ≠ [] →
  reads read_service_id (append_service_id [] s m) (mkServiceID s m).
Proof.
  intros Hs Hm Hsn Hmn. rewrite append_service_id_encode.
  cbn [mp_encode map concat fst snd length]. rewrite app_nil_r, <- !app_assoc.
  unfold read_service_id. eapply reads_bind; [by apply reads_map_size|].
  eapply reads_bind_last.
  - apply (reads_for_each 2); [done|].
    eapply reads_entry; [done..|by apply reads_bind_ret, reads_raw|].
    eapply reads_entry_last; [done..|by apply reads_bind_ret, reads_raw].
  - cbn [name method]. unfold is_empty. rewrite !bool_decide_eq_false_2 by done. apply reads_ret.
Qed.
