(* ===== verification/PeerRpc.v ===== *)
(** The Peer RPC exchange over a libp2p stream: the client's response loop
    ([Libp2pTransport::send_peer_rpc]) and the server's answer to one request
    ([Libp2pTransport::handle_incoming_rpc]), [src/src/p2p/libp2p_transport.cpp].

    The stream itself is libp2p's: what it delivers is an argument, the list
    of results of the successive [readSome] calls. *)

From S2P Require Import Prelude GorpcCodec.
Import Gorpc.

Module PeerRpc.

(** One asynchronous read: it times out, fails, or delivers bytes; no
    bytes mean the peer closed the stream. *)
Inductive ReadResult : Type :=
| ReadTimeout
| ReadFailed (message : string)
| ReadBytes (chunk : bytes).

Inductive RpcError : Type :=
| TimedOutReading
| FailedToRead (message : string)
| StreamClosed
| ResponseDecodeError (e : DecodeError)
| ResponseTooLarge
| PeerError (message : bytes).

Definition max_response_size : Z := 64 * 1024 * 1024.

(** The [while( true )] loop: append what was read, try to decode, read on
    while the decoder asks for more.  The loop ends at the latest with the
    stream, so it recurses on its reads; a stream that never answers again
    ends in the read timeout. *)
Fixpoint read_response (response_raw : bytes) (reads : list ReadResult)
  : outcome RpcError Response :=
  match reads with
  | [] => Throw TimedOutReading
  | ReadTimeout :: _ => Throw TimedOutReading
  | ReadFailed message :: _ => Throw (FailedToRead message)
  | ReadBytes chunk :: reads =>
    if size chunk =? 0 then Throw StreamClosed
    else
      let response_raw := response_raw ++ chunk in
      match decode_response response_raw with
      | Ok decoded_response => Ok decoded_response
      | Throw e =>
        if negb (truncated e) then Throw (ResponseDecodeError e)
        else if max_response_size <=? size response_raw then Throw ResponseTooLarge
        else read_response response_raw reads
      | OutOfFuel => OutOfFuel
      end
  end.

(** [send_peer_rpc] once its request is written. *)
Definition receive_peer_rpc (reads : list ReadResult) : outcome RpcError bytes :=
  match read_response [] reads with
  | Ok decoded_response =>
    if negb (is_empty (error (header decoded_response)))
    then Throw (PeerError (error (header decoded_response)))
    else Ok (payload decoded_response)
  | Throw e => Throw e
  | OutOfFuel => OutOfFuel
  end.

(** What the installed request handler may throw. *)
Inductive HandlerError : Type :=
| StdException (what : bytes)
| UnknownException.

Definition Handler : Type := bytes → bytes → bytes → outcome HandlerError bytes.

(** [e.what()] of what a decoder throws. *)
Definition what (e : DecodeError) : bytes :=
  match e with DecodeErr message _ => str message | OutOfBounds => [] | BadAlloc => str "std::bad_alloc" end.

(** The answer to the bytes of one read. *)
Definition handle_incoming_rpc (on_peer_rpc_request : option Handler) (raw : bytes) : bytes :=
  match decode_request raw with
  | Ok request =>
    let answer :=
      match on_peer_rpc_request with
      | None => Throw (StdException (str "peer RPC handler is not configured"))
      | Some handler =>
        handler (name (req_service request)) (method (req_service request)) (args request)
      end in
    match answer with
    | Ok payload => encode_success_response (req_service request) payload
    | Throw (StdException what) => encode_error_response (req_service request) what server
    | Throw UnknownException =>
      encode_error_response (req_service request)
        (str "unknown peer RPC handler exception") server
    | OutOfFuel => []
    end
  | Throw e =>
    let unknown := mkServiceID (str "unknown") (str "unknown") in
    encode_error_response unknown (what e) server
  | OutOfFuel => []
  end.

(** *** The client's calls: the answer read, and decoded *)

Inductive TransportError : Type :=
| RpcFailed (e : RpcError)
| DecodingFailed (e : DecodeError)
| UnexpectedNumberOfBlocks
| BlockNotDeserialized.

Definition decode_payload {A} (decode : bytes → outcome DecodeError A) (reads : list ReadResult)
  : outcome TransportError A :=
  match receive_peer_rpc reads with
  | Throw e => Throw (RpcFailed e)
  | OutOfFuel => OutOfFuel
  | Ok payload =>
    match decode payload with
    | Ok a => Ok a
    | Throw e => Throw (DecodingFailed e)
    | OutOfFuel => OutOfFuel
    end
  end.

Definition peer_get_chain_id (reads : list ReadResult) : outcome TransportError bytes :=
  decode_payload decode_id_response reads.

Definition peer_get_head_block (reads : list ReadResult) : outcome TransportError HeadBlockResponse :=
  decode_payload decode_head_block_response reads.

Definition peer_get_ancestor_block_id (reads : list ReadResult) : outcome TransportError bytes :=
  decode_payload decode_id_response reads.

Section Blocks.
Context `{!Memory} {Block : Type} (ParseFromString : bytes → option Block).

Definition peer_get_blocks (count : Z) (reads : list ReadResult) : outcome TransportError (list Block) :=
  match decode_payload decode_blocks_response reads with
  | Ok block_payloads =>
    if negb (Z.of_nat (length block_payloads) =? count) then Throw UnexpectedNumberOfBlocks
    else
      match mapM ParseFromString block_payloads with
      | Some blocks => Ok blocks
      | None => Throw BlockNotDeserialized
      end
  | Throw e => Throw e
  | OutOfFuel => OutOfFuel
  end.

End Blocks.

End PeerRpc.
