(* ===== verification/GorpcTheorems.v ===== *)
(** The theorems about the Peer RPC codec and exchange. *)

From S2P Require Import Prelude GorpcCodec GorpcFacts PeerRpc.
Import Gorpc PeerRpc.

(** ** Running the decoders on encodings *)

Lemma run_reads {A} (m : reader A) raw a :
  fits raw → reads m raw a → m (mkReader raw 0) = (Ok a, mkReader raw (length raw)).
Proof.
  intros Hf Hm. rewrite (Hm [] [] (mkReader raw 0)); [done|by apply wf_initial| |done].
  by rewrite app_nil_r.
Qed.

Lemma run_reader_reads {A} (m : reader A) raw a :
  fits raw → reads m raw a → run_reader m raw = Ok a.
Proof. intros Hf Hm. unfold run_reader. by rewrite (run_reads _ _ a). Qed.

(** A decoder that reads all its input and then asks for its end. *)
Lemma run_reader_done {A} (m : reader A) message raw a :
  fits raw → reads m raw a →
  run_reader (x ← m; expect_done message;; mret x) raw = Ok a.
Proof.
  intros Hf Hm. unfold run_reader. rewrite (run_bind_ok _ _ _ _ _ (run_reads _ _ _ Hf Hm)).
  unfold expect_done, done, gets_state, raw_size, size. rewrite !run_bind. cbn [_raw _pos fst snd].
  by rewrite Z.eqb_refl.
Qed.

Lemma reads_captured {A} (f : bytes → A) v :
  mp_sized v → reads (captured f) (mp_encode v) (f (mp_encode v)).
Proof.
  intros Hs pre post r Hw Er Ep. unfold captured.
  unfold position, slice, gets_state, mbind, prog_bind, mret, prog_ret.
  rewrite (reads_skip v Hs pre post r Hw Er Ep). cbn.
  rewrite Er, Ep, drop_app_length.
  replace (length pre + length (mp_encode v) - length pre)%nat
    with (length (mp_encode v)) by lia.
  by rewrite take_app_length.
Qed.

(** A service name the protocol can carry. *)
Definition service_ok (s : ServiceID) : Prop :=
  name s ≠ [] ∧ method s ≠ [] ∧ sized (size (name s)) ∧ sized (size (method s)).

Lemma reads_request s v :
  service_ok s → mp_sized v →
  reads (service ← read_service_id; captured (mkDecodedRequest service))
    (encode_request (name s) (method s) (mp_encode v)) (mkDecodedRequest s (mp_encode v)).
Proof.
  intros (Hn & Hm & Hns & Hms) Hv. unfold encode_request. destruct s as [n m].
  eapply reads_bind; [by apply reads_service_id|by apply (reads_captured (mkDecodedRequest _))].
Qed.

Definition success_header (s : ServiceID) : ResponseHeader := mkResponseHeader s [] non_rpc.

Lemma reads_success s v :
  service_ok s → mp_sized v →
  reads (header ← read_response_header; captured (mkResponse header))
    (encode_success_response s (mp_encode v)) (mkResponse (success_header s) (mp_encode v)).
Proof.
  intros (Hn & Hm & Hns & Hms) Hv. unfold encode_success_response. cbv zeta.
  rewrite append_service_id_app. norm_app. destruct s as [n m]. cbn [name method] in *.
  rewrite !app_assoc. eapply reads_bind; [|by apply (reads_captured (mkResponse _))].
  rewrite <- !app_assoc. unfold read_response_header.
  eapply reads_bind; [by apply reads_map_size|]. apply (reads_for_each 1); [done|].
  eapply reads_entry_last; [done..|]. cbn -[append_service_id]. by apply reads_bind_ret, reads_service_id.
Qed.

Lemma reads_error s e t :
  service_ok s → sized (size e) → is_u64 t →
  reads (header ← read_response_header; captured (mkResponse header))
    (encode_error_response s e t) (mkResponse (mkResponseHeader s e t) [byte_of mp_nil]).
Proof.
  intros (Hn & Hm & Hns & Hms) He Ht. unfold encode_error_response. cbv zeta.
  rewrite append_service_id_app. norm_app. destruct s as [n m]. cbn [name method] in *.
  rewrite !app_assoc. eapply reads_bind; [|by apply (reads_captured (mkResponse _) MNil)].
  rewrite <- !app_assoc. unfold read_response_header.
  eapply reads_bind; [by apply reads_map_size|]. apply (reads_for_each 3); [done|].
  eapply reads_entry; [done..| |]; [by apply reads_bind_ret, reads_service_id|].
  eapply reads_entry; [done..| |]; [by apply reads_bind_ret, reads_raw|].
  eapply reads_entry_last; [done..|by apply reads_bind_ret, reads_uint].
Qed.

(** The message decoders: a map loop, then the end of the input. *)
Lemma run_map_reads {A} (loop : Z → reader A) message raw a :
  fits raw → reads (n ← read_map_size; loop n) raw a →
  run_reader (n ← read_map_size; x ← loop n; expect_done message;; mret x) raw = Ok a.
Proof.
  intros Hf Hm. rewrite <- (run_reader_done _ message _ _ Hf Hm).
  unfold run_reader. rewrite !run_bind. by destruct (read_map_size _) as [[]].
Qed.

Lemma expect_done_returns {A} message (a : A) r :
  returns_or_throws (fst ((expect_done message;; mret a) r)).
Proof.
  unfold expect_done, done, gets_state. rewrite !run_bind. by destruct (negb _).
Qed.

Lemma run_map_returns {A} (loop : Z → reader A) message raw :
  fits raw → (∀ n k l, good false k l (loop n) (loop n)) →
  returns_or_throws
    (run_reader (n ← read_map_size; x ← loop n; expect_done message;; mret x) raw).
Proof.
  intros Hf Hg.
  pose proof (good_run true (n ← read_map_size; loop n) (λ x, expect_done message;; mret x) raw Hf
    ltac:(intros; good_auto) ltac:(intros; apply expect_done_returns)) as Hr.
  revert Hr. unfold run_reader. rewrite !run_bind. by destruct (read_map_size _) as [[]].
Qed.

Lemma good_returns {A} s (m : reader A) raw :
  fits raw → (∀ k l, good s k l m m) → returns_or_throws (run_reader m raw).
Proof.
  intros Hf Hg. unfold run_reader.
  specialize (Hg (S (length raw)) 0%nat (mkReader raw 0) (wf_initial _ Hf)).
  unfold remaining in Hg; cbn in Hg. specialize (Hg ltac:(lia)).
  by destruct (m _) as [[a|[]|] r'].
Qed.

(** ** The messages *)

Section Messages.
Context (i : bytes) (h n : Z) (l : list bytes).
Context (Hi : sized (size i)) (Hh : is_u64 h) (Hn : is_u32 n).
Context (Hl : sized (Z.of_nat (length l))) (Hb : Forall (λ b, sized (size b)) l).

Ltac open_map k :=
  cbn [mp_encode map concat fst snd length]; rewrite app_nil_r, <- ?app_assoc;
  eapply reads_bind; [by apply reads_map_size|]; apply (reads_for_each k); [done|].
Ltac field := eapply reads_entry; [done..| |].
Ltac last_field := eapply reads_entry_last; [done..|].

Lemma reads_ancestor_request :
  reads (map_size ← read_map_size;
         for_each map_size (λ request : AncestorBlockIDRequest,
           key ← read_raw;
           if is_key key "ParentID" then
             value ← read_raw; mret (mkAncestorBlockIDRequest value (child_height request))
           else if is_key key "ChildHeight" then
             value ← read_uint; mret (mkAncestorBlockIDRequest (parent_id request) value)
           else skip;; mret request) (mkAncestorBlockIDRequest [] 0))
    (mp_encode (MMap [(str "ParentID", MRaw i); (str "ChildHeight", MUint h)]))
    (mkAncestorBlockIDRequest i h).
Proof.
  open_map 2%nat. field; [by apply reads_bind_ret, reads_raw|].
  last_field. by apply (reads_bind_ret read_uint), reads_uint.
Qed.

Lemma reads_blocks_request :
  reads (map_size ← read_map_size;
         for_each map_size (λ request : BlocksRequest,
           key ← read_raw;
           if is_key key "HeadBlockID" then
             value ← read_raw;
             mret (mkBlocksRequest value (start_block_height request) (num_blocks request))
           else if is_key key "StartBlockHeight" then
             value ← read_uint;
             mret (mkBlocksRequest (head_block_id request) value (num_blocks request))
           else if is_key key "NumBlocks" then
             value ← read_uint;
             if u32_max <? value
             then raise (DecodeErr "GetBlocks NumBlocks exceeds uint32" false)
             else mret (mkBlocksRequest (head_block_id request) (start_block_height request)
                          (u32 value))
           else skip;; mret request) (mkBlocksRequest [] 0 0))
    (mp_encode (MMap [(str "HeadBlockID", MRaw i); (str "StartBlockHeight", MUint h);
                      (str "NumBlocks", MUint n)]))
    (mkBlocksRequest i h n).
Proof.
  open_map 3%nat. field; [by apply reads_bind_ret, reads_raw|].
  field; [by apply (reads_bind_ret read_uint), reads_uint|].
  last_field. eapply reads_bind_last; [apply reads_uint; unfold is_u32, is_u64 in *; lia|].
  rewrite (proj2 (Z.ltb_ge u32_max n)) by (unfold is_u32, u32_max in *; lia).
  unfold u32. rewrite wrap_small by done. apply reads_ret.
Qed.

Lemma reads_id_response :
  reads read_id_field_response (mp_encode (MMap [(str "ID", MRaw i)])) i.
Proof. unfold read_id_field_response. open_map 1%nat. last_field. by apply reads_raw. Qed.

Lemma reads_head_response :
  reads (map_size ← read_map_size;
         for_each map_size (λ response : HeadBlockResponse,
           key ← read_raw;
           if is_key key "ID" then
             value ← read_raw; mret (mkHeadBlockResponse value (height response))
           else if is_key key "Height" then
             value ← read_uint; mret (mkHeadBlockResponse (id response) value)
           else skip;; mret response) (mkHeadBlockResponse [] 0))
    (mp_encode (MMap [(str "ID", MRaw i); (str "Height", MUint h)]))
    (mkHeadBlockResponse i h).
Proof.
  open_map 2%nat. field; [by apply reads_bind_ret, reads_raw|].
  last_field. by apply (reads_bind_ret read_uint), reads_uint.
Qed.

Lemma reads_block_payloads blocks :
  reads_loop (length l) (λ blocks : list bytes, value ← read_raw; mret (blocks ++ [value]))
    blocks (concat (map mp_encode (MRaw <$> l))) (blocks ++ l).
Proof.
  clear Hl. revert blocks. induction Hb as [|b l' Hb' Hl' IH]; intros blocks.
  { rewrite app_nil_r. apply reads_loop_nil. }
  cbn [length fmap list_fmap map concat mp_encode].
  apply (reads_loop_cons _ _ _ _ (blocks ++ [b])).
  - by apply (reads_bind_ret read_raw (λ value, blocks ++ [value])), reads_raw.
  - apply append_raw_nonempty.
  - replace (blocks ++ b :: l') with ((blocks ++ [b]) ++ l') by by rewrite <- app_assoc.
    by apply IH.
Qed.

Lemma reads_reserve `{!Memory} count : count ≤ max_strings → reads (reserve count) [] tt.
Proof. intros Hc. unfold reserve. rewrite (proj2 (Z.leb_le _ _) Hc). apply reads_ret. Qed.

Lemma reads_blocks_response `{!Memory} :
  Z.of_nat (length l) ≤ max_strings →
  reads (map_size ← read_map_size;
         for_each map_size (λ blocks : list bytes,
           key ← read_raw;
           if is_key key "Blocks" then
             block_count ← read_array_size;
             reserve block_count;;
             for_each block_count (λ blocks : list bytes,
               value ← read_raw; mret (blocks ++ [value])) blocks
           else skip;; mret blocks) [])
    (mp_encode (MMap [(str "Blocks", MArray (MRaw <$> l))])) l.
Proof.
  intros Hm. open_map 1%nat. last_field. rewrite length_fmap.
  eapply reads_bind; [by apply reads_array_size|]. apply (reads_bind _ _ [] _ tt); [by apply reads_reserve|].
  apply (reads_for_each (length l)); [done|]. apply (reads_block_payloads []).
Qed.

End Messages.

(** ** Cut buffers *)

Lemma decoder_cut {A} (m : reader A) raw n a :
  (∀ k l, good true k l m m) → fits raw → run_reader m raw = Ok a →
  run_reader m (take n raw) = Ok a ∨
  ∃ msg, run_reader m (take n raw) = Throw (DecodeErr msg true).
Proof.
  intros Hg Hf Hd. destruct (decide (n ≤ length raw)%nat) as [Hn|]; [|left; by rewrite take_ge by lia].
  unfold run_reader in Hd. destruct (m (mkReader raw 0)) as [o r'] eqn:E. cbn in Hd. subst o.
  pose proof (run_reader_cut _ raw n a r' Hf Hg E Hn) as Hc.
  destruct (decide _); [by left|by right].
Qed.

Lemma decode_response_cut raw n r :
  fits raw → decode_response raw = Ok r →
  decode_response (take n raw) = Ok r ∨
  ∃ msg, decode_response (take n raw) = Throw (DecodeErr msg true).
Proof. exact (decoder_cut _ raw n r good_decode_response). Qed.

Lemma decode_request_cut raw n r :
  fits raw → decode_request raw = Ok r →
  decode_request (take n raw) = Ok r ∨
  ∃ msg, decode_request (take n raw) = Throw (DecodeErr msg true).
Proof. exact (decoder_cut _ raw n r good_decode_request). Qed.

Lemma read_response_fragments raw0 chunks r :
  let raw := raw0 ++ concat chunks in
  size raw ≤ max_response_size → decode_response raw = Ok r →
  Forall (λ c, c ≠ []) chunks → chunks ≠ [] →
  read_response raw0 (ReadBytes <$> chunks) = Ok r.
Proof.
  intros raw Hs Hd Hne Hc. subst raw. revert raw0 Hs Hd Hc.
  induction Hne as [|c chunks Hcn Hne IH]; intros raw0 Hs Hd Hc; [done|]. cbn in *.
  destruct (Z.eqb_spec (size c) 0) as [H0|_].
  { unfold size in H0. destruct c; [done|cbn in H0; lia]. }
  destruct chunks as [|c' chunks].
  { cbn in *. rewrite app_nil_r in Hd. by rewrite Hd. }
  rewrite app_assoc in Hs, Hd.
  assert (fits ((raw0 ++ c) ++ concat (c' :: chunks))).
  { unfold fits, max_response_size in *. lia. }
  destruct (decode_response_cut _ (length (raw0 ++ c)) r ltac:(done) Hd) as [He|[msg He]];
    rewrite take_app_length in He; rewrite He; [done|]. cbn [truncated negb].
  destruct (Z.leb_spec max_response_size (size (raw0 ++ c))) as [Hle|_]; [|by apply IH].
  apply Forall_cons in Hne as [Hc' _]. unfold size in *. rewrite !length_app in *. cbn in Hs.
  rewrite !length_app in Hs. destruct c'; [done|]. cbn in Hs. lia.
Qed.

(** What a handler may answer for the client to see it as it is. *)
Definition answer_ok (answer : outcome HandlerError bytes) : Prop :=
  match answer with
  | Ok p => ∃ v, p = mp_encode v ∧ mp_sized v
  | Throw (StdException w) => sized (size w)
  | Throw UnknownException => True
  | OutOfFuel => False
  end.

Definition client_result (answer : outcome HandlerError bytes) : outcome RpcError bytes :=
  match answer with
  | Ok p => Ok p
  | Throw (StdException []) => Ok [byte_of mp_nil]
  | Throw (StdException w) => Throw (PeerError w)
  | Throw UnknownException => Throw (PeerError (str "unknown peer RPC handler exception"))
  | OutOfFuel => OutOfFuel
  end.

Lemma handle_incoming_request handler s v :
  service_ok s → mp_sized v → fits (encode_request (name s) (method s) (mp_encode v)) →
  handle_incoming_rpc (Some handler) (encode_request (name s) (method s) (mp_encode v)) =
    match handler (name s) (method s) (mp_encode v) with
    | Ok p => encode_success_response s p
    | Throw (StdException w) => encode_error_response s w server
    | Throw UnknownException =>
      encode_error_response s (str "unknown peer RPC handler exception") server
    | OutOfFuel => []
    end.
Proof.
  intros Hs Hv Hf. unfold handle_incoming_rpc.
  change (decode_request ?raw) with
    (run_reader (service ← read_service_id; captured (mkDecodedRequest service)) raw).
  rewrite (run_reader_reads _ _ _ Hf (reads_request s v Hs Hv)). reflexivity.
Qed.

Lemma decode_success_response s v :
  service_ok s → mp_sized v → fits (encode_success_response s (mp_encode v)) →
  decode_response (encode_success_response s (mp_encode v))
  = Ok (mkResponse (success_header s) (mp_encode v)).
Proof. intros Hs Hv Hf. exact (run_reader_reads _ _ _ Hf (reads_success s v Hs Hv)). Qed.

Lemma decode_error_response s e t :
  service_ok s → sized (size e) → is_u64 t → fits (encode_error_response s e t) →
  decode_response (encode_error_response s e t)
  = Ok (mkResponse (mkResponseHeader s e t) [byte_of mp_nil]).
Proof. intros Hs He Ht Hf. exact (run_reader_reads _ _ _ Hf (reads_error s e t Hs He Ht)). Qed.

Lemma receive_fragments chunks r :
  size (concat chunks) ≤ max_response_size → decode_response (concat chunks) = Ok r →
  Forall (λ c, c ≠ []) chunks → chunks ≠ [] →
  receive_peer_rpc (ReadBytes <$> chunks) =
    if negb (is_empty (error (header r))) then Throw (PeerError (error (header r)))
    else Ok (payload r).
Proof.
  intros Hs Hd Hne Hc. unfold receive_peer_rpc.
  by rewrite (read_response_fragments [] chunks r Hs Hd Hne Hc).
Qed.

Lemma receive_error s w chunks :
  service_ok s → sized (size w) →
  size (concat chunks) ≤ max_response_size → concat chunks = encode_error_response s w server →
  Forall (λ c, c ≠ []) chunks → chunks ≠ [] →
  receive_peer_rpc (ReadBytes <$> chunks) = client_result (Throw (StdException w)).
Proof.
  intros Hs Hz Hm He Hne Hc.
  rewrite (receive_fragments _ (mkResponse (mkResponseHeader s w server) [byte_of mp_nil]));
    [|done| |done..].
  - by destruct w.
  - rewrite He. apply decode_error_response; [done..|].
    unfold fits, max_response_size in *. rewrite <- He. lia.
Qed.

(** ** The properties *)

(** C35. However the network fragments a response, the client's read loop
    returns what decoding the whole response returns: no prefix of it is
    taken for a malformed response or for a different one.  This holds for every byte
    string the decoder accepts, not only for this node's own encodings. *)
Theorem response_fragmentation chunks r :
  size (concat chunks) ≤ max_response_size →
  decode_response (concat chunks) = Ok r →
  Forall (λ c, c ≠ []) chunks →
  read_response [] (ReadBytes <$> chunks) = Ok r.
Proof.
  intros Hs Hd Hne. destruct chunks as [|c chunks]; [done|].
  by apply (read_response_fragments []).
Qed.


(** A successful exchange delivers the handler's payload. *)
Lemma exchange_success handler s v r chunks :
  service_ok s → mp_sized v → fits (encode_request (name s) (method s) (mp_encode v)) →
  handler (name s) (method s) (mp_encode v) = Ok (mp_encode r) → mp_sized r →
  concat chunks
    = handle_incoming_rpc (Some handler) (encode_request (name s) (method s) (mp_encode v)) →
  size (concat chunks) ≤ max_response_size → Forall (λ c, c ≠ []) chunks → chunks ≠ [] →
  receive_peer_rpc (ReadBytes <$> chunks) = Ok (mp_encode r) ∧ fits (mp_encode r).
Proof.
  intros Hs Hv Hf Ha Hr Hc Hm Hne Hnn. rewrite handle_incoming_request, Ha in Hc by done.
  assert (size (mp_encode r) ≤ size (concat chunks)) as Hle.
  { rewrite Hc. unfold encode_success_response, size. cbv zeta. rewrite length_app. lia. }
  unfold fits, max_response_size in *. split; [|lia].
  rewrite (receive_fragments _ (mkResponse (success_header s) (mp_encode r))); [done..| |done|done].
  rewrite Hc. apply decode_success_response; [done..|]. unfold fits. rewrite <- Hc. lia.
Qed.


(** C38. Round trip of the envelopes: a decoded request, success response and
    error response are the ones that were encoded, for every service name,
    every msgpack value and every error message the headers can carry. *)
Theorem envelope_round_trip s v e t :
  service_ok s → mp_sized v → sized (size e) → is_u64 t →
  fits (encode_request (name s) (method s) (mp_encode v)) →
  fits (encode_success_response s (mp_encode v)) →
  fits (encode_error_response s e t) →
  decode_request (encode_request (name s) (method s) (mp_encode v))
    = Ok (mkDecodedRequest s (mp_encode v)) ∧
  decode_response (encode_success_response s (mp_encode v))
    = Ok (mkResponse (mkResponseHeader s [] non_rpc) (mp_encode v)) ∧
  decode_response (encode_error_response s e t)
    = Ok (mkResponse (mkResponseHeader s e t) [byte_of mp_nil]).
Proof.
  intros Hs Hv He Ht Hf1 Hf2 Hf3. split_and!.
  - exact (run_reader_reads _ _ _ Hf1 (reads_request s v Hs Hv)).
  - by apply decode_success_response.
  - by apply decode_error_response.
Qed.

Lemma blocks_request_round_trip i h n :
  sized (size i) → is_u64 h → is_u32 n → fits (encode_get_blocks_request i h n) →
  decode_get_blocks_request (encode_get_blocks_request i h n) = Ok (mkBlocksRequest i h n).
Proof.
  intros Hi Hh Hn Hf. rewrite encode_get_blocks_request_encode in *.
  by apply run_map_reads, reads_blocks_request.
Qed.

Lemma blocks_response_round_trip `{!Memory} l :
  Z.of_nat (length l) ≤ max_strings → sized (Z.of_nat (length l)) → Forall (λ b, sized (size b)) l →
  fits (encode_blocks_response l) →
  decode_blocks_response (encode_blocks_response l) = Ok l.
Proof.
  intros Hm Hl Hb Hf. rewrite encode_blocks_response_encode in *. by apply run_map_reads, reads_blocks_response.
Qed.

(** ** The reserved list *)

(** A message announces a list of [n] values somewhere. *)
Definition announces (raw : bytes) (n : Z) : Prop := ∃ p, (read_array_size (mkReader raw p)).1 = Ok n.

Section Reserve.
Context `{!Memory} (raw : bytes).

(** [m] is [m'] but for lists that are too long for the memory. *)
Definition but_for_memory {A} (m m' : reader A) : Prop := ∀ r, wf r → _raw r = raw →
  m r = m' r ∨ (m r).1 = Throw BadAlloc ∧ ∃ n, announces raw n ∧ max_strings < n.

Lemma but_for_memory_refl {A} (m : reader A) : but_for_memory m m.
Proof. intros r _ _. by left. Qed.

Lemma but_for_memory_bind {A B} s (m m' : reader A) (f f' : A → reader B) :
  but_for_memory m m' → (∀ k l, good s k l m' m') → (∀ a, but_for_memory (f a) (f' a)) →
  but_for_memory (m ≫= f) (m' ≫= f').
Proof.
  intros Hm Hg Hf r Hw Hr. rewrite !run_bind. destruct (Hm r Hw Hr) as [->|[Hbad Hn]].
  - specialize (Hg (S (remaining r)) 0%nat r Hw ltac:(lia)). destruct (m' r) as [[a|e|] r']; [|by left..].
    destruct Hg as [Hfw _]. apply Hf; [by eapply forward_wf|]. by rewrite (proj1 Hfw).
  - right. destruct (m r) as [[a|e|] r']; simplify_eq/=. by split.
Qed.

Lemma but_for_memory_loop {A} fuel (body body' : A → reader A) : ∀ n a,
  (∀ a, but_for_memory (body a) (body' a)) → (∀ a k l, good true k l (body' a) (body' a)) →
  but_for_memory (for_loop fuel n body a) (for_loop fuel n body' a).
Proof.
  induction fuel as [|fuel IH]; intros n a Hb Hg.
  { apply but_for_memory_refl. }
  destruct (Z.leb_spec n 0); [rewrite !for_loop_stop by done; apply but_for_memory_refl|].
  rewrite !for_loop_step by done. eapply but_for_memory_bind; [apply Hb|intros; apply Hg|]. intros a'. by apply IH.
Qed.

Lemma but_for_memory_for_each {A} n (body body' : A → reader A) a :
  (∀ a, but_for_memory (body a) (body' a)) → (∀ a k l, good true k l (body' a) (body' a)) →
  but_for_memory (for_each n body a) (for_each n body' a).
Proof. intros Hb Hg r Hw Hr. unfold for_each. rewrite !run_bind. by apply but_for_memory_loop. Qed.

Lemma but_for_memory_reserve {A} (k : Z → reader A) :
  but_for_memory (n ← read_array_size; reserve n;; k n) (n ← read_array_size; k n).
Proof.
  intros [raw' p] Hw Hr. cbn in Hr. subst raw'. rewrite !run_bind.
  destruct (read_array_size _) as [[n|e|] r'] eqn:Hn; [|by left..]. rewrite run_bind. unfold reserve, assert_that.
  destruct (Z.leb_spec n max_strings); [by left|right]. split; [done|]. exists n. split; [|lia]. exists p. by rewrite Hn.
Qed.

(** The decoder of a blocks response without the reservation. *)
Definition blocks_loop (map_size : Z) : reader (list bytes) :=
  for_each map_size (λ blocks : list bytes,
    key ← read_raw;
    if is_key key "Blocks" then
      block_count ← read_array_size;
      for_each block_count (λ blocks : list bytes,
        value ← read_raw; mret (blocks ++ [value])) blocks
    else skip;; mret blocks) [].

Lemma good_blocks_loop n k l : good false k l (blocks_loop n) (blocks_loop n).
Proof. unfold blocks_loop. good_auto. Qed.

Lemma decode_blocks_reserved :
  fits raw →
  let o := run_reader (n ← read_map_size; blocks ← blocks_loop n;
                       expect_done "trailing bytes after blocks response";; mret blocks) raw in
  decode_blocks_response raw = o ∨
  decode_blocks_response raw = Throw BadAlloc ∧ ∃ n, announces raw n ∧ max_strings < n.
Proof.
  intros Hf o. unfold o, decode_blocks_response, run_reader, blocks_loop.
  assert (∀ r, wf r → _raw r = raw → True) as _ by done.
  match goal with |- (?m ?r).1 = (?m' ?r).1 ∨ _ => assert (but_for_memory m m') as Hm end.
  { eapply but_for_memory_bind; [apply but_for_memory_refl|intros; apply good_read_map_size|]. intros n.
    eapply (but_for_memory_bind false); [|intros; apply (good_blocks_loop n)|intros; apply but_for_memory_refl].
    apply but_for_memory_for_each; [|intros; good_auto]. intros a.
    eapply but_for_memory_bind; [apply but_for_memory_refl|intros; apply good_read_raw|]. intros key.
    destruct (is_key key "Blocks"); [apply but_for_memory_reserve|apply but_for_memory_refl]. }
  destruct (Hm (mkReader raw 0) (wf_initial _ Hf) eq_refl) as [->|?]; [by left|by right].
Qed.

End Reserve.

(** A message of thirteen bytes that announces as many blocks as a count can. *)
Definition many_blocks : bytes := append_raw (append_map_header [] 1) (str "Blocks") ++ [byte_of mp_array32] ++ repeat (byte_of 0xff) 4.

Lemma many_blocks_refused `{!Memory} : max_strings < 2 ^ 32 - 1 → decode_blocks_response many_blocks = Throw BadAlloc.
Proof.
  intros Hm. unfold decode_blocks_response, run_reader.
  assert (read_map_size (mkReader many_blocks 0) = (Ok 1, mkReader many_blocks 1)) as H1 by (by vm_compute).
  assert (read_raw (mkReader many_blocks 1) = (Ok (str "Blocks"), mkReader many_blocks 8)) as H2 by (by vm_compute).
  assert (read_array_size (mkReader many_blocks 8) = (Ok (2 ^ 32 - 1), mkReader many_blocks 13)) as H3 by (by vm_compute).
  rewrite run_bind, H1, run_bind. unfold for_each at 1. rewrite run_bind. cbn [get_state].
  rewrite for_loop_step, run_bind, run_bind, H2 by lia.
  change (is_key (str "Blocks") "Blocks") with true. cbv iota. rewrite run_bind, H3, run_bind.
  unfold reserve. by rewrite (proj2 (Z.leb_gt _ _) Hm).
Qed.

(** Round trip of the messages: the arguments and results of the four
    Peer RPC methods are read back as they were written. *)
Theorem message_round_trip `{!Memory} i h n l :
  Z.of_nat (length l) ≤ max_strings → sized (size i) → is_u64 h → is_u32 n →
  sized (Z.of_nat (length l)) → Forall (λ b, sized (size b)) l →
  fits (encode_get_ancestor_block_id_request i h) → fits (encode_get_blocks_request i h n) →
  fits (encode_id_response i) → fits (encode_head_block_response i h) →
  fits (encode_blocks_response l) →
  decode_get_ancestor_block_id_request (encode_get_ancestor_block_id_request i h)
    = Ok (mkAncestorBlockIDRequest i h) ∧
  decode_get_blocks_request (encode_get_blocks_request i h n) = Ok (mkBlocksRequest i h n) ∧
  decode_id_response (encode_id_response i) = Ok i ∧
  decode_head_block_response (encode_head_block_response i h) = Ok (mkHeadBlockResponse i h) ∧
  decode_blocks_response (encode_blocks_response l) = Ok l.
Proof.
  intros Hmem Hi Hh Hn Hl Hb F1 F2 F3 F4 F5.
  rewrite encode_get_ancestor_block_id_request_encode, encode_id_response_encode,
    encode_head_block_response_encode in *.
  split_and!.
  - by apply run_map_reads, reads_ancestor_request.
  - by apply blocks_request_round_trip.
  - by apply run_reader_done, reads_id_response.
  - by apply run_map_reads, reads_head_response.
  - by apply blocks_response_round_trip.
Qed.

(** What the decoder of a blocks response may do: return, throw a
    [DecodeErr], or have no memory for a list as long as the message
    announces. *)
Definition returns_or_lacks_memory `{!Memory} {A} (raw : bytes) (o : outcome DecodeError A) : Prop :=
  returns_or_throws o ∨ o = Throw BadAlloc ∧ ∃ n, announces raw n ∧ max_strings < n.

(** C36. Safety and termination on arbitrary bytes: every decoder returns or
    throws a [DecodeError], but that of a blocks response, which reserves a
    list as long as the message announces before it reads it, and throws
    [bad_alloc] where that is more than there is memory for; thirteen bytes
    announce 2^32 - 1 blocks.  None reads outside its buffer, none of their
    loops runs on, and [skip] nests at most as deep as bytes are left. *)
Theorem decoders_safe `{!Memory} raw :
  fits raw →
  returns_or_throws (decode_request raw) ∧ returns_or_throws (decode_response raw) ∧
  returns_or_throws (decode_get_ancestor_block_id_request raw) ∧
  returns_or_throws (decode_get_blocks_request raw) ∧
  returns_or_throws (decode_id_response raw) ∧
  returns_or_throws (decode_head_block_response raw) ∧
  returns_or_lacks_memory raw (decode_blocks_response raw) ∧
  (max_strings < 2 ^ 32 - 1 → decode_blocks_response many_blocks = Throw BadAlloc) ∧
  ∀ p depth, (p ≤ length raw)%nat → (length raw - p < depth)%nat → returns_or_throws (skip_depth depth (mkReader raw p)).1.
Proof.
  intros Hf. split_and!.
  - exact (good_returns _ _ _ Hf good_decode_request).
  - exact (good_returns _ _ _ Hf good_decode_response).
  - apply run_map_returns; [done|]. intros. good_auto.
  - apply run_map_returns; [done|]. intros. good_auto.
  - apply (good_run true read_id_field_response); [done| |].
    + intros. good_auto.
    + intros. apply expect_done_returns.
  - apply run_map_returns; [done|]. intros. good_auto.
  - destruct (decode_blocks_reserved raw Hf) as [->|?]; [left|by right].
    apply run_map_returns; [done|]. intros. apply good_blocks_loop.
  - apply many_blocks_refused.
  - intros p depth Hp Hd.
    pose proof (good_skip_depth depth 0 depth 0 ltac:(lia) ltac:(lia) (mkReader raw p)) as Hg.
    unfold wf, remaining in Hg. cbn in Hg. specialize (Hg (conj Hp Hf) Hd).
    by destruct (skip_depth depth _) as [[a|[]|] r'].
Qed.

(** ** Witnesses *)

Definition demo_service : ServiceID := mkServiceID (str "PeerRPCService") (str "GetChainID").

Definition demo_handler : Handler := λ service method args,
  if is_key method "GetChainID" then Ok (encode_id_response (str "chain"))
  else Throw (StdException (str "unknown peer RPC method")).

Lemma response_fragmentation_witness :
  read_response []
    (ReadBytes <$> [take 3 (encode_success_response demo_service (encode_id_response (str "c")));
                    drop 3 (encode_success_response demo_service (encode_id_response (str "c")))])
  = Ok (mkResponse (success_header demo_service) (encode_id_response (str "c"))).
Proof. apply response_fragmentation; [by vm_compute|by vm_compute|by concrete]. Defined.


Lemma envelope_round_trip_witness :
  decode_request (encode_request (name demo_service) (method demo_service)
                    (mp_encode (MMap [(str "ID", MUint 300)])))
    = Ok (mkDecodedRequest demo_service (mp_encode (MMap [(str "ID", MUint 300)]))) ∧
  decode_response (encode_success_response demo_service (mp_encode (MMap [(str "ID", MUint 300)])))
    = Ok (mkResponse (mkResponseHeader demo_service [] non_rpc)
                     (mp_encode (MMap [(str "ID", MUint 300)]))) ∧
  decode_response (encode_error_response demo_service (str "boom") authorization)
    = Ok (mkResponse (mkResponseHeader demo_service (str "boom") authorization) [byte_of mp_nil]).
Proof. apply envelope_round_trip; by concrete. Defined.

#[local] Instance demo_memory : Memory := {| max_strings := 2 ^ 24; max_strings_large := ltac:(lia) |}.

Lemma message_round_trip_witness :
  decode_get_ancestor_block_id_request
      (encode_get_ancestor_block_id_request (str "abc") 70000)
    = Ok (mkAncestorBlockIDRequest (str "abc") 70000) ∧
  decode_get_blocks_request (encode_get_blocks_request (str "abc") 70000 500)
    = Ok (mkBlocksRequest (str "abc") 70000 500) ∧
  decode_id_response (encode_id_response (str "abc")) = Ok (str "abc") ∧
  decode_head_block_response (encode_head_block_response (str "abc") 70000)
    = Ok (mkHeadBlockResponse (str "abc") 70000) ∧
  decode_blocks_response (encode_blocks_response [str "x"; str "yz"])
    = Ok [str "x"; str "yz"].
Proof. apply message_round_trip; by concrete. Defined.

Lemma decoders_safe_witness :
  returns_or_throws (decode_request [byte_of mp_map32; byte_of 0xff]) ∧
  returns_or_throws (decode_response [byte_of mp_map32; byte_of 0xff]) ∧
  returns_or_throws
    (decode_get_ancestor_block_id_request [byte_of mp_map32; byte_of 0xff]) ∧
  returns_or_throws (decode_get_blocks_request [byte_of mp_map32; byte_of 0xff]) ∧
  returns_or_throws (decode_id_response [byte_of mp_map32; byte_of 0xff]) ∧
  returns_or_throws (decode_head_block_response [byte_of mp_map32; byte_of 0xff]) ∧
  returns_or_lacks_memory [byte_of mp_map32; byte_of 0xff] (decode_blocks_response [byte_of mp_map32; byte_of 0xff]) ∧
  (max_strings < 2 ^ 32 - 1 → decode_blocks_response many_blocks = Throw BadAlloc) ∧
  ∀ p depth, (p ≤ 2)%nat → (2 - p < depth)%nat →
    returns_or_throws (skip_depth depth (mkReader [byte_of mp_map32; byte_of 0xff] p)).1.
Proof. apply (decoders_safe [byte_of mp_map32; byte_of 0xff]). by vm_compute. Defined.
