(* ===== verification/Storage.v ===== *)
(** The storage interface: what the components rely on of RocksDB and of
    the protobuf messages, both third-party code, as classes of operations
    with their laws, and the in-memory instances the witnesses run on. *)

From S2P Require Import Prelude.

(** ** RocksDB *)

Inductive GetStatus : Type :=
| Found (value : bytes)
| NotFound
| GetError (message : string).

Inductive Status : Type :=
| StatusOk
| StatusError (message : string).

(** [DB->Get] and [DB->Put] on a column family. *)
Class RocksDB (DB CF : Type) := {
  Get : DB → CF → bytes → GetStatus;
  Put : DB → CF → bytes → bytes → Status * DB
}.

(** A successful write is read back, and touches no other key; a failed one
    is not applied. *)
Class RocksDBLaws (DB CF : Type) `{RocksDB DB CF} := {
  Get_Put db cf k v db' :
    Put db cf k v = (StatusOk, db') → Get db' cf k = Found v;
  Get_Put_ne db cf k v db' cf' k' :
    Put db cf k v = (StatusOk, db') → (cf, k) ≠ (cf', k') → Get db' cf' k' = Get db cf' k';
  Get_Put_error db cf k v m db' cf' k' :
    Put db cf k v = (StatusError m, db') → Get db' cf' k' = Get db cf' k'
}.

(** ** Protobuf messages *)

(** [SerializeToString] and [ParseFromString] of a message type. *)
Class Message (A : Type) := {
  SerializeToString : A → option bytes;
  ParseFromString : bytes → option A
}.

Class MessageLaws (A : Type) `{Message A} := {
  Parse_Serialize a b : SerializeToString a = Some b → ParseFromString b = Some a
}.

(** ** Instances *)

(** A database is a map from column family and key to value. *)
Abbreviation MapDB := (gmap (nat * bytes) bytes).

#[global] Instance map_db : RocksDB MapDB nat := {
  Get db cf k := match db !! (cf, k) with Some v => Found v | None => NotFound end;
  Put db cf k v := (StatusOk, <[(cf, k) := v]> db)
}.

#[global] Instance map_db_laws : RocksDBLaws MapDB nat.
Proof.
  split.
  - intros db cf k v db' [= <-]. cbn. by rewrite lookup_insert_eq.
  - intros db cf k v db' cf' k' [= <-] Hne. cbn. by rewrite lookup_insert_ne.
  - done.
Qed.

(** A message type whose values can be enumerated is serialized as the bits
    of its index, after a leading byte. *)
Fixpoint bits_of (p : positive) : bytes :=
  match p with
  | xH => []
  | xO p => byte_of 0 :: bits_of p
  | xI p => byte_of 1 :: bits_of p
  end.

Fixpoint of_bits (b : bytes) : positive :=
  match b with
  | [] => xH
  | c :: b => if code c =? 0 then xO (of_bits b) else xI (of_bits b)
  end.

Lemma of_bits_of p : of_bits (bits_of p) = p.
Proof. induction p as [p IH|p IH|]; cbn; [by rewrite IH..|done]. Qed.

Section Countable.
Context {A : Type} `{!EqDecision A} `{!Countable A}.

Definition countable_message : Message A := {|
  SerializeToString a := Some (byte_of 1 :: bits_of (encode a));
  ParseFromString b := match b with [] => None | _ :: b => decode (of_bits b) end
|}.

Definition countable_message_laws : @MessageLaws A countable_message.
Proof. split. intros a b [= <-]. cbn. by rewrite of_bits_of, decode_encode. Defined.

End Countable.
