(* ===== verification/Keys.v ===== *)
(** Keys: byte strings in the order of [std::string], and the key sequence
    of a [std::map] over them; integers as byte strings, the most significant
    byte first. *)

From S2P Require Import Prelude.

(** [operator<] of [std::string]: bytes compared as unsigned, a proper
    prefix first. *)
Fixpoint bytes_ltb (x y : bytes) : bool :=
  match x, y with
  | [], [] => false
  | [], _ :: _ => true
  | _ :: _, [] => false
  | a :: x, b :: y => (code a <? code b) || ((code a =? code b) && bytes_ltb x y)
  end.

Definition bytes_lt (x y : bytes) : Prop := bytes_ltb x y = true.
Definition bytes_le (x y : bytes) : Prop := bytes_ltb y x = false.

#[global] Instance bytes_lt_dec x y : Decision (bytes_lt x y).
Proof. unfold bytes_lt. apply _. Defined.
#[global] Instance bytes_le_dec x y : Decision (bytes_le x y).
Proof. unfold bytes_le. apply _. Defined.

Lemma code_inj a b : code a = code b → a = b.
Proof.
  unfold code. intros H. rewrite <- (ascii_N_embedding a), <- (ascii_N_embedding b). f_equal. lia.
Qed.

Lemma bytes_lt_cons a b x y :
  bytes_lt (a :: x) (b :: y) ↔ code a < code b ∨ a = b ∧ bytes_lt x y.
Proof.
  unfold bytes_lt. cbn. rewrite orb_true_iff, andb_true_iff, Z.ltb_lt, Z.eqb_eq.
  split; intros [?|[H ?]]; [by left|right|by left|right]; split; try done.
  - by apply code_inj.
  - by subst.
Qed.

#[global] Instance bytes_lt_irrefl : Irreflexive bytes_lt.
Proof.
  intros x H. induction x as [|a x IH]; [done|].
  apply bytes_lt_cons in H as [?|[_ ?]]; [lia|by apply IH].
Qed.

#[global] Instance bytes_lt_trans : Transitive bytes_lt.
Proof.
  intros x. induction x as [|a x IH]; intros [|b y] [|c z]; try done.
  rewrite !bytes_lt_cons. intros [?|[-> ?]] [?|[-> ?]]; [left; lia|by left|by left|right].
  split; [done|]. by eapply IH.
Qed.

Lemma bytes_lt_trichotomy x y : bytes_lt x y ∨ x = y ∨ bytes_lt y x.
Proof.
  revert y. induction x as [|a x IH]; intros [|b y]; [by right; left|by left|by right; right|].
  rewrite !bytes_lt_cons. destruct (Z.lt_trichotomy (code a) (code b)) as [?|[H|?]].
  - by left; left.
  - apply code_inj in H as ->. destruct (IH y) as [?|[->|?]]; tauto.
  - by right; right; left.
Qed.

Lemma bytes_le_lt x y : bytes_le x y ↔ x = y ∨ bytes_lt x y.
Proof.
  unfold bytes_le. fold (¬ bytes_lt y x). split.
  - intros H. destruct (bytes_lt_trichotomy x y) as [?|[?|Hy]]; [by right|by left|].
    unfold bytes_lt in Hy. congruence.
  - intros [->|Hl]; apply not_true_is_false; intros H.
    + by apply (bytes_lt_irrefl y).
    + apply (bytes_lt_irrefl x). by etrans.
Qed.

Lemma bytes_not_lt x y : ¬ bytes_lt x y ↔ bytes_le y x.
Proof. unfold bytes_lt, bytes_le. by rewrite not_true_iff_false. Qed.

Lemma bytes_le_lt_trans x y z : bytes_le x y → bytes_lt y z → bytes_lt x z.
Proof. intros [->|?]%bytes_le_lt ?; [done|by etrans]. Qed.

Lemma bytes_lt_le_trans x y z : bytes_lt x y → bytes_le y z → bytes_lt x z.
Proof. intros ? [->|?]%bytes_le_lt; [done|by etrans]. Qed.

#[global] Instance bytes_le_preorder : PreOrder bytes_le.
Proof.
  split.
  - intros x. apply bytes_le_lt. by left.
  - intros x y z [->|Hxy]%bytes_le_lt Hyz; [done|]. apply bytes_le_lt. right. by eapply bytes_lt_le_trans.
Qed.

#[global] Instance bytes_le_antisym : AntiSymm eq bytes_le.
Proof.
  intros x y [->|H]%bytes_le_lt [H'|H']%bytes_le_lt; try done.
  exfalso. apply (bytes_lt_irrefl x). by etrans.
Qed.

#[global] Instance bytes_le_total : Total bytes_le.
Proof.
  intros x y. rewrite !bytes_le_lt. destruct (bytes_lt_trichotomy x y) as [?|[->|?]]; tauto.
Qed.

(** ** Sorted key sequences *)

(** [std::sort]. *)
Definition sort_keys (l : list bytes) : list bytes := merge_sort bytes_le l.

Lemma StronglySorted_filter {A} (R : A → A → Prop) (P : A → bool) l :
  StronglySorted R l → StronglySorted R (filter P l).
Proof.
  induction 1 as [|x l _ IH Hall]; cbn; [constructor|].
  destruct (decide (P x)); [|done]. constructor; [done|].
  rewrite Forall_forall in Hall |- *. intros y [_ Hy]%list_elem_of_filter. by apply Hall.
Qed.

Section MapKeys.
Context {V : Type}.
Implicit Types m : gmap bytes V.

(** The keys of a [std::map] from [begin()] to [end()]. *)
Definition map_keys m : list bytes := sort_keys (map_to_list m).*1.

Lemma map_keys_elem m k : k ∈ map_keys m ↔ is_Some (m !! k).
Proof.
  unfold map_keys, sort_keys. rewrite merge_sort_Permutation, list_elem_of_fmap. split.
  - intros ([k' v] & -> & H). apply elem_of_map_to_list in H. by exists v.
  - intros [v H]. exists (k, v). split; [done|]. by apply elem_of_map_to_list.
Qed.

Lemma map_keys_sorted m : Sorted bytes_le (map_keys m).
Proof. apply (Sorted_merge_sort bytes_le). Qed.

Lemma map_keys_NoDup m : NoDup (map_keys m).
Proof. unfold map_keys, sort_keys. rewrite merge_sort_Permutation. apply NoDup_fst_map_to_list. Qed.

(** The first key that satisfies an upward closed condition. *)
Definition first_key (P : bytes → bool) m : option bytes := head (filter P (map_keys m)).

Lemma first_key_Some P m k :
  first_key P m = Some k →
  is_Some (m !! k) ∧ P k = true ∧ ∀ k', is_Some (m !! k') → P k' = true → bytes_le k k'.
Proof.
  unfold first_key. intros H.
  destruct (filter P (map_keys m)) as [|k0 l] eqn:Hf; [done|]. injection H as ->.
  assert (k ∈ filter P (map_keys m)) as [HP Hk]%list_elem_of_filter by (rewrite Hf; by left).
  rewrite map_keys_elem in Hk. split_and!; [done|by apply Is_true_true|].
  intros k' Hk' HP'. assert (k' ∈ filter P (map_keys m)) as Hin.
  { apply list_elem_of_filter. rewrite map_keys_elem. split; [by apply Is_true_true|done]. }
  rewrite Hf in Hin. apply elem_of_cons in Hin as [->|Hin]; [done|].
  assert (StronglySorted bytes_le (filter P (map_keys m))) as Hs.
  { apply StronglySorted_filter, Sorted_StronglySorted; [apply _|apply map_keys_sorted]. }
  rewrite Hf in Hs. apply StronglySorted_inv in Hs as [_ Hall].
  rewrite Forall_forall in Hall. by apply Hall.
Qed.

Lemma first_key_None P m k : first_key P m = None → is_Some (m !! k) → P k = false.
Proof.
  unfold first_key. intros H Hk. apply not_true_is_false. intros HP.
  assert (k ∈ filter P (map_keys m)) as Hin.
  { apply list_elem_of_filter. rewrite map_keys_elem. split; [by apply Is_true_true|done]. }
  destruct (filter P (map_keys m)); [by apply elem_of_nil in Hin|done].
Qed.

(** The greatest key that satisfies a condition. *)
Definition last_key (P : bytes → bool) m : option bytes := last (filter P (map_keys m)).

Lemma last_sorted (l : list bytes) k : StronglySorted bytes_le l → last l = Some k →
  k ∈ l ∧ ∀ k', k' ∈ l → bytes_le k' k.
Proof.
  induction 1 as [|x l Hs IH Hall]; [done|]. intros Hl.
  destruct l as [|y l]; [injection Hl as ->; split; [by left|by intros k' ->%list_elem_of_singleton]|].
  destruct (IH Hl) as [Hin Hle]. split; [by right|]. intros k' [->|Hk']%elem_of_cons; [|by apply Hle].
  rewrite Forall_forall in Hall. by apply Hall.
Qed.

Lemma last_key_Some P m k : last_key P m = Some k →
  is_Some (m !! k) ∧ P k = true ∧ ∀ k', is_Some (m !! k') → P k' = true → bytes_le k' k.
Proof.
  intros Hl. apply last_sorted in Hl as [Hin Hle].
  2: { apply StronglySorted_filter, Sorted_StronglySorted; [apply _|apply map_keys_sorted]. }
  apply list_elem_of_filter in Hin as [HP Hk]. rewrite map_keys_elem in Hk.
  split_and!; [done|by apply Is_true_true|]. intros k' Hk' HP'. apply Hle, list_elem_of_filter.
  by rewrite map_keys_elem, Is_true_true.
Qed.

Lemma last_key_None P m k : last_key P m = None → is_Some (m !! k) → P k = false.
Proof.
  unfold last_key. intros Hl%last_None Hk. apply not_true_is_false. intros HP.
  assert (k ∈ filter P (map_keys m)) as Hin.
  { apply list_elem_of_filter. by rewrite map_keys_elem, Is_true_true. }
  rewrite Hl in Hin. by apply elem_of_nil in Hin.
Qed.

End MapKeys.

(** ** Big-endian numbers

    Their order as keys is their order as numbers. *)

(** Integers in [n] bytes, the most significant first. *)
Fixpoint big_endian (n : nat) (x : Z) : bytes :=
  match n with
  | O => []
  | S n => byte_of (x `div` 256 ^ Z.of_nat n) :: big_endian n x
  end.

Fixpoint of_big_endian (b : bytes) : Z :=
  match b with
  | [] => 0
  | c :: b => code c * 256 ^ Z.of_nat (length b) + of_big_endian b
  end.

Lemma big_endian_length n x : length (big_endian n x) = n.
Proof. induction n as [|n IH]; cbn; [done|by rewrite IH]. Qed.

Lemma of_big_endian_range b : 0 ≤ of_big_endian b < 256 ^ Z.of_nat (length b).
Proof.
  induction b as [|c b IH]; [done|]. cbn [of_big_endian length]. rewrite Nat2Z.inj_succ, Z.pow_succ_r by lia.
  pose proof (code_range c). nia.
Qed.

Lemma of_big_endian_of n x : 0 ≤ x → of_big_endian (big_endian n x) = x `mod` 256 ^ Z.of_nat n.
Proof.
  intros Hx. induction n as [|n IH]; [cbn; by rewrite Z.mod_1_r|]. cbn [big_endian of_big_endian].
  rewrite big_endian_length, IH, code_byte_of, Nat2Z.inj_succ, Z.pow_succ_r by lia. unfold u8, wrap.
  change (2 ^ 8) with 256. rewrite (Z.mul_comm 256), Z.rem_mul_r by lia. lia.
Qed.

Lemma of_big_endian_lt b1 b2 : length b1 = length b2 → bytes_lt b1 b2 ↔ of_big_endian b1 < of_big_endian b2.
Proof.
  revert b2. induction b1 as [|c b1 IH]; intros [|c' b2] Hl; try done. injection Hl as Hl.
  rewrite bytes_lt_cons, IH by done. cbn [of_big_endian]. rewrite Hl.
  pose proof (of_big_endian_range b1) as H1. rewrite Hl in H1. pose proof (of_big_endian_range b2) as H2.
  split; [intros [?|[-> ?]]; nia|]. intros Hlt. destruct (Z.lt_trichotomy (code c) (code c')) as [?|[Heq|?]]; [by left| |nia].
  right. assert (c = c') as -> by (unfold code in Heq; apply N2Z.inj in Heq;
    rewrite <- (ascii_N_embedding c), <- (ascii_N_embedding c'); congruence). split; [done|lia].
Qed.

Lemma u64_big_endian x : is_u64 x → of_big_endian (big_endian 8 x) = x.
Proof. intros Hx. unfold is_u64 in Hx. rewrite of_big_endian_of by lia. apply Z.mod_small. change (256 ^ Z.of_nat 8) with (2 ^ 64). lia. Qed.

Lemma big_endian_snoc n x : big_endian (S n) x = big_endian n (x `div` 256) ++ [byte_of x].
Proof.
  induction n as [|n IH]; [cbn; by rewrite Z.div_1_r|].
  change (big_endian (S (S n)) x) with (byte_of (x `div` 256 ^ Z.of_nat (S n)) :: big_endian (S n) x).
  rewrite IH. cbn [big_endian app]. f_equal. f_equal.
  rewrite Nat2Z.inj_succ, Z.pow_succ_r by lia. by rewrite Z.div_div by lia.
Qed.

Lemma big_endian_lt x y : is_u64 x → is_u64 y → bytes_lt (big_endian 8 x) (big_endian 8 y) ↔ x < y.
Proof. intros Hx Hy. rewrite of_big_endian_lt by by rewrite !big_endian_length. by rewrite !u64_big_endian. Qed.

(** ** Common prefixes *)

Lemma bytes_lt_app (p x y : bytes) : bytes_lt (p ++ x) (p ++ y) ↔ bytes_lt x y.
Proof.
  induction p as [|c p IH]; [done|]. cbn. rewrite bytes_lt_cons, IH. split; [intros [?|[_ ?]]; [lia|done]|tauto].
Qed.

Lemma prefix_between (p a c x : bytes) : bytes_lt (p ++ a) x → bytes_lt x (p ++ c) → ∃ b, x = p ++ b.
Proof.
  revert x. induction p as [|y p IH]; intros x H1 H2; [by exists x|].
  destruct x as [|z x]; [done|]. cbn in *. apply bytes_lt_cons in H1, H2.
  destruct H1 as [H1|[<- H1]], H2 as [H2|[E H2]]; [lia|subst; lia|lia|].
  destruct (IH x H1 H2) as [b ->]. by exists b.
Qed.
