(* ===== verification/MapBackend.v ===== *)
(** The map backend of the state database,
    [src/src/koinos/state_db/backends/map], the metadata every backend has,
    [backends/backend.cpp], and what the state database takes from the crypto
    library, from the protobuf messages and from the exceptions. *)

From S2P Require Import Prelude Keys.

(** ** What the state database takes from the crypto library

    Identifiers are multihashes.  [hash] is [crypto::hash] with SHA2-256,
    [merkle_tree_root] the hash of the root of [crypto::merkle_tree],
    [zero] the zero SHA2-256 multihash, [null_id] a default multihash and
    [multihash_ltb] the order of multihashes. *)

Abbreviation multihash := bytes.

Class Crypto := {
  hash : bytes → multihash;
  merkle_tree_root : list multihash → multihash;
  zero : multihash;
  null_id : multihash;
  multihash_ltb : multihash → multihash → bool
}.

(** [protocol::block_header]: the fields the state database reads, and the
    serialization of the others. *)
Record block_header := mk_block_header {
  timestamp : Z;
  signer : bytes;
  header_rest : bytes
}.

Definition default_header : block_header := mk_block_header 0 [] [].

(** [chain::database_key]: a key of the object store, parsed. *)
Record object_space := mk_object_space { system : bool; zone : bytes; space_id : Z }.
Record database_key := mk_database_key { key_space : object_space; key_key : bytes }.

(** [ParseFromString] and [converter::as< std::string >] of
    [chain::database_key]. *)
Class DatabaseKeys := {
  parse_key : bytes → option database_key;
  key_string : database_key → bytes
}.

Class DatabaseKeysLaws `{!DatabaseKeys} := {
  parse_key_string k : parse_key (key_string k) = Some k
}.

(** Exceptions; [null_dereference] stands for the undefined behaviour of
    following a null pointer. *)
Inductive exn : Type :=
| internal_error
| illegal_argument
| database_not_open
| node_finalized
| cannot_discard
| iterator_exception
| koinos_exception
| null_dereference.

#[global] Instance exn_eq_dec : EqDecision exn.
Proof. solve_decision. Defined.

(** ** The map backend *)

Module MapBackend.

Record map_backend := mk_map_backend {
  _map : gmap bytes bytes;
  _revision : Z;
  _id : multihash;
  _merkle_root : multihash;
  _header : block_header
}.

(** Iterators: the key pointed to, or [None] at [end()]. *)
Abbreviation iterator := (option bytes).

Section Backend.
Context `{!Crypto}.

Definition new : map_backend := mk_map_backend ∅ 0 zero null_id default_header.

Definition set_map (m : gmap bytes bytes) (b : map_backend) : map_backend :=
  mk_map_backend m (_revision b) (_id b) (_merkle_root b) (_header b).

Definition put (k v : bytes) (b : map_backend) : map_backend := set_map (<[k := v]> (_map b)) b.
Definition get (b : map_backend) (k : bytes) : option bytes := _map b !! k.
Definition erase (k : bytes) (b : map_backend) : map_backend := set_map (delete k (_map b)) b.
Definition clear (b : map_backend) : map_backend := set_map ∅ b.
Definition size_ (b : map_backend) : Z := Z.of_nat (size (_map b)).

Definition set_revision (r : Z) (b : map_backend) : map_backend :=
  mk_map_backend (_map b) r (_id b) (_merkle_root b) (_header b).
Definition set_id (i : multihash) (b : map_backend) : map_backend :=
  mk_map_backend (_map b) (_revision b) i (_merkle_root b) (_header b).
Definition set_merkle_root (m : multihash) (b : map_backend) : map_backend :=
  mk_map_backend (_map b) (_revision b) (_id b) m (_header b).
Definition set_block_header (h : block_header) (b : map_backend) : map_backend :=
  mk_map_backend (_map b) (_revision b) (_id b) (_merkle_root b) h.

Definition start_write_batch (b : map_backend) : map_backend := b.
Definition end_write_batch (b : map_backend) : map_backend := b.
Definition store_metadata (b : map_backend) : map_backend := b.
Definition clone (b : map_backend) : map_backend := b.

(** The entries from [begin()] to [end()]. *)
Definition entries (b : map_backend) : list (bytes * bytes) :=
  omap (λ k, (λ v, (k, v)) <$> get b k) (map_keys (_map b)).

Definition begin_ (b : map_backend) : iterator := first_key (λ _, true) (_map b).
Definition end_ : iterator := None.
Definition find (b : map_backend) (k : bytes) : iterator :=
  match get b k with Some _ => Some k | None => None end.
Definition lower_bound (b : map_backend) (k : bytes) : iterator :=
  first_key (λ k', negb (bytes_ltb k' k)) (_map b).

(** [++] and [--]; an iterator that cannot move throws. *)
Definition next (b : map_backend) (i : iterator) : option iterator :=
  match i with
  | None => None
  | Some k => Some (first_key (λ k', bytes_ltb k k') (_map b))
  end.

Definition prev (b : map_backend) (i : iterator) : option iterator :=
  match last (match i with
              | None => map_keys (_map b)
              | Some k => filter (λ k', bytes_ltb k' k) (map_keys (_map b))
              end) with
  | Some k => Some (Some k)
  | None => None
  end.

End Backend.
End MapBackend.
