(* ===== verification/StateDelta.v ===== *)
(** State deltas: [src/src/koinos/state_db/state_delta.cpp], over
    the map backend.

    A delta holds the objects written and the keys removed on top of its
    parent.  Deltas are shared by pointer, so they live in a heap: a
    [shared_ptr< state_delta >] is a location, and a member function is a
    program over the heap.  A backend is owned by one delta at a time and is
    a field of it; [commit] moves it. *)

From S2P Require Import Prelude Keys MapBackend.

Module StateDelta.

Abbreviation backend_type := MapBackend.map_backend.
Abbreviation loc := positive.

Record state_delta := mk_state_delta {
  _parent : option loc;
  _backend : option backend_type;
  _removed_objects : gset bytes;
  _id : multihash;
  _revision : Z;
  _merkle_root : option multihash;
  _finalized : bool
}.

(** The heap; [next_loc] is above every location in use. *)
Record heap := mk_heap { deltas : gmap positive state_delta; next_loc : positive }.

Definition with_backend (b : option backend_type) (d : state_delta) : state_delta :=
  mk_state_delta (_parent d) b (_removed_objects d) (_id d) (_revision d) (_merkle_root d) (_finalized d).
Definition with_removed (r : gset bytes) (d : state_delta) : state_delta :=
  mk_state_delta (_parent d) (_backend d) r (_id d) (_revision d) (_merkle_root d) (_finalized d).
Definition with_parent (p : option loc) (d : state_delta) : state_delta :=
  mk_state_delta p (_backend d) (_removed_objects d) (_id d) (_revision d) (_merkle_root d) (_finalized d).
Definition with_merkle (m : option multihash) (d : state_delta) : state_delta :=
  mk_state_delta (_parent d) (_backend d) (_removed_objects d) (_id d) (_revision d) m (_finalized d).
Definition with_revision (r : Z) (d : state_delta) : state_delta :=
  mk_state_delta (_parent d) (_backend d) (_removed_objects d) (_id d) r (_merkle_root d) (_finalized d).
Definition with_id (i : multihash) (d : state_delta) : state_delta :=
  mk_state_delta (_parent d) (_backend d) (_removed_objects d) i (_revision d) (_merkle_root d) (_finalized d).
Definition with_finalized (f : bool) (d : state_delta) : state_delta :=
  mk_state_delta (_parent d) (_backend d) (_removed_objects d) (_id d) (_revision d) (_merkle_root d) f.

#[local] Abbreviation M := (prog heap exn).

Section Delta.
Context `{!Crypto}.

(** [*l] and [l->...]. *)
Definition deref (l : loc) : M state_delta :=
  d ← gets_state (λ h, deltas h !! l);
  match d with Some d => mret d | None => raise null_dereference end.

Definition store (l : loc) (d : state_delta) : M unit :=
  mod_state (λ h, mk_heap (<[l := d]> (deltas h)) (next_loc h)).

Definition modify (l : loc) (f : state_delta → state_delta) : M unit :=
  d ← deref l; store l (f d).

(** [std::make_shared< state_delta >]. *)
Definition alloc (d : state_delta) : M loc :=
  h ← get_state;
  put_state (mk_heap (<[next_loc h := d]> (deltas h)) (Pos.succ (next_loc h)));;
  mret (next_loc h).

Definition backend (l : loc) : M backend_type :=
  d ← deref l;
  match _backend d with Some b => mret b | None => raise null_dereference end.

Definition on_backend (l : loc) (f : backend_type → backend_type) : M unit :=
  b ← backend l; modify l (with_backend (Some (f b))).

Definition on_removed (l : loc) (f : gset bytes → gset bytes) : M unit :=
  modify l (λ d, with_removed (f (_removed_objects d)) d).

(** The depth of a parent chain is below its location, which is the fuel
    of every walk over parents. *)
Definition fuel_of (l : loc) : nat := Pos.to_nat l.

(** *** Queries *)

Definition is_removed (l : loc) (k : bytes) : M bool :=
  d ← deref l; mret (bool_decide (k ∈ _removed_objects d)).

Definition is_root (l : loc) : M bool :=
  d ← deref l; mret (match _parent d with None => true | Some _ => false end).

Definition is_modified (l : loc) (k : bytes) : M bool :=
  b ← backend l;
  match MapBackend.get b k with
  | Some _ => mret true
  | None => is_removed l k
  end.

Definition revision (l : loc) : M Z := d ← deref l; mret (_revision d).
Definition is_finalized (l : loc) : M bool := d ← deref l; mret (_finalized d).
Definition id (l : loc) : M multihash := d ← deref l; mret (_id d).
Definition parent (l : loc) : M (option loc) := d ← deref l; mret (_parent d).
Definition block_header_of (l : loc) : M block_header := b ← backend l; mret (MapBackend._header b).

Definition parent_id (l : loc) : M multihash :=
  p ← parent l;
  match p with Some p => id p | None => mret null_id end.

Fixpoint find_loop (fuel : nat) (l : loc) (k : bytes) : M (option bytes) :=
  match fuel with
  | O => λ h, (OutOfFuel, h)
  | S fuel =>
    b ← backend l;
    match MapBackend.get b k with
    | Some v => mret (Some v)
    | None =>
      removed ← is_removed l k;
      if (removed : bool) then mret None
      else
        p ← parent l;
        match p with
        | None => mret None
        | Some p => find_loop fuel p k
        end
    end
  end.

Definition find (l : loc) (k : bytes) : M (option bytes) := find_loop (fuel_of l) l k.

Fixpoint is_empty_loop (fuel : nat) (l : loc) : M bool :=
  match fuel with
  | O => λ h, (OutOfFuel, h)
  | S fuel =>
    b ← backend l;
    if negb (MapBackend.size_ b =? 0) then mret false
    else
      p ← parent l;
      match p with
      | Some p => is_empty_loop fuel p
      | None => mret true
      end
  end.

Definition is_empty (l : loc) : M bool := is_empty_loop (fuel_of l) l.

(** *** Writes *)

Definition put (l : loc) (k v : bytes) : M unit := on_backend l (MapBackend.put k v).

Definition erase (l : loc) (k : bytes) (preserve_tombstone : bool) : M unit :=
  v ← find l k;
  if bool_decide (is_Some v) || preserve_tombstone then
    on_backend l (MapBackend.erase k);;
    on_removed l (λ r, {[k]} ∪ r)
  else mret tt.

Fixpoint for_each {A} (f : A → M unit) (l : list A) : M unit :=
  match l with [] => mret tt | x :: l => f x;; for_each f l end.

(** [_removed_objects] in the order of its iterator; no result depends on
    the order. *)
Definition removed_list (d : state_delta) : list bytes := elements (_removed_objects d).

Definition squash (l : loc) : M unit :=
  root ← is_root l;
  if (root : bool) then mret tt
  else
    d ← deref l;
    match _parent d with
    | None => raise null_dereference
    | Some p =>
      for_each (λ r_key,
        on_backend p (MapBackend.erase r_key);;
        parent_root ← is_root p;
        if (parent_root : bool) then mret tt else on_removed p (λ r, {[r_key]} ∪ r))
        (removed_list d);;
      b ← backend l;
      for_each (λ '(k, v),
        on_backend p (MapBackend.put k v);;
        parent_root ← is_root p;
        if (parent_root : bool) then mret tt else on_removed p (λ r, r ∖ {[k]}))
        (MapBackend.entries b)
    end.

(** *** Merkle root and delta entries *)

(** The keys of the backend and the removed keys, sorted. *)
Definition object_keys (l : loc) : M (list bytes) :=
  d ← deref l; b ← backend l;
  mret (sort_keys ((MapBackend.entries b).*1 ++ removed_list d)).

Definition calculate_merkle_root (l : loc) : M multihash :=
  keys ← object_keys l; b ← backend l;
  mret (merkle_tree_root
          (k ← keys; [hash k; hash (default [] (MapBackend.get b k))])).

Definition merkle_root (l : loc) : M multihash :=
  d ← deref l;
  match _merkle_root d with
  | Some m => mret m
  | None =>
    m ← calculate_merkle_root l;
    modify l (with_merkle (Some m));;
    mret m
  end.

(** [protocol::state_delta_entry]. *)
Record state_delta_entry := mk_state_delta_entry {
  entry_space : object_space;
  entry_key : bytes;
  entry_value : option bytes
}.

Definition get_delta_entries `{!DatabaseKeys} (l : loc) : M (list state_delta_entry) :=
  keys ← object_keys l; b ← backend l;
  mret (omap (λ k, (λ db_key, mk_state_delta_entry (key_space db_key) (key_key db_key)
                                (MapBackend.get b k)) <$> parse_key k) keys).

(** *** Commit *)

(** [node_stack]: the delta and its ancestors, the root last. *)
Fixpoint node_stack_loop (fuel : nat) (l : loc) : M (list loc) :=
  match fuel with
  | O => λ h, (OutOfFuel, h)
  | S fuel =>
    p ← parent l;
    match p with
    | None => mret [l]
    | Some p => rest ← node_stack_loop fuel p; mret (l :: rest)
    end
  end.

(** Write one delta of the stack to the root's backend. *)
Definition apply_delta (d : state_delta) (b : backend_type) (backend : backend_type) : backend_type :=
  foldl (λ backend '(k, v), MapBackend.put k v backend)
    (foldl (λ backend r_key, MapBackend.erase r_key backend) backend (removed_list d))
    (MapBackend.entries b).

(** Pop the stack from the top, the delta just above the root first. *)
Fixpoint pop_stack (node_stack : list loc) (backend_ : backend_type) : M backend_type :=
  match node_stack with
  | [] => mret backend_
  | node :: node_stack =>
    d ← deref node; b ← backend node;
    pop_stack node_stack (apply_delta d b backend_)
  end.

Definition commit (l : loc) : M unit :=
  root ← is_root l;
  assert_that (negb root) internal_error;;
  node_stack ← node_stack_loop (fuel_of l) l;
  match reverse node_stack with
  | [] => raise null_dereference
  | back :: node_stack =>
    backend_ ← backend back;
    modify back (with_backend None);;
    backend_ ← pop_stack node_stack (MapBackend.start_write_batch backend_);
    header ← block_header_of l;
    d ← deref l;
    m ← merkle_root l;
    let backend_ := MapBackend.set_block_header header backend_ in
    let backend_ := MapBackend.set_revision (_revision d) backend_ in
    let backend_ := MapBackend.set_id (_id d) backend_ in
    let backend_ := MapBackend.set_merkle_root m backend_ in
    let backend_ := MapBackend.end_write_batch (MapBackend.store_metadata backend_) in
    modify l (λ d, with_parent None (with_backend (Some backend_) (with_removed ∅ d)))
  end.

(** *** Lifecycle *)

Definition clear (l : loc) : M unit :=
  on_backend l MapBackend.clear;;
  modify l (λ d, with_id zero (with_revision 0 (with_removed ∅ d))).

Definition set_revision (l : loc) (r : Z) : M unit :=
  modify l (with_revision r);;
  root ← is_root l;
  if (root : bool) then on_backend l (MapBackend.set_revision r) else mret tt.

Definition finalize (l : loc) : M unit := modify l (with_finalized true).

(** A root delta on a backend. *)
Definition new_root (b : backend_type) : M loc :=
  alloc (mk_state_delta None (Some b) ∅ (MapBackend._id b) (MapBackend._revision b)
           (Some (MapBackend._merkle_root b)) false).

Definition make_child (l : loc) (i : multihash) (header : block_header) : M loc :=
  d ← deref l;
  alloc (mk_state_delta (Some l) (Some (MapBackend.set_block_header header MapBackend.new)) ∅ i
           (u64 (_revision d + 1)) None false).

Definition clone (l : loc) (i : multihash) (header : block_header) : M loc :=
  d ← deref l; b ← backend l;
  let b := MapBackend.set_block_header header
             (MapBackend.set_revision (_revision d) (MapBackend.set_id i (MapBackend.clone b))) in
  let b := match _merkle_root d with Some m => MapBackend.set_merkle_root m b | None => b end in
  alloc (mk_state_delta (_parent d) (Some b) (_removed_objects d) i (_revision d) (_merkle_root d)
           (_finalized d)).

End Delta.
End StateDelta.
