(* ===== verification/RocksBackend.v ===== *)
(** The RocksDB backend of the state database,
    [src/src/koinos/state_db/backends/rocksdb]: the cache of objects, the
    backend and its iterators; and the commit of a delta to it,
    [src/src/koinos/state_db/state_delta.cpp].

    The database is a parameter with the operations the code calls; handles
    of columns are the names of the columns.  Objects are values, so that a
    pointer into the cache is the value it points to. *)

From S2P Require Import Prelude Keys MapBackend StateDelta Storage.

(** ** The cache, [object_cache.cpp] *)

Module ObjectCache.

(** The most recent key first; an entry is the object of its key, [None]
    where the key is known to have none.  The position of a key in the list,
    which an entry keeps, is found by the key. *)
Record object_cache := mk_object_cache {
  _lru_list : list bytes;
  _object_map : gmap bytes (option bytes);
  _cache_size : Z;
  _cache_max_size : Z
}.

Definition new (size : Z) : object_cache := mk_object_cache [] ∅ 0 size.

Definition entry_size (k : bytes) (v : option bytes) : Z :=
  Z.max (u64 (Z.of_nat (length k) + Z.of_nat (length (default [] v)))) 2.

(** [erase] of the position of a key. *)
Definition list_erase (k : bytes) (l : list bytes) : list bytes := filter (λ k', k' ≠ k) l.

(** The outer [None] is a miss. *)
Definition get (k : bytes) (c : object_cache) : option (option bytes) * object_cache :=
  match _object_map c !! k with
  | None => (None, c)
  | Some v =>
    (Some v, mk_object_cache (k :: list_erase k (_lru_list c)) (<[k := v]> (_object_map c)) (_cache_size c) (_cache_max_size c))
  end.

Definition remove (k : bytes) (c : object_cache) : object_cache :=
  match _object_map c !! k with
  | None => c
  | Some v =>
    mk_object_cache (list_erase k (_lru_list c)) (delete k (_object_map c)) (u64 (_cache_size c - entry_size k v))
      (_cache_max_size c)
  end.

(** [while( _cache_size + entry_size > _cache_max_size ) remove( _lru_list.back() )];
    [None] is [back()] of an empty list. *)
Fixpoint make_room (fuel : nat) (size : Z) (c : object_cache) : option object_cache :=
  if _cache_max_size c <? u64 (_cache_size c + size) then
    match fuel, last (_lru_list c) with
    | S fuel, Some k => make_room fuel size (remove k c)
    | _, _ => None
    end
  else Some c.

Definition put (k : bytes) (v : option bytes) (c : object_cache) : option object_cache :=
  let c := remove k c in
  match make_room (S (length (_lru_list c))) (entry_size k v) c with
  | None => None
  | Some c =>
    Some (mk_object_cache (k :: _lru_list c) (<[k := v]> (_object_map c)) (u64 (_cache_size c + entry_size k v))
            (_cache_max_size c))
  end.

(** The size is kept. *)
Definition clear (c : object_cache) : object_cache := mk_object_cache [] ∅ (_cache_size c) (_cache_max_size c).

End ObjectCache.

(** ** The backend, [rocksdb_backend.cpp] *)

Module RocksBackend.
Import ObjectCache.

Inductive column : Type := default_column | objects_column | metadata_column.

#[global] Instance column_eq_dec : EqDecision column.
Proof. solve_decision. Defined.

(** What a batch holds. *)
Inductive write : Type :=
| write_put (c : column) (k v : bytes)
| write_delete (c : column) (k : bytes).

(** [rocksdb::DB].  [contents] is what an iterator that is made now walks
    over, [iterator_status] the status of an iterator at a position;
    [OpenColumns] opens with the three columns, [OpenDefault] with the default
    one and creates what is missing.  [survives db db']: after a crash of the
    machine with the database [db], [db'] can be what is found.  The flag of
    [Write] is [WriteOptions::sync]. *)
Class RocksDatabase := {
  DB : Type;
  Get : DB → column → bytes → GetStatus;
  Put : DB → column → bytes → bytes → Status * DB;
  Delete : DB → column → bytes → Status * DB;
  Write : bool → DB → list write → Status * DB;
  contents : DB → column → gmap bytes bytes;
  survives : DB → DB → Prop;
  iterator_status : gmap bytes bytes → option bytes → Status;
  Flush : DB → column → DB;
  DropColumnFamily : DB → column → DB;
  OpenColumns : DB → Status * DB;
  OpenDefault : DB → Status * DB;
  CreateColumnFamilies : DB → Status * DB
}.

Inductive rocks_exn : Type :=
| rocksdb_open_exception
| rocksdb_setup_exception
| rocksdb_database_not_open_exception
| rocksdb_read_exception
| rocksdb_write_exception
| rocksdb_session_in_progress
| rocksdb_internal_exception
| iterator_exception
| internal_exception
| conversion_error
| undefined.

(** [converter::as] and [converter::to] of the values of the metadata. *)
Class MetadataConverter := {
  as_size : Z → bytes; to_size : bytes → option Z;
  as_multihash : multihash → bytes; to_multihash : bytes → option multihash;
  as_header : block_header → bytes; to_header : bytes → option block_header
}.

Definition cache_size : Z := Z.shiftl 64 20.
Definition size_key : bytes := str "size".
Definition revision_key : bytes := str "revision".
Definition id_key : bytes := str "id".
Definition merkle_root_key : bytes := str "merkle_root".
Definition block_header_key : bytes := str "block_header".

Inductive write_durability : Type := default_async | sync.

#[global] Instance write_durability_eq_dec : EqDecision write_durability.
Proof. solve_decision. Defined.

Section Backend.
Context `{!Crypto} `{!RocksDatabase} `{!MetadataConverter}.

(** The metadata that every backend has, [backend.cpp]. *)
Record metadata := mk_metadata { _revision : Z; _id : multihash; _merkle_root : multihash; _header : block_header }.

(** [_db] is set while [_open]; the database is there before and after. *)
Record rocksdb_backend := mk_rocksdb_backend {
  database : DB;
  _open : bool;
  _borrowed : bool;
  _write_batch : option (list write);
  _force_async_writes : bool;
  _cache : object_cache;
  _size : Z;
  _metadata : metadata
}.

Definition new (db : DB) : rocksdb_backend :=
  mk_rocksdb_backend db false false None false (ObjectCache.new cache_size) 0 (mk_metadata 0 zero null_id default_header).

Definition set_database (x : DB) (b : rocksdb_backend) : rocksdb_backend :=
  mk_rocksdb_backend x (_open b) (_borrowed b) (_write_batch b) (_force_async_writes b) (_cache b) (_size b) (_metadata b).
Definition set_open (x borrowed : bool) (b : rocksdb_backend) : rocksdb_backend :=
  mk_rocksdb_backend (database b) x borrowed (_write_batch b) (_force_async_writes b) (_cache b) (_size b) (_metadata b).
Definition set_batch (x : option (list write)) (b : rocksdb_backend) : rocksdb_backend :=
  mk_rocksdb_backend (database b) (_open b) (_borrowed b) x (_force_async_writes b) (_cache b) (_size b) (_metadata b).
Definition set_cache (x : object_cache) (b : rocksdb_backend) : rocksdb_backend :=
  mk_rocksdb_backend (database b) (_open b) (_borrowed b) (_write_batch b) (_force_async_writes b) x (_size b) (_metadata b).
Definition set_size (x : Z) (b : rocksdb_backend) : rocksdb_backend :=
  mk_rocksdb_backend (database b) (_open b) (_borrowed b) (_write_batch b) (_force_async_writes b) (_cache b) x (_metadata b).
Definition set_metadata (x : metadata) (b : rocksdb_backend) : rocksdb_backend :=
  mk_rocksdb_backend (database b) (_open b) (_borrowed b) (_write_batch b) (_force_async_writes b) (_cache b) (_size b) x.
Definition force_async_writes (x : bool) (b : rocksdb_backend) : rocksdb_backend :=
  mk_rocksdb_backend (database b) (_open b) (_borrowed b) (_write_batch b) x (_cache b) (_size b) (_metadata b).

Definition set_revision (r : Z) (b : rocksdb_backend) : rocksdb_backend :=
  set_metadata (mk_metadata r (_id (_metadata b)) (_merkle_root (_metadata b)) (_header (_metadata b))) b.
Definition set_id (i : multihash) (b : rocksdb_backend) : rocksdb_backend :=
  set_metadata (mk_metadata (_revision (_metadata b)) i (_merkle_root (_metadata b)) (_header (_metadata b))) b.
Definition set_merkle_root (m : multihash) (b : rocksdb_backend) : rocksdb_backend :=
  set_metadata (mk_metadata (_revision (_metadata b)) (_id (_metadata b)) m (_header (_metadata b))) b.
Definition set_block_header (h : block_header) (b : rocksdb_backend) : rocksdb_backend :=
  set_metadata (mk_metadata (_revision (_metadata b)) (_id (_metadata b)) (_merkle_root (_metadata b)) h) b.

Definition R (A : Type) : Type := prog rocksdb_backend rocks_exn A.

#[global] Instance R_ret : MRet R := prog_ret.
#[global] Instance R_bind : MBind R := prog_bind.

Definition is_ok (s : Status) : bool := match s with StatusOk => true | StatusError _ => false end.

(** An operation of the database, and its status. *)
Definition on_database (f : DB → Status * DB) : R Status := λ b,
  let '(s, db) := f (database b) in (Ok s, set_database db b).

Definition assert_open : R unit := o ← gets_state _open; assert_that o rocksdb_database_not_open_exception.

(** *** The cache *)

Definition cache_get (k : bytes) : R (option (option bytes)) := λ b,
  let '(r, c) := ObjectCache.get k (_cache b) in (Ok r, set_cache c b).

Definition cache_put (k : bytes) (v : option bytes) : R unit := λ b,
  match ObjectCache.put k v (_cache b) with
  | Some c => (Ok tt, set_cache c b)
  | None => (Throw undefined, b)
  end.

Definition cache_clear : R unit := mod_state (λ b, set_cache (ObjectCache.clear (_cache b)) b).

(** *** Objects *)

Definition get (k : bytes) : R (option bytes) :=
  assert_open;;
  hit ← cache_get k;
  match hit with
  | Some v => mret v
  | None =>
    db ← gets_state database;
    match Get db objects_column k with
    | Found v => cache_put k (Some v);; mret (Some v)
    | NotFound => cache_put k None;; mret None
    | GetError _ => mret None
    end
  end.

(** A write of the batch, or of the database where there is no batch. *)
Definition write_one (w : write) (f : DB → Status * DB) : R unit :=
  batch ← gets_state _write_batch;
  match batch with
  | Some l => mod_state (set_batch (Some (l ++ [w])))
  | None => s ← on_database f; assert_that (is_ok s) rocksdb_write_exception
  end.

Definition put (k v : bytes) : R unit :=
  assert_open;;
  o ← get k;
  write_one (write_put objects_column k v) (λ db, Put db objects_column k v);;
  (match o with None => mod_state (λ b, set_size (u64 (_size b + 1)) b) | Some _ => mret tt end);;
  cache_put k (Some v).

Definition erase (k : bytes) : R unit :=
  assert_open;;
  o ← get k;
  write_one (write_delete objects_column k) (λ db, Delete db objects_column k);;
  (match o with Some _ => mod_state (λ b, set_size (u64 (_size b - 1)) b) | None => mret tt end);;
  cache_put k None.

Definition size_ : R Z := assert_open;; gets_state _size.

Definition start_write_batch : R unit :=
  batch ← gets_state _write_batch;
  assert_that (match batch with None => true | Some _ => false end) rocksdb_session_in_progress;;
  mod_state (set_batch (Some [])).

(** A batch outside an open database is written through a null pointer. *)
Definition end_write_batch (durability : write_durability) : R unit :=
  batch ← gets_state _write_batch;
  match batch with
  | None => mret tt
  | Some l =>
    force ← gets_state _force_async_writes;
    o ← gets_state _open;
    assert_that o undefined;;
    s ← on_database (λ db, Write (bool_decide (durability = sync) && negb force) db l);
    assert_that (is_ok s) rocksdb_write_exception;;
    mod_state (set_batch None)
  end.

(** *** Metadata *)

Definition put_metadata_value (k v : bytes) : R unit :=
  assert_open;;
  write_one (write_put metadata_column k v) (λ db, Put db metadata_column k v).

Definition store_metadata : R unit :=
  assert_open;;
  b ← get_state;
  put_metadata_value size_key (as_size (_size b));;
  put_metadata_value revision_key (as_size (_revision (_metadata b)));;
  put_metadata_value id_key (as_multihash (_id (_metadata b)));;
  put_metadata_value merkle_root_key (as_multihash (_merkle_root (_metadata b)));;
  put_metadata_value block_header_key (as_header (_header (_metadata b))).

Definition load_value {A} (k : bytes) (to : bytes → option A) : R A :=
  db ← gets_state database;
  match Get db metadata_column k with
  | Found v => match to v with Some a => mret a | None => raise conversion_error end
  | _ => raise rocksdb_read_exception
  end.

Definition load_metadata : R unit :=
  assert_open;;
  n ← load_value size_key to_size; mod_state (set_size n);;
  r ← load_value revision_key to_size; mod_state (set_revision r);;
  i ← load_value id_key to_multihash; mod_state (set_id i);;
  m ← load_value merkle_root_key to_multihash; mod_state (set_merkle_root m);;
  h ← load_value block_header_key to_header; mod_state (set_block_header h).

(** The five values in turn, until one cannot be written. *)
Fixpoint put_each (l : list (bytes * bytes)) : R bool :=
  match l with
  | [] => mret true
  | (k, v) :: l => s ← on_database (λ db, Put db metadata_column k v); if is_ok s then put_each l else mret false
  end.

(** The default of the two multihashes is the zero one. *)
Definition write_default_metadata : R bool :=
  put_each [(size_key, as_size 0); (revision_key, as_size 0); (id_key, as_multihash zero);
            (merkle_root_key, as_multihash zero); (block_header_key, as_header default_header)].

(** *** Opening and closing *)

Definition setup_database : R bool :=
  s ← on_database OpenDefault;
  assert_that (is_ok s) rocksdb_open_exception;;
  s ← on_database CreateColumnFamilies;
  if is_ok s then write_default_metadata else mret false.

Definition setup_borrowed_database : R bool :=
  db ← gets_state database;
  match Get db metadata_column size_key with
  | Found _ => mret true
  | NotFound => write_default_metadata
  | GetError _ => mret false
  end.

(** [catch( ... ) { ...; throw; }] around the metadata. *)
Definition load_or_close : R unit :=
  try_catch load_metadata (λ e, mod_state (set_open false false);; raise e).

(** [open] of a path, with what the file system says of it; an open backend is
    not opened again. *)
Definition open (is_absolute exists_ : bool) : R unit :=
  assert_that is_absolute rocksdb_open_exception;;
  assert_that exists_ rocksdb_open_exception;;
  s ← on_database OpenColumns;
  (if is_ok s then mret tt
   else
     ok ← setup_database;
     assert_that ok rocksdb_setup_exception;;
     s ← on_database OpenColumns;
     assert_that (is_ok s) rocksdb_open_exception);;
  borrowed ← gets_state _borrowed;
  mod_state (set_open true borrowed);;
  try_catch load_metadata (λ e, mod_state (set_open false borrowed);; raise e).

(** [open] of a database that somebody else owns. *)
Definition open_borrowed : R unit :=
  ok ← setup_borrowed_database;
  assert_that ok rocksdb_setup_exception;;
  mod_state (set_open true true);;
  load_or_close.

(** What the flush returns is not looked at. *)
Definition flush : R unit :=
  assert_open;;
  mod_state (λ b, set_database (Flush (Flush (database b) objects_column) metadata_column) b).

Definition close : R unit :=
  o ← gets_state _open;
  if o : bool then store_metadata;; flush;; mod_state (set_open false false);; cache_clear else mret tt.

(** The metadata and the number of objects are kept. *)
Definition clear : R unit :=
  assert_open;;
  borrowed ← gets_state _borrowed;
  assert_that (negb borrowed) rocksdb_internal_exception;;
  mod_state (λ b, set_database
    (DropColumnFamily (DropColumnFamily (DropColumnFamily (database b) default_column) objects_column) metadata_column) b);;
  mod_state (set_open false borrowed);;
  cache_clear.

Definition clone : R rocksdb_backend := raise internal_exception.

(** ** Iterators, [rocksdb_iterator.cpp] *)

(** [_iter] is what the iterator walks over, with the key it is at. *)
Record rocksdb_iterator := mk_rocksdb_iterator {
  _iter : option (gmap bytes bytes * option bytes);
  _cache_value : option bytes;
  _key : option bytes
}.

Definition valid (i : rocksdb_iterator) : bool :=
  match _iter i with Some (_, Some _) => true | _ => false end.

(** A program over the backend and one iterator of it. *)
Definition I (A : Type) : Type := prog (rocksdb_backend * rocksdb_iterator) rocks_exn A.

#[global] Instance I_ret : MRet I := prog_ret.
#[global] Instance I_bind : MBind I := prog_bind.

Definition on_backend {A} (m : R A) : I A := λ s, let '(r, b) := m s.1 in (r, (b, s.2)).
Definition set_iter (x : option (gmap bytes bytes * option bytes)) : I unit :=
  mod_state (λ s, (s.1, mk_rocksdb_iterator x (_cache_value s.2) (_key s.2))).
Definition set_value (v k : option bytes) : I unit :=
  mod_state (λ s, (s.1, mk_rocksdb_iterator (_iter s.2) v k)).

Definition update_cache_value : I unit :=
  i ← gets_state snd;
  match _iter i with
  | Some (m, Some k) =>
    hit ← on_backend (cache_get k);
    match hit with
    | Some None => raise rocksdb_internal_exception
    | Some (Some v) => set_value (Some v) (Some k)
    | None =>
      let v := default [] (m !! k) in
      on_backend (cache_put k (Some v));;
      set_value (Some v) (Some k)
    end
  | _ => set_value None None
  end.

Definition assert_valid : I unit := i ← gets_state snd; assert_that (valid i) iterator_exception.

Definition deref {A} (o : option A) : I A := match o with Some a => mret a | None => raise undefined end.

Definition iter_value : I bytes :=
  assert_valid;;
  i ← gets_state snd;
  (match _cache_value i with None => update_cache_value | Some _ => mret tt end);;
  i ← gets_state snd; deref (_cache_value i).

Definition iter_key : I bytes :=
  assert_valid;;
  i ← gets_state snd;
  (match _key i with None => update_cache_value | Some _ => mret tt end);;
  i ← gets_state snd; deref (_key i).

(** Where [Next] and [Prev] lead from a key. *)
Definition after (m : gmap bytes bytes) (k : bytes) : option bytes := first_key (λ k', bytes_ltb k k') m.
Definition before (m : gmap bytes bytes) (k : bytes) : option bytes :=
  last (filter (λ k', bytes_ltb k' k) (map_keys m)).

(** The iterator is at [k] from now on, and nowhere if its status is bad. *)
Definition move_to (m : gmap bytes bytes) (k : option bytes) : I unit :=
  let ok := is_ok (iterator_status m k) in
  set_iter (Some (m, if ok then k else None));;
  assert_that ok iterator_exception.

Definition increment : I unit :=
  assert_valid;;
  i ← gets_state snd;
  (match _iter i with Some (m, Some k) => move_to m (after m k) | _ => mret tt end);;
  update_cache_value.

Definition decrement : I unit :=
  i ← gets_state snd;
  (match _iter i with
   | Some (m, Some k) => move_to m (before m k)
   | _ =>
     db ← gets_state (λ s, database s.1);
     let m := contents db objects_column in
     set_iter (Some (m, last (map_keys m)))
   end);;
  update_cache_value.

(** The copy of an iterator looks at the database of its time, and keeps the
    value but not the key. *)
Definition copy (i : rocksdb_iterator) : R rocksdb_iterator :=
  db ← gets_state database;
  let m := contents db objects_column in
  mret (mk_rocksdb_iterator
    (match _iter i with
     | None => None
     | Some (_, None) => Some (m, None)
     | Some (_, Some k) => Some (m, first_key (λ k', negb (bytes_ltb k' k)) m)
     end) (_cache_value i) None).

(** A new iterator at the key that [seek] finds. *)
Definition new_iterator (seek : gmap bytes bytes → option bytes) : R rocksdb_iterator :=
  assert_open;;
  db ← gets_state database;
  let m := contents db objects_column in mret (mk_rocksdb_iterator (Some (m, seek m)) None None).

Definition begin_ : R rocksdb_iterator := new_iterator (first_key (λ _, true)).
Definition end_ : R rocksdb_iterator := new_iterator (λ _, None).
Definition lower_bound (k : bytes) : R rocksdb_iterator := new_iterator (first_key (λ k', negb (bytes_ltb k' k))).

Definition find (k : bytes) : R rocksdb_iterator :=
  i ← lower_bound k;
  match _iter i with
  | Some (_, Some k') => if bool_decide (k' = k) then mret i else mret (mk_rocksdb_iterator None None None)
  | _ => mret (mk_rocksdb_iterator None None None)
  end.

End Backend.
End RocksBackend.

(** ** [state_delta::commit] where the root is on the disk

    [StateDelta.commit] is the same function with a map backend.  Here the
    root delta of the heap has no map backend: its backend is the RocksDB one,
    beside the heap. *)

Module RocksCommit.
Import RocksBackend.

Abbreviation loc := StateDelta.loc.

Inductive commit_exn : Type :=
| state_exception (e : exn)
| backend_exception (e : rocks_exn).

Section Commit.
Context `{!Crypto} `{!RocksDatabase} `{!MetadataConverter}.

(** A program over the deltas and the backend of the root. *)
Definition C (A : Type) : Type := prog (StateDelta.heap * rocksdb_backend) commit_exn A.

#[global] Instance C_ret : MRet C := prog_ret.
#[global] Instance C_bind : MBind C := prog_bind.

Definition rethrow {E E' A} (f : E → E') (r : outcome E A) : outcome E' A :=
  match r with Ok a => Ok a | Throw e => Throw (f e) | OutOfFuel => OutOfFuel end.

Definition on_heap {A} (m : prog StateDelta.heap exn A) : C A := λ s,
  let '(r, h) := m s.1 in (rethrow state_exception r, (h, s.2)).
Definition on_root {A} (m : R A) : C A := λ s, let '(r, b) := m s.2 in (rethrow backend_exception r, (s.1, b)).

Fixpoint erase_removed (l : list bytes) : R unit :=
  match l with [] => mret tt | r_key :: l => erase r_key;; erase_removed l end.
Fixpoint put_entries (l : list (bytes * bytes)) : R unit :=
  match l with [] => mret tt | (k, v) :: l => put k v;; put_entries l end.

(** The removed objects of a node, then the objects of its backend. *)
Definition write_delta (node : StateDelta.state_delta) (node_backend : MapBackend.map_backend) : R unit :=
  erase_removed (StateDelta.removed_list node);;
  put_entries (MapBackend.entries node_backend).

Fixpoint pop_stack (node_stack : list loc) : C unit :=
  match node_stack with
  | [] => mret tt
  | node :: node_stack =>
    d ← on_heap (StateDelta.deref node);
    b ← on_heap (StateDelta.backend node);
    on_root (write_delta d b);;
    pop_stack node_stack
  end.

(** The delta is the new root, and the backend its own. *)
Definition commit (l : loc) : C unit :=
  root ← on_heap (StateDelta.is_root l);
  assert_that (negb root) (state_exception internal_error);;
  node_stack ← on_heap (StateDelta.node_stack_loop (StateDelta.fuel_of l) l);
  match reverse node_stack with
  | [] => raise (state_exception null_dereference)
  | back :: node_stack =>
    on_heap (StateDelta.modify back (StateDelta.with_backend None));;
    on_root start_write_batch;;
    pop_stack node_stack;;
    header ← on_heap (StateDelta.block_header_of l);
    on_root (mod_state (set_block_header header));;
    d ← on_heap (StateDelta.deref l);
    on_root (mod_state (set_revision (StateDelta._revision d)));;
    on_root (mod_state (set_id (StateDelta._id d)));;
    m ← on_heap (StateDelta.merkle_root l);
    on_root (mod_state (set_merkle_root m));;
    on_root store_metadata;;
    on_root (end_write_batch sync);;
    on_heap (StateDelta.modify l (λ d,
      StateDelta.with_parent None (StateDelta.with_backend None (StateDelta.with_removed ∅ d))))
  end.

End Commit.
End RocksCommit.
