(* ===== verification/StateNode.v ===== *)
(** State nodes: [state_node_impl], [abstract_state_node] and
    [anonymous_state_node] of [src/src/koinos/state_db/state_db.cpp].

    A node is a pointer to a delta; reads and writes go to the delta and its
    ancestors.  An anonymous node is a child delta outside the index that is
    squashed into its parent when it commits. *)

From S2P Require Import Prelude Keys MapBackend StateDelta.

Module StateNode.
Import StateDelta.

#[local] Abbreviation M := (prog heap exn).

(** [operator==] of [object_space]. *)
Definition space_eqb (lhs rhs : object_space) : bool :=
  eqb (system lhs) (system rhs) && bool_decide (zone lhs = zone rhs) &&
  (space_id lhs =? space_id rhs).

(** [operator<] of [object_space], as written: the third comparison is of
    [system] again. *)
Definition space_ltb (lhs rhs : object_space) : bool :=
  if negb (system lhs) && system rhs then true
  else if system lhs && negb (system rhs) then false
  else if bytes_ltb (zone lhs) (zone rhs) then true
  else if system lhs && negb (system rhs) then false
  else space_id lhs <? space_id rhs.

Section Node.
Context `{!Crypto} `{!DatabaseKeys}.

Definition get_object (l : loc) (space : object_space) (key : bytes) : M (option bytes) :=
  find l (key_string (mk_database_key space key)).

(** [bytes_used -= n] and [+= n] on an [int64_t] and a [size_t]. *)
Definition sub_size (bytes_used : Z) (s : bytes) : Z := i64 (bytes_used - Z.of_nat (length s)).
Definition add_size (bytes_used : Z) (s : bytes) : Z := i64 (bytes_used + Z.of_nat (length s)).

Definition put_object (l : loc) (space : object_space) (key val : bytes) : M Z :=
  finalized ← is_finalized l;
  assert_that (negb finalized) node_finalized;;
  let key_string := key_string (mk_database_key space key) in
  pobj ← find l key_string;
  let bytes_used := match pobj with Some o => sub_size 0 o | None => add_size 0 key_string end in
  let bytes_used := add_size bytes_used val in
  put l key_string val;;
  mret bytes_used.

Definition remove_object_ (l : loc) (space : object_space) (key : bytes) (preserve_tombstone : bool)
  : M Z :=
  finalized ← is_finalized l;
  assert_that (negb finalized) node_finalized;;
  let key_string := key_string (mk_database_key space key) in
  pobj ← find l key_string;
  let bytes_used :=
    match pobj with Some o => sub_size (sub_size 0 o) key_string | None => 0 end in
  erase l key_string preserve_tombstone;;
  mret bytes_used.

Definition remove_object (l : loc) (space : object_space) (key : bytes) : M Z :=
  remove_object_ l space key false.

Definition remove_object_preserve_tombstone (l : loc) (space : object_space) (key : bytes) : M Z :=
  remove_object_ l space key true.

Definition node_merkle_root (l : loc) : M multihash :=
  finalized ← is_finalized l;
  assert_that finalized koinos_exception;;
  merkle_root l.

Definition pending_merkle_root (l : loc) : M multihash := calculate_merkle_root l.

(** ** Anonymous nodes *)

(** [_parent] is a state node, or another anonymous node. *)
Inductive abstract_state_node : Type :=
| StateNode (state : loc)
| AnonymousNode (parent : abstract_state_node) (state : loc).

Definition state_of (n : abstract_state_node) : loc :=
  match n with StateNode s => s | AnonymousNode _ s => s end.

Definition create_anonymous_node (n : abstract_state_node) : M abstract_state_node :=
  child ← make_child (state_of n) null_id default_header;
  mret (AnonymousNode n child).

(** [id()], [revision()] and [block_header()] of an anonymous node are its
    parent's. *)
Fixpoint named (n : abstract_state_node) : loc :=
  match n with StateNode s => s | AnonymousNode p _ => named p end.

Definition node_id (n : abstract_state_node) : M multihash := id (named n).
Definition node_revision (n : abstract_state_node) : M Z := revision (named n).
Definition node_block_header (n : abstract_state_node) : M block_header := block_header_of (named n).

Definition anonymous_reset (n : abstract_state_node) : M abstract_state_node :=
  match n with
  | AnonymousNode p state => child ← make_child state null_id default_header; mret (AnonymousNode p child)
  | StateNode _ => raise null_dereference
  end.

Definition anonymous_commit (n : abstract_state_node) : M abstract_state_node :=
  match n with
  | AnonymousNode p state =>
    finalized ← is_finalized (state_of p);
    assert_that (negb finalized) node_finalized;;
    squash state;;
    anonymous_reset n
  | StateNode _ => raise null_dereference
  end.

End Node.
End StateNode.
