(* ===== verification/StateDeltaFacts.v ===== *)
(** The abstract state of a delta, and what every operation does to it.

    The [view] of a delta is the key-value map a reader sees through it: its
    own objects over its parent's view without the keys it removed.  Every
    operation is specified by the view, and a frame lemma says which other
    deltas keep theirs. *)

From S2P Require Import Prelude Keys MapBackend StateDelta.
Import StateDelta.

Section Facts.
Context `{Hcrypto : !Crypto}.
Implicit Types (h : heap) (d : state_delta) (m : gmap bytes bytes).

(** ** Well-formed heaps *)

Record heap_ok h : Prop := {
  heap_fresh l d : deltas h !! l = Some d → (l < next_loc h)%positive;
  heap_parent l d p : deltas h !! l = Some d → _parent d = Some p →
    (p < l)%positive ∧ is_Some (deltas h !! p)
}.

Definition overlay (objects : gmap bytes bytes) (removed : gset bytes) m : gmap bytes bytes :=
  objects ∪ filter (λ kv, kv.1 ∉ removed) m.

Lemma overlay_lookup o r m k :
  overlay o r m !! k = match o !! k with
                       | Some v => Some v
                       | None => if bool_decide (k ∈ r) then None else m !! k
                       end.
Proof.
  unfold overlay. rewrite lookup_union. destruct (o !! k) as [v|]; cbn.
  { by destruct (_ !! k). }
  rewrite (left_id_L None _). case_bool_decide as Hk.
  - apply map_lookup_filter_None_2. right. intros v _. cbn. tauto.
  - destruct (m !! k) as [v|] eqn:Hm.
    + by apply map_lookup_filter_Some_2.
    + apply map_lookup_filter_None_2. by left.
Qed.

(** The fields the view depends on. *)
Definition core d : option loc * option (gmap bytes bytes) * gset bytes :=
  (_parent d, MapBackend._map <$> _backend d, _removed_objects d).

Abbreviation core_at h l := (core <$> deltas h !! l).

Fixpoint view_fuel (fuel : nat) h (l : loc) : option (gmap bytes bytes) :=
  match fuel with
  | O => None
  | S fuel =>
    '(p, b, r) ← core_at h l;
    o ← b;
    match p with
    | None => Some o
    | Some p => overlay o r <$> view_fuel fuel h p
    end
  end.

(** What a reader of [l] sees; [None] when a backend on the way is null. *)
Definition view h (l : loc) : option (gmap bytes bytes) := view_fuel (fuel_of l) h l.

Lemma fuel_lt (p l : loc) : (p < l)%positive → (fuel_of p < fuel_of l)%nat.
Proof. unfold fuel_of. lia. Qed.

Lemma loc_ind (P : loc → Prop) : (∀ x, (∀ y, (y < x)%positive → P y) → P x) → ∀ x, P x.
Proof.
  intros Hstep. apply (well_founded_ind (well_founded_ltof _ Pos.to_nat)).
  intros x IH. apply Hstep. intros y Hy. apply IH. unfold ltof. lia.
Qed.

Lemma fuel_S (l : loc) : ∃ n, fuel_of l = S n.
Proof. exists (pred (fuel_of l)). unfold fuel_of. lia. Qed.

Lemma view_fuel_enough h (n n' : nat) l :
  heap_ok h → (fuel_of l ≤ n)%nat → (fuel_of l ≤ n')%nat → view_fuel n h l = view_fuel n' h l.
Proof.
  intros Hok. revert n' l. induction n as [|n IH]; intros n' l Hn Hm.
  { exfalso. unfold fuel_of in Hn. lia. }
  destruct n' as [|n']; [exfalso; unfold fuel_of in Hm; lia|]. cbn [view_fuel].
  destruct (deltas h !! l) as [d|] eqn:Hd; [|done]. cbn. destruct (_backend d); [|done]. cbn.
  destruct (_parent d) as [p|] eqn:Hp; [|done].
  destruct (heap_parent _ Hok _ _ _ Hd Hp) as [Hlt _]. apply fuel_lt in Hlt.
  f_equal. apply IH; lia.
Qed.

(** The defining equation of the view. *)
Lemma view_eq h l : heap_ok h →
  view h l =
    '(p, b, r) ← core_at h l;
    o ← b;
    match p with
    | None => Some o
    | Some p => overlay o r <$> view h p
    end.
Proof.
  intros Hok. unfold view. destruct (fuel_S l) as [n Hn]. rewrite Hn. cbn [view_fuel].
  destruct (deltas h !! l) as [d|] eqn:Hd; [|done]. cbn. destruct (_backend d); [|done]. cbn.
  destruct (_parent d) as [p|] eqn:Hp; [|done].
  destruct (heap_parent _ Hok _ _ _ Hd Hp) as [Hlt _]. apply fuel_lt in Hlt.
  f_equal. apply view_fuel_enough; [done|lia|done].
Qed.

Lemma view_inv h l m : heap_ok h → view h l = Some m →
  ∃ d b, deltas h !! l = Some d ∧ _backend d = Some b ∧
    match _parent d with
    | None => m = MapBackend._map b
    | Some p => ∃ m', view h p = Some m' ∧ m = overlay (MapBackend._map b) (_removed_objects d) m'
    end.
Proof.
  intros Hok. rewrite view_eq by done. intros ([[p o] r] & (d & Hd & Hc)%fmap_Some & Hv)%bind_Some.
  injection Hc as -> -> ->. destruct (_backend d) as [b|] eqn:Hb; [|done]. cbn in Hv.
  exists d, b. split_and!; [done..|].
  destruct (_parent d) as [p|]; [|congruence].
  apply fmap_Some in Hv as (m' & ? & ->). by exists m'.
Qed.

Lemma view_intro h l d b : heap_ok h → deltas h !! l = Some d → _backend d = Some b →
  view h l = match _parent d with
             | None => Some (MapBackend._map b)
             | Some p => overlay (MapBackend._map b) (_removed_objects d) <$> view h p
             end.
Proof. intros Hok Hd Hb. rewrite view_eq, Hd by done. cbn. by rewrite Hb. Qed.

(** ** Frames *)

(** [above h l x]: [x] is [l] or one of its descendants. *)
Inductive above h (l : loc) : loc → Prop :=
| above_refl : above h l l
| above_child x d p : deltas h !! x = Some d → _parent d = Some p → above h l p → above h l x.

Lemma view_frame h h' l x :
  heap_ok h → heap_ok h' → ¬ above h l x →
  (∀ y, y ≠ l → core_at h' y = core_at h y) → view h' x = view h x.
Proof.
  intros Hok Hok' Hna Hc. revert Hna. induction x as [x IH] using loc_ind. intros Hna.
  rewrite !view_eq by done. rewrite Hc; cycle 1.
  { intros ->. apply Hna. constructor. }
  destruct (deltas h !! x) as [d|] eqn:Hd; [|done]. cbn. destruct (_backend d); [|done]. cbn.
  destruct (_parent d) as [p|] eqn:Hp; [|done]. rewrite IH; [done| |].
  - apply (heap_parent _ Hok _ _ _ Hd Hp).
  - intros Ha. apply Hna. by eapply above_child.
Qed.

Lemma view_same_core h h' x :
  heap_ok h → heap_ok h' → (∀ y, core_at h' y = core_at h y) → view h' x = view h x.
Proof.
  intros Hok Hok' Hc. induction x as [x IH] using loc_ind. rewrite !view_eq, Hc by done.
  destruct (deltas h !! x) as [d|] eqn:Hd; [|done]. cbn. destruct (_backend d); [|done]. cbn.
  destruct (_parent d) as [p|] eqn:Hp; [|done]. rewrite IH; [done|]. apply (heap_parent _ Hok _ _ _ Hd Hp).
Qed.

(** Descendants of [l] keep their view when [l] keeps its view and nothing
    allocated after [l] changes. *)
Lemma view_above h h' l x :
  heap_ok h → heap_ok h' → above h l x → view h' l = view h l →
  (∀ y, (l < y)%positive → core_at h' y = core_at h y) → view h' x = view h x.
Proof.
  intros Hok Hok' Ha Hv Hc. induction Ha as [|x d p Hd Hp Ha IH]; [done|].
  assert (∀ x, above h l x → (l ≤ x)%positive) as Hle.
  { intros y. induction 1 as [|y ? ? Hy Hyp]; [lia|]. pose proof (heap_parent _ Hok _ _ _ Hy Hyp). lia. }
  pose proof (Hle _ Ha). pose proof (heap_parent _ Hok _ _ _ Hd Hp) as [? _].
  rewrite !view_eq by done. rewrite Hc by lia. rewrite Hd. cbn. destruct (_backend d); [|done]. cbn.
  by rewrite Hp, IH.
Qed.

(** Overwriting a delta, its parent kept or dropped. *)
Definition set_delta (l : loc) d h : heap := mk_heap (<[l := d]> (deltas h)) (next_loc h).

Lemma set_delta_ok h l d d' :
  heap_ok h → deltas h !! l = Some d → (_parent d' = _parent d ∨ _parent d' = None) →
  heap_ok (set_delta l d' h).
Proof.
  intros Hok Hd Hp. split; cbn.
  - intros x e. rewrite lookup_insert_Some. intros [[<- _]|[_ Hx]]; by eapply heap_fresh.
  - intros x e p. rewrite lookup_insert_Some. intros [[<- <-]|[Hne Hx]] Hpp.
    + destruct Hp as [Hp|Hp]; [|congruence]. rewrite Hp in Hpp.
      destruct (heap_parent _ Hok _ _ _ Hd Hpp) as [? ?]. split; [done|].
      destruct (decide (l = p)) as [->|]; [by rewrite lookup_insert_eq; eexists|].
      by rewrite lookup_insert_ne.
    + destruct (heap_parent _ Hok _ _ _ Hx Hpp) as [? ?]. split; [done|].
      destruct (decide (l = p)) as [->|]; [by rewrite lookup_insert_eq; eexists|].
      by rewrite lookup_insert_ne.
Qed.

Lemma core_set_delta_ne h l d y : y ≠ l → core_at (set_delta l d h) y = core_at h y.
Proof. intros Hne. cbn. by rewrite lookup_insert_ne. Qed.

(** ** Running the accessors *)

Lemma run_deref l h d : deltas h !! l = Some d → deref l h = (Ok d, h).
Proof. intros Hd. unfold deref, gets_state. rewrite run_bind, Hd. done. Qed.

Lemma run_backend l h d b : deltas h !! l = Some d → _backend d = Some b → backend l h = (Ok b, h).
Proof. intros Hd Hb. unfold backend. rewrite run_bind, (run_deref _ _ _ Hd), Hb. done. Qed.

Lemma run_modify l h d f : deltas h !! l = Some d → modify l f h = (Ok tt, set_delta l (f d) h).
Proof. intros Hd. unfold modify. rewrite run_bind, (run_deref _ _ _ Hd). done. Qed.

Lemma run_on_backend l h d b f : deltas h !! l = Some d → _backend d = Some b →
  on_backend l f h = (Ok tt, set_delta l (with_backend (Some (f b)) d) h).
Proof.
  intros Hd Hb. unfold on_backend. by rewrite run_bind, (run_backend _ _ _ _ Hd Hb), (run_modify _ _ _ _ Hd).
Qed.

Lemma run_on_removed l h d f : deltas h !! l = Some d →
  on_removed l f h = (Ok tt, set_delta l (with_removed (f (_removed_objects d)) d) h).
Proof. intros Hd. unfold on_removed. by rewrite (run_modify _ _ _ _ Hd). Qed.

Lemma run_is_root l h d : deltas h !! l = Some d →
  is_root l h = (Ok (match _parent d with None => true | Some _ => false end), h).
Proof. intros Hd. unfold is_root. by rewrite run_bind, (run_deref _ _ _ Hd). Qed.

Lemma run_parent l h d : deltas h !! l = Some d → parent l h = (Ok (_parent d), h).
Proof. intros Hd. unfold parent. by rewrite run_bind, (run_deref _ _ _ Hd). Qed.

Lemma run_is_removed l h d k : deltas h !! l = Some d →
  is_removed l k h = (Ok (bool_decide (k ∈ _removed_objects d)), h).
Proof. intros Hd. unfold is_removed. by rewrite run_bind, (run_deref _ _ _ Hd). Qed.

Lemma set_delta_twice l d d' h : set_delta l d' (set_delta l d h) = set_delta l d' h.
Proof. unfold set_delta. cbn. by rewrite insert_insert_eq. Qed.

Lemma set_delta_lookup l d h : deltas (set_delta l d h) !! l = Some d.
Proof. cbn. by rewrite lookup_insert_eq. Qed.

(** ** Lookup *)

Lemma find_loop_spec n h l k m :
  heap_ok h → (fuel_of l ≤ n)%nat → view h l = Some m → find_loop n l k h = (Ok (m !! k), h).
Proof.
  intros Hok. revert l m. induction n as [|n IH]; intros l m Hn Hv.
  { exfalso. unfold fuel_of in Hn. lia. }
  destruct (view_inv _ _ _ Hok Hv) as (d & b & Hd & Hb & Hm).
  cbn [find_loop]. rewrite run_bind, (run_backend _ _ _ _ Hd Hb). unfold MapBackend.get.
  destruct (MapBackend._map b !! k) as [v|] eqn:Hk.
  { destruct (_parent d); [destruct Hm as (? & _ & ->); by rewrite overlay_lookup, Hk|].
    by rewrite Hm, Hk. }
  rewrite run_bind, (run_is_removed _ _ _ _ Hd).
  destruct (_parent d) as [p|] eqn:Hp.
  - destruct Hm as (m' & Hv' & ->). rewrite overlay_lookup, Hk.
    case_bool_decide; [done|]. rewrite run_bind, (run_parent _ _ _ Hd), Hp.
    apply IH; [|done]. destruct (heap_parent _ Hok _ _ _ Hd Hp) as [Hlt%fuel_lt _]. lia.
  - subst m. rewrite Hk. case_bool_decide; [done|]. by rewrite run_bind, (run_parent _ _ _ Hd), Hp.
Qed.

Lemma find_spec h l k m : heap_ok h → view h l = Some m → find l k h = (Ok (m !! k), h).
Proof. intros Hok. by apply find_loop_spec. Qed.

(** ** Updating one delta *)

Definition same_meta d d' : Prop :=
  _parent d' = _parent d ∧ _id d' = _id d ∧ _revision d' = _revision d ∧
  _finalized d' = _finalized d ∧ _merkle_root d' = _merkle_root d.

Lemma above_le h l x : heap_ok h → above h l x → (l ≤ x)%positive.
Proof.
  intros Hok. induction 1 as [|y ? ? Hy Hyp]; [lia|].
  destruct (heap_parent _ Hok _ _ _ Hy Hyp). lia.
Qed.

Lemma view_set_delta_below h l d d' x :
  heap_ok h → deltas h !! l = Some d → _parent d' = _parent d → (x < l)%positive →
  view (set_delta l d' h) x = view h x.
Proof.
  intros Hok Hd Hp Hx. apply (view_frame h _ l); [done| | |].
  - eapply set_delta_ok; [done..|by left].
  - intros Ha. pose proof (above_le _ _ _ Hok Ha). lia.
  - intros y Hy. by apply core_set_delta_ne.
Qed.

Lemma view_set_delta h l d d' b' :
  heap_ok h → deltas h !! l = Some d → _parent d' = _parent d → _backend d' = Some b' →
  view (set_delta l d' h) l
  = match _parent d with
    | None => Some (MapBackend._map b')
    | Some p => overlay (MapBackend._map b') (_removed_objects d') <$> view h p
    end.
Proof.
  intros Hok Hd Hp Hb.
  rewrite (view_intro _ l d' b'); [|eapply set_delta_ok; [done..|by left]|apply set_delta_lookup|done].
  rewrite Hp. destruct (_parent d) as [p|] eqn:Hpd; [|done].
  rewrite (view_set_delta_below h l d d' p); [done..|by rewrite Hpd|].
  apply (heap_parent _ Hok _ _ _ Hd Hpd).
Qed.

Lemma overlay_put o r m k v : overlay (<[k := v]> o) r m = <[k := v]> (overlay o r m).
Proof.
  apply map_eq. intros k'. rewrite overlay_lookup, !lookup_insert, overlay_lookup.
  by destruct (decide (k = k')).
Qed.

Lemma overlay_erase o r m k : overlay (delete k o) ({[k]} ∪ r) m = delete k (overlay o r m).
Proof.
  apply map_eq. intros k'. rewrite overlay_lookup, !lookup_delete, overlay_lookup.
  destruct (decide (k = k')) as [->|Hne].
  - by rewrite bool_decide_eq_true_2 by set_solver.
  - destruct (o !! k'); [done|]. by rewrite (bool_decide_ext (k' ∈ {[k]} ∪ r) (k' ∈ r)) by set_solver.
Qed.

(** The effect of a write on [l]: only [l]'s objects and removed keys
    change, and its view becomes [m']. *)
Definition writes h l m' (h' : heap) : Prop :=
  ∃ d d', deltas h !! l = Some d ∧ h' = set_delta l d' h ∧ same_meta d d' ∧
    (∃ b b', _backend d = Some b ∧ _backend d' = Some b' ∧
       MapBackend._header b' = MapBackend._header b) ∧
    view h' l = Some m'.

Lemma put_spec h l k v m : heap_ok h → view h l = Some m →
  ∃ h', put l k v h = (Ok tt, h') ∧ writes h l (<[k := v]> m) h'.
Proof.
  intros Hok Hv. destruct (view_inv _ _ _ Hok Hv) as (d & b & Hd & Hb & Hm).
  eexists. split; [unfold put; by rewrite (run_on_backend _ _ _ _ _ Hd Hb)|].
  exists d. eexists. split_and!; [done|done|done|by exists b; eexists|].
  erewrite view_set_delta; [|done..]. cbn.
  destruct (_parent d) as [p|]; [|by subst m].
  destruct Hm as (m' & -> & ->). cbn. by rewrite overlay_put.
Qed.

Lemma erase_spec h l k t m : heap_ok h → view h l = Some m →
  ∃ h', erase l k t h = (Ok tt, h') ∧ (h' = h ∧ m !! k = None ∨ writes h l (delete k m) h').
Proof.
  intros Hok Hv. destruct (view_inv _ _ _ Hok Hv) as (d & b & Hd & Hb & Hm).
  unfold erase. rewrite run_bind, (find_spec _ _ _ _ Hok Hv).
  destruct (bool_decide (is_Some (m !! k)) || t) eqn:Hc.
  - eexists. split.
    { rewrite run_bind, (run_on_backend _ _ _ _ _ Hd Hb).
      rewrite (run_on_removed _ _ _ _ (set_delta_lookup _ _ _)), set_delta_twice. done. }
    right. exists d. eexists. split_and!; [done|done|done|by exists b; eexists|].
    erewrite view_set_delta; [|done..]. cbn.
    destruct (_parent d) as [p|]; [|by subst m].
    destruct Hm as (m' & -> & ->). cbn. by rewrite overlay_erase.
  - exists h. split; [done|]. left. split; [done|].
    apply orb_false_iff in Hc as [Hc _]. apply bool_decide_eq_false in Hc.
    by apply eq_None_not_Some.
Qed.

(** ** The entries of a backend *)

Lemma entries_elem (b : backend_type) k v :
  (k, v) ∈ MapBackend.entries b ↔ MapBackend._map b !! k = Some v.
Proof.
  unfold MapBackend.entries, MapBackend.get. rewrite list_elem_of_omap. split.
  - intros (k' & _ & (v' & Hk & [= -> ->])%fmap_Some). done.
  - intros Hk. exists k. rewrite Hk. split; [|done]. apply map_keys_elem. by eexists.
Qed.

Lemma entries_fst (b : backend_type) k :
  k ∈ (MapBackend.entries b).*1 ↔ is_Some (MapBackend._map b !! k).
Proof.
  rewrite list_elem_of_fmap. split.
  - intros ([k' v] & -> & H%entries_elem). by exists v.
  - intros [v H%entries_elem]. by exists (k, v).
Qed.

Lemma foldl_erase_map l (b : backend_type) k :
  MapBackend._map (foldl (λ b r, MapBackend.erase r b) b l) !! k
  = if bool_decide (k ∈ l) then None else MapBackend._map b !! k.
Proof.
  revert b. induction l as [|x l IH]; intros b; cbn; [done|]. rewrite IH. cbn.
  rewrite lookup_delete. destruct (decide (x = k)) as [->|Hne].
  - rewrite (bool_decide_eq_true_2 (k ∈ k :: l)) by (by left). by case_bool_decide.
  - rewrite (bool_decide_ext (k ∈ x :: l) (k ∈ l)); [done|]. rewrite elem_of_cons. naive_solver.
Qed.

Lemma foldl_put_map l m (b : backend_type) k :
  (∀ k v, (k, v) ∈ l → m !! k = Some v) →
  MapBackend._map (foldl (λ b '(k, v), MapBackend.put k v b) b l) !! k
  = if bool_decide (k ∈ l.*1) then m !! k else MapBackend._map b !! k.
Proof.
  revert b. induction l as [|[k' v] l IH]; intros b Hl; cbn; [done|].
  rewrite IH by (intros; apply Hl; by right). cbn. rewrite lookup_insert.
  destruct (decide (k' = k)) as [->|Hne].
  - rewrite (bool_decide_eq_true_2 (k ∈ k :: l.*1)) by (by left).
    case_bool_decide; [done|]. symmetry. apply Hl. by left.
  - rewrite (bool_decide_ext (k ∈ k' :: l.*1) (k ∈ l.*1)); [done|].
    rewrite elem_of_cons. naive_solver.
Qed.

Lemma apply_delta_map d (b bk : backend_type) :
  MapBackend._map (apply_delta d b bk)
  = overlay (MapBackend._map b) (_removed_objects d) (MapBackend._map bk).
Proof.
  apply map_eq. intros k. unfold apply_delta.
  rewrite (foldl_put_map _ (MapBackend._map b)) by (intros ?? H; by apply entries_elem).
  rewrite foldl_erase_map, overlay_lookup. unfold removed_list.
  rewrite (bool_decide_ext _ _ (entries_fst b k)).
  rewrite (bool_decide_ext (k ∈ elements _) _ (elem_of_elements _ _)).
  by destruct (MapBackend._map b !! k).
Qed.

(** ** Loops over one delta *)

Lemma set_delta_id h l d : deltas h !! l = Some d → set_delta l d h = h.
Proof. intros Hd. destruct h. unfold set_delta. cbn in *. by rewrite insert_id. Qed.

Lemma run_for_each {A} (f : A → prog heap exn unit) (step : state_delta → A → state_delta)
    (Inv : state_delta → Prop) p l h d :
  (∀ h d x, deltas h !! p = Some d → Inv d →
     f x h = (Ok tt, set_delta p (step d x) h) ∧ Inv (step d x)) →
  deltas h !! p = Some d → Inv d →
  for_each f l h = (Ok tt, set_delta p (foldl step d l) h) ∧ Inv (foldl step d l).
Proof.
  intros Hf. revert h d. induction l as [|x l IH]; intros h d Hd Hi; cbn [for_each foldl].
  { by rewrite set_delta_id. }
  destruct (Hf h d x Hd Hi) as [Hr Hi']. rewrite run_bind, Hr.
  destruct (IH _ _ (set_delta_lookup p (step d x) h) Hi') as [-> ?]. by rewrite set_delta_twice.
Qed.

(** ** Squash *)

Definition root_d d : bool := match _parent d with None => true | Some _ => false end.

Definition erase_step d (k : bytes) : state_delta :=
  with_removed (if root_d d then _removed_objects d else {[k]} ∪ _removed_objects d)
    (with_backend (MapBackend.erase k <$> _backend d) d).

Definition put_step d (kv : bytes * bytes) : state_delta :=
  with_removed (if root_d d then _removed_objects d else _removed_objects d ∖ {[kv.1]})
    (with_backend (MapBackend.put kv.1 kv.2 <$> _backend d) d).

Lemma foldl_erase_step l d b : _backend d = Some b →
  foldl erase_step d l
  = with_removed (if root_d d then _removed_objects d else list_to_set l ∪ _removed_objects d)
      (with_backend (Some (foldl (λ b r, MapBackend.erase r b) b l)) d).
Proof.
  revert d b. induction l as [|k l IH]; intros [p bo r i rev mr f] b Hb; cbn in *; subst bo.
  { unfold with_removed, with_backend. cbn. f_equal. destruct p; [set_solver|done]. }
  rewrite (IH _ (MapBackend.erase k b)) by done. unfold with_removed, with_backend. cbn.
  destruct p; cbn; f_equal; set_solver.
Qed.

Lemma foldl_put_step l d b : _backend d = Some b →
  foldl put_step d l
  = with_removed (if root_d d then _removed_objects d else _removed_objects d ∖ list_to_set l.*1)
      (with_backend (Some (foldl (λ b '(k, v), MapBackend.put k v b) b l)) d).
Proof.
  revert d b. induction l as [|[k v] l IH]; intros [p bo r i rev mr f] b Hb; cbn in *; subst bo.
  { unfold with_removed, with_backend. cbn. f_equal. destruct p; [set_solver|done]. }
  rewrite (IH _ (MapBackend.put k v b)) by done. unfold with_removed, with_backend. cbn.
  destruct p; cbn; f_equal; set_solver.
Qed.

Definition has_backend d : Prop := is_Some (_backend d).

Lemma run_squash_step p h d f g :
  deltas h !! p = Some d → has_backend d →
  (on_backend p f;;
   parent_root ← is_root p;
   if (parent_root : bool) then mret tt else on_removed p g) h
  = (Ok tt, set_delta p (with_removed (if root_d d then _removed_objects d else g (_removed_objects d))
                           (with_backend (f <$> _backend d) d)) h).
Proof.
  intros Hd [b Hb]. rewrite run_bind, (run_on_backend _ _ _ _ _ Hd Hb).
  rewrite run_bind, (run_is_root _ _ _ (set_delta_lookup _ _ _)). rewrite Hb. cbn.
  unfold root_d. destruct (_parent d) eqn:Hp.
  - by rewrite (run_on_removed _ _ _ _ (set_delta_lookup _ _ _)), set_delta_twice.
  - unfold with_removed, with_backend. cbn. by rewrite Hp.
Qed.

(** Squashing a child makes its view its parent's. *)
Lemma squash_spec h l d p m : heap_ok h → deltas h !! l = Some d → _parent d = Some p →
  view h l = Some m → ∃ h', squash l h = (Ok tt, h') ∧ writes h p m h'.
Proof.
  intros Hok Hd Hp Hv. destruct (view_inv _ _ _ Hok Hv) as (d0 & b & Hd0 & Hb & Hm).
  assert (d0 = d) as -> by congruence. rewrite Hp in Hm. destruct Hm as (mp & Hvp & ->).
  destruct (view_inv _ _ _ Hok Hvp) as (dp & bp & Hdp & Hbp & Hmp).
  destruct (heap_parent _ Hok _ _ _ Hd Hp) as [Hlt _].
  unfold squash. rewrite run_bind, (run_is_root _ _ _ Hd), Hp, run_bind, (run_deref _ _ _ Hd), Hp.
  rewrite run_bind.
  destruct (run_for_each
    (λ r_key, on_backend p (MapBackend.erase r_key);;
       parent_root ← is_root p;
       if (parent_root : bool) then mret tt else on_removed p (λ r, {[r_key]} ∪ r))
    erase_step has_backend p (removed_list d) h dp) as [-> _]; [|done|by eexists|].
  { intros h1 d1 x Hd1 Hi. split; [by apply run_squash_step|]. destruct Hi as [b1 Hb1].
    unfold has_backend, erase_step. cbn. rewrite Hb1. by eexists. }
  rewrite (foldl_erase_step _ _ _ Hbp).
  set (dp1 := with_removed _ _). set (b1 := foldl _ bp _) in dp1.
  assert (deltas (set_delta p dp1 h) !! l = Some d) as Hd1.
  { cbn. rewrite lookup_insert_ne by (intros ->; lia). done. }
  rewrite run_bind, (run_backend _ _ _ _ Hd1 Hb).
  destruct (run_for_each
    (λ '(k, v), on_backend p (MapBackend.put k v);;
       parent_root ← is_root p;
       if (parent_root : bool) then mret tt else on_removed p (λ r, r ∖ {[k]}))
    put_step has_backend p (MapBackend.entries b) (set_delta p dp1 h) dp1) as [-> _];
    [|apply set_delta_lookup|by eexists|].
  { intros h1 d1 [k v] Hd1' Hi. split; [by apply run_squash_step|]. destruct Hi as [b2 Hb2].
    unfold has_backend, put_step. cbn. rewrite Hb2. by eexists. }
  rewrite (foldl_put_step _ dp1 b1) by done. rewrite set_delta_twice.
  eexists. split; [done|]. exists dp. eexists.
  assert (∀ b l, MapBackend._header (foldl (λ b r, MapBackend.erase r b) b l) = MapBackend._header b)
    as Hhe by (intros b' l'; revert b'; induction l' as [|? ? IH]; intros b'; cbn; [done|by rewrite IH]).
  assert (∀ b l, MapBackend._header (foldl (λ b '(k, v), MapBackend.put k v b) b l)
                 = MapBackend._header b)
    as Hhp by (intros b' l'; revert b'; induction l' as [|[] ? IH]; intros b'; cbn; [done|by rewrite IH]).
  split_and!; [done|done|done| |].
  { exists bp. eexists. split_and!; [done|done|]. rewrite Hhp. apply Hhe. }
  erewrite view_set_delta; [|done..]. cbn. unfold root_d. cbn.
  assert (∀ k, MapBackend._map (foldl (λ b '(k, v), MapBackend.put k v b) b1 (MapBackend.entries b)) !! k
    = match MapBackend._map b !! k with
      | Some v => Some v
      | None => if bool_decide (k ∈ _removed_objects d) then None else MapBackend._map bp !! k
      end) as Hmap.
  { intros k. rewrite (foldl_put_map _ (MapBackend._map b)) by (intros ?? H; by apply entries_elem).
    rewrite (bool_decide_ext _ _ (entries_fst b k)). unfold b1. rewrite foldl_erase_map.
    unfold removed_list. rewrite (bool_decide_ext (k ∈ elements _) _ (elem_of_elements _ _)).
    by destruct (MapBackend._map b !! k). }
  destruct (_parent dp) as [gp|] eqn:Hgp.
  - destruct Hmp as (mg & -> & ->). cbn. f_equal. apply map_eq. intros k.
    rewrite !overlay_lookup, Hmap.
    destruct (MapBackend._map b !! k) as [v|] eqn:Hk; [done|].
    assert (k ∉ (MapBackend.entries b).*1) as Hnk.
    { rewrite entries_fst, Hk. by intros [? ?]. }
    assert (k ∈ (list_to_set (removed_list d) : gset bytes) ↔ k ∈ _removed_objects d) as Hrl.
    { unfold removed_list. by rewrite elem_of_list_to_set, elem_of_elements. }
    rewrite (bool_decide_ext (k ∈ (_ ∪ _) ∖ _) (k ∈ _removed_objects d ∨ k ∈ _removed_objects dp)); cycle 1.
    { rewrite elem_of_difference, elem_of_union, Hrl, elem_of_list_to_set. tauto. }
    case_bool_decide as H1.
    + by rewrite bool_decide_eq_true_2 by (by left).
    + destruct (MapBackend._map bp !! k); [done|].
      rewrite (bool_decide_ext (_ ∨ _) (k ∈ _removed_objects dp)) by tauto. done.
  - subst mp. f_equal. apply map_eq. intros k. by rewrite Hmap, overlay_lookup.
Qed.

End Facts.
