(* ===== verification/StateCommit.v ===== *)
(** Committing, branching and hashing deltas: facts about [commit],
    [make_child], [clone] and the merkle root. *)

From S2P Require Import Prelude Keys MapBackend StateDelta StateDeltaFacts.
Import StateDelta.

Section Facts.
Context `{Hcrypto : !Crypto}.
Implicit Types (h : heap) (d : state_delta) (m : gmap bytes bytes).

(** ** The merkle root *)

(** The keys a delta changes, as the code lists them. *)
Definition changed_keys d (b : backend_type) : list bytes :=
  sort_keys ((MapBackend.entries b).*1 ++ removed_list d).

Definition merkle_of d (b : backend_type) : multihash :=
  merkle_tree_root (k ← changed_keys d b; [hash k; hash (default [] (MapBackend.get b k))]).

Lemma run_object_keys l h d b : deltas h !! l = Some d → _backend d = Some b →
  object_keys l h = (Ok (changed_keys d b), h).
Proof.
  intros Hd Hb. unfold object_keys.
  by rewrite run_bind, (run_deref _ _ _ Hd), run_bind, (run_backend _ _ _ _ Hd Hb).
Qed.

Lemma run_calculate_merkle_root l h d b : deltas h !! l = Some d → _backend d = Some b →
  calculate_merkle_root l h = (Ok (merkle_of d b), h).
Proof.
  intros Hd Hb. unfold calculate_merkle_root.
  by rewrite run_bind, (run_object_keys _ _ _ _ Hd Hb), run_bind, (run_backend _ _ _ _ Hd Hb).
Qed.

Definition root_hash d (b : backend_type) : multihash := default (merkle_of d b) (_merkle_root d).

Lemma run_merkle_root l h d b : deltas h !! l = Some d → _backend d = Some b →
  merkle_root l h = (Ok (root_hash d b), set_delta l (with_merkle (Some (root_hash d b)) d) h).
Proof.
  intros Hd Hb. unfold merkle_root, root_hash. rewrite run_bind, (run_deref _ _ _ Hd).
  destruct (_merkle_root d) as [m|] eqn:Hm.
  - rewrite set_delta_id; [done|]. cbn. rewrite Hd. f_equal. destruct d. cbn in *. by subst.
  - rewrite run_bind, (run_calculate_merkle_root _ _ _ _ Hd Hb).
    by rewrite run_bind, (run_modify _ _ _ _ Hd).
Qed.

(** ** The stack of a commit *)

Inductive is_stack h : loc → list loc → Prop :=
| stack_root l d : deltas h !! l = Some d → _parent d = None → is_stack h l [l]
| stack_child l d p s : deltas h !! l = Some d → _parent d = Some p → is_stack h p s →
    is_stack h l (l :: s).

Lemma run_node_stack n h l m :
  heap_ok h → (fuel_of l ≤ n)%nat → view h l = Some m →
  ∃ s, node_stack_loop n l h = (Ok s, h) ∧ is_stack h l s.
Proof.
  intros Hok. revert l m. induction n as [|n IH]; intros l m Hn Hv.
  { exfalso. unfold fuel_of in Hn. lia. }
  destruct (view_inv _ _ _ Hok Hv) as (d & b & Hd & Hb & Hm).
  cbn [node_stack_loop]. rewrite run_bind, (run_parent _ _ _ Hd).
  destruct (_parent d) as [p|] eqn:Hp.
  - destruct Hm as (m' & Hv' & _). destruct (heap_parent _ Hok _ _ _ Hd Hp) as [Hlt%fuel_lt _].
    destruct (IH p m') as (s & Hs & Hst); [lia|done|].
    exists (l :: s). rewrite run_bind, Hs. split; [done|]. by eapply stack_child.
  - exists [l]. split; [done|]. by eapply stack_root.
Qed.

Lemma pop_stack_app s1 s2 b h :
  pop_stack (s1 ++ s2) b h = (b ← pop_stack s1 b; pop_stack s2 b) h.
Proof.
  revert b h. induction s1 as [|x s1 IH]; intros b h; cbn [pop_stack app]; [done|].
  rewrite !run_bind. destruct (deref x h) as [[d|e|] h1]; [|done..].
  rewrite !run_bind. destruct (backend x h1) as [[bx|e|] h2]; [|done..]. by rewrite IH, run_bind.
Qed.

(** Fields of the backend that [apply_delta] keeps. *)
Lemma apply_delta_header d (b bk : backend_type) :
  MapBackend._header (apply_delta d b bk) = MapBackend._header bk.
Proof.
  unfold apply_delta. assert (∀ l b', MapBackend._header (foldl (λ b '(k, v), MapBackend.put k v b) b' l)
    = MapBackend._header b') as ->.
  { induction l as [|[] l IH]; intros b'; cbn; [done|by rewrite IH]. }
  revert bk. induction (removed_list d) as [|k l IH]; intros bk; cbn; [done|by rewrite IH].
Qed.

(** Popping the stack over a heap that differs from [h] only below: the
    result holds the view. *)
Lemma pop_stack_view h h' l s m :
  heap_ok h → is_stack h l s → view h l = Some m →
  ∃ r rest dr br, reverse s = r :: rest ∧ deltas h !! r = Some dr ∧ _parent dr = None ∧
    _backend dr = Some br ∧ (r ≤ l)%positive ∧ (l = r ↔ rest = []) ∧
    ((∀ x, x ∈ rest → deltas h' !! x = deltas h !! x) →
     ∃ b', pop_stack rest br h' = (Ok b', h') ∧ MapBackend._map b' = m).
Proof.
  intros Hok Hs. revert m. induction Hs as [l d Hd Hp|l d p s Hd Hp Hs IH]; intros m Hv.
  - destruct (view_inv _ _ _ Hok Hv) as (d0 & b & Hd0 & Hb & Hm).
    assert (d0 = d) as -> by congruence. rewrite Hp in Hm.
    exists l, [], d, b. split_and!; [done..|lia|done|]. intros _. exists b. by subst m.
  - destruct (view_inv _ _ _ Hok Hv) as (d0 & b & Hd0 & Hb & Hm).
    assert (d0 = d) as -> by congruence. rewrite Hp in Hm. destruct Hm as (mp & Hvp & ->).
    destruct (IH mp Hvp) as (r & rest & dr & br & Hrev & Hr & Hrp & Hrb & Hle & _ & Hpop).
    destruct (heap_parent _ Hok _ _ _ Hd Hp) as [Hlt _].
    exists r, (rest ++ [l]), dr, br.
    split_and!; [by rewrite reverse_cons, Hrev|done..|lia| |].
    { split; [intros ->; lia|intros [_ ?]%app_nil; done]. }
    intros Heq. destruct Hpop as (b1 & Hpop & Hm1); [intros; apply Heq, elem_of_app; by left|].
    exists (apply_delta d b b1). rewrite pop_stack_app, run_bind, Hpop. cbn [pop_stack].
    assert (deltas h' !! l = Some d) as Hl'.
    { rewrite Heq; [done|]. apply elem_of_app. right. by left. }
    rewrite run_bind, (run_deref _ _ _ Hl'), run_bind, (run_backend _ _ _ _ Hl' Hb).
    split; [done|]. by rewrite apply_delta_map, Hm1.
Qed.

Lemma stack_rest_gt h l s r rest x : heap_ok h → is_stack h l s → reverse s = r :: rest →
  x ∈ rest → (r < x)%positive.
Proof.
  intros Hok Hs. revert r rest x. induction Hs as [l d Hd Hp|l d p s Hd Hp Hs IH]; intros r rest x Hrev Hx.
  - cbn in Hrev. injection Hrev as _ <-. by apply elem_of_nil in Hx.
  - rewrite reverse_cons in Hrev.
    assert (∀ l s, is_stack h l s → ∃ r rest, reverse s = r :: rest ∧ (r ≤ l)%positive) as Hne.
    { intros l0 s0. induction 1 as [l0 d0|l0 d0 p0 s0 Hd0 Hp0 _ (r0 & rest0 & Hr0 & ?)].
      - exists l0, []. split; [done|lia].
      - exists r0, (rest0 ++ [l0]). rewrite reverse_cons, Hr0. split; [done|].
        destruct (heap_parent _ Hok _ _ _ Hd0 Hp0). lia. }
    destruct (Hne _ _ Hs) as (r0 & rest0 & Hr0 & Hle). rewrite Hr0 in Hrev. injection Hrev as -> <-.
    apply elem_of_app in Hx as [Hx|Hx%list_elem_of_singleton]; [by eapply IH|]. subst x.
    destruct (heap_parent _ Hok _ _ _ Hd Hp). lia.
Qed.

(** ** Commit *)

(** What [commit] leaves of the committed delta: a root that owns a backend
    with the whole view, its metadata and the delta's merkle root. *)
Definition committed_delta d (b : backend_type) m : state_delta :=
  mk_state_delta None
    (Some (MapBackend.mk_map_backend m (_revision d) (_id d) (root_hash d b) (MapBackend._header b)))
    ∅ (_id d) (_revision d) (Some (root_hash d b)) (_finalized d).

Lemma commit_spec h l d b p m :
  heap_ok h → deltas h !! l = Some d → _backend d = Some b → _parent d = Some p →
  view h l = Some m →
  ∃ r dr, deltas h !! r = Some dr ∧ _parent dr = None ∧ above h r l ∧ r ≠ l ∧
    commit l h = (Ok tt, set_delta l (committed_delta d b m) (set_delta r (with_backend None dr) h)).
Proof.
  intros Hok Hd Hb Hp Hv.
  destruct (run_node_stack (fuel_of l) h l m Hok ltac:(done) Hv) as (s & Hrun & Hs).
  assert (∀ l s r rest, is_stack h l s → reverse s = r :: rest → above h r l) as Hab.
  { intros l0 s0 r0 rest0 Hs0. revert r0 rest0.
    induction Hs0 as [l0 d0 Hd0 Hp0|l0 d0 p0 s0 Hd0 Hp0 Hs0 IH0]; intros r0 rest0 Hr0.
    - injection Hr0 as -> _. constructor.
    - rewrite reverse_cons in Hr0. destruct (reverse s0) as [|r1 rest1] eqn:Hr1.
      + destruct Hs0; by rewrite reverse_cons in Hr1; destruct (reverse _).
      + injection Hr0 as -> _. eapply above_child; [done..|]. by eapply IH0. }
  destruct (pop_stack_view h h l s m Hok Hs Hv)
    as (r & rest & dr & br & Hrev & Hr & Hrp & Hrb & Hle & Hlr & _).
  destruct (pop_stack_view h (set_delta r (with_backend None dr) h) l s m Hok Hs Hv)
    as (r' & rest' & dr' & br' & Hrev' & Hr' & _ & Hrb' & _ & _ & Hpop).
  rewrite Hrev in Hrev'. injection Hrev' as <- <-. assert (dr' = dr) as -> by congruence.
  assert (br' = br) as -> by congruence.
  assert (r ≠ l) as Hne by (intros ->; congruence).
  exists r, dr. split_and!; [done|done|by eapply Hab|done|].
  unfold commit. rewrite run_bind, (run_is_root _ _ _ Hd), Hp. cbn [negb assert_that].
  rewrite run_bind. cbn [mret prog_ret]. rewrite run_bind, Hrun, Hrev.
  rewrite run_bind, (run_backend _ _ _ _ Hr Hrb), run_bind, (run_modify _ _ _ _ Hr).
  set (h1 := set_delta r _ h) in *.
  destruct Hpop as (b' & Hpop & Hmap).
  { intros x Hx. pose proof (stack_rest_gt _ _ _ _ _ _ Hok Hs Hrev Hx).
    cbn. rewrite lookup_insert_ne by lia. done. }
  unfold MapBackend.start_write_batch. rewrite run_bind, Hpop.
  assert (deltas h1 !! l = Some d) as Hd1 by (cbn; by rewrite lookup_insert_ne).
  unfold block_header_of. rewrite run_bind, run_bind, (run_backend _ _ _ _ Hd1 Hb). cbn [mret prog_ret].
  rewrite run_bind, (run_deref _ _ _ Hd1), run_bind, (run_merkle_root _ _ _ _ Hd1 Hb).
  rewrite (run_modify _ _ _ _ (set_delta_lookup _ _ _)), set_delta_twice. f_equal. f_equal.
  unfold with_parent, with_backend, with_removed, with_merkle, committed_delta,
    MapBackend.end_write_batch, MapBackend.store_metadata, MapBackend.set_merkle_root,
    MapBackend.set_id, MapBackend.set_revision, MapBackend.set_block_header. cbn.
  by rewrite Hmap.
Qed.

(** The view of the committed delta and of all its descendants is kept. *)
Lemma commit_heap h l d b m r dr :
  heap_ok h → deltas h !! l = Some d → deltas h !! r = Some dr → view h l = Some m →
  above h r l → r ≠ l →
  let h' := set_delta l (committed_delta d b m) (set_delta r (with_backend None dr) h) in
  heap_ok h' ∧ view h' l = Some m ∧ ∀ x, above h l x → view h' x = view h x.
Proof.
  intros Hok Hd Hr Hv Ha Hne h'.
  assert (heap_ok (set_delta r (with_backend None dr) h)) as Hok1
    by (eapply set_delta_ok; [done|done|by left]).
  assert (deltas (set_delta r (with_backend None dr) h) !! l = Some d) as Hd1
    by (cbn; by rewrite lookup_insert_ne).
  assert (heap_ok h') as Hok' by (eapply set_delta_ok; [done|done|by right]).
  assert (view h' l = Some m) as Hv'.
  { rewrite (view_intro _ l (committed_delta d b m) _ Hok' (set_delta_lookup _ _ _) eq_refl). done. }
  split_and!; [done..|]. intros x Hx. apply (view_above h h' l); [done..| |].
  - by rewrite Hv, Hv'.
  - intros y Hy. pose proof (above_le _ _ _ Hok Ha).
    unfold h'. rewrite !core_set_delta_ne by (intros ->; lia). done.
Qed.

Lemma commit_root h l d : deltas h !! l = Some d → _parent d = None →
  commit l h = (Throw internal_error, h).
Proof. intros Hd Hp. unfold commit. by rewrite run_bind, (run_is_root _ _ _ Hd), Hp. Qed.

(** ** Branching *)

Definition alloc_delta d h : heap := mk_heap (<[next_loc h := d]> (deltas h)) (Pos.succ (next_loc h)).

Lemma run_alloc d h : alloc d h = (Ok (next_loc h), alloc_delta d h).
Proof. reflexivity. Qed.

Lemma alloc_ok h d : heap_ok h →
  (∀ p, _parent d = Some p → is_Some (deltas h !! p)) → heap_ok (alloc_delta d h).
Proof.
  intros Hok Hp. split; cbn.
  - intros l e. rewrite lookup_insert_Some. intros [[<- _]|[_ Hl]]; [lia|].
    pose proof (heap_fresh _ Hok _ _ Hl). lia.
  - intros l e p. rewrite lookup_insert_Some. intros [[<- <-]|[_ Hl]] He.
    + destruct (Hp _ He) as [dp Hdp]. pose proof (heap_fresh _ Hok _ _ Hdp).
      split; [done|]. rewrite lookup_insert_ne by lia. by eexists.
    + destruct (heap_parent _ Hok _ _ _ Hl He) as [? [dp Hdp]].
      pose proof (heap_fresh _ Hok _ _ Hdp). split; [done|].
      rewrite lookup_insert_ne by lia. by eexists.
Qed.

Lemma alloc_view h d x : heap_ok h → heap_ok (alloc_delta d h) → x ≠ next_loc h →
  view (alloc_delta d h) x = view h x.
Proof.
  intros Hok Hok'. induction x as [x IH] using loc_ind. intros Hx. rewrite !view_eq by done.
  assert (deltas (alloc_delta d h) !! x = deltas h !! x) as -> by (cbn; by rewrite lookup_insert_ne).
  destruct (deltas h !! x) as [e|] eqn:He; [|done]. cbn. destruct (_backend e); [|done]. cbn.
  destruct (_parent e) as [p|] eqn:Hp; [|done].
  destruct (heap_parent _ Hok _ _ _ He Hp) as [Hlt _]. pose proof (heap_fresh _ Hok _ _ He).
  rewrite IH; [done|done|lia].
Qed.

Lemma alloc_view_new h d b : heap_ok h → heap_ok (alloc_delta d h) → _backend d = Some b →
  view (alloc_delta d h) (next_loc h)
  = match _parent d with
    | None => Some (MapBackend._map b)
    | Some p => overlay (MapBackend._map b) (_removed_objects d) <$> view h p
    end.
Proof.
  intros Hok Hok' Hb.
  rewrite (view_intro _ (next_loc h) d b); [|done| |done].
  2: { cbn. by rewrite lookup_insert_eq. }
  destruct (_parent d) as [p|] eqn:Hp; [|done]. rewrite alloc_view; [done..|].
  assert (deltas (alloc_delta d h) !! next_loc h = Some d) as Hd by (cbn; by rewrite lookup_insert_eq).
  pose proof (heap_parent _ Hok' _ _ _ Hd Hp). lia.
Qed.

Lemma overlay_empty m : overlay ∅ ∅ m = m.
Proof. apply map_eq. intros k. rewrite overlay_lookup, lookup_empty. by rewrite bool_decide_eq_false_2 by set_solver. Qed.

Definition child_delta (l : loc) d (i : multihash) (header : block_header) : state_delta :=
  mk_state_delta (Some l) (Some (MapBackend.set_block_header header MapBackend.new)) ∅ i
    (u64 (_revision d + 1)) None false.

(** A new child sees what its parent sees, and disturbs nobody. *)
Lemma make_child_spec h l d i header m : heap_ok h → deltas h !! l = Some d → view h l = Some m →
  let h' := alloc_delta (child_delta l d i header) h in
  make_child l i header h = (Ok (next_loc h), h') ∧ heap_ok h' ∧
  view h' (next_loc h) = Some m ∧ ∀ x, x ≠ next_loc h → view h' x = view h x.
Proof.
  intros Hok Hd Hv h'.
  assert (heap_ok h') as Hok' by (apply alloc_ok; [done|]; intros p [= <-]; by eexists).
  split_and!; [|done| |].
  - unfold make_child. by rewrite run_bind, (run_deref _ _ _ Hd).
  - unfold h'. erewrite alloc_view_new by done. cbn. rewrite Hv. cbn. by rewrite overlay_empty.
  - intros x Hx. by apply alloc_view.
Qed.

Definition clone_delta d (b : backend_type) (i : multihash) (header : block_header) : state_delta :=
  mk_state_delta (_parent d)
    (Some (MapBackend.mk_map_backend (MapBackend._map b) (_revision d) i
             (default (MapBackend._merkle_root b) (_merkle_root d)) header))
    (_removed_objects d) i (_revision d) (_merkle_root d) (_finalized d).

(** A clone sees what the original sees. *)
Lemma clone_spec h l d b i header m : heap_ok h → deltas h !! l = Some d → _backend d = Some b →
  view h l = Some m →
  let h' := alloc_delta (clone_delta d b i header) h in
  clone l i header h = (Ok (next_loc h), h') ∧ heap_ok h' ∧
  view h' (next_loc h) = Some m ∧ ∀ x, x ≠ next_loc h → view h' x = view h x.
Proof.
  intros Hok Hd Hb Hv h'.
  assert (heap_ok h') as Hok'.
  { apply alloc_ok; [done|]. intros p Hp. by apply (heap_parent _ Hok _ _ _ Hd Hp). }
  split_and!; [|done| |].
  - unfold clone. rewrite run_bind, (run_deref _ _ _ Hd), run_bind, (run_backend _ _ _ _ Hd Hb).
    rewrite run_alloc. do 2 f_equal. unfold clone_delta. by destruct (_merkle_root d).
  - unfold h'. erewrite alloc_view_new by done. cbn.
    rewrite (view_intro _ _ _ _ Hok Hd Hb) in Hv. by destruct (_parent d).
  - intros x Hx. by apply alloc_view.
Qed.

End Facts.
