(* ===== verification/RocksBackendTheorems.v ===== *)
(** The RocksDB backend behind its cache is the map backend: objects,
    iterators, closing and opening; and the commit of a stack of deltas to it
    is atomic and durable. *)

From S2P Require Import Prelude Keys MapBackend StateDelta StateDeltaFacts StateCommit Storage RocksBackend.

(** ** The cache *)

Module CacheFacts.
Import ObjectCache.

Definition cost (m : gmap bytes (option bytes)) (k : bytes) : Z := entry_size k (default None (m !! k)).
Definition total (m : gmap bytes (option bytes)) (l : list bytes) : Z := foldr (λ k n, cost m k + n) 0 l.

(** The list orders the keys of the map, and the size is that of the entries. *)
Record cache_ok (c : object_cache) : Prop := {
  lru_nodup : NoDup (_lru_list c);
  lru_keys : ∀ k, k ∈ _lru_list c ↔ is_Some (_object_map c !! k);
  size_total : _cache_size c = total (_object_map c) (_lru_list c);
  size_bound : _cache_size c ≤ _cache_max_size c < 2 ^ 63
}.

(** An object that the cache can hold. *)
Definition fits (c : object_cache) (k : bytes) (v : option bytes) : Prop :=
  Z.of_nat (length k) + Z.of_nat (length (default [] v)) < 2 ^ 63 ∧ entry_size k v ≤ _cache_max_size c.

Lemma entry_size_pos k v : 2 ≤ entry_size k v.
Proof. unfold entry_size. lia. Qed.

Lemma cost_pos m k : 2 ≤ cost m k.
Proof. apply entry_size_pos. Qed.

Lemma cost_nonneg m l : 0 ≤ total m l.
Proof. induction l as [|k l IH]; simpl; [lia|]. pose proof (cost_pos m k). lia. Qed.

Lemma total_ext m m' l : (∀ k, k ∈ l → m !! k = m' !! k) → total m l = total m' l.
Proof.
  induction l as [|k l IH]; intros Hm; simpl; [reflexivity|]. unfold cost. rewrite Hm by set_solver.
  rewrite IH; [reflexivity|]. set_solver.
Qed.

Lemma list_erase_elem k k' l : k' ∈ list_erase k l ↔ k' ≠ k ∧ k' ∈ l.
Proof. unfold list_erase. by rewrite list_elem_of_filter. Qed.

Lemma list_erase_absent k l : k ∉ l → list_erase k l = l.
Proof. intros Hk. apply filter_all. intros x Hx ->. done. Qed.

Lemma list_erase_cons k x l : list_erase k (x :: l) = if decide (x = k) then list_erase k l else x :: list_erase k l.
Proof. unfold list_erase. rewrite filter_cons. destruct (decide (x = k)); destruct (decide (x ≠ k)); tauto. Qed.

Lemma total_erase m k l : NoDup l → k ∈ l → total m l = cost m k + total m (list_erase k l).
Proof.
  induction l as [|x l IH]; [set_solver|]. intros [Hx Hl]%NoDup_cons Hk. rewrite list_erase_cons. simpl.
  destruct (decide (x = k)) as [->|Hne].
  - by rewrite list_erase_absent.
  - simpl. rewrite IH by set_solver. lia.
Qed.

Lemma remove_keys k c : _object_map (remove k c) = delete k (_object_map c).
Proof.
  unfold remove. destruct (_object_map c !! k) eqn:Hk; [reflexivity|]. by rewrite delete_id.
Qed.

Lemma remove_max k c : _cache_max_size (remove k c) = _cache_max_size c.
Proof. unfold remove. by destruct (_object_map c !! k). Qed.

Lemma remove_list k c : cache_ok c → _lru_list (remove k c) = list_erase k (_lru_list c).
Proof.
  intros [_ Hkeys _ _]. unfold remove. destruct (_object_map c !! k) eqn:Hk; [reflexivity|].
  rewrite list_erase_absent; [reflexivity|]. rewrite Hkeys, Hk. by intros [? ?].
Qed.

Lemma remove_ok k c : cache_ok c → cache_ok (remove k c).
Proof.
  intros Hok. pose proof Hok as [Hnd Hkeys Hsize Hbound]. split.
  - rewrite remove_list by done. by apply NoDup_filter.
  - intros k'. rewrite remove_list, remove_keys, list_erase_elem, lookup_delete_is_Some, Hkeys by done. naive_solver.
  - rewrite remove_list, remove_keys by done. unfold remove. destruct (_object_map c !! k) as [v|] eqn:Hk; simpl.
    + assert (k ∈ _lru_list c) as Hin by (apply Hkeys; by eexists).
      pose proof (total_erase (_object_map c) k _ Hnd Hin) as Ht. unfold cost in Ht at 1. rewrite Hk in Ht. simpl in Ht.
      pose proof (cost_nonneg (_object_map c) (list_erase k (_lru_list c))).
      rewrite (total_ext (delete k (_object_map c)) (_object_map c)).
      * pose proof (entry_size_pos k v). unfold u64. rewrite wrap_small by lia. lia.
      * intros k' [Hne _]%list_erase_elem. by rewrite lookup_delete_ne.
    + rewrite delete_id by done. rewrite list_erase_absent; [done|]. rewrite Hkeys, Hk. by intros [? ?].
  - rewrite remove_max. unfold remove. destruct (_object_map c !! k) as [v|] eqn:Hk; simpl; [|done].
    assert (k ∈ _lru_list c) as Hin by (apply Hkeys; by eexists).
    pose proof (total_erase (_object_map c) k _ Hnd Hin) as Ht. unfold cost in Ht at 1. rewrite Hk in Ht. simpl in Ht.
    pose proof (cost_nonneg (_object_map c) (list_erase k (_lru_list c))). pose proof (entry_size_pos k v).
    unfold u64. rewrite wrap_small by lia. lia.
Qed.

Lemma remove_last_list k c :
  cache_ok c → last (_lru_list c) = Some k → _lru_list (remove k c) = take (pred (length (_lru_list c))) (_lru_list c).
Proof.
  intros Hok Hl. rewrite remove_list by done. destruct Hok as [Hnd _ _ _].
  apply last_Some in Hl as [l Hl]. rewrite Hl in *. apply NoDup_app in Hnd as (_ & Hnd & _).
  rewrite length_app, Nat.add_comm. simpl. rewrite take_app_length. unfold list_erase.
  rewrite filter_app, filter_cons, decide_False by tauto. simpl. rewrite app_nil_r. apply filter_all.
  intros x Hx ->. exact (Hnd k Hx (list_elem_of_here _ _)).
Qed.

(** The least recent entries are removed, until there is room. *)
Lemma make_room_spec fuel size c :
  cache_ok c → 0 ≤ size ≤ _cache_max_size c → (length (_lru_list c) < fuel)%nat →
  ∃ c' n, make_room fuel size c = Some c' ∧ cache_ok c' ∧ _lru_list c' = take n (_lru_list c) ∧
    _cache_max_size c' = _cache_max_size c ∧ _cache_size c' + size ≤ _cache_max_size c ∧
    ∀ k, k ∈ _lru_list c' → _object_map c' !! k = _object_map c !! k.
Proof.
  revert c. induction fuel as [|fuel IH]; intros c Hok Hsize Hfuel; [lia|]. simpl.
  pose proof Hok as [_ _ Htot Hbound]. pose proof (cost_nonneg (_object_map c) (_lru_list c)).
  unfold u64. rewrite wrap_small by lia. destruct (Z.ltb_spec (_cache_max_size c) (_cache_size c + size)) as [Hfull|Hroom].
  - destruct (last (_lru_list c)) as [k|] eqn:Hl.
    + pose proof (remove_last_list k c Hok Hl) as Hlist.
      destruct (IH (remove k c)) as (c' & n & Hr & Hok' & Hl' & Hmax & Hfit & Hm).
      * by apply remove_ok.
      * by rewrite remove_max.
      * rewrite Hlist, length_take. destruct (_lru_list c); [done|simpl in *; lia].
      * exists c', (n `min` pred (length (_lru_list c)))%nat. rewrite Hr. rewrite remove_max in Hmax, Hfit.
        split_and!; [done|done|by rewrite Hl', Hlist, take_take|done|done|].
        intros x Hx. rewrite Hm by done. rewrite remove_keys.
        assert (x ≠ k) as Hne; [|by rewrite lookup_delete_ne].
        rewrite Hl' in Hx. apply (subseteq_take n) in Hx. rewrite remove_list in Hx by done.
        by apply list_erase_elem in Hx as [? _].
    + apply last_None in Hl. rewrite Hl in Htot. simpl in Htot. lia.
  - exists c, (length (_lru_list c)). rewrite firstn_all. by split_and!.
Qed.

(** Putting an object that fits keeps the invariant: the object is the most
    recent, and of the others the least recent may be gone. *)
Lemma cache_put_spec k v c :
  cache_ok c → fits c k v →
  ∃ c' n, put k v c = Some c' ∧ cache_ok c' ∧ _cache_max_size c' = _cache_max_size c ∧
    _lru_list c' = k :: take n (list_erase k (_lru_list c)) ∧ _object_map c' !! k = Some v ∧
    ∀ k', k' ≠ k → _object_map c' !! k' = None ∨ _object_map c' !! k' = _object_map c !! k'.
Proof.
  intros Hok [_ Hfit]. unfold put. pose proof (entry_size_pos k v).
  destruct (make_room_spec (S (length (_lru_list (remove k c)))) (entry_size k v) (remove k c))
    as (c1 & n & Hr & [Hnd Hkeys Htot Hbound] & Hl & Hmax & Hroom & Hm).
  - by apply remove_ok.
  - rewrite remove_max. lia.
  - lia.
  - rewrite Hr. eexists _, n. split; [reflexivity|]. rewrite remove_list in Hl by done. rewrite remove_max in Hmax, Hroom.
    assert (k ∉ _lru_list c1) as Hk.
    { rewrite Hl. intros Hin%(subseteq_take n). by apply list_erase_elem in Hin as [? _]. }
    pose proof (cost_nonneg (_object_map c1) (_lru_list c1)).
    assert (u64 (_cache_size c1 + entry_size k v) = _cache_size c1 + entry_size k v) as Hu.
    { unfold u64. apply wrap_small. lia. }
    split_and!; simpl; [split; simpl|done|by rewrite Hl|by rewrite lookup_insert_eq|].
    + by apply NoDup_cons.
    + intros k'. rewrite elem_of_cons, Hkeys. destruct (decide (k' = k)) as [->|Hne].
      * rewrite lookup_insert_eq. split; [by eexists|by left].
      * rewrite lookup_insert_ne by done. naive_solver.
    + rewrite Hu. unfold cost at 1. rewrite lookup_insert_eq. simpl. rewrite Htot.
      rewrite (total_ext (<[k := v]> (_object_map c1)) (_object_map c1)); [lia|].
      intros k' Hk'. rewrite lookup_insert_ne; [done|]. by intros ->.
    + rewrite Hu. lia.
    + intros k' Hne. rewrite lookup_insert_ne by done. destruct (decide (k' ∈ _lru_list c1)) as [Hin|Hnin].
      * right. rewrite Hm, remove_keys by done. by rewrite lookup_delete_ne.
      * left. rewrite Hkeys in Hnin. by apply eq_None_not_Some.
Qed.

Lemma cache_get_spec k c :
  cache_ok c → (get k c).1 = _object_map c !! k ∧ cache_ok (get k c).2 ∧
    _object_map (get k c).2 = _object_map c ∧ _cache_max_size (get k c).2 = _cache_max_size c.
Proof.
  intros Hok. pose proof Hok as [Hnd Hkeys Htot Hbound]. unfold get.
  destruct (_object_map c !! k) as [v|] eqn:Hk; simpl; [|done].
  assert (k ∈ _lru_list c) as Hin by (apply Hkeys; by eexists).
  split_and!; [done|split; simpl|by rewrite insert_id|done].
  - apply NoDup_cons. split; [by rewrite list_erase_elem; intros [? _]|by apply NoDup_filter].
  - intros k'. rewrite elem_of_cons, list_erase_elem, insert_id, Hkeys by done. destruct (decide (k' = k)) as [->|]; naive_solver.
  - rewrite insert_id by done. rewrite Htot. by apply total_erase.
  - done.
Qed.

(** A cache that was cleared keeps its size: where the next object does not
    fit beside what was there before, [back()] of the empty list is taken. *)
Lemma cleared_put_undefined c k v :
  0 ≤ _cache_size c < 2 ^ 63 → entry_size k v < 2 ^ 63 → _cache_max_size c < _cache_size c + entry_size k v →
  put k v (clear c) = None.
Proof.
  intros Hs He Hm. pose proof (entry_size_pos k v). unfold put.
  assert (remove k (clear c) = clear c) as -> by (unfold remove, clear; simpl; by rewrite lookup_empty).
  simpl. unfold u64. rewrite wrap_small by lia. by rewrite (proj2 (Z.ltb_lt _ _)) by lia.
Qed.

Lemma new_ok n : 0 ≤ n < 2 ^ 63 → cache_ok (new n).
Proof. intros Hn. split; simpl; [constructor|intros k; rewrite lookup_empty; split; [set_solver|by intros [? ?]]|done|lia]. Qed.

End CacheFacts.

(** ** The backend *)

Module RocksFacts.
Import RocksBackend CacheFacts.
Import (hints) RocksBackend.

(** A write as it changes a column. *)
Definition apply_write (c : column) (m : gmap bytes bytes) (w : write) : gmap bytes bytes :=
  match w with
  | write_put c' k v => if decide (c' = c) then <[k := v]> m else m
  | write_delete c' k => if decide (c' = c) then delete k m else m
  end.

Definition apply_writes (c : column) (m : gmap bytes bytes) (l : list write) : gmap bytes bytes := foldl (apply_write c) m l.

(** What is written is read and iterated over, a batch as a whole or not at
    all, and a failed write changes nothing that is read.  What a synced write
    wrote survives a crash, with all that was there before it; of another
    batch, a failed one too, everything survives or nothing does. *)
Class RocksDatabaseLaws `{!RocksDatabase} := {
  Get_Found db c k v : Get db c k = Found v → contents db c !! k = Some v;
  Get_NotFound db c k : Get db c k = NotFound → contents db c !! k = None;
  Put_contents db c k v s db' c' : Put db c k v = (s, db') →
    contents db' c' = if is_ok s then apply_write c' (contents db c') (write_put c k v) else contents db c';
  Delete_contents db c k s db' c' : Delete db c k = (s, db') →
    contents db' c' = if is_ok s then apply_write c' (contents db c') (write_delete c k) else contents db c';
  Write_contents y db l s db' c' : Write y db l = (s, db') →
    contents db' c' = if is_ok s then apply_writes c' (contents db c') l else contents db c';
  Flush_contents db c c' : contents (Flush db c) c' = contents db c';
  Write_synced db l s db' db'' c : Write true db l = (s, db') → is_ok s = true → survives db' db'' →
    contents db'' c = contents db' c;
  Write_atomic y db l s db' db'' : Write y db l = (s, db') → survives db' db'' →
    (∃ db0, survives db db0 ∧ ∀ c, contents db'' c = contents db0 c) ∨
    (∀ c, contents db'' c = apply_writes c (contents db c) l)
}.

Section Facts.
Context `{Y : !Crypto} `{D : !RocksDatabase} `{V : !MetadataConverter} `{W : !RocksDatabaseLaws}.

(** No read of an object fails: a failure is taken for an absent object. *)
Definition reads_succeed : Prop := ∀ db k message, Get db objects_column k ≠ GetError message.

(** An object that the cache can hold. *)
Definition small (k : bytes) (v : option bytes) : Prop :=
  Z.of_nat (length k) + Z.of_nat (length (default [] v)) ≤ cache_size.

(** The database with the batch written over it. *)
Definition view (b : rocksdb_backend) (c : column) : gmap bytes bytes :=
  apply_writes c (contents (database b) c) (default [] (_write_batch b)).

(** The map backend that an open backend stands for, but for what the cache
    says of the key [o]. *)
Record represents_but (o : option bytes) (b : rocksdb_backend) (m : MapBackend.map_backend) : Prop := {
  rep_open : _open b = true;
  rep_cache : cache_ok (_cache b);
  rep_max : ObjectCache._cache_max_size (_cache b) = cache_size;
  rep_cached k v : o ≠ Some k → ObjectCache._object_map (_cache b) !! k = Some v → v = MapBackend._map m !! k;
  rep_view : view b objects_column = MapBackend._map m;
  rep_size : _size b = u64 (MapBackend.size_ m);
  rep_metadata : _metadata b =
    mk_metadata (MapBackend._revision m) (MapBackend._id m) (MapBackend._merkle_root m) (MapBackend._header m);
  rep_small k v : MapBackend._map m !! k = Some v → small k (Some v)
}.

Abbreviation represents := (represents_but None).

(** A key whose object the batch does not hide from a read: it is in the
    cache, or the batch leaves it as it is. *)
Definition settled (b : rocksdb_backend) (k : bytes) : Prop :=
  is_Some (ObjectCache._object_map (_cache b) !! k) ∨
  contents (database b) objects_column !! k = view b objects_column !! k.

(** All but the cache. *)
Definition same (b b' : rocksdb_backend) : Prop := ∃ c, b' = set_cache c b.

Lemma small_fits c k v : ObjectCache._cache_max_size c = cache_size → small k v → fits c k v.
Proof.
  unfold small, fits, ObjectCache.entry_size. intros -> Hs. change cache_size with 67108864 in *. split; [lia|].
  unfold u64. rewrite wrap_small by lia. lia.
Qed.

(** The cache may change as long as it stays true. *)
Lemma represents_cache o b m c :
  represents_but o b m → cache_ok c → ObjectCache._cache_max_size c = cache_size →
  (∀ k v, ObjectCache._object_map c !! k = Some v → v = MapBackend._map m !! k) → represents (set_cache c b) m.
Proof. intros [Ho _ _ _ Hv Hs Hm Hf] Hc Hmax Hk. split; simpl; auto. Qed.

Lemma cache_put_run b m k :
  represents_but (Some k) b m → small k (MapBackend._map m !! k) →
  ∃ c, cache_put k (MapBackend._map m !! k) b = (Ok tt, set_cache c b) ∧ represents (set_cache c b) m ∧
    ObjectCache._object_map c !! k = Some (MapBackend._map m !! k).
Proof.
  intros Hrep Hs. pose proof Hrep as [_ Hc Hmax Hk _ _ _ _].
  destruct (cache_put_spec k (MapBackend._map m !! k) (_cache b) Hc) as (c & n & Hput & Hc' & Hmax' & _ & Hkc & Hother);
    [by apply small_fits|].
  exists c. unfold cache_put. rewrite Hput. split; [reflexivity|]. split; [|exact Hkc].
  eapply represents_cache; [done|done|congruence|]. intros k' v' Hv'. destruct (decide (k' = k)) as [->|Hne]; [congruence|].
  destruct (Hother k' Hne) as [Hn|He]; [congruence|]. apply Hk; [|by rewrite <- He]. by intros [= ->].
Qed.

Lemma represents_weaken o b m : represents b m → represents_but o b m.
Proof. intros [? ? ? ? ? ? ? ?]. split; auto. Qed.

Lemma rep_small_lookup b m k : represents b m → small k None → small k (MapBackend._map m !! k).
Proof. intros Hrep Hk. destruct (MapBackend._map m !! k) eqn:Hm; [by eapply rep_small|done]. Qed.

(** A read returns the object, which is in the cache from then on. *)
Lemma rocks_get_run b m k :
  reads_succeed → represents b m → small k None → settled b k →
  ∃ c, get k b = (Ok (MapBackend._map m !! k), set_cache c b) ∧ represents (set_cache c b) m ∧
    ObjectCache._object_map c !! k = Some (MapBackend._map m !! k).
Proof.
  intros Hreads Hrep Hk Hset. pose proof (rep_small_lookup b m k Hrep Hk) as Hs.
  pose proof Hrep as [Ho Hc Hmax Hcached Hview _ _ _].
  destruct (cache_get_spec k (_cache b) Hc) as (Hg1 & Hok1 & Hm1 & Hmax1).
  unfold get, assert_open, cache_get, mbind, R_bind, prog_bind, gets_state, assert_that. rewrite Ho. simpl.
  destruct (ObjectCache.get k (_cache b)) as [hit c1]. simpl in *. subst hit.
  assert (represents (set_cache c1 b) m) as Hrep1.
  { eapply represents_cache; [done|done|congruence|]. rewrite Hm1. intros k' v'. by apply Hcached. }
  destruct (ObjectCache._object_map (_cache b) !! k) as [v|] eqn:Hhit.
  - pose proof (Hcached k v ltac:(done) Hhit) as ->. exists c1. split; [reflexivity|]. split; [done|congruence].
  - destruct Hset as [[? ?]|Hset]; [congruence|]. rewrite Hview in Hset.
    assert (∀ o, o = MapBackend._map m !! k → ∃ c, (cache_put k o ≫= λ _, mret o) (set_cache c1 b) =
      (Ok (MapBackend._map m !! k), set_cache c b) ∧ represents (set_cache c b) m ∧
      ObjectCache._object_map c !! k = Some (MapBackend._map m !! k)) as Hload.
    { intros o ->. destruct (cache_put_run (set_cache c1 b) m k (represents_weaken _ _ _ Hrep1) Hs) as (c & Hrun & Hrep2 & Hkc).
      exists c. unfold mbind, R_bind, prog_bind. rewrite Hrun. by split_and!. }
    change (database (set_cache c1 b)) with (database b).
    destruct (Get (database b) objects_column k) as [v| |msg] eqn:Hget.
    + apply Get_Found in Hget. apply (Hload (Some v)). congruence.
    + apply Get_NotFound in Hget. apply (Hload None). congruence.
    + by apply Hreads in Hget.
Qed.

(** All but the database and the batch. *)
Record same_rest (b b' : rocksdb_backend) : Prop := {
  same_open : _open b' = _open b;
  same_borrowed : _borrowed b' = _borrowed b;
  same_force : _force_async_writes b' = _force_async_writes b;
  same_cache : _cache b' = _cache b;
  same_size : _size b' = _size b;
  same_metadata : _metadata b' = _metadata b
}.

Lemma view_snoc b b' c w :
  database b' = database b → _write_batch b' = (λ l, l ++ [w]) <$> _write_batch b → is_Some (_write_batch b) →
  view b' c = apply_write c (view b c) w.
Proof.
  unfold view. intros -> -> [l ->]. simpl. unfold apply_writes. by rewrite foldl_app.
Qed.

(** A write is in the view; one that fails is not, and is not in a batch. *)
Lemma write_one_run b w f :
  (∀ db s db' c, f db = (s, db') → contents db' c = if is_ok s then apply_write c (contents db c) w else contents db c) →
  (∃ b', write_one w f b = (Ok tt, b') ∧ same_rest b b' ∧ (∀ c, view b' c = apply_write c (view b c) w) ∧
     (is_Some (_write_batch b) → database b' = database b) ∧ _write_batch b' = (λ l, l ++ [w]) <$> _write_batch b) ∨
  (∃ b', write_one w f b = (Throw rocksdb_write_exception, b') ∧ same_rest b b' ∧ _write_batch b = None ∧
     _write_batch b' = None ∧ ∀ c, contents (database b') c = contents (database b) c).
Proof.
  intros Hf. unfold write_one, mbind, R_bind, prog_bind, gets_state.
  destruct (_write_batch b) as [l|] eqn:Hbatch.
  - left. eexists. split; [reflexivity|]. split; [by split|]. split; [|done].
    intros c. apply view_snoc; [done|by rewrite Hbatch|by rewrite Hbatch; eexists].
  - unfold on_database. destruct (f (database b)) as [s db'] eqn:Hdb.
    destruct (is_ok s) eqn:Hok; simpl.
    + left. eexists. split; [reflexivity|]. split; [by split|]. split; [|by split; [intros [? ?]|]].
      intros c. unfold view. simpl. rewrite Hbatch. simpl. rewrite (Hf _ _ _ _ Hdb), Hok. reflexivity.
    + right. eexists. split; [reflexivity|]. split; [by split|]. split; [done|]. split; [done|].
      intros c. simpl. by rewrite (Hf _ _ _ _ Hdb), Hok.
Qed.

(** What [put] and [erase] share. *)
Lemma modify_run b m m' k w f adjust v :
  reads_succeed → represents b m → small k None → small k v → settled b k →
  (∀ db s db' c, f db = (s, db') → contents db' c = if is_ok s then apply_write c (contents db c) w else contents db c) →
  apply_write objects_column (MapBackend._map m) w = MapBackend._map m' →
  MapBackend._map m' !! k = v → (∀ k', k' ≠ k → MapBackend._map m' !! k' = MapBackend._map m !! k') →
  (∀ b, _size b = u64 (MapBackend.size_ m) →
     adjust (MapBackend._map m !! k) b = (Ok tt, set_size (u64 (MapBackend.size_ m')) b)) →
  mk_metadata (MapBackend._revision m') (MapBackend._id m') (MapBackend._merkle_root m') (MapBackend._header m') =
    mk_metadata (MapBackend._revision m) (MapBackend._id m) (MapBackend._merkle_root m) (MapBackend._header m) →
  let run := (assert_open;; o ← get k; write_one w f;; adjust o;; cache_put k v) b in
  (∃ b', run = (Ok tt, b') ∧ represents b' m' ∧ (∀ c, view b' c = apply_write c (view b c) w) ∧
     (is_Some (_write_batch b) → database b' = database b) ∧ _write_batch b' = (λ l, l ++ [w]) <$> _write_batch b ∧
     _force_async_writes b' = _force_async_writes b ∧ _borrowed b' = _borrowed b) ∨
  (∃ b', run = (Throw rocksdb_write_exception, b') ∧ represents b' m ∧ _write_batch b = None ∧
     ∀ c, contents (database b') c = contents (database b) c).
Proof.
  intros Hreads Hrep Hk Hkv Hset Hf Hmap Hv Hother Hadjust Hmeta.
  destruct (rocks_get_run b m k Hreads Hrep Hk Hset) as (c & Hget & Hrep1 & Hkc).
  pose proof Hrep1 as [Ho Hc Hmax Hcached Hview Hsize Hmd Hsmall].
  assert (∀ B (n : R B), (assert_open ≫= λ _, n) b = n b) as Hopen.
  { intros B n. unfold assert_open, mbind, R_bind, prog_bind, gets_state, assert_that. simpl in Ho. by rewrite Ho. }
  cbv zeta. rewrite !Hopen. unfold mbind, R_bind, prog_bind. rewrite !Hget.
  destruct (write_one_run (set_cache c b) w f Hf) as [(b2 & Hw & [S1 S2 S3 S4 S5 S6] & Hview2 & Hdb & Hbatch)|
    (b2 & Hw & [S1 S2 S3 S4 S5 S6] & Hnone & Hnone2 & Hcont)].
  - left. rewrite Hw. rewrite Hadjust by congruence.
    assert (represents_but (Some k) (set_size (u64 (MapBackend.size_ m')) b2) m') as Hrep3.
    { split; simpl; rewrite ?S1, ?S4, ?S6; try done.
      - intros k' v' Hne Hv'. rewrite Hother by congruence. by apply Hcached.
      - change (view (set_size _ b2) objects_column) with (view b2 objects_column). by rewrite Hview2, Hview, Hmap.
      - by rewrite Hmeta.
      - intros k' v' Hv'. destruct (decide (k' = k)) as [->|Hne]; [by rewrite <- Hv', Hv|].
        apply Hsmall. by rewrite <- Hother. }
    rewrite <- Hv in Hkv |- *. destruct (cache_put_run _ _ _ Hrep3 Hkv) as (c3 & Hput & Hrep4 & _).
    eexists. split; [exact Hput|]. split; [exact Hrep4|]. by split_and!.
  - right. rewrite Hw. exists b2. split; [reflexivity|]. split; [|by split].
    split; rewrite ?S1, ?S4, ?S5, ?S6; try done.
    unfold view in *. rewrite Hnone2. simpl. rewrite Hcont. simpl in *. by rewrite Hnone in Hview.
Qed.

Lemma set_size_same n b : _size b = n → set_size n b = b.
Proof. intros <-. by destruct b. Qed.

Lemma u64_succ n : u64 (u64 n + 1) = u64 (n + 1).
Proof. unfold u64, wrap. rewrite Zplus_mod_idemp_l. reflexivity. Qed.

Lemma u64_pred n : u64 (u64 n - 1) = u64 (n - 1).
Proof. unfold u64, wrap. rewrite Zminus_mod_idemp_l. reflexivity. Qed.

Lemma rocks_put_run b m k v :
  reads_succeed → represents b m → small k None → small k (Some v) → settled b k →
  (∃ b', put k v b = (Ok tt, b') ∧ represents b' (MapBackend.put k v m) ∧
     (∀ c, view b' c = apply_write c (view b c) (write_put objects_column k v)) ∧
     (is_Some (_write_batch b) → database b' = database b) ∧
     _write_batch b' = (λ l, l ++ [write_put objects_column k v]) <$> _write_batch b ∧
     _force_async_writes b' = _force_async_writes b ∧ _borrowed b' = _borrowed b) ∨
  (∃ b', put k v b = (Throw rocksdb_write_exception, b') ∧ represents b' m ∧ _write_batch b = None ∧
     ∀ c, contents (database b') c = contents (database b) c).
Proof.
  intros Hreads Hrep Hk Hkv Hset.
  apply (modify_run b m (MapBackend.put k v m) k (write_put objects_column k v) (λ db, Put db objects_column k v)
    (λ o, match o with None => mod_state (λ b, set_size (u64 (_size b + 1)) b) | Some _ => mret tt end) (Some v)); try done.
  - intros db s db' c. apply Put_contents.
  - simpl. by rewrite lookup_insert_eq.
  - intros k' Hne. simpl. by rewrite lookup_insert_ne.
  - intros b1 Hs. unfold MapBackend.size_ in *. simpl. destruct (MapBackend._map m !! k) eqn:Hm.
    + rewrite map_size_insert_Some by (by eexists). by rewrite set_size_same.
    + rewrite map_size_insert_None by done. unfold mod_state. rewrite Hs, u64_succ. do 3 f_equal. lia.
Qed.

Lemma rocks_erase_run b m k :
  reads_succeed → represents b m → small k None → settled b k →
  (∃ b', erase k b = (Ok tt, b') ∧ represents b' (MapBackend.erase k m) ∧
     (∀ c, view b' c = apply_write c (view b c) (write_delete objects_column k)) ∧
     (is_Some (_write_batch b) → database b' = database b) ∧
     _write_batch b' = (λ l, l ++ [write_delete objects_column k]) <$> _write_batch b ∧
     _force_async_writes b' = _force_async_writes b ∧ _borrowed b' = _borrowed b) ∨
  (∃ b', erase k b = (Throw rocksdb_write_exception, b') ∧ represents b' m ∧ _write_batch b = None ∧
     ∀ c, contents (database b') c = contents (database b) c).
Proof.
  intros Hreads Hrep Hk Hset.
  apply (modify_run b m (MapBackend.erase k m) k (write_delete objects_column k) (λ db, Delete db objects_column k)
    (λ o, match o with Some _ => mod_state (λ b, set_size (u64 (_size b - 1)) b) | None => mret tt end) None); try done.
  - intros db s db' c. apply Delete_contents.
  - simpl. by rewrite lookup_delete_eq.
  - intros k' Hne. simpl. by rewrite lookup_delete_ne.
  - intros b1 Hs. unfold MapBackend.size_ in *. simpl. destruct (MapBackend._map m !! k) eqn:Hm.
    + rewrite map_size_delete_Some by (by eexists). unfold mod_state. rewrite Hs, u64_pred.
      assert (size (MapBackend._map m) ≠ 0%nat) by (intros He%map_size_empty_iff; by rewrite He, lookup_empty in Hm).
      do 3 f_equal. lia.
    + rewrite map_size_delete_None by done. by rewrite set_size_same.
Qed.

(** *** Batches *)

(** All but the number of objects. *)
Definition holds_but (o : option bytes) (b : rocksdb_backend) (m : MapBackend.map_backend) : Prop :=
  represents_but o (set_size (u64 (MapBackend.size_ m)) b) m.

Abbreviation holds := (holds_but None).

Lemma holds_sized b m : holds b m → _size b = u64 (MapBackend.size_ m) → represents b m.
Proof. intros Hh Hs. unfold holds_but in Hh. by rewrite set_size_same in Hh. Qed.

Lemma represents_holds b m : represents b m → holds b m.
Proof. intros Hrep. unfold holds_but. by rewrite set_size_same by apply Hrep. Qed.

(** No object of the database is too large for the cache. *)
Definition database_small (db : DB) : Prop := ∀ k v, contents db objects_column !! k = Some v → small k (Some v).

(** A read in a batch may return what was there before the batch. *)
Lemma rocks_get_any b m k :
  reads_succeed → database_small (database b) → holds b m → small k None →
  ∃ o c, get k b = (Ok o, set_cache c b) ∧ holds_but (Some k) (set_cache c b) m.
Proof.
  intros Hreads Hdb Hrep Hk. pose proof Hrep as [Ho Hc Hmax Hcached Hview Hsize Hmd Hsmall]. simpl in *.
  destruct (cache_get_spec k (_cache b) Hc) as (Hg1 & Hok1 & Hm1 & Hmax1).
  unfold get, assert_open, cache_get, mbind, R_bind, prog_bind, gets_state, assert_that. rewrite Ho. simpl.
  destruct (ObjectCache.get k (_cache b)) as [hit c1]. simpl in *. subst hit.
  assert (∀ c, cache_ok c → ObjectCache._cache_max_size c = cache_size →
    (∀ k' v, k' ≠ k → ObjectCache._object_map c !! k' = Some v → v = MapBackend._map m !! k') →
    holds_but (Some k) (set_cache c b) m) as Hset.
  { intros c Hc' Hmax' Hk'. split; simpl; auto. intros k' v Hne. apply Hk'. congruence. }
  destruct (ObjectCache._object_map (_cache b) !! k) as [v|] eqn:Hhit.
  - exists v, c1. split; [reflexivity|]. apply Hset; [done|congruence|]. rewrite Hm1. intros k' v' _. by apply Hcached.
  - assert (∀ o, small k o → ∃ c, (cache_put k o ≫= λ _, mret o) (set_cache c1 b) = (Ok o, set_cache c b) ∧
      holds_but (Some k) (set_cache c b) m) as Hload.
    { intros o Hs. destruct (cache_put_spec k o c1 Hok1) as (c & n & Hput & Hc' & Hmax' & _ & _ & Hother);
        [apply small_fits; [congruence|done]|].
      exists c. unfold cache_put, mbind, R_bind, prog_bind. simpl. rewrite Hput. split; [reflexivity|].
      apply Hset; [done|congruence|]. intros k' v Hne Hv. apply Hcached; [done|]. rewrite <- Hm1.
      destruct (Hother k' Hne) as [Hn|He]; [congruence|by rewrite <- He]. }
    change (database (set_cache c1 b)) with (database b).
    destruct (Get (database b) objects_column k) as [v| |msg] eqn:Hget.
    + apply Get_Found in Hget. destruct (Hload (Some v) (Hdb _ _ Hget)) as (c & ? & ?). by exists (Some v), c.
    + destruct (Hload None Hk) as (c & ? & ?). by exists None, c.
    + by apply Hreads in Hget.
Qed.

Inductive edit : Type := edit_put (k v : bytes) | edit_erase (k : bytes).

Definition edit_key (e : edit) : bytes := match e with edit_put k _ | edit_erase k => k end.
Definition edit_value (e : edit) : option bytes := match e with edit_put _ v => Some v | edit_erase _ => None end.
Definition edit_write (e : edit) : write :=
  match e with edit_put k v => write_put objects_column k v | edit_erase k => write_delete objects_column k end.
Definition edit_small (e : edit) : Prop := small (edit_key e) (edit_value e).

Definition run_edit (e : edit) : R unit := match e with edit_put k v => put k v | edit_erase k => erase k end.
Definition apply_edit (m : MapBackend.map_backend) (e : edit) : MapBackend.map_backend :=
  match e with edit_put k v => MapBackend.put k v m | edit_erase k => MapBackend.erase k m end.

Fixpoint run_edits (l : list edit) : R unit := match l with [] => mret tt | e :: l => run_edit e;; run_edits l end.

(** The number of objects is counted right where each key that is written
    again is still in the cache, or has the object that it had. *)
Fixpoint counted (l : list edit) (b : rocksdb_backend) : Prop :=
  match l with [] => True | e :: l => settled b (edit_key e) ∧ counted l (run_edit e b).2 end.

Lemma edit_small_key e : edit_small e → small (edit_key e) None.
Proof. unfold edit_small, small. destruct e; simpl; lia. Qed.

Lemma map_edit_lookup m e k :
  MapBackend._map (apply_edit m e) !! k = if decide (k = edit_key e) then edit_value e else MapBackend._map m !! k.
Proof.
  destruct e as [k' v|k']; simpl; destruct (decide (k = k')) as [->|Hne];
    rewrite ?lookup_insert_eq, ?lookup_delete_eq, ?lookup_insert_ne, ?lookup_delete_ne by done; done.
Qed.

Lemma map_edit_apply m e : apply_write objects_column (MapBackend._map m) (edit_write e) = MapBackend._map (apply_edit m e).
Proof. by destruct e. Qed.

(** What the run of an edit does after the read. *)
Definition finish_edit (e : edit) (o : option bytes) : R unit :=
  match e with
  | edit_put k v =>
    write_one (write_put objects_column k v) (λ db, Put db objects_column k v);;
    (match o with None => mod_state (λ b, set_size (u64 (_size b + 1)) b) | Some _ => mret tt end);;
    cache_put k (Some v)
  | edit_erase k =>
    write_one (write_delete objects_column k) (λ db, Delete db objects_column k);;
    (match o with Some _ => mod_state (λ b, set_size (u64 (_size b - 1)) b) | None => mret tt end);;
    cache_put k None
  end.

Lemma run_edit_read e b : _open b = true → run_edit e b = (o ← get (edit_key e); finish_edit e o) b.
Proof.
  intros Ho. destruct e; simpl; unfold put, erase, assert_open, mbind, R_bind, prog_bind, gets_state, assert_that;
    by rewrite Ho.
Qed.

(** In a batch the write goes to its end, and the cache knows the object. *)
Lemma finish_edit_run e o b l :
  _write_batch b = Some l →
  ∃ n, (is_u64 (_size b) → is_u64 n) ∧ finish_edit e o b =
    cache_put (edit_key e) (edit_value e) (set_size n (set_batch (Some (l ++ [edit_write e])) b)).
Proof.
  intros Hb. assert (∀ x, is_u64 (u64 x)) as Hu by (intros x; apply (wrap_range 64); lia).
  destruct e as [k v|k]; simpl; unfold write_one, mod_state, mbind, R_bind, prog_bind, gets_state; rewrite Hb; simpl; destruct o;
    first [exists (_size b); split; [done|reflexivity]|eexists; split; [|reflexivity]; intros _; apply Hu].
Qed.

Lemma run_edit_any b m e l :
  reads_succeed → database_small (database b) → holds b m → edit_small e → _write_batch b = Some l →
  ∃ b', run_edit e b = (Ok tt, b') ∧ holds b' (apply_edit m e) ∧ database b' = database b ∧
    _write_batch b' = Some (l ++ [edit_write e]) ∧ _force_async_writes b' = _force_async_writes b ∧
    (is_u64 (_size b) → is_u64 (_size b')).
Proof.
  intros Hreads Hdb Hrep Hsmall Hb.
  destruct (rocks_get_any b m (edit_key e) Hreads Hdb Hrep (edit_small_key e Hsmall)) as (o & c & Hget & Hrep1).
  rewrite run_edit_read by apply Hrep. unfold mbind, R_bind, prog_bind. rewrite Hget.
  destruct (finish_edit_run e o (set_cache c b) l Hb) as (n & Hn & ->).
  pose proof Hrep1 as [Ho Hc Hmax Hcached Hview Hsize Hmd Hsm]. simpl in *.
  destruct (cache_put_spec (edit_key e) (edit_value e) c Hc) as (c2 & n2 & Hput & Hc2 & Hmax2 & _ & Hkc & Hother);
    [by apply small_fits|].
  unfold cache_put. simpl. rewrite Hput. eexists. split; [reflexivity|]. split; [|by split_and!].
  split; simpl; try done.
  - congruence.
  - intros k v _ Hv. rewrite map_edit_lookup. destruct (decide (k = edit_key e)) as [->|Hne]; [congruence|].
    apply Hcached; [congruence|]. destruct (Hother k Hne) as [Hz|He]; [congruence|by rewrite <- He].
  - rewrite <- map_edit_apply, <- Hview. apply (view_snoc b); simpl; [done|by rewrite Hb|by rewrite Hb; eexists].
  - by destruct e.
  - intros k v. rewrite map_edit_lookup. destruct (decide (k = edit_key e)) as [->|Hne]; [|apply Hsm].
    intros Hv. unfold edit_small in Hsmall. by rewrite Hv in Hsmall.
Qed.

(** A settled key is also counted. *)
Lemma run_edit_settled b m e b' l :
  reads_succeed → represents b m → edit_small e → settled b (edit_key e) → _write_batch b = Some l →
  run_edit e b = (Ok tt, b') → _size b' = u64 (MapBackend.size_ (apply_edit m e)).
Proof.
  intros Hreads Hrep Hsmall Hset Hb Hrun. pose proof (edit_small_key e Hsmall) as Hk. destruct e as [k v|k]; simpl in *.
  - destruct (rocks_put_run b m k v Hreads Hrep Hk Hsmall Hset) as [(b2 & Hrun2 & Hrep2 & _)|(b2 & _ & _ & Hn & _)]; [|congruence].
    rewrite Hrun in Hrun2. injection Hrun2 as <-. apply Hrep2.
  - destruct (rocks_erase_run b m k Hreads Hrep Hk Hset) as [(b2 & Hrun2 & Hrep2 & _)|(b2 & _ & _ & Hn & _)]; [|congruence].
    rewrite Hrun in Hrun2. injection Hrun2 as <-. apply Hrep2.
Qed.

Lemma run_edits_any l : ∀ done_ b m,
  reads_succeed → database_small (database b) → holds b m → Forall edit_small l → _write_batch b = Some done_ →
  ∃ b', run_edits l b = (Ok tt, b') ∧ holds b' (foldl apply_edit m l) ∧ database b' = database b ∧
    _write_batch b' = Some (done_ ++ (edit_write <$> l)) ∧ _force_async_writes b' = _force_async_writes b ∧
    (is_u64 (_size b) → is_u64 (_size b')) ∧ (represents b m → counted l b → represents b' (foldl apply_edit m l)).
Proof.
  induction l as [|e l IH]; intros done_ b m Hreads Hdb Hrep Hsmall Hb; simpl.
  - exists b. rewrite app_nil_r. by split_and!.
  - inversion Hsmall as [|? ? He Hl]; subst.
    destruct (run_edit_any b m e done_ Hreads Hdb Hrep He Hb) as (b1 & Hrun & Hrep1 & Hdb1 & Hb1 & Hf1 & Hu1).
    destruct (IH (done_ ++ [edit_write e]) b1 (apply_edit m e)) as (b2 & Hrun2 & Hrep2 & Hdb2 & Hb2 & Hf2 & Hu2 & Hsz); try done;
      [by rewrite Hdb1|].
    exists b2. unfold mbind, R_bind, prog_bind. rewrite Hrun. rewrite <- app_assoc in Hb2.
    split_and!; [done|done|congruence|exact Hb2|congruence|auto|]. intros Hrepb [Hset Hcount]. apply Hsz; [|done].
    apply holds_sized; [done|]. by eapply run_edit_settled.
Qed.

(** A key that no write of the batch names is settled. *)
Lemma untouched_settled b (l : list edit) k :
  _write_batch b = Some (edit_write <$> l) → k ∉ edit_key <$> l → settled b k.
Proof.
  intros Hb Hk. right. unfold view. rewrite Hb. simpl. clear Hb. generalize (contents (database b) objects_column).
  induction l as [|e l IH]; intros m; [done|]. simpl in *. unfold apply_writes in *. simpl.
  rewrite <- IH by set_solver. destruct e as [k' v|k']; simpl in *.
  - rewrite lookup_insert_ne; [done|]. intros ->. set_solver.
  - rewrite lookup_delete_ne; [done|]. intros ->. set_solver.
Qed.

(** Where no key is written twice, the objects are counted right. *)
Lemma distinct_counted l : ∀ done_ b m,
  reads_succeed → database_small (database b) → holds b m → Forall edit_small l →
  NoDup (edit_key <$> (done_ ++ l)) → _write_batch b = Some (edit_write <$> done_) → counted l b.
Proof.
  induction l as [|e l IH]; intros done_ b m Hreads Hdb Hrep Hsmall Hnd Hb; simpl; [done|].
  inversion Hsmall as [|? ? He Hl]; subst. split.
  - eapply untouched_settled; [exact Hb|]. rewrite fmap_app in Hnd. apply NoDup_app in Hnd as (_ & Hnd & _).
    intros Hin. by apply (Hnd _ Hin); left.
  - destruct (run_edit_any b m e _ Hreads Hdb Hrep He Hb) as (b1 & Hrun & Hrep1 & Hdb1 & Hb1 & _). rewrite Hrun. simpl.
    eapply (IH (done_ ++ [e])); try done; [by rewrite Hdb1|by rewrite <- app_assoc|by rewrite Hb1, fmap_app].
Qed.

Definition metadata_of (m : MapBackend.map_backend) : metadata :=
  mk_metadata (MapBackend._revision m) (MapBackend._id m) (MapBackend._merkle_root m) (MapBackend._header m).

Definition metadata_writes (n : Z) (x : metadata) : list write :=
  [write_put metadata_column size_key (as_size n); write_put metadata_column revision_key (as_size (_revision x));
   write_put metadata_column id_key (as_multihash (_id x)); write_put metadata_column merkle_root_key (as_multihash (_merkle_root x));
   write_put metadata_column block_header_key (as_header (_header x))].

(** The database holds the state of a map backend, metadata included, and the
    number [n] of objects. *)
Record stored_count (n : Z) (db : DB) (m : MapBackend.map_backend) : Prop := {
  stored_objects : contents db objects_column = MapBackend._map m;
  stored_size : contents db metadata_column !! size_key = Some (as_size n);
  stored_revision : contents db metadata_column !! revision_key = Some (as_size (MapBackend._revision m));
  stored_id : contents db metadata_column !! id_key = Some (as_multihash (MapBackend._id m));
  stored_root : contents db metadata_column !! merkle_root_key = Some (as_multihash (MapBackend._merkle_root m));
  stored_header : contents db metadata_column !! block_header_key = Some (as_header (MapBackend._header m))
}.

Definition stored (db : DB) (m : MapBackend.map_backend) : Prop := stored_count (u64 (MapBackend.size_ m)) db m.

(** What is read now is what a crash leaves. *)
Definition durable (db : DB) : Prop := ∀ db' c, survives db db' → contents db' c = contents db c.

Lemma store_metadata_run b l :
  _open b = true → _write_batch b = Some l →
  store_metadata b = (Ok tt, set_batch (Some (l ++ metadata_writes (_size b) (_metadata b))) b).
Proof.
  intros Ho Hb. unfold store_metadata, put_metadata_value, write_one, assert_open, mbind, R_bind, prog_bind, gets_state, get_state,
    assert_that, mod_state, mret, R_ret, prog_ret.
  destruct b as [db o bo wb fa ca sz md]. simpl in *. subst o wb. simpl. rewrite <- !app_assoc. reflexivity.
Qed.

Lemma stored_after db m n l :
  apply_writes objects_column (contents db objects_column) l = MapBackend._map m →
  ∀ db', (∀ c, contents db' c = apply_writes c (contents db c) (l ++ metadata_writes n (metadata_of m))) → stored_count n db' m.
Proof.
  intros Hobj db' Hdb. unfold apply_writes in *.
  split; rewrite Hdb; unfold apply_writes; rewrite foldl_app; unfold metadata_writes; simpl;
    rewrite ?decide_False, ?decide_True by done; [done|..]; rewrite ?lookup_insert_ne by done; apply lookup_insert_eq.
Qed.

Lemma stored_ext n db db' m : (∀ c, contents db' c = contents db c) → stored_count n db m → stored_count n db' m.
Proof. intros He [? ? ? ? ? ?]. by split; rewrite He. Qed.

Lemma represents_fresh_batch b m :
  represents b m → _write_batch b = None → represents (set_batch (Some []) b) m.
Proof.
  intros [Ho Hc Hmax Hk Hv Hs Hm Hf] Hb. split; try done.
  unfold view in *. simpl. by rewrite Hb in Hv.
Qed.

(** The end of a batch of objects, with the metadata in it. *)
Definition end_commit (x : metadata) : R unit := mod_state (set_metadata x);; store_metadata;; end_write_batch sync.

(** It is on the disk, and survives a crash, or the write failed; then what is
    read is what was there, and a crash leaves what it would have left or the
    whole batch. *)
Lemma end_commit_run b m l db0 :
  holds b m → _write_batch b = Some l → database b = db0 → _force_async_writes b = false →
  let n := _size b in
  (∃ b', end_commit (metadata_of m) b = (Ok tt, b') ∧ holds b' m ∧ _size b' = n ∧ _write_batch b' = None ∧
     stored_count n (database b') m ∧ durable (database b')) ∨
  (∃ b', end_commit (metadata_of m) b = (Throw rocksdb_write_exception, b') ∧
     (∀ c, contents (database b') c = contents db0 c) ∧
     ∀ db, survives (database b') db → (∃ db1, survives db0 db1 ∧ ∀ c, contents db c = contents db1 c) ∨ stored_count n db m).
Proof.
  intros Hrep Hb Hdb Hasync n. subst db0. pose proof Hrep as [Ho Hc Hmax Hk Hview Hsize Hm Hs]. simpl in *.
  pose proof (store_metadata_run (set_metadata (metadata_of m) b) l Ho Hb) as Hstore. simpl in Hstore.
  unfold end_commit, mod_state, mbind, R_bind, prog_bind in *. rewrite Hstore.
  unfold end_write_batch, mbind, R_bind, prog_bind, gets_state, assert_that. simpl. rewrite Ho, Hasync. unfold on_database. simpl.
  set (ws := l ++ metadata_writes (_size b) (metadata_of m)).
  destruct (Write true (database b) ws) as [s db'] eqn:Hw.
  pose proof (λ c, Write_contents _ _ _ _ _ c Hw) as Hcont.
  change (apply_writes objects_column (contents (database b) objects_column) (default [] (_write_batch b)) = MapBackend._map m) in Hview.
  rewrite Hb in Hview. simpl in Hview.
  destruct (is_ok s) eqn:Hok; simpl; [left|right]; eexists; (split; [reflexivity|]).
  - assert (stored_count n db' m) as Hstored by (by eapply stored_after).
    split_and!; try done.
    + split; try done; simpl. unfold view. simpl. by rewrite (stored_objects _ _ _ Hstored).
    + intros db2 c Hsurv. by eapply Write_synced.
  - split; [exact Hcont|]. intros db2 Hsurv. destruct (Write_atomic _ _ _ _ _ _ Hw Hsurv) as [?|Hall]; [by left|right].
    by eapply stored_after.
Qed.

(** *** Opening *)

Class MetadataConverterLaws := {
  to_as_size n : is_u64 n → to_size (as_size n) = Some n;
  to_as_multihash i : to_multihash (as_multihash i) = Some i;
  to_as_header h : to_header (as_header h) = Some h
}.

Context `{Hlaws : !MetadataConverterLaws}.

Definition metadata_reads_succeed : Prop := ∀ db k message, Get db metadata_column k ≠ GetError message.

Lemma load_value_run {A} k (to : bytes → option A) v a b :
  metadata_reads_succeed → contents (database b) metadata_column !! k = Some v → to v = Some a →
  load_value k to b = (Ok a, b).
Proof.
  intros Hreads Hk Ht. unfold load_value, mbind, R_bind, prog_bind, gets_state.
  destruct (Get (database b) metadata_column k) as [v'| |msg] eqn:Hg.
  - apply Get_Found in Hg. assert (v' = v) as -> by congruence. by rewrite Ht.
  - apply Get_NotFound in Hg. congruence.
  - by apply Hreads in Hg.
Qed.

(** A database that holds a state is opened with it. *)
Lemma open_borrowed_run n db m :
  metadata_reads_succeed → stored_count n db m → is_u64 n → is_u64 (MapBackend._revision m) →
  (∀ k v, MapBackend._map m !! k = Some v → small k (Some v)) →
  ∃ b, open_borrowed (new db) = (Ok tt, b) ∧ holds b m ∧ _size b = n.
Proof.
  intros Hreads [Hobj Hsz Hrev Hid Hroot Hhdr] Hn Hr Hsmall.
  assert (setup_borrowed_database (new db) = (Ok true, new db)) as Hsetup.
  { unfold setup_borrowed_database, mbind, R_bind, prog_bind, gets_state. simpl.
    destruct (Get db metadata_column size_key) as [v| |msg] eqn:Hg; [done| |by apply Hreads in Hg].
    apply Get_NotFound in Hg. congruence. }
  set (b0 := set_open true true (new db)).
  eexists. split.
  { unfold open_borrowed, mbind, R_bind, prog_bind. rewrite Hsetup. unfold assert_that, mret, R_ret, prog_ret. unfold mod_state at 1.
    fold b0. unfold load_or_close, load_metadata, try_catch, assert_open, mbind, R_bind, prog_bind, gets_state, assert_that,
      mret, R_ret, prog_ret. simpl.
    rewrite (load_value_run _ _ _ _ b0 Hreads Hsz (to_as_size _ Hn)). unfold mod_state. simpl.
    erewrite load_value_run; [|exact Hreads|exact Hrev|by apply to_as_size]. simpl.
    erewrite load_value_run; [|exact Hreads|exact Hid|by apply to_as_multihash]. simpl.
    erewrite load_value_run; [|exact Hreads|exact Hroot|by apply to_as_multihash]. simpl.
    erewrite load_value_run; [|exact Hreads|exact Hhdr|by apply to_as_header]. reflexivity. }
  split; [|done]. split; try done; simpl.
  apply new_ok. change cache_size with 67108864. lia.
Qed.

(** *** Commits *)

(** The map backend of the root that a delta ends in. *)
Definition root_backend (h : StateDelta.heap) (l : StateDelta.loc) : option (StateDelta.loc * MapBackend.map_backend) :=
  match StateDelta.node_stack_loop (StateDelta.fuel_of l) l h with
  | (Ok s, _) => r ← last s; d ← StateDelta.deltas h !! r; m ← StateDelta._backend d; Some (r, m)
  | _ => None
  end.

(** The heap where the backend of a delta is elsewhere. *)
Definition without_backend (r : StateDelta.loc) (h : StateDelta.heap) : StateDelta.heap :=
  StateDelta.mk_heap (alter (StateDelta.with_backend None) r (StateDelta.deltas h)) (StateDelta.next_loc h).

(** What a delta removes and writes, and a stack of them. *)
Definition delta_edits (d : StateDelta.state_delta) (m : MapBackend.map_backend) : list edit :=
  (edit_erase <$> StateDelta.removed_list d) ++ ((λ '(k, v), edit_put k v) <$> MapBackend.entries m).

Definition stack_edits (h : StateDelta.heap) (s : list StateDelta.loc) : list edit :=
  l ← s; match StateDelta.deltas h !! l with
         | Some d => match StateDelta._backend d with Some m => delta_edits d m | None => [] end
         | None => []
         end.

Definition commit_edits (h : StateDelta.heap) (l : StateDelta.loc) : list edit :=
  match (StateDelta.node_stack_loop (StateDelta.fuel_of l) l h).1 with
  | Ok s => stack_edits h (tail (reverse s))
  | _ => []
  end.

Lemma run_edits_app l1 l2 b : run_edits (l1 ++ l2) b = (run_edits l1;; run_edits l2) b.
Proof.
  revert b. induction l1 as [|e l1 IH]; intros b; simpl; [done|].
  unfold mbind, R_bind, prog_bind in *. destruct (run_edit e b) as [[[]|x|] b1]; [|done..]. apply IH.
Qed.

Lemma write_delta_edits d m b : RocksCommit.write_delta d m b = run_edits (delta_edits d m) b.
Proof.
  unfold RocksCommit.write_delta, delta_edits. rewrite run_edits_app.
  assert (∀ l b, RocksCommit.erase_removed l b = run_edits (edit_erase <$> l) b) as He.
  { induction l as [|k l IH]; intros b'; simpl; [done|]. unfold mbind, R_bind, prog_bind in *.
    destruct (erase k b') as [[[]|x|] b1]; [apply IH|done..]. }
  assert (∀ l b, RocksCommit.put_entries l b = run_edits ((λ '(k, v), edit_put k v) <$> l) b) as Hp.
  { induction l as [|[k v] l IH]; intros b'; simpl; [done|]. unfold mbind, R_bind, prog_bind in *.
    destruct (put k v b') as [[[]|x|] b1]; [apply IH|done..]. }
  unfold mbind, R_bind, prog_bind. rewrite He. destruct (run_edits _ b) as [[[]|x|] b1]; [apply Hp|done..].
Qed.

Lemma apply_delta_edits d nb m : StateDelta.apply_delta d nb m = foldl apply_edit m (delta_edits d nb).
Proof.
  unfold StateDelta.apply_delta, delta_edits. rewrite foldl_app.
  assert (∀ l m, foldl (λ backend r_key, MapBackend.erase r_key backend) m l = foldl apply_edit m (edit_erase <$> l)) as ->.
  { induction l as [|k l IH]; intros m'; simpl; [done|apply IH]. }
  generalize (foldl apply_edit m (edit_erase <$> StateDelta.removed_list d)).
  induction (MapBackend.entries nb) as [|[k v] l IH]; intros m'; simpl; [done|apply IH].
Qed.

Lemma apply_edits_metadata l m x :
  metadata_of m = x → metadata_of (foldl apply_edit m l) = x.
Proof. revert m. induction l as [|e l IH]; intros m Hm; simpl; [done|]. apply IH. by destruct e. Qed.

Lemma run_deref_inv l h d h' : StateDelta.deref l h = (Ok d, h') → StateDelta.deltas h !! l = Some d ∧ h' = h.
Proof.
  unfold StateDelta.deref, gets_state. rewrite run_bind. destruct (StateDelta.deltas h !! l); simpl; [by intros [= -> ->]|done].
Qed.

Lemma run_backend_inv l h m h' :
  StateDelta.backend l h = (Ok m, h') → ∃ d, StateDelta.deltas h !! l = Some d ∧ StateDelta._backend d = Some m ∧ h' = h.
Proof.
  intros (d & h1 & [Hd ->]%run_deref_inv & Hm)%bind_ok_inv. exists d.
  destruct (StateDelta._backend d); [by injection Hm as -> ->|done].
Qed.

(** The two loops over the stack do the same. *)
Lemma pop_stack_run h s : ∀ m m1 h',
  StateDelta.pop_stack s m h = (Ok m1, h') →
  h' = h ∧ m1 = foldl apply_edit m (stack_edits h s) ∧
  ∀ b, RocksCommit.pop_stack s (h, b) = RocksCommit.on_root (run_edits (stack_edits h s)) (h, b).
Proof.
  induction s as [|l s IH]; intros m m1 h' Hrun; [by injection Hrun as <- <-|].
  cbn [StateDelta.pop_stack] in Hrun. apply bind_ok_inv in Hrun as (d & h1 & Hderef & Hrun).
  apply run_deref_inv in Hderef as [Hd ->]. apply bind_ok_inv in Hrun as (nb & h1 & Hback & Hrun).
  apply run_backend_inv in Hback as (d' & Hd' & Hnb & ->). assert (d' = d) as -> by congruence.
  destruct (IH _ _ _ Hrun) as (-> & -> & Hpop). split; [done|].
  assert (stack_edits h (l :: s) = delta_edits d nb ++ stack_edits h s) as ->.
  { unfold stack_edits. cbn. by rewrite Hd, Hnb. }
  split; [by rewrite foldl_app, apply_delta_edits|]. intros b.
  cbn [RocksCommit.pop_stack]. unfold mbind, RocksCommit.C_bind, prog_bind.
  assert (RocksCommit.on_heap (StateDelta.deref l) (h, b) = (Ok d, (h, b))) as ->.
  { unfold RocksCommit.on_heap. simpl. by rewrite (run_deref _ _ _ Hd). }
  assert (RocksCommit.on_heap (StateDelta.backend l) (h, b) = (Ok nb, (h, b))) as ->.
  { unfold RocksCommit.on_heap. simpl. by rewrite (run_backend _ _ _ _ Hd Hnb). }
  unfold RocksCommit.on_root in *. simpl. rewrite write_delta_edits, run_edits_app. unfold mbind, R_bind, prog_bind.
  destruct (run_edits (delta_edits d nb) b) as [[[]|x|] b1]; simpl; [apply Hpop|done..].
Qed.

Lemma run_is_root_inv l h root h' :
  StateDelta.is_root l h = (Ok root, h') →
  ∃ d, StateDelta.deltas h !! l = Some d ∧ root = match StateDelta._parent d with None => true | Some _ => false end ∧ h' = h.
Proof. intros (d & h1 & [Hd ->]%run_deref_inv & [= <- <-])%bind_ok_inv. by exists d. Qed.

Lemma without_backend_set r h d :
  StateDelta.deltas h !! r = Some d → without_backend r h = set_delta r (StateDelta.with_backend None d) h.
Proof.
  intros Hd. unfold without_backend, set_delta. f_equal. apply map_eq. intros x. destruct (decide (x = r)) as [->|Hne].
  - by rewrite lookup_alter_eq, lookup_insert_eq, Hd.
  - by rewrite lookup_alter_ne, lookup_insert_ne.
Qed.

(** The walk over the parents does not look at the backends. *)
Lemma node_stack_without r n h : ∀ l,
  StateDelta.node_stack_loop n l (without_backend r h) = ((StateDelta.node_stack_loop n l h).1, without_backend r h) ∧
  (StateDelta.node_stack_loop n l h).2 = h.
Proof.
  induction n as [|n IH]; intros l; [done|]. cbn [StateDelta.node_stack_loop].
  unfold StateDelta.parent, StateDelta.deref. rewrite !run_bind. unfold gets_state.
  assert ((λ h : StateDelta.heap, StateDelta.deltas h !! l) (without_backend r h) =
    (if decide (r = l) then StateDelta.with_backend None else id) <$> StateDelta.deltas h !! l) as Hl.
  { simpl. destruct (decide (r = l)) as [->|Hne]; [apply lookup_alter_eq|]. by rewrite option_fmap_id, lookup_alter_ne. }
  cbv beta in Hl. rewrite Hl. destruct (StateDelta.deltas h !! l) as [d|]; simpl; [|done].
  assert (StateDelta._parent ((if decide (r = l) then StateDelta.with_backend None else id) d) = StateDelta._parent d) as ->
    by (by destruct (decide (r = l))).
  destruct (StateDelta._parent d) as [p|]; [|done]. rewrite !run_bind. destruct (IH p) as [-> Hh].
  destruct (StateDelta.node_stack_loop n p h) as [[s|x|] h1]; simpl in *; by subst h1.
Qed.

Lemma commit_bind_ok {A B} (m : RocksCommit.C A) (k : A → RocksCommit.C B) s a s' :
  m s = (Ok a, s') → (m ≫= k) s = k a s'.
Proof. intros Hm. unfold mbind, RocksCommit.C_bind, prog_bind. by rewrite Hm. Qed.

Lemma commit_assert {B} e (k : unit → RocksCommit.C B) s : ((assert_that true e : RocksCommit.C unit) ≫= k) s = k tt s.
Proof. reflexivity. Qed.

Lemma on_root_ok {A} (m : R A) h b a b1 : m b = (Ok a, b1) → RocksCommit.on_root m (h, b) = (Ok a, (h, b1)).
Proof. intros Hm. unfold RocksCommit.on_root. simpl. by rewrite Hm. Qed.

Lemma start_batch_run b : _write_batch b = None → start_write_batch b = (Ok tt, set_batch (Some []) b).
Proof. intros Hb. unfold start_write_batch, mbind, R_bind, prog_bind, gets_state. by rewrite Hb. Qed.

Lemma without_backend_lookup r h l d :
  StateDelta.deltas (without_backend r h) !! l = Some d →
  ∃ d', StateDelta.deltas h !! l = Some d' ∧ StateDelta._parent d = StateDelta._parent d'.
Proof.
  simpl. intros [(-> & d' & Hd' & ->)|[_ Hd]]%lookup_alter_Some; [by exists d'|by exists d].
Qed.

Lemma on_heap_ok {A} (m : prog StateDelta.heap exn A) h h1 a b :
  m h = (Ok a, h1) → RocksCommit.on_heap m (h, b) = (Ok a, (h1, b)).
Proof. intros Hm. unfold RocksCommit.on_heap. simpl. by rewrite Hm. Qed.

(** What a commit to the map backend leaves is what the commit to the other
    backend puts into its batch. *)
Lemma commit_run h l h' r m :
  root_backend h l = Some (r, m) → StateDelta.commit l h = (Ok tt, h') →
  let es := commit_edits (without_backend r h) l in
  ∃ d m', StateDelta.deltas h' !! l = Some d ∧ StateDelta._backend d = Some m' ∧
    MapBackend._map m' = MapBackend._map (foldl apply_edit m es) ∧
    ∀ b b1, _write_batch b = None → run_edits es (set_batch (Some []) b) = (Ok tt, b1) →
      ∃ hx, RocksCommit.commit l (without_backend r h, b) =
        let '(o, b2) := end_commit (metadata_of m') b1 in
        (RocksCommit.rethrow RocksCommit.backend_exception o,
         (match o with Ok _ => without_backend l h' | _ => hx end, b2)).
Proof.
  intros Hroot Hrun es. unfold root_backend in Hroot. unfold StateDelta.commit in Hrun.
  apply bind_ok_inv in Hrun as (root & h0 & Hr & Hrun). apply run_is_root_inv in Hr as (d & Hd & -> & ->).
  destruct (StateDelta._parent d) as [p|] eqn:Hp; [|done]. simpl in Hrun.
  apply bind_ok_inv in Hrun as (? & h0 & [= <- <-] & Hrun).
  apply bind_ok_inv in Hrun as (s & h0 & Hs & Hrun). rewrite Hs in Hroot.
  destruct (node_stack_without r (StateDelta.fuel_of l) h l) as [Hs1 Hh]. rewrite Hs in Hs1, Hh. simpl in Hs1, Hh. subst h0.
  destruct (last s) as [r'|] eqn:Hlast; [|done]. rewrite <- head_reverse in Hlast. simpl in Hroot.
  destruct (reverse s) as [|back rest] eqn:Hrev; [done|]. injection Hlast as ->.
  assert (es = stack_edits (without_backend r h) rest) as Hes.
  { unfold es, commit_edits. rewrite Hs1. simpl. by rewrite Hrev. }
  clearbody es. subst es.
  destruct (StateDelta.deltas h !! r') as [dr|] eqn:Hdr; [|done]. simpl in Hroot.
  destruct (StateDelta._backend dr) as [m0|] eqn:Hm0; [|done]. injection Hroot as -> ->.
  rewrite run_bind, (run_backend _ _ _ _ Hdr Hm0), run_bind, (run_modify _ _ _ _ Hdr) in Hrun.
  rewrite <- (without_backend_set _ _ _ Hdr) in Hrun. unfold MapBackend.start_write_batch in Hrun.
  set (h1 := without_backend r h) in *.
  apply bind_ok_inv in Hrun as (m1 & h2 & Hpop & Hrun). destruct (pop_stack_run _ _ _ _ _ Hpop) as (-> & -> & Hrocks).
  apply bind_ok_inv in Hrun as (header & h2 & Hheader & Hrun).
  pose proof Hheader as (nb & h3 & (d1 & Hd1 & Hnb & ->)%run_backend_inv & [= Hh <-])%bind_ok_inv.
  rewrite run_bind, (run_deref _ _ _ Hd1), run_bind, (run_merkle_root _ _ _ _ Hd1 Hnb) in Hrun.
  rewrite (run_modify _ _ _ _ (set_delta_lookup _ _ _)), set_delta_twice in Hrun. injection Hrun as <-.
  eexists _, _. split; [apply set_delta_lookup|]. split; [reflexivity|]. split; [reflexivity|].
  intros b b1 Hb Hedits. eexists. unfold RocksCommit.commit.
  destruct (without_backend_lookup r h l d1 Hd1) as (d' & Hd' & Hp1). assert (d' = d) as -> by congruence.
  assert (StateDelta.modify r (StateDelta.with_backend None) h1 = (Ok tt, h1)) as Hreset.
  { unfold h1. rewrite (without_backend_set _ _ _ Hdr). rewrite (run_modify _ _ _ _ (set_delta_lookup _ _ _)).
    by rewrite set_delta_twice. }
  rewrite (commit_bind_ok _ _ _ _ _ (on_heap_ok _ _ _ _ b (run_is_root _ _ _ Hd1))), Hp1, Hp.
  change (negb false) with true. rewrite commit_assert.
  rewrite (commit_bind_ok _ _ _ _ _ (on_heap_ok _ _ _ _ b Hs1)), Hrev.
  rewrite (commit_bind_ok _ _ _ _ _ (on_heap_ok _ _ _ _ b Hreset)).
  rewrite (commit_bind_ok _ _ _ _ _ (on_root_ok start_write_batch h1 b _ _ (start_batch_run b Hb))).
  rewrite (commit_bind_ok _ _ _ _ _ (eq_trans (Hrocks _) (on_root_ok _ _ _ _ _ Hedits))).
  rewrite (commit_bind_ok _ _ _ _ _ (on_heap_ok _ _ _ _ b1 Hheader)).
  rewrite (commit_bind_ok _ _ _ _ _ (on_root_ok (mod_state _) h1 b1 _ _ eq_refl)).
  rewrite (commit_bind_ok _ _ _ _ _ (on_heap_ok _ _ _ _ _ (run_deref _ _ _ Hd1))).
  rewrite (commit_bind_ok _ _ _ _ _ (on_root_ok (mod_state _) h1 _ _ _ eq_refl)).
  rewrite (commit_bind_ok _ _ _ _ _ (on_root_ok (mod_state _) h1 _ _ _ eq_refl)).
  rewrite (commit_bind_ok _ _ _ _ _ (on_heap_ok _ _ _ _ _ (run_merkle_root _ _ _ _ Hd1 Hnb))).
  rewrite (commit_bind_ok _ _ _ _ _ (on_root_ok (mod_state _) _ _ _ _ eq_refl)).
  match goal with |- context [end_commit ?x b1] => set (m' := x) end.
  set (b2 := set_metadata m' b1).
  change (end_commit m' b1) with ((store_metadata ≫= λ _, end_write_batch sync) b2).
  match goal with |- context [(?h3, set_merkle_root _ _)] =>
    rewrite (without_backend_set _ _ _ (set_delta_lookup _ _ _)), set_delta_twice;
    change (set_merkle_root _ _) with b2; instantiate (1 := h3) end.
  unfold mbind, RocksCommit.C_bind, R_bind, prog_bind, RocksCommit.on_root. simpl.
  destruct (store_metadata b2) as [[[]|x|] b3]; simpl; [|done..].
  destruct (end_write_batch sync b3) as [[[]|x|] b4]; simpl; [|done..].
  rewrite (on_heap_ok _ _ _ _ _ (run_modify _ _ _ _ (set_delta_lookup _ _ _))), set_delta_twice. reflexivity.
Qed.

(** No object of a delta is too large for the cache. *)
Definition deltas_small (h : StateDelta.heap) : Prop := ∀ l d m,
  StateDelta.deltas h !! l = Some d → StateDelta._backend d = Some m → Forall edit_small (delta_edits d m).

Lemma stack_edits_small h s : deltas_small h → Forall edit_small (stack_edits h s).
Proof.
  intros Hsmall. apply Forall_bind. apply Forall_true. intros l. unfold compose.
  repeat case_match; [by eapply Hsmall|constructor..].
Qed.

Lemma commit_edits_small h l : deltas_small h → Forall edit_small (commit_edits h l).
Proof. intros Hsmall. unfold commit_edits. case_match; [by apply stack_edits_small|constructor..]. Qed.

Lemma holds_metadata b m0 m :
  MapBackend._map m = MapBackend._map m0 → holds b m0 → holds (set_metadata (metadata_of m) b) m.
Proof.
  intros Hmap [Ho Hc Hmax Hk Hview Hsize Hm Hs]. unfold MapBackend.size_ in *. split; simpl in *; try done; rewrite Hmap; auto.
Qed.

(** What an opening of the database finds: the state of a map backend, and
    the number [n] for that of its objects. *)
Definition reopens (n : Z) (db : DB) (m : MapBackend.map_backend) : Prop :=
  ∃ b, open_borrowed (new db) = (Ok tt, b) ∧ holds b m ∧ _size b = n.

Lemma rocks_map_size m m0 : MapBackend._map m = MapBackend._map m0 → MapBackend.size_ m = MapBackend.size_ m0.
Proof. unfold MapBackend.size_. by intros ->. Qed.


(** *** Sequences of operations *)

Inductive operation : Type := op_get (k : bytes) | op_put (k v : bytes) | op_erase (k : bytes).

Definition op_small (o : operation) : Prop :=
  match o with
  | op_get k | op_erase k => small k None
  | op_put k v => small k None ∧ small k (Some v)
  end.

Fixpoint run_operations (l : list operation) : R (list (option bytes)) :=
  match l with
  | [] => mret []
  | op_get k :: l => o ← get k; rest ← run_operations l; mret (o :: rest)
  | op_put k v :: l => put k v;; run_operations l
  | op_erase k :: l => erase k;; run_operations l
  end.

(** The same operations on the map backend, with what the reads return. *)
Definition map_step (o : operation) (m : MapBackend.map_backend) : MapBackend.map_backend :=
  match o with op_get _ => m | op_put k v => MapBackend.put k v m | op_erase k => MapBackend.erase k m end.

Fixpoint map_reads (l : list operation) (m : MapBackend.map_backend) : list (option bytes) :=
  match l with
  | [] => []
  | op_get k :: l => MapBackend.get m k :: map_reads l m
  | o :: l => map_reads l (map_step o m)
  end.

Lemma no_batch_settled b k : _write_batch b = None → settled b k.
Proof. intros Hb. right. unfold view. by rewrite Hb. Qed.

(** C21. Where no batch is open, no read of the database fails (a failure is
    taken for an absent object) and every object fits into the cache, the
    backend behind its cache is the map backend: every read returns what the
    map holds, in any sequence of reads, writes and removals, whatever the
    cache has evicted; where a write throws, the operations before it have
    been done and no other. *)
Theorem backend_refines_map l : ∀ b m,
  reads_succeed → represents b m → _write_batch b = None → Forall op_small l →
  (∃ b', run_operations l b = (Ok (map_reads l m), b') ∧ represents b' (foldl (λ m o, map_step o m) m l)) ∨
  (∃ b' n, run_operations l b = (Throw rocksdb_write_exception, b') ∧ (n < length l)%nat ∧
     represents b' (foldl (λ m o, map_step o m) m (take n l))).
Proof.
  induction l as [|o l IH]; intros b m Hreads Hrep Hb Hsmall; [left; by exists b|].
  inversion Hsmall as [|? ? Ho Hl]; subst. pose proof (λ k, no_batch_settled b k Hb) as Hset.
  destruct o as [k|k v|k]; simpl in *.
  - destruct (rocks_get_run b m k Hreads Hrep Ho (Hset k)) as (c & Hget & Hrep1 & _).
    unfold mbind, R_bind, prog_bind. rewrite Hget.
    destruct (IH (set_cache c b) m Hreads Hrep1 Hb Hl) as [(b' & Hrun & Hrep')|(b' & n & Hrun & Hn & Hrep')]; rewrite Hrun.
    + left. by exists b'.
    + right. exists b', (S n). split_and!; [done|lia|done].
  - destruct Ho as [Hk Hv]. unfold mbind, R_bind, prog_bind.
    destruct (rocks_put_run b m k v Hreads Hrep Hk Hv (Hset k)) as [(b1 & Hput & Hrep1 & _ & _ & Hb1 & _)|(b1 & Hput & Hrep1 & _)];
      rewrite Hput; [|right; exists b1, 0%nat; split_and!; [done|lia|done]].
    rewrite Hb in Hb1. destruct (IH b1 _ Hreads Hrep1 Hb1 Hl) as [?|(b' & n & Hrun & Hn & Hrep')]; [by left|].
    right. exists b', (S n). split_and!; [done|lia|done].
  - unfold mbind, R_bind, prog_bind.
    destruct (rocks_erase_run b m k Hreads Hrep Ho (Hset k)) as [(b1 & Her & Hrep1 & _ & _ & Hb1 & _)|(b1 & Her & Hrep1 & _)];
      rewrite Her; [|right; exists b1, 0%nat; split_and!; [done|lia|done]].
    rewrite Hb in Hb1. destruct (IH b1 _ Hreads Hrep1 Hb1 Hl) as [?|(b' & n & Hrun & Hn & Hrep')]; [by left|].
    right. exists b', (S n). split_and!; [done|lia|done].
Qed.

(** *** Iterators *)

Definition moves_succeed : Prop := ∀ m k, iterator_status m k = StatusOk.

(** An iterator of an unchanged backend is where one of the map backend is. *)
Record points (i : rocksdb_iterator) (m : MapBackend.map_backend) (p : MapBackend.iterator) : Prop := {
  points_iter : _iter i = Some (MapBackend._map m, p) ∨ _iter i = None ∧ p = None;
  points_object k : p = Some k → is_Some (MapBackend._map m !! k);
  points_value v : _cache_value i = Some v → ∃ k, p = Some k ∧ MapBackend._map m !! k = Some v;
  points_key k : _key i = Some k → p = Some k
}.

Lemma update_run b m i p :
  represents b m → points (mk_rocksdb_iterator (_iter i) None None) m p → (∀ k, p = Some k → small k None) →
  ∃ c i', update_cache_value (b, i) = (Ok tt, (set_cache c b, i')) ∧ represents (set_cache c b) m ∧ points i' m p ∧
    _key i' = p ∧ (is_Some p → is_Some (_cache_value i')).
Proof.
  intros Hrep [Hi Ho _ _] Hsmall. unfold update_cache_value, set_value, on_backend, cache_get, mbind, I_bind, prog_bind, gets_state,
    mod_state. simpl in *.
  assert (set_cache (_cache b) b = b) as Hsame by (by destruct b).
  destruct p as [k|].
  - destruct Hi as [Hi|[_ Hp]]; [|done]. rewrite Hi. simpl. destruct (Ho k eq_refl) as [v Hv].
    pose proof Hrep as [_ Hc Hmax Hk _ _ _ _]. destruct (cache_get_spec k (_cache b) Hc) as (Hg & Hc1 & Hm1 & Hmax1).
    destruct (ObjectCache.get k (_cache b)) as [hit c1]. simpl in *. subst hit.
    assert (represents (set_cache c1 b) m) as Hrep1.
    { eapply represents_cache; [done|done|congruence|]. rewrite Hm1. intros k' v'. by apply Hk. }
    assert (∀ i', _iter i' = Some (MapBackend._map m, Some k) → _cache_value i' = Some v → _key i' = Some k →
      points i' m (Some k)) as Hpoints.
    { intros i' H1 H2 H3. split; [by left|by intros ? [= <-]; eexists| |congruence].
      intros v' Hv'. exists k. split; [done|congruence]. }
    destruct (ObjectCache._object_map (_cache b) !! k) as [o|] eqn:Hhit.
    + pose proof (Hk k o ltac:(done) Hhit) as ->. rewrite Hv. simpl. exists c1. eexists. split; [reflexivity|].
      split; [done|]. split; [by apply Hpoints|by split; [|eexists]].
    + rewrite Hv. simpl. pose proof (rep_small_lookup _ _ _ Hrep1 (Hsmall k eq_refl)) as Hs.
      destruct (cache_put_run _ m k (represents_weaken _ _ _ Hrep1) Hs) as (c2 & Hput & Hrep2 & _).
      rewrite Hv in Hput. rewrite Hput. exists c2. eexists. split; [reflexivity|].
      split; [done|]. split; [by apply Hpoints|by split; [|eexists]].
  - exists (_cache b). rewrite Hsame. destruct Hi as [Hi|[Hi _]]; rewrite Hi; (eexists; split; [reflexivity|]);
      (split; [done|]); (split; [|split; [done|by intros [? ?]]]); split; simpl; auto; by intros ? ?.
Qed.

Lemma rocks_key_small b m k : represents b m → is_Some (MapBackend._map m !! k) → small k None.
Proof. intros Hrep [v Hv]. pose proof (rep_small _ _ _ Hrep k v Hv). unfold small in *. simpl in *. lia. Qed.

Lemma points_small b m i p k : represents b m → points i m p → p = Some k → small k None.
Proof. intros Hrep Hp Hk. eapply rocks_key_small; [exact Hrep|]. by eapply points_object. Qed.

(** What a step of an iterator leaves: where it is, or the exception. *)
Definition moved (r : outcome rocks_exn unit * (rocksdb_backend * rocksdb_iterator)) (b : rocksdb_backend)
    (m : MapBackend.map_backend) (q : option MapBackend.iterator) : Prop :=
  ∃ c i', r.2 = (set_cache c b, i') ∧ represents (set_cache c b) m ∧
    match q with Some p => r.1 = Ok tt ∧ points i' m p | None => r.1 = Throw iterator_exception end.

Definition reads {A} (r : outcome rocks_exn A * (rocksdb_backend * rocksdb_iterator)) (b : rocksdb_backend)
    (m : MapBackend.map_backend) (p : MapBackend.iterator) (a : A) : Prop :=
  r.1 = Ok a ∧ ∃ c i', r.2 = (set_cache c b, i') ∧ represents (set_cache c b) m ∧ points i' m p.

Lemma set_cache_same b : set_cache (_cache b) b = b.
Proof. by destruct b. Qed.

(** An iterator that was just moved is brought up to date. *)
Lemma moved_update b m i p :
  represents b m → _iter i = Some (MapBackend._map m, p) → (∀ k, p = Some k → is_Some (MapBackend._map m !! k)) →
  moved (update_cache_value (b, i)) b m (Some p).
Proof.
  intros Hrep Hi Hp.
  assert (points (mk_rocksdb_iterator (_iter i) None None) m p) as Hpoints by (split; [by left|done|done|done]).
  destruct (update_run b m i p Hrep Hpoints) as (c & i' & Hrun & Hrep' & Hi' & _).
  { intros k Hk. eapply rocks_key_small; [exact Hrep|]. by apply Hp. }
  exists c, i'. rewrite Hrun. by split_and!.
Qed.

Lemma first_key_object (P : bytes → bool) (m : gmap bytes bytes) k : first_key P m = Some k → is_Some (m !! k).
Proof. intros Hk. apply first_key_Some in Hk. tauto. Qed.

Lemma before_object (m : gmap bytes bytes) k k' : before m k = Some k' → is_Some (m !! k').
Proof. intros [l Hl]%last_Some. rewrite <- map_keys_elem. assert (k' ∈ l ++ [k']) as Hin by set_solver. rewrite <- Hl in Hin.
  by apply list_elem_of_filter in Hin as [_ ?]. Qed.

Lemma last_object (m : gmap bytes bytes) k : last (map_keys m) = Some k → is_Some (m !! k).
Proof. intros [l Hl]%last_Some. rewrite <- map_keys_elem, Hl. set_solver. Qed.

Lemma increment_run b m i p :
  represents b m → moves_succeed → points i m p → moved (increment (b, i)) b m (MapBackend.next m p).
Proof.
  intros Hrep Hmoves Hp. pose proof Hp as [Hi Ho Hv Hk].
  unfold increment, assert_valid, move_to, set_iter, mbind, I_bind, prog_bind, gets_state, mod_state. simpl.
  destruct p as [k|]; simpl.
  - destruct Hi as [Hi|[_ ?]]; [|done]. unfold valid. rewrite Hi. simpl. rewrite Hi. simpl. rewrite Hmoves. simpl.
    apply moved_update; [done|done|]. intros k'. apply first_key_object.
  - assert (valid i = false) as ->. { unfold valid. by destruct Hi as [->|[-> _]]. }
    exists (_cache b), i. by rewrite set_cache_same.
Qed.

Lemma decrement_run b m i p :
  represents b m → _write_batch b = None → moves_succeed → points i m p →
  moved (decrement (b, i)) b m (Some (default None (MapBackend.prev m p))).
Proof.
  intros Hrep Hb Hmoves Hp. pose proof Hp as [Hi Ho Hv Hk]. pose proof (rep_view _ _ _ Hrep) as Hview.
  unfold view in Hview. rewrite Hb in Hview. simpl in Hview.
  unfold decrement, move_to, set_iter, mbind, I_bind, prog_bind, gets_state, mod_state. simpl.
  destruct p as [k|].
  - destruct Hi as [Hi|[_ ?]]; [|done]. rewrite Hi. simpl. rewrite Hmoves. simpl.
    assert (default None (MapBackend.prev m (Some k)) = before (MapBackend._map m) k) as ->.
    { unfold MapBackend.prev, before. by destruct (last _). }
    apply moved_update; [done|done|]. intros k'. apply before_object.
  - assert (default None (MapBackend.prev m None) = last (map_keys (MapBackend._map m))) as ->.
    { unfold MapBackend.prev. by destruct (last _). }
    destruct Hi as [Hi|[Hi _]]; rewrite Hi; simpl; rewrite Hview; (apply moved_update; [done|done|]); apply last_object.
Qed.

Lemma iter_key_run b m i k : represents b m → points i m (Some k) → reads (iter_key (b, i)) b m (Some k) k.
Proof.
  intros Hrep Hp. pose proof Hp as [[Hi|[_ ?]] Ho Hv Hk]; [|done].
  unfold iter_key, assert_valid, valid, mbind, I_bind, prog_bind, gets_state. simpl. rewrite Hi. simpl.
  destruct (_key i) as [k'|] eqn:Hki; simpl.
  - rewrite Hki. pose proof (Hk k' eq_refl) as [= <-]. split; [done|]. exists (_cache b), i. by rewrite set_cache_same.
  - assert (points (mk_rocksdb_iterator (_iter i) None None) m (Some k)) as Hp0 by (split; [by left|done|done|done]).
    destruct (update_run b m i (Some k) Hrep Hp0) as (c & i' & Hrun & Hrep' & Hi' & Hkey & _);
      [by intros; eapply points_small|].
    rewrite Hrun. simpl. rewrite Hkey. split; [done|]. by exists c, i'.
Qed.

Lemma iter_value_run b m i k v :
  represents b m → points i m (Some k) → MapBackend._map m !! k = Some v → reads (iter_value (b, i)) b m (Some k) v.
Proof.
  intros Hrep Hp Hm. pose proof Hp as [[Hi|[_ ?]] Ho Hv Hk]; [|done].
  unfold iter_value, assert_valid, valid, mbind, I_bind, prog_bind, gets_state. simpl. rewrite Hi. simpl.
  destruct (_cache_value i) as [v'|] eqn:Hci; simpl.
  - rewrite Hci. destruct (Hv v' eq_refl) as (k' & [= <-] & Hm'). assert (v' = v) as -> by congruence.
    split; [done|]. exists (_cache b), i. by rewrite set_cache_same.
  - assert (points (mk_rocksdb_iterator (_iter i) None None) m (Some k)) as Hp0 by (split; [by left|done|done|done]).
    destruct (update_run b m i (Some k) Hrep Hp0) as (c & i' & Hrun & Hrep' & Hi' & _ & Hval);
      [by intros; eapply points_small|].
    rewrite Hrun. simpl. destruct (Hval ltac:(by eexists)) as [v' Hv']. rewrite Hv'.
    destruct (points_value _ _ _ Hi' v' Hv') as (k' & [= <-] & Hm'). assert (v' = v) as -> by congruence.
    split; [done|]. by exists c, i'.
Qed.

Lemma new_iterator_run b m seek :
  represents b m → _write_batch b = None →
  (∀ k, seek (MapBackend._map m) = Some k → is_Some (MapBackend._map m !! k)) →
  ∃ i, new_iterator seek b = (Ok i, b) ∧ _iter i = Some (MapBackend._map m, seek (MapBackend._map m)) ∧
    points i m (seek (MapBackend._map m)).
Proof.
  intros Hrep Hb Hseek. pose proof (rep_view _ _ _ Hrep) as Hview. unfold view in Hview. rewrite Hb in Hview. simpl in Hview.
  unfold new_iterator, assert_open, mbind, R_bind, prog_bind, gets_state, assert_that. rewrite (rep_open _ _ _ Hrep). simpl.
  rewrite Hview. eexists. split; [reflexivity|]. split; [done|]. split; [by left|done|done|done].
Qed.

Lemma first_key_not_below (m : gmap bytes bytes) k :
  first_key (λ k', negb (bytes_ltb k' k)) m = Some k ↔ is_Some (m !! k).
Proof.
  split; [apply first_key_object|]. intros Hk.
  assert (negb (bytes_ltb k k) = true) as Hself.
  { apply negb_true_iff, not_true_is_false. exact (irreflexivity bytes_lt k). }
  destruct (first_key _ m) as [k'|] eqn:Hf.
  - apply first_key_Some in Hf as (_ & Hge%negb_true_iff & Hmin). f_equal. apply (anti_symm bytes_le); [by apply Hmin|done].
  - pose proof (first_key_None _ _ _ Hf Hk) as Hn. cbv beta in Hn. congruence.
Qed.

Lemma find_run b m k :
  represents b m → _write_batch b = None → ∃ i, find k b = (Ok i, b) ∧ points i m (MapBackend.find m k).
Proof.
  intros Hrep Hb. unfold find, mbind, R_bind, prog_bind, lower_bound.
  destruct (new_iterator_run b m (first_key (λ k', negb (bytes_ltb k' k))) Hrep Hb) as (i & -> & Hi & Hp);
    [intros k'; apply first_key_object|].
  rewrite Hi. unfold MapBackend.find, MapBackend.get. pose proof (first_key_not_below (MapBackend._map m) k) as Hk.
  assert (points (mk_rocksdb_iterator None None None) m None) as Hend by (split; [by right|done|done|done]).
  destruct (first_key _ _) as [k'|] eqn:Hf.
  - case_bool_decide as Hkk.
    + subst k'. destruct (proj1 Hk eq_refl) as [v Hv]. rewrite Hv. by exists i.
    + destruct (MapBackend._map m !! k) eqn:Hm; [|by eexists].
      destruct Hkk. assert (Some k' = Some k) as [= ->] by (apply Hk; by eexists). done.
  - destruct (MapBackend._map m !! k) eqn:Hm; [|by eexists].
    assert (None = Some k) by (apply Hk; by eexists). done.
Qed.

(** C31. Where no batch is open and no move of a database iterator fails,
    iterators of the backend walk the map backend (with an open batch they do
    not see what it wrote): they begin, end, are
    found by a key and by a lower bound, and move forward as its iterators,
    and give the same keys and objects from the cache or the database; only
    moving back from the first object ends the iteration where the map
    backend throws. *)
Theorem iterators_walk_map b m :
  represents b m → _write_batch b = None → moves_succeed →
  (∃ i, begin_ b = (Ok i, b) ∧ points i m (MapBackend.begin_ m)) ∧
  (∃ i, end_ b = (Ok i, b) ∧ points i m MapBackend.end_) ∧
  (∀ k, ∃ i, lower_bound k b = (Ok i, b) ∧ points i m (MapBackend.lower_bound m k)) ∧
  (∀ k, ∃ i, find k b = (Ok i, b) ∧ points i m (MapBackend.find m k)) ∧
  ∀ i p, points i m p →
    moved (increment (b, i)) b m (MapBackend.next m p) ∧
    moved (decrement (b, i)) b m (Some (default None (MapBackend.prev m p))) ∧
    ∀ k v, p = Some k → MapBackend.get m k = Some v →
      reads (iter_key (b, i)) b m p k ∧ reads (iter_value (b, i)) b m p v.
Proof.
  intros Hrep Hb Hmoves. split_and!.
  - destruct (new_iterator_run b m (first_key (λ _, true)) Hrep Hb) as (i & Hi & _ & Hp); [|by exists i].
    intros k. apply first_key_object.
  - destruct (new_iterator_run b m (λ _, None) Hrep Hb) as (i & Hi & _ & Hp); [done|by exists i].
  - intros k. destruct (new_iterator_run b m (first_key (λ k', negb (bytes_ltb k' k))) Hrep Hb) as (i & Hi & _ & Hp);
      [|by exists i]. intros k'. apply first_key_object.
  - intros k. by apply find_run.
  - intros i p Hp. split_and!; [by apply increment_run|by apply decrement_run|].
    intros k v -> Hv. split; [by apply iter_key_run|by apply iter_value_run].
Qed.

End Facts.

Abbreviation represents := (represents_but None).

End RocksFacts.

(** ** A concrete database *)

Module RocksExample.
Import RocksBackend RocksFacts CacheFacts.

#[local] Instance some_crypto : Crypto := {|
  hash b := b; merkle_tree_root l := concat l; zero := str "zero"; null_id := []; multihash_ltb := bytes_ltb
|}.

Abbreviation columns := (gmap bytes bytes * gmap bytes bytes * gmap bytes bytes)%type.

Definition column_of (c : column) (db : columns) : gmap bytes bytes :=
  match c with default_column => db.1.1 | objects_column => db.1.2 | metadata_column => db.2 end.

Definition write_to (db : columns) (w : write) : columns :=
  (apply_write default_column db.1.1 w, apply_write objects_column db.1.2 w, apply_write metadata_column db.2 w).

(** What is read, and what is on the disk: only a synced write brings it
    there. *)
#[local] Instance some_database : RocksDatabase := {|
  DB := columns * columns;
  Get db c k := match column_of c db.1 !! k with Some v => Found v | None => NotFound end;
  Put db c k v := (StatusOk, (write_to db.1 (write_put c k v), db.2));
  Delete db c k := (StatusOk, (write_to db.1 (write_delete c k), db.2));
  Write synced db l := (StatusOk, let x := foldl write_to db.1 l in (x, if synced : bool then x else db.2));
  contents db c := column_of c db.1;
  survives db db' := db' = (db.2, db.2);
  iterator_status _ _ := StatusOk;
  Flush db _ := db; DropColumnFamily db _ := db;
  OpenColumns db := (StatusOk, db); OpenDefault db := (StatusOk, db); CreateColumnFamilies db := (StatusOk, db)
|}.

Lemma column_write_to c db w : column_of c (write_to db w) = apply_write c (column_of c db) w.
Proof. by destruct c. Qed.

Lemma column_writes_to c l : ∀ db, column_of c (foldl write_to db l) = apply_writes c (column_of c db) l.
Proof. induction l as [|w l IH]; intros db; simpl; [done|]. by rewrite IH, column_write_to. Qed.

#[local] Instance some_laws : RocksDatabaseLaws.
Proof.
  split; simpl.
  - intros db c k v. by destruct (column_of c db.1 !! k); [intros [= ->]|].
  - intros db c k. by destruct (column_of c db.1 !! k).
  - intros db c k v s db' c' [= <- <-]. apply (column_write_to c' db.1 (write_put c k v)).
  - intros db c k s db' c' [= <- <-]. apply (column_write_to c' db.1 (write_delete c k)).
  - intros y db l s db' c' [= <- <-]. apply column_writes_to.
  - done.
  - intros db l s db' db'' c [= <- <-] _ ->. reflexivity.
  - intros [|] db l s db' db'' [= <- <-] ->; [right; intros c; apply column_writes_to|].
    left. exists (db.2, db.2). by split.
Qed.

#[local] Instance some_converter : MetadataConverter := {|
  as_size n := bits_of (encode n); to_size b := decode (of_bits b);
  as_multihash i := i; to_multihash b := Some b;
  as_header h := bits_of (encode (timestamp h, signer h, header_rest h));
  to_header b := (λ '(t, s, r), mk_block_header t s r) <$> (decode (of_bits b) : option (Z * bytes * bytes))
|}.

#[local] Instance some_converter_laws : MetadataConverterLaws.
Proof.
  split; simpl.
  - intros n _. by rewrite of_bits_of, decode_encode.
  - done.
  - intros [t s r]. by rewrite of_bits_of, decode_encode.
Qed.

(** A database as it is set up and on the disk, and the backend that opens it. *)
Definition columns0 : columns := (database (open_borrowed (new ((∅, ∅, ∅), (∅, ∅, ∅)))).2).1.
Definition backend0 : rocksdb_backend := (open_borrowed (new (columns0, columns0))).2.
Definition map0 : MapBackend.map_backend := MapBackend.mk_map_backend ∅ 0 zero zero default_header.

(** A root with two deltas above it; the second writes and removes what the
    first wrote. *)
Definition objects1 : MapBackend.map_backend :=
  MapBackend.put (str "a") (str "1") (MapBackend.put (str "b") (str "2") MapBackend.new).
Definition objects2 : MapBackend.map_backend :=
  MapBackend.put (str "a") (str "3") (MapBackend.put (str "c") (str "4") MapBackend.new).
Definition heap0 : StateDelta.heap :=
  StateDelta.mk_heap {[
    1%positive := StateDelta.mk_state_delta None (Some map0) ∅ zero 0 (Some zero) true;
    2%positive := StateDelta.mk_state_delta (Some 1%positive) (Some objects1) ∅ (str "one") 1 None true;
    3%positive := StateDelta.mk_state_delta (Some 2%positive) (Some objects2) {[ str "b" ]} (str "two") 2 None true ]} 4.
Definition heap1 : StateDelta.heap := (StateDelta.commit 3 heap0).2.
Definition delta1 : StateDelta.state_delta :=
  default (StateDelta.mk_state_delta None None ∅ [] 0 None false) (StateDelta.deltas heap1 !! 3%positive).
Definition map1 : MapBackend.map_backend := default map0 (StateDelta._backend delta1).

Lemma stored0 : stored (database backend0) map0.
Proof. split; vm_compute; reflexivity. Qed.

Lemma represents0 : represents backend0 map0.
Proof.
  split; [reflexivity| |reflexivity| |reflexivity|vm_compute; reflexivity|vm_compute; reflexivity|].
  - apply (new_ok cache_size). change cache_size with 67108864. lia.
  - intros k v _. change (ObjectCache._object_map (_cache backend0)) with (∅ : gmap bytes (option bytes)). by rewrite lookup_empty.
  - intros k v. simpl. by rewrite lookup_empty.
Qed.

Lemma reads0 c : ∀ (db : DB) k message, Get db c k ≠ GetError message.
Proof. intros db k message. simpl. by destruct (column_of c db.1 !! k). Qed.

#[local] Instance edit_small_dec e : Decision (edit_small e).
Proof. unfold edit_small, small. apply _. Defined.

Lemma heap0_small : deltas_small (without_backend 1 heap0).
Proof.
  intros l d m Hl Hm. unfold without_backend in Hl. cbn [StateDelta.deltas] in Hl.
  apply lookup_alter_Some in Hl as [(_ & d' & _ & ->)|[Hne Hl]]; [done|]. simpl in Hl.
  repeat first [apply lookup_insert_Some in Hl as [[_ <-]|[_ Hl]]|apply lookup_singleton_Some in Hl as [_ <-]];
    injection Hm as <-; decided.
Qed.


Definition operations : list operation :=
  [op_put (str "a") (str "1"); op_get (str "a"); op_erase (str "a"); op_get (str "a")].

Lemma backend_refines_map_witness :
  (∃ b', run_operations operations backend0 = (Ok [Some (str "1"); None], b') ∧
     represents b' (foldl (λ m o, map_step o m) map0 operations)) ∨
  (∃ b' n, run_operations operations backend0 = (Throw rocksdb_write_exception, b') ∧ (n < length operations)%nat ∧
     represents b' (foldl (λ m o, map_step o m) map0 (take n operations))).
Proof.
  refine (backend_refines_map operations backend0 map0 (reads0 objects_column) represents0 eq_refl _).
  repeat constructor; vm_compute; discriminate.
Defined.

Lemma iterators_walk_map_witness :
  (∃ i, begin_ backend0 = (Ok i, backend0) ∧ points i map0 (MapBackend.begin_ map0)) ∧
  (∃ i, end_ backend0 = (Ok i, backend0) ∧ points i map0 MapBackend.end_) ∧
  (∀ k, ∃ i, lower_bound k backend0 = (Ok i, backend0) ∧ points i map0 (MapBackend.lower_bound map0 k)) ∧
  (∀ k, ∃ i, find k backend0 = (Ok i, backend0) ∧ points i map0 (MapBackend.find map0 k)) ∧
  ∀ i p, points i map0 p →
    moved (increment (backend0, i)) backend0 map0 (MapBackend.next map0 p) ∧
    moved (decrement (backend0, i)) backend0 map0 (Some (default None (MapBackend.prev map0 p))) ∧
    ∀ k v, p = Some k → MapBackend.get map0 k = Some v →
      reads (iter_key (backend0, i)) backend0 map0 p k ∧ reads (iter_value (backend0, i)) backend0 map0 p v.
Proof. exact (iterators_walk_map backend0 map0 represents0 eq_refl (λ _ _, eq_refl)). Defined.

End RocksExample.
