(* ===== verification/StateDatabase.v ===== *)
(** The state database: [database_impl] of
    [src/src/koinos/state_db/state_db.cpp].

    The database keeps the deltas it knows in [_index], the finalized head,
    the fork heads and the root.  Its public operations take a lock that the
    caller must hold; an operation runs under [_index_mutex], so it is
    atomic.  Only [create_writable_node] gives that mutex up while it waits,
    and what other threads do in the meantime is one of its arguments. *)

From S2P Require Import Prelude Keys MapBackend StateDelta.

Module StateDatabase.
Import StateDelta.

(** [std::shared_ptr< std::shared_lock >] and [unique_lock]. *)
Record lock := mk_lock { owns_lock : bool; on_node_mutex : bool }.

(** [state_node]: a pointer to a delta, and the lock it keeps alive. *)
Record state_node := mk_state_node { _state : loc; _lock : option lock }.

Inductive fork_resolution_algorithm : Type := fifo | block_time | pob.

Abbreviation fork_list := (list loc).

(** [state_node_comparator_function]: the null pointer is [None]. *)
Abbreviation comparator := (fork_list → loc → loc → prog heap exn (option loc)).

Abbreviation genesis_init := (loc → prog heap exn unit).

Record database := mk_database {
  db_heap : heap;
  _index : list loc;
  _head : option loc;
  _fork_heads : gmap multihash loc;
  _root : option loc;
  _path : option bytes;
  _init_func : option genesis_init;
  _comp : option comparator
}.

Definition set_heap (h : heap) (db : database) : database :=
  mk_database h (_index db) (_head db) (_fork_heads db) (_root db) (_path db) (_init_func db) (_comp db).
Definition set_index (i : list loc) (db : database) : database :=
  mk_database (db_heap db) i (_head db) (_fork_heads db) (_root db) (_path db) (_init_func db) (_comp db).
Definition set_head (l : option loc) (db : database) : database :=
  mk_database (db_heap db) (_index db) l (_fork_heads db) (_root db) (_path db) (_init_func db) (_comp db).
Definition set_fork_heads (f : gmap multihash loc) (db : database) : database :=
  mk_database (db_heap db) (_index db) (_head db) f (_root db) (_path db) (_init_func db) (_comp db).
Definition set_root (l : option loc) (db : database) : database :=
  mk_database (db_heap db) (_index db) (_head db) (_fork_heads db) l (_path db) (_init_func db) (_comp db).
Definition set_config (p : option bytes) (i : option genesis_init) (c : option comparator)
  (db : database) : database :=
  mk_database (db_heap db) (_index db) (_head db) (_fork_heads db) (_root db) p i c.

#[local] Abbreviation D := (prog database exn).

(** Opening the RocksDB backend of a directory. *)
Class Disk := { open_backend : bytes → exn + backend_type }.

Section Database.
Context `{!Crypto} `{!Disk}.

Definition on_heap {A} (m : prog heap exn A) : D A := λ db,
  let (r, h) := m (db_heap db) in (r, set_heap h db).

Definition deref_ptr (p : option loc) : D loc :=
  match p with Some l => mret l | None => raise null_dereference end.

Definition verify_shared_lock (l : option lock) : bool :=
  match l with
  | None => false
  | Some l => if negb (owns_lock l) then false else on_node_mutex l
  end.

Definition verify_unique_lock (l : option lock) : bool :=
  match l with
  | None => false
  | Some l => if negb (owns_lock l) then false else on_node_mutex l
  end.

(** ** The index: the deltas in order of insertion, read by id, parent id
    and revision *)

Definition id_at (h : heap) (l : loc) : option multihash := StateDelta._id <$> deltas h !! l.

Definition parent_id_at (h : heap) (l : loc) : multihash :=
  match d ← deltas h !! l; StateDelta._parent d with
  | Some p => default null_id (id_at h p)
  | None => null_id
  end.

Definition index_find (i : multihash) : D (option loc) :=
  gets_state (λ db, head (filter (λ l, id_at (db_heap db) l = Some i) (_index db))).

(** [_index.insert( ... ).second]. *)
Definition index_insert (l : loc) : D bool :=
  i ← on_heap (id l);
  found ← index_find i;
  match found with
  | Some _ => mret false
  | None => mod_state (λ db, set_index (_index db ++ [l]) db);; mret true
  end.

Definition index_erase (l : loc) : D unit :=
  mod_state (λ db, set_index (filter (λ x, x ≠ l) (_index db)) db).

(** The nodes with the given parent id, in their order in the index. *)
Definition by_parent (i : multihash) : D (list loc) :=
  gets_state (λ db, filter (λ l, parent_id_at (db_heap db) l = i) (_index db)).

Definition is_open (db : database) : bool :=
  bool_decide (is_Some (_root db)) && bool_decide (is_Some (_head db)).

Definition assert_open : D unit := o ← gets_state is_open; assert_that o database_not_open.

(** ** Opening and closing *)

Definition open_root (root : loc) (init : option genesis_init) (comp : option comparator)
    (p : option bytes) : D unit :=
  path ← gets_state _path;
  mod_state (set_config path init comp);;
  r ← on_heap (revision root);
  empty ← (if r =? 0 then on_heap (is_empty root) else mret false);
  (match init with
   | Some f => if (empty : bool) then on_heap (f root) else mret tt
   | None => mret tt
   end);;
  on_heap (finalize root);;
  index_insert root;;
  mod_state (set_root (Some root));;
  mod_state (set_head (Some root));;
  i ← on_heap (id root);
  mod_state (λ db, set_fork_heads (<[i := root]> (_fork_heads db)) db);;
  mod_state (λ db, set_config p (_init_func db) (_comp db) db).

Definition open_lockless_path (p : option bytes) (init : option genesis_init)
    (comp : option comparator) : D unit :=
  match p with
  | Some path =>
    match open_backend path with
    | inl e => raise e
    | inr b => root ← on_heap (new_root b); open_root root init comp p
    end
  | None => root ← on_heap (new_root MapBackend.new); open_root root init comp p
  end.

Definition open_lockless_backend (b : option backend_type) (init : option genesis_init)
    (comp : option comparator) : D unit :=
  match b with
  | None => raise internal_error
  | Some b => root ← on_heap (new_root b); open_root root init comp None
  end.

Definition close_lockless : D unit :=
  mod_state (set_fork_heads ∅);;
  mod_state (set_root None);;
  mod_state (set_head None);;
  mod_state (set_index []).

Definition close (l : option lock) : D unit :=
  assert_that (verify_unique_lock l) illegal_argument;; close_lockless.

Definition reset (l : option lock) : D unit :=
  assert_that (verify_unique_lock l) illegal_argument;;
  assert_open;;
  root ← gets_state _root; root ← deref_ptr root;
  on_heap (clear root);;
  close_lockless;;
  db ← get_state;
  open_lockless_path (_path db) (_init_func db) (_comp db).

Definition open_path (p : option bytes) (init : option genesis_init) (comp : option comparator)
    (l : option lock) : D unit :=
  assert_that (verify_unique_lock l) illegal_argument;; open_lockless_path p init comp.

Definition open_backend_ (b : option backend_type) (init : option genesis_init)
    (comp : option comparator) (l : option lock) : D unit :=
  assert_that (verify_unique_lock l) illegal_argument;; open_lockless_backend b init comp.

(** ** Looking nodes up *)

Definition get_node_lockless (node_id : multihash) : D (option state_node) :=
  assert_open;;
  itr ← index_find node_id;
  mret ((λ l, mk_state_node l None) <$> itr).

Definition get_head_lockless : D state_node :=
  assert_open;; head ← gets_state _head; head ← deref_ptr head; mret (mk_state_node head None).

Definition get_root_lockless : D state_node :=
  assert_open;; root ← gets_state _root; root ← deref_ptr root; mret (mk_state_node root None).

Definition with_lock (l : option lock) (n : state_node) : state_node := mk_state_node (_state n) l.

Definition get_node_shared (node_id : multihash) (l : option lock) : D (option state_node) :=
  assert_that (verify_shared_lock l) illegal_argument;;
  node ← get_node_lockless node_id; mret (with_lock l <$> node).

Definition get_node_unique (node_id : multihash) (l : option lock) : D (option state_node) :=
  assert_that (verify_unique_lock l) illegal_argument;; get_node_lockless node_id.

(** [while( delta->revision() > revision ) delta = delta->parent();] *)
Fixpoint rewind (fuel : nat) (delta : loc) (revision_ : Z) : prog heap exn loc :=
  match fuel with
  | O => λ h, (OutOfFuel, h)
  | S fuel =>
    r ← revision delta;
    if revision_ <? r then
      p ← parent delta;
      match p with Some p => rewind fuel p revision_ | None => raise null_dereference end
    else mret delta
  end.

Definition get_node_at_revision_lockless (revision_ : Z) (child_id : multihash) : D state_node :=
  assert_open;;
  root ← gets_state _root; root ← deref_ptr root;
  root_revision ← on_heap (revision root);
  assert_that (root_revision <=? revision_) illegal_argument;;
  if revision_ =? root_revision then get_root_lockless
  else
    child ← get_node_lockless child_id;
    child ← match child with Some c => mret c | None => get_head_lockless end;
    delta ← on_heap (rewind (fuel_of (_state child)) (_state child) revision_);
    delta_id ← on_heap (id delta);
    node_itr ← index_find delta_id;
    match node_itr with
    | None => raise internal_error
    | Some l => mret (mk_state_node l None)
    end.

Definition get_node_at_revision_shared (revision_ : Z) (child_id : multihash) (l : option lock)
  : D state_node :=
  assert_that (verify_shared_lock l) illegal_argument;;
  node ← get_node_at_revision_lockless revision_ child_id; mret (with_lock l node).

Definition get_node_at_revision_unique (revision_ : Z) (child_id : multihash) (l : option lock)
  : D state_node :=
  assert_that (verify_unique_lock l) illegal_argument;;
  get_node_at_revision_lockless revision_ child_id.

Definition get_head_shared (l : option lock) : D state_node :=
  assert_that (verify_shared_lock l) illegal_argument;;
  head ← get_head_lockless; mret (with_lock l head).

Definition get_head_unique (l : option lock) : D state_node :=
  assert_that (verify_unique_lock l) illegal_argument;; get_head_lockless.

Definition get_root_shared (l : option lock) : D state_node :=
  assert_that (verify_shared_lock l) illegal_argument;;
  root ← get_root_lockless; mret (with_lock l root).

Definition get_root_unique (l : option lock) : D state_node :=
  assert_that (verify_unique_lock l) illegal_argument;; get_root_lockless.

(** [_fork_heads] and [_index] in the order of multihashes, the order of
    their iterators. *)
Definition multihash_le (x y : multihash * loc) : Prop := multihash_ltb y.1 x.1 = false.

#[global] Instance multihash_le_dec x y : Decision (multihash_le x y).
Proof. unfold multihash_le. apply _. Defined.

Definition fork_heads_list (db : database) : list loc :=
  (merge_sort multihash_le (map_to_list (_fork_heads db))).*2.

Definition index_list (db : database) : list loc :=
  (merge_sort multihash_le
     ((λ l, (default null_id (id_at (db_heap db) l), l)) <$> _index db)).*2.

Definition get_fork_heads_shared (l : option lock) : D (list state_node) :=
  assert_that (verify_shared_lock l) illegal_argument;;
  assert_open;;
  gets_state (λ db, (λ x, mk_state_node x l) <$> fork_heads_list db).

Definition get_fork_heads_unique (l : option lock) : D (list state_node) :=
  assert_that (verify_unique_lock l) illegal_argument;;
  assert_open;;
  gets_state (λ db, (λ x, mk_state_node x None) <$> fork_heads_list db).

Definition get_all_nodes_shared (l : option lock) : D (list state_node) :=
  assert_that (verify_shared_lock l) illegal_argument;;
  assert_open;;
  gets_state (λ db, (λ x, mk_state_node x l) <$> index_list db).

Definition get_all_nodes_unique (l : option lock) : D (list state_node) :=
  assert_that (verify_unique_lock l) illegal_argument;;
  assert_open;;
  gets_state (λ db, (λ x, mk_state_node x None) <$> index_list db).

(** ** Creating nodes *)

(** What the clock and the other threads do during a call: whether the
    parent's [cv_mutex] is obtained in time, what other threads do to the
    database during [wait_until] and whether it was notified in time, and
    whether [_index_mutex] is obtained in time. *)
Record timing := mk_timing {
  cv_owned : bool;
  others : database → database;
  notified : bool;
  index_owned : bool
}.

Definition create_child (parent_state : state_node) (parent_id_ new_id : multihash)
    (header : block_header) (t : timing) : D (option state_node) :=
  if cv_owned t then
    finalized ← on_heap (is_finalized (_state parent_state));
    finalized ←
      (if (finalized : bool) then mret true
       else
         mod_state (others t);;
         if notified t then on_heap (is_finalized (_state parent_state)) else mret false);
    if (finalized : bool) then
      node ← on_heap (make_child (_state parent_state) new_id header);
      if index_owned t then
        parent_itr ← index_find parent_id_;
        match parent_itr with
        | None => mret None
        | Some _ =>
          inserted ← index_insert node;
          if (inserted : bool) then mret (Some (mk_state_node node None)) else mret None
        end
      else mret None
    else mret None
  else mret None.

Definition create_writable_node_shared (parent_id_ new_id : multihash) (header : block_header)
    (l : option lock) (t : timing) : D (option state_node) :=
  assert_that (verify_shared_lock l) illegal_argument;;
  parent_state ← get_node_shared parent_id_ l;
  match parent_state with
  | None => mret None
  | Some parent_state =>
    node ← create_child parent_state parent_id_ new_id header t;
    mret (with_lock l <$> node)
  end.

Definition create_writable_node_unique (parent_id_ new_id : multihash) (header : block_header)
    (l : option lock) (t : timing) : D (option state_node) :=
  assert_that (verify_unique_lock l) illegal_argument;;
  parent_state ← get_node_unique parent_id_ l;
  match parent_state with
  | None => mret None
  | Some parent_state => create_child parent_state parent_id_ new_id header t
  end.

Definition clone_node_lockless (node_id new_id : multihash) (header : block_header)
  : D (option state_node) :=
  assert_open;;
  node ← get_node_lockless node_id;
  match node with
  | None => raise illegal_argument
  | Some node =>
    finalized ← on_heap (is_finalized (_state node));
    assert_that (negb finalized) illegal_argument;;
    new_node ← on_heap (clone (_state node) new_id header);
    inserted ← index_insert new_node;
    if (inserted : bool) then mret (Some (mk_state_node new_node None)) else mret None
  end.

Definition clone_node_shared (node_id new_id : multihash) (header : block_header) (l : option lock)
  : D (option state_node) :=
  assert_that (verify_shared_lock l) illegal_argument;;
  node ← clone_node_lockless node_id new_id header; mret (with_lock l <$> node).

Definition clone_node_unique (node_id new_id : multihash) (header : block_header) (l : option lock)
  : D (option state_node) :=
  assert_that (verify_unique_lock l) illegal_argument;; clone_node_lockless node_id new_id header.

(** ** Finalizing nodes *)

Definition finalize_node_lockless (node_id : multihash) : D unit :=
  assert_open;;
  node ← get_node_lockless node_id;
  match node with
  | None => raise illegal_argument
  | Some node =>
    let node := _state node in
    on_heap (finalize node);;
    head ← gets_state _head; head ← deref_ptr head;
    node_revision ← on_heap (revision node);
    head_revision ← on_heap (revision head);
    (if head_revision <? node_revision then mod_state (set_head (Some node))
     else if node_revision =? head_revision then
       forks ← gets_state fork_heads_list;
       comp ← gets_state _comp;
       head ← get_head_lockless;
       let head := _state head in
       match comp with
       | None => raise null_dereference
       | Some comp =>
         new_head ← on_heap (comp forks head node);
         match new_head with
         | Some new_head => mod_state (set_head (Some new_head))
         | None =>
           head_parent ← on_heap (parent head); head_parent ← deref_ptr head_parent;
           mod_state (set_head (Some head_parent));;
           head_id ← on_heap (id head);
           mod_state (λ db, set_fork_heads (delete head_id (_fork_heads db)) db);;
           head_parent_id ← on_heap (id head_parent);
           mod_state (λ db, set_fork_heads (<[head_parent_id := head_parent]> (_fork_heads db)) db)
         end
       end
     else mret tt);;
    node_parent_id ← on_heap (parent_id node);
    head ← gets_state _head; head ← deref_ptr head;
    head_id ← on_heap (id head);
    if bool_decide (node_parent_id ≠ head_id) then
      mod_state (λ db, set_fork_heads (delete node_parent_id (_fork_heads db)) db);;
      node_id ← on_heap (id node);
      mod_state (λ db, set_fork_heads (<[node_id := node]> (_fork_heads db)) db)
    else mret tt
  end.

Definition finalize_node_shared (node_id : multihash) (l : option lock) : D unit :=
  assert_that (verify_shared_lock l) illegal_argument;; finalize_node_lockless node_id.

Definition finalize_node_unique (node_id : multihash) (l : option lock) : D unit :=
  assert_that (verify_unique_lock l) illegal_argument;; finalize_node_lockless node_id.

(** ** Discarding and committing nodes *)

(** The loop over [remove_queue]: [done] are the entries before [i]; one
    unit of fuel per entry. *)
Fixpoint discard_loop (fuel : nat) (head_id : multihash) (whitelist : gset multihash)
    (done todo : list multihash) : D (list multihash) :=
  match todo with
  | [] => mret done
  | i :: todo =>
    match fuel with
    | O => λ db, (OutOfFuel, db)
    | S fuel =>
      assert_that (bool_decide (i ≠ head_id)) cannot_discard;;
      children ← by_parent i;
      db ← get_state;
      let ids := (λ l, default null_id (id_at (db_heap db) l)) <$> children in
      mod_state (λ db, set_fork_heads (delete i (_fork_heads db)) db);;
      discard_loop fuel head_id whitelist (done ++ [i]) (todo ++ filter (λ x, x ∉ whitelist) ids)
    end
  end.

Fixpoint erase_all (ids : list multihash) : D unit :=
  match ids with
  | [] => mret tt
  | i :: ids =>
    itr ← index_find i;
    (match itr with Some l => index_erase l | None => mret tt end);;
    erase_all ids
  end.

Definition discard_node_lockless (node_id : multihash) (whitelist : gset multihash) : D unit :=
  assert_open;;
  node ← get_node_lockless node_id;
  match node with
  | None => mret tt
  | Some node =>
    root ← gets_state _root; root ← deref_ptr root;
    root_id ← on_heap (id root);
    assert_that (bool_decide (node_id ≠ root_id)) illegal_argument;;
    head ← gets_state _head; head ← deref_ptr head;
    head_id ← on_heap (id head);
    index ← gets_state _index;
    remove_queue ← discard_loop (S (length index)) head_id whitelist [] [node_id];
    erase_all remove_queue;;
    node_parent_id ← on_heap (parent_id (_state node));
    siblings ← by_parent node_parent_id;
    match siblings with
    | _ :: _ => mret tt
    | [] =>
      parent_itr ← index_find node_parent_id;
      match parent_itr with
      | None => raise internal_error
      | Some p =>
        p_id ← on_heap (id p);
        mod_state (λ db, set_fork_heads (<[p_id := p]> (_fork_heads db)) db)
      end
    end
  end.

Definition discard_node_shared (node_id : multihash) (whitelist : gset multihash) (l : option lock)
  : D unit :=
  assert_that (verify_shared_lock l) illegal_argument;; discard_node_lockless node_id whitelist.

Definition discard_node_unique (node_id : multihash) (whitelist : gset multihash) (l : option lock)
  : D unit :=
  assert_that (verify_unique_lock l) illegal_argument;; discard_node_lockless node_id whitelist.

Definition commit_node (node_id : multihash) (l : option lock) : D unit :=
  assert_that (verify_unique_lock l) illegal_argument;;
  assert_open;;
  root ← gets_state _root; root ← deref_ptr root;
  root_id ← on_heap (id root);
  if bool_decide (node_id = root_id) then mret tt
  else
    node ← get_node_lockless node_id;
    match node with
    | None => raise illegal_argument
    | Some node =>
      mod_state (set_root (Some (_state node)));;
      (* [_index.modify]: the delta moves to the end of its parent id's range *)
      on_heap (commit (_state node));;
      mod_state (λ db, set_index (filter (λ x, x ≠ _state node) (_index db) ++ [_state node]) db);;
      old_root_id ← on_heap (id root);
      discard_node_lockless old_root_id {[node_id]}
    end.

(** ** Fork resolution *)

Definition fifo_comparator : comparator := λ forks current_head new_head, mret (Some current_head).

Definition block_time_comparator : comparator := λ forks head_block new_block,
  nh ← block_header_of new_block; hh ← block_header_of head_block;
  mret (Some (if timestamp nh <? timestamp hh then new_block else head_block)).

(** [priority_algorithm]. *)
Definition priority (a b : loc) : prog heap exn bool :=
  ra ← revision a; rb ← revision b;
  if rb <? ra then mret true
  else if ra <? rb then mret false
  else
    ha ← block_header_of a; hb ← block_header_of b;
    if timestamp ha <? timestamp hb then mret true
    else if timestamp hb <? timestamp ha then mret false
    else ia ← id a; ib ← id b; mret (multihash_ltb ia ib).

(** The first of the forks in the order of [priority]. *)
Fixpoint best_fork (best : loc) (forks : list loc) : prog heap exn loc :=
  match forks with
  | [] => mret best
  | f :: forks =>
    better ← priority f best;
    best_fork (if (better : bool) then f else best) forks
  end.

(** [std::find_if] by id and [forks.erase( it )]. *)
Fixpoint remove_first (i : multihash) (forks : list loc) : prog heap exn (list loc) :=
  match forks with
  | [] => mret []
  | f :: forks =>
    fi ← id f;
    if bool_decide (fi = i) then mret forks
    else rest ← remove_first i forks; mret (f :: rest)
  end.

Definition pob_comparator : comparator := λ forks head_block new_block,
  hh ← block_header_of head_block; nh ← block_header_of new_block;
  if bool_decide (signer hh ≠ signer nh) then
    mret (Some (if timestamp nh <? timestamp hh then new_block else head_block))
  else
    head_id ← id head_block;
    forks ← remove_first head_id forks;
    match forks with
    | [] => mret None
    | f :: forks =>
      it ← best_fork f forks;
      head_parent ← parent head_block;
      match head_parent with
      | None => raise null_dereference
      | Some head_parent =>
        first ← priority head_parent it;
        mret (if (first : bool) then None else Some it)
      end
    end.

Definition comparator_of (algo : fork_resolution_algorithm) : comparator :=
  match algo with
  | block_time => block_time_comparator
  | pob => pob_comparator
  | fifo => fifo_comparator
  end.

Definition open_algo (p : option bytes) (init : option genesis_init) (algo : fork_resolution_algorithm)
    (l : option lock) : D unit :=
  assert_that (verify_unique_lock l) illegal_argument;;
  open_path p init (Some (comparator_of algo)) l.

End Database.
End StateDatabase.
