(* ===== verification/StateDiscard.v ===== *)
(** The invariant of the state database, and that its operations keep it.

    Discarding a subtree: what the loop over [remove_queue] collects and
    what is left of the index. *)

From S2P Require Import Prelude Keys MapBackend StateDelta StateDeltaFacts StateCommit StateDatabase.
Import StateDelta StateDatabase.

Section Facts.
Context `{Hcrypto : !Crypto} `{Hdisk : !Disk}.
Implicit Types (db : database) (h : heap) (d : state_delta) (l : loc).

(** ** The invariant *)

(** An indexed node reads through live backends; it is the root, or its
    parent is indexed, finalized and one revision below. *)
Definition node_ok h (idx : list loc) (r l : loc) : Prop :=
  ∃ d, deltas h !! l = Some d ∧ is_Some (view h l) ∧ _id d ≠ null_id ∧
    (l = r ∧ _parent d = None ∧ _finalized d = true ∨
     ∃ p dp, _parent d = Some p ∧ p ∈ idx ∧ deltas h !! p = Some dp ∧ _finalized dp = true ∧
             _revision d = _revision dp + 1).

Definition finalized_at h l : Prop := ∃ d, deltas h !! l = Some d ∧ _finalized d = true.

(** A comparator only reads, and chooses among the nodes it is given. *)
Definition good_comp (c : comparator) : Prop :=
  ∀ h forks a b, heap_ok h → (∀ x, x ∈ a :: b :: forks → is_Some (view h x)) →
    ∃ o, c forks a b h = (o, h) ∧
      match o with
      | Ok (Some x) => x ∈ a :: b :: forks
      | OutOfFuel => False
      | _ => True
      end.

Record db_ok db (r hd : loc) : Prop := {
  ok_heap : heap_ok (db_heap db);
  ok_unique l l' : l ∈ _index db → l' ∈ _index db →
    id_at (db_heap db) l = id_at (db_heap db) l' → l = l';
  ok_NoDup : NoDup (_index db);
  ok_root : _root db = Some r ∧ r ∈ _index db;
  ok_root_parent d : deltas (db_heap db) !! r = Some d → _parent d = None;
  ok_node l : l ∈ _index db → node_ok (db_heap db) (_index db) r l;
  ok_head : _head db = Some hd ∧ hd ∈ _index db ∧ finalized_at (db_heap db) hd;
  ok_forks i l : _fork_heads db !! i = Some l →
    l ∈ _index db ∧ id_at (db_heap db) l = Some i ∧ finalized_at (db_heap db) l;
  ok_comp : ∃ c, _comp db = Some c ∧ good_comp c
}.

(** ** Running *)

Lemma run_on_heap {A} (m : prog heap exn A) db o h :
  m (db_heap db) = (o, h) → on_heap m db = (o, set_heap h db).
Proof. intros Hm. unfold on_heap. by rewrite Hm. Qed.

Lemma set_heap_id db : set_heap (db_heap db) db = db.
Proof. by destruct db. Qed.

Lemma run_on_heap_pure {A} (m : prog heap exn A) db o :
  m (db_heap db) = (o, db_heap db) → on_heap m db = (o, db).
Proof. intros Hm. by rewrite (run_on_heap _ _ _ _ Hm), set_heap_id. Qed.

Lemma run_id h l d : deltas h !! l = Some d → id l h = (Ok (_id d), h).
Proof. intros Hd. unfold id. by rewrite run_bind, (run_deref _ _ _ Hd). Qed.

Lemma run_revision h l d : deltas h !! l = Some d → revision l h = (Ok (_revision d), h).
Proof. intros Hd. unfold revision. by rewrite run_bind, (run_deref _ _ _ Hd). Qed.

Lemma run_is_finalized h l d : deltas h !! l = Some d → is_finalized l h = (Ok (_finalized d), h).
Proof. intros Hd. unfold is_finalized. by rewrite run_bind, (run_deref _ _ _ Hd). Qed.

Lemma run_parent_id h l d : heap_ok h → deltas h !! l = Some d →
  parent_id l h = (Ok (parent_id_at h l), h).
Proof.
  intros Hok Hd. unfold parent_id, parent_id_at. rewrite run_bind, (run_parent _ _ _ Hd), Hd. cbn.
  destruct (_parent d) as [p|] eqn:Hp; [|done].
  destruct (heap_parent _ Hok _ _ _ Hd Hp) as [_ [dp Hdp]].
  rewrite (run_id _ _ _ Hdp). unfold id_at. by rewrite Hdp.
Qed.

Lemma run_block_header h l d b : deltas h !! l = Some d → _backend d = Some b →
  block_header_of l h = (Ok (MapBackend._header b), h).
Proof. intros Hd Hb. unfold block_header_of. by rewrite run_bind, (run_backend _ _ _ _ Hd Hb). Qed.

Definition find_id db (i : multihash) : option loc :=
  head (filter (λ l, id_at (db_heap db) l = Some i) (_index db)).

Lemma run_index_find db i : index_find i db = (Ok (find_id db i), db).
Proof. reflexivity. Qed.

Lemma find_id_Some db i l : find_id db i = Some l → l ∈ _index db ∧ id_at (db_heap db) l = Some i.
Proof.
  unfold find_id. intros Hf. destruct (filter _ _) as [|x xs] eqn:He; [done|]. injection Hf as ->.
  assert (l ∈ filter (λ l, id_at (db_heap db) l = Some i) (_index db)) as [? ?]%list_elem_of_filter
    by (rewrite He; by left). done.
Qed.

Lemma find_id_None db i l : find_id db i = None → l ∈ _index db → id_at (db_heap db) l ≠ Some i.
Proof.
  unfold find_id. intros Hf Hl Hi.
  assert (l ∈ filter (λ l, id_at (db_heap db) l = Some i) (_index db)) as Hin
    by by apply list_elem_of_filter.
  destruct (filter _ _); [by apply elem_of_nil in Hin|done].
Qed.

Lemma find_id_eq db r hd i l : db_ok db r hd → l ∈ _index db → id_at (db_heap db) l = Some i →
  find_id db i = Some l.
Proof.
  intros Hok Hl Hi. destruct (find_id db i) as [l'|] eqn:Hf.
  - apply find_id_Some in Hf as [? ?]. f_equal. apply (ok_unique _ _ _ Hok); [done..|congruence].
  - by destruct (find_id_None _ _ _ Hf Hl).
Qed.

Lemma ok_open db r hd : db_ok db r hd → is_open db = true.
Proof.
  intros Hok. unfold is_open. destruct (ok_root _ _ _ Hok) as [-> _].
  destruct (ok_head _ _ _ Hok) as [-> _]. by rewrite !bool_decide_eq_true_2 by by eexists.
Qed.

Lemma run_assert_open db r hd : db_ok db r hd → assert_open db = (Ok tt, db).
Proof. intros Hok. unfold assert_open, gets_state. by rewrite run_bind, (ok_open _ _ _ Hok). Qed.

Lemma run_get_node db r hd i : db_ok db r hd →
  get_node_lockless i db = (Ok ((λ l, mk_state_node l None) <$> find_id db i), db).
Proof.
  intros Hok. unfold get_node_lockless.
  by rewrite run_bind, (run_assert_open _ _ _ Hok), run_bind, run_index_find.
Qed.

Lemma ok_delta db r hd l : db_ok db r hd → l ∈ _index db →
  ∃ d b m, deltas (db_heap db) !! l = Some d ∧ _backend d = Some b ∧ view (db_heap db) l = Some m.
Proof.
  intros Hok Hl. destruct (ok_node _ _ _ Hok _ Hl) as (d & Hd & [m Hv] & _).
  destruct (view_inv _ _ _ (ok_heap _ _ _ Hok) Hv) as (d' & b & Hd' & Hb & _).
  assert (d' = d) as -> by congruence. by exists d, b, m.
Qed.

(** A node that is not finalized has no indexed descendant. *)
Lemma unfinalized_leaf db r hd l d x : db_ok db r hd →
  deltas (db_heap db) !! l = Some d → _finalized d = false → x ∈ _index db →
  above (db_heap db) l x → x = l.
Proof.
  intros Hok Hd Hf Hx Ha. induction Ha as [|x dx p Hdx Hp Ha IH]; [done|].
  destruct (ok_node _ _ _ Hok _ Hx) as (dx' & Hdx' & _ & _ & [(-> & Hn & _)|(p' & dp & Hp' & Hpi & Hdp & Hfp & _)]).
  - congruence.
  - assert (p' = p) as -> by congruence. specialize (IH Hpi) as ->. congruence.
Qed.

(** ** Changes of the heap *)

(** What a heap may do to an ok database: the indexed nodes keep their
    place in the tree and stay readable. *)
Lemma db_ok_set_heap db r hd h' : db_ok db r hd → heap_ok h' →
  (∀ l d, l ∈ _index db → deltas (db_heap db) !! l = Some d →
     ∃ d', deltas h' !! l = Some d' ∧ _id d' = _id d ∧ _parent d' = _parent d ∧
           _revision d' = _revision d ∧ (_finalized d = true → _finalized d' = true) ∧
           is_Some (view h' l)) →
  db_ok (set_heap h' db) r hd.
Proof.
  intros Hok Hh' Hl. destruct (ok_root _ _ _ Hok) as [Hr Hri]. destruct (ok_head _ _ _ Hok) as (Hhd & Hhi & Hhf).
  assert (∀ l, l ∈ _index db → id_at h' l = id_at (db_heap db) l) as Hid.
  { intros l Hli. destruct (ok_delta _ _ _ _ Hok Hli) as (d & b & m & Hd & _).
    destruct (Hl _ _ Hli Hd) as (d' & Hd' & Hi & _). unfold id_at. rewrite Hd, Hd'. cbn. by f_equal. }
  assert (∀ l, l ∈ _index db → finalized_at (db_heap db) l → finalized_at h' l) as Hfin.
  { intros l Hli (d & Hd & Hf). destruct (Hl _ _ Hli Hd) as (d' & Hd' & _ & _ & _ & Hf' & _).
    exists d'. auto. }
  split; cbn; [done| |by eapply ok_NoDup|done| | | | |by eapply ok_comp].
  - intros l l' H1 H2. rewrite !Hid by done. by apply (ok_unique _ _ _ Hok).
  - intros d' Hd'. destruct (ok_delta _ _ _ _ Hok Hri) as (d & b & m & Hd & _).
    destruct (Hl _ _ Hri Hd) as (d2 & Hd2 & _ & Hp & _). assert (d2 = d') as -> by congruence.
    rewrite Hp. by apply (ok_root_parent _ _ _ Hok).
  - intros l Hli. destruct (ok_node _ _ _ Hok _ Hli) as (d & Hd & _ & Hnn & Hcase).
    destruct (Hl _ _ Hli Hd) as (d' & Hd' & Hi & Hp & Hrev & Hf & Hv).
    exists d'. split_and!; [done..|congruence|].
    destruct Hcase as [(-> & Hpn & Hfd)|(p & dp & Hpp & Hpi & Hdp & Hfp & Hre)].
    + left. split_and!; [done|congruence|auto].
    + right. destruct (Hl _ _ Hpi Hdp) as (dp' & Hdp' & _ & _ & Hrev' & Hf' & _).
      exists p, dp'. split_and!; [congruence|done..|auto|congruence].
  - split_and!; [done..|by apply Hfin].
  - intros i l Hi. destruct (ok_forks _ _ _ Hok _ _ Hi) as (? & ? & ?).
    rewrite Hid by done. split_and!; [done..|by apply Hfin].
Qed.

(** Writing to a node that is not finalized changes its view only. *)
Lemma writes_isolated db r hd l d m' h' x : db_ok db r hd →
  deltas (db_heap db) !! l = Some d → _finalized d = false → writes (db_heap db) l m' h' →
  x ∈ _index db → x ≠ l → view h' x = view (db_heap db) x.
Proof.
  intros Hok Hd Hf (d0 & d' & Hd0 & -> & (Hp & _) & _ & _) Hx Hne.
  assert (d0 = d) as -> by congruence.
  apply (view_frame (db_heap db) _ l); [apply Hok|eapply set_delta_ok; [apply Hok|done|by left]| |].
  - intros Ha. by destruct (unfinalized_leaf _ _ _ _ _ _ Hok Hd Hf Hx Ha).
  - intros y Hy. by apply core_set_delta_ne.
Qed.

Lemma db_ok_writes db r hd l d m' h' : db_ok db r hd →
  deltas (db_heap db) !! l = Some d → _finalized d = false → writes (db_heap db) l m' h' →
  db_ok (set_heap h' db) r hd.
Proof.
  intros Hok Hd Hf Hw. pose proof Hw as (d0 & d' & Hd0 & Hh' & (Hp & Hi & Hrev & Hfi & _) & _ & Hv).
  assert (d0 = d) as -> by congruence. apply db_ok_set_heap; [done| |].
  { subst h'. eapply set_delta_ok; [apply Hok|done|by left]. }
  intros x dx Hx Hdx. destruct (decide (x = l)) as [->|Hne].
  - exists d'. assert (dx = d) as -> by congruence. subst h'. rewrite set_delta_lookup.
    split_and!; [done..|congruence|by eexists].
  - exists dx. rewrite (writes_isolated _ _ _ _ _ _ _ _ Hok Hd Hf Hw Hx Hne).
    split_and!; [|done..|].
    + subst h'. cbn. by rewrite lookup_insert_ne.
    + destruct (ok_node _ _ _ Hok _ Hx) as (? & _ & ? & _). done.
Qed.

(** Allocating a delta. *)
Lemma db_ok_alloc db r hd d : db_ok db r hd → heap_ok (alloc_delta d (db_heap db)) →
  db_ok (set_heap (alloc_delta d (db_heap db)) db) r hd.
Proof.
  intros Hok Hh. apply db_ok_set_heap; [done..|]. intros l dl Hl Hdl. exists dl.
  pose proof (heap_fresh _ (ok_heap _ _ _ Hok) _ _ Hdl).
  rewrite alloc_view by (done || apply Hok || lia). split_and!; [|done..|].
  - cbn. rewrite lookup_insert_ne by lia. done.
  - destruct (ok_node _ _ _ Hok _ Hl) as (? & _ & ? & _). done.
Qed.

(** Inserting a new node below a finalized one. *)
Lemma db_ok_insert db r hd l d : db_ok db r hd → l ∉ _index db →
  deltas (db_heap db) !! l = Some d → find_id db (_id d) = None →
  node_ok (db_heap db) (_index db) r l →
  db_ok (set_index (_index db ++ [l]) db) r hd.
Proof.
  intros Hok Hl Hd Hf Hn. destruct (ok_root _ _ _ Hok) as [Hr Hri].
  destruct (ok_head _ _ _ Hok) as (Hhd & Hhi & Hhf).
  assert (∀ x, x ∈ _index db → id_at (db_heap db) x ≠ id_at (db_heap db) l) as Hid.
  { intros x Hx. unfold id_at at 2. rewrite Hd. by apply find_id_None. }
  assert (∀ x, node_ok (db_heap db) (_index db) r x → node_ok (db_heap db) (_index db ++ [l]) r x) as Hmono.
  { intros x (dx & ? & ? & ? & [?|(p & dp & ? & ? & ?)]); exists dx; split_and!;
      try done; [by left|]. right. exists p, dp. rewrite elem_of_app. tauto. }
  split; cbn; [apply Hok| | | |apply Hok| | | |apply Hok].
  - intros x y [Hx| ->%list_elem_of_singleton]%elem_of_app [Hy| ->%list_elem_of_singleton]%elem_of_app Heq.
    + by apply (ok_unique _ _ _ Hok).
    + by destruct (Hid _ Hx).
    + by destruct (Hid _ Hy).
    + done.
  - apply NoDup_app. split_and!; [apply Hok| |apply NoDup_singleton].
    intros x Hx ->%list_elem_of_singleton. done.
  - rewrite elem_of_app. tauto.
  - intros x [Hx| ->%list_elem_of_singleton]%elem_of_app; apply Hmono; [by apply Hok|done].
  - rewrite elem_of_app. tauto.
  - intros i x Hx. destruct (ok_forks _ _ _ Hok _ _ Hx) as (? & ? & ?). rewrite elem_of_app. tauto.
Qed.

End Facts.

Section Facts.
Context `{Hcrypto : !Crypto} `{Hdisk : !Disk}.
Implicit Types (db : database) (h : heap) (d : state_delta) (l : loc).

(** The index as a tree; weaker than [db_ok], it also holds in the middle
    of a commit. *)
Record tree_ok h (idx : list loc) : Prop := {
  tree_heap : heap_ok h;
  tree_unique l l' : l ∈ idx → l' ∈ idx → id_at h l = id_at h l' → l = l';
  tree_NoDup : NoDup idx;
  tree_node l : l ∈ idx → ∃ d, deltas h !! l = Some d ∧ _id d ≠ null_id ∧
    match _parent d with None => True | Some p => p ∈ idx end
}.

Lemma db_tree db r hd : db_ok db r hd → tree_ok (db_heap db) (_index db).
Proof.
  intros Hok. split; try apply Hok. intros l Hl.
  destruct (ok_node _ _ _ Hok _ Hl) as (d & Hd & _ & Hn & [(_ & Hp & _)|(p & _ & Hp & Hpi & _)]);
    exists d; by rewrite Hp.
Qed.

Definition the_id h l : multihash := default null_id (id_at h l).

Lemma the_id_at h idx l : tree_ok h idx → l ∈ idx → id_at h l = Some (the_id h l) ∧ the_id h l ≠ null_id.
Proof.
  intros Ht Hl. destruct (tree_node _ _ Ht _ Hl) as (d & Hd & Hn & _).
  unfold the_id, id_at. by rewrite Hd.
Qed.

(** The children of an indexed node. *)
Lemma child_iff h idx x i : tree_ok h idx → x ∈ idx → i ≠ null_id →
  (parent_id_at h x = i) ↔ ∃ d p, deltas h !! x = Some d ∧ _parent d = Some p ∧ the_id h p = i.
Proof.
  intros Ht Hx Hi. destruct (tree_node _ _ Ht _ Hx) as (d & Hd & _ & Hp).
  unfold parent_id_at. rewrite Hd. cbn. split.
  - destruct (_parent d) as [p|] eqn:Hpd; [|congruence]. intros <-. by exists d, p.
  - intros (d' & p & Hd' & Hp' & <-). assert (d' = d) as -> by congruence. by rewrite Hp'.
Qed.

(** ** The queue *)

Section Queue.
Context (h : heap) (idx : list loc) (s : loc) (W : gset multihash) (head_id : multihash).
Context (Ht : tree_ok h idx) (Hs : s ∈ idx).

Record queue_inv (dn todo : list multihash) : Prop := {
  queue_NoDup : NoDup (dn ++ todo);
  queue_start : the_id h s ∈ dn ++ todo;
  queue_elem i : i ∈ dn ++ todo → ∃ l, l ∈ idx ∧ the_id h l = i ∧ (s ≤ l)%positive ∧
    (l = s ∨ (i ∉ W) ∧ ∃ d p, deltas h !! l = Some d ∧ _parent d = Some p ∧ p ∈ idx ∧ the_id h p ∈ dn);
  queue_closed x d p : x ∈ idx → deltas h !! x = Some d → _parent d = Some p → the_id h p ∈ dn →
    the_id h x ∈ W ∨ the_id h x ∈ dn ++ todo;
  queue_head : head_id ∉ dn
}.

Lemma queue_init : queue_inv [] [the_id h s].
Proof.
  split; cbn.
  - apply NoDup_singleton.
  - by left.
  - intros i ->%list_elem_of_singleton. exists s. split_and!; [done|done|lia|by left].
  - by intros x d p _ _ _ ?%elem_of_nil.
  - by intros ?%elem_of_nil.
Qed.

Lemma the_id_inj x y : x ∈ idx → y ∈ idx → the_id h x = the_id h y → x = y.
Proof.
  intros Hx Hy Heq. apply (tree_unique _ _ Ht); [done..|].
  destruct (the_id_at _ _ _ Ht Hx) as [-> _]. destruct (the_id_at _ _ _ Ht Hy) as [-> _]. by rewrite Heq.
Qed.

Definition new_ids (i : multihash) : list multihash :=
  filter (λ x, x ∉ W) (the_id h <$> filter (λ l, parent_id_at h l = i) idx).

Lemma new_ids_elem i c : i ≠ null_id →
  (c ∈ new_ids i) ↔ (c ∉ W) ∧ ∃ l d p, l ∈ idx ∧ the_id h l = c ∧ deltas h !! l = Some d ∧
                                 _parent d = Some p ∧ the_id h p = i.
Proof.
  intros Hi. unfold new_ids. rewrite list_elem_of_filter, list_elem_of_fmap. split.
  - intros [HW (l & -> & [Hp Hl]%list_elem_of_filter)]. split; [done|].
    apply (child_iff _ _ _ _ Ht Hl Hi) in Hp as (d & p & ? & ? & ?). by exists l, d, p.
  - intros [HW (l & d & p & Hl & <- & Hd & Hp & Hpi)]. split; [done|]. exists l. split; [done|].
    apply list_elem_of_filter. split; [|done]. apply (child_iff _ _ _ _ Ht Hl Hi). by exists d, p.
Qed.

Lemma queue_step dn i todo : queue_inv dn (i :: todo) → i ≠ head_id →
  queue_inv (dn ++ [i]) (todo ++ new_ids i).
Proof.
  intros Hq Hne. assert (∀ l1 l2 : list multihash, dn ++ i :: l1 = (dn ++ [i]) ++ l1) as Hassoc
    by (intros; by rewrite <- app_assoc).
  destruct (queue_elem _ _ Hq i) as (li & Hli & Hidi & Hsi & _).
  { rewrite elem_of_app. right. by left. }
  assert (i ≠ null_id) as Hi by (rewrite <- Hidi; by apply (the_id_at h idx)).
  assert (∀ c, c ∈ new_ids i → c ∉ dn ++ i :: todo) as Hfresh.
  { intros c Hc Hin. apply (new_ids_elem i c Hi) in Hc as (HW & l & d & p & Hl & Hlc & Hd & Hp & Hpi).
    destruct (tree_node _ _ Ht _ Hl) as (d0 & Hd0 & _ & Hpx). assert (d0 = d) as -> by congruence.
    rewrite Hp in Hpx. assert (p = li) as -> by (apply the_id_inj; [done..|congruence]).
    destruct (queue_elem _ _ Hq c Hin) as (l' & Hl' & Hl'c & Hsl & Hcase).
    assert (l' = l) as -> by (apply the_id_inj; [done..|congruence]).
    destruct (heap_parent _ (tree_heap _ _ Ht) _ _ _ Hd Hp) as [Hlt _].
    destruct Hcase as [->|[_ (d' & p' & Hd' & Hp' & Hpi' & Hdn)]]; [lia|].
    assert (p' = li) as -> by congruence. rewrite Hidi in Hdn.
    pose proof (queue_NoDup _ _ Hq) as Hnd. apply NoDup_app in Hnd as (_ & Hnd & _).
    apply (Hnd i Hdn). by left. }
  assert (NoDup (new_ids i)) as Hnd.
  { unfold new_ids. apply NoDup_filter, NoDup_fmap_2_strong; [|apply NoDup_filter, Ht].
    intros x y [_ Hx]%list_elem_of_filter [_ Hy]%list_elem_of_filter. by apply the_id_inj. }
  split.
  - rewrite app_assoc, <- (Hassoc todo todo). apply NoDup_app. split_and!; [apply Hq| |done].
    intros c Hc Hn. by apply (Hfresh c).
  - rewrite app_assoc, <- (Hassoc todo todo), elem_of_app. left. apply Hq.
  - intros c. rewrite app_assoc, <- (Hassoc todo todo), elem_of_app. intros [Hc|Hc].
    + destruct (queue_elem _ _ Hq c Hc) as (l & Hl & Hlc & Hsl & Hcase). exists l.
      split_and!; [done..|]. destruct Hcase as [?|[? (d & p & ? & ? & ? & ?)]]; [by left|right].
      split; [done|]. exists d, p. rewrite elem_of_app. tauto.
    + apply (new_ids_elem i c Hi) in Hc as (HW & l & d & p & Hl & Hlc & Hd & Hp & Hpi). exists l.
      destruct (tree_node _ _ Ht _ Hl) as (d0 & Hd0 & _ & Hpx). assert (d0 = d) as -> by congruence.
      rewrite Hp in Hpx. assert (p = li) as -> by (apply the_id_inj; [done..|congruence]).
      destruct (heap_parent _ (tree_heap _ _ Ht) _ _ _ Hd Hp) as [Hlt _].
      split_and!; [done|done|lia|]. right. split; [done|]. exists d, li.
      rewrite elem_of_app, list_elem_of_singleton. tauto.
  - intros x d p Hx Hd Hp. rewrite app_assoc, <- (Hassoc todo todo), !elem_of_app, list_elem_of_singleton.
    intros [Hdn|Hpi].
    + destruct (queue_closed _ _ Hq x d p Hx Hd Hp Hdn) as [?|[?|?]%elem_of_app]; tauto.
    + destruct (decide (the_id h x ∈ W)); [by left|right; right].
      apply new_ids_elem; [done|]. split; [done|]. by exists x, d, p.
  - rewrite elem_of_app, list_elem_of_singleton. intros [?|?]; [by apply (queue_head _ _ Hq)|congruence].
Qed.

Lemma queue_length dn todo : queue_inv dn todo → (length (dn ++ todo) ≤ length idx)%nat.
Proof.
  intros Hq. rewrite <- (length_fmap (the_id h) idx). apply submseteq_length, NoDup_submseteq.
  - apply Hq.
  - intros i Hi. destruct (queue_elem _ _ Hq i Hi) as (l & Hl & <- & _). by apply list_elem_of_fmap_2.
Qed.

(** The loop ends with a closed queue, or throws before the head would be
    discarded; it only removes fork heads. *)
Lemma run_discard_loop fuel dn todo db :
  db_heap db = h → _index db = idx → queue_inv dn todo → (S (length idx) ≤ fuel + length dn)%nat →
  (∀ i, i ∈ dn → _fork_heads db !! i = None) →
  ∃ (o : outcome exn (list multihash)) f,
    discard_loop fuel head_id W dn todo db = (o, set_fork_heads f db) ∧ f ⊆ _fork_heads db ∧
    match o with
    | Ok q => queue_inv q [] ∧ ∀ i, i ∈ q → f !! i = None
    | Throw e => e = cannot_discard ∧ ∃ dn todo, queue_inv dn (head_id :: todo)
    | OutOfFuel => False
    end.
Proof.
  intros Hh Hidx. revert dn todo db Hh Hidx.
  induction fuel as [|fuel IH]; intros dn todo db Hh Hidx Hq Hf Hdn.
  { pose proof (queue_length _ _ Hq) as Hl. rewrite length_app in Hl. lia. }
  destruct todo as [|i todo]; cbn [discard_loop].
  { exists (Ok dn), (_fork_heads db). split_and!; [|done..]. by destruct db. }
  destruct (decide (i = head_id)) as [->|Hne].
  { exists (Throw cannot_discard), (_fork_heads db). rewrite bool_decide_eq_false_2 by tauto.
    split_and!; [by destruct db|done|done|by exists dn, todo]. }
  rewrite bool_decide_eq_true_2 by done. cbn [assert_that].
  rewrite run_bind. cbn [mret prog_ret].
  unfold by_parent, gets_state. rewrite run_bind. unfold get_state. rewrite run_bind.
  unfold mod_state. rewrite run_bind, Hh, Hidx.
  set (db' := set_fork_heads _ db).
  destruct (IH (dn ++ [i]) (todo ++ new_ids i) db') as (o & f & Hrun & Hsub & Ho).
  - done.
  - done.
  - by apply queue_step.
  - rewrite length_app. cbn. lia.
  - intros c. rewrite elem_of_app, list_elem_of_singleton. cbn. rewrite lookup_delete.
    intros [Hc| ->]; case_decide; try done. by apply Hdn.
  - exists o, f. split_and!; [|etrans; [exact Hsub|apply delete_subseteq]|done].
    unfold new_ids, the_id in Hrun. rewrite Hrun. done.
Qed.

End Queue.

(** ** Erasing the queue from the index *)

Definition survivors h (idx : list loc) (q : list multihash) : list loc :=
  filter (λ l, the_id h l ∉ q) idx.

Lemma survivors_elem h idx q l : l ∈ survivors h idx q ↔ (the_id h l ∉ q) ∧ l ∈ idx.
Proof. unfold survivors. by rewrite list_elem_of_filter. Qed.

Lemma run_erase_all q db :
  (∀ l l', l ∈ _index db → l' ∈ _index db → id_at (db_heap db) l = id_at (db_heap db) l' → l = l') →
  (∀ l, l ∈ _index db → id_at (db_heap db) l = Some (the_id (db_heap db) l)) →
  erase_all q db = (Ok tt, set_index (survivors (db_heap db) (_index db) q) db).
Proof.
  revert db. induction q as [|i q IH]; intros db Hu Hid; cbn [erase_all].
  { unfold survivors. rewrite filter_all; [by destruct db|]. intros l _. by apply not_elem_of_nil. }
  rewrite run_bind, run_index_find, run_bind.
  destruct (find_id db i) as [l|] eqn:Hf.
  - apply find_id_Some in Hf as [Hl Hi]. unfold index_erase, mod_state. rewrite IH; cbn.
    + unfold survivors. rewrite list_filter_filter. f_equal. unfold set_index. cbn. f_equal.
      apply filter_ext_in. intros x Hx. rewrite not_elem_of_cons.
      assert (the_id (db_heap db) l = i) as Hli by (unfold the_id; by rewrite Hi).
      split; intros [H1 H2]; split; try done.
      * intros Heq. apply H2. apply Hu; [done..|]. by rewrite (Hid x Hx), (Hid l Hl), Heq, Hli.
      * intros ->. by apply H1.
    + intros x y [_ ?]%list_elem_of_filter [_ ?]%list_elem_of_filter. by apply Hu.
    + intros x [_ ?]%list_elem_of_filter. by apply Hid.
  - cbn. rewrite IH by done. unfold survivors. f_equal. f_equal.
    apply filter_ext_in. intros x Hx. rewrite not_elem_of_cons.
    pose proof (find_id_None _ _ _ Hf Hx) as Hn. rewrite (Hid x Hx) in Hn.
    split; [|tauto]. intros ?. split; [congruence|done].
Qed.

(** ** What the closed queue is *)

Section Closed.
Context (h : heap) (idx : list loc) (s : loc) (W : gset multihash) (head_id : multihash).
Context (Ht : tree_ok h idx) (Hs : s ∈ idx).
Abbreviation queue_inv := (queue_inv h idx s W head_id).

Lemma queue_parent dn todo x d p : queue_inv dn todo → x ∈ idx → the_id h x ∈ dn ++ todo →
  deltas h !! x = Some d → _parent d = Some p → x = s ∨ (the_id h x ∉ W) ∧ p ∈ idx ∧ the_id h p ∈ dn.
Proof.
  intros Hq Hx Hin Hd Hp. destruct (queue_elem _ _ _ _ _ _ _ Hq _ Hin) as (l & Hl & Hid & _ & Hcase).
  assert (l = x) as -> by by apply (the_id_inj h idx). destruct Hcase as [?|[? (d' & p' & ? & ? & ? & ?)]];
    [by left|right]. assert (p' = p) as -> by congruence. done.
Qed.

Lemma queue_above dn todo x : queue_inv dn todo → x ∈ idx → the_id h x ∈ dn ++ todo → above h s x.
Proof.
  intros Hq. induction x as [x IH] using loc_ind. intros Hx Hin.
  destruct (queue_elem _ _ _ _ _ _ _ Hq _ Hin) as (l & Hl & Hid & _ & Hcase).
  assert (l = x) as -> by by apply (the_id_inj h idx).
  destruct Hcase as [->|[_ (d & p & Hd & Hp & Hpi & Hdn)]]; [constructor|].
  eapply above_child; [done..|]. apply IH; [|done|rewrite elem_of_app; by left].
  apply (heap_parent _ (tree_heap _ _ Ht) _ _ _ Hd Hp).
Qed.

Lemma queue_all_above q x : W = ∅ → queue_inv q [] → x ∈ idx → the_id h x ∈ q ↔ above h s x.
Proof.
  intros HW Hq Hx. split.
  - intros Hin. apply (queue_above q [] x Hq Hx). by rewrite app_nil_r.
  - intros Ha. induction Ha as [|x d p Hd Hp Ha IH].
    + pose proof (queue_start _ _ _ _ _ _ _ Hq) as H1. by rewrite app_nil_r in H1.
    + destruct (tree_node _ _ Ht _ Hx) as (d' & Hd' & _ & Hpi). assert (d' = d) as -> by congruence.
      rewrite Hp in Hpi.
      destruct (queue_closed _ _ _ _ _ _ _ Hq x d p Hx Hd Hp (IH Hpi)) as [HxW|Hin]; [set_solver|].
      by rewrite app_nil_r in Hin.
Qed.

(** With one node [w] kept, the queue is what is not below [w]. *)
Lemma queue_not_above q w ds x : W = {[the_id h w]} → w ∈ idx → w ≠ s →
  deltas h !! s = Some ds → _parent ds = None →
  (∀ x d, x ∈ idx → deltas h !! x = Some d → _parent d = None → x = s ∨ x = w) →
  queue_inv q [] → x ∈ idx → (the_id h x ∉ q) ↔ above h w x.
Proof.
  intros HW Hw Hws Hds Hdsp Hroots Hq Hx.
  assert (the_id h s ∈ q) as Hsq.
  { pose proof (queue_start _ _ _ _ _ _ _ Hq) as H1. by rewrite app_nil_r in H1. }
  split.
  - revert Hx. induction x as [x IH] using loc_ind. intros Hx Hnq.
    destruct (decide (x = w)) as [->|Hne]; [constructor|].
    destruct (tree_node _ _ Ht _ Hx) as (d & Hd & _ & Hpi).
    destruct (_parent d) as [p|] eqn:Hp.
    + eapply above_child; [done..|]. apply IH; [|done|].
      * apply (heap_parent _ (tree_heap _ _ Ht) _ _ _ Hd Hp).
      * intros Hpq. destruct (queue_closed _ _ _ _ _ _ _ Hq x d p Hx Hd Hp Hpq) as [HxW|Hin].
        -- apply Hne, (the_id_inj h idx); [done..|]. set_solver.
        -- by rewrite app_nil_r in Hin.
    + by destruct (Hroots _ _ Hx Hd Hp) as [->|?].
  - intros Ha. induction Ha as [|x d p Hd Hp Ha IH]; intros Hin.
    + destruct (queue_elem _ _ _ _ _ _ _ Hq (the_id h w)) as (l & Hl & Hid & _ & Hcase).
      { by rewrite app_nil_r. }
      assert (l = w) as -> by by apply (the_id_inj h idx). destruct Hcase as [?|[? _]]; [done|set_solver].
    + destruct (queue_parent q [] x d p Hq Hx) as [->|(_ & Hpi & Hpq)];
        [by rewrite app_nil_r|done|done|congruence|]. by apply IH.
Qed.

End Closed.

End Facts.
