(* ===== verification/StateInvariant.v ===== *)
(** Every operation of the state database keeps the invariant, and what it
    returns. *)

From S2P Require Import Prelude Keys MapBackend StateDelta StateDeltaFacts StateCommit StateDatabase StateDiscard.
From S2P Require Import StateDiscard.
Import StateDelta StateDatabase.

Section Facts.
Context `{Hcrypto : !Crypto} `{Hdisk : !Disk}.
Implicit Types (db : database) (h : heap) (d : state_delta) (l : loc).

(** ** Small changes *)

Lemma db_ok_fork_insert db r hd i l : db_ok db r hd →
  l ∈ _index db → id_at (db_heap db) l = Some i → finalized_at (db_heap db) l →
  db_ok (set_fork_heads (<[i := l]> (_fork_heads db)) db) r hd.
Proof.
  intros Hok Hl Hi Hf. split; cbn; try apply Hok.
  intros j x. rewrite lookup_insert_Some. intros [[<- <-]|[_ Hx]]; [done|by apply Hok].
Qed.

Lemma db_ok_fork_sub db r hd f : db_ok db r hd → f ⊆ _fork_heads db →
  db_ok (set_fork_heads f db) r hd.
Proof.
  intros Hok Hf. split; cbn; try apply Hok.
  intros j x Hx. apply (ok_forks _ _ _ Hok). by eapply lookup_weaken.
Qed.

Lemma db_ok_head db r hd l : db_ok db r hd → l ∈ _index db → finalized_at (db_heap db) l →
  db_ok (set_head (Some l) db) r l.
Proof. intros Hok Hl Hf. split; cbn; try apply Hok. done. Qed.

Lemma finalized_id db r hd l : db_ok db r hd → l ∈ _index db →
  id_at (db_heap db) l = Some (the_id (db_heap db) l).
Proof. intros Hok Hl. by apply (the_id_at _ (_index db)); [eapply db_tree|]. Qed.

(** The parent of an indexed node is indexed and finalized. *)
Lemma ok_parent db r hd l d p : db_ok db r hd → l ∈ _index db →
  deltas (db_heap db) !! l = Some d → _parent d = Some p →
  p ∈ _index db ∧ finalized_at (db_heap db) p.
Proof.
  intros Hok Hl Hd Hp.
  destruct (ok_node _ _ _ Hok _ Hl) as (d' & Hd' & _ & _ & [(_ & Hn & _)|(p' & dp & Hp' & Hpi & Hdp & Hf & _)]).
  - congruence.
  - assert (p' = p) as -> by congruence. split; [done|]. by exists dp.
Qed.

(** An indexed node with an indexed descendant is finalized. *)
Lemma ancestor_finalized db r hd l x : db_ok db r hd → above (db_heap db) l x → x ∈ _index db →
  x ≠ l → finalized_at (db_heap db) l.
Proof.
  intros Hok Ha. induction Ha as [|x dx p Hdx Hp Ha IH]; [done|]. intros Hx Hne.
  destruct (ok_parent _ _ _ _ _ _ Hok Hx Hdx Hp) as [Hpi Hpf].
  destruct (decide (p = l)) as [->|Hpl]; [done|]. by apply IH.
Qed.

(** ** Discard *)

Section Discard.
Context (db : database) (r hd : loc) (Hok : db_ok db r hd).

Lemma run_root_id : ∃ dr, deltas (db_heap db) !! r = Some dr ∧
  the_id (db_heap db) r = _id dr ∧ ∀ B (k : multihash → prog database exn B),
  (root ← gets_state _root; root ← deref_ptr root; i ← on_heap (id root); k i) db = k (_id dr) db.
Proof.
  destruct (ok_root _ _ _ Hok) as [Hr Hri]. destruct (ok_delta _ _ _ _ Hok Hri) as (dr & b & m & Hdr & _).
  exists dr. unfold the_id, id_at. rewrite Hdr. split_and!; [done..|]. intros B k. unfold gets_state.
  rewrite run_bind, Hr, run_bind. cbn. by rewrite run_bind, (run_on_heap_pure _ _ _ (run_id _ _ _ Hdr)).
Qed.

Lemma run_head_id : ∃ dh, deltas (db_heap db) !! hd = Some dh ∧
  the_id (db_heap db) hd = _id dh ∧ ∀ B (k : multihash → prog database exn B),
  (head ← gets_state _head; head ← deref_ptr head; i ← on_heap (id head); k i) db = k (_id dh) db.
Proof.
  destruct (ok_head _ _ _ Hok) as (Hr & Hri & _).
  destruct (ok_delta _ _ _ _ Hok Hri) as (dr & b & m & Hdr & _).
  exists dr. unfold the_id, id_at. rewrite Hdr. split_and!; [done..|]. intros B k. unfold gets_state.
  rewrite run_bind, Hr, run_bind. cbn. by rewrite run_bind, (run_on_heap_pure _ _ _ (run_id _ _ _ Hdr)).
Qed.

(** Removing a set of subtrees that spares the root and the head. *)
Lemma db_ok_remove q f : f ⊆ _fork_heads db → (∀ i, i ∈ q → f !! i = None) →
  the_id (db_heap db) r ∉ q → the_id (db_heap db) hd ∉ q →
  (∀ x d p, x ∈ _index db → deltas (db_heap db) !! x = Some d → _parent d = Some p →
     the_id (db_heap db) p ∈ q → the_id (db_heap db) x ∈ q) →
  db_ok (set_index (survivors (db_heap db) (_index db) q) (set_fork_heads f db)) r hd.
Proof.
  intros Hf Hfq Hr Hh Hcl. split; cbn.
  - apply Hok.
  - intros x y. rewrite !survivors_elem. intros [_ Hx] [_ Hy]. by apply (ok_unique _ _ _ Hok).
  - apply NoDup_filter, Hok.
  - rewrite survivors_elem. destruct (ok_root _ _ _ Hok). tauto.
  - apply Hok.
  - intros x. rewrite survivors_elem. intros [Hxq Hx].
    destruct (ok_node _ _ _ Hok _ Hx) as (d & Hd & Hv & Hn & Hcase). exists d. split_and!; [done..|].
    destruct Hcase as [?|(p & dp & Hp & Hpi & Hdp & Hfp & Hrev)]; [by left|right].
    exists p, dp. rewrite survivors_elem. split_and!; [done| |done..].
    intros Hpq. by apply Hxq, (Hcl x d p).
  - rewrite survivors_elem. destruct (ok_head _ _ _ Hok) as (? & ? & ?). tauto.
  - intros i x Hx. rewrite survivors_elem.
    destruct (ok_forks _ _ _ Hok i x) as (Hxi & Hid & Hfin); [by eapply lookup_weaken|].
    split_and!; [|done..]. intros Hin. unfold the_id in Hin. rewrite Hid in Hin. cbn in Hin.
    rewrite (Hfq _ Hin) in Hx. done.
  - apply Hok.
Qed.

(** What discarding the node [s] does. *)
Lemma discard_spec s : s ∈ _index db → s ≠ r →
  ∃ o db', discard_node_lockless (the_id (db_heap db) s) ∅ db = (o, db') ∧
    db_ok db' r hd ∧ db_heap db' = db_heap db ∧
    match o with
    | Ok _ => ¬ above (db_heap db) s hd ∧
        ∀ x, x ∈ _index db' ↔ x ∈ _index db ∧ ¬ above (db_heap db) s x
    | Throw e => e = cannot_discard ∧ above (db_heap db) s hd ∧ _index db' = _index db
    | OutOfFuel => False
    end.
Proof.
  intros Hs Hsr. pose proof (db_tree _ _ _ Hok) as Ht.
  destruct (ok_root _ _ _ Hok) as [Hroot Hri]. destruct (ok_head _ _ _ Hok) as (Hhead & Hhi & _).
  destruct (ok_delta _ _ _ _ Hok Hs) as (ds & bs & ms & Hds & _).
  unfold discard_node_lockless.
  rewrite run_bind, (run_assert_open _ _ _ Hok), run_bind, (run_get_node _ _ _ _ Hok).
  rewrite (find_id_eq _ _ _ _ _ Hok Hs (finalized_id _ _ _ _ Hok Hs)). cbn [fmap option_fmap option_map].
  destruct run_root_id as (dr & Hdr & Hidr & Hrun). rewrite Hrun, <- Hidr. clear Hrun.
  assert (the_id (db_heap db) s ≠ the_id (db_heap db) r) as Hne.
  { intros Heq. by apply Hsr, (the_id_inj _ _ Ht). }
  rewrite bool_decide_eq_true_2 by done. cbn [assert_that]. rewrite run_bind. cbn [mret prog_ret].
  destruct run_head_id as (dh & Hdh & Hidh & Hrun). rewrite Hrun, <- Hidh. clear Hrun.
  unfold gets_state at 1. rewrite run_bind, run_bind.
  destruct (run_discard_loop (db_heap db) (_index db) s ∅ (the_id (db_heap db) hd) Ht
    (S (length (_index db))) [] [the_id (db_heap db) s] db) as (o & f & Hloop & Hf & Ho);
    [done|done|by apply queue_init|cbn; lia|by intros i ?%elem_of_nil|].
  rewrite Hloop. destruct o as [q|e|]; [|clear Hloop|done].
  - destruct Ho as [Hq Hfq].
    assert (∀ x, x ∈ _index db → the_id (db_heap db) x ∈ q ↔ above (db_heap db) s x) as Hab
      by (intros x Hx; by eapply queue_all_above).
    rewrite run_bind, run_erase_all; cbn; [|apply Ht|intros; by apply (the_id_at _ (_index db))].
    set (db2 := set_index _ _).
    assert (db_ok db2 r hd) as Hok2.
    { apply db_ok_remove; [done|done| | |].
      - rewrite Hab by done. intros Ha. apply Hsr. inversion Ha as [|x d p Hd Hp]; subst; [done|].
        exfalso. pose proof (ok_root_parent _ _ _ Hok _ Hd). congruence.
      - intros Hin. apply (queue_head _ _ _ _ _ _ _ Hq Hin).
      - intros x d p Hx Hd Hp Hpq. destruct (ok_parent _ _ _ _ _ _ Hok Hx Hd Hp) as [Hpi _].
        apply Hab; [done|]. eapply above_child; [done..|]. by apply Hab. }
    assert (∀ x, x ∈ _index db2 ↔ x ∈ _index db ∧ ¬ above (db_heap db) s x) as Hidx2.
    { intros x. change (_index db2) with (survivors (db_heap db) (_index db) q). rewrite survivors_elem. split; intros [? ?]; split; try done.
      - by rewrite <- Hab.
      - by rewrite Hab. }
    assert (¬ above (db_heap db) s hd) as Hnh.
    { rewrite <- Hab by done. apply Hq. }
    rewrite run_bind, (run_on_heap_pure _ db2 _ (run_parent_id _ _ _ (ok_heap _ _ _ Hok2) Hds)).
    rewrite run_bind. unfold by_parent, gets_state.
    destruct (filter _ (_index db2)) eqn:Hsib; [|by exists (Ok tt), db2].
    destruct (tree_node _ _ Ht _ Hs) as (ds' & Hds' & _ & Hp). assert (ds' = ds) as -> by congruence.
    destruct (_parent ds) as [p|] eqn:Hpd.
    2: { exfalso. destruct (ok_node _ _ _ Hok _ Hs) as (d' & Hd' & _ & _ & [[? _]|(p & dp & Hp' & _)]);
         congruence. }
    destruct (ok_parent _ _ _ _ _ _ Hok Hs Hds Hpd) as [_ Hpf].
    assert (p ∈ _index db2) as Hp2.
    { apply Hidx2. split; [done|]. intros Ha. pose proof (above_le _ _ _ (ok_heap _ _ _ Hok) Ha).
      pose proof (heap_parent _ (ok_heap _ _ _ Hok) _ _ _ Hds Hpd). lia. }
    assert (parent_id_at (db_heap db2) s = the_id (db_heap db2) p) as ->.
    { unfold parent_id_at. change (db_heap db2) with (db_heap db). by rewrite Hds; cbn; rewrite Hpd. }
    rewrite run_bind, run_index_find.
    rewrite (find_id_eq _ _ _ _ _ Hok2 Hp2 (finalized_id _ _ _ _ Hok2 Hp2)).
    destruct (ok_delta _ _ _ _ Hok2 Hp2) as (dp & bp & mp & Hdp & _).
    rewrite run_bind, (run_on_heap_pure _ db2 _ (run_id _ _ _ Hdp)).
    eexists (Ok tt), _. split; [reflexivity|]. split_and!; [|done..].
    apply db_ok_fork_insert; [done|done|unfold id_at; by rewrite Hdp|done].
  - destruct Ho as [-> (dn & todo & Hq)].
    exists (Throw cannot_discard), (set_fork_heads f db).
    split_and!; [done|by apply db_ok_fork_sub|done|done| |done].
    eapply queue_above; [done|exact Hq|done|]. rewrite elem_of_app. right. by left.
Qed.

End Discard.

(** ** Commit *)

Section Commit.
Context (db : database) (r hd l : loc) (lock : option lock) (Hok : db_ok db r hd).
Context (Hl : l ∈ _index db) (Hlr : l ≠ r) (Hlock : verify_unique_lock lock = true).
Abbreviation h := (db_heap db).

(** The heap a commit of [l] leaves. *)
Definition commit_result (h' : heap) : Prop :=
  ∃ d b m dr, deltas h !! l = Some d ∧ _backend d = Some b ∧ view h l = Some m ∧
    deltas h !! r = Some dr ∧
    h' = set_delta l (committed_delta d b m) (set_delta r (with_backend None dr) h).

Definition commit_index : list loc := filter (λ x, x ≠ l) (_index db) ++ [l].

Lemma commit_index_elem x : x ∈ commit_index ↔ x ∈ _index db.
Proof.
  unfold commit_index. rewrite elem_of_app, list_elem_of_filter, list_elem_of_singleton.
  destruct (decide (x = l)) as [->|]; tauto.
Qed.

Section Result.
Context (h' : heap) (Hres : commit_result h').

Lemma commit_heap_ok : heap_ok h' ∧ is_Some (view h' l) ∧
  ∀ x, above h l x → view h' x = view h x.
Proof.
  destruct Hres as (d & b & m & dr & Hd & Hb & Hv & Hdr & ->).
  assert (above h r l) as Ha.
  { clear -Hok Hl. revert Hl. induction l as [y IH] using loc_ind. intros Hy.
    destruct (ok_node _ _ _ Hok _ Hy) as (dy & Hdy & _ & _ & [(-> & _)|(p & dp & Hp & Hpi & _)]);
      [constructor|]. eapply above_child; [done..|]. apply IH; [|done].
    apply (heap_parent _ (ok_heap _ _ _ Hok) _ _ _ Hdy Hp). }
  destruct (commit_heap _ _ d b m r dr (ok_heap _ _ _ Hok) Hd Hdr Hv Ha) as (? & Hv' & ?); [done|].
  split_and!; [done|by eexists|done].
Qed.

Lemma commit_delta_at x dx : deltas h !! x = Some dx → ∃ dx', deltas h' !! x = Some dx' ∧
  _id dx' = _id dx ∧ _revision dx' = _revision dx ∧ _finalized dx' = _finalized dx ∧
  (x ≠ l → _parent dx' = _parent dx) ∧ (x = l → _parent dx' = None).
Proof.
  destruct Hres as (d & b & m & dr & Hd & Hb & Hv & Hdr & ->). intros Hx. cbn.
  destruct (decide (x = l)) as [->|Hxl].
  - rewrite lookup_insert_eq. assert (dx = d) as -> by congruence. by eexists.
  - rewrite lookup_insert_ne by done. destruct (decide (x = r)) as [->|Hxr].
    + rewrite lookup_insert_eq. assert (dx = dr) as -> by congruence. by eexists.
    + rewrite lookup_insert_ne by done. by eexists.
Qed.

Lemma commit_id x : x ∈ _index db → id_at h' x = id_at h x.
Proof.
  intros Hx. destruct (ok_delta _ _ _ _ Hok Hx) as (dx & _ & _ & Hdx & _).
  destruct (commit_delta_at _ _ Hdx) as (dx' & Hdx' & Hi & _). unfold id_at. rewrite Hdx, Hdx'. cbn.
  by f_equal.
Qed.

Lemma commit_the_id x : x ∈ _index db → the_id h' x = the_id h x.
Proof. intros Hx. unfold the_id. by rewrite commit_id. Qed.

Lemma commit_tree : tree_ok h' commit_index.
Proof.
  split; [apply commit_heap_ok| | |].
  - intros x y. rewrite !commit_index_elem. intros Hx Hy. rewrite !commit_id by done.
    by apply (ok_unique _ _ _ Hok).
  - unfold commit_index. apply NoDup_app. split_and!; [apply NoDup_filter, Hok| |apply NoDup_singleton].
    intros x [? _]%list_elem_of_filter ->%list_elem_of_singleton. done.
  - intros x. rewrite commit_index_elem. intros Hx.
    destruct (tree_node _ _ (db_tree _ _ _ Hok) _ Hx) as (dx & Hdx & Hn & Hp).
    destruct (commit_delta_at _ _ Hdx) as (dx' & Hdx' & Hi & _ & _ & Hpn & Hpl).
    exists dx'. split_and!; [done|congruence|]. destruct (decide (x = l)) as [->|Hxl].
    + by rewrite Hpl.
    + rewrite Hpn by done. destruct (_parent dx); [|done]. by rewrite commit_index_elem.
Qed.

Lemma commit_above x : x ∈ _index db → above h' l x ↔ above h l x.
Proof.
  intros Hx. split; induction 1 as [|x dx p Hdx Hp Ha IH]; try constructor.
  - destruct (ok_delta _ _ _ _ Hok Hx) as (dx0 & _ & _ & Hdx0 & _).
    destruct (commit_delta_at _ _ Hdx0) as (dx' & Hdx' & _ & _ & _ & Hpn & Hpl).
    assert (dx' = dx) as -> by congruence.
    destruct (decide (x = l)) as [->|Hxl]; [constructor|]. rewrite Hpn in Hp by done.
    eapply above_child; [done..|]. apply IH. by eapply ok_parent.
  - destruct (commit_delta_at _ _ Hdx) as (dx' & Hdx' & _ & _ & _ & Hpn & Hpl).
    destruct (decide (x = l)) as [->|Hxl]; [constructor|].
    eapply above_child; [done|by rewrite Hpn|]. apply IH. by eapply ok_parent.
Qed.

Lemma commit_roots x d : x ∈ commit_index → deltas h' !! x = Some d → _parent d = None → x = r ∨ x = l.
Proof.
  rewrite commit_index_elem. intros Hx Hd Hp.
  destruct (ok_node _ _ _ Hok _ Hx) as (dx & Hdx & _ & _ & [(-> & _)|(p & dp & Hpp & _)]); [by left|right].
  destruct (commit_delta_at _ _ Hdx) as (dx' & Hdx' & _ & _ & _ & Hpn & _).
  destruct (decide (x = l)); [done|]. rewrite <- Hpn in Hpp by done. congruence.
Qed.

End Result.

(** The database in the middle of the commit, when the old root's subtree
    is about to be discarded. *)
Definition commit_mid (h' : heap) : database :=
  set_index commit_index (set_heap h' (set_root (Some l) db)).

Lemma commit_prefix : ∃ h', commit_result h' ∧
  commit_node (the_id h l) lock db
  = discard_node_lockless (the_id h r) {[the_id h l]} (commit_mid h').
Proof.
  destruct (ok_root _ _ _ Hok) as [Hroot Hri].
  destruct (ok_delta _ _ _ _ Hok Hl) as (d & b & m & Hd & Hb & Hv).
  pose proof (db_tree _ _ _ Hok) as Ht.
  destruct (ok_node _ _ _ Hok _ Hl) as (d' & Hd' & _ & _ & [[? _]|(p & dp & Hp & _)]); [done|].
  assert (d' = d) as -> by congruence.
  destruct (commit_spec _ _ _ _ _ _ (ok_heap _ _ _ Hok) Hd Hb Hp Hv)
    as (r' & dr & Hr' & Hr'p & Ha & Hr'l & Hrun).
  assert (r' = r) as ->.
  { clear -Hok Hl Ha Hr' Hr'p. induction Ha as [|x dx p Hdx Hp Ha IH].
    - destruct (ok_node _ _ _ Hok _ Hl) as (d & Hd & _ & _ & [[? _]|(p & dp & Hp & _)]); [done|congruence].
    - apply IH. by eapply ok_parent. }
  eexists. split; [exists d, b, m, dr; split_and!; done|].
  unfold commit_node. rewrite Hlock. cbn [assert_that]. rewrite run_bind. cbn [mret prog_ret].
  rewrite run_bind, (run_assert_open _ _ _ Hok).
  unfold gets_state. rewrite run_bind, Hroot, run_bind. cbn [deref_ptr mret prog_ret].
  rewrite run_bind, (run_on_heap_pure _ _ _ (run_id _ _ _ Hr')).
  assert (the_id h r = _id dr) as Hidr by (unfold the_id, id_at; by rewrite Hr').
  rewrite <- Hidr. rewrite bool_decide_eq_false_2 by (intros Heq; by apply Hlr, (the_id_inj _ _ Ht)).
  rewrite run_bind, (run_get_node _ _ _ _ Hok).
  rewrite (find_id_eq _ _ _ _ _ Hok Hl (finalized_id _ _ _ _ Hok Hl)). cbn [fmap option_fmap option_map].
  rewrite run_bind. unfold mod_state at 1. cbn [_state].
  rewrite run_bind, (run_on_heap _ (set_root (Some l) db) _ _ Hrun).
  rewrite run_bind. unfold mod_state.
  set (h' := set_delta l _ _). set (db1 := set_index _ _).
  assert (∃ dr', deltas (db_heap db1) !! r = Some dr' ∧ _id dr' = _id dr) as (dr' & Hdr' & Hir).
  { exists (with_backend None dr). unfold db1, h'. cbn.
    rewrite lookup_insert_ne, lookup_insert_eq by done. done. }
  rewrite run_bind, (run_on_heap_pure _ db1 _ (run_id _ _ _ Hdr')). rewrite Hir, <- Hidr. done.
Qed.

Lemma find_id_tree db0 x : tree_ok (db_heap db0) (_index db0) → x ∈ _index db0 →
  find_id db0 (the_id (db_heap db0) x) = Some x.
Proof.
  intros Ht Hx. destruct (the_id_at _ _ _ Ht Hx) as [Hid _].
  destruct (find_id db0 (the_id (db_heap db0) x)) as [y|] eqn:Hf.
  - apply find_id_Some in Hf as [Hy Hyi]. f_equal. apply (tree_unique _ _ Ht); [done..|congruence].
  - by destruct (find_id_None _ _ _ Hf Hx).
Qed.

(** Discarding what is not below the new root. *)
Lemma discard_mid h' : commit_result h' →
  ∃ o f, discard_node_lockless (the_id h r) {[the_id h l]} (commit_mid h') = o ∧
    f ⊆ _fork_heads db ∧
    (above h l hd ∧ (∃ q, o = (Ok tt, set_index (survivors h' commit_index q)
                                       (set_fork_heads f (commit_mid h'))) ∧
       (∀ i, i ∈ q → f !! i = None) ∧
       (∀ x, x ∈ _index db → (the_id h x ∉ q) ↔ above h l x)) ∨
     ¬ above h l hd ∧ o = (Throw cannot_discard, set_fork_heads f (commit_mid h'))).
Proof.
  intros Hres. pose proof (commit_tree h' Hres) as Ht.
  destruct (ok_root _ _ _ Hok) as [Hroot Hri]. destruct (ok_head _ _ _ Hok) as (Hhead & Hhi & _).
  destruct (ok_delta _ _ _ _ Hok Hri) as (dr & br & mr & Hdr & _).
  destruct (commit_delta_at _ Hres _ _ Hdr) as (dr' & Hdr' & Hidr & _ & _ & Hrp & _).
  assert (_parent dr' = None) as Hrp' by (rewrite Hrp by done; by apply (ok_root_parent _ _ _ Hok)).
  destruct (ok_delta _ _ _ _ Hok Hl) as (dl & bl & ml & Hdl & _).
  destruct (commit_delta_at _ Hres _ _ Hdl) as (dl' & Hdl' & Hidl & _ & _ & _ & Hlp).
  destruct (ok_delta _ _ _ _ Hok Hhi) as (dh & bh & mh & Hdh & _).
  destruct (commit_delta_at _ Hres _ _ Hdh) as (dh' & Hdh' & Hidh & _).
  assert (r ∈ commit_index) as Hri' by by apply commit_index_elem.
  assert (l ∈ commit_index) as Hli' by by apply commit_index_elem.
  assert (hd ∈ commit_index) as Hhi' by by apply commit_index_elem.
  unfold discard_node_lockless.
  assert (assert_open (commit_mid h') = (Ok tt, commit_mid h')) as Hopen.
  { unfold assert_open, gets_state. rewrite run_bind. unfold is_open. cbn. by rewrite Hhead. }
  rewrite run_bind, Hopen, run_bind. unfold get_node_lockless at 1.
  rewrite run_bind, Hopen, run_bind, run_index_find.
  rewrite <- (commit_the_id h' Hres r Hri).
  assert (find_id (commit_mid h') (the_id h' r) = Some r) as -> by exact (find_id_tree (commit_mid h') r Ht Hri').
  cbn [fmap option_fmap option_map mret prog_ret].
  rewrite run_gets. change (_root (commit_mid h')) with (Some l).
  rewrite run_bind. cbn [deref_ptr mret prog_ret].
  rewrite run_bind, (run_on_heap_pure _ (commit_mid h') _ (run_id h' l dl' Hdl')).
  assert (the_id h' l = _id dl') as Hthl by (unfold the_id, id_at; by rewrite Hdl').
  rewrite <- Hthl. rewrite bool_decide_eq_true_2; cycle 1.
  { intros Heq. by apply Hlr, (the_id_inj h' commit_index). }
  cbn [assert_that]. rewrite run_bind. cbn [mret prog_ret].
  rewrite run_gets. change (_head (commit_mid h')) with (_head db).
  rewrite Hhead, run_bind. cbn [deref_ptr mret prog_ret].
  rewrite run_bind, (run_on_heap_pure _ (commit_mid h') _ (run_id h' hd dh' Hdh')).
  assert (the_id h' hd = _id dh') as Hthh by (unfold the_id, id_at; by rewrite Hdh').
  rewrite <- Hthh. rewrite run_gets, run_bind.
  rewrite <- (commit_the_id h' Hres l Hl).
  destruct (run_discard_loop h' commit_index r {[the_id h' l]} (the_id h' hd) Ht
    (S (length commit_index)) [] [the_id h' r] (commit_mid h')) as (o & f & Hloop & Hf & Ho);
    [done|done|by apply queue_init|cbn; lia|by intros i ?%elem_of_nil|].
  change (_index (commit_mid h')) with commit_index. rewrite Hloop.
  assert (∀ q x, queue_inv h' commit_index r {[the_id h' l]} (the_id h' hd) q [] → x ∈ _index db →
    (the_id h' x ∉ q) ↔ above h l x) as Hq_above.
  { intros q x Hq Hx. rewrite <- (commit_above h' Hres x Hx).
    apply (queue_not_above h' commit_index r {[the_id h' l]} (the_id h' hd) Ht Hri' q l dr'); try done.
    - intros y d. apply (commit_roots h' Hres).
    - by apply commit_index_elem. }
  destruct o as [q|e|]; [|clear Hloop|done].
  - destruct Ho as [Hq Hfq]. rewrite run_bind, run_erase_all; cbn [db_heap _index commit_mid set_index
      set_heap set_root set_fork_heads]; [|apply Ht|intros; by apply (the_id_at _ commit_index)].
    set (db2 := set_index (survivors _ _ _) _).
    rewrite run_bind, (run_on_heap_pure _ db2 _ (run_parent_id h' r dr' (tree_heap _ _ Ht) Hdr')).
    rewrite run_bind. unfold by_parent, gets_state.
    assert (l ∈ filter (λ x, parent_id_at (db_heap db2) x = parent_id_at h' r) (_index db2)) as Hsib.
    { apply list_elem_of_filter. split.
      - unfold parent_id_at. change (db_heap db2) with h'. rewrite Hdr', Hdl'. cbn. by rewrite Hrp', Hlp.
      - apply survivors_elem. split; [|done]. apply (Hq_above q l Hq Hl). constructor. }
    destruct (filter _ (_index db2)) eqn:Hfil; [by apply elem_of_nil in Hsib|].
    eexists _, f. split; [reflexivity|]. split; [done|]. left. split.
    + apply (Hq_above q hd Hq Hhi). apply (queue_head _ _ _ _ _ _ _ Hq).
    + exists q. split_and!; [done|done|]. intros x Hx. rewrite <- (commit_the_id h' Hres x Hx).
      by apply Hq_above.
  - destruct Ho as [-> (dn & todo & Hq)].
    eexists _, f. split; [reflexivity|]. split; [done|]. right. split; [|done].
    intros Ha. revert Hq. apply (commit_above h' Hres hd Hhi) in Ha.
    intros Hq.
    assert (∀ x, above h' l x → x ∈ commit_index → the_id h' x ∈ dn ++ the_id h' hd :: todo → False) as Hno.
    { intros x Hx. induction Hx as [|x dx p Hdx Hp Hx IH]; intros Hxi Hin.
      - destruct (queue_elem _ _ _ _ _ _ _ Hq _ Hin) as (y & Hy & Hyl & _ & Hcase).
        assert (y = l) as -> by by apply (the_id_inj h' commit_index).
        destruct Hcase as [?|[Hn _]]; [done|]. apply Hn, elem_of_singleton. done.
      - destruct (queue_parent _ _ _ _ _ Ht _ _ _ _ _ Hq Hxi Hin Hdx Hp) as [->|(_ & Hpi & Hpq)].
        + congruence.
        + apply IH; [done|]. rewrite elem_of_app. by left. }
    apply (Hno hd Ha Hhi'). rewrite elem_of_app. right. by left.
Qed.

(** A commit on the head's chain makes the node the root, keeps exactly its
    subtree, and no view in it changes; off the head's chain it throws, with
    the node already committed and the old root stripped of its backend. *)
Lemma commit_node_spec : ∃ h' f, commit_result h' ∧ f ⊆ _fork_heads db ∧
  (above h l hd ∧ (∃ db', commit_node (the_id h l) lock db = (Ok tt, db') ∧ db_ok db' l hd ∧
     db_heap db' = h' ∧ (_fork_heads db' = f ∧ _comp db' = _comp db) ∧
     ∀ x, x ∈ _index db' ↔ x ∈ _index db ∧ above h l x) ∨
   ¬ above h l hd ∧
     commit_node (the_id h l) lock db = (Throw cannot_discard, set_fork_heads f (commit_mid h'))).
Proof.
  destruct commit_prefix as (h' & Hres & ->). destruct (discard_mid h' Hres) as (o & f & -> & Hf & Hcase).
  exists h', f. split_and!; [done|done|].
  destruct Hcase as [(Ha & q & -> & Hfq & Hq)|[Ha ->]]; [left|by right].
  split; [done|]. eexists. split; [reflexivity|].
  destruct (commit_heap_ok h' Hres) as (Hok' & Hvl & Hviews).
  assert (∀ x, x ∈ survivors h' commit_index q ↔ x ∈ _index db ∧ above h l x) as Hidx.
  { intros x. rewrite survivors_elem, commit_index_elem. split.
    - intros [Hnq Hx]. split; [done|]. apply Hq; [done|]. by rewrite <- (commit_the_id h' Hres).
    - intros [Hx Hax]. split; [|done]. rewrite (commit_the_id h' Hres) by done. by apply Hq. }
  split_and!; [|done|done|done|exact Hidx].
  destruct (ok_head _ _ _ Hok) as (Hhead & Hhi & dh & Hdh & Hdhf).
  assert (∀ x, finalized_at h x → finalized_at h' x) as Hfin.
  { intros x (dx & Hdx & Hfx). destruct (commit_delta_at _ Hres _ _ Hdx) as (dx' & ? & _ & _ & ? & _).
    exists dx'. split; [done|congruence]. }
  assert (finalized_at h l) as Hlf.
  { destruct (decide (hd = l)) as [<-|Hne]; [by exists dh|].
    by eapply (ancestor_finalized db r hd l hd). }
  split; cbn.
  - done.
  - intros x y Hx Hy. apply Hidx in Hx as [Hx _]. apply Hidx in Hy as [Hy _].
    rewrite !(commit_id h' Hres) by done. by apply (ok_unique _ _ _ Hok).
  - apply NoDup_filter, (tree_NoDup _ _ (commit_tree h' Hres)).
  - split; [done|]. apply Hidx. split; [done|constructor].
  - intros d Hd. destruct (ok_delta _ _ _ _ Hok Hl) as (dl & _ & _ & Hdl & _).
    destruct (commit_delta_at _ Hres _ _ Hdl) as (dl' & Hdl' & _ & _ & _ & _ & Hp).
    assert (dl' = d) as -> by congruence. by apply Hp.
  - intros x Hx. apply Hidx in Hx as [Hx Hax].
    destruct (ok_node _ _ _ Hok _ Hx) as (dx & Hdx & Hvx & Hn & Hcase).
    destruct (commit_delta_at _ Hres _ _ Hdx) as (dx' & Hdx' & Hi & Hrev & Hfi & Hpn & Hpl).
    exists dx'. split_and!; [done|by rewrite Hviews|congruence|].
    destruct (decide (x = l)) as [->|Hxl].
    + left. split_and!; [done|by apply Hpl|]. destruct Hlf as (d2 & Hd2 & ?). congruence.
    + destruct Hcase as [(-> & _)|(p & dp & Hp & Hpi & Hdp & Hfp & Hr)].
      { exfalso. inversion Hax as [|x d p Hd Hp]; subst; [done|].
        pose proof (ok_root_parent _ _ _ Hok _ Hd). congruence. }
      right. destruct (commit_delta_at _ Hres _ _ Hdp) as (dp' & Hdp' & _ & Hrev' & Hfi' & _).
      exists p, dp'. split_and!; [by rewrite Hpn| |done|congruence|congruence].
      apply Hidx. split; [done|]. inversion Hax as [|x' d p' Hd Hp']; subst; [done|]. congruence.
  - split_and!; [done| |apply Hfin; by exists dh]. apply Hidx. done.
  - intros i x Hx. destruct (ok_forks _ _ _ Hok i x) as (Hxi & Hid & Hxf); [by eapply lookup_weaken|].
    rewrite (commit_id h' Hres) by done. split_and!; [|done|by apply Hfin].
    apply survivors_elem. rewrite commit_index_elem. split; [|done].
    rewrite (commit_the_id h' Hres) by done. unfold the_id. rewrite Hid. cbn. intros Hin.
    by rewrite (Hfq _ Hin) in Hx.
  - apply Hok.
Qed.

End Commit.

End Facts.
