(* ===== verification/StateGrow.v ===== *)
(** Finalizing, creating and cloning nodes, the comparators, and the
    databases reachable by any sequence of operations.

    Exact results of the operations by which a database grows, when no other
    thread interferes: finalizing under [fifo], cloning a node that is not
    finalized, creating a child of a finalized node. *)

From S2P Require Import Prelude Keys MapBackend StateDelta StateNode StateDeltaFacts StateCommit.
From S2P Require Import StateDatabase StateDiscard StateInvariant.
Import StateDelta StateDatabase.

Section Facts.
Context `{Hcrypto : !Crypto} `{Hdisk : !Disk}.
Implicit Types (db : database) (h : heap) (d : state_delta) (l : loc).

(** ** Comparators *)

(** A node whose id, revision and header can be read. *)
Definition readable h l : Prop := ∃ d b, deltas h !! l = Some d ∧ _backend d = Some b.

Lemma view_readable h l : heap_ok h → is_Some (view h l) → readable h l.
Proof. intros Hok [m Hv]. destruct (view_inv _ _ _ Hok Hv) as (d & b & Hd & Hb & _). by exists d, b. Qed.

Lemma view_parent h l d p : heap_ok h → is_Some (view h l) → deltas h !! l = Some d →
  _parent d = Some p → is_Some (view h p).
Proof.
  intros Hok [m Hv] Hd Hp. destruct (view_inv _ _ _ Hok Hv) as (d' & b & Hd' & _ & Hm).
  assert (d' = d) as -> by congruence. rewrite Hp in Hm. destruct Hm as (m' & -> & _). by eexists.
Qed.

Lemma run_priority h a b : readable h a → readable h b → ∃ o, priority a b h = (Ok o, h).
Proof.
  intros (da & ba & Hda & Hba) (dbb & bb & Hdb & Hbb). unfold priority.
  rewrite run_bind, (run_revision _ _ _ Hda), run_bind, (run_revision _ _ _ Hdb).
  destruct (_ <? _); [by eexists|]. destruct (_ <? _); [by eexists|].
  rewrite run_bind, (run_block_header _ _ _ _ Hda Hba), run_bind, (run_block_header _ _ _ _ Hdb Hbb).
  destruct (_ <? _); [by eexists|]. destruct (_ <? _); [by eexists|].
  rewrite run_bind, (run_id _ _ _ Hda), run_bind, (run_id _ _ _ Hdb). by eexists.
Qed.

Lemma run_best_fork h f forks : (∀ x, x ∈ f :: forks → readable h x) →
  ∃ x, best_fork f forks h = (Ok x, h) ∧ x ∈ f :: forks.
Proof.
  revert f. induction forks as [|g forks IH]; intros f Hr; cbn [best_fork].
  { exists f. split; [done|by left]. }
  destruct (run_priority h g f) as [o Ho]; [apply Hr; by right; left|apply Hr; by left|].
  rewrite run_bind, Ho. destruct (IH (if o then g else f)) as (x & -> & Hx).
  { intros x [->|Hx]%elem_of_cons; apply Hr; [destruct o; [by right; left|by left]|by right; right]. }
  exists x. split; [done|]. apply elem_of_cons in Hx as [->|Hx]; [destruct o; [by right; left|by left]|].
  by right; right.
Qed.

Lemma run_remove_first h i forks : (∀ x, x ∈ forks → readable h x) →
  ∃ fs : list loc, remove_first i forks h = (Ok fs, h) ∧ ∀ x, x ∈ fs → x ∈ forks.
Proof.
  induction forks as [|f forks IH]; intros Hr; cbn [remove_first]; [by exists []|].
  destruct (Hr f ltac:(by left)) as (d & b & Hd & _). rewrite run_bind, (run_id _ _ _ Hd).
  case_bool_decide.
  - exists forks. split; [done|]. intros x Hx. by right.
  - destruct IH as (fs & Hl & Hsub); [intros; apply Hr; by right|].
    exists (f :: fs). rewrite run_bind, Hl. split; [done|].
    intros x [->|Hx]%elem_of_cons; [by left|right; by apply Hsub].
Qed.

Lemma good_fifo : good_comp fifo_comparator.
Proof. intros h forks a b _ _. exists (Ok (Some a)). split; [done|by left]. Qed.

Lemma good_block_time : good_comp block_time_comparator.
Proof.
  intros h forks a b Hok Hr.
  destruct (view_readable _ _ Hok (Hr a ltac:(by left))) as (da & ba & Hda & Hba).
  destruct (view_readable _ _ Hok (Hr b ltac:(by right; left))) as (dbb & bb & Hdb & Hbb).
  unfold block_time_comparator.
  rewrite run_bind, (run_block_header _ _ _ _ Hdb Hbb), run_bind, (run_block_header _ _ _ _ Hda Hba).
  eexists. split; [reflexivity|]. cbn. destruct (_ <? _); [by right; left|by left].
Qed.

Lemma good_pob : good_comp pob_comparator.
Proof.
  intros h forks a b Hok Hr.
  destruct (view_readable _ _ Hok (Hr a ltac:(by left))) as (da & ba & Hda & Hba).
  destruct (view_readable _ _ Hok (Hr b ltac:(by right; left))) as (dbb & bb & Hdb & Hbb).
  unfold pob_comparator.
  rewrite run_bind, (run_block_header _ _ _ _ Hda Hba), run_bind, (run_block_header _ _ _ _ Hdb Hbb).
  case_bool_decide.
  { eexists. split; [reflexivity|]. cbn. destruct (_ <? _); [by right; left|by left]. }
  rewrite run_bind, (run_id _ _ _ Hda), run_bind.
  assert (∀ x, x ∈ forks → readable h x) as Hrf.
  { intros x Hx. apply view_readable; [done|]. apply Hr. by right; right. }
  destruct (run_remove_first h (_id da) forks Hrf) as (fs & -> & Hsub).
  destruct fs as [|f fs]; [exists (Ok None); by split|].
  destruct (run_best_fork h f fs) as (x & Hbest & Hx); [intros y Hy; by apply Hrf, Hsub|].
  rewrite run_bind, Hbest, run_bind, (run_parent _ _ _ Hda).
  destruct (_parent da) as [p|] eqn:Hp; [|exists (Throw null_dereference); by split].
  destruct (run_priority h p x) as [o Ho].
  - apply view_readable; [done|]. apply (view_parent h a da p); [done| |done..]. apply Hr. by left.
  - by apply Hrf, Hsub.
  - rewrite run_bind, Ho. eexists. split; [reflexivity|]. cbn. destruct o; [done|].
    right; right. by apply Hsub.
Qed.

Lemma good_algo algo : good_comp (comparator_of algo).
Proof. destruct algo; [apply good_fifo|apply good_block_time|apply good_pob]. Qed.

(** ** Finalize *)

(** Flags that no view depends on. *)
Lemma view_finalized h l d f x : heap_ok h → deltas h !! l = Some d →
  view (set_delta l (with_finalized f d) h) x = view h x.
Proof.
  intros Hok Hd. apply view_same_core; [done|eapply set_delta_ok; [done..|by left]|].
  intros y. destruct (decide (y = l)) as [->|Hne].
  - rewrite set_delta_lookup, Hd. done.
  - by apply core_set_delta_ne.
Qed.

Lemma fork_heads_list_elem db l : l ∈ fork_heads_list db → ∃ i, _fork_heads db !! i = Some l.
Proof.
  unfold fork_heads_list. rewrite list_elem_of_fmap. intros ([i l'] & -> & Hin).
  rewrite merge_sort_Permutation in Hin. apply elem_of_map_to_list in Hin. by exists i.
Qed.

(** Choosing the head among nodes of the same revision. *)
Definition choose_head (node : loc) : prog database exn unit :=
  forks ← gets_state fork_heads_list;
  comp ← gets_state _comp;
  head ← get_head_lockless;
  let head := _state head in
  match comp with
  | None => raise null_dereference
  | Some comp =>
    new_head ← on_heap (comp forks head node);
    match new_head with
    | Some new_head => mod_state (set_head (Some new_head))
    | None =>
      head_parent ← on_heap (parent head); head_parent ← deref_ptr head_parent;
      mod_state (set_head (Some head_parent));;
      head_id ← on_heap (id head);
      mod_state (λ db, set_fork_heads (delete head_id (_fork_heads db)) db);;
      head_parent_id ← on_heap (id head_parent);
      mod_state (λ db, set_fork_heads (<[head_parent_id := head_parent]> (_fork_heads db)) db)
    end
  end.

Lemma choose_head_spec db r hd x : db_ok db r hd → x ∈ _index db → finalized_at (db_heap db) x →
  ∃ o db' hd', choose_head x db = (o, db') ∧ db_ok db' r hd' ∧ o ≠ OutOfFuel ∧
    db_heap db' = db_heap db ∧ _index db' = _index db.
Proof.
  intros Hok Hx Hf. unfold choose_head. rewrite !run_gets.
  destruct (ok_comp _ _ _ Hok) as (c & Hcomp & Hgood).
  destruct (ok_head _ _ _ Hok) as (Hhead & Hhi & Hhf).
  rewrite run_bind. unfold get_head_lockless.
  rewrite run_bind, (run_assert_open _ _ _ Hok), run_gets, Hhead, run_bind. cbn [deref_ptr mret prog_ret].
  rewrite Hcomp, run_bind. cbn [_state].
  destruct (Hgood (db_heap db) (fork_heads_list db) hd x (ok_heap _ _ _ Hok)) as (o & Hrun & Ho).
  { intros y. rewrite !elem_of_cons. intros [->|[->|Hy]].
    - destruct (ok_node _ _ _ Hok _ Hhi) as (? & _ & ? & _). done.
    - destruct (ok_node _ _ _ Hok _ Hx) as (? & _ & ? & _). done.
    - apply fork_heads_list_elem in Hy as [i Hi]. destruct (ok_forks _ _ _ Hok _ _ Hi) as (Hyi & _).
      destruct (ok_node _ _ _ Hok _ Hyi) as (? & _ & ? & _). done. }
  rewrite (run_on_heap_pure _ _ _ Hrun). destruct o as [[y|]|e|]; [| | |done].
  - exists (Ok tt), (set_head (Some y) db), y. split_and!; [done| |done..].
    rewrite !elem_of_cons in Ho. apply (db_ok_head _ _ hd); [done| |].
    + destruct Ho as [->|[->|Hy]]; [done..|]. apply fork_heads_list_elem in Hy as [i Hi].
      by apply (ok_forks _ _ _ Hok) in Hi as (? & _).
    + destruct Ho as [->|[->|Hy]]; [done..|]. apply fork_heads_list_elem in Hy as [i Hi].
      by apply (ok_forks _ _ _ Hok) in Hi as (_ & _ & ?).
  - destruct (ok_delta _ _ _ _ Hok Hhi) as (dh & _ & _ & Hdh & _).
    rewrite run_bind, (run_on_heap_pure _ _ _ (run_parent _ _ _ Hdh)), run_bind.
    destruct (_parent dh) as [p|] eqn:Hp; [|by exists (Throw null_dereference), db, hd].
    cbn [deref_ptr mret prog_ret].
    destruct (ok_parent _ _ _ _ _ _ Hok Hhi Hdh Hp) as [Hpi Hpf].
    destruct (ok_delta _ _ _ _ Hok Hpi) as (dp & _ & _ & Hdp & _).
    rewrite run_bind. unfold mod_state at 1.
    rewrite run_bind, (run_on_heap_pure _ (set_head (Some p) db) _ (run_id (db_heap db) _ _ Hdh)).
    rewrite run_bind. unfold mod_state at 1. set (db1 := set_fork_heads _ _).
    rewrite run_bind, (run_on_heap_pure _ db1 _ (run_id (db_heap db) _ _ Hdp)).
    eexists (Ok tt), _, p. split; [reflexivity|]. split_and!; [|done..].
    assert (db_ok db1 r p) as Hok1.
    { apply db_ok_fork_sub; [by apply (db_ok_head _ _ hd)|apply delete_subseteq]. }
    apply db_ok_fork_insert; [done|done| |done]. unfold id_at. cbn. by rewrite Hdp.
  - exists (Throw e), db, hd. done.
Qed.

(** Registering a finalized node among the fork heads. *)
Definition register_fork (node : loc) : prog database exn unit :=
  node_parent_id ← on_heap (parent_id node);
  head ← gets_state _head; head ← deref_ptr head;
  head_id ← on_heap (id head);
  if bool_decide (node_parent_id ≠ head_id) then
    mod_state (λ db, set_fork_heads (delete node_parent_id (_fork_heads db)) db);;
    node_id ← on_heap (id node);
    mod_state (λ db, set_fork_heads (<[node_id := node]> (_fork_heads db)) db)
  else mret tt.

Lemma register_fork_spec db r hd x : db_ok db r hd → x ∈ _index db → finalized_at (db_heap db) x →
  ∃ f, register_fork x db = (Ok tt, set_fork_heads f db) ∧ db_ok (set_fork_heads f db) r hd.
Proof.
  intros Hok Hx Hf. unfold register_fork.
  destruct (ok_delta _ _ _ _ Hok Hx) as (dx & _ & _ & Hdx & _).
  destruct (ok_head _ _ _ Hok) as (Hhead & Hhi & _).
  destruct (ok_delta _ _ _ _ Hok Hhi) as (dh & _ & _ & Hdh & _).
  rewrite run_bind, (run_on_heap_pure _ _ _ (run_parent_id _ _ _ (ok_heap _ _ _ Hok) Hdx)).
  rewrite run_gets, Hhead, run_bind. cbn [deref_ptr mret prog_ret].
  rewrite run_bind, (run_on_heap_pure _ _ _ (run_id _ _ _ Hdh)). case_bool_decide.
  - rewrite run_bind. unfold mod_state at 1. set (db1 := set_fork_heads _ _).
    rewrite run_bind, (run_on_heap_pure _ db1 _ (run_id (db_heap db) _ _ Hdx)).
    eexists. split; [reflexivity|].
    apply (db_ok_fork_insert db1); [by apply db_ok_fork_sub; [|apply delete_subseteq]|done| |done].
    unfold id_at. cbn. by rewrite Hdx.
  - exists (_fork_heads db). destruct db. done.
Qed.

Lemma finalize_node_eq db r hd x d : db_ok db r hd → x ∈ _index db →
  deltas (db_heap db) !! x = Some d →
  let db1 := set_heap (set_delta x (with_finalized true d) (db_heap db)) db in
  ∃ dh, deltas (db_heap db1) !! hd = Some dh ∧
  finalize_node_lockless (the_id (db_heap db) x) db
  = ((if _revision dh <? _revision d then mod_state (set_head (Some x))
      else if _revision d =? _revision dh then choose_head x else mret tt);;
     register_fork x) db1.
Proof.
  intros Hok Hx Hd db1.
  assert (∃ dh, deltas (db_heap db1) !! hd = Some dh) as [dh Hdh].
  { destruct (ok_head _ _ _ Hok) as (_ & Hhi & _).
    destruct (ok_delta _ _ _ _ Hok Hhi) as (dh & _ & _ & Hdh & _). cbn.
    destruct (decide (x = hd)) as [->|]; [rewrite lookup_insert_eq|rewrite lookup_insert_ne by done];
      by eexists. }
  exists dh. split; [done|]. unfold finalize_node_lockless.
  rewrite run_bind, (run_assert_open _ _ _ Hok), run_bind, (run_get_node _ _ _ _ Hok).
  rewrite (find_id_eq _ _ _ _ _ Hok Hx (finalized_id _ _ _ _ Hok Hx)). cbn [fmap option_fmap option_map _state].
  rewrite run_bind. unfold finalize at 1.
  rewrite (run_on_heap _ _ _ _ (run_modify _ _ _ _ Hd)). fold db1.
  rewrite run_gets. change (_head db1) with (_head db). destruct (ok_head _ _ _ Hok) as (-> & _).
  rewrite run_bind. cbn [deref_ptr mret prog_ret].
  rewrite run_bind, (run_on_heap_pure _ db1 _ (run_revision _ _ _ (set_delta_lookup _ _ _))).
  rewrite run_bind, (run_on_heap_pure _ db1 _ (run_revision _ _ _ Hdh)). done.
Qed.

(** Setting the flag leaves an ok database with the same views. *)
Lemma finalize_ok db r hd x d : db_ok db r hd → x ∈ _index db →
  deltas (db_heap db) !! x = Some d →
  let db1 := set_heap (set_delta x (with_finalized true d) (db_heap db)) db in
  ∃ dh, deltas (db_heap db1) !! hd = Some dh ∧
  finalize_node_lockless (the_id (db_heap db) x) db
  = ((if _revision dh <? _revision d then mod_state (set_head (Some x))
      else if _revision d =? _revision dh then choose_head x else mret tt);;
     register_fork x) db1 ∧
  db_ok db1 r hd ∧ finalized_at (db_heap db1) x ∧
  ∀ y, view (db_heap db1) y = view (db_heap db) y.
Proof.
  intros Hok Hx Hd db1.
  destruct (finalize_node_eq db r hd x d Hok Hx Hd) as (dh & Hdh & Heq).
  destruct (ok_delta _ _ _ _ Hok Hx) as (d0 & b & m & Hd0 & Hb & Hv). assert (d0 = d) as -> by congruence.
  assert (∀ y, view (db_heap db1) y = view (db_heap db) y) as Hviews
    by (intros y; by apply view_finalized; [apply Hok|]).
  exists dh. split_and!; [done|done| |exists (with_finalized true d); split; [apply set_delta_lookup|done]|done].
  apply db_ok_set_heap; [done|eapply set_delta_ok; [apply Hok|done|by left]|].
  intros y dy Hy Hdy. destruct (decide (x = y)) as [->|Hne].
  - exists (with_finalized true d). assert (dy = d) as -> by congruence.
    rewrite set_delta_lookup. split_and!; [done..|]. change (is_Some (view (db_heap db1) y)).
    rewrite Hviews. by eexists.
  - exists dy. split_and!; [cbn; by rewrite lookup_insert_ne|done..|].
    change (is_Some (view (db_heap db1) y)). rewrite Hviews.
    destruct (ok_node _ _ _ Hok _ Hy) as (? & _ & ? & _). done.
Qed.

Lemma finalize_node_spec db r hd x : db_ok db r hd → x ∈ _index db →
  ∃ o db' hd', finalize_node_lockless (the_id (db_heap db) x) db = (o, db') ∧ db_ok db' r hd' ∧
    o ≠ OutOfFuel ∧ _index db' = _index db ∧ finalized_at (db_heap db') x ∧
    (∀ y, view (db_heap db') y = view (db_heap db) y).
Proof.
  intros Hok Hx. destruct (ok_delta _ _ _ _ Hok Hx) as (d & b & m & Hd & Hb & Hv).
  destruct (finalize_ok db r hd x d Hok Hx Hd) as (dh & Hdh & -> & Hok1 & Hf1 & Hviews).
  set (db1 := set_heap _ db) in *.
  assert (∃ o db2 hd2, (if _revision dh <? _revision d then mod_state (set_head (Some x))
      else if _revision d =? _revision dh then choose_head x else mret tt) db1 = (o, db2) ∧
      db_ok db2 r hd2 ∧ o ≠ OutOfFuel ∧ db_heap db2 = db_heap db1 ∧ _index db2 = _index db1)
    as (o & db2 & hd2 & Hrun & Hok2 & Hno & Hh2 & Hi2).
  { destruct (_ <? _).
    - exists (Ok tt), (set_head (Some x) db1), x. split_and!; [done|by apply (db_ok_head _ _ hd)|done..].
    - destruct (_ =? _); [by apply (choose_head_spec db1 r hd x)|by exists (Ok tt), db1, hd]. }
  rewrite run_bind, Hrun. destruct o as [[]|e|]; [| |done].
  - destruct (register_fork_spec db2 r hd2 x) as (f & -> & Hok3);
      [done|by rewrite Hi2|by rewrite Hh2|].
    eexists (Ok tt), _, hd2. split; [reflexivity|]. cbn. rewrite Hh2, Hi2. done.
  - exists (Throw e), db2, hd2. by rewrite Hh2, Hi2.
Qed.

(** ** Creating and cloning *)

Lemma find_id_set_index db i l : l ∈ _index db → find_id db i = Some l → find_id (set_index (_index db ++ [l]) db) i = Some l.
Proof. intros _. unfold find_id. cbn. rewrite filter_app. by destruct (filter _ (_index db)). Qed.

(** Allocating [d] and inserting it in the index. *)
Lemma insert_new db r hd d : db_ok db r hd → heap_ok (alloc_delta d (db_heap db)) →
  let l := next_loc (db_heap db) in
  let db1 := set_heap (alloc_delta d (db_heap db)) db in
  node_ok (db_heap db1) (_index db) r l →
  ∃ b db2, index_insert l db1 = (Ok b, db2) ∧ db_ok db2 r hd ∧ db_heap db2 = db_heap db1 ∧
    (b = true → _index db2 = _index db ++ [l] ∧ ∀ x, x ∈ _index db → id_at (db_heap db) x ≠ Some (_id d)) ∧
    (b = false → db2 = db1).
Proof.
  intros Hok Hh l db1 Hn.
  assert (db_ok db1 r hd) as Hok1 by by apply db_ok_alloc.
  assert (deltas (db_heap db1) !! l = Some d) as Hd by (cbn; by rewrite lookup_insert_eq).
  assert (∀ x, x ∈ _index db → (x < l)%positive) as Hlt.
  { intros x Hx. destruct (ok_delta _ _ _ _ Hok Hx) as (dx & _ & _ & Hdx & _).
    apply (heap_fresh _ (ok_heap _ _ _ Hok) _ _ Hdx). }
  assert (l ∉ _index db) as Hl by (intros Hl; apply Hlt in Hl; lia).
  unfold index_insert. rewrite run_bind, (run_on_heap_pure _ db1 _ (run_id _ _ _ Hd)).
  rewrite run_bind, run_index_find. destruct (find_id db1 (_id d)) as [y|] eqn:Hf.
  - by exists false, db1.
  - exists true. eexists. split; [reflexivity|]. split_and!; [|done| |done].
    + by apply (db_ok_insert db1 r hd l d).
    + intros _. split; [done|]. intros x Hx Hid. apply (find_id_None _ _ x Hf); [done|].
      unfold id_at in *. cbn. pose proof (Hlt _ Hx). rewrite lookup_insert_ne by lia. done.
Qed.

(** The heap of a database that other threads changed still has the deltas
    of before, and no id moved to another delta. *)
Record evolves db db' : Prop := {
  evolves_heap l d : deltas (db_heap db) !! l = Some d →
    ∃ d', deltas (db_heap db') !! l = Some d' ∧ _revision d' = _revision d;
  evolves_id l l' i : l ∈ _index db → id_at (db_heap db) l = Some i →
    l' ∈ _index db' → id_at (db_heap db') l' = Some i → l' = l
}.

Definition others_ok (t : timing) : Prop := ∀ db r hd, db_ok db r hd →
  ∃ r' hd', db_ok (others t db) r' hd' ∧ evolves db (others t db).

Lemma evolves_refl db r hd : db_ok db r hd → evolves db db.
Proof.
  intros Hok. split; [by eauto|]. intros l l' i Hl Hi Hl' Hi'.
  apply (ok_unique _ _ _ Hok); [done..|congruence].
Qed.

(** The child's delta on a finalized indexed parent. *)
Lemma child_node_ok db r hd p dp i header : db_ok db r hd → p ∈ _index db →
  deltas (db_heap db) !! p = Some dp → _finalized dp = true → i ≠ null_id →
  0 ≤ _revision dp < u64_max →
  let d := child_delta p dp i header in
  heap_ok (alloc_delta d (db_heap db)) ∧
  node_ok (alloc_delta d (db_heap db)) (_index db) r (next_loc (db_heap db)) ∧
  make_child p i header (db_heap db) = (Ok (next_loc (db_heap db)), alloc_delta d (db_heap db)).
Proof.
  intros Hok Hp Hdp Hf Hi Hrev d.
  destruct (ok_node _ _ _ Hok _ Hp) as (dp' & _ & [m Hv] & _).
  destruct (make_child_spec (db_heap db) p dp i header m (ok_heap _ _ _ Hok) Hdp Hv)
    as (Hrun & Hh & Hvn & _).
  split_and!; [done| |done]. exists d. split_and!.
  - cbn. by rewrite lookup_insert_eq.
  - by eexists.
  - done.
  - right. exists p, dp. pose proof (heap_fresh _ (ok_heap _ _ _ Hok) _ _ Hdp).
    split_and!; [done|done|cbn; rewrite lookup_insert_ne by lia; done|done|].
    cbn. unfold u64. apply wrap_small. unfold u64_max in Hrev. lia.
Qed.

(** A node is created only below a finalized indexed parent; whatever the
    clock and the other threads do, the database stays ok. *)
Lemma create_child_spec db r hd p n i header t : db_ok db r hd → p ∈ _index db →
  i ≠ null_id → others_ok t → (∀ d, deltas (db_heap db) !! p = Some d → 0 ≤ _revision d < u64_max) →
  ∃ o db' r' hd', create_child (mk_state_node p n) (the_id (db_heap db) p) i header t db = (Ok o, db') ∧
    db_ok db' r' hd' ∧
    match o with
    | Some c => ∃ d dp, _state c ∈ _index db' ∧ deltas (db_heap db') !! _state c = Some d ∧
        _id d = i ∧ _parent d = Some p ∧ deltas (db_heap db') !! p = Some dp ∧ _finalized dp = true ∧
        _finalized d = false ∧ _revision d = _revision dp + 1 ∧
        view (db_heap db') (_state c) = view (db_heap db') p
    | None => True
    end.
Proof.
  intros Hok Hp Hi Hot Hrev. unfold create_child.
  destruct (cv_owned t); [|by exists None, db, r, hd].
  destruct (ok_delta _ _ _ _ Hok Hp) as (dp & bp & mp & Hdp & _). cbn [_state].
  rewrite run_bind, (run_on_heap_pure _ _ _ (run_is_finalized _ _ _ Hdp)).
  assert (∃ f db1 r1 hd1 dp1, (if _finalized dp then mret true
       else mod_state (others t);;
            if notified t then on_heap (is_finalized p) else mret false) db = (Ok f, db1) ∧
     db_ok db1 r1 hd1 ∧ evolves db db1 ∧ deltas (db_heap db1) !! p = Some dp1 ∧
     (f = true → _finalized dp1 = true) ∧ _revision dp1 = _revision dp)
    as (f & db1 & r1 & hd1 & dp1 & Hrun & Hok1 & Hev & Hdp1 & Hf1 & Hrev1).
  { destruct (_finalized dp) eqn:Hf.
    - exists true, db, r, hd, dp. split_and!; [done|done|by eapply evolves_refl|done..].
    - destruct (Hot db r hd Hok) as (r1 & hd1 & Hok1 & Hev).
      destruct (evolves_heap _ _ Hev _ _ Hdp) as (dp1 & Hdp1 & Hr1).
      rewrite run_bind. unfold mod_state. destruct (notified t).
      + eexists _, _, r1, hd1, dp1. split; [apply (run_on_heap_pure _ _ _ (run_is_finalized _ _ _ Hdp1))|done].
      + by exists false, (others t db), r1, hd1, dp1. }
  rewrite run_bind, Hrun. destruct f; [|by exists None, db1, r1, hd1].
  specialize (Hf1 eq_refl).
  assert (heap_ok (alloc_delta (child_delta p dp1 i header) (db_heap db1))) as Hh2.
  { apply alloc_ok; [apply Hok1|]. intros q [= <-]. by eexists. }
  assert (make_child p i header (db_heap db1)
    = (Ok (next_loc (db_heap db1)), alloc_delta (child_delta p dp1 i header) (db_heap db1))) as Hmk.
  { unfold make_child. by rewrite run_bind, (run_deref _ _ _ Hdp1). }
  rewrite run_bind, (run_on_heap _ _ _ _ Hmk). set (db2 := set_heap _ db1).
  assert (db_ok db2 r1 hd1) as Hok2 by by apply db_ok_alloc.
  destruct (index_owned t); [|by exists None, db2, r1, hd1].
  rewrite run_bind, run_index_find.
  destruct (find_id db2 (the_id (db_heap db) p)) as [q|] eqn:Hfind; [|by exists None, db2, r1, hd1].
  apply find_id_Some in Hfind as [Hq Hqi].
  assert (q = p) as ->.
  { apply (evolves_id _ _ Hev p q (the_id (db_heap db) p)); [done| |done|].
    - by eapply finalized_id.
    - destruct (ok_delta _ _ _ _ Hok1 Hq) as (dq & _ & _ & Hdq & _).
      pose proof (heap_fresh _ (ok_heap _ _ _ Hok1) _ _ Hdq).
      unfold id_at in *. cbn in Hqi. rewrite lookup_insert_ne in Hqi by lia. done. }
  specialize (Hrev _ Hdp).
  destruct (child_node_ok db1 r1 hd1 p dp1 i header) as (_ & Hnode & _); [done|done|done|done|done|lia|].
  destruct (insert_new db1 r1 hd1 _ Hok1 Hh2 Hnode) as (b & db3 & Hins & Hok3 & Hh3 & Ht & Hff).
  fold db2 in Hins. rewrite run_bind, Hins. destruct b; [|by exists None, db3, r1, hd1].
  destruct (Ht eq_refl) as [Hi3 _].
  eexists (Some _), db3, r1, hd1. split; [reflexivity|]. split; [done|]. cbn [_state].
  exists (child_delta p dp1 i header), dp1. rewrite Hh3, Hi3. change (db_heap db2) with
    (alloc_delta (child_delta p dp1 i header) (db_heap db1)).
  pose proof (heap_fresh _ (ok_heap _ _ _ Hok1) _ _ Hdp1).
  destruct (ok_node _ _ _ Hok1 _ Hq) as (dp2 & _ & [m Hv] & _).
  destruct (make_child_spec (db_heap db1) p dp1 i header m (ok_heap _ _ _ Hok1) Hdp1 Hv)
    as (_ & _ & Hvn & Hvo).
  split_and!; [|cbn; by rewrite lookup_insert_eq|done|done|cbn; rewrite lookup_insert_ne by lia; done
    |done|done| |].
  - rewrite elem_of_app. right. by left.
  - cbn. unfold u64. apply wrap_small. unfold u64_max in Hrev. lia.
  - cbn [db_heap set_heap]. rewrite Hvn, Hvo by lia. done.
Qed.

(** Cloning a node that is not finalized. *)
Lemma clone_node_spec db r hd x d i header : db_ok db r hd → x ∈ _index db → i ≠ null_id →
  deltas (db_heap db) !! x = Some d →
  ∃ o db', clone_node_lockless (the_id (db_heap db) x) i header db = (o, db') ∧ db_ok db' r hd ∧
    match o with
    | Ok (Some c) => _finalized d = false ∧ _state c ∈ _index db' ∧ (_state c ∉ _index db) ∧
        id_at (db_heap db') (_state c) = Some i ∧
        view (db_heap db') (_state c) = view (db_heap db) x ∧
        (∀ y, y ∈ _index db → view (db_heap db') y = view (db_heap db) y)
    | Ok None => _finalized d = false
    | Throw e => e = illegal_argument ∧ _finalized d = true ∧ db' = db
    | OutOfFuel => False
    end.
Proof.
  intros Hok Hx Hi Hd. unfold clone_node_lockless.
  rewrite run_bind, (run_assert_open _ _ _ Hok), run_bind, (run_get_node _ _ _ _ Hok).
  rewrite (find_id_eq _ _ _ _ _ Hok Hx (finalized_id _ _ _ _ Hok Hx)). cbn [fmap option_fmap option_map _state].
  rewrite run_bind, (run_on_heap_pure _ _ _ (run_is_finalized _ _ _ Hd)).
  destruct (_finalized d) eqn:Hf; [by exists (Throw illegal_argument), db|].
  cbn [negb assert_that]. rewrite run_bind. cbn [mret prog_ret].
  destruct (ok_delta _ _ _ _ Hok Hx) as (d0 & b & m & Hd0 & Hb & Hv). assert (d0 = d) as -> by congruence.
  destruct (clone_spec (db_heap db) x d b i header m (ok_heap _ _ _ Hok) Hd Hb Hv) as (Hrun & Hh & Hvn & Hvo).
  rewrite run_bind, (run_on_heap _ _ _ _ Hrun). set (db1 := set_heap _ db).
  assert (∀ y, y ∈ _index db → (y < next_loc (db_heap db))%positive) as Hlt.
  { intros y Hy. destruct (ok_delta _ _ _ _ Hok Hy) as (dy & _ & _ & Hdy & _).
    apply (heap_fresh _ (ok_heap _ _ _ Hok) _ _ Hdy). }
  assert (node_ok (db_heap db1) (_index db) r (next_loc (db_heap db))) as Hnode.
  { eexists. split; [cbn; by rewrite lookup_insert_eq|]. split_and!; [by eexists|done|].
    destruct (ok_node _ _ _ Hok _ Hx) as (d' & Hd' & _ & _ & [(_ & _ & ?)|(p & dp & Hp & Hpi & Hdp & Hfp & Hr)]).
    { congruence. }
    assert (d' = d) as -> by congruence. right. exists p, dp. pose proof (Hlt _ Hpi).
    split_and!; [done|done|cbn; by rewrite lookup_insert_ne by lia|done|done]. }
  destruct (insert_new db r hd _ Hok Hh Hnode) as (ok & db2 & Hins & Hok2 & Hh2 & Ht & Hff).
  fold db1 in Hins. rewrite run_bind, Hins. destruct ok.
  - destruct (Ht eq_refl) as [Hi2 _]. eexists (Ok (Some _)), db2. split; [reflexivity|]. split; [done|].
    cbn [_state]. rewrite Hh2, Hi2. split_and!; [done| | | | |].
    + rewrite elem_of_app. right. by left.
    + intros Hin. apply Hlt in Hin. lia.
    + unfold id_at. cbn. by rewrite lookup_insert_eq.
    + by rewrite Hv.
    + intros y Hy. apply Hvo. pose proof (Hlt _ Hy). lia.
  - by exists (Ok None), db2.
Qed.

End Facts.

Section Grow.
Context `{Hcrypto : !Crypto}.
Implicit Types (db : database) (h : heap) (d : state_delta) (l x : loc).

Definition finalized_db db x d : database := set_heap (set_delta x (with_finalized true d) (db_heap db)) db.

Lemma finalize_fifo_run db r hd x d dh : db_ok db r hd → x ∈ _index db → _comp db = Some fifo_comparator →
  deltas (db_heap db) !! x = Some d → deltas (db_heap db) !! hd = Some dh →
  let hd' := if _revision dh <? _revision d then x else hd in
  ∃ f, finalize_node_lockless (the_id (db_heap db) x) db
         = (Ok tt, set_fork_heads f (set_head (Some hd') (finalized_db db x d))) ∧
    db_ok (set_fork_heads f (set_head (Some hd') (finalized_db db x d))) r hd' ∧
    finalized_at (db_heap (finalized_db db x d)) x ∧
    ∀ y, view (db_heap (finalized_db db x d)) y = view (db_heap db) y.
Proof.
  intros Hok Hx Hcomp Hd Hdh hd'.
  destruct (finalize_ok db r hd x d Hok Hx Hd) as (dh1 & Hdh1 & Heq & Hok1 & Hf1 & Hviews).
  rewrite Heq. fold (finalized_db db x d) in *. set (db1 := finalized_db db x d) in *.
  assert (_revision dh1 = _revision dh) as Hrev.
  { cbn in Hdh1. destruct (decide (x = hd)) as [->|Hne].
    - rewrite lookup_insert_eq in Hdh1. injection Hdh1 as <-. cbn. congruence.
    - rewrite lookup_insert_ne in Hdh1 by done. congruence. }
  rewrite Hrev.
  assert ((if _revision dh <? _revision d then mod_state (set_head (Some x))
           else if _revision d =? _revision dh then choose_head x else mret tt) db1
    = (Ok tt, set_head (Some hd') db1)) as Hrun.
  { unfold hd'. destruct (_revision dh <? _revision d); [reflexivity|].
    destruct (ok_head _ _ _ Hok1) as [Hhd _].
    assert (set_head (Some hd) db1 = db1) as Hsame by (unfold set_head; rewrite <- Hhd; by destruct db1).
    destruct (_revision d =? _revision dh); [|by rewrite Hsame].
    unfold choose_head. rewrite !run_gets. unfold get_head_lockless.
    rewrite run_bind, run_bind, (run_assert_open _ _ _ Hok1), run_gets, Hhd, run_bind.
    cbn [deref_ptr mret prog_ret]. change (_comp db1) with (_comp db). rewrite Hcomp.
    rewrite run_bind. cbn [_state]. by rewrite (run_on_heap_pure _ db1 (Ok (Some hd))). }
  rewrite run_bind, Hrun.
  assert (db_ok (set_head (Some hd') db1) r hd') as Hok2.
  { destruct (ok_head _ _ _ Hok1) as (_ & ? & ?).
    apply (db_ok_head _ _ hd); [done|..]; unfold hd'; by destruct (_revision dh <? _revision d). }
  destruct (register_fork_spec _ r hd' x Hok2 Hx Hf1) as (f & -> & Hok3).
  exists f. by split_and!.
Qed.

(** A new node, inserted in the index. *)
Definition grown_db db d : database :=
  set_index (_index db ++ [next_loc (db_heap db)]) (set_heap (alloc_delta d (db_heap db)) db).

Lemma grown_old db r hd d x : db_ok db r hd → x ∈ _index db → heap_ok (alloc_delta d (db_heap db)) →
  (x < next_loc (db_heap db))%positive ∧ deltas (db_heap (grown_db db d)) !! x = deltas (db_heap db) !! x ∧
  view (db_heap (grown_db db d)) x = view (db_heap db) x.
Proof.
  intros Hok Hx Hh. destruct (ok_delta _ _ _ _ Hok Hx) as (dx & _ & _ & Hdx & _).
  pose proof (heap_fresh _ (ok_heap _ _ _ Hok) _ _ Hdx) as Hlt. split_and!; [done| |].
  - cbn. by rewrite lookup_insert_ne by lia.
  - apply alloc_view; [apply Hok|done|lia].
Qed.

Definition absent db (i : multihash) : Prop := ∀ x, x ∈ _index db → id_at (db_heap db) x ≠ Some i.

Lemma insert_run db r hd d : db_ok db r hd → heap_ok (alloc_delta d (db_heap db)) → absent db (_id d) →
  node_ok (alloc_delta d (db_heap db)) (_index db) r (next_loc (db_heap db)) →
  index_insert (next_loc (db_heap db)) (set_heap (alloc_delta d (db_heap db)) db) = (Ok true, grown_db db d) ∧
  db_ok (grown_db db d) r hd.
Proof.
  intros Hok Hh Hab Hn. destruct (insert_new db r hd d Hok Hh Hn) as (b & db2 & Hrun & Hok2 & Hh2 & Ht & Hff).
  unfold index_insert in *. assert (deltas (alloc_delta d (db_heap db)) !! next_loc (db_heap db) = Some d) as Hd
    by (cbn; by rewrite lookup_insert_eq).
  rewrite run_bind, (run_on_heap_pure _ (set_heap _ db) _ (run_id _ _ _ Hd)), run_bind, run_index_find in *.
  destruct (find_id _ (_id d)) as [y|] eqn:Hf.
  - exfalso. apply find_id_Some in Hf as [Hy Hi]. apply (Hab y Hy).
    destruct (grown_old db r hd d y Hok Hy Hh) as (_ & Hdy & _). unfold id_at in *. cbn in *. by rewrite <- Hdy.
  - injection Hrun as <- <-. done.
Qed.

Lemma clone_node_run db r hd x d b i header : db_ok db r hd → x ∈ _index db → i ≠ null_id →
  deltas (db_heap db) !! x = Some d → _finalized d = false → _backend d = Some b → absent db i →
  let d' := clone_delta d b i header in
  clone_node_lockless (the_id (db_heap db) x) i header db
    = (Ok (Some (mk_state_node (next_loc (db_heap db)) None)), grown_db db d') ∧
  heap_ok (alloc_delta d' (db_heap db)) ∧ db_ok (grown_db db d') r hd ∧
  view (db_heap (grown_db db d')) (next_loc (db_heap db)) = view (db_heap db) x.
Proof.
  intros Hok Hx Hi Hd Hf Hb Hab d'. unfold clone_node_lockless.
  rewrite run_bind, (run_assert_open _ _ _ Hok), run_bind, (run_get_node _ _ _ _ Hok).
  rewrite (find_id_eq _ _ _ _ _ Hok Hx (finalized_id _ _ _ _ Hok Hx)). cbn [fmap option_fmap option_map _state].
  rewrite run_bind, (run_on_heap_pure _ _ _ (run_is_finalized _ _ _ Hd)), Hf.
  cbn [negb assert_that]. rewrite run_bind. cbn [mret prog_ret].
  destruct (ok_node _ _ _ Hok _ Hx) as (d0 & Hd0 & [m Hv] & _ & Hcase). assert (d0 = d) as -> by congruence.
  destruct (clone_spec (db_heap db) x d b i header m (ok_heap _ _ _ Hok) Hd Hb Hv) as (Hrun & Hh & Hvn & _).
  rewrite run_bind, (run_on_heap _ _ _ _ Hrun). fold d' in Hh, Hvn |- *.
  assert (node_ok (alloc_delta d' (db_heap db)) (_index db) r (next_loc (db_heap db))) as Hnode.
  { exists d'. split; [cbn; by rewrite lookup_insert_eq|]. split_and!; [by eexists|done|].
    destruct Hcase as [(_ & _ & ?)|(p & dp & Hp & Hpi & Hdp & Hfp & Hr)]; [congruence|].
    right. exists p, dp. destruct (grown_old db r hd d' p Hok Hpi Hh) as (_ & Hdp' & _). cbn in Hdp'.
    split_and!; [done|done|cbn; by rewrite Hdp'|done|done]. }
  destruct (insert_run db r hd d' Hok Hh Hab Hnode) as [Hins Hok'].
  rewrite run_bind, Hins. split_and!; [done..|]. by rewrite Hv.
Qed.

(** Every lock is obtained in time. *)
Definition undisturbed (t : timing) : Prop := cv_owned t = true ∧ index_owned t = true.

Lemma create_node_run db r hd p dp i header lk t : db_ok db r hd → p ∈ _index db → i ≠ null_id →
  verify_unique_lock lk = true → undisturbed t →
  deltas (db_heap db) !! p = Some dp → _finalized dp = true → 0 ≤ _revision dp < u64_max → absent db i →
  let d' := child_delta p dp i header in
  create_writable_node_unique (the_id (db_heap db) p) i header lk t db
    = (Ok (Some (mk_state_node (next_loc (db_heap db)) None)), grown_db db d') ∧
  heap_ok (alloc_delta d' (db_heap db)) ∧ db_ok (grown_db db d') r hd ∧
  view (db_heap (grown_db db d')) (next_loc (db_heap db)) = view (db_heap db) p.
Proof.
  intros Hok Hp Hi Hlk [Hcv Hio] Hdp Hf Hrev Hab d'. unfold create_writable_node_unique, get_node_unique.
  rewrite Hlk. cbn [assert_that]. rewrite run_bind. cbn [mret prog_ret]. rewrite run_bind, run_bind.
  cbn [mret prog_ret]. rewrite (run_get_node _ _ _ _ Hok).
  rewrite (find_id_eq _ _ _ _ _ Hok Hp (finalized_id _ _ _ _ Hok Hp)). cbn [fmap option_fmap option_map].
  unfold create_child. rewrite Hcv, Hio. cbn [_state].
  rewrite run_bind, (run_on_heap_pure _ _ _ (run_is_finalized _ _ _ Hdp)), Hf, run_bind. cbn [mret prog_ret].
  destruct (child_node_ok db r hd p dp i header Hok Hp Hdp Hf Hi Hrev) as (Hh & Hnode & Hmk). fold d' in Hh, Hnode, Hmk.
  rewrite run_bind, (run_on_heap _ _ _ _ Hmk), run_bind, run_index_find.
  assert (db_ok (set_heap (alloc_delta d' (db_heap db)) db) r hd) as Hok2 by by apply db_ok_alloc.
  assert (id_at (alloc_delta d' (db_heap db)) p = Some (the_id (db_heap db) p)) as Hpid.
  { destruct (grown_old db r hd d' p Hok Hp Hh) as (_ & Hdp' & _). cbn in Hdp'.
    unfold the_id, id_at. cbn. by rewrite Hdp', Hdp. }
  rewrite (find_id_eq _ _ _ _ _ Hok2 Hp Hpid). destruct (insert_run db r hd d' Hok Hh Hab Hnode) as [Hins Hok'].
  rewrite run_bind, Hins. split_and!; [done..|].
  destruct (ok_node _ _ _ Hok _ Hp) as (dp2 & _ & [m Hv] & _).
  destruct (make_child_spec (db_heap db) p dp i header m (ok_heap _ _ _ Hok) Hdp Hv) as (_ & _ & Hvn & _).
  cbn. fold d' in Hvn. by rewrite Hvn, Hv.
Qed.

End Grow.
