(* ===== verification/StateTheorems.v ===== *)
(** What the properties of the state database rest on: reads and writes
    through deltas, the steps a database can take, commit, discard, isolation
    of forks, lookup by revision, and anonymous sessions. *)

From S2P Require Import Prelude Keys MapBackend StateDelta StateNode StateDeltaFacts StateCommit StateDatabase.
From S2P Require Import StateDiscard StateInvariant StateGrow.
Import StateDelta StateDatabase StateNode.

Section Steps.
Context `{Hcrypto : !Crypto} `{Hdisk : !Disk} `{Hkeys : !DatabaseKeys}.
Implicit Types (db : database) (h : heap) (d : state_delta) (l : loc).

(** ** Object operations *)

(** What an operation on the delta [l] may do: nothing, or a write. *)
Definition effect h l (h' : heap) : Prop :=
  h' = h ∨ ∃ m', writes h l m' h' ∧ ∃ d, deltas h !! l = Some d ∧ _finalized d = false.

Lemma put_object_spec h l sp k v m d : heap_ok h → view h l = Some m → deltas h !! l = Some d →
  let ks := key_string (mk_database_key sp k) in
  if _finalized d then put_object l sp k v h = (Throw node_finalized, h)
  else ∃ h', put_object l sp k v h
      = (Ok (i64 (i64 (match m !! ks with
                       | Some o => - Z.of_nat (length o)
                       | None => Z.of_nat (length ks)
                       end) + Z.of_nat (length v))), h') ∧ writes h l (<[ks := v]> m) h'.
Proof.
  intros Hok Hv Hd ks. unfold put_object. rewrite run_bind, (run_is_finalized _ _ _ Hd).
  destruct (_finalized d); [done|]. cbn [negb assert_that].
  rewrite run_bind. cbn [mret prog_ret]. rewrite run_bind. fold ks.
  rewrite (find_spec _ _ _ _ Hok Hv). destruct (put_spec h l ks v m Hok Hv) as (h' & Hrun & Hw).
  exists h'. split; [|done]. rewrite run_bind, Hrun. unfold add_size, sub_size. cbn.
  destruct (m !! ks); do 3 f_equal; lia.
Qed.

Lemma remove_object_spec h l sp k t m d : heap_ok h → view h l = Some m → deltas h !! l = Some d →
  let ks := key_string (mk_database_key sp k) in
  if _finalized d then remove_object_ l sp k t h = (Throw node_finalized, h)
  else ∃ n h', remove_object_ l sp k t h = (Ok n, h') ∧
      n = match m !! ks with
          | Some o => i64 (i64 (- Z.of_nat (length o)) - Z.of_nat (length ks))
          | None => 0
          end ∧
      (h' = h ∧ m !! ks = None ∨ writes h l (delete ks m) h').
Proof.
  intros Hok Hv Hd ks. unfold remove_object_. rewrite run_bind, (run_is_finalized _ _ _ Hd).
  destruct (_finalized d); [done|]. cbn [negb assert_that].
  rewrite run_bind. cbn [mret prog_ret]. rewrite run_bind. fold ks.
  rewrite (find_spec _ _ _ _ Hok Hv). destruct (erase_spec h l ks t m Hok Hv) as (h' & Hrun & Hw).
  eexists _, h'. split; [by rewrite run_bind, Hrun|]. split; [|done].
  unfold sub_size. destruct (m !! ks); [|done]. by rewrite Z.sub_0_l.
Qed.

(** Writing to a delta outside the index changes no indexed view. *)
Lemma outside_leaf db r hd l x : db_ok db r hd → l ∉ _index db → x ∈ _index db →
  ¬ above (db_heap db) l x.
Proof.
  intros Hok Hl Hx Ha. induction Ha as [|x d p Hd Hp Ha IH]; [done|].
  apply IH. by eapply ok_parent.
Qed.

Lemma db_ok_writes_any db r hd l d m' h' : db_ok db r hd →
  deltas (db_heap db) !! l = Some d → (l ∈ _index db → _finalized d = false) →
  writes (db_heap db) l m' h' → db_ok (set_heap h' db) r hd.
Proof.
  intros Hok Hd Hf Hw. destruct (decide (l ∈ _index db)) as [Hl|Hl].
  { eapply db_ok_writes; [done|done|by apply Hf|done]. }
  pose proof Hw as (d0 & d' & Hd0 & -> & (Hp & _) & _ & _). assert (d0 = d) as -> by congruence.
  assert (heap_ok (set_delta l d' (db_heap db))) as Hh by (eapply set_delta_ok; [apply Hok|done|by left]).
  apply db_ok_set_heap; [done|done|]. intros x dx Hx Hdx. exists dx.
  split_and!; [|done..|].
  - cbn. rewrite lookup_insert_ne; [done|]. by intros ->.
  - rewrite (view_frame (db_heap db) _ l); [|apply Hok|done|by eapply outside_leaf|].
    + destruct (ok_node _ _ _ Hok _ Hx) as (? & _ & ? & _). done.
    + intros y Hy. by apply core_set_delta_ne.
Qed.

Lemma db_ok_meta db r hd l d d' : db_ok db r hd → deltas (db_heap db) !! l = Some d →
  core d' = core d → _id d' = _id d → _revision d' = _revision d → _finalized d' = _finalized d →
  db_ok (set_heap (set_delta l d' (db_heap db)) db) r hd.
Proof.
  intros Hok Hd Hcore Hi Hr Hf. pose proof Hcore as [= Hp _ _].
  assert (heap_ok (set_delta l d' (db_heap db))) as Hh by (eapply set_delta_ok; [apply Hok|done|by left]).
  apply db_ok_set_heap; [done|done|]. intros x dx Hx Hdx.
  assert (view (set_delta l d' (db_heap db)) x = view (db_heap db) x) as Hv.
  { apply view_same_core; [apply Hok|done|]. intros y. destruct (decide (y = l)) as [->|Hy].
    - rewrite set_delta_lookup, Hd. cbn. by rewrite Hcore.
    - by apply core_set_delta_ne. }
  rewrite Hv. destruct (ok_node _ _ _ Hok _ Hx) as (? & _ & Hs & _).
  destruct (decide (l = x)) as [->|Hne].
  - exists d'. assert (dx = d) as -> by congruence. rewrite set_delta_lookup.
    split_and!; [done..|congruence|done].
  - exists dx. cbn. rewrite lookup_insert_ne by done. done.
Qed.

(** ** Steps *)

(** A session reads live deltas; its delta's parent is the node it was
    created on, or a delta outside the index. *)
Definition session_ok db (n : abstract_state_node) : Prop :=
  match n with
  | StateNode _ => False
  | AnonymousNode p s => is_Some (view (db_heap db) s) ∧
      ∃ d q, deltas (db_heap db) !! s = Some d ∧ _parent d = Some q ∧
             (q = state_of p ∨ q ∉ _index db)
  end.

Definition small_revision db (i : multihash) : Prop := ∀ l d, l ∈ _index db →
  id_at (db_heap db) l = Some i → deltas (db_heap db) !! l = Some d → 0 ≤ _revision d < u64_max.

Inductive db_step : database → database → Prop :=
| step_put db l sp k v : is_Some (view (db_heap db) l) →
    db_step db (on_heap (put_object l sp k v) db).2
| step_remove db l sp k t : is_Some (view (db_heap db) l) →
    db_step db (on_heap (remove_object_ l sp k t) db).2
| step_merkle db l : is_Some (view (db_heap db) l) → db_step db (on_heap (node_merkle_root l) db).2
| step_anonymous db n : is_Some (view (db_heap db) (state_of n)) →
    db_step db (on_heap (create_anonymous_node n) db).2
| step_session_reset db n : session_ok db n → db_step db (on_heap (anonymous_reset n) db).2
| step_session_commit db n : session_ok db n →
    (∀ p s, n = AnonymousNode p s → is_Some (deltas (db_heap db) !! state_of p)) →
    db_step db (on_heap (anonymous_commit n) db).2
| step_create_shared db p i header lk t : i ≠ null_id → others_ok t → small_revision db p →
    db_step db (create_writable_node_shared p i header lk t db).2
| step_create_unique db p i header lk t : i ≠ null_id → others_ok t → small_revision db p →
    db_step db (create_writable_node_unique p i header lk t db).2
| step_clone_shared db i j header lk : j ≠ null_id → db_step db (clone_node_shared i j header lk db).2
| step_clone_unique db i j header lk : j ≠ null_id → db_step db (clone_node_unique i j header lk db).2
| step_finalize_shared db i lk : db_step db (finalize_node_shared i lk db).2
| step_finalize_unique db i lk : db_step db (finalize_node_unique i lk db).2
| step_discard_shared db i lk : db_step db (discard_node_shared i ∅ lk db).2
| step_discard_unique db i lk : db_step db (discard_node_unique i ∅ lk db).2
| step_commit db i lk : (∀ l hd, l ∈ _index db → id_at (db_heap db) l = Some i → _head db = Some hd →
      above (db_heap db) l hd) → db_step db (commit_node i lk db).2.

Definition reaches : database → database → Prop := rtc db_step.

Lemma set_heap_effect db r hd {A} (m : prog heap exn A) o h' : db_ok db r hd →
  m (db_heap db) = (o, h') → db_ok (set_heap h' db) r hd → db_ok (on_heap m db).2 r hd.
Proof. intros _ Hm Hok. by rewrite (run_on_heap _ _ _ _ Hm). Qed.

Lemma ok_put db r hd l sp k v : db_ok db r hd → is_Some (view (db_heap db) l) →
  db_ok (on_heap (put_object l sp k v) db).2 r hd.
Proof.
  intros Hok [m Hv]. destruct (view_inv _ _ _ (ok_heap _ _ _ Hok) Hv) as (d & _ & Hd & _).
  pose proof (put_object_spec _ l sp k v m d (ok_heap _ _ _ Hok) Hv Hd) as Hp. cbn in Hp.
  destruct (_finalized d) eqn:Hf.
  - eapply set_heap_effect; [done..|]. by rewrite set_heap_id.
  - destruct Hp as (h' & Hrun & Hw). eapply set_heap_effect; [done..|].
    by eapply db_ok_writes_any.
Qed.

Lemma ok_remove db r hd l sp k t : db_ok db r hd → is_Some (view (db_heap db) l) →
  db_ok (on_heap (remove_object_ l sp k t) db).2 r hd.
Proof.
  intros Hok [m Hv]. destruct (view_inv _ _ _ (ok_heap _ _ _ Hok) Hv) as (d & _ & Hd & _).
  pose proof (remove_object_spec _ l sp k t m d (ok_heap _ _ _ Hok) Hv Hd) as Hp. cbn in Hp.
  destruct (_finalized d) eqn:Hf.
  - eapply set_heap_effect; [done..|]. by rewrite set_heap_id.
  - destruct Hp as (n & h' & Hrun & _ & [[-> _]|Hw]); eapply set_heap_effect; [done|done| |done|done|].
    + by rewrite set_heap_id.
    + by eapply db_ok_writes_any.
Qed.

Lemma ok_merkle db r hd l : db_ok db r hd → is_Some (view (db_heap db) l) →
  db_ok (on_heap (node_merkle_root l) db).2 r hd.
Proof.
  intros Hok [m Hv]. destruct (view_inv _ _ _ (ok_heap _ _ _ Hok) Hv) as (d & b & Hd & Hb & _).
  destruct (_finalized d) eqn:Hf.
  - eapply set_heap_effect; [done| |].
    + unfold node_merkle_root. rewrite run_bind, (run_is_finalized _ _ _ Hd), Hf.
      cbn [assert_that]. rewrite run_bind. cbn [mret prog_ret]. apply (run_merkle_root _ _ _ _ Hd Hb).
    + by eapply db_ok_meta.
  - eapply set_heap_effect; [done| |].
    + unfold node_merkle_root. by rewrite run_bind, (run_is_finalized _ _ _ Hd), Hf.
    + cbn. by rewrite set_heap_id.
Qed.

Lemma ok_child db r hd l i header : db_ok db r hd → is_Some (view (db_heap db) l) →
  ∃ h', make_child l i header (db_heap db) = (Ok (next_loc (db_heap db)), h') ∧
    db_ok (set_heap h' db) r hd.
Proof.
  intros Hok [m Hv]. destruct (view_inv _ _ _ (ok_heap _ _ _ Hok) Hv) as (d & b & Hd & Hb & _).
  destruct (make_child_spec _ l d i header m (ok_heap _ _ _ Hok) Hd Hv) as (Hrun & Hh & _).
  eexists. split; [done|]. by apply db_ok_alloc.
Qed.

Lemma ok_reset db r hd n : db_ok db r hd → session_ok db n →
  db_ok (on_heap (anonymous_reset n) db).2 r hd.
Proof.
  intros Hok Hs. destruct n as [|p s]; [done|]. destruct Hs as [Hv _].
  destruct (ok_child db r hd s null_id default_header Hok Hv) as (h' & Hrun & Hok').
  eapply set_heap_effect; [done| |done]. cbn. by rewrite run_bind, Hrun.
Qed.

Lemma ok_session_commit db r hd n : db_ok db r hd → session_ok db n →
  (∀ p s, n = AnonymousNode p s → is_Some (deltas (db_heap db) !! state_of p)) →
  db_ok (on_heap (anonymous_commit n) db).2 r hd.
Proof.
  intros Hok Hs Hp. destruct n as [|p s]; [done|]. destruct Hs as ([m Hv] & d & q & Hd & Hdq & Hq).
  destruct (Hp p s eq_refl) as [dp Hdp]. clear Hp.
  destruct (_finalized dp) eqn:Hf.
  { eapply set_heap_effect; [done| |].
    - cbn. by rewrite run_bind, (run_is_finalized _ _ _ Hdp), Hf.
    - cbn. by rewrite set_heap_id. }
  destruct (squash_spec _ s d q m (ok_heap _ _ _ Hok) Hd Hdq Hv) as (h' & Hrun & Hw).
  pose proof Hw as (dq & dq' & Hdqq & Hh' & (Hqp & _) & _ & Hvq).
  assert (db_ok (set_heap h' db) r hd) as Hok'.
  { eapply db_ok_writes_any; [done|done| |done]. intros Hqi. destruct Hq as [->|?]; [|done]. congruence. }
  assert (is_Some (view h' s)) as Hvs.
  { assert (deltas h' !! s = Some d) as Hd'.
    { subst h'. cbn. rewrite lookup_insert_ne; [done|]. intros ->.
      pose proof (heap_parent _ (ok_heap _ _ _ Hok) _ _ _ Hd Hdq). lia. }
    destruct (view_inv _ _ _ (ok_heap _ _ _ Hok) Hv) as (d0 & b & Hd0 & Hb & _).
    assert (d0 = d) as -> by congruence.
    rewrite (view_intro h' s d b (ok_heap _ _ _ Hok') Hd' Hb), Hdq, Hvq. by eexists. }
  destruct (ok_child (set_heap h' db) r hd s null_id default_header Hok' Hvs) as (h2 & Hrun2 & Hok2).
  eapply set_heap_effect; [done| |exact Hok2].
  cbn. rewrite run_bind, (run_is_finalized _ _ _ Hdp), Hf. cbn [negb assert_that].
  rewrite run_bind. cbn [mret prog_ret]. rewrite run_bind, Hrun. cbn in Hrun2. by rewrite run_bind, Hrun2.
Qed.

Definition some_ok db : Prop := ∃ r hd, db_ok db r hd.

Lemma find_id_the_id db i l : find_id db i = Some l → l ∈ _index db ∧ the_id (db_heap db) l = i.
Proof. intros [Hl Hi]%find_id_Some. split; [done|]. unfold the_id. by rewrite Hi. Qed.

Lemma ok_create db p i header n t : some_ok db → i ≠ null_id → others_ok t → small_revision db p →
  ∀ x, find_id db p = Some x → some_ok (create_child (mk_state_node x n) p i header t db).2.
Proof.
  intros (r & hd & Hok) Hi Hot Hsm x Hx. pose proof (find_id_Some _ _ _ Hx) as [Hxi Hxid].
  apply find_id_the_id in Hx as [_ <-].
  destruct (create_child_spec db r hd x n i header t Hok Hxi Hi Hot) as (o & db' & r' & hd' & -> & Hok' & _);
    [intros d Hd; by eapply Hsm|by exists r', hd'].
Qed.

Lemma ok_create_shared db p i header lk t : some_ok db → i ≠ null_id → others_ok t →
  small_revision db p → some_ok (create_writable_node_shared p i header lk t db).2.
Proof.
  intros Hsome Hi Hot Hsm. pose proof Hsome as (r & hd & Hok).
  unfold create_writable_node_shared, get_node_shared. rewrite run_bind.
  destruct (verify_shared_lock lk); [|done]. cbn [assert_that mret prog_ret]. rewrite run_bind, run_bind.
  cbn [mret prog_ret]. rewrite run_bind, (run_get_node _ _ _ _ Hok). cbn [mret prog_ret].
  destruct (find_id db p) as [x|] eqn:Hx; [|done]. cbn [fmap option_fmap option_map with_lock _state].
  rewrite run_bind. pose proof (ok_create db p i header lk t Hsome Hi Hot Hsm x Hx) as H1.
  by destruct (create_child _ _ _ _ _ db) as [[|e|] db'].
Qed.

Lemma ok_create_unique db p i header lk t : some_ok db → i ≠ null_id → others_ok t →
  small_revision db p → some_ok (create_writable_node_unique p i header lk t db).2.
Proof.
  intros Hsome Hi Hot Hsm. pose proof Hsome as (r & hd & Hok).
  unfold create_writable_node_unique, get_node_unique. rewrite run_bind.
  destruct (verify_unique_lock lk); [|done]. cbn [assert_that mret prog_ret]. rewrite run_bind, run_bind.
  cbn [mret prog_ret]. rewrite (run_get_node _ _ _ _ Hok).
  destruct (find_id db p) as [x|] eqn:Hx; [|done]. cbn [fmap option_fmap option_map].
  by apply ok_create.
Qed.

Lemma ok_clone db i j header : some_ok db → j ≠ null_id → some_ok (clone_node_lockless i j header db).2.
Proof.
  intros (r & hd & Hok) Hj. destruct (find_id db i) as [x|] eqn:Hx.
  - apply find_id_the_id in Hx as [Hx <-]. destruct (ok_delta _ _ _ _ Hok Hx) as (d & _ & _ & Hd & _).
    destruct (clone_node_spec db r hd x d j header Hok Hx Hj Hd) as (o & db' & -> & Hok' & _).
    by exists r, hd.
  - unfold clone_node_lockless. rewrite run_bind, (run_assert_open _ _ _ Hok).
    rewrite run_bind, (run_get_node _ _ _ _ Hok), Hx. by exists r, hd.
Qed.

Lemma ok_finalize db i : some_ok db → some_ok (finalize_node_lockless i db).2.
Proof.
  intros (r & hd & Hok). destruct (find_id db i) as [x|] eqn:Hx.
  - apply find_id_the_id in Hx as [Hx <-].
    destruct (finalize_node_spec db r hd x Hok Hx) as (o & db' & hd' & -> & Hok' & _). by exists r, hd'.
  - unfold finalize_node_lockless. rewrite run_bind, (run_assert_open _ _ _ Hok).
    rewrite run_bind, (run_get_node _ _ _ _ Hok), Hx. by exists r, hd.
Qed.

Lemma ok_discard db i : some_ok db → some_ok (discard_node_lockless i ∅ db).2.
Proof.
  intros (r & hd & Hok). destruct (find_id db i) as [x|] eqn:Hx.
  - destruct (decide (x = r)) as [->|Hne].
    + unfold discard_node_lockless. rewrite run_bind, (run_assert_open _ _ _ Hok).
      rewrite run_bind, (run_get_node _ _ _ _ Hok), Hx. cbn [fmap option_fmap option_map].
      destruct (run_root_id db r hd Hok) as (dr & Hdr & Hidr & Hrun). rewrite Hrun, <- Hidr.
      apply find_id_the_id in Hx as [_ <-]. rewrite bool_decide_eq_false_2 by tauto. by exists r, hd.
    + apply find_id_the_id in Hx as [Hx <-].
      destruct (discard_spec db r hd Hok x Hx Hne) as (o & db' & -> & Hok' & _). by exists r, hd.
  - unfold discard_node_lockless. rewrite run_bind, (run_assert_open _ _ _ Hok).
    rewrite run_bind, (run_get_node _ _ _ _ Hok), Hx. by exists r, hd.
Qed.

Lemma ok_commit db i lk : some_ok db →
  (∀ l hd, l ∈ _index db → id_at (db_heap db) l = Some i → _head db = Some hd →
     above (db_heap db) l hd) → some_ok (commit_node i lk db).2.
Proof.
  intros (r & hd & Hok) Hab. unfold commit_node.
  destruct (verify_unique_lock lk) eqn:Hlk; [|by exists r, hd].
  destruct (find_id db i) as [x|] eqn:Hx.
  - destruct (decide (x = r)) as [->|Hne].
    + cbn [assert_that]. rewrite run_bind. cbn [mret prog_ret].
      rewrite run_bind, (run_assert_open _ _ _ Hok).
      destruct (ok_root _ _ _ Hok) as [Hroot Hri]. rewrite run_gets, Hroot, run_bind.
      cbn [deref_ptr mret prog_ret].
      destruct (ok_delta _ _ _ _ Hok Hri) as (dr & _ & _ & Hdr & _).
      rewrite run_bind, (run_on_heap_pure _ _ _ (run_id _ _ _ Hdr)).
      apply find_id_Some in Hx as [_ Hx]. unfold id_at in Hx. rewrite Hdr in Hx. cbn in Hx.
      rewrite bool_decide_eq_true_2 by congruence. by exists r, hd.
    + pose proof (find_id_Some _ _ _ Hx) as [Hxi Hxid]. apply find_id_the_id in Hx as [_ <-].
      destruct (ok_head _ _ _ Hok) as (Hhead & _).
      destruct (commit_node_spec db r hd x lk Hok Hxi Hne Hlk)
        as (h' & f & _ & _ & [(_ & db' & Hrun & Hok' & _)|[Hna _]]);
        [|by destruct Hna; eapply Hab].
      unfold commit_node in Hrun. rewrite Hlk in Hrun. rewrite Hrun. by exists x, hd.
  - cbn [assert_that]. rewrite run_bind. cbn [mret prog_ret].
    rewrite run_bind, (run_assert_open _ _ _ Hok).
    destruct (ok_root _ _ _ Hok) as [Hroot Hri]. rewrite run_gets, Hroot, run_bind.
    cbn [deref_ptr mret prog_ret].
    destruct (ok_delta _ _ _ _ Hok Hri) as (dr & _ & _ & Hdr & _).
    rewrite run_bind, (run_on_heap_pure _ _ _ (run_id _ _ _ Hdr)).
    case_bool_decide; [by exists r, hd|].
    rewrite run_bind, (run_get_node _ _ _ _ Hok), Hx. by exists r, hd.
Qed.

(** Running an operation behind a lock check. *)
Lemma ok_locked {A} db (b : bool) (m : prog database exn A) :
  some_ok db → some_ok (m db).2 → some_ok ((assert_that b illegal_argument;; m) db).2.
Proof. intros Hok Hm. by destruct b. Qed.

Lemma ok_then {A B} db (m : prog database exn A) (f : A → B) :
  some_ok (m db).2 → some_ok ((x ← m; mret (f x)) db).2.
Proof. rewrite run_bind. by destruct (m db) as [[|e|] db']. Qed.

Lemma step_ok db db' : some_ok db → db_step db db' → some_ok db'.
Proof.
  intros Hsome Hstep. pose proof Hsome as (r & hd & Hok). destruct Hstep.
  - exists r, hd. by apply ok_put.
  - exists r, hd. by apply ok_remove.
  - exists r, hd. by apply ok_merkle.
  - exists r, hd. destruct (ok_child db r hd (state_of n) null_id default_header) as (h' & Hrun & Hok');
      [done|done|]. eapply set_heap_effect; [done| |done]. unfold create_anonymous_node. by rewrite run_bind, Hrun.
  - exists r, hd. by apply ok_reset.
  - exists r, hd. by apply ok_session_commit.
  - by apply ok_create_shared.
  - by apply ok_create_unique.
  - apply ok_locked; [done|]. by apply ok_then, ok_clone.
  - apply ok_locked; [done|]. by apply ok_clone.
  - apply ok_locked; [done|]. by apply ok_finalize.
  - apply ok_locked; [done|]. by apply ok_finalize.
  - apply ok_locked; [done|]. by apply ok_discard.
  - apply ok_locked; [done|]. by apply ok_discard.
  - by apply ok_commit.
Qed.

Lemma reaches_ok db db' : some_ok db → reaches db db' → some_ok db'.
Proof. intros Hok. induction 1 as [|x y z Hxy _ IH]; [done|]. apply IH. by eapply step_ok. Qed.

(** ** Opening *)

(** A genesis function that leaves the root readable and in place. *)
Definition genesis_ok (f : genesis_init) : Prop := ∀ h l d m,
  heap_ok h → deltas h !! l = Some d → view h l = Some m → ∃ h' d',
    f l h = (Ok tt, h') ∧ heap_ok h' ∧ deltas h' !! l = Some d' ∧ is_Some (view h' l) ∧
    _id d' = _id d ∧ _parent d' = _parent d.

Definition closed_db : database := mk_database (mk_heap ∅ 1) [] None ∅ None None None None.

Lemma closed_heap_ok : heap_ok (db_heap closed_db).
Proof. split; by cbn; intros ? ? *; rewrite lookup_empty. Qed.

Lemma open_root_ok b init c p : MapBackend._id b ≠ null_id → good_comp c →
  (∀ f, init = Some f → genesis_ok f) →
  ∃ db, (root ← on_heap (new_root b); open_root root init (Some c) p) closed_db = (Ok tt, db) ∧
    db_ok db 1 1.
Proof.
  intros Hid Hgood Hinit.
  set (d := mk_state_delta None (Some b) ∅ (MapBackend._id b) (MapBackend._revision b)
              (Some (MapBackend._merkle_root b)) false).
  set (h0 := alloc_delta d (db_heap closed_db)).
  assert (heap_ok h0) as Hh0 by (by apply alloc_ok; [apply closed_heap_ok|]).
  assert (deltas h0 !! 1%positive = Some d) as Hd by reflexivity.
  assert (view h0 1 = Some (MapBackend._map b)) as Hv0.
  { rewrite (view_intro h0 1 d b Hh0 Hd eq_refl). done. }
  rewrite run_bind. change (on_heap (new_root b) closed_db)
    with (@Ok exn loc 1%positive, set_heap h0 closed_db).
  unfold open_root. rewrite run_gets, run_bind. unfold mod_state at 1.
  set (db1 := set_config _ _ _ _).
  assert (db_heap db1 = h0) as Hdb1 by done.
  rewrite run_bind, (run_on_heap_pure _ db1 _ (run_revision h0 _ d Hd)).
  assert (∃ e, (if _revision d =? 0 then on_heap (is_empty 1) else mret false) db1 = (Ok e, db1)) as [e He].
  { destruct (_ =? 0); [|by exists false].
    assert (is_empty 1 h0 = (Ok (if negb (MapBackend.size_ b =? 0) then false else true), h0)) as Hem.
    { unfold is_empty. change (fuel_of 1) with 1%nat. cbn [is_empty_loop].
      rewrite run_bind, (run_backend _ h0 d b Hd eq_refl). destruct (negb _); [done|].
      by rewrite run_bind, (run_parent _ h0 d Hd). }
    eexists. by rewrite (run_on_heap_pure _ db1 _ Hem). }
  rewrite run_bind, He.
  assert (∃ h2 d2, match init with
      | Some f => if e then on_heap (f 1%positive) else mret tt
      | None => mret tt
      end db1 = (Ok tt, set_heap h2 db1) ∧ heap_ok h2 ∧ deltas h2 !! 1%positive = Some d2 ∧
      is_Some (view h2 1) ∧ _id d2 = _id d ∧ _parent d2 = None) as (h2 & d2 & Hrun & Hh2 & Hd2 & Hv2 & Hi2 & Hp2).
  { destruct init as [f|]; [destruct e|].
    - destruct (Hinit f eq_refl h0 1%positive d _ Hh0 Hd Hv0) as (h2 & d2 & Hf & ? & ? & ? & ? & ?).
      exists h2, d2. split_and!; try done; by rewrite (run_on_heap _ db1 _ _ Hf).
    - exists h0, d. split_and!; try done; by eexists.
    - exists h0, d. split_and!; try done; by eexists. }
  rewrite run_bind, Hrun, run_bind. unfold finalize at 1.
  rewrite (run_on_heap _ (set_heap h2 db1) _ _ (run_modify _ h2 d2 _ Hd2)).
  set (h3 := set_delta 1 (with_finalized true d2) h2). set (db3 := set_heap h3 _).
  assert (deltas h3 !! 1%positive = Some (with_finalized true d2)) as Hd3 by apply set_delta_lookup.
  assert (index_insert 1 db3 = (Ok true, set_index [1%positive] db3)) as Hins.
  { unfold index_insert. rewrite run_bind, (run_on_heap_pure _ db3 _ (run_id h3 _ _ Hd3)).
    by rewrite run_bind, run_index_find. }
  rewrite run_bind, Hins. unfold mod_state. rewrite !run_bind.
  set (db4 := set_head _ _).
  rewrite (run_on_heap_pure _ db4 _ (run_id h3 _ _ Hd3)).
  eexists. split; [reflexivity|].
  assert (heap_ok h3) as Hh3 by (eapply set_delta_ok; [done|done|by left]).
  assert (is_Some (view h3 1)) as Hv3 by (unfold h3; rewrite view_finalized; done).
  assert (finalized_at h3 1) as Hf3 by (by exists (with_finalized true d2)).
  split; cbn.
  - done.
  - intros x y. rewrite !list_elem_of_singleton. by intros -> ->.
  - apply NoDup_singleton.
  - split; [done|by left].
  - intros d0 Hd0. assert (d0 = with_finalized true d2) as -> by (unfold h3 in Hd3; cbn in Hd3; congruence). done.
  - intros x ->%list_elem_of_singleton. exists (with_finalized true d2).
    split_and!; [done|done|cbn; by rewrite Hi2|by left].
  - split_and!; [done|by left|done].
  - intros i x. rewrite lookup_insert_Some, lookup_empty. intros [[<- <-]|[_ ?]]; [|done].
    split_and!; [by left| |done]. unfold id_at. cbn. by rewrite lookup_insert_eq.
  - by exists c.
Qed.

End Steps.
