(* ===== verification/StateProperties.v ===== *)
(** The properties of the state database, and a concrete database on which
    their witnesses run. *)

From S2P Require Import Prelude Storage Keys MapBackend StateDelta StateNode StateDeltaFacts StateCommit.
From S2P Require Import StateDatabase StateDiscard StateInvariant StateGrow StateTheorems.
Import StateDelta StateDatabase StateNode.

Section Properties.
Context `{Hcrypto : !Crypto} `{Hdisk : !Disk} `{Hkeys : !DatabaseKeys}.
Implicit Types (db : database) (h : heap) (d : state_delta) (l : loc).

Lemma run_get_object h l sp k m : heap_ok h → view h l = Some m →
  get_object l sp k h = (Ok (m !! key_string (mk_database_key sp k)), h).
Proof. intros Hok Hv. unfold get_object. by apply find_spec. Qed.

Lemma key_string_inj `{!DatabaseKeysLaws} k1 k2 : key_string k1 = key_string k2 → k1 = k2.
Proof. intros Heq. pose proof (parse_key_string k1) as H1. rewrite Heq, parse_key_string in H1. congruence. Qed.

Lemma rewind_spec db r hd n x revision_ : db_ok db r hd → (fuel_of x ≤ n)%nat → x ∈ _index db →
  (∀ dr, deltas (db_heap db) !! r = Some dr → _revision dr ≤ revision_) →
  ∃ y dx dy, rewind n x revision_ (db_heap db) = (Ok y, db_heap db) ∧ y ∈ _index db ∧
    above (db_heap db) y x ∧ deltas (db_heap db) !! x = Some dx ∧ deltas (db_heap db) !! y = Some dy ∧
    (revision_ ≤ _revision dx → _revision dy = revision_) ∧ (_revision dx < revision_ → y = x).
Proof.
  intros Hok. revert x. induction n as [|n IH]; intros x Hn Hx Hr.
  { exfalso. unfold fuel_of in Hn. lia. }
  destruct (ok_node _ _ _ Hok _ Hx) as (d & Hd & _ & _ & Hcase).
  cbn [rewind]. rewrite run_bind, (run_revision _ _ _ Hd).
  destruct (Z.ltb_spec revision_ (_revision d)) as [Hlt|Hge].
  - destruct Hcase as [(-> & _)|(p & dp & Hp & Hpi & Hdp & _ & Hrev)]; [specialize (Hr _ Hd); lia|].
    rewrite run_bind, (run_parent _ _ _ Hd), Hp.
    destruct (heap_parent _ (ok_heap _ _ _ Hok) _ _ _ Hd Hp) as [Hpx%fuel_lt _].
    destruct (IH p) as (y & dx & dy & Hrun & Hy & Ha & Hdx & Hdy & H1 & H2); [lia|done|done|].
    assert (dx = dp) as -> by congruence.
    exists y, d, dy. split_and!; [done|done| |done|done|intros _; apply H1; lia|lia].
    clear -Ha Hd Hp. by eapply above_child.
  - exists x, d, d. split_and!; [done|done|constructor|done|done|lia|done].
Qed.

(** ** Properties *)

(** C3. Every database reached from an opened one by any sequence of
    operations (object writes and removals, anonymous sessions, creating,
    cloning, finalizing and discarding nodes, and commits of nodes on the
    head's chain, with either kind of lock, and with calls that throw; not
    commits of nodes off the head's chain, which break it,
    [commit_off_head]) satisfies the invariant: ids are unique, the root, the
    head and the fork heads are finalized and indexed, every other indexed
    node has an indexed, finalized parent one revision below, and every
    indexed node can be read through live backends down to the root. *)
Theorem reachable_ok (b : backend_type) (init : option genesis_init)
    (algo : fork_resolution_algorithm) (lk : option lock) :
  MapBackend._id b ≠ null_id → verify_unique_lock lk = true →
  (∀ f, init = Some f → genesis_ok f) →
  ∃ db0, open_backend_ (Some b) init (Some (comparator_of algo)) lk closed_db = (Ok tt, db0) ∧
    ∀ db, reaches db0 db → ∃ r hd, db_ok db r hd.
Proof.
  intros Hid Hlk Hinit.
  destruct (open_root_ok b init (comparator_of algo) None Hid (good_algo algo) Hinit) as (db0 & Hrun & Hok).
  exists db0. split.
  - unfold open_backend_. rewrite Hlk. cbn [assert_that]. rewrite run_bind. exact Hrun.
  - intros db Hr. apply (reaches_ok db0 db); [by exists 1%positive, 1%positive|done].
Qed.

(** C5. [commit_node] of a node below the head's chain makes it the root:
    the node and its descendants stay in the index and read exactly what
    they read before, every other node leaves the index, and the new root
    owns a backend that holds its whole state, its id, its revision, its
    header and its merkle root. *)
Theorem commit_node_correct db r hd l lk :
  db_ok db r hd → l ∈ _index db → l ≠ r → verify_unique_lock lk = true →
  above (db_heap db) l hd →
  ∃ db', commit_node (the_id (db_heap db) l) lk db = (Ok tt, db') ∧ db_ok db' l hd ∧
    (∀ x, x ∈ _index db' ↔ x ∈ _index db ∧ above (db_heap db) l x) ∧
    (∀ x, above (db_heap db) l x → view (db_heap db') x = view (db_heap db) x) ∧
    ∃ d b m, deltas (db_heap db) !! l = Some d ∧ _backend d = Some b ∧
      view (db_heap db) l = Some m ∧
      deltas (db_heap db') !! l = Some (mk_state_delta None
        (Some (MapBackend.mk_map_backend m (_revision d) (_id d)
                 (default (merkle_of d b) (_merkle_root d)) (MapBackend._header b)))
        ∅ (_id d) (_revision d) (Some (default (merkle_of d b) (_merkle_root d))) (_finalized d)).
Proof.
  intros Hok Hl Hlr Hlk Ha.
  destruct (commit_node_spec db r hd l lk Hok Hl Hlr Hlk)
    as (h' & f & Hres & _ & [(_ & db' & Hrun & Hok' & Hh' & _ & Hidx)|[Hna _]]); [|done].
  exists db'. split_and!; [done|done|done| |].
  - intros x Hx. rewrite Hh'. by apply (commit_heap_ok db r hd l Hok Hl Hlr h' Hres).
  - rewrite Hh'. destruct Hres as (d & b & m & dr & Hd & Hb & Hv & _ & ->).
    exists d, b, m. split_and!; [done..|]. by rewrite set_delta_lookup.
Qed.

(** [commit_node] of a node off the head's chain throws
    [cannot_discard] with the commit half done: the root already moved to
    the node and the old root, still indexed, has no backend, so reading
    through it dereferences null. *)
Theorem commit_off_head db r hd l lk sp k :
  db_ok db r hd → l ∈ _index db → l ≠ r → verify_unique_lock lk = true →
  ¬ above (db_heap db) l hd →
  ∃ db', commit_node (the_id (db_heap db) l) lk db = (Throw cannot_discard, db') ∧
    _root db' = Some l ∧ r ∈ _index db' ∧
    get_object r sp k (db_heap db') = (Throw null_dereference, db_heap db').
Proof.
  intros Hok Hl Hlr Hlk Hna.
  destruct (commit_node_spec db r hd l lk Hok Hl Hlr Hlk)
    as (h' & f & Hres & _ & [(Ha & _)|[_ Hrun]]); [done|].
  eexists. split; [exact Hrun|]. split_and!; [done| |].
  - change (r ∈ commit_index db l). rewrite commit_index_elem by done. apply (ok_root _ _ _ Hok).
  - cbn. destruct Hres as (d & b & m & dr & Hd & Hb & Hv & Hdr & ->).
    set (h2 := set_delta l _ _).
    assert (deltas h2 !! r = Some (with_backend None dr)) as Hr.
    { unfold h2. cbn. by rewrite lookup_insert_ne, lookup_insert_eq. }
    unfold get_object, find. destruct (fuel_S r) as [n ->]. cbn [find_loop].
    rewrite run_bind. unfold backend. by rewrite run_bind, (run_deref _ _ _ Hr).
Qed.

(** [discard_node] removes the node and all its descendants from the
    index and nothing else; when the head is among them it throws
    [cannot_discard] and the index is untouched. *)
Theorem discard_node_subtree db r hd l lk :
  db_ok db r hd → l ∈ _index db → l ≠ r → verify_unique_lock lk = true →
  ∃ o db', discard_node_unique (the_id (db_heap db) l) ∅ lk db = (o, db') ∧ db_ok db' r hd ∧
    db_heap db' = db_heap db ∧
    (above (db_heap db) l hd → o = Throw cannot_discard ∧ _index db' = _index db) ∧
    (¬ above (db_heap db) l hd → o = Ok tt ∧
       ∀ x, x ∈ _index db' ↔ x ∈ _index db ∧ ¬ above (db_heap db) l x).
Proof.
  intros Hok Hl Hlr Hlk. unfold discard_node_unique. rewrite Hlk. cbn [assert_that].
  rewrite run_bind. cbn [mret prog_ret].
  destruct (discard_spec db r hd Hok l Hl Hlr) as (o & db' & Hrun & Hok' & Hh & Ho).
  exists o, db'. split_and!; [done|done|done| |]; destruct o as [[]|e|]; try done; try tauto.
  - by destruct Ho as (-> & _ & ->).
Qed.

(** C29. An object written to a node is read back from it, no other key
    changes, the call returns the change of the stored bytes, and no other
    node of the database sees the write: forks are isolated. *)
Theorem put_object_isolated `{!DatabaseKeysLaws} db r hd l d m sp k v :
  db_ok db r hd → deltas (db_heap db) !! l = Some d → _finalized d = false →
  l ∈ _index db → view (db_heap db) l = Some m →
  ∃ n db', on_heap (put_object l sp k v) db = (Ok n, db') ∧ db_ok db' r hd ∧
    n = i64 (i64 (match m !! key_string (mk_database_key sp k) with
                  | Some o => - Z.of_nat (length o)
                  | None => Z.of_nat (length (key_string (mk_database_key sp k)))
                  end) + Z.of_nat (length v)) ∧
    on_heap (get_object l sp k) db' = (Ok (Some v), db') ∧
    (∀ sp' k', (sp', k') ≠ (sp, k) →
       (on_heap (get_object l sp' k') db').1 = (on_heap (get_object l sp' k') db).1) ∧
    (∀ x sp' k', x ∈ _index db → x ≠ l →
       (on_heap (get_object x sp' k') db').1 = (on_heap (get_object x sp' k') db).1).
Proof.
  intros Hok Hd Hf Hl Hv.
  pose proof (put_object_spec _ l sp k v m d (ok_heap _ _ _ Hok) Hv Hd) as Hp. cbn in Hp.
  rewrite Hf in Hp. destruct Hp as (h' & Hrun & Hw).
  pose proof (db_ok_writes_any db r hd l d _ h' Hok Hd (λ _, Hf) Hw) as Hok'.
  pose proof Hw as (_ & _ & _ & _ & _ & _ & Hv').
  eexists _, (set_heap h' db). split_and!; [by rewrite (run_on_heap _ _ _ _ Hrun)|done|done| | |].
  - rewrite (run_on_heap_pure _ (set_heap h' db) _ (run_get_object h' l sp k _ (ok_heap _ _ _ Hok') Hv')).
    by rewrite lookup_insert_eq.
  - intros sp' k' Hne.
    rewrite (run_on_heap_pure _ (set_heap h' db) _ (run_get_object h' l sp' k' _ (ok_heap _ _ _ Hok') Hv')).
    rewrite (run_on_heap_pure _ db _ (run_get_object _ l sp' k' _ (ok_heap _ _ _ Hok) Hv)).
    rewrite lookup_insert_ne; [done|]. intros Heq%key_string_inj. apply Hne. congruence.
  - intros x sp' k' Hx Hne.
    destruct (ok_delta _ _ _ _ Hok Hx) as (_ & _ & mx & _ & _ & Hvx).
    pose proof (writes_isolated db r hd l d _ h' x Hok Hd Hf Hw Hx Hne) as Hvx'. rewrite Hvx in Hvx'.
    rewrite (run_on_heap_pure _ (set_heap h' db) _ (run_get_object h' x sp' k' _ (ok_heap _ _ _ Hok') Hvx')).
    by rewrite (run_on_heap_pure _ db _ (run_get_object _ x sp' k' _ (ok_heap _ _ _ Hok) Hvx)).
Qed.

(** A node created by [create_writable_node] is a child of the
    requested parent, which is finalized, one revision above it, writable,
    and reads exactly what the parent reads, whatever the other threads do
    while the call waits and whichever locks it fails to get. *)
Theorem create_writable_node_child db r hd p i header lk t :
  db_ok db r hd → i ≠ null_id → others_ok t → small_revision db p →
  verify_unique_lock lk = true →
  ∃ o db' r' hd', create_writable_node_unique p i header lk t db = (Ok o, db') ∧ db_ok db' r' hd' ∧
    match o with
    | Some c => ∃ pl d dp, find_id db p = Some pl ∧ _state c ∈ _index db' ∧
        deltas (db_heap db') !! _state c = Some d ∧ _id d = i ∧ _parent d = Some pl ∧
        deltas (db_heap db') !! pl = Some dp ∧ _finalized dp = true ∧ _finalized d = false ∧
        _revision d = _revision dp + 1 ∧
        view (db_heap db') (_state c) = view (db_heap db') pl
    | None => True
    end.
Proof.
  intros Hok Hi Hot Hsm Hlk. unfold create_writable_node_unique, get_node_unique. rewrite Hlk.
  cbn [assert_that]. rewrite run_bind. cbn [mret prog_ret]. rewrite run_bind, run_bind.
  cbn [mret prog_ret]. rewrite (run_get_node _ _ _ _ Hok).
  destruct (find_id db p) as [pl|] eqn:Hf; [|by exists None, db, r, hd].
  pose proof (find_id_Some _ _ _ Hf) as [Hpi Hpid]. pose proof (find_id_the_id _ _ _ Hf) as [_ Hthe].
  cbn [fmap option_fmap option_map]. rewrite <- Hthe.
  destruct (create_child_spec db r hd pl None i header t Hok Hpi Hi Hot)
    as (o & db' & r' & hd' & Hrun & Hok' & Ho); [intros d Hd; by eapply Hsm|].
  exists o, db', r', hd'. split_and!; [done|done|]. destruct o as [c|]; [|done].
  destruct Ho as (d & dp & Ho). exists pl, d, dp. split; [done|exact Ho].
Qed.

(** [get_node_at_revision] returns the ancestor of the child at the
    revision, or the child itself when the revision is above it. *)
Theorem get_node_at_revision_ancestor db r hd c dr dc revision_ lk :
  db_ok db r hd → c ∈ _index db → verify_unique_lock lk = true →
  deltas (db_heap db) !! r = Some dr → deltas (db_heap db) !! c = Some dc →
  _revision dr < revision_ →
  ∃ y dy, get_node_at_revision_unique revision_ (the_id (db_heap db) c) lk db
            = (Ok (mk_state_node y None), db) ∧
    y ∈ _index db ∧ above (db_heap db) y c ∧ deltas (db_heap db) !! y = Some dy ∧
    (revision_ ≤ _revision dc → _revision dy = revision_) ∧ (_revision dc < revision_ → y = c).
Proof.
  intros Hok Hc Hlk Hdr Hdc Hrev. unfold get_node_at_revision_unique. rewrite Hlk.
  cbn [assert_that]. rewrite run_bind. cbn [mret prog_ret]. unfold get_node_at_revision_lockless.
  rewrite run_bind, (run_assert_open _ _ _ Hok). destruct (ok_root _ _ _ Hok) as [Hroot _].
  rewrite run_gets, Hroot, run_bind. cbn [deref_ptr mret prog_ret].
  rewrite run_bind, (run_on_heap_pure _ _ _ (run_revision _ _ _ Hdr)).
  rewrite (proj2 (Z.leb_le _ _)) by lia. cbn [assert_that]. rewrite run_bind. cbn [mret prog_ret].
  rewrite (proj2 (Z.eqb_neq _ _)) by lia. rewrite run_bind, (run_get_node _ _ _ _ Hok).
  rewrite (find_id_eq _ _ _ _ _ Hok Hc (finalized_id _ _ _ _ Hok Hc)). cbn [fmap option_fmap option_map].
  rewrite run_bind. cbn [mret prog_ret _state].
  destruct (rewind_spec db r hd (fuel_of c) c revision_ Hok) as (y & dx & dy & Hrun & Hy & Ha & Hdx & Hdy & H1 & H2);
    [done|done|intros d0 Hd0; assert (d0 = dr) as -> by congruence; lia|].
  assert (dx = dc) as -> by congruence.
  rewrite run_bind, (run_on_heap_pure _ _ _ Hrun).
  rewrite run_bind, (run_on_heap_pure _ _ _ (run_id _ _ _ Hdy)), run_bind, run_index_find.
  assert (id_at (db_heap db) y = Some (_id dy)) as Hid by (unfold id_at; by rewrite Hdy).
  rewrite (find_id_eq _ _ _ _ _ Hok Hy Hid). exists y, dy. done.
Qed.

(** Finalizing under [fifo]: the head moves to the node when its
    revision is higher and stays otherwise, the node becomes finalized, and
    no node's contents change. *)
Theorem finalize_node_fifo db r hd x d dh lk :
  db_ok db r hd → x ∈ _index db → _comp db = Some fifo_comparator →
  deltas (db_heap db) !! x = Some d → deltas (db_heap db) !! hd = Some dh →
  verify_unique_lock lk = true →
  ∃ db', finalize_node_unique (the_id (db_heap db) x) lk db = (Ok tt, db') ∧
    db_ok db' r (if _revision dh <? _revision d then x else hd) ∧ finalized_at (db_heap db') x ∧
    _index db' = _index db ∧ ∀ y, view (db_heap db') y = view (db_heap db) y.
Proof.
  intros Hok Hx Hcomp Hd Hdh Hlk. unfold finalize_node_unique. rewrite Hlk. cbn [assert_that].
  rewrite run_bind. cbn [mret prog_ret].
  destruct (finalize_fifo_run db r hd x d dh Hok Hx Hcomp Hd Hdh) as (f & Hrun & Hok' & Hf & Hviews).
  eexists. split; [exact Hrun|]. by split_and!.
Qed.

(** An anonymous session [s] on the node [l]. *)
Definition session_on db l (s : loc) : Prop :=
  (l ∈ _index db) ∧ (s ∉ _index db) ∧
  (∃ d, deltas (db_heap db) !! l = Some d ∧ _finalized d = false) ∧
  (∃ d, deltas (db_heap db) !! s = Some d ∧ _parent d = Some l ∧ _finalized d = false).

Lemma session_commit_run db r hd l s m : db_ok db r hd → session_on db l s →
  view (db_heap db) s = Some m →
  ∃ h1 d1, on_heap (anonymous_commit (AnonymousNode (StateNode l) s)) db
        = (Ok (AnonymousNode (StateNode l) (next_loc (db_heap db))),
           set_heap (alloc_delta d1 h1) db) ∧
    next_loc h1 = next_loc (db_heap db) ∧ _parent d1 = Some s ∧ _finalized d1 = false ∧
    writes (db_heap db) l m h1 ∧ db_ok (set_heap h1 db) r hd ∧
    heap_ok (alloc_delta d1 h1) ∧ view (alloc_delta d1 h1) (next_loc h1) = Some m.
Proof.
  intros Hok (Hl & Hs & (dl & Hdl & Hdlf) & (ds & Hds & Hdsp & Hdsf)) Hv.
  destruct (squash_spec _ s ds l m (ok_heap _ _ _ Hok) Hds Hdsp Hv) as (h1 & Hrun & Hw).
  pose proof (db_ok_writes_any db r hd l dl m h1 Hok Hdl (λ _, Hdlf) Hw) as Hok1.
  pose proof Hw as (dl0 & dl' & Hdl0 & Hh1 & _ & _ & Hvl).
  pose proof (heap_parent _ (ok_heap _ _ _ Hok) _ _ _ Hds Hdsp) as [Hlt _].
  assert (deltas h1 !! s = Some ds) as Hds1.
  { subst h1. cbn. rewrite lookup_insert_ne by lia. done. }
  destruct (view_inv _ _ _ (ok_heap _ _ _ Hok) Hv) as (ds0 & bs & Hds0 & Hbs & Hm).
  assert (ds0 = ds) as -> by congruence. rewrite Hdsp in Hm. destruct Hm as (ml & Hml & Hm).
  assert (view h1 s = Some m) as Hvs.
  { rewrite (view_intro h1 s ds bs (ok_heap _ _ _ Hok1) Hds1 Hbs), Hdsp, Hvl. cbn. f_equal.
    subst m. apply map_eq. intros k. rewrite !overlay_lookup.
    destruct (MapBackend._map bs !! k); [done|]. by case_bool_decide. }
  destruct (make_child_spec h1 s ds null_id default_header m (ok_heap _ _ _ Hok1) Hds1 Hvs)
    as (Hmk & Hh2 & Hvn & _).
  assert (next_loc h1 = next_loc (db_heap db)) as Hnl by (by subst h1).
  exists h1, (child_delta s ds null_id default_header). split_and!; try done.
  apply run_on_heap. cbn. rewrite run_bind, (run_is_finalized _ _ _ Hdl), Hdlf. cbn [negb assert_that].
  rewrite run_bind. cbn [mret prog_ret]. rewrite run_bind, Hrun, run_bind, Hmk, Hnl. done.
Qed.

(** Committing an anonymous session publishes it: the node reads what
    the session read, and no other node changes. *)
Theorem session_commit_publishes db r hd l s m :
  db_ok db r hd → session_on db l s → view (db_heap db) s = Some m →
  ∃ n db', on_heap (anonymous_commit (AnonymousNode (StateNode l) s)) db = (Ok n, db') ∧
    db_ok db' r hd ∧ view (db_heap db') l = Some m ∧
    ∀ x, x ∈ _index db → x ≠ l → view (db_heap db') x = view (db_heap db) x.
Proof.
  intros Hok Hs Hv.
  destruct (session_commit_run db r hd l s m Hok Hs Hv) as (h1 & d1 & Hrun & Hnl & _ & _ & Hw & Hok1 & Hh2 & _).
  destruct Hs as (Hl & _ & (dl & Hdl & Hf) & _).
  eexists _, _. split; [exact Hrun|].
  assert (∀ x, x ∈ _index db → view (alloc_delta d1 h1) x = view h1 x) as Halloc.
  { intros x Hx. apply alloc_view; [apply Hok1|done|].
    destruct (ok_delta _ _ _ _ Hok Hx) as (dx & _ & _ & Hdx & _).
    pose proof (heap_fresh _ (ok_heap _ _ _ Hok) _ _ Hdx). rewrite Hnl. lia. }
  split_and!.
  - by apply (db_ok_alloc (set_heap h1 db) r hd d1 Hok1).
  - cbn. rewrite Halloc by done. by destruct Hw as (_ & _ & _ & _ & _ & _ & ?).
  - intros x Hx Hne. cbn. rewrite Halloc by done. by eapply writes_isolated.
Qed.

(** A session cannot be used after it was committed or reset: [reset]
    starts a child of the session's own delta, not of the node.  So a reset
    session still reads its uncommitted writes, and writes made after a
    commit are acknowledged and committed without an error but never reach
    the node. *)
Theorem session_reuse_lost db r hd l s m sp k v :
  db_ok db r hd → session_on db l s → view (db_heap db) s = Some m →
  (∃ n db1, on_heap (anonymous_reset (AnonymousNode (StateNode l) s)) db = (Ok n, db1) ∧
     view (db_heap db1) (state_of n) = Some m) ∧
  ∃ n1 db1 used db2 n3 db3,
    on_heap (anonymous_commit (AnonymousNode (StateNode l) s)) db = (Ok n1, db1) ∧
    on_heap (put_object (state_of n1) sp k v) db1 = (Ok used, db2) ∧
    on_heap (get_object (state_of n1) sp k) db2 = (Ok (Some v), db2) ∧
    on_heap (anonymous_commit n1) db2 = (Ok n3, db3) ∧
    view (db_heap db3) l = Some m.
Proof.
  intros Hok Hs Hv. pose proof Hs as (Hl & Hsi & (dl & Hdl & Hdlf) & (ds & Hds & Hdsp & Hdsf)).
  split.
  { destruct (make_child_spec _ s ds null_id default_header m (ok_heap _ _ _ Hok) Hds Hv)
      as (Hmk & _ & Hvn & _).
    eexists _, _. split; [apply run_on_heap; cbn; rewrite run_bind, Hmk; reflexivity|done]. }
  destruct (session_commit_run db r hd l s m Hok Hs Hv)
    as (h1 & d1 & Hrun & Hnl & Hd1p & Hd1f & Hw & Hok1 & Hh2 & Hv1).
  set (c := next_loc h1) in *. set (h2 := alloc_delta d1 h1) in *.
  assert (deltas h2 !! c = Some d1) as Hc by (unfold h2; cbn; by rewrite lookup_insert_eq).
  pose proof (put_object_spec h2 c sp k v m d1 Hh2 Hv1 Hc) as Hp. cbn in Hp. rewrite Hd1f in Hp.
  destruct Hp as (h3 & Hput & Hw3). pose proof Hw3 as (dc & dc' & Hdc & Hh3 & (Hcp & _ & _ & Hcf & _) & _ & Hv3).
  assert (dc = d1) as -> by congruence.
  assert (heap_ok h3) as Hh3ok by (subst h3; eapply set_delta_ok; [done|done|by left]).
  assert (deltas h3 !! c = Some dc') as Hc3 by (subst h3; apply set_delta_lookup).
  rewrite Hd1p in Hcp.
  destruct (squash_spec h3 c dc' s _ Hh3ok Hc3 Hcp Hv3) as (h4 & Hsq & Hw4).
  pose proof Hw4 as (de & de' & Hde & Hh4 & (Hep & _) & _ & Hv4).
  assert (heap_ok h4) as Hh4ok by (subst h4; eapply set_delta_ok; [done|done|by left]).
  pose proof (heap_parent _ Hh3ok _ _ _ Hc3 Hcp) as [Hsc _].
  pose proof (heap_parent _ (ok_heap _ _ _ Hok) _ _ _ Hds Hdsp) as [Hls _].
  assert (deltas h4 !! c = Some dc') as Hc4 by (subst h4; cbn; rewrite lookup_insert_ne by lia; done).
  assert (is_Some (view h4 c)) as [m4 Hv4c].
  { destruct (view_inv _ _ _ Hh3ok Hv3) as (d0 & b0 & Hd0 & Hb0 & _).
    assert (d0 = dc') as -> by congruence.
    rewrite (view_intro h4 c dc' b0 Hh4ok Hc4 Hb0), Hcp, Hv4. by eexists. }
  destruct (make_child_spec h4 c dc' null_id default_header m4 Hh4ok Hc4 Hv4c) as (Hmk & Hh5 & _ & Hv5).
  assert (view h1 l = Some m) as Hvl by (by destruct Hw as (_ & _ & _ & _ & _ & _ & ?)).
  assert (deltas h4 !! l = deltas h1 !! l) as Hdl4.
  { subst h4 h3. cbn. rewrite !lookup_insert_ne by lia. done. }
  eexists _, _, _, (set_heap h3 db), _, (set_heap _ db). split; [rewrite <- Hnl in Hrun; exact Hrun|].
  split; [by apply (run_on_heap _ (set_heap h2 db))|]. split_and!.
  - cbn [state_of].
    rewrite (run_on_heap_pure _ (set_heap h3 db) _ (run_get_object h3 c sp k _ Hh3ok Hv3)).
    by rewrite lookup_insert_eq.
  - apply (run_on_heap _ (set_heap h3 db)). cbn [anonymous_commit state_of db_heap set_heap].
    assert (deltas h3 !! l = deltas h1 !! l) as Hdl3 by (subst h3; cbn; rewrite !lookup_insert_ne by lia; done).
    pose proof Hw as (dl0 & dl' & Hdl0 & Hh1 & (_ & _ & _ & Hlf & _) & _).
    assert (dl0 = dl) as -> by congruence.
    assert (deltas h3 !! l = Some dl') as Hdl3' by (rewrite Hdl3; subst h1; apply set_delta_lookup).
    rewrite run_bind, (run_is_finalized _ _ _ Hdl3'), Hlf, Hdlf. cbn [negb assert_that].
    rewrite run_bind. cbn [mret prog_ret]. rewrite run_bind, Hsq. cbn [anonymous_reset].
    rewrite run_bind, Hmk. reflexivity.
  - cbn [db_heap set_heap]. 
    assert (∀ y, y ≠ s → y ≠ c → core <$> deltas h4 !! y = core <$> deltas h1 !! y) as Hsame.
    { intros y Hys Hyc. subst h4 h3. cbn. rewrite !lookup_insert_ne by done. done. }
    assert ((l < next_loc h4)%positive) as Hln.
    { subst h4 h3. cbn. fold c. lia. }
    rewrite Hv5 by lia.
    rewrite (view_frame h3 h4 s l Hh3ok Hh4ok); [| |intros y Hy; subst h4; by apply core_set_delta_ne].
    2: { intros Ha. pose proof (above_le _ _ _ Hh3ok Ha). lia. }
    rewrite (view_frame h2 h3 c l Hh2 Hh3ok); [| |intros y Hy; subst h3; by apply core_set_delta_ne].
    2: { intros Ha. pose proof (above_le _ _ _ Hh2 Ha). lia. }
    unfold h2. rewrite alloc_view; [done|apply Hok1|done|fold c; lia].
Qed.

End Properties.
