(* ===== verification/StateExample.v ===== *)
(** A concrete state database: the witnesses of its properties. *)

From S2P Require Import Prelude Storage Keys MapBackend StateDelta StateNode StateDeltaFacts StateCommit.
From S2P Require Import StateDatabase StateDiscard StateInvariant StateGrow StateTheorems StateProperties.
Import StateDelta StateDatabase StateNode.

(** A hash that is the identity and a root that concatenates. *)
#[global] Instance example_crypto : Crypto := {|
  hash b := b;
  merkle_tree_root l := concat l;
  zero := [byte_of 0];
  null_id := [];
  multihash_ltb := bytes_ltb
|}.

#[global] Instance example_disk : Disk := {| open_backend _ := inl internal_error |}.

(** Keys: the system flag, the zone and the id as framed byte strings, and
    the rest. *)
Fixpoint frame (b rest : bytes) : bytes :=
  match b with
  | [] => byte_of 0 :: rest
  | c :: b => byte_of 1 :: c :: frame b rest
  end.

Fixpoint unframe (b : bytes) : option (bytes * bytes) :=
  match b with
  | [] => None
  | t :: b =>
    if code t =? 0 then Some ([], b)
    else match b with
         | [] => None
         | c :: b => '(x, rest) ← unframe b; Some (c :: x, rest)
         end
  end.

Lemma unframe_frame b rest : unframe (frame b rest) = Some (b, rest).
Proof. induction b as [|c b IH]; cbn; [done|by rewrite IH]. Qed.

#[global] Instance example_keys : DatabaseKeys := {|
  key_string k :=
    byte_of (if system (key_space k) then 1 else 0) ::
    frame (zone (key_space k)) (frame (bits_of (encode (space_id (key_space k)))) (key_key k));
  parse_key b :=
    match b with
    | [] => None
    | s :: b =>
      '(z, b) ← unframe b; '(i, k) ← unframe b; i ← decode (of_bits i);
      Some (mk_database_key (mk_object_space (code s =? 1) z i) k)
    end
|}.

#[global] Instance example_keys_laws : DatabaseKeysLaws.
Proof.
  split. intros [[s z i] k]. cbn [parse_key key_string example_keys key_space key_key zone space_id system].
  rewrite unframe_frame. cbn [mbind option_bind]. rewrite unframe_frame. cbn [mbind option_bind].
  rewrite of_bits_of, decode_encode. cbn [mbind option_bind]. by destruct s.
Qed.

Definition lk : option lock := Some (mk_lock true true).

(** Every lock is obtained and no other thread interferes. *)
Definition calm : timing := mk_timing true (λ db, db) true true.

Lemma calm_ok : others_ok calm.
Proof. intros db r hd Hok. exists r, hd. split; [done|]. by eapply evolves_refl. Qed.

Definition header (t : Z) : block_header := mk_block_header t (str "signer") [].
Definition contracts : object_space := mk_object_space false (str "contract") 1.

(** The root, a finalized child [A] with one object, two children [B] and
    [C] of [A] at the same revision, [B] finalized and the head, and a
    writable child [D] of [B]. *)
Definition db0 : database :=
  (open_backend_ (Some MapBackend.new) None (Some (comparator_of fifo)) lk closed_db).2.
Definition db1 : database := (create_writable_node_unique zero (str "A") (header 1) lk calm db0).2.
Definition db2 : database := (on_heap (put_object 2 contracts (str "k") (str "one")) db1).2.
Definition db3 : database := (finalize_node_unique (str "A") lk db2).2.
Definition db4 : database := (create_writable_node_unique (str "A") (str "B") (header 2) lk calm db3).2.
Definition db5 : database := (finalize_node_unique (str "B") lk db4).2.
Definition db6 : database := (create_writable_node_unique (str "A") (str "C") (header 3) lk calm db5).2.
Definition db7 : database := (create_writable_node_unique (str "B") (str "D") (header 4) lk calm db6).2.
(** An anonymous session on [D] that has written one object. *)
Definition db8 : database := (on_heap (create_anonymous_node (StateNode 5)) db7).2.
Definition db9 : database := (on_heap (put_object 6 contracts (str "k") (str "two")) db8).2.

Lemma small_eval db i : forallb (λ l, match deltas (db_heap db) !! l with
    | Some d => (0 <=? _revision d) && (_revision d <? u64_max)
    | None => true
    end) (_index db) = true → small_revision db i.
Proof.
  intros H l d Hl _ Hd. rewrite forallb_forall in H. specialize (H l (proj1 (list_elem_of_In _ _) Hl)).
  rewrite Hd in H. apply andb_true_iff in H as [?%Z.leb_le ?%Z.ltb_lt]. lia.
Qed.

Lemma db0_ok : db_ok db0 1 1.
Proof.
  destruct (open_root_ok MapBackend.new None (comparator_of fifo) None) as (db & Hrun & Hok);
    [done|apply good_algo|done|].
  assert (db0 = db) as ->; [|done]. unfold db0, open_backend_.
  change (verify_unique_lock lk) with true. cbn [assert_that]. rewrite run_bind. cbn [mret prog_ret].
  unfold open_lockless_backend. by rewrite Hrun.
Qed.

Lemma reached_ok db r hd : reaches db0 db → _root db = Some r → _head db = Some hd → db_ok db r hd.
Proof.
  intros Hr Hroot Hhead. destruct (reaches_ok db0 db) as (r' & hd' & Hok); [|done|].
  { exists 1%positive, 1%positive. apply db0_ok. }
  destruct (ok_root _ _ _ Hok) as [? _]. destruct (ok_head _ _ _ Hok) as [? _].
  assert (r' = r) as -> by congruence. assert (hd' = hd) as -> by congruence. done.
Qed.

Ltac view_some := apply (bool_decide_unpack _); vm_compute; exact I.

Lemma db7_reached : reaches db0 db7.
Proof.
  eapply rtc_l; [apply (step_create_unique db0 zero (str "A") (header 1) lk calm);
    [done|apply calm_ok|by apply small_eval]|]. fold db1.
  eapply rtc_l; [apply (step_put db1 2 contracts (str "k") (str "one")); view_some|]. fold db2.
  eapply rtc_l; [apply (step_finalize_unique db2 (str "A") lk)|]. fold db3.
  eapply rtc_l; [apply (step_create_unique db3 (str "A") (str "B") (header 2) lk calm);
    [done|apply calm_ok|by apply small_eval]|]. fold db4.
  eapply rtc_l; [apply (step_finalize_unique db4 (str "B") lk)|]. fold db5.
  eapply rtc_l; [apply (step_create_unique db5 (str "A") (str "C") (header 3) lk calm);
    [done|apply calm_ok|by apply small_eval]|]. fold db6.
  eapply rtc_l; [apply (step_create_unique db6 (str "B") (str "D") (header 4) lk calm);
    [done|apply calm_ok|by apply small_eval]|]. fold db7. reflexivity.
Qed.

Lemma db9_reached : reaches db0 db9.
Proof.
  etrans; [apply db7_reached|].
  eapply rtc_l; [apply (step_anonymous db7 (StateNode 5)); view_some|]. fold db8.
  eapply rtc_l; [apply (step_put db8 6 contracts (str "k") (str "two")); view_some|]. fold db9. reflexivity.
Qed.

Lemma db7_ok : db_ok db7 1 3.
Proof. apply reached_ok; [apply db7_reached|by vm_compute|by vm_compute]. Qed.

Lemma db9_ok : db_ok db9 1 3.
Proof. apply reached_ok; [apply db9_reached|by vm_compute|by vm_compute]. Qed.


(** The delta at a location and the view of it, by evaluation. *)
Definition delta_of (db : database) (l : loc) : state_delta :=
  default (mk_state_delta None None ∅ [] 0 None false) (deltas (db_heap db) !! l).
Definition view_of (db : database) (l : loc) : gmap bytes bytes := default ∅ (view (db_heap db) l).

Ltac eval_eq := match goal with |- ?a = _ => vm_cast_no_check (@eq_refl _ a) end.
Ltac eval_neq := let H := fresh in intros H; vm_compute in H; discriminate H.
Ltac in_index := apply (bool_decide_unpack _); vm_compute; exact I.

Lemma above_2_3 : above (db_heap db7) 2 3.
Proof. eapply (above_child _ _ _ (delta_of db7 3) 2); [eval_eq|eval_eq|constructor]. Qed.

Lemma not_above_4_3 : ¬ above (db_heap db7) 4 3.
Proof. intros Ha. pose proof (above_le _ _ _ (ok_heap _ _ _ db7_ok) Ha). lia. Qed.

Lemma reachable_ok_witness : ∃ r hd, db_ok db9 r hd.
Proof.
  assert (MapBackend._id MapBackend.new ≠ null_id) as Hid by eval_neq.
  destruct (reachable_ok MapBackend.new None fifo lk Hid eq_refl ltac:(discriminate))
    as (d0 & Hrun & Hall).
  apply Hall. assert (d0 = db0) as -> by (unfold db0; rewrite Hrun; reflexivity). apply db9_reached.
Defined.

Lemma commit_node_correct_witness :
  ∃ db', commit_node (str "A") lk db7 = (Ok tt, db') ∧ db_ok db' 2 3 ∧
    view (db_heap db') 5 = view (db_heap db7) 5.
Proof.
  destruct (commit_node_correct db7 1 3 2 lk db7_ok ltac:(in_index) ltac:(done) ltac:(done) above_2_3)
    as (db' & Hrun & Hok & _ & Hviews & _).
  exists db'. split; [exact Hrun|]. split; [exact Hok|]. apply Hviews.
  eapply (above_child _ _ _ (delta_of db7 5) 3); [eval_eq|eval_eq|apply above_2_3].
Defined.

Lemma commit_off_head_witness :
  ∃ db', commit_node (str "C") lk db7 = (Throw cannot_discard, db') ∧ _root db' = Some 4%positive ∧
    get_object 1 contracts (str "k") (db_heap db') = (Throw null_dereference, db_heap db').
Proof.
  destruct (commit_off_head db7 1 3 4 lk contracts (str "k") db7_ok ltac:(in_index) ltac:(done)
    ltac:(done) not_above_4_3) as (db' & Hrun & Hroot & _ & Hget).
  exists db'. split; [exact Hrun|]. split; [exact Hroot|exact Hget].
Defined.

Lemma discard_node_subtree_witness :
  ∃ o db', discard_node_unique (str "C") ∅ lk db7 = (o, db') ∧ o = Ok tt.
Proof.
  destruct (discard_node_subtree db7 1 3 4 lk db7_ok ltac:(in_index) ltac:(done) ltac:(done))
    as (o & db' & Hrun & _ & _ & _ & Hno).
  exists o, db'. split; [exact Hrun|]. apply Hno, not_above_4_3.
Defined.

Lemma put_object_isolated_witness :
  ∃ n db', on_heap (put_object 5 contracts (str "k") (str "three")) db7 = (Ok n, db') ∧ n = 2 ∧
    on_heap (get_object 5 contracts (str "k")) db' = (Ok (Some (str "three")), db').
Proof.
  destruct (put_object_isolated db7 1 3 5 (delta_of db7 5) (view_of db7 5) contracts (str "k") (str "three")
    db7_ok ltac:(eval_eq) ltac:(eval_eq) ltac:(in_index) ltac:(eval_eq))
    as (n & db' & Hrun & _ & Hn & Hget & _).
  exists n, db'. split; [exact Hrun|]. split; [rewrite Hn; eval_eq|exact Hget].
Defined.

Lemma create_writable_node_child_witness :
  ∃ o db' r' hd', create_writable_node_unique (str "B") (str "E") (header 5) lk calm db7 = (Ok o, db') ∧
    db_ok db' r' hd'.
Proof.
  destruct (create_writable_node_child db7 1 3 (str "B") (str "E") (header 5) lk calm db7_ok
    ltac:(done) calm_ok ltac:(by apply small_eval) ltac:(done)) as (o & db' & r' & hd' & Hrun & Hok & _).
  exists o, db', r', hd'. split; [exact Hrun|exact Hok].
Defined.

Lemma get_node_at_revision_ancestor_witness :
  ∃ y dy, get_node_at_revision_unique 2 (str "D") lk db7 = (Ok (mk_state_node y None), db7) ∧
    deltas (db_heap db7) !! y = Some dy ∧ _revision dy = 2.
Proof.
  destruct (get_node_at_revision_ancestor db7 1 3 5 (delta_of db7 1) (delta_of db7 5) 2 lk db7_ok
    ltac:(in_index) ltac:(done) ltac:(eval_eq) ltac:(eval_eq) ltac:(by vm_compute))
    as (y & dy & Hrun & _ & _ & Hdy & Hrev & _).
  exists y, dy. split; [exact Hrun|]. split; [exact Hdy|]. apply Hrev. by vm_compute.
Defined.

Lemma finalize_node_fifo_witness :
  ∃ db', finalize_node_unique (str "C") lk db7 = (Ok tt, db') ∧ db_ok db' 1 3.
Proof.
  destruct (finalize_node_fifo db7 1 3 4 (delta_of db7 4) (delta_of db7 3) lk db7_ok ltac:(in_index)
    ltac:(eval_eq) ltac:(eval_eq) ltac:(eval_eq) ltac:(done)) as (db' & Hrun & Hok & _).
  exists db'. split; [exact Hrun|exact Hok].
Defined.

Lemma session_9 : session_on db9 5 6.
Proof.
  split; [in_index|]. split; [in_index|]. split.
  - exists (delta_of db9 5). split; eval_eq.
  - exists (delta_of db9 6). split; [eval_eq|]. split; eval_eq.
Qed.

Lemma session_commit_publishes_witness :
  ∃ n db', on_heap (anonymous_commit (AnonymousNode (StateNode 5) 6)) db9 = (Ok n, db') ∧
    view (db_heap db') 5 = Some (view_of db9 6).
Proof.
  destruct (session_commit_publishes db9 1 3 5 6 (view_of db9 6) db9_ok session_9 ltac:(eval_eq))
    as (n & db' & Hrun & _ & Hv & _).
  exists n, db'. split; [exact Hrun|exact Hv].
Defined.

Lemma session_reuse_lost_witness :
  ∃ n1 db1 used db2 n3 db3,
    on_heap (anonymous_commit (AnonymousNode (StateNode 5) 6)) db9 = (Ok n1, db1) ∧
    on_heap (put_object (state_of n1) contracts (str "k") (str "lost")) db1 = (Ok used, db2) ∧
    on_heap (anonymous_commit n1) db2 = (Ok n3, db3) ∧ view (db_heap db3) 5 = Some (view_of db9 6).
Proof.
  destruct (session_reuse_lost db9 1 3 5 6 (view_of db9 6) contracts (str "k") (str "lost") db9_ok
    session_9 ltac:(eval_eq)) as (_ & n1 & e1 & used & e2 & n3 & e3 & H1 & H2 & _ & H4 & H5).
  exists n1, e1, used, e2, n3, e3. split; [exact H1|]. split; [exact H2|]. split; [exact H4|exact H5].
Defined.
