(* ===== verification/MergeIterator.v ===== *)
(** The merge iterator: [src/src/koinos/state_db/merge_iterator.cpp].

    It walks over the objects a reader sees through a stack of deltas: one
    backend iterator per delta, in a multi-index container ordered by key, by
    reverse key and by revision.  The container is the list of its elements
    by revision, the lowest first; its other indices are that list sorted.
    [operator[]] of [_delta_deque] is never out of range while every
    iterator belongs to a delta of the deque. *)

From S2P Require Import Prelude Keys MapBackend StateDelta.

Module MergeIterator.
Import StateDelta.

#[local] Abbreviation M := (prog heap exn).

Record iterator_wrapper := mk_iterator_wrapper {
  itr : MapBackend.iterator;
  revision_ : Z;
  backend_ : backend_type
}.

Record merge_iterator := mk_merge_iterator {
  _itr_revision_index : list iterator_wrapper;
  _delta_deque : list loc
}.

(** [operator==] of [backends::iterator]. *)
Definition iterator_eqb (x y : MapBackend.iterator) : bool :=
  match x, y with
  | Some k, Some k' => bool_decide (k = k')
  | None, None => true
  | _, _ => false
  end.

Definition valid (w : iterator_wrapper) : bool := negb (iterator_eqb (itr w) MapBackend.end_).

(** [iterator_compare_less] and [iterator_compare_greater]. *)
Definition compare_less (lhs rhs : iterator_wrapper) : bool :=
  match itr lhs, itr rhs with
  | None, None => revision_ rhs <? revision_ lhs
  | None, Some _ => false
  | Some _, None => true
  | Some k, Some k' => bytes_ltb k k'
  end.

Definition compare_greater (lhs rhs : iterator_wrapper) : bool :=
  match itr lhs, itr rhs with
  | None, None => revision_ rhs <? revision_ lhs
  | None, Some _ => false
  | Some _, None => true
  | Some k, Some k' => bytes_ltb k' k
  end.

(** The composite keys: ties go to the greater revision. *)
Definition composite (lt : iterator_wrapper → iterator_wrapper → bool) (x y : iterator_wrapper) : bool :=
  lt x y || (negb (lt y x) && (revision_ y <? revision_ x)).

(** An ordered index: its elements in the order of [lt]. *)
Fixpoint insert_by (lt : iterator_wrapper → iterator_wrapper → bool) (w : iterator_wrapper)
    (l : list iterator_wrapper) : list iterator_wrapper :=
  match l with
  | [] => [w]
  | x :: l => if lt x w then x :: insert_by lt w l else w :: x :: l
  end.

Definition index_by (lt : iterator_wrapper → iterator_wrapper → bool) (l : list iterator_wrapper)
  : list iterator_wrapper := foldr (insert_by lt) [] l.

Definition by_order_revision : list iterator_wrapper → list iterator_wrapper := index_by (composite compare_less).
Definition by_reverse_order_revision : list iterator_wrapper → list iterator_wrapper :=
  index_by (composite compare_greater).

(** [emplace]: refused when the revision is taken. *)
Fixpoint emplace (w : iterator_wrapper) (l : list iterator_wrapper) : list iterator_wrapper :=
  match l with
  | [] => [w]
  | x :: l =>
    if revision_ w <? revision_ x then w :: x :: l
    else if revision_ x <? revision_ w then x :: emplace w l
    else x :: l
  end.

(** [modify]: replace the element of that revision. *)
Definition modify_index (w : iterator_wrapper) (l : list iterator_wrapper) : list iterator_wrapper :=
  (λ x, if revision_ x =? revision_ w then w else x) <$> l.

Definition set_itr (i : MapBackend.iterator) (w : iterator_wrapper) : iterator_wrapper :=
  mk_iterator_wrapper i (revision_ w) (backend_ w).

Section Merge.
Context `{!Crypto}.

(** [itr.key()], [++itr] and [--itr], which throw at the ends. *)
Definition key_of (w : iterator_wrapper) : M bytes :=
  match itr w with Some k => mret k | None => raise iterator_exception end.

Definition advance (w : iterator_wrapper) : M iterator_wrapper :=
  match MapBackend.next (backend_ w) (itr w) with
  | Some i => mret (set_itr i w)
  | None => raise iterator_exception
  end.

Definition retreat (w : iterator_wrapper) : M iterator_wrapper :=
  match MapBackend.prev (backend_ w) (itr w) with
  | Some i => mret (set_itr i w)
  | None => raise iterator_exception
  end.

(** [is_dirty]: whether a delta above the iterator's modified its key. *)
Fixpoint dirty_loop (w : iterator_wrapper) (deltas : list loc) : M bool :=
  match deltas with
  | [] => raise null_dereference
  | d :: deltas =>
    r ← revision d;
    if revision_ w <? r then
      k ← key_of w;
      dirty ← is_modified d k;
      if (dirty : bool) then mret true else dirty_loop w deltas
    else mret false
  end.

Definition is_dirty (deque : list loc) (w : iterator_wrapper) : M bool := dirty_loop w (reverse deque).

(** Every iterator moves at most once per object of its backend. *)
Definition size_of (w : iterator_wrapper) : nat := base.size (MapBackend._map (backend_ w)).
Definition fuel_for (l : list iterator_wrapper) : nat := S (sum_list (size_of <$> l)).

(** [begin()] of the index by order; the index is never empty. *)
Definition first (l : list iterator_wrapper) : M iterator_wrapper :=
  match by_order_revision l with w :: _ => mret w | [] => raise null_dereference end.

Fixpoint resolve_loop (fuel : nat) (deque : list loc) (l : list iterator_wrapper)
  : M (list iterator_wrapper) :=
  match fuel with
  | O => λ h, (OutOfFuel, h)
  | S fuel =>
    w ← first l;
    if valid w then
      dirty ← is_dirty deque w;
      if (dirty : bool) then
        w ← advance w; resolve_loop fuel deque (modify_index w l)
      else mret l
    else mret l
  end.

Definition resolve_conflicts (it : merge_iterator) : M merge_iterator :=
  l ← resolve_loop (fuel_for (_itr_revision_index it)) (_delta_deque it) (_itr_revision_index it);
  mret (mk_merge_iterator l (_delta_deque it)).

(** The constructor's loop over the parents. *)
Fixpoint collect (fuel : nat) (init : backend_type → MapBackend.iterator) (current_delta : loc)
    (it : merge_iterator) : M merge_iterator :=
  match fuel with
  | O => λ h, (OutOfFuel, h)
  | S fuel =>
    b ← backend current_delta;
    r ← revision current_delta;
    let it := mk_merge_iterator (emplace (mk_iterator_wrapper (init b) r b) (_itr_revision_index it))
                (current_delta :: _delta_deque it) in
    p ← parent current_delta;
    match p with
    | Some p => collect fuel init p it
    | None => mret it
    end
  end.

Definition new (head : loc) (init : backend_type → MapBackend.iterator) : M merge_iterator :=
  it ← collect (fuel_of head) init head (mk_merge_iterator [] []);
  resolve_conflicts it.

Definition is_end (it : merge_iterator) : bool := forallb (λ w, negb (valid w)) (_itr_revision_index it).

Definition equal (x y : merge_iterator) : bool :=
  match by_order_revision (_itr_revision_index x), by_order_revision (_itr_revision_index y) with
  | [], [] => true
  | [], _ => is_end y
  | _, [] => is_end x
  | my_begin :: _, other_begin :: _ =>
    if negb (valid my_begin) && negb (valid other_begin) then true
    else if negb (valid my_begin) || negb (valid other_begin) then false
    else if negb (revision_ my_begin =? revision_ other_begin) then false
    else iterator_eqb (itr my_begin) (itr other_begin)
  end.

(** [operator++]. *)
Definition increment (it : merge_iterator) : M merge_iterator :=
  w ← first (_itr_revision_index it);
  assert_that (valid w) koinos_exception;;
  w ← advance w;
  resolve_conflicts (mk_merge_iterator (modify_index w (_itr_revision_index it)) (_delta_deque it)).

(** [while( rev_itr->itr.key() >= *head_key && rev_itr->itr != begin )]. *)
Fixpoint rewind_loop (fuel : nat) (head_key : bytes) (begin_ : MapBackend.iterator) (w : iterator_wrapper)
  : M iterator_wrapper :=
  match fuel with
  | O => λ h, (OutOfFuel, h)
  | S fuel =>
    k ← key_of w;
    if negb (bytes_ltb k head_key) && negb (iterator_eqb (itr w) begin_) then
      w ← retreat w; rewind_loop fuel head_key begin_ w
    else mret w
  end.

(** [while( dirty && rev_itr->valid() && rev_itr->itr != begin )]. *)
Fixpoint undirty_loop (fuel : nat) (deque : list loc) (begin_ : MapBackend.iterator) (w : iterator_wrapper)
  : M iterator_wrapper :=
  match fuel with
  | O => λ h, (OutOfFuel, h)
  | S fuel =>
    if valid w && negb (iterator_eqb (itr w) begin_) then
      dirty ← is_dirty deque w;
      if (dirty : bool) then w ← retreat w; undirty_loop fuel deque begin_ w
      else mret w
    else mret w
  end.

(** The body of the loop over the iterators by revision. *)
Definition rewind_one (deque : list loc) (head_key : option bytes) (w : iterator_wrapper)
  : M iterator_wrapper :=
  if MapBackend.size_ (backend_ w) =? 0 then mret w
  else
    let begin_ := MapBackend.begin_ (backend_ w) in
    w ← (match head_key with
         | None => retreat w
         | Some head_key =>
           w ← (if negb (valid w) then retreat w else mret w);
           rewind_loop (S (size_of w)) head_key begin_ w
         end);
    undirty_loop (S (size_of w)) deque begin_ w.

Fixpoint rewind_all (deque : list loc) (head_key : option bytes) (l : list iterator_wrapper)
  : M (list iterator_wrapper) :=
  match l with
  | [] => mret []
  | w :: l => w ← rewind_one deque head_key w; l ← rewind_all deque head_key l; mret (w :: l)
  end.

(** [++least_itr] past the iterators that are dirty or not below the head. *)
Fixpoint least_loop (deque : list loc) (head_key : option bytes) (l : list iterator_wrapper)
  : M (option iterator_wrapper) :=
  match l with
  | [] => mret None
  | w :: l =>
    if valid w then
      dirty ← is_dirty deque w;
      k ← key_of w;
      if dirty || (match head_key with Some head_key => negb (bytes_ltb k head_key) | None => false end)
      then least_loop deque head_key l
      else mret (Some w)
    else mret (Some w)
  end.

(** [while( forward_itr->itr.key() < least_key )]. *)
Fixpoint forward_loop (fuel : nat) (least_key : bytes) (l : list iterator_wrapper)
  : M (list iterator_wrapper) :=
  match fuel with
  | O => λ h, (OutOfFuel, h)
  | S fuel =>
    match by_order_revision l with
    | [] => mret l
    | w :: _ =>
      k ← key_of w;
      if bytes_ltb k least_key then
        w ← advance w; forward_loop fuel least_key (modify_index w l)
      else mret l
    end
  end.

(** [operator--]. *)
Definition decrement (it : merge_iterator) : M merge_iterator :=
  head_itr ← first (_itr_revision_index it);
  l ← rewind_all (_delta_deque it) (itr head_itr) (_itr_revision_index it);
  if (1 <? length (_delta_deque it))%nat then
    least_itr ← least_loop (_delta_deque it) (itr head_itr) (by_reverse_order_revision l);
    l ← (match least_itr with
         | Some least_itr => least_key ← key_of least_itr; forward_loop (fuel_for l) least_key l
         | None => mret l
         end);
    resolve_conflicts (mk_merge_iterator l (_delta_deque it))
  else mret (mk_merge_iterator l (_delta_deque it)).

(** [operator*] and [key]. *)
Definition value (it : merge_iterator) : M bytes :=
  w ← first (_itr_revision_index it);
  match itr w with
  | Some k => match MapBackend.get (backend_ w) k with Some v => mret v | None => raise null_dereference end
  | None => raise iterator_exception
  end.

Definition key (it : merge_iterator) : M bytes :=
  w ← first (_itr_revision_index it);
  assert_that (valid w) koinos_exception;;
  key_of w.

(** [merge_state]. *)
Definition begin_ (head : loc) : M merge_iterator := new head MapBackend.begin_.
Definition end_ (head : loc) : M merge_iterator := new head (λ _, MapBackend.end_).
Definition lower_bound (head : loc) (k : bytes) : M merge_iterator :=
  new head (λ b, MapBackend.lower_bound b k).

End Merge.
End MergeIterator.
