(* ===== verification/MergeFacts.v ===== *)
(** The containers of the merge iterator: what [begin()] and the order of an
    index give, and the keys an iterator moves to.

    The merge iterator over a stack of deltas: which keys are dirty, and that
    resolving conflicts leaves every iterator at the next key of the view. *)

From S2P Require Import Prelude Keys MapBackend StateDelta StateDeltaFacts MergeIterator.
Import StateDelta MergeIterator.

(** ** Keys of a map *)

Section FirstKey.
Context {V : Type}.
Implicit Types (m : gmap bytes V) (P : bytes → bool).

Lemma first_key_is P m k : is_Some (m !! k) → P k = true →
  (∀ k', is_Some (m !! k') → P k' = true → bytes_le k k') → first_key P m = Some k.
Proof.
  intros Hk HP Hle. destruct (first_key P m) as [k'|] eqn:Hf.
  - apply first_key_Some in Hf as (Hk' & HP' & Hle'). f_equal.
    apply (anti_symm bytes_le); [by apply Hle'|by apply Hle].
  - rewrite (first_key_None _ _ _ Hf Hk) in HP. done.
Qed.

Lemma first_key_none P m : (∀ k, is_Some (m !! k) → P k = false) → first_key P m = None.
Proof.
  intros HP. destruct (first_key P m) as [k|] eqn:Hf; [|done].
  apply first_key_Some in Hf as (Hk & HP' & _). rewrite HP in HP' by done. done.
Qed.

Lemma first_key_ext P Q m : (∀ k, is_Some (m !! k) → P k = Q k) → first_key P m = first_key Q m.
Proof.
  intros HPQ. destruct (first_key Q m) as [k|] eqn:Hf.
  - apply first_key_Some in Hf as (Hk & HQ & Hle). apply first_key_is; [done|by rewrite HPQ|].
    intros k' Hk' HP'. apply Hle; [done|by rewrite <- HPQ].
  - apply first_key_none. intros k Hk. rewrite HPQ by done. by eapply first_key_None.
Qed.

Lemma length_map_keys m : length (map_keys m) = base.size m.
Proof. unfold map_keys, sort_keys. by rewrite merge_sort_Permutation, length_fmap, length_map_to_list. Qed.

Lemma last_key_is P m k : is_Some (m !! k) → P k = true →
  (∀ k', is_Some (m !! k') → P k' = true → bytes_le k' k) → last_key P m = Some k.
Proof.
  intros Hk HP Hle. destruct (last_key P m) as [k'|] eqn:Hf.
  - apply last_key_Some in Hf as (Hk' & HP' & Hle'). f_equal.
    apply (anti_symm bytes_le); [by apply Hle|by apply Hle'].
  - rewrite (last_key_None _ _ _ Hf Hk) in HP. done.
Qed.

End FirstKey.

(** [k] comes before the position [i]. *)
Definition before (k : bytes) (i : MapBackend.iterator) : Prop :=
  match i with Some k' => bytes_lt k k' | None => True end.

Definition beforeb (i : MapBackend.iterator) (k : bytes) : bool :=
  match i with Some k' => bytes_ltb k k' | None => true end.

Lemma beforeb_before k i : beforeb i k = true ↔ before k i.
Proof. by destruct i. Qed.

Lemma prev_last_key (b : backend_type) i :
  MapBackend.prev b i = Some <$> last_key (beforeb i) (MapBackend._map b).
Proof.
  unfold MapBackend.prev, last_key. destruct i as [k|].
  - by destruct (last _).
  - rewrite filter_all by done. by destruct (last _).
Qed.

(** ** Ordered indices *)

Section Order.
Context (klt : bytes → bytes → Prop).
Context `{!Irreflexive klt} `{!Transitive klt}.
Context (klt_total : ∀ x y, klt x y ∨ x = y ∨ klt y x).

(** [x] is ordered before [y]. *)
Definition prec (x y : iterator_wrapper) : Prop :=
  match itr x, itr y with
  | Some k, Some k' => klt k k' ∨ k = k' ∧ revision_ y < revision_ x
  | Some _, None => True
  | None, Some _ => False
  | None, None => revision_ y < revision_ x
  end.

Context (lt : iterator_wrapper → iterator_wrapper → bool).
Context (lt_prec : ∀ x y, lt x y = true ↔ prec x y).

Definition no_later (x y : iterator_wrapper) : Prop := ¬ prec y x.

Lemma prec_total x y : no_later x y ∨ prec y x.
Proof. unfold no_later. destruct (lt y x) eqn:E; [right; by apply lt_prec|left]. rewrite <- lt_prec. congruence. Qed.

Lemma prec_asym x y : prec x y → no_later x y.
Proof.
  unfold no_later, prec. destruct (itr x) as [k|], (itr y) as [k'|]; try (tauto || lia).
  intros [H1|[-> H1]] [H2|[E H2]].
  - apply (irreflexivity klt k). by etrans.
  - subst. by apply (irreflexivity klt k).
  - by apply (irreflexivity klt k').
  - lia.
Qed.

Lemma no_later_trans x y z : no_later x y → no_later y z → no_later x z.
Proof.
  unfold no_later, prec. destruct (itr x) as [k|], (itr y) as [k'|], (itr z) as [k''|]; try (tauto || lia).
  intros H1 H2 [H3|[-> H3]].
  - destruct (klt_total k k') as [Hk|[->|Hk]]; [|by apply H2; left|by apply H1; left].
    apply H2. left. by etrans.
  - destruct (klt_total k k') as [Hk|[->|Hk]]; [by apply H2; left| |by apply H1; left].
    destruct (decide (revision_ x < revision_ y)); [by apply H1; right|apply H2; right; split; [done|lia]].
Qed.

Lemma insert_by_perm w l : insert_by lt w l ≡ₚ w :: l.
Proof.
  induction l as [|x l IH]; cbn; [done|]. destruct (lt x w); [|done]. rewrite IH. by constructor.
Qed.

Lemma index_by_perm l : index_by lt l ≡ₚ l.
Proof. induction l as [|w l IH]; cbn; [done|]. by rewrite insert_by_perm, IH. Qed.

Lemma insert_by_sorted w l : StronglySorted no_later l → StronglySorted no_later (insert_by lt w l).
Proof.
  induction 1 as [|x l Hs IH Hall]; cbn; [by repeat constructor|].
  destruct (lt x w) eqn:E.
  - constructor; [done|]. rewrite insert_by_perm. constructor; [|done]. by apply prec_asym, lt_prec.
  - assert (no_later w x) as Hw by (unfold no_later; rewrite <- lt_prec; congruence).
    constructor; [by constructor|]. constructor; [done|].
    eapply Forall_impl; [exact Hall|]. intros y Hy. by eapply no_later_trans.
Qed.

Lemma index_by_sorted l : StronglySorted no_later (index_by lt l).
Proof. induction l; cbn; [constructor|by apply insert_by_sorted]. Qed.

(** [begin()] of an index that is not empty. *)
Lemma index_begin l : l ≠ [] → ∃ w rest, index_by lt l = w :: rest ∧ w ∈ l ∧ ∀ x, x ∈ l → no_later w x.
Proof.
  intros Hl. pose proof (index_by_perm l) as Hp. pose proof (index_by_sorted l) as Hs.
  destruct (index_by lt l) as [|w rest]; [by apply Permutation_nil_l in Hp|].
  exists w, rest. apply StronglySorted_inv in Hs as [_ Hs]. split_and!; [done| |].
  - rewrite <- Hp. by left.
  - intros x. rewrite <- Hp. intros [->|Hx]%elem_of_cons; [|rewrite Forall_forall in Hs; by apply Hs].
    intros Hxx. by eapply prec_asym.
Qed.

End Order.

Lemma composite_less_prec x y : composite compare_less x y = true ↔ prec bytes_lt x y.
Proof.
  unfold composite, compare_less, prec. rewrite orb_true_iff, andb_true_iff, negb_true_iff, Z.ltb_lt.
  destruct (itr x) as [k|], (itr y) as [k'|]; rewrite ?Z.ltb_lt, ?Z.ltb_ge.
  - fold (bytes_lt k k') (bytes_le k k'). rewrite bytes_le_lt. naive_solver.
  - naive_solver.
  - naive_solver.
  - lia.
Qed.

Lemma composite_greater_prec x y : composite compare_greater x y = true ↔ prec (flip bytes_lt) x y.
Proof.
  unfold composite, compare_greater, prec. rewrite orb_true_iff, andb_true_iff, negb_true_iff, Z.ltb_lt.
  destruct (itr x) as [k|], (itr y) as [k'|]; rewrite ?Z.ltb_lt, ?Z.ltb_ge; unfold flip.
  - fold (bytes_lt k' k) (bytes_le k' k). rewrite bytes_le_lt. naive_solver.
  - naive_solver.
  - naive_solver.
  - lia.
Qed.

#[global] Instance flip_lt_irrefl : Irreflexive (flip bytes_lt).
Proof. intros x. apply bytes_lt_irrefl. Qed.
#[global] Instance flip_lt_trans : Transitive (flip bytes_lt).
Proof. intros x y z Hxy Hyz. unfold flip in *. by etrans. Qed.
Lemma flip_lt_total x y : flip bytes_lt x y ∨ x = y ∨ flip bytes_lt y x.
Proof. unfold flip. destruct (bytes_lt_trichotomy x y) as [?|[?|?]]; auto. Qed.

(** [begin()] by order: nothing has a smaller key, and of equal keys it has
    the greatest revision. *)
Lemma first_spec l h : l ≠ [] → ∃ w, first l h = (Ok w, h) ∧ w ∈ l ∧ ∀ x, x ∈ l → no_later bytes_lt w x.
Proof.
  intros Hl. destruct (index_begin bytes_lt bytes_lt_trichotomy _ composite_less_prec l Hl) as (w & rest & Hi & Hw).
  exists w. split; [|done]. unfold first, by_order_revision. by rewrite Hi.
Qed.

(** ** Counting *)

Lemma length_filter_le {A} (P Q : A → bool) l :
  (∀ x, x ∈ l → P x = true → Q x = true) → (length (filter P l) ≤ length (filter Q l))%nat.
Proof.
  induction l as [|x l IH]; intros Himp; [done|].
  specialize (IH (λ y Hy, Himp y (list_elem_of_further _ _ _ Hy))). rewrite !filter_cons.
  specialize (Himp x ltac:(by left)). repeat case_decide; cbn; try lia. rewrite !Is_true_true in *. naive_solver.
Qed.

Lemma length_filter_lt {A} (P Q : A → bool) l x :
  (∀ x, x ∈ l → P x = true → Q x = true) → x ∈ l → P x = false → Q x = true →
  (length (filter P l) < length (filter Q l))%nat.
Proof.
  induction l as [|y l IH]; intros Himp Hx HP HQ; [by apply elem_of_nil in Hx|].
  assert (∀ z, z ∈ l → P z = true → Q z = true) as Himp' by (intros z Hz; apply Himp; by right).
  rewrite !filter_cons. apply elem_of_cons in Hx as [<-|Hx].
  - rewrite decide_False, decide_True by (rewrite ?HP, ?HQ; cbn; tauto). cbn. pose proof (length_filter_le P Q l Himp'). lia.
  - specialize (IH Himp' Hx HP HQ). specialize (Himp y ltac:(by left)).
    repeat case_decide; cbn; try lia. rewrite !Is_true_true in *. naive_solver.
Qed.

Lemma sum_list_le {A} (f g : A → nat) l :
  (∀ y, y ∈ l → (f y ≤ g y)%nat) → (sum_list (f <$> l) ≤ sum_list (g <$> l))%nat.
Proof.
  induction l as [|y l IH]; intros Hle; [done|]. cbn. pose proof (Hle y ltac:(by left)).
  specialize (IH (λ z Hz, Hle z (list_elem_of_further _ _ _ Hz))). unfold fmap in *. lia.
Qed.

Lemma sum_list_lt {A} (f g : A → nat) l x :
  (∀ y, y ∈ l → (f y ≤ g y)%nat) → x ∈ l → (f x < g x)%nat → (sum_list (f <$> l) < sum_list (g <$> l))%nat.
Proof.
  intros Hle Hx Hlt. induction l as [|y l IH]; [by apply elem_of_nil in Hx|]. cbn.
  pose proof (sum_list_le f g l (λ z Hz, Hle z (list_elem_of_further _ _ _ Hz))).
  pose proof (Hle y ltac:(by left)). apply elem_of_cons in Hx as [<-|Hx].
  - unfold fmap in *. lia.
  - specialize (IH (λ z Hz, Hle z (list_elem_of_further _ _ _ Hz)) Hx). unfold fmap in *. lia.
Qed.

(** ** Stacks *)

Record layer := mk_layer { layer_loc : loc; layer_delta : state_delta; layer_backend : backend_type }.

Definition rev_of (x : layer) : Z := _revision (layer_delta x).
Definition objects (x : layer) : gmap bytes bytes := MapBackend._map (layer_backend x).
Definition removed (x : layer) : gset bytes := _removed_objects (layer_delta x).
Definition modified (x : layer) (k : bytes) : bool :=
  bool_decide (is_Some (objects x !! k)) || bool_decide (k ∈ removed x).

Section Stack.
Context `{Hcrypto : !Crypto}.
Implicit Types (h : heap) (s : list layer) (x y : layer) (k : bytes).

(** A delta and its ancestors, the root last. *)
Inductive stack h : loc → list layer → Prop :=
| stack_root l d b : deltas h !! l = Some d → _backend d = Some b → _parent d = None →
    stack h l [mk_layer l d b]
| stack_child l d b p s : deltas h !! l = Some d → _backend d = Some b → _parent d = Some p →
    stack h p s → stack h l (mk_layer l d b :: s).

Fixpoint stack_view s : gmap bytes bytes :=
  match s with
  | [] => ∅
  | x :: s => overlay (objects x) (removed x) (stack_view s)
  end.

Definition descending s : Prop := StronglySorted (λ x y, rev_of y < rev_of x) s.

Lemma overlay_empty_r o r : overlay o r ∅ = o.
Proof.
  apply map_eq. intros k. rewrite overlay_lookup, lookup_empty. destruct (o !! k); [done|]. by case_bool_decide.
Qed.

Lemma view_stack h l m : heap_ok h → view h l = Some m → ∃ s, stack h l s ∧ stack_view s = m.
Proof.
  intros Hok. revert m. induction l as [l IH] using loc_ind. intros m Hv.
  destruct (view_inv _ _ _ Hok Hv) as (d & b & Hd & Hb & Hm).
  destruct (_parent d) as [p|] eqn:Hp.
  - destruct Hm as (m' & Hv' & ->). destruct (heap_parent _ Hok _ _ _ Hd Hp) as [Hlt _].
    destruct (IH p Hlt m' Hv') as (s & Hs & <-). exists (mk_layer l d b :: s).
    split; [by econstructor|done].
  - exists [mk_layer l d b]. split; [by constructor|]. cbn. by rewrite overlay_empty_r.
Qed.

Lemma stack_layer h l s x : stack h l s → x ∈ s →
  deltas h !! layer_loc x = Some (layer_delta x) ∧ _backend (layer_delta x) = Some (layer_backend x).
Proof.
  induction 1 as [| ??????? ? ? IH]; intros Hx.
  - by apply list_elem_of_singleton in Hx as ->.
  - apply elem_of_cons in Hx as [->|Hx]; [done|by apply IH].
Qed.

(** ** Dirty keys *)

(** A layer above revision [r] modified [k]. *)
Definition dirty s (r : Z) k : bool := existsb (λ x, (r <? rev_of x) && modified x k) s.
Arguments dirty : simpl never.

Lemma dirty_true s r k : dirty s r k = true ↔ ∃ x, x ∈ s ∧ r < rev_of x ∧ modified x k = true.
Proof.
  unfold dirty. rewrite existsb_exists. split; intros (x & Hx & Hd); exists x;
    rewrite andb_true_iff, Z.ltb_lt, <- list_elem_of_In in *; tauto.
Qed.

Lemma dirty_false s r k : dirty s r k = false ↔ ∀ x, x ∈ s → r < rev_of x → modified x k = false.
Proof.
  rewrite <- not_true_iff_false, dirty_true. split.
  - intros Hn x Hx Hr. apply not_true_is_false. intros Hm. apply Hn. by exists x.
  - intros Hf (x & Hx & Hr & Hm). rewrite Hf in Hm by done. done.
Qed.

Lemma view_clean s k v : descending s → stack_view s !! k = Some v →
  ∃ x, x ∈ s ∧ objects x !! k = Some v ∧ dirty s (rev_of x) k = false.
Proof.
  induction 1 as [|x s Hs IH Hall]; cbn; [by rewrite lookup_empty|]. rewrite overlay_lookup.
  rewrite Forall_forall in Hall. destruct (objects x !! k) as [v'|] eqn:Ho.
  - intros [= ->]. exists x. split_and!; [by left|done|]. apply dirty_false.
    intros y [->|Hy]%elem_of_cons Hr; [lia|]. specialize (Hall y Hy). lia.
  - case_bool_decide as Hr; [done|]. intros (y & Hy & Hv & Hd)%IH. exists y. split_and!; [by right|done|].
    apply dirty_false. intros z [->|Hz]%elem_of_cons Hlt; [|by eapply dirty_false].
    unfold modified. by rewrite !bool_decide_eq_false_2 by (rewrite ?Ho; by intros [? ?] || done).
Qed.

Lemma clean_view s x k v : descending s → x ∈ s → objects x !! k = Some v →
  dirty s (rev_of x) k = false → stack_view s !! k = Some v.
Proof.
  induction 1 as [|y s Hs IH Hall]; intros Hx Ho Hd; [by apply elem_of_nil in Hx|]. cbn. rewrite overlay_lookup.
  apply elem_of_cons in Hx as [->|Hx]; [by rewrite Ho|].
  rewrite Forall_forall in Hall. pose proof (Hall x Hx) as Hlt.
  rewrite dirty_false in Hd. pose proof (Hd y ltac:(by left) Hlt) as Hm.
  apply orb_false_iff in Hm as [Hm1%bool_decide_eq_false Hm2%bool_decide_eq_false].
  destruct (objects y !! k); [exfalso; eauto|]. rewrite bool_decide_eq_false_2 by done.
  apply IH; [done..|]. apply dirty_false. intros z Hz. apply Hd. by right.
Qed.

Lemma descending_inj s x y : descending s → x ∈ s → y ∈ s → rev_of x = rev_of y → x = y.
Proof.
  induction 1 as [|z s Hs IH Hall]; intros Hx Hy Heq; [by apply elem_of_nil in Hx|].
  rewrite Forall_forall in Hall.
  apply elem_of_cons in Hx as [->|Hx]; apply elem_of_cons in Hy as [->|Hy]; [done| | |by apply IH].
  - specialize (Hall y Hy). lia.
  - specialize (Hall x Hx). lia.
Qed.

(** Two clean layers of a key are one. *)
Lemma clean_unique s x y k : descending s → x ∈ s → y ∈ s → is_Some (objects x !! k) → is_Some (objects y !! k) →
  dirty s (rev_of x) k = false → dirty s (rev_of y) k = false → x = y.
Proof.
  intros Hs Hx Hy Hox Hoy Hdx Hdy. apply (descending_inj s); [done..|].
  rewrite dirty_false in Hdx, Hdy. unfold modified in *.
  destruct (Z.lt_trichotomy (rev_of x) (rev_of y)) as [Hlt|[?|Hlt]]; [|done|].
  - specialize (Hdx y Hy Hlt). rewrite bool_decide_eq_true_2 in Hdx by done. done.
  - specialize (Hdy x Hx Hlt). rewrite bool_decide_eq_true_2 in Hdy by done. done.
Qed.

Lemma run_is_modified h x k : deltas h !! layer_loc x = Some (layer_delta x) →
  _backend (layer_delta x) = Some (layer_backend x) →
  is_modified (layer_loc x) k h = (Ok (modified x k), h).
Proof.
  intros Hd Hb. unfold is_modified. rewrite run_bind, (run_backend _ _ _ _ Hd Hb). unfold modified.
  unfold MapBackend.get. fold (objects x). destruct (objects x !! k); [done|].
  by rewrite (run_is_removed _ _ _ _ Hd).
Qed.

Lemma dirty_loop_spec h s w k : descending s →
  (∀ x, x ∈ s → deltas h !! layer_loc x = Some (layer_delta x) ∧ _backend (layer_delta x) = Some (layer_backend x)) →
  (∃ x, x ∈ s ∧ rev_of x = revision_ w) → itr w = Some k →
  dirty_loop w (layer_loc <$> s) h = (Ok (dirty s (revision_ w) k), h).
Proof.
  intros Hs Hl Hw Hk. induction Hs as [|x s Hs IH Hall]; [destruct Hw as (x & Hx & _); by apply elem_of_nil in Hx|].
  cbn [fmap list_fmap dirty_loop]. destruct (Hl x ltac:(by left)) as [Hd Hb].
  unfold revision. rewrite !run_bind, (run_deref _ _ _ Hd). cbn [mret prog_ret]. fold (rev_of x).
  unfold dirty. cbn [existsb]. rewrite Forall_forall in Hall.
  destruct (Z.ltb_spec (revision_ w) (rev_of x)) as [Hlt|Hge]; cbn [andb orb].
  - unfold key_of. rewrite Hk, run_bind. cbn [mret prog_ret]. rewrite run_bind, (run_is_modified _ _ _ Hd Hb).
    destruct (modified x k); [done|]. apply IH; [intros; apply Hl; by right|].
    destruct Hw as (y & [->|Hy]%elem_of_cons & Hr); [lia|by exists y].
  - assert (existsb (λ x0, (revision_ w <? rev_of x0) && modified x0 k) s = false) as ->; [|done].
    apply not_true_is_false. rewrite existsb_exists. intros (y & Hy%list_elem_of_In & [Hlt%Z.ltb_lt _]%andb_true_iff).
    specialize (Hall y Hy). lia.
Qed.

End Stack.
