(* ===== verification/MergeBack.v ===== *)
(** Resolving conflicts: from any position the merge iterator's operations
    leave behind, [resolve_conflicts] puts every iterator at the lower bound
    of the next key of the view.

    The operations of the merge iterator at a key of the view: construction,
    comparison, [++] and [--].

    Stepping the merge iterator back: [operator--] leaves it at the greatest
    key of the view before the one it was at. *)

From S2P Require Import Prelude Keys MapBackend StateDelta StateDeltaFacts MergeIterator MergeFacts.
Import StateDelta MergeIterator.

Section Resolve.
Context `{Hcrypto : !Crypto}.
Context (h : heap) (s : list layer).
Hypothesis Hdesc : descending s.
Hypothesis Hlayers : ∀ x, x ∈ s →
  deltas h !! layer_loc x = Some (layer_delta x) ∧ _backend (layer_delta x) = Some (layer_backend x).
Hypothesis Hne : s ≠ [].
Implicit Types (x y : layer) (k : bytes).

(** Where the iterator of each layer stands. *)
Abbreviation position := (layer → MapBackend.iterator).
Implicit Types f g : position.

Definition wr f x : iterator_wrapper := mk_iterator_wrapper (f x) (rev_of x) (layer_backend x).
Definition at_ f : list iterator_wrapper := reverse (wr f <$> s).
Definition deque : list loc := reverse (layer_loc <$> s).
Definition upd f x (i : MapBackend.iterator) : position := λ y, if rev_of y =? rev_of x then i else f y.

(** The position of key [c]: every iterator at its lower bound. *)
Definition lower (c : option bytes) : position := λ x,
  match c with Some k => MapBackend.lower_bound (layer_backend x) k | None => None end.

Lemma at_elem f w : w ∈ at_ f ↔ ∃ x, x ∈ s ∧ w = wr f x.
Proof. clear Hdesc Hlayers Hne. unfold at_. rewrite elem_of_reverse, list_elem_of_fmap. naive_solver. Qed.

Lemma at_ne f : at_ f ≠ [].
Proof.
  clear Hdesc Hlayers. intros Hn%(f_equal length). unfold at_ in Hn. rewrite length_reverse, length_fmap in Hn.
  by destruct s.
Qed.

Lemma at_ext f g : (∀ x, x ∈ s → f x = g x) → at_ f = at_ g.
Proof.
  intros Hfg. unfold at_. f_equal. apply list_fmap_ext. intros i x Hx%list_elem_of_lookup_2.
  unfold wr. by rewrite Hfg.
Qed.

Lemma upd_same f x i : upd f x i x = i.
Proof. unfold upd. by rewrite Z.eqb_refl. Qed.

Lemma upd_other f x y i : x ∈ s → y ∈ s → y ≠ x → upd f x i y = f y.
Proof.
  intros Hx Hy Hyx. unfold upd. destruct (Z.eqb_spec (rev_of y) (rev_of x)); [|done].
  by destruct Hyx; apply (descending_inj s).
Qed.

Lemma layer_dec x y : x ∈ s → y ∈ s → y = x ∨ y ≠ x.
Proof.
  intros Hx Hy. destruct (decide (rev_of y = rev_of x)) as [Heq|Hne']; [left|right; congruence].
  by apply (descending_inj s).
Qed.

Lemma modify_at f x i : x ∈ s → modify_index (set_itr i (wr f x)) (at_ f) = at_ (upd f x i).
Proof.
  intros Hx. unfold modify_index, at_. rewrite fmap_reverse. f_equal. rewrite <- list_fmap_compose.
  apply list_fmap_ext. intros n y Hy%list_elem_of_lookup_2. cbn. unfold upd, wr.
  destruct (Z.eqb_spec (rev_of y) (rev_of x)) as [Heq|]; [|done].
  by apply (descending_inj s) in Heq as ->.
Qed.

Lemma is_dirty_at f x k : x ∈ s → f x = Some k →
  is_dirty deque (wr f x) h = (Ok (dirty s (rev_of x) k), h).
Proof.
  intros Hx Hk. unfold is_dirty, deque. rewrite reverse_involutive.
  by apply dirty_loop_spec; [| |exists x|].
Qed.

Definition next_of x k : MapBackend.iterator := first_key (λ k', bytes_ltb k k') (objects x).

Lemma advance_at f x k : f x = Some k → advance (wr f x) h = (Ok (set_itr (next_of x k) (wr f x)), h).
Proof. intros Hk. unfold advance. cbn. by rewrite Hk. Qed.

(** ** The invariant of the loop *)

Section Loop.
Context (Bd : bytes → bool) (e : option bytes).
Hypothesis Bd_up : ∀ k k', Bd k = true → bytes_le k k' → Bd k' = true.

(** Iterators stand at keys within the bound; what they passed within it is
    dirty or excluded, and nothing stands before it. *)
Record walking f : Prop := {
  walk_placed x k : x ∈ s → f x = Some k → is_Some (objects x !! k);
  walk_bound x k : x ∈ s → f x = Some k → Bd k = true;
  walk_passed x k : x ∈ s → is_Some (objects x !! k) → Bd k = true → before k (f x) →
    (dirty s (rev_of x) k = true ∨ e = Some k) ∧
    ∀ y k', y ∈ s → f y = Some k' → bytes_lt k k' ∨ k = k' ∧ rev_of y < rev_of x;
  walk_excluded_le x k c : x ∈ s → f x = Some k → e = Some c → bytes_le c k
}.

(** What stands at the excluded key is dirty. *)
Definition settled f : Prop := ∀ x k, x ∈ s → f x = Some k → e = Some k → dirty s (rev_of x) k = true.

(** The iterator of [x] is [begin()]. *)
Definition is_first f x : Prop := ∀ y, y ∈ s → no_later bytes_lt (wr f x) (wr f y).

Lemma is_first_le f x y k k' : is_first f x → y ∈ s → f x = Some k → f y = Some k' → bytes_le k k'.
Proof.
  intros Hf Hy Hk Hk'. specialize (Hf y Hy). unfold no_later, prec in Hf. cbn in Hf. rewrite Hk, Hk' in Hf.
  apply bytes_not_lt. tauto.
Qed.

Lemma is_first_order f x y k : is_first f x → y ∈ s → f x = Some k → f y = Some k → rev_of y ≤ rev_of x.
Proof.
  intros Hf Hy Hk Hk'. specialize (Hf y Hy). unfold no_later, prec in Hf. cbn in Hf. rewrite Hk, Hk' in Hf.
  destruct (Z.le_gt_cases (rev_of y) (rev_of x)); [done|]. exfalso. apply Hf. right. split; [done|lia].
Qed.

Lemma next_of_spec x k k' : next_of x k = Some k' → is_Some (objects x !! k') ∧ bytes_lt k k'.
Proof. intros (? & ? & _)%first_key_Some. done. Qed.

(** Nothing of [x] lies between [k] and the next key. *)
Lemma next_of_before x k k1 : is_Some (objects x !! k1) → before k1 (next_of x k) → bytes_le k1 k.
Proof.
  intros Hk1 Hb. apply bytes_not_lt. intros Hlt. destruct (next_of x k) as [k'|] eqn:Hn; cbn in Hb.
  - apply first_key_Some in Hn as (_ & _ & Hle). specialize (Hle k1 Hk1 Hlt).
    apply (bytes_lt_irrefl k1). by eapply bytes_lt_le_trans.
  - apply first_key_None with (k := k1) in Hn; [|done]. unfold bytes_lt in Hlt. congruence.
Qed.

(** Moving the first iterator on, when what it leaves may be passed. *)
Lemma walking_advance f x k : walking f → x ∈ s → is_first f x → f x = Some k →
  dirty s (rev_of x) k = true ∨ e = Some k → walking (upd f x (next_of x k)).
Proof.
  intros [W1 W2 W3 W5] Hx Hfirst Hk Hpass. pose proof (W2 _ _ Hx Hk) as HB.
  assert (∀ y k', y ∈ s → upd f x (next_of x k) y = Some k' →
    (y = x ∧ is_Some (objects x !! k') ∧ bytes_lt k k') ∨ (y ≠ x ∧ f y = Some k')) as Hupd.
  { intros y k' Hy Hyk. destruct (layer_dec x y Hx Hy) as [->|Hyx]; [|by rewrite upd_other in Hyk; auto].
    rewrite upd_same in Hyk. left. split; [done|]. by apply next_of_spec. }
  split.
  - intros y k' Hy [(-> & ? & _)|[_ ?]]%Hupd; [done|by eapply W1|done].
  - intros y k' Hy [(-> & _ & Hlt)|[_ ?]]%Hupd; [|by eapply W2|done].
    apply (Bd_up k); [done|]. apply bytes_le_lt. by right.
  - intros y k1 Hy Hk1 HB1 Hb.
    assert (∀ z k', z ∈ s → upd f x (next_of x k) z = Some k' →
      (∀ k'', f z = Some k'' → bytes_lt k1 k'' ∨ k1 = k'' ∧ rev_of z < rev_of y) →
      bytes_lt k1 k' ∨ k1 = k' ∧ rev_of z < rev_of y) as Hmono.
    { intros z k' Hz Hzk Hold. apply Hupd in Hzk as [(-> & _ & Hlt)|[_ Hzk]]; [|by apply Hold|done].
      left. destruct (Hold k Hk) as [?|[-> _]]; [by etrans|done]. }
    destruct (layer_dec x y Hx Hy) as [->|Hyx].
    + rewrite upd_same in Hb. apply next_of_before in Hb as [->|Hlt]%bytes_le_lt; [| |done].
      * split; [done|]. intros z k' Hz [(-> & _ & ?)|[Hzx Hzk]]%Hupd; [by left| |done].
        pose proof (is_first_le f x z k k' Hfirst Hz Hk Hzk) as [<-|?]%bytes_le_lt; [|by left].
        right. split; [done|]. pose proof (is_first_order f x z k Hfirst Hz Hk Hzk).
        destruct (decide (rev_of z = rev_of x)); [|lia]. by destruct Hzx; apply (descending_inj s).
      * destruct (W3 x k1 Hx Hk1 HB1) as [Hd Hord]; [by rewrite Hk|]. split; [done|].
        intros z k' Hz Hzk. apply Hmono; [done..|]. intros k''. by apply Hord.
    + rewrite upd_other in Hb by done. destruct (W3 y k1 Hy Hk1 HB1 Hb) as [Hd Hord]. split; [done|].
      intros z k' Hz Hzk. apply Hmono; [done..|]. intros k''. by apply Hord.
  - intros y k' c Hy [(-> & _ & Hlt)|[_ ?]]%Hupd Hc; [|by eapply W5|done].
    etrans; [by eapply (W5 x)|]. apply bytes_le_lt. by right.
Qed.

Lemma settled_advance f x k : walking f → x ∈ s → f x = Some k →
  (∀ y, y ∈ s → y ≠ x → f y = e → is_Some e → dirty s (rev_of y) (default [] e) = true) →
  settled (upd f x (next_of x k)).
Proof.
  intros [W1 W2 W3 W5] Hx Hk He y k' Hy Hyk Hek. destruct (layer_dec x y Hx Hy) as [->|Hyx].
  - rewrite upd_same in Hyk. apply next_of_spec in Hyk as [_ Hlt].
    pose proof (W5 x k k' Hx Hk Hek) as Hle. exfalso. apply (bytes_lt_irrefl k). by eapply bytes_lt_le_trans.
  - rewrite upd_other in Hyk by done. specialize (He y Hy Hyx). rewrite Hek in He. by apply He; eauto.
Qed.

(** ** Where the loop ends *)

(** The next key of the view within the bound. *)
Definition next_key : option bytes :=
  first_key (λ k, Bd k && negb (bool_decide (e = Some k))) (stack_view s).

Lemma next_key_cond k : Bd k && negb (bool_decide (e = Some k)) = true ↔ Bd k = true ∧ e ≠ Some k.
Proof. by rewrite andb_true_iff, negb_true_iff, bool_decide_eq_false. Qed.

(** Clean keys are not passed. *)
Lemma clean_not_passed f y k : walking f → y ∈ s → is_Some (objects y !! k) → Bd k = true → e ≠ Some k →
  dirty s (rev_of y) k = false → ∃ k', f y = Some k' ∧ bytes_le k' k.
Proof.
  intros Hw Hy Hk HB He Hd. destruct (f y) as [k'|] eqn:Hfy.
  - exists k'. split; [done|]. apply bytes_not_lt. intros Hlt.
    destruct (walk_passed f Hw y k Hy Hk HB) as [[?|?] _]; [by rewrite Hfy|congruence|done].
  - destruct (walk_passed f Hw y k Hy Hk HB) as [[?|?] _]; [by rewrite Hfy|congruence|done].
Qed.

Lemma resolved_end f x : walking f → x ∈ s → is_first f x → f x = None → at_ f = at_ (lower next_key).
Proof.
  intros Hw Hx Hfirst Hx0.
  assert (∀ y, y ∈ s → f y = None) as Hall.
  { intros y Hy. destruct (f y) as [k|] eqn:Hk; [|done]. exfalso. apply (Hfirst y Hy).
    unfold prec. cbn. by rewrite Hk, Hx0. }
  assert (next_key = None) as ->; [|by apply at_ext].
  apply first_key_none. intros k [v Hv]. apply not_true_is_false. rewrite next_key_cond. intros [HB He].
  destruct (view_clean _ _ _ Hdesc Hv) as (y & Hy & Ho & Hd).
  destruct (clean_not_passed f y k Hw Hy) as (k' & Hk' & _); [by eauto|done..|].
  rewrite Hall in Hk' by done. done.
Qed.

Lemma resolved_clean f x k : walking f → settled f → x ∈ s → is_first f x → f x = Some k →
  dirty s (rev_of x) k = false → next_key = Some k ∧ at_ f = at_ (lower next_key).
Proof.
  intros Hw Hset Hx Hfirst Hk Hclean.
  destruct (walk_placed f Hw x k Hx Hk) as [v Hv]. pose proof (walk_bound f Hw x k Hx Hk) as HB.
  assert (next_key = Some k) as Hnext.
  { apply first_key_is.
    - exists v. by eapply clean_view.
    - apply next_key_cond. split; [done|]. intros He. rewrite (Hset x k) in Hclean; done.
    - intros k' [v' Hv'] [HB' He']%next_key_cond. destruct (view_clean _ _ _ Hdesc Hv') as (y & Hy & Ho & Hd).
      destruct (clean_not_passed f y k' Hw Hy) as (k'' & Hk'' & Hle); [by eauto|done..|].
      etrans; [by eapply is_first_le|done]. }
  split; [done|]. rewrite Hnext. apply at_ext. intros y Hy. cbn. unfold MapBackend.lower_bound. fold (objects y).
  assert (∀ k1, is_Some (objects y !! k1) → bytes_le k k1 → ¬ before k1 (f y)) as Hnone.
  { intros k1 Hk1 Hle Hb.
    destruct (walk_passed f Hw y k1 Hy Hk1 (Bd_up k k1 HB Hle) Hb) as [_ Hord].
    destruct (Hord x k Hx Hk) as [Hlt|[-> Hr]].
    - apply (bytes_lt_irrefl k). by eapply bytes_le_lt_trans.
    - rewrite dirty_false in Hclean. specialize (Hclean y Hy Hr). unfold modified in Hclean.
      rewrite bool_decide_eq_true_2 in Hclean by done. done. }
  symmetry. destruct (f y) as [k'|] eqn:Hy'.
  - apply first_key_is; [by eapply walk_placed| |].
    + apply negb_true_iff. change (bytes_le k k'). by eapply is_first_le.
    + intros k1 Hk1 Hle%negb_true_iff. apply bytes_not_lt. by apply Hnone.
  - apply first_key_none. intros k1 Hk1. apply negb_false_iff, not_false_iff_true. intros Hle.
    by apply (Hnone k1).
Qed.

(** ** The loop *)

(** The keys from the position on. *)
Definition ahead f x : nat := length (filter (λ k, negb (beforeb (f x) k)) (map_keys (objects x))).

Lemma ahead_next f x k : f x = Some k → is_Some (objects x !! k) →
  (ahead (upd f x (next_of x k)) x < ahead f x)%nat.
Proof.
  intros Hk Hin. unfold ahead. rewrite upd_same, Hk. cbn. apply (length_filter_lt _ _ _ k).
  - intros k1 Hk1%map_keys_elem Hb%negb_true_iff. apply negb_true_iff. change (bytes_le k k1).
    apply bytes_not_lt. intros Hlt. apply not_true_iff_false in Hb. apply Hb, beforeb_before.
    destruct (next_of x k) as [k'|] eqn:Hn; [|done]. cbn. apply next_of_spec in Hn as [_ ?]. by etrans.
  - by apply map_keys_elem.
  - apply negb_false_iff, beforeb_before. destruct (next_of x k) as [k'|] eqn:Hn; [|done].
    by apply next_of_spec in Hn as [_ ?].
  - apply negb_true_iff, not_true_iff_false. apply bytes_lt_irrefl.
Qed.

Lemma resolve_loop_spec n f : walking f → settled f → (sum_list (ahead f <$> s) < n)%nat →
  resolve_loop n deque (at_ f) h = (Ok (at_ (lower next_key)), h).
Proof.
  revert f. induction n as [|n IH]; intros f Hw Hset Hn; [lia|]. cbn [resolve_loop].
  destruct (first_spec (at_ f) h (at_ne f)) as (w & Hrun & (x & Hx & ->)%at_elem & Hmin).
  rewrite run_bind, Hrun.
  assert (is_first f x) as Hfirst by (intros y Hy; apply Hmin, at_elem; by exists y).
  unfold valid. cbn [itr wr]. destruct (f x) as [k|] eqn:Hk; cbn.
  - rewrite run_bind, (is_dirty_at f x k Hx Hk). destruct (dirty s (rev_of x) k) eqn:Hd.
    + rewrite run_bind, (advance_at f x k Hk), modify_at by done. apply IH.
      * apply walking_advance; auto.
      * apply settled_advance; [done..|]. intros y Hy _ Hye [c Hc]. rewrite Hc in *. by apply Hset.
      * assert (sum_list (ahead (upd f x (next_of x k)) <$> s) < sum_list (ahead f <$> s))%nat; [|lia].
        apply (sum_list_lt _ _ _ x); [|done|apply ahead_next; [done|by eapply walk_placed]].
        intros y Hy. destruct (layer_dec x y Hx Hy) as [->|Hyx].
        { apply Nat.lt_le_incl, ahead_next; [done|by eapply walk_placed]. }
        unfold ahead. by rewrite upd_other.
    + destruct (resolved_clean f x k) as [_ <-]; done.
  - by rewrite (resolved_end f x).
Qed.

Lemma fuel_enough f : (sum_list (ahead f <$> s) < fuel_for (at_ f))%nat.
Proof.
  unfold fuel_for, at_. rewrite fmap_reverse, sum_list_with_reverse, <- list_fmap_compose.
  apply Nat.lt_succ_r, sum_list_le. intros x _. cbn. unfold size_of, ahead. cbn. fold (objects x).
  rewrite <- length_map_keys. apply length_filter.
Qed.

Lemma resolve_spec f : walking f → settled f →
  resolve_conflicts (mk_merge_iterator (at_ f) deque) h = (Ok (mk_merge_iterator (at_ (lower next_key)) deque), h).
Proof.
  intros Hw Hset. unfold resolve_conflicts. cbn [_itr_revision_index _delta_deque].
  by rewrite run_bind, (resolve_loop_spec _ f Hw Hset (fuel_enough f)).
Qed.

End Loop.
End Resolve.

Section Build.
Context `{Hcrypto : !Crypto}.
Context (h : heap) (Hok : heap_ok h).

Lemma emplace_front w l : (∀ x, x ∈ l → revision_ w < revision_ x) → emplace w l = w :: l.
Proof.
  intros Hl. destruct l as [|x l]; [done|]. cbn. specialize (Hl x ltac:(by left)).
  by destruct (Z.ltb_spec (revision_ w) (revision_ x)); [|lia].
Qed.

(** The constructor's loop: one iterator per delta, the root first. *)
Lemma collect_spec init l s2 : stack h l s2 → ∀ s1 n, descending (s1 ++ s2) → (fuel_of l ≤ n)%nat →
  let wrap x := mk_iterator_wrapper (init (layer_backend x)) (rev_of x) (layer_backend x) in
  collect n init l (mk_merge_iterator (reverse (wrap <$> s1)) (reverse (layer_loc <$> s1))) h
  = (Ok (mk_merge_iterator (reverse (wrap <$> (s1 ++ s2))) (reverse (layer_loc <$> (s1 ++ s2)))), h).
Proof.
  intros Hs s1 n Hd Hn wrap. revert s1 n Hd Hn.
  assert (∀ s1 s2 x, descending (s1 ++ x :: s2) →
    emplace (wrap x) (reverse (wrap <$> s1)) = reverse (wrap <$> (s1 ++ [x]))) as Hemp.
  { intros s1 s2' x Hd. rewrite emplace_front.
    - by rewrite fmap_app, reverse_app.
    - intros w. rewrite elem_of_reverse, list_elem_of_fmap. intros (y & -> & Hy).
      apply (StronglySorted_app_1_elem_of _ s1 (x :: s2') y x Hd Hy). by left. }
  induction Hs as [l d b Hdl Hb Hp|l d b p s Hdl Hb Hp Hs IH]; intros s1 [|n] Hd Hn;
    try (exfalso; unfold fuel_of in Hn; lia);
    cbn [collect]; rewrite run_bind, (run_backend _ _ _ _ Hdl Hb), run_bind; unfold revision at 1;
    rewrite run_bind, (run_deref _ _ _ Hdl); cbn [mret prog_ret]; rewrite run_bind, (run_parent _ _ _ Hdl), Hp;
    cbn [_itr_revision_index _delta_deque];
    change (mk_iterator_wrapper (init b) (_revision d) b) with (wrap (mk_layer l d b));
    rewrite (Hemp s1 _ (mk_layer l d b) Hd);
    assert (l :: reverse (layer_loc <$> s1) = reverse (layer_loc <$> (s1 ++ [mk_layer l d b]))) as ->
      by (by rewrite fmap_app, reverse_app).
  - done.
  - destruct (heap_parent _ Hok _ _ _ Hdl Hp) as [Hlt%fuel_lt _].
    rewrite IH; [by rewrite <- app_assoc|by rewrite <- app_assoc|lia].
Qed.

End Build.

Section Operations.
Context `{Hcrypto : !Crypto}.
Context (h : heap) (l : loc) (s : list layer).
Hypothesis Hok : heap_ok h.
Hypothesis Hstack : stack h l s.
Hypothesis Hdesc : descending s.
Abbreviation m := (stack_view s).

Lemma stack_ne : s ≠ [].
Proof. clear Hdesc. by destruct Hstack. Qed.

Lemma stack_layers x : x ∈ s →
  deltas h !! layer_loc x = Some (layer_delta x) ∧ _backend (layer_delta x) = Some (layer_backend x).
Proof. by apply stack_layer with l. Qed.

(** The iterator at the key [c] of the view, or at the end. *)
Definition cursor (c : option bytes) : merge_iterator := mk_merge_iterator (at_ s (lower c)) (deque s).

Lemma new_spec (Bd : bytes → bool) init : (∀ k k', Bd k = true → bytes_le k k' → Bd k' = true) →
  (∀ b, init b = first_key Bd (MapBackend._map b)) →
  MergeIterator.new l init h = (Ok (cursor (first_key Bd m)), h).
Proof.
  intros Hup Hinit. unfold MergeIterator.new. rewrite run_bind.
  assert (collect (fuel_of l) init l (mk_merge_iterator [] []) h
    = (Ok (mk_merge_iterator (at_ s (λ x, init (layer_backend x))) (deque s)), h)) as ->
    by exact (collect_spec h Hok init l s Hstack [] (fuel_of l) Hdesc (le_n _)).
  rewrite (resolve_spec h s Hdesc stack_layers stack_ne Bd None Hup).
  - unfold cursor, next_key. do 5 f_equal. apply first_key_ext. intros k _. by rewrite andb_true_r.
  - split.
    + intros x k _ Hk. rewrite Hinit in Hk. by apply first_key_Some in Hk as (? & _).
    + intros x k _ Hk. rewrite Hinit in Hk. by apply first_key_Some in Hk as (_ & ? & _).
    + intros x k _ Hk HB Hb. exfalso. rewrite Hinit in Hb.
      destruct (first_key Bd _) as [k'|] eqn:Hf; cbn in Hb.
      * apply first_key_Some in Hf as (_ & _ & Hle). apply (bytes_lt_irrefl k).
        eapply bytes_lt_le_trans; [exact Hb|by apply Hle].
      * rewrite (first_key_None _ _ k Hf Hk) in HB. done.
    + done.
  - intros x k _ _ He. done.
Qed.

Lemma begin_spec : MergeIterator.begin_ l h = (Ok (cursor (first_key (λ _, true) m)), h).
Proof. by apply new_spec. Qed.

Lemma end_spec : MergeIterator.end_ l h = (Ok (cursor None), h).
Proof.
  unfold MergeIterator.end_. rewrite (new_spec (λ _, false)); [|done|].
  - by rewrite (first_key_none (λ _, false)).
  - intros b. by rewrite first_key_none.
Qed.

Definition from (k k' : bytes) : bool := negb (bytes_ltb k' k).

Lemma from_le k k' : from k k' = true ↔ bytes_le k k'.
Proof. apply negb_true_iff. Qed.

Lemma from_up k k1 k2 : from k k1 = true → bytes_le k1 k2 → from k k2 = true.
Proof. rewrite !from_le. intros ? ?. by etrans. Qed.

Lemma lower_bound_spec k : MergeIterator.lower_bound l k h = (Ok (cursor (first_key (from k) m)), h).
Proof.
  unfold MergeIterator.lower_bound. by rewrite (new_spec (from k) _ (from_up k)).
Qed.

(** ** The first iterator of a cursor *)

Lemma lower_from x c k : lower (Some c) x = Some k → is_Some (objects x !! k) ∧ bytes_le c k.
Proof.
  intros (? & Hle%negb_true_iff & _)%first_key_Some. done.
Qed.

Lemma lower_at x c : is_Some (objects x !! c) → lower (Some c) x = Some c.
Proof.
  intros Hc. apply first_key_is; [done| |].
  - apply negb_true_iff. change (bytes_le c c). done.
  - by intros k' _ ?%negb_true_iff.
Qed.

Lemma cursor_first k v : m !! k = Some v → ∃ x, x ∈ s ∧ objects x !! k = Some v ∧
  dirty s (rev_of x) k = false ∧ lower (Some k) x = Some k ∧ is_first s (lower (Some k)) x ∧
  first (at_ s (lower (Some k))) h = (Ok (wr (lower (Some k)) x), h).
Proof.
  intros Hv. destruct (view_clean _ _ _ Hdesc Hv) as (x & Hx & Ho & Hd).
  assert (lower (Some k) x = Some k) as Hxk by (apply lower_at; eauto).
  destruct (first_spec (at_ s (lower (Some k))) h (at_ne s stack_ne _)) as (w & Hrun & (y & Hy & ->)%at_elem & Hmin).
  assert (is_first s (lower (Some k)) y) as Hfirst by (intros z Hz; apply Hmin, at_elem; by exists z).
  assert (y = x) as ->; [|by exists x].
  destruct (lower (Some k) y) as [k'|] eqn:Hk'.
  - pose proof (is_first_le _ _ y x k' k Hfirst Hx Hk' Hxk) as Hle.
    destruct (lower_from _ _ _ Hk') as [Hin Hge]. assert (k' = k) as -> by (by apply (anti_symm bytes_le)).
    pose proof (is_first_order _ _ y x k Hfirst Hx Hk' Hxk) as Hrev.
    destruct (decide (rev_of y = rev_of x)); [by apply (descending_inj s)|].
    rewrite dirty_false in Hd. specialize (Hd y Hy ltac:(lia)). unfold modified in Hd.
    rewrite bool_decide_eq_true_2 in Hd by done. done.
  - exfalso. apply (Hfirst x Hx). unfold prec. cbn [itr wr]. by rewrite Hk', Hxk.
Qed.

Lemma end_first : ∃ w rest, by_order_revision (at_ s (lower None)) = w :: rest ∧ itr w = None.
Proof.
  destruct (index_begin bytes_lt bytes_lt_trichotomy _ composite_less_prec (at_ s (lower None)) (at_ne s stack_ne _))
    as (w & rest & Hi & (x & Hx & ->)%at_elem & _).
  by exists (wr (lower None) x), rest.
Qed.

Lemma first_begin ws w : first ws h = (Ok w, h) → ∃ rest, by_order_revision ws = w :: rest.
Proof. unfold first. destruct (by_order_revision ws) as [|w' rest]; [done|]. intros [= ->]. by exists rest. Qed.

Lemma iterator_eqb_true i j : iterator_eqb i j = true ↔ i = j.
Proof.
  destruct i, j; cbn; rewrite ?bool_decide_eq_true; split; try done.
  - by intros ->.
  - congruence.
Qed.

Lemma equal_spec c1 c2 : (∀ k, c1 = Some k → is_Some (m !! k)) → (∀ k, c2 = Some k → is_Some (m !! k)) →
  equal (cursor c1) (cursor c2) = bool_decide (c1 = c2).
Proof.
  intros H1 H2. unfold equal, cursor. cbn [_itr_revision_index].
  assert (∀ c, (∀ k, c = Some k → is_Some (m !! k)) → ∃ w rest,
    by_order_revision (at_ s (lower c)) = w :: rest ∧ itr w = c ∧
    ∀ k, c = Some k → ∃ x, x ∈ s ∧ revision_ w = rev_of x ∧ is_Some (objects x !! k) ∧ dirty s (rev_of x) k = false) as Hc.
  { intros [k|] Hk.
    - destruct (Hk k eq_refl) as [v Hv]. destruct (cursor_first k v Hv) as (x & Hx & Ho & Hd & Hl & _ & Hrun).
      apply first_begin in Hrun as [rest Hr]. exists (wr (lower (Some k)) x), rest. split_and!; [done|done|].
      intros ? [= <-]. exists x. by eauto.
    - destruct end_first as (w & rest & Hr & Hw). exists w, rest. split_and!; [done..|]. intros ? [=]. }
  destruct (Hc c1 H1) as (w1 & r1 & -> & E1 & F1). destruct (Hc c2 H2) as (w2 & r2 & -> & E2 & F2).
  unfold valid. rewrite E1, E2. destruct c1 as [k1|], c2 as [k2|]; cbn; try done.
  destruct (F1 k1 eq_refl) as (x1 & Hx1 & -> & Ho1 & Hd1). destruct (F2 k2 eq_refl) as (x2 & Hx2 & -> & Ho2 & Hd2).
  case_bool_decide as Hk.
  - subst k2. assert (x1 = x2) as -> by (by eapply clean_unique). rewrite Z.eqb_refl. cbn. by rewrite bool_decide_eq_true_2.
  - rewrite (bool_decide_eq_false_2 (Some k1 = Some k2)) by congruence. by destruct (_ =? _).
Qed.

Lemma key_spec k : is_Some (m !! k) → MergeIterator.key (cursor (Some k)) h = (Ok k, h).
Proof.
  intros [v Hv]. destruct (cursor_first k v Hv) as (x & _ & _ & _ & Hl & _ & Hrun).
  unfold MergeIterator.key, cursor. cbn [_itr_revision_index]. rewrite run_bind, Hrun.
  unfold valid, key_of. cbn [itr wr]. by rewrite Hl.
Qed.

Lemma value_spec k v : m !! k = Some v → value (cursor (Some k)) h = (Ok v, h).
Proof.
  intros Hv. destruct (cursor_first k v Hv) as (x & _ & Ho & _ & Hl & _ & Hrun).
  unfold value, cursor. cbn [_itr_revision_index]. rewrite run_bind, Hrun.
  cbn [itr wr]. rewrite Hl. change (MapBackend.get _ k) with (objects x !! k). by rewrite Ho.
Qed.

(** ** [++] *)

(** Lower bounds are a position the loop of [resolve_conflicts] may be in. *)
Lemma lower_walking k e : (∀ c, e = Some c → c = k) → walking s (from k) e (lower (Some k)).
Proof.
  intros He. split.
  - intros y k' _ Hk'. apply (lower_from y k k' Hk').
  - intros y k' _ Hk'. apply from_le. apply (lower_from y k k' Hk').
  - intros y k' _ Hk' HB Hb. exfalso. unfold lower in Hb.
    destruct (MapBackend.lower_bound (layer_backend y) k) as [k''|] eqn:Hf; cbn in Hb.
    + apply first_key_Some in Hf as (_ & _ & Hle). apply (bytes_lt_irrefl k').
      eapply bytes_lt_le_trans; [exact Hb|]. by apply Hle.
    + apply (first_key_None _ _ k') in Hf; [|done]. unfold from in HB. congruence.
  - intros y k' c _ Hk' ->%He. apply (lower_from y k k' Hk').
Qed.

Lemma increment_spec k : is_Some (m !! k) →
  increment (cursor (Some k)) h = (Ok (cursor (first_key (bytes_ltb k) m)), h).
Proof.
  intros [v Hv]. destruct (cursor_first k v Hv) as (x & Hx & Ho & Hd & Hl & Hfirst & Hrun).
  pose proof (lower_walking k (Some k) ltac:(congruence)) as Hw.
  unfold increment. cbn [_itr_revision_index cursor]. rewrite run_bind, Hrun. unfold valid. cbn [itr wr].
  rewrite Hl. cbn [iterator_eqb MapBackend.end_ negb assert_that]. rewrite run_bind. cbn [mret prog_ret].
  rewrite run_bind, (advance_at h _ x k Hl), modify_at by done. cbn [_delta_deque].
  rewrite (resolve_spec h s Hdesc stack_layers stack_ne (from k) (Some k) (from_up k)).
  - unfold cursor. do 5 f_equal. apply first_key_ext. intros k' _. apply eq_bool_prop_intro.
    rewrite !Is_true_true, next_key_cond, from_le, bytes_le_lt. split.
    + intros [[->|Hlt] Hne]; [done|exact Hlt].
    + intros Hlt. split; [by right|]. intros [= ->]. by apply (bytes_lt_irrefl k').
  - apply walking_advance; auto. apply from_up.
  - apply settled_advance with (Bd := from k); [done..|]. intros y Hy Hyx Hyk _. cbn.
    apply lower_from in Hyk as [Hyo _]. apply not_false_iff_true. intros Hyd. apply Hyx.
    by eapply clean_unique with (k := k); eauto.
Qed.

End Operations.

Section Back.
Context `{Hcrypto : !Crypto}.
Context (h : heap) (l : loc) (s : list layer).
Hypothesis Hok : heap_ok h.
Hypothesis Hstack : stack h l s.
Hypothesis Hdesc : descending s.
Abbreviation m := (stack_view s).
Implicit Types (x y : layer) (k q p : bytes) (c : option bytes).

Abbreviation in_ x k := (is_Some (objects x !! k)).

Definition least_of x p : Prop := ∀ k, in_ x k → bytes_le p k.

Lemma begin_eqb x p : in_ x p →
  iterator_eqb (Some p) (MapBackend.begin_ (layer_backend x)) = true ↔ least_of x p.
Proof.
  intros Hp. rewrite iterator_eqb_true. unfold MapBackend.begin_. fold (objects x). split.
  - intros Hf k Hk. symmetry in Hf. apply first_key_Some in Hf as (_ & _ & Hle). by apply Hle.
  - intros Hle. symmetry. apply first_key_is; [done..|]. intros k Hk _. by apply Hle.
Qed.

(** The keys before the position. *)
Definition behind x p : nat := length (filter (λ k, bytes_ltb k p) (map_keys (objects x))).

Lemma behind_lt x p p' : in_ x p' → bytes_lt p' p → (behind x p' < behind x p)%nat.
Proof.
  intros Hp' Hlt. unfold behind. apply (length_filter_lt _ _ _ p').
  - intros k _ Hk. change (bytes_lt k p). by etrans.
  - by apply map_keys_elem.
  - apply not_true_iff_false, bytes_lt_irrefl.
  - done.
Qed.

Lemma behind_size x p i : (behind x p < S (size_of (mk_iterator_wrapper i (rev_of x) (layer_backend x))))%nat.
Proof.
  unfold behind, size_of. cbn. fold (objects x). rewrite <- length_map_keys.
  apply Nat.lt_succ_r, length_filter.
Qed.

Lemma retreat_spec x p f : f x = Some p → in_ x p → ¬ least_of x p →
  ∃ p', retreat (wr f x) h = (Ok (set_itr (Some p') (wr f x)), h) ∧ in_ x p' ∧ bytes_lt p' p ∧
    ∀ k, in_ x k → bytes_lt p' k → bytes_le p k.
Proof.
  intros Hf Hp Hnl. unfold retreat. cbn [itr wr backend_]. rewrite Hf, prev_last_key.
  fold (objects x). destruct (last_key (beforeb (Some p)) (objects x)) as [p'|] eqn:Hl.
  - apply last_key_Some in Hl as (Hp' & Hlt & Hle). exists p'. split_and!; [done..|].
    intros k Hk Hpk. apply bytes_not_lt. intros Hkp. specialize (Hle k Hk Hkp).
    apply (bytes_lt_irrefl p'). by eapply bytes_lt_le_trans.
  - exfalso. apply Hnl. intros k Hk. by apply (last_key_None _ _ k) in Hl.
Qed.

Lemma retreat_end x f : f x = None → objects x ≠ ∅ →
  ∃ p', retreat (wr f x) h = (Ok (set_itr (Some p') (wr f x)), h) ∧ in_ x p' ∧ ∀ k, in_ x k → bytes_le k p'.
Proof.
  intros Hf Hne. unfold retreat. cbn [itr wr backend_]. rewrite Hf, prev_last_key.
  fold (objects x). destruct (last_key (beforeb None) (objects x)) as [p'|] eqn:Hl.
  - apply last_key_Some in Hl as (Hp' & _ & Hle). exists p'. split_and!; [done..|]. intros k Hk. by apply Hle.
  - exfalso. apply Hne, map_eq. intros k. rewrite lookup_empty, eq_None_not_Some. intros Hk.
    by apply (last_key_None _ _ k) in Hl.
Qed.

(** Every key of [x] between [p] and [c] is dirty. *)
Definition dirty_between x p c : Prop :=
  ∀ k, in_ x k → bytes_lt p k → before k c → dirty s (rev_of x) k = true.

Lemma rewind_loop_spec n x f p k0 : f x = Some p → in_ x p → dirty_between x p (Some k0) →
  (behind x p < n)%nat →
  ∃ q, rewind_loop n k0 (MapBackend.begin_ (layer_backend x)) (wr f x) h
         = (Ok (set_itr (Some q) (wr f x)), h) ∧
    in_ x q ∧ dirty_between x q (Some k0) ∧ (bytes_lt q k0 ∨ least_of x q).
Proof.
  revert f p. induction n as [|n IH]; intros f p Hf Hp Hd Hn; [lia|]. cbn [rewind_loop].
  unfold key_of at 1. cbn [itr wr]. rewrite Hf, run_bind. cbn [mret prog_ret].
  destruct (bytes_ltb p k0) eqn:Hlt; cbn [negb andb].
  { exists p. split; [unfold set_itr, wr; cbn; by rewrite Hf|]. split_and!; [done..|by left]. }
  destruct (iterator_eqb (Some p) (MapBackend.begin_ (layer_backend x))) eqn:Hb; cbn [negb].
  { exists p. split; [unfold set_itr, wr; cbn; by rewrite Hf|]. split_and!; [done..|]. right. by apply begin_eqb in Hb. }
  rewrite run_bind. destruct (retreat_spec x p f Hf Hp) as (p' & -> & Hp' & Hlt' & Hbetween).
  { intros Hl%begin_eqb; [congruence|done]. }
  destruct (IH (λ _, Some p') p') as (q & Hrun & Hq); [done..| |pose proof (behind_lt x p p' Hp' Hlt'); lia|by exists q].
  intros k Hk Hpk Hkb. apply Hbetween in Hpk as [<-|Hpk]%bytes_le_lt; [|by apply Hd|done].
  cbn in Hkb. unfold bytes_lt in Hkb. congruence.
Qed.

Lemma undirty_loop_spec n x f p c : x ∈ s → f x = Some p → in_ x p → dirty_between x p c →
  before p c ∨ least_of x p → (behind x p < n)%nat →
  ∃ q, undirty_loop n (deque s) (MapBackend.begin_ (layer_backend x)) (wr f x) h
         = (Ok (set_itr (Some q) (wr f x)), h) ∧
    in_ x q ∧ dirty_between x q c ∧ (before q c ∧ dirty s (rev_of x) q = false ∨ least_of x q).
Proof.
  revert f p. induction n as [|n IH]; intros f p Hx Hf Hp Hd Hpc Hn; [lia|]. cbn [undirty_loop].
  unfold valid. cbn [itr wr]. rewrite Hf.
  change (iterator_eqb (Some p) MapBackend.end_) with false. cbn [negb andb].
  destruct (iterator_eqb (Some p) (MapBackend.begin_ (layer_backend x))) eqn:Hb; cbn [negb].
  { exists p. split; [unfold set_itr, wr; cbn; by rewrite Hf|]. split_and!; [done..|]. right. by apply begin_eqb in Hb. }
  assert (¬ least_of x p) as Hnl by (intros Hl%begin_eqb; [congruence|done]).
  rewrite run_bind, (is_dirty_at h s Hdesc (stack_layers h l s Hstack) f x p Hx Hf).
  destruct (dirty s (rev_of x) p) eqn:Hdp.
  - rewrite run_bind. destruct (retreat_spec x p f Hf Hp Hnl) as (p' & -> & Hp' & Hlt' & Hbetween).
    destruct (IH (λ _, Some p') p') as (q & Hrun & Hq); [done..| | |pose proof (behind_lt x p p' Hp' Hlt'); lia|by exists q].
    + intros k Hk Hpk Hkb. apply Hbetween in Hpk as [<-|Hpk]%bytes_le_lt; [done|by apply Hd|done].
    + left. destruct Hpc as [Hpc|]; [|done]. destruct c as [c|]; [|done]. cbn in *. by etrans.
  - exists p. split; [unfold set_itr, wr; cbn; by rewrite Hf|]. split_and!; [done..|]. left. by destruct Hpc.
Qed.

(** Where the loop over the iterators leaves the one of [x]. *)
Definition rewound c x (i : MapBackend.iterator) : Prop :=
  match i with
  | None => objects x = ∅
  | Some q => in_ x q ∧ dirty_between x q c ∧ (before q c ∧ dirty s (rev_of x) q = false ∨ least_of x q)
  end.

Lemma rewind_one_spec c x : x ∈ s → ∃ i,
  rewind_one (deque s) c (wr (lower c) x) h = (Ok (set_itr i (wr (lower c) x)), h) ∧ rewound c x i.
Proof.
  intros Hx. unfold rewind_one. cbn [backend_ wr]. unfold MapBackend.size_. fold (objects x).
  destruct (decide (objects x = ∅)) as [Hemp|Hne].
  { exists None. rewrite Hemp, map_size_empty. change (Z.of_nat 0 =? 0) with true. cbn iota.
    assert (lower c x = None) as Hl; [|split; [unfold set_itr, wr; cbn; by rewrite Hl|done]].
    destruct c as [k|]; [|done]. apply first_key_none. intros k' Hk'.
    fold (objects x) in Hk'. rewrite Hemp, lookup_empty in Hk'. by destruct Hk'. }
  destruct (Z.eqb_spec (Z.of_nat (base.size (objects x))) 0) as [Hsz|_].
  { destruct Hne. apply map_size_empty_inv. lia. }
  assert (∃ p, (match c with
    | None => retreat (wr (lower c) x)
    | Some head_key =>
      w ← (if negb (valid (wr (lower c) x)) then retreat (wr (lower c) x) else mret (wr (lower c) x));
      rewind_loop (S (size_of w)) head_key (MapBackend.begin_ (layer_backend x)) w
    end) h = (Ok (set_itr (Some p) (wr (lower c) x)), h) ∧
    in_ x p ∧ dirty_between x p c ∧ (before p c ∨ least_of x p)) as (p & Hrun & Hp & Hd & Hpc).
  { destruct c as [k0|].
    - rewrite run_bind. unfold valid. cbn [itr wr].
      destruct (lower (Some k0) x) as [p0|] eqn:Hl; cbn [iterator_eqb MapBackend.end_ negb].
      + cbn [mret prog_ret]. destruct (lower_from _ _ _ Hl) as [Hp0 Hle].
        apply (rewind_loop_spec _ x _ p0 k0); [done..| |apply behind_size].
        intros k Hk Hlt Hb. exfalso. apply (bytes_lt_irrefl k0). eapply bytes_le_lt_trans; [exact Hle|]. by etrans.
      + destruct (retreat_end x (lower (Some k0)) Hl Hne) as (p0 & -> & Hp0 & Hmax).
        apply (rewind_loop_spec _ x (λ _, Some p0) p0 k0); [done..| |apply behind_size].
        intros k Hk Hlt Hb. exfalso. apply (bytes_lt_irrefl p0). eapply bytes_lt_le_trans; [exact Hlt|by apply Hmax].
    - destruct (retreat_end x (lower None) eq_refl Hne) as (p & Hrun & Hp & Hmax). exists p. split_and!; [done..| |by left].
      intros k Hk Hlt _. exfalso. apply (bytes_lt_irrefl p). eapply bytes_lt_le_trans; [exact Hlt|by apply Hmax]. }
  rewrite run_bind, Hrun.
  destruct (undirty_loop_spec (S (size_of (wr (λ _, Some p) x))) x (λ _, Some p) p c Hx eq_refl Hp Hd Hpc)
    as (q & Hrun' & Hq); [apply behind_size|].
  exists (Some q). split; [exact Hrun'|done].
Qed.

(** The positions after the loop. *)
Definition rewound_to c : layer → MapBackend.iterator := λ x,
  match rewind_one (deque s) c (wr (lower c) x) h with (Ok w, _) => itr w | _ => None end.

Lemma rewind_all_spec c : rewind_all (deque s) c (at_ s (lower c)) h = (Ok (at_ s (rewound_to c)), h).
Proof.
  unfold at_. rewrite <- !fmap_reverse.
  assert (∀ x, x ∈ reverse s → x ∈ s) as Hin by (intros x; by rewrite elem_of_reverse).
  induction (reverse s) as [|x ls IH]; [done|]. cbn [fmap list_fmap rewind_all].
  destruct (rewind_one_spec c x (Hin x ltac:(by left))) as (i & Hrun & _).
  rewrite run_bind, Hrun, run_bind.
  rewrite IH by (intros y Hy; apply Hin; by right). cbn [mret prog_ret]. unfold prog_ret. do 3 f_equal.
  unfold wr, rewound_to, set_itr. cbn. by rewrite Hrun.
Qed.

Lemma rewound_to_spec c x : x ∈ s → rewound c x (rewound_to c x).
Proof.
  intros Hx. destruct (rewind_one_spec c x Hx) as (i & Hrun & Hi). unfold rewound_to. by rewrite Hrun.
Qed.

(** ** The new least key *)

Section Previous.
Context (c : option bytes) (k0 v0 : bytes).
Hypothesis Hk0 : m !! k0 = Some v0.
Hypothesis Hbefore : before k0 c.
Hypothesis Hgreatest : ∀ k, is_Some (m !! k) → before k c → bytes_le k k0.

(** A clean position before [c] is not above [k0]. *)
Lemma clean_le x q : x ∈ s → in_ x q → dirty s (rev_of x) q = false → before q c → bytes_le q k0.
Proof. intros Hx [v Hv] Hd Hq. apply Hgreatest; [|done]. exists v. by eapply clean_view. Qed.

(** Some iterator stands at [k0], clean. *)
Lemma target : ∃ x, x ∈ s ∧ rewound_to c x = Some k0 ∧ objects x !! k0 = Some v0 ∧ dirty s (rev_of x) k0 = false.
Proof.
  destruct (view_clean _ _ _ Hdesc Hk0) as (x & Hx & Ho & Hd). exists x. split_and!; [done| |done..].
  pose proof (rewound_to_spec c x Hx) as Hr. destruct (rewound_to c x) as [q|]; cbn in Hr.
  2: { rewrite Hr, lookup_empty in Ho. done. }
  destruct Hr as (Hq & Hdirty & Hcase). f_equal. apply (anti_symm bytes_le).
  - destruct Hcase as [[Hqc Hqd]|Hleast]; [by eapply clean_le|apply Hleast; eauto].
  - apply bytes_not_lt. intros Hlt. rewrite (Hdirty k0) in Hd; [done|eauto|done..].
Qed.

(** The others are at their lower bound of [k0], or before it. *)
Lemma rewound_lower x : x ∈ s →
  rewound_to c x = lower (Some k0) x ∨ ∃ q, rewound_to c x = Some q ∧ in_ x q ∧ bytes_lt q k0.
Proof.
  intros Hx. pose proof (rewound_to_spec c x Hx) as Hr. destruct (rewound_to c x) as [q|]; cbn in Hr.
  - destruct Hr as (Hq & Hdirty & Hcase). destruct (bytes_ltb q k0) eqn:Hlt; [right; by exists q|left].
    symmetry. apply first_key_is; [done|by apply negb_true_iff|].
    intros k Hk Hle%negb_true_iff. fold (bytes_le k0 k) in Hle.
    destruct Hcase as [[Hqc Hqd]|Hleast]; [|by apply Hleast].
    pose proof (clean_le x q Hx Hq Hqd Hqc). by etrans.
  - left. symmetry. apply first_key_none. intros k Hk. fold (objects x) in Hk. rewrite Hr, lookup_empty in Hk.
    by destruct Hk.
Qed.

Lemma least_loop_spec ws : StronglySorted (no_later (flip bytes_lt)) ws →
  (∀ w, w ∈ ws → ∃ x, x ∈ s ∧ w = wr (rewound_to c) x) →
  (∃ x, x ∈ s ∧ wr (rewound_to c) x ∈ ws ∧ rewound_to c x = Some k0 ∧ dirty s (rev_of x) k0 = false) →
  ∃ w, least_loop (deque s) c ws h = (Ok (Some w), h) ∧ itr w = Some k0.
Proof.
  intros Hs. induction Hs as [|w ws Hs IH Hall]; intros Hin (x & Hx & Hxw & Hxk & Hxd); [by apply elem_of_nil in Hxw|].
  rewrite Forall_forall in Hall. destruct (Hin w ltac:(by left)) as (y & Hy & ->).
  assert (no_later (flip bytes_lt) (wr (rewound_to c) y) (wr (rewound_to c) x)) as Hord.
  { apply elem_of_cons in Hxw as [->|Hxw]; [|by apply Hall].
    intros Hp. eapply prec_asym; [apply flip_lt_irrefl|apply flip_lt_trans|exact Hp|exact Hp]. }
  cbn [least_loop]. unfold valid. cbn [itr wr].
  destruct (rewound_to c y) as [q|] eqn:Hq; cbn [iterator_eqb MapBackend.end_ negb].
  2: { exfalso. apply Hord. unfold prec. cbn. by rewrite Hq, Hxk. }
  assert (bytes_le k0 q) as Hle.
  { apply bytes_not_lt. intros Hlt. apply Hord. unfold prec. cbn. rewrite Hq, Hxk. by left. }
  rewrite run_bind, (is_dirty_at h s Hdesc (stack_layers h l s Hstack) _ y q Hy Hq), run_bind.
  unfold key_of. cbn [itr wr]. rewrite Hq. cbn [mret prog_ret].
  destruct (dirty s (rev_of y) q || _) eqn:Hskip.
  - apply IH; [intros w Hw; apply Hin; by right|]. exists x. split_and!; [done| |done..].
    apply elem_of_cons in Hxw as [Heq|]; [exfalso|done].
    assert (rev_of x = rev_of y) as Hrev by (by injection Heq). apply (descending_inj s) in Hrev as ->; [|done..].
    assert (q = k0) as -> by congruence. rewrite Hxd in Hskip. cbn in Hskip.
    destruct c as [c0|]; [|done]. apply negb_true_iff in Hskip. cbn in Hbefore. unfold bytes_lt in Hbefore. congruence.
  - exists (wr (rewound_to c) y). split; [done|]. cbn. rewrite Hq. f_equal. apply (anti_symm bytes_le); [|done].
    apply orb_false_iff in Hskip as [Hyd Hyc]. apply (clean_le y); [done| |done|].
    + pose proof (rewound_to_spec c y Hy) as Hr. rewrite Hq in Hr. apply Hr.
    + destruct c as [c0|]; [|done]. apply negb_false_iff in Hyc. exact Hyc.
Qed.

(** ** Moving the others up to it *)

Lemma forward_loop_spec n f : (sum_list (ahead f <$> s) < n)%nat →
  (∃ x, x ∈ s ∧ f x = Some k0 ∧ in_ x k0) →
  (∀ x, x ∈ s → f x = lower (Some k0) x ∨ ∃ q, f x = Some q ∧ in_ x q ∧ bytes_lt q k0) →
  forward_loop n k0 (at_ s f) h = (Ok (at_ s (lower (Some k0))), h).
Proof.
  revert f. induction n as [|n IH]; intros f Hn (x0 & Hx0 & Hfx0 & Hin0) Hf; [lia|]. cbn [forward_loop].
  destruct (first_spec (at_ s f) h (at_ne s (stack_ne h l s Hstack) f)) as (w & Hrun & (x & Hx & ->)%at_elem & Hmin).
  assert (is_first s f x) as Hfirst by (intros y Hy; apply Hmin, at_elem; by exists y).
  apply first_begin in Hrun as [rest ->]. unfold key_of. cbn [itr wr].
  destruct (f x) as [k|] eqn:Hk; [|exfalso; apply (Hfirst x0 Hx0); unfold prec; cbn; by rewrite Hk, Hfx0].
  rewrite run_bind. cbn [mret prog_ret]. destruct (bytes_ltb k k0) eqn:Hlt.
  - rewrite run_bind, (advance_at h f x k Hk), modify_at by done.
    assert (in_ x k) as Hin.
    { destruct (Hf x Hx) as [Hl|(q & Hq & ? & _)]; [|by simplify_eq]. rewrite Hk in Hl. symmetry in Hl.
      apply (lower_from _ _ _ Hl). }
    apply IH.
    + assert (sum_list (ahead (upd f x (next_of x k)) <$> s) < sum_list (ahead f <$> s))%nat; [|lia].
      apply (sum_list_lt _ _ _ x); [|done|by apply ahead_next].
      intros y Hy. destruct (layer_dec s Hdesc x y Hx Hy) as [->|Hyx]; [by apply Nat.lt_le_incl, ahead_next|].
      unfold ahead. by rewrite (upd_other s).
    + exists x0. split_and!; [done| |done]. rewrite (upd_other s); [done..|]. intros ->.
      rewrite Hk in Hfx0. injection Hfx0 as ->. by apply (bytes_lt_irrefl k0).
    + intros y Hy. destruct (layer_dec s Hdesc x y Hx Hy) as [->|Hyx]; [|rewrite (upd_other s) by done; by apply Hf].
      rewrite upd_same. destruct (next_of x k) as [k'|] eqn:Hnext.
      * destruct (bytes_ltb k' k0) eqn:Hlt'; [right; exists k'; split_and!; [done|by eapply next_of_spec|done]|left].
        symmetry. apply first_key_is; [by eapply next_of_spec|by apply negb_true_iff|].
        intros k1 Hk1 Hle%negb_true_iff. fold (bytes_le k0 k1) in Hle.
        apply first_key_Some in Hnext as (_ & _ & Hmin'). apply Hmin'; [done|].
        change (bytes_lt k k1). by eapply bytes_lt_le_trans.
      * left. symmetry. apply first_key_none. intros k1 Hk1. apply negb_false_iff.
        apply (first_key_None _ _ k1) in Hnext; [|done]. apply bytes_le_lt_trans with k; [|done]. exact Hnext.
  - enough (at_ s f = at_ s (lower (Some k0))) as -> by done. apply at_ext. intros y Hy. destruct (Hf y Hy) as [Hl|(q & Hq & _ & Hqk)]; [done|exfalso].
    pose proof (is_first_le s f x y k q Hfirst Hy Hk Hq) as Hle. apply (bytes_lt_irrefl q).
    eapply bytes_lt_le_trans; [exact Hqk|]. etrans; [|exact Hle]. exact Hlt.
Qed.

Lemma decrement_to : (∀ k, c = Some k → is_Some (m !! k)) →
  decrement (cursor s c) h = (Ok (cursor s (Some k0)), h).
Proof.
  intros Hc. unfold decrement. cbn [_itr_revision_index _delta_deque cursor].
  assert (∃ w, first (at_ s (lower c)) h = (Ok w, h) ∧ itr w = c) as (w & Hrun & Hw).
  { destruct c as [k|].
    - destruct (Hc k eq_refl) as [v Hv].
      destruct (cursor_first h l s Hstack Hdesc k v Hv) as (x & _ & _ & _ & Hl & _ & Hrun).
      by exists (wr (lower (Some k)) x).
    - destruct (end_first h l s Hstack) as (w & rest & Hi & Hw). exists w. unfold first. by rewrite Hi. }
  rewrite run_bind, Hrun, Hw, run_bind, rewind_all_spec.
  destruct target as (x & Hx & Hxk & Hxo & Hxd).
  assert (length (deque s) = length s) as Hlen by (unfold deque; by rewrite length_reverse, length_fmap).
  destruct (Nat.ltb_spec 1 (length (deque s))) as [Hmany|Hone].
  - destruct (least_loop_spec (by_reverse_order_revision (at_ s (rewound_to c)))) as (wl & Hleast & Hwl).
    + apply (index_by_sorted (flip bytes_lt) flip_lt_total). apply composite_greater_prec.
    + intros w' Hw'. unfold by_reverse_order_revision in Hw'. rewrite index_by_perm in Hw'. by apply at_elem.
    + exists x. split_and!; [done| |done..]. unfold by_reverse_order_revision. rewrite index_by_perm.
      apply at_elem. by exists x.
    + rewrite run_bind, Hleast, run_bind, run_bind. unfold key_of. rewrite Hwl. cbn [mret prog_ret].
      rewrite (forward_loop_spec _ (rewound_to c)); [|apply fuel_enough|exists x; eauto|by apply rewound_lower].
      rewrite (resolve_spec h s Hdesc (stack_layers h l s Hstack) (stack_ne h l s Hstack) (from k0) None (from_up k0));
        [|by apply lower_walking|by intros ? ? ? ? ?].
      unfold cursor. do 5 f_equal. apply first_key_is; [by exists v0| |].
      * apply next_key_cond. split; [by apply from_le|done].
      * intros k Hk [Hle%from_le _]%next_key_cond. done.
  - destruct s as [|y [|z s']] eqn:Es; [done| |cbn in *; lia].
    apply list_elem_of_singleton in Hx as ->. unfold cursor.
    enough (at_ [y] (rewound_to c) = at_ [y] (lower (Some k0))) as -> by done. apply at_ext.
    intros x ->%list_elem_of_singleton. rewrite Hxk. symmetry. apply lower_at. eauto.
Qed.

End Previous.

(** [--] moves to the greatest key of the view before the current one. *)
Lemma decrement_spec c k0 : (∀ k, c = Some k → is_Some (m !! k)) → last_key (beforeb c) m = Some k0 →
  decrement (cursor s c) h = (Ok (cursor s (Some k0)), h).
Proof.
  intros Hc ([v0 Hv0] & Hb & Hle)%last_key_Some. apply (decrement_to c k0 v0); [done|by apply beforeb_before| |done].
  intros k Hk Hkc. by apply Hle, beforeb_before.
Qed.

End Back.
