(* ===== verification/ObjectIteration.v ===== *)
(** Iteration over the objects of a state node: [get_next_object] and
    [get_prev_object] of [src/src/koinos/state_db/state_db.cpp].

    A key found by the merge iterator is turned back into a database key by
    the converter of the koinos libraries, which is a parameter. *)

From S2P Require Import Prelude Keys MapBackend StateDelta StateNode MergeIterator.

(** [util::converter::to< chain::database_key >]: the key, or what it
    throws; it reads what [converter::as] wrote. *)
Class Converter := { to_database_key : bytes → exn + database_key }.
Class ConverterLaws `{!DatabaseKeys} `{!Converter} := {
  to_key_string k : to_database_key (key_string k) = inr k
}.

Module ObjectIteration.
Import StateDelta StateNode.

#[local] Abbreviation M := (prog heap exn).

Section Iteration.
Context `{!Crypto} `{!DatabaseKeys} `{!Converter}.

Definition null_key : bytes := [].

Definition convert (k : bytes) : M database_key :=
  match to_database_key k with inl e => raise e | inr k => mret k end.

(** The object and the key at the iterator, if it is in the space. *)
Definition object_at (it : MergeIterator.merge_iterator) (space : object_space) : M (option bytes * bytes) :=
  k ← MergeIterator.key it;
  next_key ← convert k;
  if space_eqb (key_space next_key) space then
    v ← MergeIterator.value it; mret (Some v, key_key next_key)
  else mret (None, null_key).

Definition get_next_object (l : loc) (space : object_space) (key : bytes) : M (option bytes * bytes) :=
  let key_string := key_string (mk_database_key space key) in
  it ← MergeIterator.lower_bound l key_string;
  end_ ← MergeIterator.end_ l;
  it ←
    (if negb (MergeIterator.equal it end_) then
       k ← MergeIterator.key it;
       if bool_decide (k = key_string) then MergeIterator.increment it else mret it
     else mret it);
  end_ ← MergeIterator.end_ l;
  if negb (MergeIterator.equal it end_) then object_at it space
  else mret (None, null_key).

Definition get_prev_object (l : loc) (space : object_space) (key : bytes) : M (option bytes * bytes) :=
  let key_string := key_string (mk_database_key space key) in
  it ← MergeIterator.lower_bound l key_string;
  begin_ ← MergeIterator.begin_ l;
  if negb (MergeIterator.equal it begin_) then
    it ← MergeIterator.decrement it;
    object_at it space
  else mret (None, null_key).

End Iteration.
End ObjectIteration.
