(* ===== verification/ObjectIterationTheorems.v ===== *)
(** Iteration over objects against the view: the neighbours of a key in its
    space, whatever the deltas below the node overwrote and removed. *)

From S2P Require Import Prelude Storage Keys MapBackend StateDelta StateNode StateDeltaFacts StateDatabase.
From S2P Require Import StateDiscard StateTheorems StateProperties MergeIterator MergeFacts MergeBack.
From S2P Require Import MergeBack ObjectIteration StateExample.
Import StateDelta StateDatabase StateNode ObjectIteration.

#[global] Instance object_space_eq_dec : EqDecision object_space.
Proof. solve_decision. Defined.

(** The serialized keys of a space are contiguous: they share a prefix. *)
Class SpacesContiguous `{!DatabaseKeys} := {
  space_between sp k1 k2 k : bytes_lt (key_string (mk_database_key sp k1)) (key_string k) →
    bytes_lt (key_string k) (key_string (mk_database_key sp k2)) → key_space k = sp
}.

Section Iteration.
Context `{Hcrypto : !Crypto} `{Hkeys : !DatabaseKeys} `{Hconv : !Converter} `{!ConverterLaws} `{!SpacesContiguous}.
Implicit Types (h : heap) (m : gmap bytes bytes) (sp : object_space) (k : bytes).

(** Every parent has a smaller revision. *)
Definition ascends h l : Prop := ∀ x d p dp, above h x l → deltas h !! x = Some d → _parent d = Some p →
  deltas h !! p = Some dp → _revision dp < _revision d.

Lemma stack_above h l s x : heap_ok h → stack h l s → x ∈ s → above h (layer_loc x) l.
Proof.
  intros Hok. induction 1 as [|l d b p s Hd Hb Hp Hs IH]; intros Hx.
  - apply list_elem_of_singleton in Hx as ->. constructor.
  - apply elem_of_cons in Hx as [->|Hx]; [constructor|]. eapply above_child; [done..|by apply IH].
Qed.

Lemma above_trans h x y z : above h x y → above h y z → above h x z.
Proof. intros Hxy. induction 1; [done|by eapply above_child]. Qed.

Lemma stack_head h l s : stack h l s → ∃ d b rest, s = mk_layer l d b :: rest ∧ deltas h !! l = Some d.
Proof. destruct 1; eauto 10. Qed.

Lemma ascends_descending h l s : heap_ok h → stack h l s → ascends h l → descending s.
Proof.
  intros Hok. induction 1 as [|l d b p s Hd Hb Hp Hs IH]; intros Ha; [by repeat constructor|].
  assert (ascends h p) as Hap.
  { intros x d' q dq Hx. apply Ha. eapply above_trans; [exact Hx|]. eapply above_child; [done..|constructor]. }
  specialize (IH Hap). constructor; [done|]. destruct (stack_head _ _ _ Hs) as (dp & bp & rest & -> & Hdp).
  assert (_revision dp < _revision d) as Hlt by (eapply Ha; [constructor|done..]).
  constructor; [done|]. apply StronglySorted_inv in IH as [_ IH]. eapply Forall_impl; [exact IH|].
  intros x Hx. unfold rev_of in *. cbn in *. lia.
Qed.

Lemma node_ascends db r hd l : db_ok db r hd → l ∈ _index db → ascends (db_heap db) l.
Proof.
  intros Hok Hl x d p dp Ha Hd Hp Hdp.
  assert (x ∈ _index db) as Hx.
  { revert Hl. clear -Ha Hok. induction Ha as [|y d p Hd Hp Ha IH]; [done|]. intros Hy. apply IH.
    destruct (ok_node _ _ _ Hok _ Hy) as (d' & Hd' & _ & _ & [(_ & Hn & _)|(q & dq & Hq & Hqi & _)]); congruence. }
  destruct (ok_node _ _ _ Hok _ Hx) as (d' & Hd' & _ & _ & [(_ & Hn & _)|(q & dq & Hq & _ & Hdq & _ & Hrev)]);
    [congruence|]. assert (q = p) as -> by congruence. assert (dq = dp) as -> by congruence.
  assert (d' = d) as -> by congruence. lia.
Qed.

Lemma child_ascends h p l d dp : ascends h p → deltas h !! l = Some d → _parent d = Some p →
  deltas h !! p = Some dp → _revision dp < _revision d → ascends h l.
Proof.
  intros Ha Hd Hp Hdp Hlt x d' q dq Hx Hd' Hq Hdq. inversion Hx as [|? d'' p' Hd'' Hp' Hx']; subst.
  - assert (d' = d) as -> by congruence. assert (q = p) as -> by congruence. by assert (dq = dp) as -> by congruence.
  - assert (d'' = d) as -> by congruence. assert (p' = p) as -> by congruence. by eapply Ha.
Qed.

(** Every stored key is a serialized key. *)
Definition keys_ok m : Prop := ∀ ks, is_Some (m !! ks) → ∃ dk, ks = key_string dk.

(** The neighbours of a key among the objects of its space. *)
Definition next_in m sp k (o : option bytes * bytes) : Prop :=
  match o.1 with
  | Some v => m !! key_string (mk_database_key sp o.2) = Some v ∧
      bytes_lt (key_string (mk_database_key sp k)) (key_string (mk_database_key sp o.2)) ∧
      ∀ k', is_Some (m !! key_string (mk_database_key sp k')) →
        bytes_lt (key_string (mk_database_key sp k)) (key_string (mk_database_key sp k')) →
        bytes_le (key_string (mk_database_key sp o.2)) (key_string (mk_database_key sp k'))
  | None => o.2 = null_key ∧ ∀ k', is_Some (m !! key_string (mk_database_key sp k')) →
      ¬ bytes_lt (key_string (mk_database_key sp k)) (key_string (mk_database_key sp k'))
  end.

Definition prev_in m sp k (o : option bytes * bytes) : Prop :=
  match o.1 with
  | Some v => m !! key_string (mk_database_key sp o.2) = Some v ∧
      bytes_lt (key_string (mk_database_key sp o.2)) (key_string (mk_database_key sp k)) ∧
      ∀ k', is_Some (m !! key_string (mk_database_key sp k')) →
        bytes_lt (key_string (mk_database_key sp k')) (key_string (mk_database_key sp k)) →
        bytes_le (key_string (mk_database_key sp k')) (key_string (mk_database_key sp o.2))
  | None => o.2 = null_key ∧ ∀ k', is_Some (m !! key_string (mk_database_key sp k')) →
      ¬ bytes_lt (key_string (mk_database_key sp k')) (key_string (mk_database_key sp k))
  end.

Lemma space_eqb_spec a b : space_eqb a b = bool_decide (a = b).
Proof.
  unfold space_eqb. destruct a as [s1 z1 i1], b as [s2 z2 i2]. cbn.
  apply eq_bool_prop_intro. rewrite !Is_true_true, !andb_true_iff, bool_decide_eq_true, Bool.eqb_true_iff, Z.eqb_eq,
    bool_decide_eq_true. naive_solver.
Qed.

(** What [get_next_object] and [get_prev_object] compute from the merged
    objects. *)
Definition next_of m sp k : option bytes * bytes :=
  match first_key (bytes_ltb (key_string (mk_database_key sp k))) m with
  | Some ks => match to_database_key ks with
               | inr dk => if bool_decide (key_space dk = sp) then (m !! ks, key_key dk) else (None, null_key)
               | inl _ => (None, null_key)
               end
  | None => (None, null_key)
  end.

Definition prev_of m sp k : option bytes * bytes :=
  match last_key (beforeb (Some (key_string (mk_database_key sp k)))) m with
  | Some ks => match to_database_key ks with
               | inr dk => if bool_decide (key_space dk = sp) then (m !! ks, key_key dk) else (None, null_key)
               | inl _ => (None, null_key)
               end
  | None => (None, null_key)
  end.

Section Stack.
Context (h : heap) (l : loc) (s : list layer).
Hypothesis Hok : heap_ok h.
Hypothesis Hstack : stack h l s.
Hypothesis Hdesc : descending s.
Abbreviation m := (stack_view s).
Hypothesis Hkm : keys_ok m.

Lemma object_at_spec sp dk v : m !! key_string dk = Some v →
  object_at (cursor s (Some (key_string dk))) sp h =
  (Ok (if bool_decide (key_space dk = sp) then (Some v, key_key dk) else (None, null_key)), h).
Proof.
  intros Hv. unfold object_at, convert.
  rewrite run_bind, (key_spec h l s Hstack Hdesc (key_string dk)) by eauto.
  rewrite run_bind, to_key_string. cbn [mret prog_ret]. rewrite space_eqb_spec.
  case_bool_decide; [|done]. by rewrite run_bind, (value_spec h l s Hstack Hdesc _ v Hv).
Qed.

Lemma get_next_spec sp k : get_next_object l sp k h =
  (Ok (next_of m sp k), h).
Proof.
  unfold get_next_object, next_of. set (ks := key_string (mk_database_key sp k)).
  set (c1 := first_key (from ks) m). set (c2 := first_key (bytes_ltb ks) m).
  assert (∀ P k0, first_key P m = Some k0 → is_Some (m !! k0)) as Hin by (intros P k0 (? & _)%first_key_Some; done).
  assert (∀ c, (∀ k0, c = Some k0 → is_Some (m !! k0)) →
    negb (MergeIterator.equal (cursor s c) (cursor s None)) = bool_decide (is_Some c)) as Hend.
  { intros c Hc. rewrite (equal_spec h l s Hstack Hdesc); [|done|done]. destruct c; [|done].
    by rewrite bool_decide_eq_false_2, bool_decide_eq_true_2 by eauto. }
  rewrite run_bind, (lower_bound_spec h l s Hok Hstack Hdesc), run_bind, (end_spec h l s Hok Hstack Hdesc). fold c1.
  rewrite Hend by apply Hin.
  assert ((if bool_decide (is_Some c1)
           then k0 ← MergeIterator.key (cursor s c1);
                if bool_decide (k0 = ks) then MergeIterator.increment (cursor s c1) else mret (cursor s c1)
           else mret (cursor s c1)) h = (Ok (cursor s c2), h)) as Hstep.
  { destruct c1 as [k1|] eqn:Hc1; cbn [bool_decide]; cycle 1.
    - rewrite bool_decide_eq_false_2 by (by intros [? ?]). assert (c2 = None) as ->; [|done].
      apply first_key_none. intros k0 Hk0. apply (first_key_None _ _ k0) in Hc1; [|done].
      apply negb_false_iff in Hc1. apply not_true_iff_false. intros Hlt. apply (bytes_lt_irrefl ks). by etrans.
    - rewrite bool_decide_eq_true_2 by eauto.
      destruct (first_key_Some _ _ _ Hc1) as (Hk1 & Hle%from_le & Hmin).
      rewrite run_bind, (key_spec h l s Hstack Hdesc k1 Hk1). case_bool_decide as Heq.
      + subst k1. by rewrite (increment_spec h l s Hstack Hdesc ks Hk1).
      + assert (c2 = Some k1) as ->; [|done]. apply bytes_le_lt in Hle as [?|Hlt]; [congruence|].
        apply first_key_is; [done..|]. intros k0 Hk0 Hlt0. apply Hmin; [done|]. apply from_le, bytes_le_lt. by right. }
  rewrite run_bind, Hstep, run_bind, (end_spec h l s Hok Hstack Hdesc), Hend by apply Hin.
  destruct c2 as [k2|] eqn:Hc2; [|done]. rewrite bool_decide_eq_true_2 by eauto.
  destruct (Hin _ _ Hc2) as [v Hv]. destruct (Hkm k2) as [dk ->]; [eauto|].
  rewrite (object_at_spec sp dk v Hv), to_key_string. by rewrite Hv.
Qed.

Lemma get_prev_spec sp k : get_prev_object l sp k h =
  (Ok (prev_of m sp k), h).
Proof.
  unfold get_prev_object, prev_of. set (ks := key_string (mk_database_key sp k)).
  set (c1 := first_key (from ks) m).
  assert (∀ P k0, first_key P m = Some k0 → is_Some (m !! k0)) as Hin by (intros P k0 (? & _)%first_key_Some; done).
  rewrite run_bind, (lower_bound_spec h l s Hok Hstack Hdesc), run_bind, (begin_spec h l s Hok Hstack Hdesc). fold c1.
  rewrite (equal_spec h l s Hstack Hdesc) by apply Hin.
  assert (last_key (beforeb (Some ks)) m = last_key (beforeb c1) m) as ->.
  { unfold last_key. f_equal. apply filter_ext_in. intros k0 Hk0%map_keys_elem. rewrite !Is_true_true, !beforeb_before.
    destruct c1 as [k1|] eqn:Hc1; cbn.
    - apply first_key_Some in Hc1 as (_ & Hle%from_le & Hmin). split; intros Hlt; [by eapply bytes_lt_le_trans|].
      destruct (bytes_ltb k0 ks) eqn:Hlt'; [done|]. exfalso. apply (bytes_lt_irrefl k0).
      eapply bytes_lt_le_trans; [exact Hlt|]. apply Hmin; [done|]. by apply from_le.
    - split; [done|]. intros _. apply (first_key_None _ _ k0) in Hc1; [|done]. by apply negb_false_iff in Hc1. }
  case_bool_decide as Heq; cbn [negb].
  - destruct (last_key (beforeb c1) m) as [k0|] eqn:Hl; [|done]. exfalso.
    apply last_key_Some in Hl as (Hk0 & Hb%beforeb_before & _). rewrite Heq in Hb.
    destruct (first_key (λ _, true) m) as [k1|] eqn:Hf; cbn in Hb.
    + apply first_key_Some in Hf as (_ & _ & Hmin). apply (bytes_lt_irrefl k0).
      eapply bytes_lt_le_trans; [exact Hb|by apply Hmin].
    + by apply (first_key_None _ _ k0) in Hf.
  - destruct (last_key (beforeb c1) m) as [k0|] eqn:Hl.
    + rewrite run_bind, (decrement_spec h l s Hstack Hdesc c1 k0 (Hin _) Hl).
      apply last_key_Some in Hl as ([v Hv] & _ & _). destruct (Hkm k0) as [dk ->]; [eauto|].
      rewrite (object_at_spec sp dk v Hv), to_key_string. by rewrite Hv.
    + exfalso. apply Heq. symmetry. destruct c1 as [k1|] eqn:Hc1.
      * apply first_key_is; [by eapply Hin|done|]. intros k0 Hk0 _. apply bytes_not_lt. intros Hlt.
        apply (last_key_None _ _ k0) in Hl; [|done]. cbn in Hl. unfold bytes_lt in Hlt. congruence.
      * apply first_key_none. intros k0 Hk0. by apply (last_key_None _ _ k0) in Hl.
Qed.

End Stack.

Lemma next_result m sp k : keys_ok m → next_in m sp k (next_of m sp k).
Proof.
  intros Hkm. unfold next_of. destruct (first_key _ m) as [ks|] eqn:Hf.
  - apply first_key_Some in Hf as ([v Hv] & Hlt & Hle). destruct (Hkm ks) as [[sp' k'] ->]; [eauto|].
    rewrite to_key_string. cbn [key_space key_key]. case_bool_decide as Hsp.
    + subst sp'. unfold next_in. cbn [fst snd]. rewrite Hv. split_and!; [done..|]. intros k1 Hk1 Hlt1. by apply Hle.
    + split; [done|]. intros k1 Hk1 Hlt1. apply Hsp. specialize (Hle _ Hk1 Hlt1).
      apply bytes_le_lt in Hle as [Heq|Hle].
      * apply (f_equal to_database_key) in Heq. rewrite !to_key_string in Heq. congruence.
      * exact (space_between sp k k1 (mk_database_key sp' k') Hlt Hle).
  - split; [done|]. intros k1 Hk1 Hlt1. apply (first_key_None _ _ _ Hf) in Hk1. unfold bytes_lt in Hlt1. congruence.
Qed.

Lemma prev_result m sp k : keys_ok m → prev_in m sp k (prev_of m sp k).
Proof.
  intros Hkm. unfold prev_of. destruct (last_key _ m) as [ks|] eqn:Hf.
  - apply last_key_Some in Hf as ([v Hv] & Hlt & Hle). destruct (Hkm ks) as [[sp' k'] ->]; [eauto|].
    rewrite to_key_string. cbn [key_space key_key]. case_bool_decide as Hsp.
    + subst sp'. unfold prev_in. cbn [fst snd]. rewrite Hv. split_and!; [done..|]. intros k1 Hk1 Hlt1. by apply Hle.
    + split; [done|]. intros k1 Hk1 Hlt1. apply Hsp. specialize (Hle _ Hk1 Hlt1).
      apply bytes_le_lt in Hle as [Heq|Hle].
      * apply (f_equal to_database_key) in Heq. rewrite !to_key_string in Heq. congruence.
      * exact (space_between sp k1 k (mk_database_key sp' k') Hle Hlt).
  - split; [done|]. intros k1 Hk1 Hlt1. apply (last_key_None _ _ _ Hf) in Hk1. cbn in Hk1.
    unfold bytes_lt in Hlt1. congruence.
Qed.

(** Iteration on any node whose deltas ascend in revision. *)
Lemma run_get_next h l m sp k : heap_ok h → view h l = Some m → ascends h l → keys_ok m →
  get_next_object l sp k h = (Ok (next_of m sp k), h).
Proof.
  intros Hh Hv Ha Hkm. destruct (view_stack _ _ _ Hh Hv) as (s & Hs & <-).
  pose proof (ascends_descending _ _ _ Hh Hs Ha) as Hd.
  by apply (get_next_spec _ l s Hh Hs Hd Hkm).
Qed.

Lemma run_get_prev h l m sp k : heap_ok h → view h l = Some m → ascends h l → keys_ok m →
  get_prev_object l sp k h = (Ok (prev_of m sp k), h).
Proof.
  intros Hh Hv Ha Hkm. destruct (view_stack _ _ _ Hh Hv) as (s & Hs & <-).
  pose proof (ascends_descending _ _ _ Hh Hs Ha) as Hd.
  by apply (get_prev_spec _ l s Hh Hs Hd Hkm).
Qed.

(** A node of the index, or a session on one. *)
Definition readable db l : Prop := l ∈ _index db ∨ ∃ d p dp,
  deltas (db_heap db) !! l = Some d ∧ _parent d = Some p ∧ p ∈ _index db ∧
  deltas (db_heap db) !! p = Some dp ∧ _revision dp < _revision d.

Lemma readable_ascends db r hd l : db_ok db r hd → readable db l → ascends (db_heap db) l.
Proof.
  intros Hok [Hl|(d & p & dp & Hd & Hp & Hpi & Hdp & Hlt)]; [by eapply node_ascends|].
  eapply child_ascends; [|done..]. by eapply node_ascends.
Qed.

(** C30. On a node of the index and on a session, [get_next_object] returns
    the object with the least key of the space above the given key, and
    [get_prev_object] the one with the greatest key below it, among the
    objects a reader of the node sees: merged over all the deltas down to the
    root, without what newer deltas overwrote or removed.  They return null
    exactly when the space has no such object, and change nothing. *)
Theorem object_neighbours db r hd l m sp k :
  db_ok db r hd → readable db l → view (db_heap db) l = Some m → keys_ok m →
  (∃ o, get_next_object l sp k (db_heap db) = (Ok o, db_heap db) ∧ next_in m sp k o) ∧
  (∃ o, get_prev_object l sp k (db_heap db) = (Ok o, db_heap db) ∧ prev_in m sp k o).
Proof.
  intros Hok Hl Hv Hkm. pose proof (ok_heap _ _ _ Hok) as Hh.
  pose proof (readable_ascends _ _ _ _ Hok Hl) as Ha. split; eexists.
  - split; [by apply run_get_next|by apply next_result].
  - split; [by apply run_get_prev|by apply prev_result].
Qed.

End Iteration.

(** ** A concrete database *)

#[export] Instance example_converter : Converter := {
  to_database_key b := match parse_key b with Some k => inr k | None => inl koinos_exception end
}.
#[export] Instance example_converter_laws : ConverterLaws.
Proof. split. intros k. cbn [to_database_key example_converter]. by rewrite parse_key_string. Qed.

Lemma example_key_prefix sp k :
  key_string (mk_database_key sp k)
  = (byte_of (if system sp then 1 else 0) :: frame (zone sp) (frame (bits_of (encode (space_id sp))) [])) ++ k.
Proof.
  assert (∀ b r1 r2, frame b (r1 ++ r2) = frame b r1 ++ r2) as Hf.
  { induction b as [|c b IH]; intros r1 r2; cbn; [done|]. by rewrite IH. }
  cbn [key_string example_keys key_space key_key]. cbn [app]. rewrite <- !Hf. done.
Qed.

#[export] Instance example_contiguous : SpacesContiguous.
Proof.
  split. intros sp k1 k2 k H1 H2. rewrite !example_key_prefix in H1, H2.
  destruct (prefix_between _ _ _ _ H1 H2) as [b Hb]. rewrite <- example_key_prefix in Hb.
  apply (f_equal parse_key) in Hb. rewrite !parse_key_string in Hb. injection Hb as ->. done.
Qed.

(** The session of [db9] after it wrote a second object and removed the
    first. *)
Definition db10 : database := (on_heap (put_object 6 contracts (str "m") (str "three")) db9).2.
Definition db11 : database := (on_heap (remove_object_ 6 contracts (str "k") false) db10).2.

Lemma db11_ok : db_ok db11 1 3.
Proof.
  apply reached_ok; [|by vm_compute|by vm_compute]. etrans; [apply db9_reached|].
  eapply rtc_l; [apply (step_put db9 6 contracts (str "m") (str "three")); view_some|]. fold db10.
  eapply rtc_l; [apply (step_remove db10 6 contracts (str "k") false); view_some|]. fold db11. reflexivity.
Qed.

Lemma keys_ok_eval m : forallb (λ kv, match parse_key kv.1 with
    | Some dk => bool_decide (key_string dk = kv.1)
    | None => false
    end) (map_to_list m) = true → keys_ok m.
Proof.
  rewrite forallb_forall. intros Hall ks [v Hv%elem_of_map_to_list].
  specialize (Hall (ks, v) (proj1 (list_elem_of_In _ _) Hv)). cbn [fst] in Hall.
  destruct (parse_key ks) as [dk|]; [|done]. exists dk. by apply bool_decide_eq_true in Hall.
Qed.

Lemma object_neighbours_witness :
  (∃ o, get_next_object 6 contracts (str "a") (db_heap db11) = (Ok o, db_heap db11) ∧
     next_in (view_of db11 6) contracts (str "a") o) ∧
  (∃ o, get_prev_object 6 contracts (str "m") (db_heap db11) = (Ok o, db_heap db11) ∧
     prev_in (view_of db11 6) contracts (str "m") o).
Proof.
  assert (readable db11 6) as Hr.
  { right. exists (delta_of db11 6), 5%positive, (delta_of db11 5).
    split; [eval_eq|]. split; [eval_eq|]. split; [in_index|]. split; [eval_eq|]. by vm_compute. }
  pose proof (object_neighbours db11 1 3 6 (view_of db11 6) contracts (str "a") db11_ok Hr ltac:(eval_eq)
    (keys_ok_eval _ ltac:(eval_eq))) as [Hnext _].
  pose proof (object_neighbours db11 1 3 6 (view_of db11 6) contracts (str "m") db11_ok Hr ltac:(eval_eq)
    (keys_ok_eval _ ltac:(eval_eq))) as [_ Hprev].
  split; [exact Hnext|exact Hprev].
Defined.

(** By evaluation: the session's object hides the removed one. *)
Example next_of_a : (get_next_object 6 contracts (str "a") (db_heap db11)).1 = Ok (Some (str "three"), str "m").
Proof. eval_eq. Qed.
