(* ===== verification/Mempool.v ===== *)
(** The mempool: [src/src/koinos/mempool/mempool.cpp] and [state.cpp].

    Pending transactions live in the objects of a second state database: a
    block's node is finalized, and a temporary node below it, whose id is the
    hash of the block's, holds the transactions pending after that block.
    Code that works on one node is a program over the heap of deltas, the
    rest over the mempool.  Mutexes of nodes are a set of ids: a [shared_ptr]
    to a mutex is the id it was found under.

    [state_error null_dereference] stands for undefined behaviour; unlike an
    exception it passes every [catch]. *)

From S2P Require Import Prelude Keys MapBackend StateDelta StateNode StateDatabase MergeIterator ObjectIteration.

Module Mempool.
Import StateDelta StateNode StateDatabase ObjectIteration.

(** ** Messages *)

Record transaction_header := mk_transaction_header {
  payer : bytes;
  payee : bytes;
  nonce : bytes;
  rc_limit : Z;
  transaction_header_rest : bytes
}.

Record transaction := mk_transaction {
  transaction_id : bytes;
  header : transaction_header;
  transaction_rest : bytes
}.

Record pending_transaction := mk_pending_transaction {
  transaction_of : transaction;
  disk_storage_used : Z;
  network_bandwidth_used : Z;
  compute_bandwidth_used : Z;
  system_disk_storage_used : Z;
  system_network_bandwidth_used : Z;
  system_compute_bandwidth_used : Z
}.

Record pending_transaction_record := mk_pending_transaction_record {
  pending_transaction_of : pending_transaction;
  timestamp_ : Z
}.

Record address_resource_record := mk_address_resource_record { max_rc : Z; current_rc : Z }.
Record mempool_metadata := mk_mempool_metadata { seq_num : Z }.

(** [broadcast::block_accepted], with the fields of its block. *)
Record block_accepted := mk_block_accepted {
  block_id : bytes;
  block_previous : bytes;
  block_height : Z;
  block_header_ : block_header;
  block_transactions : list transaction;
  live : bool
}.

Inductive mexn : Type :=
| state_error (e : exn)
| pending_transaction_insertion_failure
| pending_transaction_exceeds_resources
| pending_transaction_request_overflow
| pending_transaction_unlinkable_block
| pending_transaction_unknown_block
| pending_transaction_nonce_conflict
| out_of_range.

#[global] Instance mexn_eq_dec : EqDecision mexn.
Proof. solve_decision. Defined.

Definition undefined_behaviour : mexn := state_error null_dereference.

(** ** What the mempool takes from the koinos libraries

    [converter::as< std::string >] and [converter::to] of the messages it
    stores, of 64-bit integers and of multihashes; the nonce of a
    transaction is a serialized [value_type], of which [uint64_value] is
    read; [convert_to_uint64] is boost's conversion of a 128-bit integer. *)
Class Converters := {
  as_record : pending_transaction_record → bytes;
  to_record : bytes → exn + pending_transaction_record;
  as_resources : address_resource_record → bytes;
  to_resources : bytes → exn + address_resource_record;
  as_metadata : mempool_metadata → bytes;
  to_metadata : bytes → exn + mempool_metadata;
  as_uint64 : Z → bytes;
  to_uint64 : bytes → exn + Z;
  nonce_value : bytes → exn + Z;
  as_nonce : Z → bytes;
  to_multihash : bytes → exn + multihash;
  convert_to_uint64 : Z → Z
}.

(** ** The spaces of state.cpp *)

Definition make_space (i : Z) : object_space := mk_object_space false [] i.

Definition mempool_metadata_id : Z := 1.
Definition pending_transaction_id : Z := 2.
Definition transaction_index_id : Z := 3.
Definition address_resources_id : Z := 4.
Definition account_nonce_id : Z := 5.

Definition mempool_metadata_space : object_space := make_space mempool_metadata_id.
Definition pending_transaction_space : object_space := make_space pending_transaction_id.
Definition transaction_index : object_space := make_space transaction_index_id.
Definition address_resources : object_space := make_space address_resources_id.
Definition account_nonce : object_space := make_space account_nonce_id.

Definition max_request_limit : Z := 2000.

(** [try { m } catch( ... ) { h }]. *)
Definition catch_all {S A} (m : prog S mexn A) (h : mexn → prog S mexn A) : prog S mexn A :=
  try_catch m (λ e, if bool_decide (e = undefined_behaviour) then raise e else h e).

#[local] Abbreviation N := (prog heap mexn).

Section OnNode.
Context `{!Crypto} `{!DatabaseKeys} `{!Converter} `{!Converters}.

Definition lift {S A} (m : prog S exn A) : prog S mexn A := λ s,
  match m s with
  | (Ok a, s') => (Ok a, s')
  | (Throw e, s') => (Throw (state_error e), s')
  | (OutOfFuel, s') => (OutOfFuel, s')
  end.

Definition converted {S A} (r : exn + A) : prog S mexn A :=
  match r with inl e => raise (state_error e) | inr a => mret a end.

Definition deref_node {S A} (p : option A) : prog S mexn A :=
  match p with Some a => mret a | None => raise undefined_behaviour end.

(** [std::mismatch( x.begin(), x.end(), y.begin() )]: what is left of both;
    reading past the end of [y] is undefined. *)
Fixpoint mismatch (x y : bytes) : option (bytes * bytes) :=
  match x, y with
  | [], _ => Some ([], y)
  | _ :: _, [] => None
  | a :: x', b :: y' => if bool_decide (a = b) then mismatch x' y' else Some (x, y)
  end.

(** Every loop over objects visits each at most once: the stored keys bound
    its length. *)
Definition all_keys (h : heap) : gset bytes :=
  map_fold (λ _ d keys, match StateDelta._backend d with
                        | Some b => dom (MapBackend._map b) ∪ keys
                        | None => keys
                        end) ∅ (deltas h).

Definition object_fuel : N nat := gets_state (λ h, S (base.size (all_keys h))).

Definition create_account_nonce_key (t : transaction) : N bytes :=
  let account_nonce_bytes :=
    if negb (Z.of_nat (length (payee (header t))) =? 0) then payee (header t) else payer (header t) in
  n ← converted (nonce_value (nonce (header t)));
  let nonce_bytes := as_uint64 n in
  mret (account_nonce_bytes ++ nonce_bytes).

Definition check_pending_account_resources_on_node (node : loc) (payer_ : bytes)
    (max_payer_resources trx_resource_limit : Z) : N bool :=
  obj ← lift (get_object node address_resources payer_);
  match obj with
  | Some obj =>
    arr ← converted (to_resources obj);
    let max_resource_delta := max_payer_resources - max_rc arr in
    let new_resources := current_rc arr + max_resource_delta - trx_resource_limit in
    mret (0 <=? new_resources)
  | None => mret (trx_resource_limit <=? max_payer_resources)
  end.

Definition check_account_nonce_on_node (node : loc) (account_nonce_key : bytes) : N bool :=
  obj ← lift (get_object node account_nonce account_nonce_key);
  mret (bool_decide (obj = None)).

Definition get_reserved_account_rc_from_node (node : loc) (account : bytes) : N Z :=
  obj ← lift (get_object node address_resources account);
  match obj with
  | Some obj => arr ← converted (to_resources obj); mret (u64 (max_rc arr - current_rc arr))
  | None => mret 0
  end.

Definition get_pending_nonce_on_node (node : loc) (account : bytes) : N bytes :=
  let account_nonce_key := account ++ as_uint64 u64_max in
  '(value, key) ← lift (get_prev_object node account_nonce account_nonce_key);
  match (value : option bytes) with
  | None => mret []
  | Some _ =>
    '(rest, rest_key) ← deref_node (mismatch account key);
    if bool_decide (rest ≠ []) then mret []
    else n ← converted (to_uint64 rest_key); mret (as_nonce n)
  end.

Fixpoint count_loop (fuel : nat) (node : loc) (account account_nonce_key : bytes) (count : Z) : N Z :=
  match fuel with
  | O => λ h, (OutOfFuel, h)
  | S fuel =>
    '(value, key) ← lift (get_prev_object node account_nonce account_nonce_key);
    match (value : option bytes) with
    | None => mret count
    | Some _ =>
      '(rest, _) ← deref_node (mismatch account key);
      if bool_decide ((rest : bytes) ≠ []) then mret count
      else count_loop fuel node account key (u64 (count + 1))
    end
  end.

Definition get_pending_transaction_count_on_node (node : loc) (account : bytes) : N Z :=
  let account_nonce_key := account ++ as_uint64 u64_max in
  fuel ← object_fuel;
  count_loop fuel node account account_nonce_key 0.

Definition cleanup_account_resources_on_node (node : loc) (record : pending_transaction_record) : N unit :=
  let transaction := transaction_of (pending_transaction_of record) in
  obj ← lift (get_object node address_resources (payer (header transaction)));
  obj ← deref_node obj;
  arr ← converted (to_resources obj);
  if max_rc arr <=? u64 (current_rc arr + rc_limit (header transaction)) then
    lift (remove_object node address_resources (payer (header transaction)));; mret tt
  else
    let arr := mk_address_resource_record (max_rc arr) (u64 (current_rc arr + rc_limit (header transaction))) in
    lift (put_object node address_resources (payer (header transaction)) (as_resources arr));; mret tt.

(** Removing one transaction: the tail shared by [prune] and
    [remove_pending_transactions_on_node]. *)
Definition remove_transaction (node : loc) (record : pending_transaction_record) (seq id : bytes) : N unit :=
  cleanup_account_resources_on_node node record;;
  lift (remove_object node pending_transaction_space seq);;
  lift (remove_object node transaction_index id);;
  key ← create_account_nonce_key (transaction_of (pending_transaction_of record));
  lift (remove_object node account_nonce key);;
  mret tt.

Fixpoint remove_pending_transactions_on_node (node : option loc) (ids : list bytes) : N Z :=
  match ids with
  | [] => mret 0
  | id :: ids =>
    l ← deref_node node;
    seq_obj ← lift (get_object l transaction_index id);
    match seq_obj with
    | None => remove_pending_transactions_on_node node ids
    | Some seq_obj =>
      ptx_obj ← lift (get_object l pending_transaction_space seq_obj);
      ptx_obj ← deref_node ptx_obj;
      record ← converted (to_record ptx_obj);
      remove_transaction l record seq_obj id;;
      count ← remove_pending_transactions_on_node node ids;
      mret (u64 (1 + count))
    end
  end.

Definition add_pending_transaction_to_node (node : loc) (record : pending_transaction_record)
    (max_payer_rc : Z) : N Z :=
  let transaction := transaction_of (pending_transaction_of record) in
  let limit := rc_limit (header transaction) in
  ok ← check_pending_account_resources_on_node node (payer (header transaction)) max_payer_rc limit;
  assert_that ok pending_transaction_exceeds_resources;;
  obj ← lift (get_object node transaction_index (transaction_id transaction));
  assert_that (bool_decide (obj = None)) pending_transaction_insertion_failure;;
  account_nonce_key ← create_account_nonce_key transaction;
  ok ← check_account_nonce_on_node node account_nonce_key;
  assert_that ok pending_transaction_nonce_conflict;;
  obj ← lift (get_object node mempool_metadata_space []);
  metadata ← (match obj with
              | Some obj => converted (to_metadata obj)
              | None => mret (mk_mempool_metadata 1)
              end);
  let tx_id := seq_num metadata in
  let metadata := mk_mempool_metadata (u64 (seq_num metadata + 1)) in
  lift (put_object node mempool_metadata_space [] (as_metadata metadata));;
  let transaction_index_bytes := as_uint64 tx_id in
  lift (put_object node pending_transaction_space transaction_index_bytes (as_record record));;
  lift (put_object node transaction_index (transaction_id transaction) transaction_index_bytes);;
  obj ← lift (get_object node address_resources (payer (header transaction)));
  '(arr, rc_used) ←
    (match obj with
     | Some obj =>
       arr ← converted (to_resources obj);
       let max_rc_delta := max_payer_rc - max_rc arr in
       let new_rc := current_rc arr + max_rc_delta - limit in
       let arr := mk_address_resource_record max_payer_rc (convert_to_uint64 new_rc) in
       mret (arr, u64 (max_payer_rc - current_rc arr))
     | None => mret (mk_address_resource_record max_payer_rc (u64 (max_payer_rc - limit)), limit)
     end);
  lift (put_object node address_resources (payer (header transaction)) (as_resources arr));;
  lift (put_object node account_nonce account_nonce_key []);;
  mret rc_used.

(** The loop of [get_pending_transactions] by limit. *)
Fixpoint pending_loop (n : nat) (node : loc) (next : bytes) : N (list pending_transaction) :=
  match n with
  | O => mret []
  | S n =>
    '(value, key) ← lift (get_next_object node pending_transaction_space next);
    match (value : option bytes) with
    | None => mret []
    | Some value =>
      record ← converted (to_record value);
      rest ← pending_loop n node key;
      mret (pending_transaction_of record :: rest)
    end
  end.

(** The loop of [get_pending_transactions] by ids. *)
Fixpoint ids_loop (node : loc) (ids : list bytes) : N (list pending_transaction) :=
  match ids with
  | [] => mret []
  | id :: ids =>
    seq_obj ← lift (get_object node transaction_index id);
    match seq_obj with
    | None => ids_loop node ids
    | Some seq_obj =>
      ptx_obj ← lift (get_object node pending_transaction_space seq_obj);
      match ptx_obj with
      | None => ids_loop node ids
      | Some ptx_obj =>
        record ← converted (to_record ptx_obj);
        rest ← ids_loop node ids;
        mret (pending_transaction_of record :: rest)
      end
    end
  end.

(** The loop of [prune] on one node; times in milliseconds, or finer for
    [now] and [expiration], are nanoseconds since the epoch. *)
Definition milliseconds (ms : Z) : Z := i64 ms * 1000000.

Fixpoint prune_loop (fuel : nat) (node : loc) (expiration now count : Z) : N Z :=
  match fuel with
  | O => λ h, (OutOfFuel, h)
  | S fuel =>
    '(ptx_obj, key) ← lift (get_next_object node pending_transaction_space []);
    match (ptx_obj : option bytes) with
    | None => mret count
    | Some ptx_obj =>
      record ← converted (to_record ptx_obj);
      let time := milliseconds (timestamp_ record) in
      if now <? time + expiration then mret count
      else
        remove_transaction node record key (transaction_id (transaction_of (pending_transaction_of record)));;
        prune_loop fuel node expiration now (u64 (count + 1))
    end
  end.

End OnNode.
End Mempool.
