(* ===== verification/MempoolImpl.v ===== *)
(** The mempool over its database: the members of [mempool_impl] that pick
    nodes, in [src/src/koinos/mempool/mempool.cpp].

    An operation takes the database's lock first and holds it throughout, so
    it is one atomic step. *)

From S2P Require Import Prelude Keys MapBackend StateDelta StateNode StateDatabase ObjectIteration Mempool.

Module MempoolImpl.
Import StateDelta StateNode StateDatabase Mempool.

Record mempool_impl := mk_mempool_impl {
  _db : database;
  _relevant_node_mutexes : gset multihash
}.

#[local] Abbreviation M := (prog mempool_impl mexn).

Definition set_db (db : database) (s : mempool_impl) : mempool_impl :=
  mk_mempool_impl db (_relevant_node_mutexes s).
Definition set_mutexes (x : gset multihash) (s : mempool_impl) : mempool_impl :=
  mk_mempool_impl (_db s) x.

(** [get_unique_lock] and [get_shared_lock] return an owned lock. *)
Definition unique_lock : option lock := Some (mk_lock true true).
Definition shared_lock : option lock := Some (mk_lock true true).

Section Impl.
Context `{!Crypto} `{!Disk} `{!DatabaseKeys} `{!Converter} `{!Converters}.

(** Calls on the database and on one of its nodes. *)
Definition on_db {A} (m : prog database exn A) : M A := λ s,
  let (r, db) := lift m (_db s) in (r, set_db db s).

Definition on_node {A} (m : prog heap mexn A) : M A := λ s,
  let (r, h) := m (db_heap (_db s)) in (r, set_db (set_heap h (_db s)) s).

Definition node_id_of (n : state_node) : M multihash := on_db (on_heap (StateDelta.id (_state n))).
Definition node_finalized_of (n : state_node) : M bool := on_db (on_heap (is_finalized (_state n))).

Definition tmp_id (i : multihash) : multihash := hash i.

(** [_relevant_node_mutexes.at( i )]. *)
Definition mutex_at (i : multihash) : M multihash :=
  mutexes ← gets_state _relevant_node_mutexes;
  if bool_decide (i ∈ mutexes) then mret i else raise out_of_range.

Definition relevant_node_with (get_node : multihash → prog database exn (option state_node))
    (get_head : prog database exn state_node) (i : option multihash)
  : M (option state_node * option multihash) :=
  node ← (match i with
          | Some i => on_db (get_node i)
          | None => head ← on_db get_head; mret (Some head)
          end);
  match node with
  | None => mret (None, None)
  | Some node =>
    id ← node_id_of node;
    let relevant_id := tmp_id id in
    node ← on_db (get_node relevant_id);
    relevant_mutex ← mutex_at relevant_id;
    mret (node, Some relevant_mutex)
  end.

(** The two overloads, by kind of lock. *)
Definition relevant_node_shared (i : option multihash) (l : option lock) :=
  relevant_node_with (λ i, get_node_shared i l) (get_head_shared l) i.
Definition relevant_node_unique (i : option multihash) (l : option lock) :=
  relevant_node_with (λ i, get_node_unique i l) (get_head_unique l) i.

(** The constructor; the database starts closed. *)
Definition new (algo : fork_resolution_algorithm) (t : timing) : M unit :=
  on_db (open_algo None (Some (λ _, mret tt)) algo unique_lock);;
  head ← on_db (get_head_unique unique_lock);
  node_id ← node_id_of head;
  let relevant_id := tmp_id node_id in
  on_db (create_writable_node_unique node_id relevant_id default_header unique_lock t);;
  mod_state (λ s, set_mutexes ({[relevant_id]} ∪ _relevant_node_mutexes s) s).

Definition handle_block (bam : block_accepted) (t : timing) : M bool :=
  block_id ← converted (to_multihash (block_id bam));
  previous_id ← converted (to_multihash (block_previous bam));
  applied ← catch_all
    (root ← on_db (get_root_unique unique_lock);
     root_id ← node_id_of root;
     head ← on_db (get_head_unique unique_lock);
     head_id ← node_id_of head;
     let node_id := if bool_decide (root_id ≠ head_id) then tmp_id previous_id else tmp_id root_id in
     node ← on_db (get_node_unique node_id unique_lock);
     match node with
     | None => mret false
     | Some _ =>
       node ← on_db (clone_node_unique node_id block_id (block_header_ bam) unique_lock);
       let ids := transaction_id <$> block_transactions bam in
       on_node (remove_pending_transactions_on_node (_state <$> node) ids);;
       mret true
     end)
    (λ e, on_db (discard_node_unique block_id ∅ unique_lock);; raise e);
  if (applied : bool) then
    on_db (finalize_node_unique block_id unique_lock);;
    let relevant_id := tmp_id block_id in
    on_db (create_writable_node_unique block_id relevant_id default_header unique_lock t);;
    mod_state (λ s, set_mutexes ({[relevant_id]} ∪ _relevant_node_mutexes s) s);;
    mret true
  else mret false.

(** The mutexes whose node is still there. *)
Fixpoint kept_mutexes (ids : list multihash) : M (list multihash) :=
  match ids with
  | [] => mret []
  | i :: ids =>
    node ← on_db (get_node_unique i unique_lock);
    rest ← kept_mutexes ids;
    mret (match node with Some _ => i :: rest | None => rest end)
  end.

Definition handle_irreversibility (topology_id : bytes) : M unit :=
  block_id ← converted (to_multihash topology_id);
  lib ← on_db (get_node_unique block_id unique_lock);
  match lib with
  | None => mret tt
  | Some _ =>
    on_db (commit_node block_id unique_lock);;
    mutexes ← gets_state _relevant_node_mutexes;
    kept ← kept_mutexes (elements mutexes);
    mod_state (set_mutexes (list_to_set kept))
  end.

Definition has_pending_transaction (id : bytes) (block_id : option multihash) : M bool :=
  '(node, mutex) ← relevant_node_shared block_id shared_lock;
  match node with
  | Some node =>
    deref_node mutex;;
    obj ← on_node (lift (get_object (_state node) transaction_index id));
    mret (bool_decide (obj ≠ None))
  | None => mret false
  end.

(** [block_id.reset()] while the root is the head. *)
Definition known_block_id (block_id : option multihash) : M (option multihash) :=
  head ← on_db (get_head_shared shared_lock); head_id ← node_id_of head;
  root ← on_db (get_root_shared shared_lock); root_id ← node_id_of root;
  mret (if bool_decide (head_id = root_id) then None else block_id).

(** A node that must be known, with its mutex locked. *)
Definition locked_node (r : option state_node * option multihash) : M loc :=
  assert_that (bool_decide (is_Some r.1)) pending_transaction_unknown_block;;
  deref_node r.2;;
  n ← deref_node r.1;
  mret (_state n).

Definition get_pending_transactions (limit : Z) (block_id : option multihash) : M (list pending_transaction) :=
  assert_that (limit <=? max_request_limit) pending_transaction_request_overflow;;
  block_id ← known_block_id block_id;
  r ← relevant_node_shared block_id shared_lock;
  node ← locked_node r;
  on_node (pending_loop (Z.to_nat limit) node []).

Definition get_pending_transactions_by_id (ids : list bytes) (block_id : option multihash)
  : M (list pending_transaction) :=
  assert_that (Z.of_nat (length ids) <=? max_request_limit) pending_transaction_request_overflow;;
  block_id ← known_block_id block_id;
  r ← relevant_node_shared block_id shared_lock;
  node ← locked_node r;
  on_node (ids_loop node ids).

Fixpoint reserved_loop (account : bytes) (nodes : list state_node) (pending_rc : Z) : M Z :=
  match nodes with
  | [] => mret pending_rc
  | node :: nodes =>
    rc ← on_node (get_reserved_account_rc_from_node (_state node) account);
    reserved_loop account nodes (Z.max rc pending_rc)
  end.

Definition get_reserved_account_rc (account : bytes) : M Z :=
  nodes ← on_db (get_all_nodes_shared shared_lock);
  reserved_loop account nodes 0.

(** The loop over all writable nodes that stops at the first [stop]. *)
Fixpoint any_node (check : loc → prog heap mexn bool) (stop : bool) (nodes : list state_node) : M bool :=
  match nodes with
  | [] => mret (negb stop)
  | node :: nodes =>
    finalized ← node_finalized_of node;
    if (finalized : bool) then any_node check stop nodes
    else
      id ← node_id_of node;
      mutex_at id;;
      b ← on_node (check (_state node));
      if bool_decide (b = stop) then mret stop else any_node check stop nodes
  end.

Definition check_pending_account_resources (payer_ : bytes) (max_payer_resources trx_resource_limit : Z)
    (block_id : option multihash) : M bool :=
  let check node := check_pending_account_resources_on_node node payer_ max_payer_resources trx_resource_limit in
  match block_id with
  | Some _ =>
    r ← relevant_node_shared block_id shared_lock;
    node ← locked_node r;
    on_node (check node)
  | None =>
    nodes ← on_db (get_all_nodes_shared shared_lock);
    any_node check false nodes
  end.

Definition check_account_nonce (payee_ nonce_ : bytes) (block_id : option multihash) : M bool :=
  n ← converted (nonce_value nonce_);
  let account_nonce_key := payee_ ++ as_uint64 n in
  let check node := check_account_nonce_on_node node account_nonce_key in
  match block_id with
  | Some _ =>
    r ← relevant_node_shared block_id shared_lock;
    node ← locked_node r;
    on_node (check node)
  | None =>
    nodes ← on_db (get_all_nodes_shared shared_lock);
    any_node check true nodes
  end.

(** The relevant node of a block, of the head's when none is given. *)
Definition relevant_or_head (block_id : option multihash) : M loc :=
  r ← (match block_id with
       | Some _ => relevant_node_shared block_id shared_lock
       | None =>
         head ← on_db (get_head_shared shared_lock);
         head_id ← node_id_of head;
         relevant_node_shared (Some head_id) shared_lock
       end);
  locked_node r.

Definition get_pending_nonce (account : bytes) (block_id : option multihash) : M bytes :=
  node ← relevant_or_head block_id; on_node (get_pending_nonce_on_node node account).

Definition get_pending_transaction_count (account : bytes) (block_id : option multihash) : M Z :=
  node ← relevant_or_head block_id; on_node (get_pending_transaction_count_on_node node account).

(** The loop over all nodes of [add_pending_transaction]: the sessions, the
    resources used on the head, and whether a node took the transaction. *)
Fixpoint add_loop (record : pending_transaction_record) (max_payer_rc : Z) (tmp_head : option state_node)
    (nodes : list state_node) (sessions : list abstract_state_node) (rc_used : Z) (trx_added : bool)
  : M (list abstract_state_node * Z * bool) :=
  match nodes with
  | [] => mret (sessions, rc_used, trx_added)
  | state_node :: nodes =>
    finalized ← node_finalized_of state_node;
    if (finalized : bool) then add_loop record max_payer_rc tmp_head nodes sessions rc_used trx_added
    else
      node ← on_db (on_heap (create_anonymous_node (StateNode (_state state_node))));
      let sessions := sessions ++ [node] in
      '(rc_used, trx_added) ← try_catch
        (rc ← on_node (add_pending_transaction_to_node (state_of node) record max_payer_rc);
         id ← node_id_of state_node;
         head ← deref_node tmp_head;
         head_id ← node_id_of head;
         mret (if bool_decide (id = head_id) then rc else rc_used, true))
        (λ e, if bool_decide (e = pending_transaction_nonce_conflict) then mret (rc_used, trx_added) else raise e);
      add_loop record max_payer_rc tmp_head nodes sessions rc_used trx_added
  end.

Fixpoint commit_loop (sessions : list abstract_state_node) : M unit :=
  match sessions with
  | [] => mret tt
  | session :: sessions =>
    id ← on_db (on_heap (StateNode.node_id session));
    mutex_at id;;
    on_db (on_heap (anonymous_commit session));;
    commit_loop sessions
  end.

Definition add_pending_transaction (pending_trx : pending_transaction) (time max_payer_rc : Z) : M Z :=
  nodes ← on_db (get_all_nodes_unique unique_lock);
  head ← on_db (get_head_unique unique_lock);
  head_id ← node_id_of head;
  '(tmp_head, head_mutex) ← relevant_node_unique (Some head_id) unique_lock;
  deref_node head_mutex;;
  let record := mk_pending_transaction_record pending_trx (u64 (Z.quot time 1000000)) in
  '(sessions, rc_used, trx_added) ← add_loop record max_payer_rc tmp_head nodes [] 0 false;
  assert_that trx_added pending_transaction_nonce_conflict;;
  commit_loop sessions;;
  mret rc_used.

(** The loop of [remove_pending_transactions] and [prune] over the fork
    heads; the result is that of the head's node. *)
Fixpoint fork_loop (body : option loc → prog heap mexn Z) (head_id : multihash) (nodes : list state_node)
    (count : Z) : M Z :=
  match nodes with
  | [] => mret count
  | block_node :: nodes =>
    id ← node_id_of block_node;
    '(node, mutex) ← relevant_node_unique (Some id) unique_lock;
    deref_node mutex;;
    n ← on_node (body (_state <$> node));
    fork_loop body head_id nodes (if bool_decide (id = head_id) then n else count)
  end.

Definition remove_pending_transactions (ids : list bytes) : M Z :=
  nodes ← on_db (get_fork_heads_unique unique_lock);
  head ← on_db (get_head_unique unique_lock);
  head_id ← node_id_of head;
  fork_loop (λ node, remove_pending_transactions_on_node node ids) head_id nodes 0.

Definition prune (expiration now : Z) : M Z :=
  nodes ← on_db (get_fork_heads_unique unique_lock);
  head ← on_db (get_head_unique unique_lock);
  head_id ← node_id_of head;
  fork_loop (λ node, l ← deref_node node; fuel ← object_fuel; prune_loop fuel l expiration now 0)
    head_id nodes 0.

End Impl.
End MempoolImpl.
