(* ===== verification/MempoolAdapter.v ===== *)
(** The mempool behind the node's [IMempool] interface:
    [src/src/mempool/mempool_adapter.hpp]. A request is its fields; a
    response is its only field. *)

From S2P Require Import Prelude Keys MapBackend StateDelta StateNode StateDatabase ObjectIteration Mempool MempoolImpl.

Module MempoolAdapter.
Import StateDatabase Mempool MempoolImpl.

Record get_pending_transactions_request := mk_get_pending_transactions_request {
  limit : Z;
  pending_block_id : bytes
}.

Record check_pending_account_resources_request := mk_check_pending_account_resources_request {
  req_payer : bytes;
  req_max_payer_rc : Z;
  req_rc_limit : Z;
  resources_block_id : bytes
}.

Record check_account_nonce_request := mk_check_account_nonce_request {
  nonce_payee : bytes;
  req_nonce : bytes;
  nonce_block_id : bytes
}.

(** [get_pending_nonce_request] and [get_pending_transaction_count_request]. *)
Record payee_request := mk_payee_request {
  req_payee : bytes;
  payee_block_id : bytes
}.

Record transaction_receipt := mk_transaction_receipt {
  receipt_disk_storage_used : Z;
  receipt_network_bandwidth_used : Z;
  receipt_compute_bandwidth_used : Z;
  receipt_max_payer_rc : Z
}.

Record transaction_accepted := mk_transaction_accepted {
  accepted_transaction : transaction;
  receipt : transaction_receipt;
  accepted_system_disk_storage_used : Z;
  accepted_system_network_bandwidth_used : Z;
  accepted_system_compute_bandwidth_used : Z
}.

#[local] Abbreviation M := (prog mempool_impl mexn).

Section Adapter.
Context `{!Crypto} `{!Disk} `{!DatabaseKeys} `{!Converter} `{!Converters}.

(** An empty id in a request means none. *)
Definition optional_block_id (b : bytes) : M (option multihash) :=
  if bool_decide (b = []) then mret None else i ← converted (to_multihash b); mret (Some i).

Definition get_pending_transactions (req : get_pending_transactions_request) : M (list pending_transaction) :=
  let limit := if 0 <? limit req then limit req else max_request_limit in
  block_id ← optional_block_id (pending_block_id req);
  MempoolImpl.get_pending_transactions limit block_id.

Definition check_pending_account_resources (req : check_pending_account_resources_request) : M bool :=
  block_id ← optional_block_id (resources_block_id req);
  MempoolImpl.check_pending_account_resources (req_payer req) (req_max_payer_rc req) (req_rc_limit req) block_id.

Definition check_account_nonce (req : check_account_nonce_request) : M bool :=
  block_id ← optional_block_id (nonce_block_id req);
  MempoolImpl.check_account_nonce (nonce_payee req) (req_nonce req) block_id.

Definition get_pending_nonce (req : payee_request) : M bytes :=
  block_id ← optional_block_id (payee_block_id req);
  MempoolImpl.get_pending_nonce (req_payee req) block_id.

Definition get_pending_transaction_count (req : payee_request) : M Z :=
  block_id ← optional_block_id (payee_block_id req);
  MempoolImpl.get_pending_transaction_count (req_payee req) block_id.

Definition get_reserved_account_rc (account : bytes) : M Z :=
  MempoolImpl.get_reserved_account_rc account.

Definition pending_of (accepted : transaction_accepted) : pending_transaction :=
  mk_pending_transaction (accepted_transaction accepted)
    (receipt_disk_storage_used (receipt accepted)) (receipt_network_bandwidth_used (receipt accepted))
    (receipt_compute_bandwidth_used (receipt accepted)) (accepted_system_disk_storage_used accepted)
    (accepted_system_network_bandwidth_used accepted) (accepted_system_compute_bandwidth_used accepted).

Definition add_transaction_accepted (accepted : transaction_accepted) (accepted_at : Z) : M Z :=
  add_pending_transaction (pending_of accepted) accepted_at (receipt_max_payer_rc (receipt accepted)).

Definition prune (expiration now : Z) : M Z := MempoolImpl.prune (expiration * 1000000000) now.

End Adapter.
End MempoolAdapter.
