(* ===== verification/MempoolFacts.v ===== *)
(** Programs over one node, reasoned about on the node's view: a triple for
    reads and writes of objects, and the laws the mempool relies on. *)

From S2P Require Import Prelude Storage Keys MapBackend StateDelta StateNode StateDeltaFacts StateDatabase.
From S2P Require Import StateDiscard StateTheorems StateProperties ObjectIteration ObjectIterationTheorems Mempool.
Import StateDelta StateDatabase StateNode ObjectIteration Mempool.

(** The stored messages hold 64-bit fields. *)
Definition record_wf (r : pending_transaction_record) : Prop :=
  is_u64 (timestamp_ r) ∧ is_u64 (rc_limit (header (transaction_of (pending_transaction_of r)))) ∧
  Forall is_u64 [disk_storage_used (pending_transaction_of r); network_bandwidth_used (pending_transaction_of r);
    compute_bandwidth_used (pending_transaction_of r); system_disk_storage_used (pending_transaction_of r);
    system_network_bandwidth_used (pending_transaction_of r); system_compute_bandwidth_used (pending_transaction_of r)].

(** Messages are read back as they were written; an integer is written in
    eight bytes, the most significant first. *)
Class ConvertersLaws `{!Converters} := {
  to_as_record r : record_wf r → to_record (as_record r) = inr r;
  to_as_resources r : is_u64 (max_rc r) → is_u64 (current_rc r) → to_resources (as_resources r) = inr r;
  to_as_metadata r : is_u64 (seq_num r) → to_metadata (as_metadata r) = inr r;
  to_as_uint64 x : is_u64 x → to_uint64 (as_uint64 x) = inr x;
  as_uint64_length x : length (as_uint64 x) = 8%nat;
  as_uint64_lt x y : is_u64 x → is_u64 y → bytes_lt (as_uint64 x) (as_uint64 y) ↔ x < y;
  nonce_value_range b n : nonce_value b = inr n → is_u64 n;
  nonce_value_as n : is_u64 n → nonce_value (as_nonce n) = inr n;
  convert_to_uint64_small x : is_u64 x → convert_to_uint64 x = x
}.

(** The serialization of a database key ends in the key's length and bytes:
    keys of one length are ordered as byte strings, and the empty key is
    written as nothing. *)
Class KeyOrder `{!DatabaseKeys} := {
  key_order sp k1 k2 : length k1 = length k2 →
    bytes_lt (key_string (mk_database_key sp k1)) (key_string (mk_database_key sp k2)) ↔ bytes_lt k1 k2;
  key_order_nil sp k : k ≠ [] →
    bytes_lt (key_string (mk_database_key sp [])) (key_string (mk_database_key sp k))
}.

Abbreviation Key sp k := (key_string (mk_database_key sp k)).

Section OnView.
Context `{Hcrypto : !Crypto} `{Hkeys : !DatabaseKeys} `{Hklaws : !DatabaseKeysLaws}.
Context `{Hconv : !Converter} `{!ConverterLaws} `{!SpacesContiguous}.
Implicit Types (h : heap) (m : gmap bytes bytes) (l : loc).

Lemma Key_inj sp k sp' k' : Key sp k = Key sp' k' ↔ sp = sp' ∧ k = k'.
Proof. split; [|by intros [-> ->]]. intros Heq%key_string_inj. by injection Heq. Qed.

Lemma lookup_put m sp k v sp' k' :
  (<[Key sp k := v]> m) !! Key sp' k' = if decide (sp = sp' ∧ k = k') then Some v else m !! Key sp' k'.
Proof.
  destruct (decide _) as [[-> ->]|Hne]; [by rewrite lookup_insert_eq|].
  rewrite lookup_insert_ne; [done|]. by rewrite Key_inj.
Qed.

Lemma lookup_removed m sp k sp' k' :
  delete (Key sp k) m !! Key sp' k' = if decide (sp = sp' ∧ k = k') then None else m !! Key sp' k'.
Proof.
  destruct (decide _) as [[-> ->]|Hne]; [by rewrite lookup_delete_eq|].
  rewrite lookup_delete_ne; [done|]. by rewrite Key_inj.
Qed.

Lemma keys_ok_put m sp k v : keys_ok m → keys_ok (<[Key sp k := v]> m).
Proof. intros Hk ks. rewrite lookup_insert_is_Some. intros [<-|[_ ?]]; [by eexists|by apply Hk]. Qed.

Lemma keys_ok_removed m sp k : keys_ok m → keys_ok (delete (Key sp k) m).
Proof. intros Hk ks. rewrite lookup_delete_is_Some. intros [_ ?]. by apply Hk. Qed.

(** ** The triple *)

(** On a writable node that reads [m], [p] ends with [o] and leaves a node
    that reads [m']; nothing else changes. *)
Definition on_view {A} l m (p : prog heap mexn A) (o : outcome mexn A) m' : Prop :=
  ∀ h d, heap_ok h → view h l = Some m → deltas h !! l = Some d → _finalized d = false → ascends h l →
    ∃ h', p h = (o, h') ∧ writes h l m' h'.

(** On any node that reads [m], [p] ends with [o] and changes nothing. *)
Definition reads_view {A} l m (p : prog heap mexn A) (o : outcome mexn A) : Prop :=
  ∀ h, heap_ok h → view h l = Some m → ascends h l → p h = (o, h).

Lemma writes_refl h l m d : heap_ok h → view h l = Some m → deltas h !! l = Some d → writes h l m h.
Proof.
  intros Hok Hv Hd. destruct (view_inv _ _ _ Hok Hv) as (d' & b & Hd' & Hb & _).
  assert (d' = d) as -> by congruence. exists d, d. rewrite set_delta_id by done.
  split_and!; [done|done|done|by exists b, b|done].
Qed.

Lemma writes_trans h l m1 h1 m2 h2 : writes h l m1 h1 → writes h1 l m2 h2 → writes h l m2 h2.
Proof.
  intros (d & d1 & Hd & -> & Hm1 & (b & b1 & Hb & Hb1 & Hh1) & _) (d1' & d2 & Hd1 & -> & Hm2 & (b1' & b2 & Hb1' & Hb2 & Hh2) & Hv2).
  rewrite set_delta_lookup in Hd1. injection Hd1 as <-. rewrite Hb1 in Hb1'. injection Hb1' as <-.
  rewrite set_delta_twice in *. exists d, d2. split_and!; [done|done| |exists b, b2; split_and!; [done|done|congruence]|done].
  unfold same_meta in *. destruct Hm1 as (? & ? & ? & ? & ?), Hm2 as (? & ? & ? & ? & ?). split_and!; congruence.
Qed.

Lemma writes_delta h l m' h' x d' : writes h l m' h' → deltas h' !! x = Some d' →
  ∃ d, deltas h !! x = Some d ∧ _parent d' = _parent d ∧ _revision d' = _revision d ∧ _finalized d' = _finalized d ∧
    _id d' = _id d.
Proof.
  intros (d & d1 & Hd & -> & (Hp & Hi & Hr & Hf & _) & _) Hx.
  destruct (decide (l = x)) as [<-|Hne].
  - rewrite set_delta_lookup in Hx. injection Hx as <-. by exists d.
  - cbn in Hx. rewrite lookup_insert_ne in Hx by done. by exists d'.
Qed.

Lemma writes_ok h l m' h' : heap_ok h → writes h l m' h' → heap_ok h'.
Proof. intros Hok (d & d1 & Hd & -> & (Hp & _) & _). eapply set_delta_ok; [done..|by left]. Qed.

Lemma writes_ascends h l m' h' x : writes h l m' h' → ascends h x → ascends h' x.
Proof.
  intros Hw Ha y dy p dp Hab Hy Hp Hdp.
  destruct (writes_delta _ _ _ _ _ _ Hw Hy) as (dy0 & Hy0 & Hpy & Hry & _).
  destruct (writes_delta _ _ _ _ _ _ Hw Hdp) as (dp0 & Hp0 & _ & Hrp & _).
  rewrite Hry, Hrp. eapply Ha; [|exact Hy0|rewrite <- Hpy; exact Hp|exact Hp0].
  clear -Hab Hw. induction Hab as [|z dz q Hz Hq _ IH]; [constructor|].
  destruct (writes_delta _ _ _ _ _ _ Hw Hz) as (dz0 & Hz0 & Hpz & _).
  eapply above_child; [exact Hz0|by rewrite <- Hpz|done].
Qed.

(** What a write leaves of the conditions of the triple. *)
Lemma writes_pre h l d m' h' : heap_ok h → writes h l m' h' → deltas h !! l = Some d → _finalized d = false →
  ascends h l → heap_ok h' ∧ view h' l = Some m' ∧ ascends h' l ∧
    ∃ d', deltas h' !! l = Some d' ∧ _finalized d' = false.
Proof.
  intros Hok Hw Hd Hf Ha. split_and!; [by eapply writes_ok|by destruct Hw as (? & ? & _ & _ & _ & _ & ?)|by eapply writes_ascends|].
  destruct Hw as (d0 & d1 & Hd0 & -> & (_ & _ & _ & Hf1 & _) & _). exists d1.
  rewrite set_delta_lookup. split; [done|]. congruence.
Qed.

Lemma on_reads {A} l m (p : prog heap mexn A) o : reads_view l m p o → on_view l m p o m.
Proof. intros Hr h d Hok Hv Hd _ Ha. exists h. split; [by apply Hr|by eapply writes_refl]. Qed.

Lemma on_bind {A B} l m (p : prog heap mexn A) (k : A → prog heap mexn B) a m1 o m2 :
  on_view l m p (Ok a) m1 → on_view l m1 (k a) o m2 → on_view l m (p ≫= k) o m2.
Proof.
  intros Hp Hk h d Hok Hv Hd Hf Ha. destruct (Hp h d Hok Hv Hd Hf Ha) as (h1 & Hrun & Hw).
  destruct (writes_pre _ _ _ _ _ Hok Hw Hd Hf Ha) as (Hok1 & Hv1 & Ha1 & d1 & Hd1 & Hf1).
  destruct (Hk h1 d1 Hok1 Hv1 Hd1 Hf1 Ha1) as (h2 & Hrun2 & Hw2).
  exists h2. split; [by rewrite (run_bind_ok _ _ _ _ _ Hrun)|by eapply writes_trans].
Qed.

Lemma on_throw {A B} l m (p : prog heap mexn A) (k : A → prog heap mexn B) e m1 :
  on_view l m p (Throw e) m1 → on_view l m (p ≫= k) (Throw e) m1.
Proof.
  intros Hp h d Hok Hv Hd Hf Ha. destruct (Hp h d Hok Hv Hd Hf Ha) as (h1 & Hrun & Hw).
  exists h1. split; [by rewrite run_bind, Hrun|done].
Qed.

Lemma reads_view_ret {A} l m (a : A) : reads_view l m (mret a) (Ok a).
Proof. done. Qed.

Lemma reads_view_bind {A B} l m (p : prog heap mexn A) (k : A → prog heap mexn B) a o :
  reads_view l m p (Ok a) → reads_view l m (k a) o → reads_view l m (p ≫= k) o.
Proof. intros Hp Hk h Hok Hv Ha. rewrite run_bind, Hp by done. by apply Hk. Qed.

Lemma reads_throw {A B} l m (p : prog heap mexn A) (k : A → prog heap mexn B) e :
  reads_view l m p (Throw e) → reads_view l m (p ≫= k) (Throw e).
Proof. intros Hp h Hok Hv Ha. by rewrite run_bind, Hp by done. Qed.

Lemma reads_get l m sp k : reads_view l m (lift (get_object l sp k)) (Ok (m !! Key sp k)).
Proof. intros h Hok Hv _. unfold lift. by rewrite (run_get_object h l sp k m Hok Hv). Qed.

Lemma reads_next l m sp k : keys_ok m →
  reads_view l m (lift (get_next_object l sp k)) (Ok (next_of m sp k)).
Proof. intros Hkm h Hok Hv Ha. unfold lift. by rewrite (run_get_next h l m sp k Hok Hv Ha Hkm). Qed.

Lemma reads_prev l m sp k : keys_ok m →
  reads_view l m (lift (get_prev_object l sp k)) (Ok (prev_of m sp k)).
Proof. intros Hkm h Hok Hv Ha. unfold lift. by rewrite (run_get_prev h l m sp k Hok Hv Ha Hkm). Qed.

Lemma on_put {A} l m sp k v (p : prog heap mexn A) o m' :
  on_view l (<[Key sp k := v]> m) p o m' → on_view l m (lift (put_object l sp k v);; p) o m'.
Proof.
  intros Hp h d Hok Hv Hd Hf Ha.
  pose proof (put_object_spec h l sp k v m d Hok Hv Hd) as Hput. cbn in Hput. rewrite Hf in Hput.
  destruct Hput as (h1 & Hrun & Hw).
  destruct (writes_pre _ _ _ _ _ Hok Hw Hd Hf Ha) as (Hok1 & Hv1 & Ha1 & d1 & Hd1 & Hf1).
  destruct (Hp h1 d1 Hok1 Hv1 Hd1 Hf1 Ha1) as (h2 & Hrun2 & Hw2).
  exists h2. split; [|by eapply writes_trans]. rewrite run_bind. unfold lift. by rewrite Hrun.
Qed.

Lemma on_remove {A} l m sp k (p : prog heap mexn A) o m' :
  on_view l (delete (Key sp k) m) p o m' → on_view l m (lift (remove_object l sp k);; p) o m'.
Proof.
  intros Hp h d Hok Hv Hd Hf Ha.
  pose proof (remove_object_spec h l sp k false m d Hok Hv Hd) as Hrem. cbn in Hrem. rewrite Hf in Hrem.
  destruct Hrem as (n & h1 & Hrun & _ & Hcase).
  assert (writes h l (delete (Key sp k) m) h1) as Hw.
  { destruct Hcase as [[-> Hnone]|?]; [|done]. rewrite delete_id by done. by eapply writes_refl. }
  destruct (writes_pre _ _ _ _ _ Hok Hw Hd Hf Ha) as (Hok1 & Hv1 & Ha1 & d1 & Hd1 & Hf1).
  destruct (Hp h1 d1 Hok1 Hv1 Hd1 Hf1 Ha1) as (h2 & Hrun2 & Hw2).
  exists h2. split; [|by eapply writes_trans]. rewrite run_bind. unfold lift, remove_object. by rewrite Hrun.
Qed.

Lemma on_ret {A} l m (a : A) : on_view l m (mret a) (Ok a) m.
Proof. apply on_reads, reads_view_ret. Qed.

Lemma on_raise {A} l m e : on_view l m (@raise heap mexn A e) (Throw e) m.
Proof. by apply on_reads. Qed.

(** A read, then the rest. *)
Lemma on_read {A B} l m (p : prog heap mexn A) (k : A → prog heap mexn B) a o m' :
  reads_view l m p (Ok a) → on_view l m (k a) o m' → on_view l m (p ≫= k) o m'.
Proof. intros Hp. apply on_bind. by apply on_reads. Qed.

Lemma on_fetch {B} l m sp k (c : option bytes → prog heap mexn B) o m' :
  on_view l m (c (m !! Key sp k)) o m' → on_view l m (lift (get_object l sp k) ≫= c) o m'.
Proof. apply on_read, reads_get. Qed.

Lemma reads_fetch {B} l m sp k (c : option bytes → prog heap mexn B) o :
  reads_view l m (c (m !! Key sp k)) o → reads_view l m (lift (get_object l sp k) ≫= c) o.
Proof. apply reads_view_bind, reads_get. Qed.

Lemma on_converted {A B} l m (r : exn + A) a (k : A → prog heap mexn B) o m' :
  r = inr a → on_view l m (k a) o m' → on_view l m (converted r ≫= k) o m'.
Proof. intros -> Hk. by apply (on_read l m (converted (inr a)) k a). Qed.

Lemma reads_converted {A B} l m (r : exn + A) a (k : A → prog heap mexn B) o :
  r = inr a → reads_view l m (k a) o → reads_view l m (converted r ≫= k) o.
Proof. intros -> Hk. by apply (reads_view_bind l m (converted (inr a)) k a). Qed.

Lemma on_assert {B} l m (b : bool) e (p : prog heap mexn B) o m' :
  b = true → on_view l m p o m' → on_view l m (assert_that b e;; p) o m'.
Proof. intros -> Hp. by apply (on_read l m (assert_that true e) (λ _, p) tt). Qed.

Lemma on_assert_not {B} l m (b : bool) e (p : prog heap mexn B) :
  b = false → on_view l m (assert_that b e;; p) (Throw e) m.
Proof. intros ->. apply (on_throw l m (assert_that false e) (λ _, p)), on_raise. Qed.

End OnView.
