(* ===== verification/MempoolPool.v ===== *)
(** What a node of the mempool means: the list of its pending transactions,
    oldest first, against the five tables that store it; and its writes. *)

From S2P Require Import Prelude Storage Keys MapBackend StateDelta StateNode StateDeltaFacts StateDatabase.
From S2P Require Import StateDiscard StateTheorems StateProperties ObjectIteration ObjectIterationTheorems Mempool MempoolFacts.
Import StateDelta StateDatabase StateNode ObjectIteration Mempool.

(** ** Tables *)

(** A table holds exactly the pairs of a list. *)
Definition table (f : bytes → option bytes) (L : list (bytes * bytes)) : Prop :=
  ∀ k v, f k = Some v ↔ (k, v) ∈ L.

Lemma table_None f L k : table f L → f k = None ↔ k ∉ L.*1.
Proof.
  intros Ht. rewrite list_elem_of_fmap, eq_None_not_Some. split; intros Hn.
  - intros ([k' v] & -> & Hin). apply Hn. exists v. by apply Ht.
  - intros [v Hv]. apply Hn. exists (k, v). split; [done|]. by apply Ht.
Qed.

Lemma table_Some f L k : table f L → is_Some (f k) ↔ k ∈ L.*1.
Proof.
  intros Ht. rewrite list_elem_of_fmap. split.
  - intros [v Hv]. exists (k, v). split; [done|]. by apply Ht.
  - intros ([k' v] & -> & Hin). exists v. by apply Ht.
Qed.

Lemma table_put f L k v : table f L → k ∉ L.*1 →
  table (λ k', if decide (k = k') then Some v else f k') (L ++ [(k, v)]).
Proof.
  unfold table. intros Ht Hk k' v'. rewrite elem_of_app, list_elem_of_singleton. destruct (decide (k = k')) as [<-|Hne].
  - split; [intros [= ->]; by right|intros [Hin|[= ->]]; [|done]].
    destruct Hk. rewrite list_elem_of_fmap. by exists (k, v').
  - rewrite Ht. split; [by left|intros [?|[= -> _]]; done].
Qed.

Lemma table_removed f A k v B : table f (A ++ (k, v) :: B) → NoDup (A ++ (k, v) :: B).*1 →
  table (λ k', if decide (k = k') then None else f k') (A ++ B).
Proof.
  unfold table. intros Ht Hn k' v'. rewrite fmap_app, fmap_cons in Hn. cbn [fst] in Hn.
  apply NoDup_app in Hn as (_ & HA & [HB _]%NoDup_cons).
  assert (k ∉ A.*1) as HA' by (intros Hin; apply (HA _ Hin); by left).
  destruct (decide (k = k')) as [<-|Hne].
  - split; [done|]. rewrite elem_of_app. intros [Hin|Hin]; exfalso; [apply HA'|apply HB];
      rewrite list_elem_of_fmap; by exists (k, v').
  - rewrite Ht, !elem_of_app, elem_of_cons. split; [intros [?|[[= -> _]|?]]; tauto|tauto].
Qed.

Lemma table_dropped {T} (g : T → bytes * bytes) f A e B : table f (g <$> A ++ e :: B) →
  NoDup (g <$> A ++ e :: B).*1 → table (λ k, if decide ((g e).1 = k) then None else f k) (g <$> A ++ B).
Proof.
  rewrite (fmap_app g A B). replace (g <$> A ++ e :: B) with ((g <$> A) ++ g e :: (g <$> B)) by (by rewrite fmap_app).
  destruct (g e) as [k v]. apply table_removed.
Qed.

Lemma table_ext f g L : (∀ k, f k = g k) → table f L → table g L.
Proof. unfold table. intros Heq Ht k v. by rewrite <- Heq. Qed.

(** ** Pools *)

Definition trx (r : pending_transaction_record) : transaction := transaction_of (pending_transaction_of r).
Definition trx_id (r : pending_transaction_record) : bytes := transaction_id (trx r).
Definition trx_payer (r : pending_transaction_record) : bytes := payer (header (trx r)).
Definition trx_limit (r : pending_transaction_record) : Z := rc_limit (header (trx r)).

(** The account whose nonce a transaction uses. *)
Definition trx_account (r : pending_transaction_record) : bytes :=
  if bool_decide (payee (header (trx r)) = []) then trx_payer r else payee (header (trx r)).

Abbreviation entry := (Z * pending_transaction_record)%type.
Abbreviation pool := (list entry).

(** The resources a pool reserves for a payer. *)
Fixpoint reserved (a : bytes) (P : pool) : Z :=
  match P with
  | [] => 0
  | e :: P => (if bool_decide (trx_payer e.2 = a) then trx_limit e.2 else 0) + reserved a P
  end.

Lemma reserved_app a P Q : reserved a (P ++ Q) = reserved a P + reserved a Q.
Proof. induction P as [|e P IH]; cbn; lia. Qed.

Section Pool.
Context `{Hcrypto : !Crypto} `{Hkeys : !DatabaseKeys} `{Hklaws : !DatabaseKeysLaws}.
Context `{Hconv : !Converter} `{!ConverterLaws} `{!SpacesContiguous} `{!KeyOrder}.
Context `{Hcs : !Converters} `{!ConvertersLaws}.
Implicit Types (h : heap) (m : gmap bytes bytes) (l : loc) (P : pool) (r : pending_transaction_record) (e : entry) (next : Z).

Definition trx_nonce r : Z := match nonce_value (nonce (header (trx r))) with inr n => n | inl _ => 0 end.
Definition trx_key r : bytes := trx_account r ++ as_uint64 (trx_nonce r).

(** A transaction the mempool can hold: its fields fit, it reserves
    resources, and its nonce is a number. *)
Definition good r : Prop :=
  record_wf r ∧ 0 < trx_limit r ∧ ∃ n, nonce_value (nonce (header (trx r))) = inr n.

Definition pending_row e : bytes * bytes := (as_uint64 e.1, as_record e.2).
Definition index_row e : bytes * bytes := (trx_id e.2, as_uint64 e.1).
Definition nonce_row e : bytes * bytes := (trx_key e.2, []).

Record pool_view m P (next : Z) : Prop := {
  pv_keys : keys_ok m;
  pv_next : 1 ≤ next < 2 ^ 64;
  pv_seq : Forall (λ e, 1 ≤ e.1 < next) P;
  pv_sorted : StronglySorted (λ e e', e.1 < e'.1) P;
  pv_good : Forall (λ e, good e.2) P;
  pv_ids : NoDup ((λ e, trx_id e.2) <$> P);
  pv_nonces : NoDup ((λ e, trx_key e.2) <$> P);
  pv_metadata : match m !! Key mempool_metadata_space [] with
                | Some v => v = as_metadata (mk_mempool_metadata next)
                | None => next = 1
                end;
  pv_pending : table (λ k, m !! Key pending_transaction_space k) (pending_row <$> P);
  pv_index : table (λ k, m !! Key transaction_index k) (index_row <$> P);
  pv_nonce : table (λ k, m !! Key account_nonce k) (nonce_row <$> P);
  pv_resources a : match m !! Key address_resources a with
                   | Some v => ∃ arr, v = as_resources arr ∧ is_u64 (max_rc arr) ∧ 0 ≤ current_rc arr ∧
                                      max_rc arr - current_rc arr = reserved a P
                   | None => reserved a P = 0
                   end
}.

Lemma as_uint64_inj x y : is_u64 x → is_u64 y → as_uint64 x = as_uint64 y → x = y.
Proof.
  intros Hx Hy Heq. apply (f_equal to_uint64) in Heq. rewrite !to_as_uint64 in Heq by done. congruence.
Qed.

Lemma run_create_key l m r : good r →
  reads_view l m (create_account_nonce_key (trx r)) (Ok (trx_key r)).
Proof.
  intros (_ & _ & n & Hn). unfold create_account_nonce_key. eapply reads_converted; [exact Hn|].
  unfold trx_key, trx_nonce, trx_account. rewrite Hn.
  replace (negb (Z.of_nat (length (payee (header (trx r)))) =? 0)) with (negb (bool_decide (payee (header (trx r)) = []))).
  - by case_bool_decide.
  - f_equal. destruct (payee (header (trx r))); [done|]. rewrite bool_decide_eq_false_2 by done. cbn. symmetry. apply Z.eqb_neq. lia.
Qed.

Lemma good_limit r : good r → 0 < trx_limit r < 2 ^ 64.
Proof. intros ((_ & Hl & _) & Hp & _). unfold is_u64, trx_limit, trx in *. lia. Qed.

Lemma reserved_nonneg a P : Forall (λ e, good e.2) P → 0 ≤ reserved a P.
Proof.
  induction 1 as [|e P He _ IH]; cbn; [lia|]. pose proof (good_limit _ He). case_bool_decide; lia.
Qed.

Lemma reserved_zero a P : Forall (λ e, good e.2) P → reserved a P = 0 → Forall (λ e, trx_payer e.2 ≠ a) P.
Proof.
  induction 1 as [|e P He HP IH]; cbn; [done|]. intros Hz. pose proof (good_limit _ He).
  pose proof (reserved_nonneg a _ HP). case_bool_decide; [lia|]. constructor; [done|]. apply IH. lia.
Qed.

Lemma pv_u64 m P next e : pool_view m P next → e ∈ P → is_u64 e.1.
Proof. intros Hp He. pose proof (proj1 (Forall_forall _ _) (pv_seq _ _ _ Hp) _ He). pose proof (pv_next _ _ _ Hp). unfold is_u64. cbn in *. lia. Qed.

Lemma pv_rows m P next : pool_view m P next → NoDup (pending_row <$> P).*1.
Proof.
  intros Hp. rewrite <- list_fmap_compose. pose proof (pv_sorted _ _ _ Hp) as Hs.
  assert (∀ e, e ∈ P → is_u64 e.1) as Hu by (intros e; by apply (pv_u64 m P next)).
  clear Hp. induction Hs as [|e P Hs IH Hf]; cbn; [constructor|]. constructor.
  - rewrite list_elem_of_fmap. intros (e' & Heq & He'). apply as_uint64_inj in Heq; [|apply Hu; by left|apply Hu; by right].
    rewrite Forall_forall in Hf. specialize (Hf _ He'). lia.
  - apply IH. intros e' He'. apply Hu. by right.
Qed.

(** ** Lookups after writes *)

Lemma put_same m sp k v k' :
  (<[Key sp k := v]> m) !! Key sp k' = if decide (k = k') then Some v else m !! Key sp k'.
Proof. rewrite lookup_put. destruct (decide (k = k')); [by rewrite decide_True|by rewrite decide_False by tauto]. Qed.

Lemma put_other m sp k v sp' k' : sp ≠ sp' → (<[Key sp k := v]> m) !! Key sp' k' = m !! Key sp' k'.
Proof. intros Hne. rewrite lookup_put. by rewrite decide_False by tauto. Qed.

Lemma removed_same m sp k k' :
  delete (Key sp k) m !! Key sp k' = if decide (k = k') then None else m !! Key sp k'.
Proof. rewrite lookup_removed. destruct (decide (k = k')); [by rewrite decide_True|by rewrite decide_False by tauto]. Qed.

Lemma removed_other m sp k sp' k' : sp ≠ sp' → delete (Key sp k) m !! Key sp' k' = m !! Key sp' k'.
Proof. intros Hne. rewrite lookup_removed. by rewrite decide_False by tauto. Qed.

Lemma space_ne i j : i ≠ j → make_space i ≠ make_space j.
Proof. unfold make_space. intros Hne Heq. by injection Heq. Qed.

#[local] Ltac tables :=
  repeat first [rewrite put_same | rewrite put_other by (apply space_ne; discriminate)
               | rewrite removed_same | rewrite removed_other by (apply space_ne; discriminate)].

(** ** Adding a transaction *)

(** What [add_pending_transaction_to_node] promises on a pool. *)
Definition add_spec P (next : Z) r (max_payer_rc : Z) : outcome mexn Z * pool :=
  if max_payer_rc <? reserved (trx_payer r) P + trx_limit r then (Throw pending_transaction_exceeds_resources, P)
  else if bool_decide (trx_id r ∈ (λ e, trx_id e.2) <$> P) then (Throw pending_transaction_insertion_failure, P)
  else if bool_decide (trx_key r ∈ (λ e, trx_key e.2) <$> P) then (Throw pending_transaction_nonce_conflict, P)
  else (Ok (reserved (trx_payer r) P + trx_limit r), P ++ [(next, r)]).

Lemma run_check m P next l a max limit : pool_view m P next →
  reads_view l m (check_pending_account_resources_on_node l a max limit) (Ok (reserved a P + limit <=? max)).
Proof.
  intros Hp. unfold check_pending_account_resources_on_node. apply reads_fetch.
  pose proof (pv_resources _ _ _ Hp a) as Hr. pose proof (reserved_nonneg a P (pv_good _ _ _ Hp)) as Hn.
  destruct (m !! Key address_resources a) as [v|].
  - destruct Hr as (arr & -> & Hmax & Hcur & Hd). eapply reads_converted.
    { apply to_as_resources; [done|]. unfold is_u64 in *. lia. }
    cbn zeta. replace (0 <=? _) with (reserved a P + limit <=? max); [done|].
    apply eq_bool_prop_intro. rewrite !Is_true_true, !Z.leb_le. lia.
  - rewrite Hr, Z.add_0_l. done.
Qed.

Lemma fmap_rows P : (nonce_row <$> P).*1 = (λ e, trx_key e.2) <$> P ∧ (index_row <$> P).*1 = (λ e, trx_id e.2) <$> P.
Proof. split; by rewrite <- list_fmap_compose. Qed.

Lemma run_check_nonce m P next l k : pool_view m P next →
  reads_view l m (check_account_nonce_on_node l k) (Ok (negb (bool_decide (k ∈ (λ e, trx_key e.2) <$> P)))).
Proof.
  intros Hp. unfold check_account_nonce_on_node. apply reads_fetch.
  pose proof (table_None _ _ k (pv_nonce _ _ _ Hp)) as Hk. rewrite (proj1 (fmap_rows P)) in Hk.
  replace (negb _) with (bool_decide (m !! Key account_nonce k = None)); [apply reads_view_ret|].
  rewrite (bool_decide_ext _ _ Hk). case_bool_decide; case_bool_decide; done.
Qed.

(** The resources after a transaction was added. *)
Definition resources_after P r (max_payer_rc : Z) : address_resource_record :=
  mk_address_resource_record max_payer_rc (max_payer_rc - (reserved (trx_payer r) P + trx_limit r)).

(** The view after a transaction was added. *)
Definition added m P (next : Z) r (max_payer_rc : Z) : gmap bytes bytes :=
  <[Key account_nonce (trx_key r) := []]>
    (<[Key address_resources (trx_payer r) := as_resources (resources_after P r max_payer_rc)]>
      (<[Key transaction_index (trx_id r) := as_uint64 next]>
        (<[Key pending_transaction_space (as_uint64 next) := as_record r]>
          (<[Key mempool_metadata_space [] := as_metadata (mk_mempool_metadata (next + 1))]> m)))).

Lemma added_view m P next r max : pool_view m P next → next + 1 < 2 ^ 64 → good r → is_u64 max →
  reserved (trx_payer r) P + trx_limit r ≤ max →
  trx_id r ∉ (λ e, trx_id e.2) <$> P → trx_key r ∉ (λ e, trx_key e.2) <$> P →
  pool_view (added m P next r max) (P ++ [(next, r)]) (next + 1).
Proof.
  intros Hp Hnext Hg Hmax Hfit Hid Hkey. pose proof (pv_next _ _ _ Hp) as Hn. unfold added.
  split.
  - repeat apply keys_ok_put. apply (pv_keys _ _ _ Hp).
  - lia.
  - apply Forall_app. split; [|apply Forall_singleton; cbn; lia].
    eapply Forall_impl; [apply (pv_seq _ _ _ Hp)|]. cbn. lia.
  - apply StronglySorted_app_2; [|apply (pv_sorted _ _ _ Hp)|by repeat constructor].
    pose proof (pv_seq _ _ _ Hp) as Hseq. rewrite Forall_forall in Hseq.
    intros e e' He ->%list_elem_of_singleton. cbn. apply Hseq in He. cbn in He. lia.
  - apply Forall_app. split; [apply (pv_good _ _ _ Hp)|by apply Forall_singleton].
  - rewrite fmap_app. apply NoDup_app. split_and!; [apply (pv_ids _ _ _ Hp)| |apply NoDup_singleton].
    intros i Hi ->%list_elem_of_singleton. done.
  - rewrite fmap_app. apply NoDup_app. split_and!; [apply (pv_nonces _ _ _ Hp)| |apply NoDup_singleton].
    intros i Hi ->%list_elem_of_singleton. done.
  - tables. by rewrite decide_True.
  - rewrite fmap_app. eapply table_ext; [|apply table_put; [apply (pv_pending _ _ _ Hp)|]]; [intros k; cbn beta; by tables|].
    rewrite <- list_fmap_compose, list_elem_of_fmap. intros (e & Heq & He).
    cbn in Heq. apply as_uint64_inj in Heq; [|unfold is_u64; lia|by eapply pv_u64].
    pose proof (proj1 (Forall_forall _ _) (pv_seq _ _ _ Hp) _ He). cbn in *. lia.
  - rewrite fmap_app. eapply table_ext; [|apply table_put; [apply (pv_index _ _ _ Hp)|]]; [intros k; cbn beta; by tables|].
    by rewrite (proj2 (fmap_rows P)).
  - rewrite fmap_app. eapply table_ext; [|apply table_put; [apply (pv_nonce _ _ _ Hp)|]]; [intros k; cbn beta; by tables|].
    by rewrite (proj1 (fmap_rows P)).
  - intros a. tables. rewrite reserved_app. cbn [reserved snd]. destruct (decide (trx_payer r = a)) as [<-|Hne].
    + eexists. split; [done|]. rewrite bool_decide_eq_true_2 by done. cbn.
      pose proof (reserved_nonneg (trx_payer r) P (pv_good _ _ _ Hp)). pose proof (good_limit _ Hg). split_and!; [done|lia|lia].
    + rewrite bool_decide_eq_false_2 by done. rewrite !Z.add_0_r. apply (pv_resources _ _ _ Hp).
Qed.

Lemma add_run m P next l r max : pool_view m P next → next + 1 < 2 ^ 64 → good r → is_u64 max →
  let m' := match (add_spec P next r max).1 with Ok _ => added m P next r max | _ => m end in
  on_view l m (add_pending_transaction_to_node l r max) (add_spec P next r max).1 m' ∧
  ∃ next', pool_view m' (add_spec P next r max).2 next'.
Proof.
  intros Hp Hnext Hg Hmax. pose proof (reserved_nonneg (trx_payer r) P (pv_good _ _ _ Hp)) as Hn.
  pose proof (good_limit _ Hg) as Hl. pose proof (pv_next _ _ _ Hp) as Hn1.
  unfold add_pending_transaction_to_node, add_spec. fold (trx r) (trx_payer r) (trx_limit r) (trx_id r). cbn zeta.
  rewrite <- (negb_involutive (_ <? _)), <- Z.leb_antisym.
  pose proof (run_check m P next l (trx_payer r) max (trx_limit r) Hp) as Hcheck.
  destruct (reserved (trx_payer r) P + trx_limit r <=? max) eqn:Hfit; cbn [negb fst snd].
  2: { split; [|by eexists]. eapply on_read; [exact Hcheck|]. by apply on_assert_not. }
  pose proof (table_None _ _ (trx_id r) (pv_index _ _ _ Hp)) as Hid. rewrite (proj2 (fmap_rows P)) in Hid.
  case_bool_decide as Hin; cbn [fst snd].
  { split; [|by eexists]. eapply on_read; [exact Hcheck|]. apply on_assert; [done|]. apply on_fetch.
    apply on_assert_not. apply bool_decide_eq_false. tauto. }
  case_bool_decide as Hkey; cbn [fst snd].
  { split; [|by eexists]. eapply on_read; [exact Hcheck|]. apply on_assert; [done|]. apply on_fetch.
    apply on_assert; [by apply bool_decide_eq_true; tauto|]. eapply on_read; [by apply run_create_key|].
    eapply on_read; [by eapply run_check_nonce|]. apply on_assert_not. by rewrite bool_decide_eq_true_2. }
  apply Z.leb_le in Hfit. split; [|eexists; by apply added_view].
  eapply on_read; [exact Hcheck|]. apply on_assert; [done|]. apply on_fetch.
  apply on_assert; [by apply bool_decide_eq_true; tauto|]. eapply on_read; [by apply run_create_key|].
  eapply on_read; [by eapply run_check_nonce|]. apply on_assert; [by rewrite bool_decide_eq_false_2|].
  apply on_fetch.
  eapply (on_read _ _ _ _ (mk_mempool_metadata next)).
  { pose proof (pv_metadata _ _ _ Hp) as Hmeta. destruct (m !! Key mempool_metadata_space []) as [v|]; [|by subst next].
    subst v. rewrite to_as_metadata by (unfold is_u64; cbn; lia). apply reads_view_ret. }
  cbn [seq_num]. rewrite (u64_small (next + 1)) by lia.
  do 3 apply on_put. apply on_fetch. tables.
  eapply (on_read _ _ _ _ (resources_after P r max, reserved (trx_payer r) P + trx_limit r)).
  - pose proof (pv_resources _ _ _ Hp (trx_payer r)) as Hr. unfold is_u64 in *.
    destruct (m !! Key address_resources (trx_payer r)) as [v|].
    + destruct Hr as (arr & -> & ? & ? & ?). eapply reads_converted; [apply to_as_resources; unfold is_u64; lia|].
      cbn zeta. rewrite convert_to_uint64_small by (unfold is_u64; lia). unfold resources_after. cbn [max_rc current_rc].
      rewrite u64_small by lia. replace (current_rc arr + (max - max_rc arr) - trx_limit r)
        with (max - (reserved (trx_payer r) P + trx_limit r)) by lia.
      replace (max - (max - _)) with (reserved (trx_payer r) P + trx_limit r) by lia. apply reads_view_ret.
    + unfold resources_after. rewrite Hr, Z.add_0_l, u64_small by lia. apply reads_view_ret.
  - do 2 apply on_put. apply on_ret.
Qed.

(** ** Removing a transaction *)

(** A good payer has a record while it has a pending transaction. *)
Lemma reserved_mid a A e B : reserved a (A ++ e :: B) =
  (if bool_decide (trx_payer e.2 = a) then trx_limit e.2 else 0) + reserved a (A ++ B).
Proof. rewrite !reserved_app. cbn. lia. Qed.

Lemma pool_drop m m' A e B next : pool_view m (A ++ e :: B) next → keys_ok m' →
  m' !! Key mempool_metadata_space [] = m !! Key mempool_metadata_space [] →
  (∀ k, m' !! Key pending_transaction_space k =
     if decide (as_uint64 e.1 = k) then None else m !! Key pending_transaction_space k) →
  (∀ k, m' !! Key transaction_index k = if decide (trx_id e.2 = k) then None else m !! Key transaction_index k) →
  (∀ k, m' !! Key account_nonce k = if decide (trx_key e.2 = k) then None else m !! Key account_nonce k) →
  (∀ a, match m' !! Key address_resources a with
        | Some v => ∃ arr, v = as_resources arr ∧ is_u64 (max_rc arr) ∧ 0 ≤ current_rc arr ∧
                           max_rc arr - current_rc arr = reserved a (A ++ B)
        | None => reserved a (A ++ B) = 0
        end) → pool_view m' (A ++ B) next.
Proof.
  intros Hp Hk Hmeta Hpend Hidx Hnon Hres. pose proof (pv_rows _ _ _ Hp) as Hrows.
  pose proof (pv_ids _ _ _ Hp) as Hids. pose proof (pv_nonces _ _ _ Hp) as Hns.
  pose proof (pv_seq _ _ _ Hp) as Hseq. pose proof (pv_good _ _ _ Hp) as Hgood. pose proof (pv_sorted _ _ _ Hp) as Hsort.
  assert (A ++ B `sublist_of` A ++ e :: B) as Hsub by (apply sublist_app; [done|by apply sublist_cons]).
  split; [done|apply (pv_next _ _ _ Hp)| | | | | |by rewrite Hmeta; apply (pv_metadata _ _ _ Hp)| | | |done].
  - rewrite Forall_app, Forall_cons in *. tauto.
  - apply StronglySorted_app in Hsort as (Hlt & HA & [HB _]%StronglySorted_inv). apply StronglySorted_app_2; [|done..].
    intros x y Hx Hy. apply Hlt; [done|by right].
  - rewrite Forall_app, Forall_cons in *. tauto.
  - eapply sublist_NoDup; [exact Hids|by apply fmap_sublist].
  - eapply sublist_NoDup; [exact Hns|by apply fmap_sublist].
  - eapply table_ext; [intros k; symmetry; apply Hpend|]. by apply (table_dropped pending_row _ _ _ _ (pv_pending _ _ _ Hp)).
  - eapply table_ext; [intros k; symmetry; apply Hidx|]. apply (table_dropped index_row _ _ _ _ (pv_index _ _ _ Hp)).
    by rewrite (proj2 (fmap_rows _)).
  - eapply table_ext; [intros k; symmetry; apply Hnon|]. apply (table_dropped nonce_row _ _ _ _ (pv_nonce _ _ _ Hp)).
    by rewrite (proj1 (fmap_rows _)).
Qed.

Lemma cleanup_run m A e B next : pool_view m (A ++ e :: B) next →
  ∃ m', (∀ l, on_view l m (cleanup_account_resources_on_node l e.2) (Ok tt) m') ∧ keys_ok m' ∧
    (∀ sp k, sp ≠ address_resources → m' !! Key sp k = m !! Key sp k) ∧
    ∀ a, match m' !! Key address_resources a with
         | Some v => ∃ arr, v = as_resources arr ∧ is_u64 (max_rc arr) ∧ 0 ≤ current_rc arr ∧
                            max_rc arr - current_rc arr = reserved a (A ++ B)
         | None => reserved a (A ++ B) = 0
         end.
Proof.
  intros Hp. pose proof (pv_resources _ _ _ Hp) as Hres. pose proof (pv_good _ _ _ Hp) as Hgood.
  assert (good e.2) as Hg by (by rewrite Forall_app, Forall_cons in Hgood; tauto).
  assert (0 ≤ reserved (trx_payer e.2) (A ++ B)) as Hrest.
  { apply reserved_nonneg. rewrite Forall_app, Forall_cons in *. tauto. }
  pose proof (good_limit _ Hg) as Hl. unfold cleanup_account_resources_on_node.
  fold (trx e.2) (trx_payer e.2) (trx_limit e.2). cbn zeta.
  pose proof (Hres (trx_payer e.2)) as Ha. rewrite reserved_mid, bool_decide_eq_true_2 in Ha by done.
  destruct (m !! Key address_resources (trx_payer e.2)) as [v|] eqn:Hv; [|lia].
  destruct Ha as (arr & -> & Hmax & Hcur & Hd). unfold is_u64 in *.
  assert (u64 (current_rc arr + trx_limit e.2) = current_rc arr + trx_limit e.2) as Hu by (apply u64_small; lia).
  destruct (max_rc arr <=? current_rc arr + trx_limit e.2) eqn:Hle.
  - apply Z.leb_le in Hle. exists (delete (Key address_resources (trx_payer e.2)) m). split_and!.
    + intros l. apply on_fetch. rewrite Hv. eapply (on_read _ _ _ _ (as_resources arr)); [by apply reads_view_ret|].
      eapply on_converted; [apply to_as_resources; unfold is_u64; lia|]. rewrite Hu, (proj2 (Z.leb_le _ _) Hle).
      apply on_remove, on_ret.
    + by apply keys_ok_removed, (pv_keys _ _ _ Hp).
    + intros sp k Hne. by apply removed_other.
    + intros a. rewrite removed_same. specialize (Hres a). rewrite reserved_mid in Hres.
      destruct (decide (trx_payer e.2 = a)) as [<-|Hne]; [lia|]. by rewrite bool_decide_eq_false_2, Z.add_0_l in Hres.
  - apply Z.leb_gt in Hle. exists (<[Key address_resources (trx_payer e.2) :=
      as_resources (mk_address_resource_record (max_rc arr) (current_rc arr + trx_limit e.2))]> m). split_and!.
    + intros l. apply on_fetch. rewrite Hv. eapply (on_read _ _ _ _ (as_resources arr)); [by apply reads_view_ret|].
      eapply on_converted; [apply to_as_resources; unfold is_u64; lia|]. rewrite Hu, (proj2 (Z.leb_gt _ _) Hle).
      apply on_put, on_ret.
    + by apply keys_ok_put, (pv_keys _ _ _ Hp).
    + intros sp k Hne. by apply put_other.
    + intros a. rewrite put_same. specialize (Hres a). rewrite reserved_mid in Hres.
      destruct (decide (trx_payer e.2 = a)) as [<-|Hne]; [|by rewrite bool_decide_eq_false_2, Z.add_0_l in Hres].
      eexists. split; [done|]. cbn. unfold is_u64. lia.
Qed.

Lemma remove_run m A e B next : pool_view m (A ++ e :: B) next →
  ∃ m', (∀ l, on_view l m (remove_transaction l e.2 (as_uint64 e.1) (trx_id e.2)) (Ok tt) m') ∧ pool_view m' (A ++ B) next.
Proof.
  intros Hp. destruct (cleanup_run m A e B next Hp) as (m1 & Hrun & Hk & Hother & Hres).
  assert (good e.2) as Hg by (pose proof (pv_good _ _ _ Hp) as Hgood; rewrite Forall_app, Forall_cons in Hgood; tauto).
  exists (delete (Key account_nonce (trx_key e.2)) (delete (Key transaction_index (trx_id e.2))
    (delete (Key pending_transaction_space (as_uint64 e.1)) m1))). split.
  - intros l. unfold remove_transaction. eapply on_bind; [apply Hrun|]. do 2 apply on_remove.
    eapply on_read; [by apply run_create_key|]. apply on_remove, on_ret.
  - eapply pool_drop; [exact Hp|by repeat apply keys_ok_removed| | | | |]; intros; tables;
      try (rewrite Hother by (apply space_ne; discriminate)); try done. apply Hres.
Qed.

End Pool.
