(* ===== verification/MempoolQueries.v ===== *)
(** The loops of the mempool over one node, against its pool: removals,
    pruning, iteration in order of arrival, nonces and counts. *)

From S2P Require Import Prelude Storage Keys MapBackend StateDelta StateNode StateDeltaFacts StateDatabase.
From S2P Require Import StateDiscard StateTheorems StateProperties ObjectIteration ObjectIterationTheorems Mempool.
From S2P Require Import MempoolFacts MempoolPool.
Import StateDelta StateDatabase StateNode ObjectIteration Mempool.

Section Queries.
Context `{Hcrypto : !Crypto} `{Hkeys : !DatabaseKeys} `{Hklaws : !DatabaseKeysLaws}.
Context `{Hconv : !Converter} `{Hcl : !ConverterLaws} `{Hsc : !SpacesContiguous} `{Hko : !KeyOrder}.
Context `{Hcs : !Converters} `{Hcsl : !ConvertersLaws}.
Implicit Types (h : heap) (m : gmap bytes bytes) (l : loc) (P : pool) (r : pending_transaction_record) (e : entry) (next : Z).

(** ** Lookups *)

Lemma lookup_index m P next i : pool_view m P next →
  match m !! Key transaction_index i with
  | Some v => ∃ A e B, P = A ++ e :: B ∧ trx_id e.2 = i ∧ v = as_uint64 e.1 ∧
      m !! Key pending_transaction_space v = Some (as_record e.2)
  | None => i ∉ (λ e, trx_id e.2) <$> P
  end.
Proof.
  intros Hp. destruct (m !! Key transaction_index i) as [v|] eqn:Hv.
  - apply (pv_index _ _ _ Hp) in Hv. apply list_elem_of_fmap in Hv as (e & [= -> ->] & He).
    pose proof He as (A & B & ->)%list_elem_of_split. exists A, e, B. split_and!; [done..|].
    apply (pv_pending _ _ _ Hp). apply list_elem_of_fmap. by exists e.
  - rewrite <- (proj2 (fmap_rows P)). by apply (table_None _ _ _ (pv_index _ _ _ Hp)).
Qed.

Lemma good_of m P next e : pool_view m P next → e ∈ P → good e.2.
Proof. intros Hp He. exact (proj1 (Forall_forall _ _) (pv_good _ _ _ Hp) _ He). Qed.

Lemma to_record_of m P next e : pool_view m P next → e ∈ P → to_record (as_record e.2) = inr e.2.
Proof. intros Hp He. apply to_as_record. by destruct (good_of _ _ _ _ Hp He) as (? & _). Qed.

Lemma sorted_length P lo hi : StronglySorted (λ e e' : entry, e.1 < e'.1) P → Forall (λ e, lo ≤ e.1 < hi) P →
  lo ≤ hi → lo + Z.of_nat (length P) ≤ hi.
Proof.
  intros Hs. revert lo. induction Hs as [|e P Hs IH Hf]; intros lo Hb Hlo; [cbn; lia|].
  apply Forall_cons in Hb as [He Hb]. assert (e.1 + 1 + Z.of_nat (length P) ≤ hi) as Hle; [|cbn; lia].
  apply IH; [|lia]. rewrite Forall_forall in *. intros x Hx. specialize (Hf _ Hx). specialize (Hb _ Hx). cbn in *. lia.
Qed.

Lemma pool_length m P next : pool_view m P next → Z.of_nat (length P) < 2 ^ 64.
Proof.
  intros Hp. pose proof (pv_next _ _ _ Hp) as Hn.
  pose proof (sorted_length P 1 next (pv_sorted _ _ _ Hp) (pv_seq _ _ _ Hp)). lia.
Qed.

(** ** Removals by id *)

Definition kept (ids : list bytes) P : pool := filter (λ e, trx_id e.2 ∉ ids) P.

Lemma kept_mid ids A e B : NoDup ((λ e, trx_id e.2) <$> A ++ e :: B) →
  kept (trx_id e.2 :: ids) (A ++ e :: B) = kept ids (A ++ B).
Proof.
  intros Hn. unfold kept. rewrite !filter_app, filter_cons_False by (intros Hin; apply Hin; by left).
  rewrite fmap_app, fmap_cons in Hn. apply NoDup_app in Hn as (_ & HA & [HB _]%NoDup_cons).
  f_equal; apply filter_ext_in; intros x Hx; rewrite not_elem_of_cons.
  - split; [tauto|]. intros ?; split; [|done]. intros Heq. apply (HA (trx_id x.2)); [|rewrite Heq; by left].
    rewrite list_elem_of_fmap. by exists x.
  - split; [tauto|]. intros ?; split; [|done]. intros Heq. apply HB. rewrite <- Heq, list_elem_of_fmap. by exists x.
Qed.

Lemma kept_absent i ids P : i ∉ (λ e, trx_id e.2) <$> P → kept (i :: ids) P = kept ids P.
Proof.
  intros Hi. apply filter_ext_in. intros x Hx. rewrite not_elem_of_cons. split; [tauto|]. intros ?; split; [|done].
  intros <-. apply Hi. rewrite list_elem_of_fmap. by exists x.
Qed.

Lemma kept_nil P : kept [] P = P.
Proof. apply filter_all. intros x _ Hin. by apply elem_of_nil in Hin. Qed.

Lemma kept_length ids P : (length (kept ids P) ≤ length P)%nat.
Proof. apply length_filter. Qed.

Lemma remove_ids_run ids m P next : pool_view m P next →
  ∃ m', (∀ l, on_view l m (remove_pending_transactions_on_node (Some l) ids)
                (Ok (Z.of_nat (length P - length (kept ids P)))) m') ∧ pool_view m' (kept ids P) next.
Proof.
  revert m P. induction ids as [|i ids IH]; intros m P Hp.
  { exists m. rewrite kept_nil, Nat.sub_diag. split; [intros l; apply on_ret|done]. }
  cbn [remove_pending_transactions_on_node].
  pose proof (lookup_index _ _ _ i Hp) as Hi. destruct (m !! Key transaction_index i) as [v|] eqn:Hv.
  - destruct Hi as (A & e & B & -> & <- & -> & Hpend).
    destruct (remove_run m A e B next Hp) as (m1 & Hrun & Hp1). destruct (IH m1 _ Hp1) as (m2 & Hrun2 & Hp2).
    rewrite kept_mid by apply (pv_ids _ _ _ Hp). exists m2. split; [|done].
    intros l. eapply on_read; [by apply reads_view_ret|]. apply on_fetch. rewrite Hv. apply on_fetch. rewrite Hpend.
    eapply on_read; [by apply reads_view_ret|]. eapply on_converted.
    { eapply to_record_of; [exact Hp|]. apply elem_of_app. right. by left. }
    eapply on_bind; [apply Hrun|]. eapply on_bind; [apply Hrun2|].
    pose proof (pool_length _ _ _ Hp) as Hlen. rewrite length_app in Hlen. cbn in Hlen.
    pose proof (kept_length ids (A ++ B)) as Hle. rewrite length_app in Hle.
    rewrite !length_app. cbn [length]. rewrite u64_small by lia.
    replace (1 + Z.of_nat _) with (Z.of_nat (length A + S (length B) - length (kept ids (A ++ B)))) by lia. apply on_ret.
  - destruct (IH m P Hp) as (m2 & Hrun2 & Hp2). rewrite kept_absent by done. exists m2. split; [|done].
    intros l. eapply on_read; [by apply reads_view_ret|]. apply on_fetch. by rewrite Hv.
Qed.

(** ** Iteration in order of arrival *)

(** The key to continue from after the entries [A]. *)
Definition cursor_after (A : pool) : bytes := default [] (as_uint64 ∘ fst <$> last A).

Lemma as_uint64_ne x : as_uint64 x ≠ [].
Proof. intros Heq. pose proof (as_uint64_length x) as Hl. by rewrite Heq in Hl. Qed.

Lemma pending_order x y : is_u64 x → is_u64 y →
  bytes_lt (Key pending_transaction_space (as_uint64 x)) (Key pending_transaction_space (as_uint64 y)) ↔ x < y.
Proof. intros Hx Hy. rewrite key_order by by rewrite !as_uint64_length. by apply as_uint64_lt. Qed.

Lemma cursor_order m A B next e : pool_view m (A ++ B) next → e ∈ A ++ B →
  bytes_lt (Key pending_transaction_space (cursor_after A)) (Key pending_transaction_space (as_uint64 e.1)) ↔ e ∈ B.
Proof.
  intros Hp He. pose proof (pv_sorted _ _ _ Hp) as Hs. apply StronglySorted_app in Hs as (Hlt & HA & _).
  unfold cursor_after. destruct (last A) as [a|] eqn:Hl; cbn.
  - pose proof Hl as [A' ->]%last_Some. rewrite pending_order; [| |by eapply pv_u64].
    2: { eapply pv_u64; [exact Hp|]. rewrite !elem_of_app. left. right. by left. }
    apply elem_of_app in He as [He|He].
    + assert (¬ a.1 < e.1) as Hn.
      { apply elem_of_app in He as [He| ->%list_elem_of_singleton]; [|lia].
        apply StronglySorted_app in HA as (H1 & _ & _). specialize (H1 e a He ltac:(by left)). cbn in H1. lia. }
      split; [done|]. intros HB. specialize (Hlt e e He HB). cbn in Hlt. lia.
    + split; [done|]. intros _. apply (Hlt a e); [|done]. apply elem_of_app. right. by left.
  - apply last_None in Hl as ->. split; [done|]. intros _. apply key_order_nil, as_uint64_ne.
Qed.

Lemma next_pending m A B next : pool_view m (A ++ B) next →
  next_of m pending_transaction_space (cursor_after A) =
  match B with [] => (None, null_key) | e :: _ => (Some (as_record e.2), as_uint64 e.1) end.
Proof.
  intros Hp. pose proof (next_result m pending_transaction_space (cursor_after A) (pv_keys _ _ _ Hp)) as Hr.
  set (o := next_of _ _ _) in *. destruct o as [[v|] k]; unfold next_in in Hr; cbn [fst snd] in Hr.
  - destruct Hr as (Hv & Hlt & Hle). apply (pv_pending _ _ _ Hp) in Hv.
    apply list_elem_of_fmap in Hv as (e & [= -> ->] & He).
    apply (cursor_order m A B next e Hp He) in Hlt. destruct B as [|e0 B]; [by apply elem_of_nil in Hlt|].
    assert (e0 ∈ A ++ e0 :: B) as He0 by (apply elem_of_app; right; by left).
    assert (e = e0) as ->; [|done]. apply elem_of_cons in Hlt as [->|HeB]; [done|]. exfalso.
    specialize (Hle (as_uint64 e0.1)). apply bytes_le_lt in Hle as [Heq%Key_inj|Hlt].
    + destruct Heq as [_ Heq]. apply as_uint64_inj in Heq; [|by eapply pv_u64..].
      pose proof (pv_sorted _ _ _ Hp) as Hs. apply StronglySorted_app_1_r in Hs.
      apply StronglySorted_inv in Hs as [_ Hf]. rewrite Forall_forall in Hf. specialize (Hf _ HeB). cbn in Hf. lia.
    + apply pending_order in Hlt; [|by eapply pv_u64..].
      pose proof (pv_sorted _ _ _ Hp) as Hs. apply StronglySorted_app_1_r in Hs.
      apply StronglySorted_inv in Hs as [_ Hf]. rewrite Forall_forall in Hf. specialize (Hf _ HeB). cbn in Hf. lia.
    + eexists. apply (pv_pending _ _ _ Hp). apply list_elem_of_fmap. by exists e0.
    + apply (cursor_order m A (e0 :: B) next e0 Hp He0). by left.
  - destruct Hr as [-> Hnone]. destruct B as [|e0 B]; [done|]. exfalso.
    assert (e0 ∈ A ++ e0 :: B) as He0 by (apply elem_of_app; right; by left).
    apply (Hnone (as_uint64 e0.1)).
    + eexists. apply (pv_pending _ _ _ Hp). apply list_elem_of_fmap. by exists e0.
    + apply (cursor_order m A (e0 :: B) next e0 Hp He0). by left.
Qed.

Lemma cursor_snoc A e : cursor_after (A ++ [e]) = as_uint64 e.1.
Proof. unfold cursor_after. by rewrite last_snoc. Qed.

Lemma pending_loop_run m l n A B next : pool_view m (A ++ B) next →
  reads_view l m (pending_loop n l (cursor_after A)) (Ok ((λ e, pending_transaction_of e.2) <$> take n B)).
Proof.
  revert A B. induction n as [|n IH]; intros A B Hp; [apply reads_view_ret|]. cbn [pending_loop].
  eapply reads_view_bind; [apply reads_next, (pv_keys _ _ _ Hp)|]. rewrite (next_pending m A B next Hp).
  destruct B as [|e B]; [apply reads_view_ret|].
  eapply reads_converted; [eapply to_record_of; [exact Hp|apply elem_of_app; right; by left]|].
  rewrite <- (cursor_snoc A e). eapply reads_view_bind; [apply (IH (A ++ [e]) B); by rewrite <- app_assoc|]. apply reads_view_ret.
Qed.

Lemma ids_loop_run m l ids P next : pool_view m P next →
  reads_view l m (ids_loop l ids)
    (Ok (omap (λ i, (λ e, pending_transaction_of e.2) <$> head (filter (λ e, trx_id e.2 = i) P)) ids)).
Proof.
  intros Hp. induction ids as [|i ids IH]; [apply reads_view_ret|]. cbn [ids_loop omap list_omap].
  apply reads_fetch. pose proof (lookup_index _ _ _ i Hp) as Hi.
  destruct (m !! Key transaction_index i) as [v|] eqn:Hv.
  - destruct Hi as (A & e & B & -> & <- & -> & Hpend). apply reads_fetch. rewrite Hpend.
    eapply reads_converted; [eapply to_record_of; [exact Hp|apply elem_of_app; right; by left]|].
    assert (filter (λ e', trx_id e'.2 = trx_id e.2) A = []) as HA.
    { pose proof (pv_ids _ _ _ Hp) as Hn. rewrite fmap_app in Hn. apply NoDup_app in Hn as (_ & HA & _).
      destruct (filter _ A) as [|x F] eqn:Hf; [done|]. exfalso.
      assert (x ∈ filter (λ e', trx_id e'.2 = trx_id e.2) A) as [Hx HxA]%list_elem_of_filter by (rewrite Hf; by left).
      apply (HA (trx_id x.2)); [rewrite list_elem_of_fmap; by exists x|]. rewrite Hx, fmap_cons. by left. }
    rewrite filter_app, HA, filter_cons_True by done. cbn [app head fmap option_fmap option_map].
    eapply reads_view_bind; [exact IH|apply reads_view_ret].
  - assert (filter (λ e, trx_id e.2 = i) P = []) as ->; [|done].
    destruct (filter _ P) as [|x F] eqn:Hf; [done|]. exfalso.
    assert (x ∈ filter (λ e, trx_id e.2 = i) P) as [Hx HxA]%list_elem_of_filter by (rewrite Hf; by left).
    apply Hi. rewrite list_elem_of_fmap. by exists x.
Qed.

(** ** Pruning *)

Definition expired (expiration now : Z) r : bool := negb (now <? milliseconds (timestamp_ r) + expiration).

Fixpoint pruned (expiration now : Z) P : pool :=
  match P with
  | [] => []
  | e :: P' => if expired expiration now e.2 then pruned expiration now P' else P
  end.

Lemma pruned_length x now P : (length (pruned x now P) ≤ length P)%nat.
Proof. induction P as [|e P IH]; cbn; [done|]. destruct (expired _ _ _); cbn; lia. Qed.

Lemma prune_run x now m P next : pool_view m P next →
  ∃ m', (∀ l fuel c, (length P < fuel)%nat → 0 ≤ c → c + Z.of_nat (length P) < 2 ^ 64 →
           on_view l m (prune_loop fuel l x now c) (Ok (c + Z.of_nat (length P - length (pruned x now P)))) m') ∧
    pool_view m' (pruned x now P) next.
Proof.
  revert m. induction P as [|e P IH]; intros m Hp; pose proof (next_pending m [] _ next Hp) as Hnext;
    change (cursor_after []) with (@nil ascii) in Hnext; pose proof (reads_next (Hconv := Hconv)) as Hread.
  { exists m. split; [|done]. intros l [|fuel] c Hf Hc0 Hc; [lia|]. cbn [prune_loop].
    eapply on_read; [apply Hread, (pv_keys _ _ _ Hp)|]. rewrite Hnext, Z.add_0_r. apply on_ret. }
  cbn [pruned]. destruct (expired x now e.2) eqn:Hex; unfold expired in Hex.
  - apply negb_true_iff in Hex. destruct (remove_run m [] e P next Hp) as (m1 & Hrun & Hp1).
    destruct (IH m1 Hp1) as (m2 & Hrun2 & Hp2). exists m2. split; [|done].
    intros l [|fuel] c Hf Hc0 Hc; [lia|]. cbn [length] in Hf, Hc. cbn [prune_loop].
    eapply on_read; [apply Hread, (pv_keys _ _ _ Hp)|]. rewrite Hnext.
    eapply on_converted; [eapply to_record_of; [exact Hp|by left]|]. cbn zeta.
    rewrite Hex. eapply on_bind; [apply Hrun|]. rewrite u64_small by lia. pose proof (pruned_length x now P). cbn [length].
    replace (c + Z.of_nat _) with (c + 1 + Z.of_nat (length P - length (pruned x now P))) by lia. apply Hrun2; lia.
  - apply negb_false_iff in Hex. exists m. split; [|done]. intros l [|fuel] c Hf Hc0 Hc; [lia|]. cbn [prune_loop].
    eapply on_read; [apply Hread, (pv_keys _ _ _ Hp)|]. rewrite Hnext.
    eapply on_converted; [eapply to_record_of; [exact Hp|by left]|]. cbn zeta.
    rewrite Hex, Nat.sub_diag, Z.add_0_r. apply on_ret.
Qed.

(** A view holds one pool. *)
Lemma pool_unique m P Q next next' : pool_view m P next → pool_view m Q next' → P = Q.
Proof.
  intros HP HQ.
  assert (∀ P Q n n', pool_view m P n → pool_view m Q n' → ∀ e, e ∈ P → e ∈ Q) as Hsub.
  { clear P Q next next' HP HQ. intros P Q n n' HP HQ e He.
    assert ((as_uint64 e.1, as_record e.2) ∈ pending_row <$> Q) as Hin.
    { apply (pv_pending _ _ _ HQ), (pv_pending _ _ _ HP), list_elem_of_fmap. by exists e. }
    apply list_elem_of_fmap in Hin as (e' & [= Hs Hr] & He'). apply as_uint64_inj in Hs; [|by apply (pv_u64 m P n)|by apply (pv_u64 m Q n')].
    apply (f_equal to_record) in Hr. rewrite (to_record_of _ _ _ _ HP He), (to_record_of _ _ _ _ HQ He') in Hr.
    injection Hr as Hr. assert (e = e') as ->; [|done]. destruct e, e'; cbn in *; congruence. }
  assert (∀ P n, pool_view m P n → NoDup P) as Hnd.
  { intros P0 n HP0. apply (NoDup_fmap_1 (λ e, trx_id e.2)), (pv_ids _ _ _ HP0). }
  apply (StronglySorted_unique_strong (λ e e', e.1 < e'.1)); [|apply HP|apply HQ|].
  - intros x y _ _ H1 H2. lia.
  - apply NoDup_Permutation; [by eapply Hnd|by eapply Hnd|]. intros e. split; by eapply Hsub.
Qed.

(** ** Fuel *)

Lemma all_keys_elem h x d b k : deltas h !! x = Some d → _backend d = Some b → is_Some (MapBackend._map b !! k) →
  k ∈ all_keys h.
Proof.
  unfold all_keys. revert x. apply (map_fold_weak_ind (λ keys ds, ∀ x, ds !! x = Some d → _backend d = Some b →
    is_Some (MapBackend._map b !! k) → k ∈ keys)).
  - intros x Hx. by rewrite lookup_empty in Hx.
  - intros y dy ds keys Hy IH x Hx Hb Hk. apply lookup_insert_Some in Hx as [[<- <-]|[_ Hx]].
    + rewrite Hb. apply elem_of_union_l. by apply elem_of_dom.
    + specialize (IH x Hx Hb Hk). destruct (_backend dy); [by apply elem_of_union_r|done].
Qed.

Lemma view_all_keys h l m : heap_ok h → view h l = Some m → dom m ⊆ all_keys h.
Proof.
  intros Hok. revert m. induction l as [l IH] using loc_ind. intros m Hv k [v Hk]%elem_of_dom.
  destruct (view_inv _ _ _ Hok Hv) as (d & b & Hd & Hb & Hm). destruct (_parent d) as [p|] eqn:Hp.
  - destruct Hm as (mp & Hvp & ->). rewrite overlay_lookup in Hk.
    destruct (MapBackend._map b !! k) eqn:Hbk; [eapply all_keys_elem; eauto|]. case_bool_decide; [done|].
    destruct (heap_parent _ Hok _ _ _ Hd Hp) as [Hlt _]. apply (IH p Hlt mp Hvp). by apply elem_of_dom_2 in Hk.
  - subst m. eapply all_keys_elem; eauto.
Qed.

Lemma reads_fuel {A} l m (k : nat → prog heap mexn A) o :
  (∀ fuel, (base.size m < fuel)%nat → reads_view l m (k fuel) o) → reads_view l m (object_fuel ≫= k) o.
Proof.
  intros Hk h Hok Hv Ha. unfold object_fuel. rewrite run_bind. apply Hk; [|done..].
  pose proof (subseteq_size _ _ (view_all_keys _ _ _ Hok Hv)) as Hs. rewrite size_dom in Hs. lia.
Qed.

Lemma on_fuel {A} l m (k : nat → prog heap mexn A) o m' :
  (∀ fuel, (base.size m < fuel)%nat → on_view l m (k fuel) o m') → on_view l m (object_fuel ≫= k) o m'.
Proof.
  intros Hk h d Hok Hv Hd Hf Ha. unfold object_fuel. rewrite run_bind. eapply Hk; [|done..].
  pose proof (subseteq_size _ _ (view_all_keys _ _ _ Hok Hv)) as Hs. rewrite size_dom in Hs. lia.
Qed.

(** A table with distinct keys is no longer than the view. *)
Lemma table_size m sp L : table (λ k, m !! Key sp k) L → NoDup L.*1 → (length L ≤ base.size m)%nat.
Proof.
  intros Ht Hn. rewrite <- size_dom, <- (length_fmap fst L).
  rewrite <- (length_fmap (λ k, Key sp k) L.*1). rewrite <- (size_list_to_set (C := gset bytes)).
  - apply subseteq_size. intros k Hk%elem_of_list_to_set. apply list_elem_of_fmap in Hk as (k' & -> & Hk').
    apply elem_of_dom. by apply (table_Some _ _ _ Ht).
  - apply NoDup_fmap_2; [|done]. intros k k' Heq%Key_inj. tauto.
Qed.

(** Pruning with enough fuel. *)
Lemma prune_fuel_run x now m P next : pool_view m P next →
  ∃ m', (∀ l, on_view l m (fuel ← object_fuel; prune_loop fuel l x now 0)
                (Ok (Z.of_nat (length P - length (pruned x now P)))) m') ∧ pool_view m' (pruned x now P) next.
Proof.
  intros Hp. destruct (prune_run x now m P next Hp) as (m' & Hrun & Hp'). exists m'. split; [|done].
  intros l. apply on_fuel. intros fuel Hfuel. pose proof (pool_length _ _ _ Hp).
  pose proof (table_size m _ _ (pv_nonce _ _ _ Hp)) as Hsize. rewrite (proj1 (fmap_rows P)), length_fmap in Hsize.
  specialize (Hsize (pv_nonces _ _ _ Hp)). apply (Hrun l fuel 0); lia.
Qed.

(** ** Nonces *)

Definition nonces_of (a : bytes) P : list Z := (λ e, trx_nonce e.2) <$> filter (λ e, trx_account e.2 = a) P.

Lemma nonces_elem a P n : n ∈ nonces_of a P ↔ ∃ e, e ∈ P ∧ trx_account e.2 = a ∧ trx_nonce e.2 = n.
Proof.
  unfold nonces_of. rewrite list_elem_of_fmap. setoid_rewrite list_elem_of_filter. naive_solver.
Qed.

Lemma nonce_u64 r : good r → is_u64 (trx_nonce r).
Proof. intros (_ & _ & n & Hn). unfold trx_nonce. rewrite Hn. by eapply nonce_value_range. Qed.

Lemma nonces_u64 m P next a n : pool_view m P next → n ∈ nonces_of a P → is_u64 n.
Proof. intros Hp (e & He & _ & <-)%nonces_elem. apply nonce_u64. by eapply good_of. Qed.

Lemma nonces_NoDup m P next a : pool_view m P next → NoDup (nonces_of a P).
Proof.
  intros Hp. unfold nonces_of. pose proof (pv_nonces _ _ _ Hp) as Hn. clear Hp.
  induction P as [|e P IH]; [constructor|]. rewrite fmap_cons in Hn. apply NoDup_cons in Hn as [Hin Hn].
  rewrite filter_cons. destruct (decide _) as [<-|_]; [|by apply IH]. rewrite fmap_cons. apply NoDup_cons.
  split; [|by apply IH]. rewrite list_elem_of_fmap. intros (x & Hx & [Ha Hxp]%list_elem_of_filter).
  apply Hin. rewrite list_elem_of_fmap. exists x. unfold trx_key. by rewrite Hx, Ha.
Qed.

Lemma mismatch_prefix a b : mismatch a (a ++ b) = Some ([], b).
Proof. induction a as [|c a IH]; [by destruct b|]. cbn. by rewrite bool_decide_eq_true_2. Qed.

Lemma mismatch_differ a a' b : length a = length a' → a ≠ a' → ∃ x y, mismatch a (a' ++ b) = Some (x, y) ∧ x ≠ [].
Proof.
  revert a'. induction a as [|c a IH]; intros [|c' a'] Hl Hne; try done. cbn in *. case_bool_decide as Hc.
  - subst c'. apply IH; [lia|congruence].
  - by eexists _, _.
Qed.

(** All accounts of the pool are as long as [a]. *)
Definition same_length (a : bytes) P : Prop := ∀ e, e ∈ P → length (trx_account e.2) = length a.

Lemma nonce_order a P m next e n : pool_view m P next → same_length a P → e ∈ P →
  bytes_lt (Key account_nonce (trx_key e.2)) (Key account_nonce (a ++ as_uint64 n)) ↔
  bytes_lt (trx_key e.2) (a ++ as_uint64 n).
Proof. intros Hp Hs He. apply key_order. unfold trx_key. by rewrite !length_app, !as_uint64_length, Hs. Qed.

Lemma prev_nonce m P next a x : pool_view m P next → same_length a P → is_u64 x →
  match prev_of m account_nonce (a ++ as_uint64 x) with
  | (None, _) => ∀ n, n ∈ nonces_of a P → ¬ n < x
  | (Some _, k) =>
    (∃ n, n ∈ nonces_of a P ∧ n < x ∧ (∀ n', n' ∈ nonces_of a P → n' < x → n' ≤ n) ∧ k = a ++ as_uint64 n) ∨
    (∀ n, n ∈ nonces_of a P → ¬ n < x) ∧ ∃ rest y, mismatch a k = Some (rest, y) ∧ rest ≠ []
  end.
Proof.
  intros Hp Hs Hx. pose proof (prev_result m account_nonce (a ++ as_uint64 x) (pv_keys _ _ _ Hp)) as Hr.
  assert (∀ e, e ∈ P → is_Some (m !! Key account_nonce (trx_key e.2))) as Hin.
  { intros e He. eexists. apply (pv_nonce _ _ _ Hp). apply list_elem_of_fmap. by exists e. }
  assert (∀ n, n ∈ nonces_of a P → n < x → ∃ e, e ∈ P ∧ trx_key e.2 = a ++ as_uint64 n ∧
    bytes_lt (Key account_nonce (trx_key e.2)) (Key account_nonce (a ++ as_uint64 x))) as Hbelow.
  { intros n Hn Hlt. pose proof (nonces_u64 _ _ _ _ _ Hp Hn). apply nonces_elem in Hn as (e & He & Ha & <-).
    exists e. rewrite nonce_order by done. unfold trx_key. rewrite Ha. split_and!; [done..|].
    by apply bytes_lt_app, as_uint64_lt. }
  destruct (prev_of _ _ _) as [[v|] k]; unfold prev_in in Hr; cbn [fst snd] in Hr.
  - destruct Hr as (Hv & Hlt & Hle). apply (pv_nonce _ _ _ Hp) in Hv.
    apply list_elem_of_fmap in Hv as (e & [= -> ->] & He).
    pose proof (nonce_u64 _ (good_of _ _ _ _ Hp He)) as Hnu. rewrite nonce_order in Hlt by done.
    destruct (decide (trx_account e.2 = a)) as [Ha|Ha].
    + left. exists (trx_nonce e.2). unfold trx_key in *. rewrite Ha in *. split_and!; [apply nonces_elem; by exists e| | |done].
      * by apply bytes_lt_app, as_uint64_lt in Hlt.
      * intros n' Hn' Hlt'. pose proof (nonces_u64 _ _ _ _ _ Hp Hn').
        destruct (Hbelow n' Hn' Hlt') as (e' & He' & Hk' & Hb'). specialize (Hle _ (Hin _ He') Hb').
        rewrite Hk' in Hle. apply bytes_le_lt in Hle as [Heq%Key_inj|Hle].
        -- destruct Heq as [_ Heq%(inj _)]. apply as_uint64_inj in Heq; [lia|done..].
        -- apply key_order, bytes_lt_app, as_uint64_lt in Hle; [lia|done..|]. by rewrite !length_app, !as_uint64_length.
    + right. split; [|apply mismatch_differ; [by rewrite Hs|done]].
      intros n Hn Hnx. destruct (Hbelow n Hn Hnx) as (e' & He' & Hk' & Hb'). specialize (Hle _ (Hin _ He') Hb').
      rewrite Hk' in Hle. apply bytes_le_lt in Hle as [Heq%Key_inj|Hle].
      * destruct Heq as [_ Heq]. unfold trx_key in Heq. apply app_inj_1 in Heq as [? _]; [done|by rewrite Hs].
      * apply key_order in Hle; [|unfold trx_key; by rewrite !length_app, !as_uint64_length, Hs].
        destruct (prefix_between a (as_uint64 n) (as_uint64 x) (trx_key e.2) Hle Hlt) as [b Heq].
        unfold trx_key in Heq. apply app_inj_1 in Heq as [? _]; [done|by rewrite Hs].
  - destruct Hr as [_ Hnone]. intros n Hn Hnx. destruct (Hbelow n Hn Hnx) as (e & He & _ & Hb).
    by apply (Hnone (trx_key e.2) (Hin _ He)).
Qed.

(** The greatest nonce below [x]. *)
Fixpoint highest_below (x : Z) (ns : list Z) : option Z :=
  match ns with
  | [] => None
  | n :: ns =>
    if n <? x then Some (match highest_below x ns with Some n' => Z.max n n' | None => n end)
    else highest_below x ns
  end.

Lemma highest_spec x ns :
  match highest_below x ns with
  | Some n => n ∈ ns ∧ n < x ∧ ∀ n', n' ∈ ns → n' < x → n' ≤ n
  | None => ∀ n, n ∈ ns → ¬ n < x
  end.
Proof.
  induction ns as [|y ns IH]; cbn [highest_below]; [by intros n Hn%elem_of_nil|].
  destruct (Z.ltb_spec y x) as [Hy|Hy].
  - destruct (highest_below x ns) as [n|].
    + destruct IH as (Hn & Hx & Hmax). split_and!; [|lia|].
      * rewrite elem_of_cons. destruct (Z.max_spec y n) as [[_ ->]|[_ ->]]; tauto.
      * intros n' [->|Hn']%elem_of_cons Hlt; [lia|]. specialize (Hmax n' Hn' Hlt). lia.
    + split_and!; [by left|done|]. intros n' [->|Hn']%elem_of_cons Hlt; [lia|]. by destruct (IH n' Hn').
  - destruct (highest_below x ns) as [n|].
    + destruct IH as (Hn & Hx & Hmax). split_and!; [by right|done|].
      intros n' [->|Hn']%elem_of_cons Hlt; [lia|by apply Hmax].
    + intros n [->|Hn]%elem_of_cons; [lia|by apply IH].
Qed.

Lemma highest_None x ns : (∀ n, n ∈ ns → ¬ n < x) → highest_below x ns = None.
Proof.
  intros Hno. pose proof (highest_spec x ns) as Hh. destruct (highest_below x ns) as [n|]; [|done].
  destruct Hh as (Hn & Hx & _). by destruct (Hno n Hn).
Qed.

Lemma highest_Some x ns n : n ∈ ns → n < x → (∀ n', n' ∈ ns → n' < x → n' ≤ n) → highest_below x ns = Some n.
Proof.
  intros Hn Hx Hmax. pose proof (highest_spec x ns) as Hh. destruct (highest_below x ns) as [y|].
  - destruct Hh as (Hy & Hyx & Hymax). f_equal. specialize (Hmax y Hy Hyx). specialize (Hymax n Hn Hx). lia.
  - by destruct (Hh n Hn).
Qed.

Lemma pending_nonce_run m l P next a : pool_view m P next → same_length a P →
  reads_view l m (get_pending_nonce_on_node l a) (Ok (from_option as_nonce [] (highest_below u64_max (nonces_of a P)))).
Proof.
  intros Hp Hs. unfold get_pending_nonce_on_node.
  eapply reads_view_bind; [apply reads_prev, (pv_keys _ _ _ Hp)|].
  pose proof (prev_nonce m P next a u64_max Hp Hs ltac:(unfold is_u64, u64_max; lia)) as Hprev.
  destruct (prev_of _ _ _) as [[v|] k].
  - destruct Hprev as [(n & Hn & Hlt & Hmax & ->)|(Hno & rest & y & Hmis & Hne)].
    + rewrite (highest_Some _ _ n) by done. rewrite mismatch_prefix.
      eapply (reads_view_bind _ _ (mret _)); [apply reads_view_ret|]. cbn [fst snd]. rewrite bool_decide_eq_false_2 by tauto.
      eapply reads_converted; [apply to_as_uint64; by eapply nonces_u64|]. apply reads_view_ret.
    + rewrite highest_None by done. rewrite Hmis. eapply (reads_view_bind _ _ (mret _)); [apply reads_view_ret|].
      cbn. rewrite bool_decide_eq_true_2 by done. apply reads_view_ret.
  - rewrite highest_None by done. apply reads_view_ret.
Qed.

(** The nonces below [x]. *)
Definition below (x : Z) (ns : list Z) : list Z := filter (λ n, n < x) ns.

Lemma below_step x n (ns : list Z) : NoDup ns → n ∈ ns → n < x → (∀ n', n' ∈ ns → n' < x → n' ≤ n) →
  length (below x ns) = S (length (below n ns)).
Proof.
  intros Hnd Hn Hx Hmax. change (S (length ?l)) with (length (n :: l)). unfold below. apply Permutation_length, NoDup_Permutation.
  - by apply NoDup_filter.
  - apply NoDup_cons. split; [|by apply NoDup_filter]. rewrite list_elem_of_filter. lia.
  - intros y. rewrite elem_of_cons, !list_elem_of_filter. split.
    + intros [Hy Hin]. specialize (Hmax y Hin Hy). destruct (decide (y = n)); [by left|right; split; [lia|done]].
    + intros [->|[? ?]]; (split; [lia|done]).
Qed.

Lemma count_loop_run m l P next a (fuel : nat) (x c : Z) : pool_view m P next → same_length a P → is_u64 x →
  (length (below x (nonces_of a P)) < fuel)%nat → 0 ≤ c →
  c + Z.of_nat (length (below x (nonces_of a P))) < 2 ^ 64 →
  reads_view l m (count_loop fuel l a (a ++ as_uint64 x) c)
    (Ok (c + Z.of_nat (length (below x (nonces_of a P))))).
Proof.
  intros Hp Hs. revert x c. induction fuel as [|fuel IH]; intros x c Hx Hf Hc0 Hc; [lia|]. cbn [count_loop].
  eapply reads_view_bind; [apply reads_prev, (pv_keys _ _ _ Hp)|].
  pose proof (prev_nonce m P next a x Hp Hs Hx) as Hprev.
  assert ((∀ n, n ∈ nonces_of a P → ¬ n < x) → below x (nonces_of a P) = []) as Hnil.
  { intros Hno. destruct (below x (nonces_of a P)) as [|y F] eqn:HF; [done|]. exfalso.
    assert (y ∈ below x (nonces_of a P)) as [Hy Hin]%list_elem_of_filter by (rewrite HF; by left). by eapply Hno. }
  destruct (prev_of _ _ _) as [[v|] k].
  - destruct Hprev as [(n & Hn & Hlt & Hmax & ->)|(Hno & rest & y & Hmis & Hne)].
    + rewrite mismatch_prefix. eapply (reads_view_bind _ _ (mret _)); [apply reads_view_ret|]. cbn [fst snd].
      rewrite bool_decide_eq_false_2 by tauto.
      rewrite (below_step x n) in * by (done || by eapply nonces_NoDup). rewrite u64_small by lia.
      replace (c + Z.of_nat (S _)) with (c + 1 + Z.of_nat (length (below n (nonces_of a P)))) by lia.
      apply IH; [by eapply nonces_u64|lia..].
    + rewrite Hnil by done. rewrite Hmis. eapply (reads_view_bind _ _ (mret _)); [apply reads_view_ret|].
      cbn. rewrite bool_decide_eq_true_2, Z.add_0_r by done. apply reads_view_ret.
  - rewrite Hnil by done. rewrite Z.add_0_r. apply reads_view_ret.
Qed.

Lemma nonces_length m P next a (x : Z) : pool_view m P next →
  (length (below x (nonces_of a P)) ≤ base.size m)%nat ∧
  Z.of_nat (length (below x (nonces_of a P))) < 2 ^ 64.
Proof.
  intros Hp. assert (length (below x (nonces_of a P)) ≤ length (nonces_of a P))%nat as H1 by apply length_filter.
  assert (length (nonces_of a P) ≤ length P)%nat as H2 by (unfold nonces_of; rewrite length_fmap; apply length_filter).
  pose proof (table_size m _ _ (pv_nonce _ _ _ Hp)) as H3. rewrite (proj1 (fmap_rows P)), length_fmap in H3.
  specialize (H3 (pv_nonces _ _ _ Hp)). pose proof (pool_length _ _ _ Hp). lia.
Qed.

Lemma pending_count_run m l P next a : pool_view m P next → same_length a P →
  reads_view l m (get_pending_transaction_count_on_node l a)
    (Ok (Z.of_nat (length (below u64_max (nonces_of a P))))).
Proof.
  intros Hp Hs. destruct (nonces_length m P next a u64_max Hp) as [H1 H2].
  unfold get_pending_transaction_count_on_node. apply reads_fuel. intros fuel Hfuel.
  apply (count_loop_run m l P next a fuel u64_max 0 Hp Hs); [unfold is_u64, u64_max; lia|lia..].
Qed.

(** ** Reserved resources *)

Lemma reserved_run m l P next a : pool_view m P next →
  reads_view l m (get_reserved_account_rc_from_node l a) (Ok (reserved a P)).
Proof.
  intros Hp. unfold get_reserved_account_rc_from_node. apply reads_fetch.
  pose proof (pv_resources _ _ _ Hp a) as Hr. pose proof (reserved_nonneg a P (pv_good _ _ _ Hp)) as Hn.
  destruct (m !! Key address_resources a) as [v|]; [|rewrite Hr; apply reads_view_ret].
  destruct Hr as (arr & -> & Hmax & Hcur & Hd). unfold is_u64 in *.
  eapply reads_converted; [apply to_as_resources; unfold is_u64; lia|]. rewrite u64_small by lia. rewrite Hd. apply reads_view_ret.
Qed.

End Queries.
