(* ===== verification/MempoolState.v ===== *)
(** The mempool's invariant: every block has one writable node below it,
    under the hash of its id, with a mutex, and every node holds a pool. *)

From S2P Require Import Prelude Storage Keys MapBackend StateDelta StateNode StateDeltaFacts StateCommit StateDatabase.
From S2P Require Import StateDiscard StateInvariant StateGrow StateTheorems StateProperties.
From S2P Require Import ObjectIteration ObjectIterationTheorems Mempool MempoolImpl MempoolFacts MempoolPool MempoolQueries.
Import StateDelta StateDatabase StateNode ObjectIteration Mempool MempoolImpl.

(** Hashes of distinct ids are distinct, and neither the id of an empty
    database nor the default id is a hash. *)
Class HashLaws `{!Crypto} := {
  hash_inj i j : hash i = hash j → i = j;
  zero_not_hash i : zero ≠ hash i;
  null_not_hash i : hash i ≠ null_id;
  zero_not_null : zero ≠ null_id
}.

Section State.
Context `{Hcrypto : !Crypto} `{Hdisk : !Disk} `{Hkeys : !DatabaseKeys} `{Hklaws : !DatabaseKeysLaws}.
Context `{Hconv : !Converter} `{Hcl : !ConverterLaws} `{Hsc : !SpacesContiguous} `{Hko : !KeyOrder}.
Context `{Hcs : !Converters} `{Hcsl : !ConvertersLaws} `{Hhash : !HashLaws}.
Implicit Types (db : database) (h : heap) (d : state_delta) (m : gmap bytes bytes) (x p : loc) (P : pool)
  (r : pending_transaction_record) (next : Z) (s : mempool_impl) (i : multihash).

Record forest db (mutexes : gset multihash) : Prop := {
  fo_tmp x d : x ∈ _index db → deltas (db_heap db) !! x = Some d → _finalized d = false →
    ∃ p dp, _parent d = Some p ∧ p ∈ _index db ∧ deltas (db_heap db) !! p = Some dp ∧ _finalized dp = true ∧
      _id d = hash (_id dp) ∧ _id d ∈ mutexes;
  fo_block p dp : p ∈ _index db → deltas (db_heap db) !! p = Some dp → _finalized dp = true →
    (∀ j, _id dp ≠ hash j) ∧
    ∃ x d, x ∈ _index db ∧ deltas (db_heap db) !! x = Some d ∧ _parent d = Some p ∧ _finalized d = false
}.

(** The node reads the pool [P]. *)
Definition holds db x P : Prop := ∃ m next, view (db_heap db) x = Some m ∧ pool_view m P next.

Record mempool_ok s (root hd : loc) : Prop := {
  mo_db : db_ok (_db s) root hd;
  mo_comp : _comp (_db s) = Some fifo_comparator;
  mo_forest : forest (_db s) (_relevant_node_mutexes s);
  mo_pools x : x ∈ _index (_db s) → ∃ P, holds (_db s) x P
}.

(** [x] is the writable node after the block [i]. *)
Definition relevant s i x : Prop :=
  x ∈ _index (_db s) ∧ id_at (db_heap (_db s)) x = Some (hash i) ∧
  ∃ d, deltas (db_heap (_db s)) !! x = Some d ∧ _finalized d = false.

(** The transactions pending after the block [i]. *)
Definition pending s i P : Prop := ∃ x, relevant s i x ∧ holds (_db s) x P.

(** [i] is the id of a block. *)
Definition block_at s i p : Prop :=
  p ∈ _index (_db s) ∧ ∃ dp, deltas (db_heap (_db s)) !! p = Some dp ∧ _id dp = i ∧ _finalized dp = true.

(** ** The forest *)

Definition shape_at h x : option (option loc * multihash * bool) :=
  (λ d, (_parent d, _id d, _finalized d)) <$> deltas h !! x.

Lemma forest_shape db h' mx : (∀ x, x ∈ _index db → shape_at h' x = shape_at (db_heap db) x) →
  forest db mx → forest (set_heap h' db) mx.
Proof.
  intros Hs [Ht Hb].
  assert (∀ x d', x ∈ _index db → deltas h' !! x = Some d' → ∃ d, deltas (db_heap db) !! x = Some d ∧
    _parent d = _parent d' ∧ _id d = _id d' ∧ _finalized d = _finalized d') as Hback.
  { intros x d' Hx Hd'. specialize (Hs x Hx). unfold shape_at in Hs. rewrite Hd' in Hs. cbn in Hs.
    destruct (deltas (db_heap db) !! x) as [d|]; [|done]. injection Hs as H1 H2 H3. exists d. split_and!; congruence. }
  assert (∀ x d, x ∈ _index db → deltas (db_heap db) !! x = Some d → ∃ d', deltas h' !! x = Some d' ∧
    _parent d' = _parent d ∧ _id d' = _id d ∧ _finalized d' = _finalized d) as Hforth.
  { intros x d Hx Hd. specialize (Hs x Hx). unfold shape_at in Hs. rewrite Hd in Hs. cbn in Hs.
    destruct (deltas h' !! x) as [d'|]; [|done]. injection Hs as H1 H2 H3. exists d'. split_and!; congruence. }
  split; cbn.
  - intros x d' Hx Hd' Hf. destruct (Hback x d' Hx Hd') as (d & Hd & Hp & Hi & Hfd).
    destruct (Ht x d Hx Hd ltac:(congruence)) as (p & dp & Hpp & Hpi & Hdp & Hfp & Hid & Hmx).
    destruct (Hforth p dp Hpi Hdp) as (dp' & Hdp' & _ & Hidp & Hfp').
    exists p, dp'. split_and!; congruence.
  - intros p dp' Hp Hdp' Hf. destruct (Hback p dp' Hp Hdp') as (dp & Hdp & _ & Hi & Hfd).
    destruct (Hb p dp Hp Hdp ltac:(congruence)) as (Hj & x & d & Hx & Hd & Hpd & Hfx).
    split; [intros j; rewrite <- Hi; apply Hj|]. destruct (Hforth x d Hx Hd) as (d' & Hd' & ? & _ & ?).
    exists x, d'. split_and!; [done|done|congruence|congruence].
Qed.

Lemma relevant_exists s root hd i p : mempool_ok s root hd → block_at s i p →
  ∃ x, relevant s i x ∧ hash i ∈ _relevant_node_mutexes s.
Proof.
  intros Hok (Hp & dp & Hdp & <- & Hf). destruct (fo_block _ _ (mo_forest _ _ _ Hok) p dp Hp Hdp Hf) as (_ & x & d & Hx & Hd & Hpd & Hfx).
  destruct (fo_tmp _ _ (mo_forest _ _ _ Hok) x d Hx Hd Hfx) as (p' & dp' & Hp' & _ & Hdp' & _ & Hid & Hmx).
  assert (p' = p) as -> by congruence. assert (dp' = dp) as -> by congruence. exists x. unfold relevant, id_at. rewrite Hd. cbn.
  rewrite <- Hid. split_and!; [done|done|by exists d|done].
Qed.

Lemma relevant_unique s root hd i x y : mempool_ok s root hd → relevant s i x → relevant s i y → x = y.
Proof. intros Hok (Hx & Hi & _) (Hy & Hj & _). apply (ok_unique _ _ _ (mo_db _ _ _ Hok)); [done|done|congruence]. Qed.

(** A node under the hash of an id is the writable node after that block. *)
Lemma relevant_found s root hd i x : mempool_ok s root hd → find_id (_db s) (hash i) = Some x →
  relevant s i x ∧ ∃ p, block_at s i p ∧ ∃ d, deltas (db_heap (_db s)) !! x = Some d ∧ _parent d = Some p.
Proof.
  intros Hok Hf. apply find_id_Some in Hf as [Hx Hi]. pose proof Hi as Hi'. unfold id_at in Hi'.
  destruct (deltas (db_heap (_db s)) !! x) as [d|] eqn:Hd; [|done]. cbn in Hi'.
  destruct (_finalized d) eqn:Hf.
  { destruct (fo_block _ _ (mo_forest _ _ _ Hok) x d Hx Hd Hf) as [Hn _]. destruct (Hn i). congruence. }
  destruct (fo_tmp _ _ (mo_forest _ _ _ Hok) x d Hx Hd Hf) as (p & dp & Hp & Hpi & Hdp & Hfp & Hid & _).
  split; [by split_and!; [..|exists d]|]. exists p. split; [|by exists d]. split; [done|]. exists dp. split_and!; [done| |done].
  apply hash_inj. congruence.
Qed.

Lemma relevant_find s root hd i x : mempool_ok s root hd → relevant s i x → find_id (_db s) (hash i) = Some x.
Proof. intros Hok (Hx & Hi & _). by apply (find_id_eq _ _ _ _ _ (mo_db _ _ _ Hok)). Qed.

Lemma block_find s root hd i p : mempool_ok s root hd → block_at s i p → find_id (_db s) i = Some p.
Proof.
  intros Hok (Hp & dp & Hdp & Hi & _). apply (find_id_eq _ _ _ _ _ (mo_db _ _ _ Hok)); [done|].
  unfold id_at. rewrite Hdp. cbn. by rewrite Hi.
Qed.

(** ** Calls *)

Lemma run_on_db {A} (q : prog database exn A) s o db' : q (_db s) = (o, db') →
  on_db q s = (match o with Ok a => Ok a | Throw e => Throw (state_error e) | OutOfFuel => OutOfFuel end, set_db db' s).
Proof. intros Hq. unfold on_db, lift. rewrite Hq. by destruct o. Qed.

Lemma set_db_same s : set_db (_db s) s = s.
Proof. by destruct s. Qed.

Lemma run_on_db_pure {A} (q : prog database exn A) s a : q (_db s) = (Ok a, _db s) → on_db q s = (Ok a, s).
Proof. intros Hq. by rewrite (run_on_db _ _ _ _ Hq), set_db_same. Qed.

Lemma run_node_id s n d : deltas (db_heap (_db s)) !! _state n = Some d → node_id_of n s = (Ok (_id d), s).
Proof. intros Hd. apply run_on_db_pure, run_on_heap_pure, run_id. done. Qed.

Lemma run_node_finalized s n d : deltas (db_heap (_db s)) !! _state n = Some d →
  node_finalized_of n s = (Ok (_finalized d), s).
Proof. intros Hd. apply run_on_db_pure, run_on_heap_pure, run_is_finalized. done. Qed.

Lemma run_mutex_at s i : i ∈ _relevant_node_mutexes s → mutex_at i s = (Ok i, s).
Proof. intros Hi. unfold mutex_at. rewrite run_bind. cbn. by rewrite bool_decide_eq_true_2. Qed.

Lemma run_get_node_db db root hd i : db_ok db root hd →
  get_node_unique i unique_lock db = (Ok ((λ l, mk_state_node l None) <$> find_id db i), db) ∧
  get_node_shared i shared_lock db = (Ok ((λ l, mk_state_node l shared_lock) <$> find_id db i), db).
Proof.
  intros Hok. unfold get_node_unique, get_node_shared. cbn [verify_unique_lock verify_shared_lock unique_lock shared_lock
    owns_lock on_node_mutex negb assert_that]. split; rewrite run_bind; cbn [mret prog_ret].
  - by rewrite (run_get_node _ _ _ _ Hok).
  - rewrite run_bind, (run_get_node _ _ _ _ Hok). cbn [mret prog_ret]. by destruct (find_id db i).
Qed.

Lemma run_get_head_db db root hd : db_ok db root hd →
  get_head_unique unique_lock db = (Ok (mk_state_node hd None), db) ∧
  get_head_shared shared_lock db = (Ok (mk_state_node hd shared_lock), db).
Proof.
  intros Hok. destruct (ok_head _ _ _ Hok) as (Hhd & _ & _). unfold get_head_unique, get_head_shared, get_head_lockless.
  cbn [verify_unique_lock verify_shared_lock unique_lock shared_lock owns_lock on_node_mutex negb assert_that].
  split; rewrite run_bind; cbn [mret prog_ret].
  - by rewrite run_bind, (run_assert_open _ _ _ Hok), run_gets, Hhd.
  - rewrite run_bind, run_bind, (run_assert_open _ _ _ Hok), run_gets, Hhd. done.
Qed.

Lemma run_get_root_db db root hd : db_ok db root hd →
  get_root_unique unique_lock db = (Ok (mk_state_node root None), db) ∧
  get_root_shared shared_lock db = (Ok (mk_state_node root shared_lock), db).
Proof.
  intros Hok. destruct (ok_root _ _ _ Hok) as (Hr & _). unfold get_root_unique, get_root_shared, get_root_lockless.
  cbn [verify_unique_lock verify_shared_lock unique_lock shared_lock owns_lock on_node_mutex negb assert_that].
  split; rewrite run_bind; cbn [mret prog_ret].
  - by rewrite run_bind, (run_assert_open _ _ _ Hok), run_gets, Hr.
  - rewrite run_bind, run_bind, (run_assert_open _ _ _ Hok), run_gets, Hr. done.
Qed.

(** The relevant node of a known block, with either lock. *)
Lemma run_relevant s root hd i p x : mempool_ok s root hd → block_at s i p → relevant s i x →
  relevant_node_unique (Some i) unique_lock s = (Ok (Some (mk_state_node x None), Some (hash i)), s) ∧
  relevant_node_shared (Some i) shared_lock s = (Ok (Some (mk_state_node x shared_lock), Some (hash i)), s).
Proof.
  intros Hok Hb Hr. destruct (relevant_exists _ _ _ _ _ Hok Hb) as (_ & _ & Hmx).
  pose proof (block_find _ _ _ _ _ Hok Hb) as Hfp. pose proof (relevant_find _ _ _ _ _ Hok Hr) as Hfx.
  destruct Hb as (Hp & dp & Hdp & Hid & _). pose proof (λ j, run_get_node_db _ _ _ j (mo_db _ _ _ Hok)) as Hget.
  unfold relevant_node_unique, relevant_node_shared, relevant_node_with, tmp_id. split.
  - rewrite run_bind, (run_on_db_pure _ _ _ (proj1 (Hget i))), Hfp. cbn [fmap option_fmap option_map].
    rewrite run_bind, (run_node_id s (mk_state_node p None) dp Hdp), Hid. rewrite run_bind, (run_on_db_pure _ _ _ (proj1 (Hget (hash i)))), Hfx.
    by rewrite run_bind, (run_mutex_at _ _ Hmx).
  - rewrite run_bind, (run_on_db_pure _ _ _ (proj2 (Hget i))), Hfp. cbn [fmap option_fmap option_map].
    rewrite run_bind, (run_node_id s (mk_state_node p shared_lock) dp Hdp), Hid. rewrite run_bind, (run_on_db_pure _ _ _ (proj2 (Hget (hash i)))), Hfx.
    by rewrite run_bind, (run_mutex_at _ _ Hmx).
Qed.

Lemma run_relevant_absent s root hd i : mempool_ok s root hd → find_id (_db s) i = None →
  relevant_node_unique (Some i) unique_lock s = (Ok (None, None), s) ∧
  relevant_node_shared (Some i) shared_lock s = (Ok (None, None), s).
Proof.
  intros Hok Hf. pose proof (run_get_node_db _ _ _ i (mo_db _ _ _ Hok)) as [Hu Hs].
  unfold relevant_node_unique, relevant_node_shared, relevant_node_with. split.
  - by rewrite run_bind, (run_on_db_pure _ _ _ Hu), Hf.
  - by rewrite run_bind, (run_on_db_pure _ _ _ Hs), Hf.
Qed.

(** ** Programs on a node *)

Lemma on_node_reads {A} s root hd x m (q : prog heap mexn A) o : db_ok (_db s) root hd → x ∈ _index (_db s) →
  view (db_heap (_db s)) x = Some m → reads_view x m q o → on_node q s = (o, s).
Proof.
  intros Hok Hx Hv Hq. unfold on_node. rewrite Hq; [|apply Hok|done|by eapply node_ascends].
  by rewrite set_heap_id, set_db_same.
Qed.

Lemma on_node_writes {A} s root hd x d m (q : prog heap mexn A) o m' : db_ok (_db s) root hd → x ∈ _index (_db s) →
  deltas (db_heap (_db s)) !! x = Some d → _finalized d = false →
  view (db_heap (_db s)) x = Some m → on_view x m q o m' →
  ∃ h', on_node q s = (o, set_db (set_heap h' (_db s)) s) ∧ writes (db_heap (_db s)) x m' h'.
Proof.
  intros Hok Hx Hd Hf Hv Hq. destruct (Hq (db_heap (_db s)) d) as (h' & Hrun & Hw); [apply Hok|done..|by eapply node_ascends|].
  exists h'. split; [|done]. unfold on_node. by rewrite Hrun.
Qed.

Lemma writes_shape h x m' h' y : writes h x m' h' → shape_at h' y = shape_at h y.
Proof.
  intros (d & d' & Hd & -> & (Hp & Hi & _ & Hf & _) & _). unfold shape_at. destruct (decide (x = y)) as [<-|Hne].
  - rewrite set_delta_lookup, Hd. cbn. by rewrite Hp, Hi, Hf.
  - cbn. by rewrite lookup_insert_ne.
Qed.

(** Writing a pool to a writable node keeps the invariant and the pools of
    the other nodes. *)
Lemma ok_written s root hd x d m' h' P' next' : mempool_ok s root hd → x ∈ _index (_db s) →
  deltas (db_heap (_db s)) !! x = Some d → _finalized d = false → writes (db_heap (_db s)) x m' h' →
  pool_view m' P' next' →
  let s' := set_db (set_heap h' (_db s)) s in
  mempool_ok s' root hd ∧ holds (_db s') x P' ∧ (∀ y Q, y ∈ _index (_db s) → y ≠ x → holds (_db s') y Q ↔ holds (_db s) y Q) ∧
  (∀ i y, relevant s' i y ↔ relevant s i y).
Proof.
  intros Hok Hx Hd Hf Hw Hp s'. pose proof (mo_db _ _ _ Hok) as Hdb.
  pose proof (db_ok_writes _ _ _ _ _ _ _ Hdb Hd Hf Hw) as Hdb'.
  assert (holds (_db s') x P') as Hx' by (exists m', next'; by destruct Hw as (? & ? & _ & _ & _ & _ & ?)).
  assert (∀ y Q, y ∈ _index (_db s) → y ≠ x → holds (_db s') y Q ↔ holds (_db s) y Q) as Hother.
  { intros y Q Hy Hne. unfold holds. cbn. by rewrite (writes_isolated _ _ _ _ _ _ _ _ Hdb Hd Hf Hw Hy Hne). }
  split_and!; [split|done|done|].
  - done.
  - apply Hok.
  - apply forest_shape; [|apply Hok]. intros y _. by eapply writes_shape.
  - intros y Hy. destruct (decide (y = x)) as [->|Hne]; [by exists P'|].
    destruct (mo_pools _ _ _ Hok y Hy) as [Q HQ]. exists Q. by apply Hother.
  - intros i y. unfold relevant. cbn. pose proof (writes_shape _ _ _ _ y Hw) as Hs.
    unfold id_at, shape_at in *. destruct (deltas h' !! y) as [d1|], (deltas (db_heap (_db s)) !! y) as [d2|]; try done; cbn in *.
    injection Hs as _ Hi Hfin. rewrite Hi. split; intros (? & ? & d3 & [= <-] & ?); split_and!; try done; eexists; split; [done|congruence|done|congruence].
Qed.

End State.
