(* ===== verification/MempoolChanges.v ===== *)
(** Blocks arriving at the mempool and becoming irreversible.

    Transactions removed and pruned, on the nodes after the fork heads. *)

From S2P Require Import Prelude Storage Keys MapBackend StateDelta StateNode StateDeltaFacts StateCommit.
From S2P Require Import StateDatabase StateDiscard StateInvariant StateGrow StateTheorems StateProperties.
From S2P Require Import ObjectIteration ObjectIterationTheorems Mempool MempoolImpl MempoolFacts MempoolPool.
From S2P Require Import MempoolQueries MempoolState.
Import StateDelta StateDatabase StateNode ObjectIteration Mempool MempoolImpl.

Section Blocks.
Context `{Hcrypto : !Crypto} `{Hdisk : !Disk} `{Hkeys : !DatabaseKeys} `{Hklaws : !DatabaseKeysLaws}.
Context `{Hconv : !Converter} `{Hcl : !ConverterLaws} `{Hsc : !SpacesContiguous} `{Hko : !KeyOrder}.
Context `{Hcs : !Converters} `{Hcsl : !ConvertersLaws} `{Hhash : !HashLaws}.
Implicit Types (db : database) (h : heap) (d : state_delta) (m : gmap bytes bytes) (x p : loc) (P : pool)
  (r : pending_transaction_record) (next : Z) (s : mempool_impl) (i : multihash).

(** ** A block on the database *)

(** The database after a block: [c] is its node, [n] the writable node
    below it; the others are as before. *)
Record extended db db' (c n p : loc) i m' : Prop := {
  ex_index : _index db' = _index db ++ [c; n];
  ex_old x : x ∈ _index db → deltas (db_heap db') !! x = deltas (db_heap db) !! x ∧
    view (db_heap db') x = view (db_heap db) x;
  ex_block : ∃ dc, deltas (db_heap db') !! c = Some dc ∧ _parent dc = Some p ∧ _id dc = i ∧ _finalized dc = true;
  ex_tmp : ∃ dn, deltas (db_heap db') !! n = Some dn ∧ _parent dn = Some c ∧ _id dn = hash i ∧ _finalized dn = false;
  ex_views : view (db_heap db') c = Some m' ∧ view (db_heap db') n = Some m';
  ex_comp : _comp db' = _comp db
}.

Lemma lookup_set_delta_ne h x y d : x ≠ y → deltas (set_delta x d h) !! y = deltas h !! y.
Proof. intros Hne. cbn. by rewrite lookup_insert_ne. Qed.

(** Cloning the node [x], running [q] on the clone, finalizing it and
    creating the node below. *)
Lemma extend_run {A} db root hd x d p m i header t (q : loc → prog heap mexn A) a m' :
  db_ok db root hd → _comp db = Some fifo_comparator → x ∈ _index db → deltas (db_heap db) !! x = Some d →
  _finalized d = false → _parent d = Some p → view (db_heap db) x = Some m → 0 ≤ _revision d < u64_max →
  undisturbed t → absent db i → absent db (hash i) → i ≠ null_id → hash i ≠ null_id → i ≠ hash i →
  (∀ l, on_view l m (q l) (Ok a) m') →
  ∃ c db1 h2 db3 n db4 hd',
    clone_node_unique (the_id (db_heap db) x) i header unique_lock db = (Ok (Some (mk_state_node c None)), db1) ∧
    q c (db_heap db1) = (Ok a, h2) ∧
    finalize_node_unique i unique_lock (set_heap h2 db1) = (Ok tt, db3) ∧
    create_writable_node_unique i (hash i) default_header unique_lock t db3 = (Ok (Some (mk_state_node n None)), db4) ∧
    db_ok db4 root hd' ∧ extended db db4 c n p i m'.
Proof.
  intros Hok Hcomp Hx Hd Hf Hp Hv Hrev Ht Hab Habh Hi Hhi Hne Hq.
  destruct (ok_delta _ _ _ _ Hok Hx) as (d0 & b & m0 & Hd0 & Hb & _). assert (d0 = d) as -> by congruence.
  destruct (clone_node_run db root hd x d b i header Hok Hx Hi Hd Hf Hb Hab) as (Hclone & Hh1 & Hok1 & Hv1).
  set (dc := clone_delta d b i header) in *. set (c := next_loc (db_heap db)) in *. set (db1 := grown_db db dc) in *.
  assert (deltas (db_heap db1) !! c = Some dc) as Hdc by (cbn; by rewrite lookup_insert_eq).
  assert (c ∈ _index db1) as Hc by (cbn; rewrite elem_of_app; right; by left).
  assert (∀ y, y ∈ _index db → y ≠ c ∧ deltas (db_heap db1) !! y = deltas (db_heap db) !! y ∧
    view (db_heap db1) y = view (db_heap db) y) as Hold1.
  { intros y Hy. destruct (grown_old db root hd dc y Hok Hy Hh1) as (Hlt & ? & ?). split; [|done]. unfold c. lia. }
  destruct (Hq c (db_heap db1) dc) as (h2 & Hrun2 & Hw); [apply Hok1|by rewrite Hv1|done|done|by eapply node_ascends|].
  pose proof (db_ok_writes _ _ _ _ _ _ _ Hok1 Hdc Hf Hw) as Hok2. set (db2 := set_heap h2 db1) in *.
  pose proof Hw as (dc0 & d2 & Hdc0 & Hh2 & (Hp2 & Hi2 & Hr2 & Hf2 & _) & _ & Hv2). assert (dc0 = dc) as -> by congruence.
  assert (deltas (db_heap db2) !! c = Some d2) as Hd2 by (cbn; rewrite Hh2; apply set_delta_lookup).
  assert (the_id (db_heap db2) c = i) as Hid2 by (unfold the_id, id_at; rewrite Hd2; cbn; by rewrite Hi2).
  destruct (ok_head _ _ _ Hok2) as (_ & Hhd2 & _). destruct (ok_delta _ _ _ _ Hok2 Hhd2) as (dh & _ & _ & Hdh & _).
  destruct (finalize_fifo_run db2 root hd c d2 dh Hok2 Hc Hcomp Hd2 Hdh) as (f & Hfin & Hok3 & _ & Hviews3).
  set (hd' := if _ <? _ then c else hd) in *. set (db3 := set_fork_heads f _) in *. set (d3 := with_finalized true d2).
  assert (deltas (db_heap db3) !! c = Some d3) as Hd3 by apply set_delta_lookup.
  assert (∀ y, y ∈ _index db → deltas (db_heap db3) !! y = deltas (db_heap db) !! y ∧
    view (db_heap db3) y = view (db_heap db) y) as Hold3.
  { intros y Hy. destruct (Hold1 y Hy) as (Hyc & Hdy & Hvy). split.
    - cbn [db3 db_heap set_fork_heads set_head finalized_db set_heap]. rewrite lookup_set_delta_ne by done.
      cbn [db2 db_heap set_heap]. by rewrite Hh2, lookup_set_delta_ne.
    - transitivity (view (db_heap db2) y); [apply Hviews3|]. rewrite <- Hvy.
      apply (writes_isolated db1 root hd c dc m' h2 y Hok1 Hdc Hf Hw); [|done]. cbn. rewrite elem_of_app. by left. }
  assert (absent db3 (hash i)) as Hab3.
  { intros y Hy. destruct (decide (y = c)) as [->|Hyc].
    - unfold id_at. rewrite Hd3. cbn. rewrite Hi2. cbn. congruence.
    - apply elem_of_app in Hy as [Hy|Hy%list_elem_of_singleton]; [|done].
      unfold id_at. rewrite (proj1 (Hold3 y Hy)). by apply Habh. }
  destruct (create_node_run db3 root hd' c d3 (hash i) default_header unique_lock t Hok3 Hc Hhi eq_refl Ht Hd3 eq_refl)
    as (Hcreate & Hh4 & Hok4 & Hv4); [cbn; rewrite Hr2; exact Hrev|done|].
  set (n := next_loc (db_heap db3)) in *. set (db4 := grown_db db3 _) in *.
  exists c, db1, h2, db3, n, db4, hd'. split; [exact Hclone|]. split; [exact Hrun2|].
  assert (the_id (db_heap db3) c = i) as Hid3 by (unfold the_id, id_at; rewrite Hd3; cbn; by rewrite Hi2).
  split; [rewrite <- Hid2 at 1; exact Hfin|]. split; [rewrite <- Hid3 at 1; exact Hcreate|]. split; [done|].
  assert (∀ y, y ∈ _index db3 → deltas (db_heap db4) !! y = deltas (db_heap db3) !! y ∧
    view (db_heap db4) y = view (db_heap db3) y) as Hold4.
  { intros y Hy. destruct (grown_old db3 root hd' _ y Hok3 Hy Hh4) as (_ & ? & ?). done. }
  assert (view (db_heap db3) c = Some m') as Hvc3 by (transitivity (view (db_heap db2) c); [apply Hviews3|done]).
  split.
  - cbn. by rewrite <- app_assoc.
  - intros y Hy. destruct (Hold4 y) as [-> ->]; [cbn; rewrite elem_of_app; by left|]. by apply Hold3.
  - exists d3. destruct (Hold4 c Hc) as [-> _]. split_and!; [done|cbn; rewrite Hp2; exact Hp|cbn; by rewrite Hi2|done].
  - eexists. split; [cbn; by rewrite lookup_insert_eq|done].
  - destruct (Hold4 c Hc) as [_ Hvc4]. rewrite Hv4, Hvc4. done.
  - done.
Qed.

(** [i] is the id of a block of the mempool. *)
Definition known s i : Prop := ∃ p, block_at s i p.

Lemma extended_deltas db db' c n p i m' y d : extended db db' c n p i m' → y ∈ _index db' →
  deltas (db_heap db') !! y = Some d →
  (y ∈ _index db ∧ deltas (db_heap db) !! y = Some d ∧ view (db_heap db') y = view (db_heap db) y) ∨
  (y = c ∧ _parent d = Some p ∧ _id d = i ∧ _finalized d = true) ∨
  (y = n ∧ _parent d = Some c ∧ _id d = hash i ∧ _finalized d = false).
Proof.
  intros He Hy Hd. rewrite (ex_index _ _ _ _ _ _ _ He), elem_of_app, !elem_of_cons, elem_of_nil in Hy.
  destruct Hy as [Hy|[->|[->|[]]]].
  - left. destruct (ex_old _ _ _ _ _ _ _ He y Hy) as [H1 H2]. split_and!; [done|congruence|done].
  - right. left. destruct (ex_block _ _ _ _ _ _ _ He) as (dc & Hdc & ? & ? & ?). assert (dc = d) as -> by congruence. done.
  - right. right. destruct (ex_tmp _ _ _ _ _ _ _ He) as (dn & Hdn & ? & ? & ?). assert (dn = d) as -> by congruence. done.
Qed.

Lemma extended_in db db' c n p i m' y : extended db db' c n p i m' → y ∈ _index db ∨ y = c ∨ y = n → y ∈ _index db'.
Proof. intros He Hy. rewrite (ex_index _ _ _ _ _ _ _ He), elem_of_app, !elem_of_cons. tauto. Qed.

Section Extended.
Context s (root hd hd' : loc) db' (c n p : loc) i m' P' next'.
Hypothesis Hok : mempool_ok s root hd.
Hypothesis He : extended (_db s) db' c n p i m'.
Hypothesis Hok' : db_ok db' root hd'.
Hypothesis Hpool : pool_view m' P' next'.
Hypothesis Hpi : p ∈ _index (_db s).
Hypothesis Hi : ∀ j, i ≠ hash j.
Hypothesis Hab : absent (_db s) i.

Abbreviation s' := (mk_mempool_impl db' ({[hash i]} ∪ _relevant_node_mutexes s)).

Lemma extended_forest : forest db' ({[hash i]} ∪ _relevant_node_mutexes s).
Proof.
  destruct (ex_block _ _ _ _ _ _ _ He) as (dc & Hdc & Hpc & Hic & Hfc).
  destruct (ex_tmp _ _ _ _ _ _ _ He) as (dn & Hdn & Hpn & Hin & Hfn).
  split.
  - intros y d Hy Hd Hf. destruct (extended_deltas _ _ _ _ _ _ _ _ _ He Hy Hd) as [(Hyo & Hdo & _)|[(_ & _ & _ & ?)|(-> & Hp & Hid & _)]].
    + destruct (fo_tmp _ _ (mo_forest _ _ _ Hok) y d Hyo Hdo Hf) as (q & dq & Hq & Hqi & Hdq & Hfq & Hid & Hmx).
      exists q, dq. destruct (ex_old _ _ _ _ _ _ _ He q Hqi) as [Hqd _].
      split_and!; [done|eapply extended_in; eauto|by rewrite Hqd|done|done|set_solver].
    + congruence.
    + exists c, dc. split_and!; [done|eapply extended_in; eauto|done|done|congruence|rewrite Hid; set_solver].
  - intros q dq Hq Hdq Hf. destruct (extended_deltas _ _ _ _ _ _ _ _ _ He Hq Hdq) as [(Hqo & Hdo & _)|[(-> & Hp & Hid & _)|(_ & _ & _ & ?)]].
    + destruct (fo_block _ _ (mo_forest _ _ _ Hok) q dq Hqo Hdo Hf) as (Hj & y & d & Hy & Hd & Hpd & Hfd).
      split; [done|]. exists y, d. destruct (ex_old _ _ _ _ _ _ _ He y Hy) as [Hyd _].
      split_and!; [eapply extended_in; eauto|by rewrite Hyd|done|done].
    + split; [congruence|]. exists n, dn. split_and!; [eapply extended_in; eauto|done|done|done].
    + congruence.
Qed.

Lemma extended_ok : mempool_ok s' root hd'.
Proof.
  split; [done|cbn; rewrite (ex_comp _ _ _ _ _ _ _ He); apply Hok|apply extended_forest|].
  intros y Hy. destruct (ok_delta _ _ _ _ Hok' Hy) as (d & _ & _ & Hd & _).
  destruct (extended_deltas _ _ _ _ _ _ _ _ _ He Hy Hd) as [(Hyo & Hdo & Hv)|[(-> & _)|(-> & _)]].
  - destruct (mo_pools _ _ _ Hok y Hyo) as (Q & mq & nq & Hvq & HQ). exists Q, mq, nq. split; [cbn; by rewrite Hv|done].
  - exists P', m', next'. split; [|done]. apply (ex_views _ _ _ _ _ _ _ He).
  - exists P', m', next'. split; [|done]. apply (ex_views _ _ _ _ _ _ _ He).
Qed.

Lemma extended_pending_new : pending s' i P'.
Proof.
  destruct (ex_tmp _ _ _ _ _ _ _ He) as (dn & Hdn & _ & Hin & Hfn). exists n. split.
  - split_and!; [eapply extended_in; eauto|unfold id_at; cbn; rewrite Hdn; cbn; by rewrite Hin|by exists dn].
  - exists m', next'. split; [|done]. apply (ex_views _ _ _ _ _ _ _ He).
Qed.

Lemma extended_relevant j x : j ≠ i → relevant s' j x ↔ relevant s j x.
Proof.
  intros Hne. split.
  - intros (Hx & Hid & d & Hd & Hf). cbn in *. unfold id_at in Hid. rewrite Hd in Hid. cbn in Hid.
    destruct (extended_deltas _ _ _ _ _ _ _ _ _ He Hx Hd) as [(Hxo & Hdo & _)|[(_ & _ & _ & ?)|(-> & _ & Hi' & _)]].
    + split_and!; [done|unfold id_at; by rewrite Hdo|by exists d].
    + congruence.
    + exfalso. apply Hne, hash_inj. congruence.
  - intros (Hx & Hid & d & Hd & Hf). destruct (ex_old _ _ _ _ _ _ _ He x Hx) as [Hxd _].
    split_and!; [eapply extended_in; eauto|unfold id_at in *; cbn; by rewrite Hxd|exists d; cbn; by rewrite Hxd].
Qed.

Lemma extended_pending j Q : j ≠ i → pending s' j Q ↔ pending s j Q.
Proof.
  intros Hne. unfold pending. split; intros (x & Hr & Hh).
  - apply extended_relevant in Hr; [|done]. exists x. split; [done|]. unfold holds in *. cbn in Hh.
    by rewrite (proj2 (ex_old _ _ _ _ _ _ _ He x (proj1 Hr))) in Hh.
  - exists x. split; [by apply extended_relevant|]. unfold holds in *. cbn.
    by rewrite (proj2 (ex_old _ _ _ _ _ _ _ He x (proj1 Hr))).
Qed.

Lemma extended_known j : known s' j ↔ known s j ∨ j = i.
Proof.
  split.
  - intros (q & Hq & dq & Hdq & Hid & Hf). cbn in *.
    destruct (extended_deltas _ _ _ _ _ _ _ _ _ He Hq Hdq) as [(Hqo & Hdo & _)|[(_ & _ & ? & _)|(_ & _ & _ & ?)]].
    + left. exists q. split; [done|]. by exists dq.
    + right. congruence.
    + congruence.
  - intros [(q & Hq & dq & Hdq & Hid & Hf)| ->].
    + exists q. destruct (ex_old _ _ _ _ _ _ _ He q Hq) as [Hqd _]. split; [eapply extended_in; eauto|].
      exists dq. cbn. by rewrite Hqd.
    + destruct (ex_block _ _ _ _ _ _ _ He) as (dc & Hdc & _ & Hic & Hfc). exists c.
      split; [eapply extended_in; eauto|]. by exists dc.
Qed.

End Extended.

(** ** Handling a block *)

(** The block below which a block is put: its parent, or the root while no
    block is known. *)
Definition base s (root hd : loc) (previous : multihash) : multihash :=
  if bool_decide (root = hd) then the_id (db_heap (_db s)) root else previous.

Lemma node_id_the s n d : deltas (db_heap (_db s)) !! _state n = Some d → _id d = the_id (db_heap (_db s)) (_state n).
Proof. intros Hd. unfold the_id, id_at. by rewrite Hd. Qed.

(** The revisions of the nodes leave room for one more block. *)
Definition revisions_small db : Prop := ∀ x d, x ∈ _index db → deltas (db_heap db) !! x = Some d → 0 ≤ _revision d < u64_max.

Lemma ends s root hd previous : mempool_ok s root hd → ∃ dr dh,
  deltas (db_heap (_db s)) !! _state (mk_state_node root None) = Some dr ∧
  deltas (db_heap (_db s)) !! _state (mk_state_node hd None) = Some dh ∧
  (if bool_decide (_id dr ≠ _id dh) then tmp_id previous else tmp_id (_id dr)) = hash (base s root hd previous).
Proof.
  intros Hok. pose proof (mo_db _ _ _ Hok) as Hdb.
  destruct (ok_root _ _ _ Hdb) as [_ Hri]. destruct (ok_head _ _ _ Hdb) as (_ & Hhi & _).
  destruct (ok_delta _ _ _ _ Hdb Hri) as (dr & _ & _ & Hdr & _). destruct (ok_delta _ _ _ _ Hdb Hhi) as (dh & _ & _ & Hdh & _).
  exists dr, dh. split_and!; [done|done|]. unfold base, tmp_id, the_id, id_at. rewrite Hdr. cbn [fmap option_fmap option_map default].
  destruct (decide (root = hd)) as [->|Hne].
  - assert (dh = dr) as -> by congruence. rewrite bool_decide_eq_false_2 by tauto. by rewrite bool_decide_eq_true_2.
  - rewrite (bool_decide_eq_false_2 (root = hd)) by done. rewrite bool_decide_eq_true_2; [done|].
    intros Heq. apply Hne, (ok_unique _ _ _ Hdb); [done|done|]. unfold id_at. rewrite Hdr, Hdh. cbn. by rewrite Heq.
Qed.

(** Runs the beginning of [handle_block], up to the node below which the
    block is put. *)
#[local] Ltac run_ends Hok Hi Hprev previous :=
  let dr := fresh "dr" in let dh := fresh "dh" in let Hdr := fresh "Hdr" in let Hdh := fresh "Hdh" in
  let Heq := fresh "Heq" in
  destruct (ends _ _ _ previous Hok) as (dr & dh & Hdr & Hdh & Heq);
  unfold handle_block; rewrite Hi, Hprev; cbn [converted]; rewrite run_bind; cbn [mret prog_ret];
  rewrite run_bind; cbn [mret prog_ret]; rewrite run_bind; unfold catch_all, try_catch;
  rewrite run_bind, (run_on_db_pure _ _ _ (proj1 (run_get_root_db _ _ _ (mo_db _ _ _ Hok))));
  rewrite run_bind, (run_node_id _ _ dr Hdr);
  rewrite run_bind, (run_on_db_pure _ _ _ (proj1 (run_get_head_db _ _ _ (mo_db _ _ _ Hok))));
  rewrite run_bind, (run_node_id _ _ dh Hdh);
  cbn zeta; rewrite Heq; rewrite run_bind, (run_on_db_pure _ _ _ (proj1 (run_get_node_db _ _ _ _ (mo_db _ _ _ Hok)))).

Section HandleBlock.
Context s (root hd : loc) (b : block_accepted) (t : timing) (i previous : multihash).
Hypothesis Hok : mempool_ok s root hd.
Hypothesis Hi : to_multihash (block_id b) = inr i.
Hypothesis Hprev : to_multihash (block_previous b) = inr previous.

(** A block whose parent is unknown is refused. *)
Lemma handle_block_unknown : ¬ known s (base s root hd previous) → handle_block b t s = (Ok false, s).
Proof.
  intros Hun. run_ends Hok Hi Hprev previous.
  destruct (find_id (_db s) (hash (base s root hd previous))) as [x|] eqn:Hf; [|done].
  exfalso. apply Hun. destruct (relevant_found _ _ _ _ _ Hok Hf) as (_ & p & Hb & _). by exists p.
Qed.

Hypothesis Ht : undisturbed t.
Hypothesis Hab : absent (_db s) i.
Hypothesis Hnull : i ≠ null_id.
Hypothesis Hnh : ∀ j, i ≠ hash j.
Hypothesis Hrev : revisions_small (_db s).

(** A block on a known one: its pool is its parent's without the block's
    transactions, and no other pool changes. *)
Lemma handle_block_known : known s (base s root hd previous) →
  ∃ P s' hd', handle_block b t s = (Ok true, s') ∧ mempool_ok s' root hd' ∧
    pending s (base s root hd previous) P ∧
    pending s' i (kept (transaction_id <$> block_transactions b) P) ∧
    (∀ j Q, j ≠ i → pending s' j Q ↔ pending s j Q) ∧ (∀ j, known s' j ↔ known s j ∨ j = i).
Proof.
  intros [p Hb]. destruct (relevant_exists _ _ _ _ _ Hok Hb) as (x & Hr & _).
  pose proof (relevant_find _ _ _ _ _ Hok Hr) as Hf. pose proof (mo_db _ _ _ Hok) as Hdb.
  destruct (relevant_found _ _ _ _ _ Hok Hf) as (_ & p' & Hb' & d & Hd & Hp).
  pose proof Hr as (Hx & Hid & d0 & Hd0 & Hfin). assert (d0 = d) as -> by congruence.
  destruct (mo_pools _ _ _ Hok x Hx) as (P & m & next & Hv & HP). set (ids := transaction_id <$> block_transactions b).
  destruct (remove_ids_run ids m P next HP) as (m' & Hq & HP').
  assert (absent (_db s) (hash i)) as Habh.
  { intros y Hy Hyi. destruct (relevant_found s root hd i y Hok) as (_ & q & (Hqi & dq & Hdq & Hqid & _) & _).
    { by apply (find_id_eq _ _ _ _ _ Hdb). } apply (Hab q Hqi). unfold id_at. rewrite Hdq. cbn. by rewrite Hqid. }
  destruct (extend_run (_db s) root hd x d p' m i (block_header_ b) t (λ l, remove_pending_transactions_on_node (Some l) ids)
      _ m' Hdb (mo_comp _ _ _ Hok) Hx Hd Hfin Hp Hv (Hrev x d Hx Hd) Ht Hab Habh Hnull (null_not_hash i) (Hnh i) Hq)
    as (c & db1 & h2 & db3 & n & db4 & hd' & Hclone & Hrun & Hfinal & Hcreate & Hok4 & He).
  exists P, (mk_mempool_impl db4 ({[hash i]} ∪ _relevant_node_mutexes s)), hd'. destruct Hb' as [Hpi _].
  assert (handle_block b t s = (Ok true, mk_mempool_impl db4 ({[hash i]} ∪ _relevant_node_mutexes s))) as ->.
  { run_ends Hok Hi Hprev previous. rewrite Hf.
    cbn [fmap option_fmap option_map].
    assert (the_id (db_heap (_db s)) x = hash (base s root hd previous)) as Hthe by (unfold the_id; by rewrite Hid).
    rewrite Hthe in Hclone. rewrite run_bind, (run_on_db _ s _ _ Hclone).
    rewrite run_bind. unfold on_node at 1. cbn [fmap option_fmap option_map _state _db set_db]. fold ids. rewrite Hrun.
    cbn [mret prog_ret]. rewrite run_bind.
    rewrite (run_on_db _ (set_db (set_heap h2 db1) (set_db db1 s)) _ _ Hfinal).
    rewrite run_bind, (run_on_db _ (set_db db3 _) _ _ Hcreate). reflexivity. }
  split; [done|]. split; [by eapply extended_ok|]. split; [exists x; split; [done|by exists m, next]|].
  split; [by eapply extended_pending_new|]. split; [intros j Q; by eapply extended_pending|].
  intros j. by eapply extended_known.
Qed.

End HandleBlock.

(** ** Irreversible blocks *)

Lemma run_kept_mutexes s root hd ids : db_ok (_db s) root hd →
  kept_mutexes ids s = (Ok (filter (λ i, is_Some (find_id (_db s) i)) ids), s).
Proof.
  intros Hok. induction ids as [|i ids IH]; [done|]. cbn [kept_mutexes].
  rewrite run_bind, (run_on_db_pure _ _ _ (proj1 (run_get_node_db _ _ _ i Hok))), run_bind, IH.
  rewrite filter_cons. cbn [mret prog_ret]. destruct (find_id (_db s) i) as [x|]; cbn [fmap option_fmap option_map].
  - by rewrite decide_True by eauto.
  - rewrite decide_False; [done|]. by intros [? ?].
Qed.

(** A mempool whose mutexes without a node were dropped. *)
Definition dropped s db' : mempool_impl :=
  mk_mempool_impl db' (list_to_set (filter (λ i, is_Some (find_id db' i)) (elements (_relevant_node_mutexes s)))).

Lemma dropped_forest s db' root hd : db_ok db' root hd → forest db' (_relevant_node_mutexes s) →
  forest db' (_relevant_node_mutexes (dropped s db')).
Proof.
  intros Hok [Ht Hb]. split; [|done]. intros x d Hx Hd Hf.
  destruct (Ht x d Hx Hd Hf) as (p & dp & ? & ? & ? & ? & ? & Hmx). exists p, dp. split_and!; [done..|].
  cbn. apply elem_of_list_to_set, list_elem_of_filter. rewrite elem_of_elements. split; [|done].
  rewrite (find_id_eq _ _ _ (_id d) x Hok Hx) by (unfold id_at; by rewrite Hd). by eexists.
Qed.

Section Irreversible.
Context s (root hd p : loc) (topology_id : bytes) (i : multihash).
Hypothesis Hok : mempool_ok s root hd.
Hypothesis Hi : to_multihash topology_id = inr i.

Lemma irreversible_unknown : find_id (_db s) i = None → handle_irreversibility topology_id s = (Ok tt, s).
Proof.
  intros Hf. unfold handle_irreversibility. rewrite Hi. cbn [converted]. rewrite run_bind. cbn [mret prog_ret].
  by rewrite run_bind, (run_on_db_pure _ _ _ (proj1 (run_get_node_db _ _ _ _ (mo_db _ _ _ Hok)))), Hf.
Qed.

Hypothesis Hb : block_at s i p.

(** The database after a commit, and the mempool on it. *)
Lemma irreversible_run db' hd' : commit_node i unique_lock (_db s) = (Ok tt, db') → db_ok db' p hd' →
  handle_irreversibility topology_id s = (Ok tt, dropped s db').
Proof.
  intros Hcommit Hok'. unfold handle_irreversibility. rewrite Hi. cbn [converted]. rewrite run_bind. cbn [mret prog_ret].
  rewrite run_bind, (run_on_db_pure _ _ _ (proj1 (run_get_node_db _ _ _ _ (mo_db _ _ _ Hok)))).
  rewrite (block_find _ _ _ _ _ Hok Hb). cbn [fmap option_fmap option_map].
  rewrite run_bind, (run_on_db _ _ _ _ Hcommit), run_gets. cbn [_relevant_node_mutexes set_db].
  rewrite run_bind, (run_kept_mutexes (set_db db' s) p hd') by done. done.
Qed.

Hypothesis Hpr : p ≠ root.
Hypothesis Habove : above (db_heap (_db s)) p hd.

Lemma commit_forest h' db' : commit_result (_db s) root p h' → db_heap db' = h' →
  (∀ x, x ∈ _index db' ↔ x ∈ _index (_db s) ∧ above (db_heap (_db s)) p x) →
  forest db' (_relevant_node_mutexes s).
Proof.
  intros Hres Hh Hidx. subst h'. pose proof (mo_db _ _ _ Hok) as Hdb. pose proof Hb as (Hp & dp0 & Hdp0 & _ & Hfp0).
  assert (∀ y d', deltas (db_heap db') !! y = Some d' → y ∈ _index (_db s) → ∃ d, deltas (db_heap (_db s)) !! y = Some d ∧
    _id d' = _id d ∧ _finalized d' = _finalized d ∧ (y ≠ p → _parent d' = _parent d)) as Hback.
  { intros y d' Hd' Hy. destruct (ok_delta _ _ _ _ Hdb Hy) as (d & _ & _ & Hd & _).
    destruct (commit_delta_at (_db s) root p _ Hres _ _ Hd) as (d2 & Hd2 & H1 & _ & H2 & H3 & _).
    assert (d2 = d') as -> by congruence. exists d. split_and!; [done|done|done|exact H3]. }
  split.
  - intros x d' Hx Hd' Hf. apply Hidx in Hx as [Hx Hax]. destruct (Hback x d' Hd' Hx) as (d & Hd & Hid & Hfd & Hpar).
    assert (x ≠ p) as Hxp by congruence. rewrite Hpar by done.
    destruct (fo_tmp _ _ (mo_forest _ _ _ Hok) x d Hx Hd ltac:(congruence)) as (q & dq & Hq & Hqi & Hdq & Hfq & Hidq & Hmx).
    destruct (commit_delta_at (_db s) root p _ Hres _ _ Hdq) as (dq' & Hdq' & H1 & _ & H2 & _ & _).
    exists q, dq'. split_and!; [done| |done|congruence|congruence|congruence]. apply Hidx. split; [done|].
    inversion Hax as [|x0 d0 q0 Hd0 Hq0]; subst; [done|]. congruence.
  - intros q dq' Hq Hdq' Hf. apply Hidx in Hq as [Hq Haq]. destruct (Hback q dq' Hdq' Hq) as (dq & Hdq & Hid & Hfq & _).
    destruct (fo_block _ _ (mo_forest _ _ _ Hok) q dq Hq Hdq ltac:(congruence)) as (Hj & x & d & Hx & Hd & Hpd & Hfd).
    split; [intros j; rewrite Hid; apply Hj|].
    destruct (commit_delta_at (_db s) root p _ Hres _ _ Hd) as (d' & Hd' & H1 & _ & H2 & H3 & _).
    assert (x ≠ p) as Hxp by congruence.
    exists x, d'. split_and!; [|done|by rewrite H3|congruence]. apply Hidx. split; [done|]. by eapply above_child.
Qed.

(** The committed block becomes the root; the blocks on top of it stay, with
    the transactions pending after them. *)
Lemma irreversible_known : ∃ s', handle_irreversibility topology_id s = (Ok tt, s') ∧ mempool_ok s' p hd ∧
  (∀ j, known s' j ↔ ∃ q, block_at s j q ∧ above (db_heap (_db s)) p q) ∧
  (∀ j Q, known s' j → pending s' j Q ↔ pending s j Q).
Proof.
  pose proof (mo_db _ _ _ Hok) as Hdb. pose proof Hb as (Hp & dp & Hdp & Hid & Hfp).
  destruct (commit_node_spec (_db s) root hd p unique_lock Hdb Hp Hpr eq_refl)
    as (h' & f & Hres & _ & [(_ & db' & Hrun & Hok' & Hh' & [_ Hcomp] & Hidx)|[Hna _]]); [|done].
  assert (the_id (db_heap (_db s)) p = i) as Hthe by (unfold the_id, id_at; by rewrite Hdp).
  rewrite Hthe in Hrun. exists (dropped s db'). split; [by eapply irreversible_run|].
  destruct (commit_heap_ok (_db s) root hd p Hdb Hp Hpr h' Hres) as (_ & _ & Hviews).
  assert (∀ x Q, x ∈ _index db' → holds db' x Q ↔ holds (_db s) x Q) as Hholds.
  { intros x Q [Hx Hax]%Hidx. unfold holds. by rewrite Hh', Hviews. }
  assert (∀ x d, x ∈ _index (_db s) → deltas (db_heap (_db s)) !! x = Some d → ∃ d', deltas (db_heap db') !! x = Some d' ∧
    _id d' = _id d ∧ _finalized d' = _finalized d) as Hat.
  { intros x d Hx Hd. rewrite Hh'. destruct (commit_delta_at (_db s) root p _ Hres _ _ Hd) as (d' & ? & ? & _ & ? & _). by exists d'. }
  assert (∀ j q, block_at (dropped s db') j q ↔ block_at s j q ∧ above (db_heap (_db s)) p q) as Hblocks.
  { intros j q. unfold block_at. cbn. split.
    - intros ([Hq Haq]%Hidx & dq' & Hdq' & Hj & Hf). destruct (ok_delta _ _ _ _ Hdb Hq) as (dq & _ & _ & Hdq & _).
      destruct (Hat q dq Hq Hdq) as (d2 & Hd2 & ? & ?). assert (d2 = dq') as -> by congruence.
      split; [|done]. split; [done|]. exists dq. split_and!; congruence.
    - intros ((Hq & dq & Hdq & Hj & Hf) & Haq). destruct (Hat q dq Hq Hdq) as (d2 & Hd2 & ? & ?).
      split; [by apply Hidx|]. exists d2. split_and!; congruence. }
  split_and!.
  - pose proof (commit_forest h' db' Hres Hh' Hidx) as Hforest.
    split; [done|by cbn; rewrite Hcomp; apply Hok|by eapply dropped_forest|].
    intros x Hx. pose proof Hx as [Hxo _]%Hidx. destruct (mo_pools _ _ _ Hok x Hxo) as [Q HQ]. exists Q. by apply Hholds.
  - intros j. unfold known. split; [intros [q Hq%Hblocks]|intros [q Hq]; exists q; by apply Hblocks]. by exists q.
  - intros j Q [q [(Hq & dq & Hdq & Hj & Hf) Haq]%Hblocks]. unfold pending, relevant. cbn. split.
    + intros (x & (Hx & Hxid & d' & Hd' & Hfx) & Hh). pose proof Hx as [Hxo _]%Hidx.
      destruct (ok_delta _ _ _ _ Hdb Hxo) as (d & _ & _ & Hd & _). destruct (Hat x d Hxo Hd) as (d2 & Hd2 & ? & ?).
      assert (d2 = d') as -> by congruence. exists x. split; [|by apply Hholds].
      split_and!; [done| |exists d; split; congruence]. unfold id_at in *. rewrite Hd' in Hxid. rewrite Hd. cbn in *. congruence.
    + intros (x & (Hx & Hxid & d & Hd & Hfx) & Hh). destruct (Hat x d Hx Hd) as (d' & Hd' & ? & ?).
      assert (x ∈ _index db') as Hx'.
      { apply Hidx. split; [done|]. destruct (fo_tmp _ _ (mo_forest _ _ _ Hok) x d Hx Hd Hfx) as (q' & dq' & Hpx & Hq'i & Hdq' & Hfq' & Hidx' & _).
        eapply above_child; [exact Hd|exact Hpx|]. assert (q' = q) as ->; [|done].
        apply (ok_unique _ _ _ Hdb); [done|done|]. unfold id_at in *. rewrite Hd in Hxid. rewrite Hdq, Hdq'. cbn in *.
        f_equal. apply hash_inj. congruence. }
      exists x. split; [|by apply Hholds]. split_and!; [done| |exists d'; split; congruence].
      unfold id_at in *. rewrite Hd in Hxid. rewrite Hd'. cbn in *. congruence.
Qed.

End Irreversible.

End Blocks.

Section Changes.
Context `{Hcrypto : !Crypto} `{Hdisk : !Disk} `{Hkeys : !DatabaseKeys} `{Hklaws : !DatabaseKeysLaws}.
Context `{Hconv : !Converter} `{Hcl : !ConverterLaws} `{Hsc : !SpacesContiguous} `{Hko : !KeyOrder}.
Context `{Hcs : !Converters} `{Hcsl : !ConvertersLaws} `{Hhash : !HashLaws}.
Implicit Types (db : database) (h : heap) (d : state_delta) (m : gmap bytes bytes) (x p : loc) (P : pool)
  (r : pending_transaction_record) (next : Z) (s : mempool_impl) (i : multihash).

Lemma holds_unique db x P Q : holds db x P → holds db x Q → P = Q.
Proof. intros (m & n & Hv & HP) (m' & n' & Hv' & HQ). assert (m = m') as <- by congruence. by eapply pool_unique. Qed.

Lemma pending_unique s root hd i P Q : mempool_ok s root hd → pending s i P → pending s i Q → P = Q.
Proof.
  intros Hok (x & Hx & HP) (y & Hy & HQ). assert (x = y) as -> by by eapply relevant_unique. by eapply holds_unique.
Qed.

(** What every change keeps: the blocks and the nodes below them. *)
Record same_blocks s s' : Prop := {
  sb_block i p : block_at s' i p ↔ block_at s i p;
  sb_relevant i x : relevant s' i x ↔ relevant s i x;
  sb_index : _index (_db s') = _index (_db s);
  sb_forks : _fork_heads (_db s') = _fork_heads (_db s)
}.

Lemma same_blocks_refl s : same_blocks s s.
Proof. by split. Qed.

Lemma same_blocks_trans s1 s2 s3 : same_blocks s1 s2 → same_blocks s2 s3 → same_blocks s1 s3.
Proof.
  intros [Hb Hr Hi Hf] [Hb' Hr' Hi' Hf']. split; [|..|congruence|congruence].
  - intros i p. by rewrite Hb', Hb.
  - intros i x. by rewrite Hr', Hr.
Qed.

(** A heap whose nodes have the shape they had. *)
Lemma reshaped_blocks s h' : (∀ y, y ∈ _index (_db s) → shape_at h' y = shape_at (db_heap (_db s)) y) →
  same_blocks s (set_db (set_heap h' (_db s)) s).
Proof.
  intros Hsh. split; [| |done|done].
  - intros j y. unfold block_at. cbn. split; intros (Hy & d3 & Hd3 & H1 & H2); (split; [done|]);
      specialize (Hsh y Hy); unfold shape_at in Hsh; rewrite Hd3 in Hsh; cbn in Hsh;
      [destruct (deltas (db_heap (_db s)) !! y) as [d|]|destruct (deltas h' !! y) as [d|]]; try done;
      injection Hsh as _ ? ?; exists d; split_and!; congruence.
  - intros i y. unfold relevant. cbn. split; intros (Hy & Hi & d3 & Hd3 & H2); (split; [done|]);
      specialize (Hsh y Hy); unfold shape_at, id_at in *; rewrite Hd3 in Hsh, Hi; cbn in Hsh, Hi;
      [destruct (deltas (db_heap (_db s)) !! y) as [d|]|destruct (deltas h' !! y) as [d|]]; try done;
      injection Hsh as _ ? ?; (split; [cbn; congruence|]); exists d; split; congruence.
Qed.

Lemma reshaped_ok s root hd h' : mempool_ok s root hd → db_ok (set_heap h' (_db s)) root hd →
  (∀ y, y ∈ _index (_db s) → shape_at h' y = shape_at (db_heap (_db s)) y) →
  (∀ y, y ∈ _index (_db s) → ∃ P, holds (set_heap h' (_db s)) y P) →
  mempool_ok (set_db (set_heap h' (_db s)) s) root hd.
Proof. intros Hok Hdb Hsh Hp. split; [done|apply Hok|apply forest_shape; [done|apply Hok]|done]. Qed.

(** A change of one node's pool. *)
Lemma change_pool {A} s root hd i p P (q : loc → prog heap mexn A) (a : A) P' :
  mempool_ok s root hd → block_at s i p → pending s i P →
  (∀ m next, pool_view m P next → ∃ m', (∀ l, on_view l m (q l) (Ok a) m') ∧ pool_view m' P' next) →
  ∃ x s', relevant s i x ∧ on_node (q x) s = (Ok a, s') ∧ mempool_ok s' root hd ∧ same_blocks s s' ∧ pending s' i P' ∧
    ∀ j Q, j ≠ i → pending s' j Q ↔ pending s j Q.
Proof.
  intros Hok Hb (x & Hr & m & next & Hv & HP) Hq. destruct (Hq m next HP) as (m' & Hrun & HP').
  pose proof Hr as (Hx & Hid & d & Hd & Hf). pose proof (mo_db _ _ _ Hok) as Hdb.
  destruct (on_node_writes s root hd x d m (q x) _ m' Hdb Hx Hd Hf Hv (Hrun x)) as (h' & Hrun' & Hw).
  destruct (ok_written s root hd x d m' h' P' next Hok Hx Hd Hf Hw HP') as (Hok' & Hh' & Hother & Hrel).
  exists x, (set_db (set_heap h' (_db s)) s). split_and!; [done..| | |].
  - apply reshaped_blocks. intros y _. by eapply writes_shape.
  - exists x. split; [by apply Hrel|done].
  - intros j Q Hne. unfold pending. split; intros (y & Hy & HQ).
    + apply Hrel in Hy. exists y. split; [done|]. apply Hother; [apply Hy| |done]. intros ->. apply Hne, hash_inj.
      destruct Hy as (_ & Hyid & _). congruence.
    + exists y. split; [by apply Hrel|]. apply Hother; [apply Hy| |done]. intros ->. apply Hne, hash_inj.
      destruct Hy as (_ & Hyid & _). congruence.
Qed.

Lemma pending_exists s root hd i p : mempool_ok s root hd → block_at s i p → ∃ P, pending s i P.
Proof.
  intros Hok Hb. destruct (relevant_exists _ _ _ _ _ Hok Hb) as (x & Hr & _).
  destruct (mo_pools _ _ _ Hok x (proj1 Hr)) as [P HP]. exists P, x. done.
Qed.

Lemma index_list_perm db : index_list db ≡ₚ _index db.
Proof.
  unfold index_list. rewrite merge_sort_Permutation, <- list_fmap_compose. cbn.
  by rewrite list_fmap_id.
Qed.

(** ** The loop over the fork heads *)

Section ForkLoop.
Context (body : option loc → prog heap mexn Z) (f : pool → pool) (g : pool → Z).
Hypothesis Hbody : ∀ m P next, pool_view m P next →
  ∃ m', (∀ l, on_view l m (body (Some l)) (Ok (g P)) m') ∧ pool_view m' (f P) next.

(** The ids of a list of block nodes. *)
Definition blocks_of s (nodes : list state_node) (ids : list multihash) : Prop :=
  Forall2 (λ n i, block_at s i (_state n)) nodes ids.

Lemma fork_loop_run root hd head_id nodes ids : NoDup ids → ∀ s c, mempool_ok s root hd → blocks_of s nodes ids →
  ∃ s' c', fork_loop body head_id nodes c s = (Ok c', s') ∧ mempool_ok s' root hd ∧ same_blocks s s' ∧
    (∀ i P, i ∈ ids → pending s i P → pending s' i (f P)) ∧
    (∀ i P, i ∉ ids → pending s' i P ↔ pending s i P) ∧
    (∀ P, head_id ∈ ids → pending s head_id P → c' = g P) ∧ (head_id ∉ ids → c' = c).
Proof.
  revert nodes. induction ids as [|i ids IH]; intros nodes Hn s c Hok Hbs.
  { inversion Hbs; subst. exists s, c. split_and!; [done|done|apply same_blocks_refl|by intros i P Hi%elem_of_nil|done|by intros P Hi%elem_of_nil|done]. }
  inversion Hbs as [|n0 i0 nodes' ids0 Hb Hbs']; subst. apply NoDup_cons in Hn as [Hi Hn].
  destruct (pending_exists _ _ _ _ _ Hok Hb) as [P HP]. pose proof HP as (x & Hr & _).
  cbn [fork_loop]. pose proof Hb as (Hp & dp & Hdp & Hid & _).
  destruct (change_pool s root hd i _ P (λ l, body (Some l)) (g P) (f P) Hok Hb HP) as (x' & s1 & Hr' & Hrun & Hok1 & Hsb & HP1 & Hother).
  { intros m next HPv. by apply Hbody. }
  pose proof (relevant_unique s root hd i x' x Hok Hr' Hr) as ->.
  destruct (IH nodes' Hn s1 (if bool_decide (i = head_id) then g P else c) Hok1) as (s2 & c2 & Hrun2 & Hok2 & Hsb2 & Hin & Hout & Hc & Hc').
  { eapply Forall2_impl; [exact Hbs'|]. intros n j Hj. by apply (sb_block _ _ Hsb). }
  exists s2, c2. split_and!.
  - rewrite run_bind, (run_node_id s n0 dp Hdp), Hid, run_bind, (proj1 (run_relevant _ _ _ _ _ _ Hok Hb Hr)).
    cbn [deref_node mret prog_ret]. rewrite run_bind. cbn [mret prog_ret fmap option_fmap option_map _state].
    by rewrite run_bind, Hrun.
  - done.
  - by eapply same_blocks_trans.
  - intros j Q [->|Hj]%elem_of_cons HQ.
    + rewrite (pending_unique s root hd i Q P Hok HQ HP). by apply Hout.
    + assert (j ≠ i) by congruence. apply Hin; [done|]. by apply Hother.
  - intros j Q Hj. rewrite not_elem_of_cons in Hj. rewrite Hout by tauto. apply Hother. tauto.
  - intros Q Hj HQ. destruct (decide (i = head_id)) as [->|Hne].
    + rewrite (pending_unique s root hd head_id Q P Hok HQ HP), Hc' by done. by rewrite bool_decide_eq_true_2.
    + apply elem_of_cons in Hj as [->|Hj]; [done|]. apply (Hc Q Hj). by apply Hother.
  - intros Hj. rewrite not_elem_of_cons in Hj. rewrite Hc' by tauto. by rewrite bool_decide_eq_false_2 by (intros ->; tauto).
Qed.

End ForkLoop.

(** ** Removing and pruning *)

(** The id of the head. *)
Definition head_of s (hd : loc) : multihash := the_id (db_heap (_db s)) hd.

Lemma head_block s root hd : mempool_ok s root hd → block_at s (head_of s hd) hd.
Proof.
  intros Hok. destruct (ok_head _ _ _ (mo_db _ _ _ Hok)) as (_ & Hhi & d & Hd & Hf). split; [done|]. exists d.
  unfold head_of, the_id, id_at. by rewrite Hd.
Qed.

(** [i] is a fork head: a block without a block on top of it. *)
Definition fork_head s i : Prop := is_Some (_fork_heads (_db s) !! i).

Definition fork_entries db : list (multihash * loc) := merge_sort multihash_le (map_to_list (_fork_heads db)).

Lemma fork_ids db i : i ∈ (fork_entries db).*1 ↔ is_Some (_fork_heads db !! i).
Proof.
  unfold fork_entries. rewrite merge_sort_Permutation, list_elem_of_fmap. split.
  - intros ([k l] & -> & Hin%elem_of_map_to_list). by exists l.
  - intros [l Hl]. exists (i, l). split; [done|]. by apply elem_of_map_to_list.
Qed.

Lemma fork_ids_NoDup db : NoDup (fork_entries db).*1.
Proof. unfold fork_entries. rewrite merge_sort_Permutation. apply NoDup_fst_map_to_list. Qed.

Lemma fork_blocks s root hd : mempool_ok s root hd →
  blocks_of s ((λ x, mk_state_node x None) <$> fork_heads_list (_db s)) (fork_entries (_db s)).*1.
Proof.
  intros Hok. unfold blocks_of, fork_heads_list. fold (fork_entries (_db s)).
  assert (∀ e, e ∈ fork_entries (_db s) → _fork_heads (_db s) !! e.1 = Some e.2) as Hin.
  { intros [i l]. unfold fork_entries. by rewrite merge_sort_Permutation, elem_of_map_to_list. }
  induction (fork_entries (_db s)) as [|e L IH]; cbn; constructor; [|apply IH; intros; apply Hin; by right].
  destruct (ok_forks _ _ _ (mo_db _ _ _ Hok) _ _ (Hin e ltac:(by left))) as (Hl & Hid & d & Hd & Hf).
  split; [done|]. exists d. split_and!; [done| |done]. unfold id_at in Hid. cbn. rewrite Hd in Hid. cbn in Hid. congruence.
Qed.

(** What a change of the pools after the fork heads does. *)
Definition forks_changed s s' (hd : loc) (f : pool → pool) (n : Z) : Prop :=
  same_blocks s s' ∧
  (∀ i P, fork_head s i → pending s i P → pending s' i (f P)) ∧
  (∀ i P, ¬ fork_head s i → pending s' i P ↔ pending s i P) ∧
  (∀ P, fork_head s (head_of s hd) → pending s (head_of s hd) P → n = Z.of_nat (length P - length (f P))).

Lemma forks_run s root hd (body : option loc → prog heap mexn Z) (f : pool → pool) : mempool_ok s root hd →
  (∀ m P next, pool_view m P next → ∃ m', (∀ l, on_view l m (body (Some l))
     (Ok (Z.of_nat (length P - length (f P)))) m') ∧ pool_view m' (f P) next) →
  ∃ s' n, (nodes ← on_db (get_fork_heads_unique unique_lock); head ← on_db (get_head_unique unique_lock);
           head_id ← node_id_of head; fork_loop body head_id nodes 0) s = (Ok n, s') ∧
    mempool_ok s' root hd ∧ forks_changed s s' hd f n.
Proof.
  intros Hok Hbody. pose proof (mo_db _ _ _ Hok) as Hdb.
  assert (get_fork_heads_unique unique_lock (_db s)
    = (Ok ((λ x, mk_state_node x None) <$> fork_heads_list (_db s)), _db s)) as Hforks.
  { unfold get_fork_heads_unique. cbn [verify_unique_lock unique_lock owns_lock on_node_mutex negb assert_that].
    rewrite run_bind. cbn [mret prog_ret]. by rewrite run_bind, (run_assert_open _ _ _ Hdb). }
  destruct (ok_head _ _ _ Hdb) as (_ & Hhi & _). destruct (ok_delta _ _ _ _ Hdb Hhi) as (dh & _ & _ & Hdh & _).
  destruct (fork_loop_run body f _ Hbody root hd (head_of s hd) _ _ (fork_ids_NoDup (_db s)) s 0 Hok (fork_blocks s root hd Hok))
    as (s' & n & Hrun & Hok' & Hsb & Hin & Hout & Hn & _).
  exists s', n. split; [|split; [done|split_and!; [done|..]]].
  - rewrite run_bind, (run_on_db_pure _ _ _ Hforks).
    rewrite run_bind, (run_on_db_pure _ _ _ (proj1 (run_get_head_db _ _ _ Hdb))).
    rewrite run_bind, (run_node_id s (mk_state_node hd None) dh Hdh). rewrite <- Hrun. f_equal.
    unfold head_of, the_id, id_at. by rewrite Hdh.
  - intros i P Hi. apply Hin. by apply fork_ids.
  - intros i P Hi. apply Hout. by rewrite fork_ids.
  - intros P Hi. apply Hn. by apply fork_ids.
Qed.

Lemma remove_spec s root hd ids : mempool_ok s root hd →
  ∃ s' n, remove_pending_transactions ids s = (Ok n, s') ∧ mempool_ok s' root hd ∧ forks_changed s s' hd (kept ids) n.
Proof. intros Hok. apply forks_run; [done|]. intros m P next HP. by apply remove_ids_run. Qed.

Lemma prune_spec s root hd expiration now : mempool_ok s root hd →
  ∃ s' n, prune expiration now s = (Ok n, s') ∧ mempool_ok s' root hd ∧ forks_changed s s' hd (pruned expiration now) n.
Proof.
  intros Hok. apply forks_run; [done|]. intros m P next HP. destruct (prune_fuel_run expiration now m P next HP) as (m' & Hrun & HP').
  exists m'. split; [|done]. intros l. eapply on_read; [by apply reads_view_ret|]. apply Hrun.
Qed.

End Changes.
