(* ===== verification/MempoolAdd.v ===== *)
(** Adding a transaction: a session on every writable node, committed
    together or not at all.

    What [add_pending_transaction] promises: the transaction is appended to
    the pool after every block whose account nonce it does not conflict
    with, or it is refused and no pool changes. *)

From S2P Require Import Prelude Storage Keys MapBackend StateDelta StateNode StateDeltaFacts StateCommit.
From S2P Require Import StateDatabase StateDiscard StateInvariant StateGrow.
From S2P Require Import StateTheorems StateProperties ObjectIteration ObjectIterationTheorems Mempool.
From S2P Require Import MempoolImpl MempoolFacts MempoolPool MempoolQueries MempoolState MempoolChanges.
From S2P Require Import MempoolChanges.
Import StateDelta StateDatabase StateNode ObjectIteration Mempool MempoolImpl.

Section Sessions.
Context `{Hcrypto : !Crypto}.
Implicit Types (db : database) (h : heap) (d : state_delta) (m : gmap bytes bytes) (x l : loc).

(** An open session on [x] with delta [l] that reads [m]. *)
Definition session_at db x l m : Prop :=
  session_on db x l ∧ view (db_heap db) l = Some m ∧
  ∃ d dx, deltas (db_heap db) !! l = Some d ∧ deltas (db_heap db) !! x = Some dx ∧ _revision dx < _revision d.

(** The indexed nodes are as in [h]. *)
Definition untouched db h : Prop := ∀ y, y ∈ _index db →
  deltas (db_heap db) !! y = deltas h !! y ∧ view (db_heap db) y = view h y.

Lemma session_readable db r hd x l m : db_ok db r hd → session_at db x l m → ascends (db_heap db) l.
Proof.
  intros Hok ((Hx & _ & _ & d & Hd & Hp & _) & _ & d' & dx & Hd' & Hdx & Hrev).
  assert (d' = d) as -> by congruence. eapply child_ascends; [|done..]. by eapply node_ascends.
Qed.

(** A session survives a change of the heap that leaves its delta, its node
    and its view. *)
Lemma session_frame db h' x l m : session_at db x l m → deltas h' !! l = deltas (db_heap db) !! l →
  deltas h' !! x = deltas (db_heap db) !! x → view h' l = view (db_heap db) l → session_at (set_heap h' db) x l m.
Proof.
  intros ((Hx & Hl & Hdx & Hd) & Hv & Hrev) H1 H2 H3. unfold session_at, session_on. cbn. rewrite H1, H2, H3. done.
Qed.

Lemma above_session db r hd x l d y : db_ok db r hd → deltas (db_heap db) !! l = Some d → _parent d = Some x →
  above (db_heap db) y l → y = l ∨ above (db_heap db) y x.
Proof. intros Hok Hd Hp Ha. inversion Ha as [|l0 d0 p0 Hd0 Hp0 Ha0]; subst; [by left|]. right. congruence. Qed.

(** A new session on a writable node. *)
Lemma session_new db r hd x d m : db_ok db r hd → x ∈ _index db → deltas (db_heap db) !! x = Some d →
  _finalized d = false → 0 ≤ _revision d < u64_max → view (db_heap db) x = Some m →
  ∃ h' l, create_anonymous_node (StateNode x) (db_heap db) = (Ok (AnonymousNode (StateNode x) l), h') ∧
    db_ok (set_heap h' db) r hd ∧ untouched (set_heap h' db) (db_heap db) ∧ session_at (set_heap h' db) x l m ∧
    ∀ x' l' m', session_at db x' l' m' → l' ≠ l ∧ session_at (set_heap h' db) x' l' m'.
Proof.
  intros Hok Hx Hd Hf Hrev Hv.
  destruct (make_child_spec (db_heap db) x d null_id default_header m (ok_heap _ _ _ Hok) Hd Hv) as (Hrun & Hh & Hvn & Hold).
  set (c := child_delta x d null_id default_header) in *. set (l := next_loc (db_heap db)) in *.
  assert (∀ y dy, deltas (db_heap db) !! y = Some dy → y ≠ l ∧ deltas (alloc_delta c (db_heap db)) !! y = Some dy) as Hlt.
  { intros y dy Hy. pose proof (heap_fresh _ (ok_heap _ _ _ Hok) _ _ Hy). split; [unfold l; lia|].
    cbn. by rewrite lookup_insert_ne by lia. }
  assert (l ∉ _index db) as Hl.
  { intros Hin. destruct (ok_delta _ _ _ _ Hok Hin) as (dy & _ & _ & Hdy & _). by destruct (Hlt _ _ Hdy). }
  exists (alloc_delta c (db_heap db)), l. split_and!.
  - unfold create_anonymous_node. cbn [state_of]. by rewrite run_bind, Hrun.
  - by apply db_ok_alloc.
  - intros y Hy. destruct (ok_delta _ _ _ _ Hok Hy) as (dy & _ & _ & Hdy & _). destruct (Hlt _ _ Hdy) as [Hne Hdy'].
    cbn [db_heap set_heap]. by rewrite Hdy', Hdy, Hold.
  - destruct (Hlt _ _ Hd) as [_ Hd']. split; [|split; [exact Hvn|]].
    + split; [done|]. split; [done|]. split; [by exists d|].
      exists c. split; [cbn; by rewrite lookup_insert_eq|done].
    + exists c, d. split_and!; [cbn; by rewrite lookup_insert_eq|done|]. cbn. unfold u64. rewrite wrap_small; [lia|].
      unfold u64_max in Hrev. lia.
  - intros x' l' m' Hs. pose proof Hs as ((_ & _ & (dx & Hdx & _) & (d' & Hd' & _)) & _).
    destruct (Hlt _ _ Hd') as [Hne Hd2]. destruct (Hlt _ _ Hdx) as [_ Hdx2]. split; [done|].
    apply session_frame; [done|congruence|congruence|by apply Hold].
Qed.

(** A write in a session is seen by no other node and no other session. *)
Lemma session_write db r hd x l m m' h' : db_ok db r hd → session_at db x l m → writes (db_heap db) l m' h' →
  db_ok (set_heap h' db) r hd ∧ untouched (set_heap h' db) (db_heap db) ∧ session_at (set_heap h' db) x l m' ∧
  ∀ x' l' m0, l' ≠ l → session_at db x' l' m0 → session_at (set_heap h' db) x' l' m0.
Proof.
  intros Hok Hs Hw. pose proof Hs as ((Hx & Hl & (dx & Hdx & Hfx) & (d & Hd & Hp & Hf)) & _ & (d2 & dx2 & Hd2 & Hdx2 & Hrev)).
  assert (d2 = d) as -> by congruence. assert (dx2 = dx) as -> by congruence.
  pose proof Hw as (d0 & d' & Hd0 & Hh' & (Hp' & _ & Hr' & Hf' & _) & _ & Hv'). assert (d0 = d) as -> by congruence.
  assert (heap_ok h') as Hh by (eapply writes_ok; [apply Hok|done]).
  assert (∀ y, y ≠ l → deltas h' !! y = deltas (db_heap db) !! y) as Hne.
  { intros y Hy. rewrite Hh'. by apply lookup_set_delta_ne. }
  assert (∀ y, ¬ above (db_heap db) l y → view h' y = view (db_heap db) y) as Hview.
  { intros y Hy. apply (view_frame (db_heap db) h' l); [apply Hok|done|done|]. intros z Hz. rewrite Hh'. by apply core_set_delta_ne. }
  assert (∀ y, y ∈ _index db → y ≠ l) as Hidx by (intros y Hy ->; done).
  split_and!.
  - eapply db_ok_writes_any; [done..|]. done.
  - intros y Hy. split; [by apply Hne, Hidx|]. apply Hview. by eapply outside_leaf.
  - assert (deltas h' !! x = Some dx) as Hdx' by (by rewrite Hne by by apply Hidx).
    split; [split; [done|split; [done|split; [by exists dx|]]]|split; [done|]].
    + exists d'. cbn [db_heap set_heap]. rewrite Hh', set_delta_lookup. split_and!; [done|congruence|congruence].
    + exists d', dx. cbn [db_heap set_heap]. rewrite Hdx', Hh', set_delta_lookup. split_and!; [done|done|lia].
  - intros x' l' m0 Hll Hs'. pose proof Hs' as ((Hx' & _ & _ & (e & He & Hpe & _)) & _).
    apply session_frame; [done|by apply Hne|by apply Hne, Hidx|]. apply Hview. intros Ha.
    destruct (above_session db r hd x' l' e l Hok He Hpe Ha) as [->|Ha']; [done|]. by eapply (outside_leaf db r hd l x').
Qed.

(** Committing a session gives its node its view and touches no other node
    and no session on another node. *)
Lemma session_done db r hd x l m : db_ok db r hd → session_at db x l m →
  ∃ n h', anonymous_commit (AnonymousNode (StateNode x) l) (db_heap db) = (Ok n, h') ∧ db_ok (set_heap h' db) r hd ∧
    (∀ y, shape_at h' y = shape_at (db_heap db) y ∨ y ∉ _index db) ∧
    view h' x = Some m ∧ (∀ y, y ∈ _index db → y ≠ x → view h' y = view (db_heap db) y) ∧
    ∀ x' l' m', x' ≠ x → session_at db x' l' m' → session_at (set_heap h' db) x' l' m'.
Proof.
  intros Hok (Hs & Hv & _). destruct (session_commit_run db r hd x l m Hok Hs Hv) as (h1 & d1 & Hrun & Hnl & _ & _ & Hw & Hok1 & Hh2 & _).
  pose proof Hs as (Hx & Hl & (dx & Hdx & Hf) & _).
  assert (anonymous_commit (AnonymousNode (StateNode x) l) (db_heap db)
    = (Ok (AnonymousNode (StateNode x) (next_loc (db_heap db))), alloc_delta d1 h1)) as Hrun'.
  { unfold on_heap in Hrun. destruct (anonymous_commit _ (db_heap db)) as [o h2]. injection Hrun as -> Heq.
    by rewrite Heq. }
  assert (∀ y dy, deltas (db_heap db) !! y = Some dy → y ≠ next_loc h1) as Hfresh.
  { intros y dy Hy. pose proof (heap_fresh _ (ok_heap _ _ _ Hok) _ _ Hy). rewrite Hnl. lia. }
  assert (∀ y dy, deltas (db_heap db) !! y = Some dy → view (alloc_delta d1 h1) y = view h1 y) as Halloc.
  { intros y dy Hy. apply alloc_view; [apply Hok1|done|by eapply Hfresh]. }
  pose proof Hw as (dx0 & dx' & Hdx0 & Hh1 & _).
  eexists _, _. split; [exact Hrun'|]. split; [by apply (db_ok_alloc (set_heap h1 db) r hd d1 Hok1)|]. split_and!.
  - intros y. destruct (decide (y ∈ _index db)) as [Hy|Hy]; [|by right]. left.
    destruct (ok_delta _ _ _ _ Hok Hy) as (dy & _ & _ & Hdy & _). pose proof (Hfresh _ _ Hdy).
    transitivity (shape_at h1 y); [|by eapply writes_shape]. unfold shape_at. cbn. by rewrite lookup_insert_ne.
  - rewrite (Halloc _ _ Hdx). by destruct Hw as (_ & _ & _ & _ & _ & _ & ?).
  - intros y Hy Hne. destruct (ok_delta _ _ _ _ Hok Hy) as (dy & _ & _ & Hdy & _).
    rewrite (Halloc _ _ Hdy). exact (writes_isolated db r hd x dx m h1 y Hok Hdx Hf Hw Hy Hne).
  - intros x' l' m' Hne Hs'. pose proof Hs' as ((Hx' & Hl' & (dx2 & Hdx2 & _) & (e & He & Hpe & _)) & _).
    assert (l' ≠ x) as Hlx by (intros ->; done).
    apply session_frame; [done| | |].
    + pose proof (Hfresh _ _ He). cbn. rewrite lookup_insert_ne by done. rewrite Hh1. by apply lookup_set_delta_ne.
    + pose proof (Hfresh _ _ Hdx2). cbn. rewrite lookup_insert_ne by done. rewrite Hh1. by apply lookup_set_delta_ne.
    + rewrite (Halloc _ _ He). apply (view_frame (db_heap db) h1 x); [apply Hok|apply Hok1| |].
      * intros Ha. destruct (above_session db r hd x' l' e x Hok He Hpe Ha) as [->|Ha']; [done|].
        apply Hne. by eapply (unfinalized_leaf db r hd x dx x').
      * intros z Hz. rewrite Hh1. by apply core_set_delta_ne.
Qed.

End Sessions.

Section Add.
Context `{Hcrypto : !Crypto} `{Hdisk : !Disk} `{Hkeys : !DatabaseKeys} `{Hklaws : !DatabaseKeysLaws}.
Context `{Hconv : !Converter} `{Hcl : !ConverterLaws} `{Hsc : !SpacesContiguous} `{Hko : !KeyOrder}.
Context `{Hcs : !Converters} `{Hcsl : !ConvertersLaws} `{Hhash : !HashLaws}.

(** Every node has a sequence number left. *)
Definition sequence_left (s : mempool_impl) : Prop := ∀ x m P next, x ∈ _index (_db s) →
  view (db_heap (_db s)) x = Some m → pool_view m P next → next + 1 < 2 ^ 64.

Context (s0 : mempool_impl) (root hd : loc) (r : pending_transaction_record) (max : Z).
Hypothesis Hok0 : mempool_ok s0 root hd.
Hypothesis Hrev : revisions_small (_db s0).
Hypothesis Hleft : sequence_left s0.
Hypothesis Hgood : good r.
Hypothesis Hmax : is_u64 max.
Implicit Types (h : heap) (x l : loc) (m : gmap bytes bytes) (P : pool).

Abbreviation db0 := (_db s0).
Abbreviation at_heap h := (set_db (set_heap h db0) s0).

(** A session: its node, its delta and what it reads. *)
Abbreviation session := (loc * loc * gmap bytes bytes)%type.
Definition sess (e : session) : abstract_state_node := AnonymousNode (StateNode e.1.1) e.1.2.

Definition writable x : Prop := x ∈ _index db0 ∧ ∃ d, deltas (db_heap db0) !! x = Some d ∧ _finalized d = false.

(** What the node [x] answers to the transaction, and what it reads then. *)
Definition takes x (o : outcome mexn Z) m' : Prop := ∃ m P next,
  view (db_heap db0) x = Some m ∧ pool_view m P next ∧ o = (add_spec P next r max).1 ∧
  m' = match o with Ok _ => added m P next r max | _ => m end.

(** The heap while sessions are open: no node has changed yet. *)
Definition stage h (S : list session) : Prop :=
  db_ok (set_heap h db0) root hd ∧ untouched (set_heap h db0) (db_heap db0) ∧
  ∀ e, e ∈ S → session_at (set_heap h db0) e.1.1 e.1.2 e.2.

Lemma takes_unique x o m o' m' : takes x o m → takes x o' m' → o = o' ∧ m = m'.
Proof.
  intros (m1 & P & n & Hv & HP & -> & ->) (m2 & Q & n' & Hv' & HQ & -> & ->).
  assert (m1 = m2) as <- by congruence. assert (P = Q) as <- by by eapply pool_unique.
  assert (n = n') as <-; [|done].
  pose proof (pv_metadata _ _ _ HP) as H1. pose proof (pv_metadata _ _ _ HQ) as H2.
  destruct (m1 !! _) as [v|]; [|congruence]. subst v. apply (f_equal to_metadata) in H2.
  pose proof (pv_next _ _ _ HP). pose proof (pv_next _ _ _ HQ).
  rewrite !to_as_metadata in H2 by (unfold is_u64; cbn; lia). congruence.
Qed.

Lemma takes_exists x : x ∈ _index db0 → ∃ o m', takes x o m'.
Proof.
  intros Hx. destruct (mo_pools _ _ _ Hok0 x Hx) as (P & m & next & Hv & HP).
  eexists _, _. by exists m, P, next.
Qed.

Lemma takes_run x o m' l : x ∈ _index db0 → takes x o m' →
  ∃ m, view (db_heap db0) x = Some m ∧ on_view l m (add_pending_transaction_to_node l r max) o m' ∧
    ∃ Q next, pool_view m' Q next.
Proof.
  intros Hx (m & P & next & Hv & HP & -> & ->). exists m. split; [done|].
  destruct (add_run m P next l r max HP (Hleft x m P next Hx Hv HP) Hgood Hmax) as [Hrun [n' Hp']].
  split; [exact Hrun|]. by eexists _, n'.
Qed.

Lemma run_at_heap {A} (q : prog heap exn A) h a h' : q h = (Ok a, h') →
  on_db (on_heap q) (at_heap h) = (Ok a, at_heap h').
Proof. intros Hq. apply (run_on_db (on_heap q) (at_heap h) (Ok a)). unfold on_heap. cbn. by rewrite Hq. Qed.

Lemma run_at_node {A} (q : prog heap mexn A) h o h' : q h = (o, h') → on_node q (at_heap h) = (o, at_heap h').
Proof. intros Hq. unfold on_node. cbn. by rewrite Hq. Qed.

(** One node of the loop. *)
Lemma add_step h S x o m' : stage h S → writable x → takes x o m' → ∃ l h1 h2,
  create_anonymous_node (StateNode x) h = (Ok (AnonymousNode (StateNode x) l), h1) ∧
  add_pending_transaction_to_node l r max h1 = (o, h2) ∧ stage h2 (S ++ [(x, l, m')]).
Proof.
  intros (Hok & Hun & HS) (Hx & d & Hd & Hf) Ht. destruct (Hun x Hx) as [Hdx Hvx]. cbn in Hdx, Hvx.
  rewrite Hd in Hdx. destruct (takes_run x o m' 1%positive Hx Ht) as (m & Hv & _). rewrite Hv in Hvx.
  destruct (session_new (set_heap h db0) root hd x d m Hok Hx Hdx Hf (Hrev x d Hx Hd) Hvx)
    as (h1 & l & Hrun & Hok1 & Hun1 & Hs1 & Hold1). cbn in Hrun.
  destruct (takes_run x o m' l Hx Ht) as (m2 & Hv2 & Hadd & _). assert (m2 = m) as -> by congruence.
  pose proof Hs1 as ((_ & _ & _ & dl & Hdl & _ & Hfl) & Hvl & _).
  destruct (Hadd h1 dl) as (h2 & Hrun2 & Hw); [apply Hok1|done|done|done|by eapply (session_readable (set_heap h1 db0))|].
  destruct (session_write (set_heap h1 db0) root hd x l m m' h2 Hok1 Hs1 Hw) as (Hok2 & Hun2 & Hs2 & Hold2).
  exists l, h1, h2. split_and!; [done|done|]. split; [done|]. split.
  - intros y Hy. destruct (Hun y Hy), (Hun1 y Hy), (Hun2 y Hy). cbn in *. split; congruence.
  - intros e [He| ->%list_elem_of_singleton]%elem_of_app; [|done].
    destruct (Hold1 _ _ _ (HS e He)) as [Hne Hs']. by apply (Hold2 _ _ _ Hne).
Qed.

(** The answer of a node to the head's resources. *)
Definition rc_after (xh : loc) (states : list loc) (rc rc' : Z) : Prop :=
  (∀ v m', xh ∈ states → takes xh (Ok v) m' → rc' = v) ∧
  (∀ e m', xh ∈ states → takes xh (Throw e) m' → rc' = rc) ∧ (xh ∉ states → rc' = rc).

(** The loop throws at the first node that refuses, or opens a session on
    every writable node. *)
Definition loop_result (xh : loc) (nodes : list state_node) (S : list session) rc (b : bool)
    (res : outcome mexn (list abstract_state_node * Z * bool) * mempool_impl) : Prop :=
  (∃ x e m' h', writable x ∧ takes x (Throw e) m' ∧ e ≠ pending_transaction_nonce_conflict ∧
     res = (Throw e, at_heap h') ∧ stage h' []) ∨
  (∃ h' S' rc' b', res = (Ok (sess <$> (S ++ S'), rc', b'), at_heap h') ∧ stage h' (S ++ S') ∧
     NoDup S'.*1.*1 ∧ (∀ x, x ∈ S'.*1.*1 ↔ x ∈ _state <$> nodes ∧ writable x) ∧
     (∀ e, e ∈ S' → ∃ o, takes e.1.1 o e.2 ∧ ((∃ v, o = Ok v) ∨ o = Throw pending_transaction_nonce_conflict)) ∧
     (b' = true ↔ b = true ∨ ∃ e v, e ∈ S' ∧ takes e.1.1 (Ok v) e.2) ∧
     rc_after xh S'.*1.*1 rc rc').

(** One iteration's [try] block. *)
Definition attempt (th n : state_node) (node : abstract_state_node) rc b : prog mempool_impl mexn (Z * bool) :=
  try_catch
    (v ← on_node (add_pending_transaction_to_node (state_of node) r max);
     id ← node_id_of n; head ← deref_node (Some th); head_id ← node_id_of head;
     mret (if bool_decide (id = head_id) then v else rc, true))
    (λ e, if bool_decide (e = pending_transaction_nonce_conflict) then mret (rc, b) else raise e).

Lemma attempt_run th n l h1 h2 o rc b : _state th ∈ _index db0 → _state n ∈ _index db0 → stage h2 [] →
  add_pending_transaction_to_node l r max h1 = (o, h2) →
  attempt th n (AnonymousNode (StateNode (_state n)) l) rc b (at_heap h1) =
    (match o with
     | Ok v => Ok (if bool_decide (_state n = _state th) then v else rc, true)
     | Throw e => if bool_decide (e = pending_transaction_nonce_conflict) then Ok (rc, b) else Throw e
     | OutOfFuel => OutOfFuel
     end, at_heap h2).
Proof.
  intros Hth Hn (Hok & _) Hrun. unfold attempt, try_catch. cbn [state_of].
  rewrite run_bind, (run_at_node _ _ _ _ Hrun). destruct o as [v|e|]; [|by case_bool_decide|done].
  destruct (ok_delta _ _ _ _ Hok Hn) as (dn & _ & _ & Hdn & _). destruct (ok_delta _ _ _ _ Hok Hth) as (dt & _ & _ & Hdt & _).
  rewrite run_bind, (run_node_id (at_heap h2) n dn Hdn). cbn [deref_node]. rewrite run_bind. cbn [mret prog_ret].
  rewrite run_bind, (run_node_id (at_heap h2) th dt Hdt). cbn [mret prog_ret].
  rewrite (bool_decide_ext (_id dn = _id dt) (_state n = _state th)); [done|]. split.
  - intros Heq. apply (ok_unique _ _ _ Hok); [done|done|]. unfold id_at. rewrite Hdn, Hdt. cbn. congruence.
  - intros Heq. rewrite Heq in Hdn. congruence.
Qed.

Lemma stage_sub h S S' : S' ⊆ S → stage h S → stage h S'.
Proof. intros Hs (? & ? & HS). split_and!; [done..|]. intros e He. by apply HS, Hs. Qed.

Lemma takes_fuel x m' : ¬ takes x OutOfFuel m'.
Proof. intros (m & P & n & _ & _ & Ho & _). unfold add_spec in Ho. by repeat case_match. Qed.

Lemma add_loop_cons th n nodes S rc b (s : mempool_impl) : add_loop r max (Some th) (n :: nodes) S rc b s =
  (finalized ← node_finalized_of n;
   if (finalized : bool) then add_loop r max (Some th) nodes S rc b
   else node ← on_db (on_heap (create_anonymous_node (StateNode (_state n))));
        '(rc, b) ← attempt th n node rc b;
        add_loop r max (Some th) nodes (S ++ [node]) rc b) s.
Proof. reflexivity. Qed.

Lemma loop_skip xh n nodes S rc b res : ¬ writable (_state n) → loop_result xh nodes S rc b res →
  loop_result xh (n :: nodes) S rc b res.
Proof.
  intros Hn [Hl|(h' & S' & rc' & b' & ? & ? & ? & Hin & ?)]; [by left|]. right. exists h', S', rc', b'.
  split_and!; try tauto. intros x. rewrite Hin. cbn. rewrite elem_of_cons. split; [tauto|]. intros [[->|?] ?]; [done|tauto].
Qed.

(** A node that took the transaction, or whose account nonce conflicts. *)
Lemma loop_took xh n nodes S l m' o rc b res : writable (_state n) → _state n ∉ _state <$> nodes →
  takes (_state n) o m' → ((∃ v, o = Ok v) ∨ o = Throw pending_transaction_nonce_conflict) →
  loop_result xh nodes (S ++ [(_state n, l, m')])
    (match o with Ok v => if bool_decide (_state n = xh) then v else rc | _ => rc end)
    (match o with Ok _ => true | _ => b end) res →
  loop_result xh (n :: nodes) S rc b res.
Proof.
  intros Hw Hn Ht Ho [Hl|(h' & S' & rc' & b' & Hres & HS & Hnd & Hin & He & Hb & Hok & Herr & Hout)]; [by left|]. right.
  assert (_state n ∉ S'.*1.*1) as Hn' by (rewrite Hin; tauto).
  assert (∀ o' m2, takes (_state n) o' m2 → o' = o ∧ m2 = m') as Hu by (intros; by eapply takes_unique).
  rewrite <- app_assoc in Hres, HS. cbn [app] in Hres, HS. exists h', ((_state n, l, m') :: S'), rc', b'. split_and!.
  - done.
  - done.
  - cbn. by constructor.
  - intros x. cbn. rewrite !elem_of_cons, Hin. split; [intros [->|?]; tauto|tauto].
  - intros e [->|HeS]%elem_of_cons; [|by apply He]. by exists o.
  - rewrite Hb. destruct Ho as [[v ->]| ->].
    + split; [intros _|by left]. right. exists (_state n, l, m'), v. split; [by left|done].
    + split; [intros [?|(e & v & ? & ?)]; [by left|]; right; exists e, v; split; [by right|done]|].
      intros [?|(e & v & [->|?]%elem_of_cons & Hev)]; [by left| |right; by exists e, v].
      by destruct (Hu _ _ Hev).
  - unfold rc_after. cbn [fmap list_fmap fst]. split_and!.
    + intros v m2 [->|Hx]%elem_of_cons Hxt; [|by eapply Hok].
      rewrite Hout by done. destruct (Hu _ _ Hxt) as [<- _]. by rewrite bool_decide_eq_true_2.
    + intros e m2 [->|Hx]%elem_of_cons Hxt.
      * rewrite Hout by done. by destruct (Hu _ _ Hxt) as [<- _].
      * rewrite (Herr e m2) by done. destruct o; [|done..]. rewrite bool_decide_eq_false_2; [done|]. by intros <-.
    + intros [Hx1 Hx2]%not_elem_of_cons. rewrite Hout by done. destruct o; [|done..].
      rewrite bool_decide_eq_false_2; [done|]. by intros <-.
Qed.

Lemma add_loop_run th nodes : _state th ∈ _index db0 → NoDup (_state <$> nodes) →
  Forall (λ n, _state n ∈ _index db0) nodes → ∀ h S rc b, stage h S →
  loop_result (_state th) nodes S rc b (add_loop r max (Some th) nodes (sess <$> S) rc b (at_heap h)).
Proof.
  intros Hth. induction nodes as [|n nodes IH]; intros Hnd Hin h S rc b HS.
  { right. exists h, [], rc, b. rewrite app_nil_r. split_and!; [done|done|constructor| | | |].
    - intros x. cbn. rewrite !elem_of_nil. tauto.
    - by intros e He%elem_of_nil.
    - split; [by left|]. by intros [?|(e & v & He%elem_of_nil & _)].
    - by split_and!; [intros v m' Hx%elem_of_nil|intros v m' Hx%elem_of_nil|]. }
  cbn in Hnd. apply NoDup_cons in Hnd as [Hn Hnd]. apply Forall_cons in Hin as [Hni Hin]. rewrite add_loop_cons.
  destruct (ok_delta _ _ _ _ (mo_db _ _ _ Hok0) Hni) as (d & _ & _ & Hd & _).
  pose proof HS as (_ & Hun & _). destruct (Hun _ Hni) as [Hdn _]. cbn in Hdn. rewrite Hd in Hdn.
  rewrite run_bind, (run_node_finalized (at_heap h) n d Hdn). destruct (_finalized d) eqn:Hf.
  { apply loop_skip; [|by apply IH]. intros (_ & d' & Hd' & Hf'). congruence. }
  assert (writable (_state n)) as Hw by (split; [done|by exists d]).
  destruct (takes_exists _ Hni) as (o & m' & Ht).
  destruct (add_step h S _ o m' HS Hw Ht) as (l & h1 & h2 & Hnew & Hadd & HS2).
  rewrite run_bind, (run_at_heap _ _ _ _ Hnew), run_bind.
  rewrite (attempt_run th n l h1 h2 o rc b Hth Hni); [|eapply stage_sub; [apply list_subseteq_nil|exact HS2]|done].
  replace (_ ++ [_]) with (sess <$> (S ++ [(_state n, l, m')])) by (by rewrite fmap_app).
  destruct o as [v|e|].
  - apply (loop_took _ n nodes S l m' (Ok v) rc b _ Hw Hn Ht); [eauto|]. by apply IH.
  - case_bool_decide as He.
    + subst e. apply (loop_took _ n nodes S l m' (Throw pending_transaction_nonce_conflict) rc b _ Hw Hn Ht); [eauto|]. by apply IH.
    + left. exists (_state n), e, m', h2. split_and!; [done..|]. eapply stage_sub; [apply list_subseteq_nil|exact HS2].
  - by apply takes_fuel in Ht.
Qed.

(** ** Committing the sessions *)

Definition same_shape h : Prop := ∀ y, y ∈ _index db0 → shape_at h y = shape_at (db_heap db0) y.

Lemma commit_loop_run S : NoDup S.*1.*1 → (∀ x, x ∈ S.*1.*1 → writable x) → ∀ h,
  db_ok (set_heap h db0) root hd → same_shape h →
  (∀ e, e ∈ S → session_at (set_heap h db0) e.1.1 e.1.2 e.2) →
  ∃ h', commit_loop (sess <$> S) (at_heap h) = (Ok tt, at_heap h') ∧ db_ok (set_heap h' db0) root hd ∧ same_shape h' ∧
    (∀ e, e ∈ S → view h' e.1.1 = Some e.2) ∧
    ∀ y, y ∈ _index db0 → y ∉ S.*1.*1 → view h' y = view h y.
Proof.
  induction S as [|e S IH]; intros Hnd Hw h Hok Hsh HS.
  { exists h. split_and!; [done..|by intros e He%elem_of_nil|done]. }
  cbn in Hnd. apply NoDup_cons in Hnd as [He Hnd].
  destruct (Hw e.1.1) as (Hx & d & Hd & Hf); [by left|].
  destruct (session_done (set_heap h db0) root hd e.1.1 e.1.2 e.2 Hok) as (n & h1 & Hrun & Hok1 & Hsh1 & Hv1 & Hother & Hses);
    [apply HS; by left|].
  assert (∀ e', e' ∈ S → e'.1.1 ≠ e.1.1) as Hne.
  { intros e' He' Heq. apply He. rewrite <- Heq. by do 2 apply list_elem_of_fmap_2. }
  assert (same_shape h1) as Hsh1'.
  { intros y Hy. destruct (Hsh1 y) as [Hy1|]; [|done]. rewrite Hy1. by apply Hsh. }
  destruct (IH Hnd) with (h := h1) as (h2 & Hrun2 & Hok2 & Hsh2 & Hv2 & Hother2); [|done|done| |].
  { intros x Hxs. apply Hw. by right. }
  { intros e' He'. apply Hses; [by apply Hne|]. apply HS. by right. }
  exists h2. split_and!; [|done|done| |].
  - cbn [fmap list_fmap commit_loop]. unfold sess at 1 2.
    destruct (ok_delta _ _ _ _ Hok Hx) as (dx & _ & _ & Hdx & _). cbn in Hdx.
    assert (_id dx = _id d) as Hid.
    { specialize (Hsh _ Hx). unfold shape_at in Hsh. rewrite Hdx, Hd in Hsh. cbn in Hsh. congruence. }
    rewrite run_bind, (run_at_heap _ _ (_id dx) h); [|by apply run_id].
    destruct (fo_tmp _ _ (mo_forest _ _ _ Hok0) _ d Hx Hd Hf) as (_ & _ & _ & _ & _ & _ & _ & Hmx).
    rewrite run_bind, run_mutex_at by (cbn; by rewrite Hid).
    by rewrite run_bind, (run_at_heap (anonymous_commit _) h n h1 Hrun).
  - intros e' [->|He']%elem_of_cons; [|by apply Hv2]. by rewrite Hother2.
  - intros y Hy Hys. cbn in Hys. rewrite not_elem_of_cons in Hys. rewrite Hother2 by tauto. apply Hother; [done|tauto].
Qed.

End Add.

(** The record of a transaction that arrives at [time]. *)
Definition record_at (pending_trx : pending_transaction) (time : Z) : pending_transaction_record :=
  mk_pending_transaction_record pending_trx (u64 (Z.quot time 1000000)).

Section Admit.
Context `{Hcrypto : !Crypto} `{Hdisk : !Disk} `{Hkeys : !DatabaseKeys} `{Hklaws : !DatabaseKeysLaws}.
Context `{Hconv : !Converter} `{Hcl : !ConverterLaws} `{Hsc : !SpacesContiguous} `{Hko : !KeyOrder}.
Context `{Hcs : !Converters} `{Hcsl : !ConvertersLaws} `{Hhash : !HashLaws}.
Implicit Types (h : heap) (x : loc) (m : gmap bytes bytes) (P : pool) (s : mempool_impl) (r : pending_transaction_record).

(** What a pool answers to a transaction. *)
Definition verdict P r (max : Z) : outcome mexn Z := (add_spec P 1 r max).1.

Lemma verdict_spec P next r max : (add_spec P next r max).1 = verdict P r max ∧
  (add_spec P next r max).2 = (match verdict P r max with Ok _ => P ++ [(next, r)] | _ => P end).
Proof. unfold verdict, add_spec. by repeat case_match; simplify_eq/=. Qed.

(** A pool after the loop: unchanged on a nonce conflict, extended with a
    sequence number above all others otherwise. *)
Definition admitted P r max P' : Prop :=
  match verdict P r max with
  | Ok _ => ∃ next, Forall (λ e, e.1 < next) P ∧ P' = P ++ [(next, r)]
  | Throw e => e = pending_transaction_nonce_conflict ∧ P' = P
  | OutOfFuel => False
  end.

Definition add_result s (hd : loc) r max (o : outcome mexn Z) s' : Prop :=
  same_blocks s s' ∧
  match o with
  | Ok rc =>
    (∀ i P, pending s i P → ∃ P', admitted P r max P' ∧ pending s' i P') ∧
    (∃ i P v, pending s i P ∧ verdict P r max = Ok v) ∧
    (∀ P, pending s (head_of s hd) P → rc = match verdict P r max with Ok v => v | _ => 0 end)
  | Throw e =>
    (∀ i P, pending s i P → pending s' i P) ∧
    (if decide (e = pending_transaction_nonce_conflict)
     then ∀ i P, pending s i P → verdict P r max = Throw e
     else ∃ i P, pending s i P ∧ verdict P r max = Throw e)
  | OutOfFuel => False
  end.

Section Run.
Context s (root hd : loc) (ptx : pending_transaction) (time max : Z).
Hypothesis Hok : mempool_ok s root hd.
Hypothesis Hrev : revisions_small (_db s).
Hypothesis Hleft : sequence_left s.
Hypothesis Hgood : good (record_at ptx time).
Hypothesis Hmax : is_u64 max.

Abbreviation r := (record_at ptx time).
Abbreviation after h := (set_db (set_heap h (_db s)) s).

Lemma takes_admitted x o m' P : x ∈ _index (_db s) → takes s r max x o m' → holds (_db s) x P →
  o = verdict P r max ∧ ∃ P' next, pool_view m' P' next ∧
    ((∃ v, o = Ok v) ∨ o = Throw pending_transaction_nonce_conflict → admitted P r max P').
Proof.
  intros Hx (m & Q & next & Hv & HQ & -> & ->) (m2 & n2 & Hv2 & HP). assert (m2 = m) as -> by congruence.
  assert (Q = P) as -> by by eapply pool_unique. destruct (verdict_spec P next r max) as [Heq Heq2]. split; [done|].
  destruct (add_run m P next 1%positive r max HQ (Hleft x m P next Hx Hv HQ) Hgood Hmax) as [_ [n' HP']].
  eexists _, n'. split; [exact HP'|]. rewrite Heq, Heq2. unfold admitted. intros [[v ->]| ->]; [|done].
  exists next. split; [|done]. eapply Forall_impl; [apply (pv_seq _ _ _ HQ)|]. cbn. lia.
Qed.

Lemma writable_relevant x : writable s x → ∃ i P, relevant s i x ∧ pending s i P ∧ holds (_db s) x P.
Proof.
  intros (Hx & d & Hd & Hf). destruct (fo_tmp _ _ (mo_forest _ _ _ Hok) x d Hx Hd Hf) as (p & dp & _ & _ & _ & _ & Hid & _).
  destruct (mo_pools _ _ _ Hok x Hx) as [P HP]. assert (relevant s (_id dp) x) as Hr.
  { split_and!; [done| |by exists d]. unfold id_at. rewrite Hd. cbn. by rewrite Hid. }
  exists (_id dp), P. split_and!; [done|by exists x|done].
Qed.

Lemma relevant_writable i x : relevant s i x → writable s x.
Proof. intros (Hx & _ & Hd). done. Qed.

(** The transaction was refused: the sessions are abandoned. *)
Lemma stage_ok h : stage s root hd h [] → mempool_ok (after h) root hd ∧ same_blocks s (after h) ∧
  ∀ i P, pending s i P → pending (after h) i P.
Proof.
  intros (Hdb & Hun & _).
  assert (∀ y, y ∈ _index (_db s) → shape_at h y = shape_at (db_heap (_db s)) y) as Hsh.
  { intros y Hy. unfold shape_at. f_equal. by apply Hun. }
  assert (∀ y Q, y ∈ _index (_db s) → holds (_db s) y Q → holds (set_heap h (_db s)) y Q) as Hh.
  { intros y Q Hy (m & n & Hv & HQ). exists m, n. split; [|done]. rewrite <- Hv. by apply Hun. }
  pose proof (reshaped_blocks s h Hsh) as Hsb. split_and!; [|done|].
  - apply reshaped_ok; [done..|]. intros y Hy. destruct (mo_pools _ _ _ Hok y Hy) as [Q HQ]. exists Q. by apply Hh.
  - intros i P (x & Hr & HP). exists x. split; [by apply (sb_relevant _ _ Hsb)|]. apply Hh; [apply Hr|done].
Qed.

(** The nodes whose session was committed hold the pool with the
    transaction. *)
Lemma committed_ok h (S : list (loc * loc * gmap bytes bytes)) : db_ok (set_heap h (_db s)) root hd → same_shape s h →
  (∀ x, x ∈ S.*1.*1 ↔ x ∈ _index (_db s) ∧ writable s x) →
  (∀ e, e ∈ S → ∃ o, takes s r max e.1.1 o e.2 ∧ ((∃ v, o = Ok v) ∨ o = Throw pending_transaction_nonce_conflict)) →
  (∀ e, e ∈ S → view h e.1.1 = Some e.2) →
  (∀ y, y ∈ _index (_db s) → y ∉ S.*1.*1 → view h y = view (db_heap (_db s)) y) →
  mempool_ok (after h) root hd ∧ same_blocks s (after h) ∧
  ∀ i P, pending s i P → ∃ P', admitted P r max P' ∧ pending (after h) i P'.
Proof.
  intros Hdb Hsh Hin HS Hv Hother. pose proof (reshaped_blocks s h Hsh) as Hsb.
  assert (∀ x P, x ∈ S.*1.*1 → holds (_db s) x P → ∃ P', admitted P r max P' ∧ holds (set_heap h (_db s)) x P') as Hnew.
  { intros x P Hx HP. pose proof Hx as Hx'. apply list_elem_of_fmap in Hx as ([x' l] & -> & Hxl).
    apply list_elem_of_fmap in Hxl as ([xl m'] & Heq & He). cbn in Heq. subst xl.
    destruct (HS _ He) as (o & Ht & Ho). destruct (takes_admitted _ o _ P (proj1 (proj1 (Hin _) Hx')) Ht HP) as (_ & P' & n & HP' & Hadm).
    exists P'. split; [by apply Hadm|]. exists m', n. split; [by apply (Hv _ He)|done]. }
  split_and!; [|done|].
  - apply reshaped_ok; [done..|]. intros y Hy. destruct (mo_pools _ _ _ Hok y Hy) as [Q HQ].
    destruct (decide (y ∈ S.*1.*1)) as [Hys|Hys]; [by destruct (Hnew y Q Hys HQ) as (P' & _ & ?); exists P'|].
    exists Q. unfold holds. cbn. by rewrite Hother.
  - intros i P (x & Hr & HP). destruct (Hnew x P) as (P' & Hadm & HP'); [|done|].
    { apply Hin. split; [apply Hr|by eapply relevant_writable]. }
    exists P'. split; [done|]. exists x. split; [by apply (sb_relevant _ _ Hsb)|done].
Qed.

Lemma stage_start : stage s root hd (db_heap (_db s)) [].
Proof.
  split_and!; [rewrite set_heap_id; apply Hok|done|]. by intros e He%elem_of_nil.
Qed.

(** The operation up to its loop. *)
Lemma admit_loop : ∃ xh (nodes : list state_node), relevant s (head_of s hd) xh ∧ (∀ x, x ∈ _index (_db s) ↔ x ∈ _state <$> nodes) ∧
  loop_result s root hd r max xh nodes [] 0 false
    (add_loop r max (Some (mk_state_node xh None)) nodes [] 0 false s) ∧
  add_pending_transaction ptx time max s =
    ('(sessions, rc_used, trx_added) ← add_loop r max (Some (mk_state_node xh None)) nodes [] 0 false;
     assert_that trx_added pending_transaction_nonce_conflict;; commit_loop sessions;; mret rc_used) s.
Proof.
  pose proof (mo_db _ _ _ Hok) as Hdb. pose proof (head_block _ _ _ Hok) as Hb.
  destruct (relevant_exists _ _ _ _ _ Hok Hb) as (xh & Hr & _).
  assert (get_all_nodes_unique unique_lock (_db s) = (Ok ((λ x, mk_state_node x None) <$> index_list (_db s)), _db s)) as Hall.
  { unfold get_all_nodes_unique. cbn [verify_unique_lock unique_lock owns_lock on_node_mutex negb assert_that].
    rewrite run_bind. cbn [mret prog_ret]. by rewrite run_bind, (run_assert_open _ _ _ Hdb). }
  assert (_state <$> ((λ x, mk_state_node x None) <$> index_list (_db s)) = index_list (_db s)) as Hst
    by (rewrite <- list_fmap_compose; apply list_fmap_id).
  exists xh, ((λ x, mk_state_node x None) <$> index_list (_db s)). split_and!; [done| | |].
  - intros x. by rewrite Hst, index_list_perm.
  - assert (set_db (set_heap (db_heap (_db s)) (_db s)) s = s) as Hs by (by rewrite set_heap_id, set_db_same).
    pose proof (add_loop_run s root hd r max Hok Hrev Hleft Hgood Hmax (mk_state_node xh None)
      ((λ x, mk_state_node x None) <$> index_list (_db s)) (proj1 Hr)) as Hloop.
    rewrite <- Hs at 4. apply (Hloop ltac:(rewrite Hst, index_list_perm; apply Hdb)); [|apply stage_start].
    apply Forall_fmap, Forall_forall. intros x. rewrite index_list_perm. done.
  - unfold add_pending_transaction. rewrite run_bind, (run_on_db_pure _ _ _ Hall).
    rewrite run_bind, (run_on_db_pure _ _ _ (proj1 (run_get_head_db _ _ _ Hdb))).
    pose proof Hb as (_ & dh & Hdh & Hid & _).
    rewrite run_bind, (run_node_id s (mk_state_node hd None) dh Hdh), Hid.
    rewrite run_bind, (proj1 (run_relevant _ _ _ _ _ _ Hok Hb Hr)). cbn [deref_node].
    by rewrite run_bind.
Qed.

Lemma admit_run : ∃ o s', add_pending_transaction ptx time max s = (o, s') ∧ mempool_ok s' root hd ∧
  add_result s hd r max o s'.
Proof.
  destruct admit_loop as (xh & nodes & Hxh & Hnodes & Hloop & ->). rewrite run_bind.
  destruct Hloop as [(x & e & m' & h' & Hw & Ht & He & -> & HS)|(h' & S & rc & b & -> & HS & Hnd & Hin & HT & Hb & Hrc)].
  - destruct (stage_ok h' HS) as (Hok' & Hsb & Hp). eexists _, _. split; [done|]. split; [done|]. split; [done|].
    split; [done|]. rewrite decide_False by done. destruct (writable_relevant x Hw) as (i & P & _ & HP & Hh).
    exists i, P. split; [done|]. symmetry. by eapply takes_admitted; [apply Hw|..].
  - cbn [app] in HS |- *. rewrite run_bind.
    assert (∀ x, x ∈ S.*1.*1 ↔ x ∈ _index (_db s) ∧ writable s x) as Hin' by (intros x; by rewrite Hin, Hnodes).
    assert (∀ i P, pending s i P → ∃ e o, e ∈ S ∧ takes s r max e.1.1 o e.2 ∧ relevant s i e.1.1 ∧ o = verdict P r max ∧
      ((∃ v, o = Ok v) ∨ o = Throw pending_transaction_nonce_conflict)) as Hall.
    { intros i P (x & Hr & HP). assert (x ∈ S.*1.*1) as Hx by (apply Hin'; split; [apply Hr|by eapply relevant_writable]).
      apply list_elem_of_fmap in Hx as ([x' l] & -> & ([xl m'] & Heq & He)%list_elem_of_fmap). cbn in Heq. subst xl.
      destruct (HT _ He) as (o & Ht & Ho). exists (x', l, m'), o. split_and!; [done..| |done].
      by eapply takes_admitted; [apply Hr|..]. }
    destruct b; cbn [assert_that]; last first.
    + destruct (stage_ok h') as (Hok' & Hsb & Hp); [eapply stage_sub; [apply list_subseteq_nil|done]|].
      eexists _, _. split; [done|]. split; [done|]. split; [done|]. split; [done|]. rewrite decide_True by done.
      intros i P HP. destruct (Hall i P HP) as (e & o & He & Ht & _ & <- & [[v ->]| ->]); [|done].
      assert (false = true); [|done]. apply Hb. right. by exists e, v.
    + cbn [mret prog_ret]. destruct HS as (Hdb & Hun & HSs).
      destruct (commit_loop_run s root hd Hok S Hnd) with (h := h') as (h2 & Hrun & Hdb2 & Hsh2 & Hv2 & Hother2); [|done| |done|].
      { intros x Hx. by apply Hin'. }
      { intros y Hy. unfold shape_at. f_equal. by apply Hun. }
      destruct (committed_ok h2 S Hdb2 Hsh2 Hin' HT Hv2) as (Hok2 & Hsb2 & Hp2).
      { intros y Hy Hys. rewrite Hother2 by done. by apply Hun. }
      exists (Ok rc), (after h2). split; [by rewrite run_bind, Hrun|]. split; [done|]. split; [done|].
      split_and!; [done| |].
      * destruct (proj1 Hb eq_refl) as [|(e & v & He & Ht)]; [done|].
        destruct (writable_relevant e.1.1) as (i & P & Hr & HP & Hh).
        { apply Hin'. by do 2 apply list_elem_of_fmap_2. }
        exists i, P, v. split; [done|]. symmetry. by eapply takes_admitted; [apply Hr|..].
      * intros P HP. destruct (Hall _ P HP) as (e & o & He & Ht & Hr & Hv & Ho).
        assert (e.1.1 = xh) as Hx by exact (relevant_unique s root hd _ _ _ Hok Hr Hxh). rewrite <- Hv.
        assert (xh ∈ S.*1.*1) as HxS by (rewrite <- Hx; by do 2 apply list_elem_of_fmap_2).
        rewrite Hx in Ht. destruct Hrc as (H1 & H2 & _). destruct Ho as [[v ->]| ->]; [by eapply H1|by eapply H2].
Qed.

End Run.
End Admit.
