(* ===== verification/MempoolReads.v ===== *)
(** Questions asked of the mempool: about the transactions pending after one
    block, and about all nodes. *)

From S2P Require Import Prelude Storage Keys MapBackend StateDelta StateNode StateDeltaFacts StateCommit StateDatabase.
From S2P Require Import StateDiscard StateInvariant StateGrow StateTheorems StateProperties.
From S2P Require Import ObjectIteration ObjectIterationTheorems Mempool MempoolImpl MempoolFacts MempoolPool MempoolQueries MempoolState.
From S2P Require Import MempoolChanges.
Import StateDelta StateDatabase StateNode ObjectIteration Mempool MempoolImpl.

Section Reads.
Context `{Hcrypto : !Crypto} `{Hdisk : !Disk} `{Hkeys : !DatabaseKeys} `{Hklaws : !DatabaseKeysLaws}.
Context `{Hconv : !Converter} `{Hcl : !ConverterLaws} `{Hsc : !SpacesContiguous} `{Hko : !KeyOrder}.
Context `{Hcs : !Converters} `{Hcsl : !ConvertersLaws} `{Hhash : !HashLaws}.
Context (s : mempool_impl) (root hd : loc).
Hypothesis Hok : mempool_ok s root hd.
Implicit Types (h : heap) (x l : loc) (m : gmap bytes bytes) (P : pool) (i : multihash) (next : Z).

(** [q] answers [o] on a node that reads the pool [P]. *)
Definition answers {A} P (q : loc → prog heap mexn A) (o : outcome mexn A) : Prop :=
  ∀ m next l, pool_view m P next → reads_view l m (q l) o.

Lemma answer_run {A} P (q : loc → prog heap mexn A) o x : answers P q o → x ∈ _index (_db s) → holds (_db s) x P →
  on_node (q x) s = (o, s).
Proof. intros Hq Hx (m & next & Hv & HP). eapply on_node_reads; [apply Hok|done|done|by eapply Hq]. Qed.

(** ** One block *)

Section Block.
Context (i : multihash) (P : pool).
Hypothesis Hi : known s i.
Hypothesis HP : pending s i P.

Lemma run_locked : ∃ x r, (∀ A (q : loc → prog heap mexn A) o, answers P q o → on_node (q x) s = (o, s)) ∧
  relevant_node_shared (Some i) shared_lock s = (Ok r, s) ∧ locked_node r s = (Ok x, s).
Proof.
  destruct Hi as [p Hb], HP as (x & Hr & Hh).
  exists x, (Some (mk_state_node x shared_lock), Some (hash i)). split_and!; [|apply (run_relevant _ _ _ _ _ _ Hok Hb Hr)|done].
  intros A q o Hq. eapply answer_run; [done|apply Hr|done].
Qed.

Lemma run_has id : has_pending_transaction id (Some i) s = (Ok (bool_decide (id ∈ (λ e, trx_id e.2) <$> P)), s).
Proof.
  destruct Hi as [p Hb], HP as (x & Hr & m & next & Hv & Hp). unfold has_pending_transaction.
  rewrite run_bind, (proj2 (run_relevant _ _ _ _ _ _ Hok Hb Hr)). cbn [deref_node]. rewrite run_bind. cbn [mret prog_ret _state].
  assert (reads_view x m (lift (get_object x transaction_index id)) (Ok (m !! Key transaction_index id))) as Hq.
  { intros h Hh Hvh _. unfold lift. by rewrite (run_get_object _ _ _ _ _ Hh Hvh). }
  rewrite run_bind, (on_node_reads _ root hd x m _ _ (mo_db _ _ _ Hok) (proj1 Hr) Hv Hq).
  pose proof (table_None _ _ id (pv_index _ _ _ Hp)) as Hn. rewrite (proj2 (fmap_rows P)) in Hn.
  rewrite (bool_decide_ext (_ ≠ None) (id ∈ (λ e, trx_id e.2) <$> P)); [done|]. rewrite Hn.
  destruct (decide (id ∈ (λ e, trx_id e.2) <$> P)); tauto.
Qed.

Lemma run_check_resources a max limit :
  check_pending_account_resources a max limit (Some i) s = (Ok (reserved a P + limit <=? max), s).
Proof.
  destruct run_locked as (x & r & Hq & Hr & Hx). unfold check_pending_account_resources.
  rewrite run_bind, Hr, run_bind, Hx.
  apply (Hq _ (λ x, check_pending_account_resources_on_node x a max limit)). intros m next l Hp. by eapply run_check.
Qed.

Lemma run_check_account_nonce a nonce n : nonce_value nonce = inr n →
  check_account_nonce a nonce (Some i) s = (Ok (negb (bool_decide (a ++ as_uint64 n ∈ (λ e, trx_key e.2) <$> P))), s).
Proof.
  intros Hn. destruct run_locked as (x & r & Hq & Hr & Hx). unfold check_account_nonce. rewrite Hn. cbn [converted].
  rewrite run_bind. cbn [mret prog_ret]. rewrite run_bind, Hr, run_bind, Hx.
  apply (Hq _ (λ x, check_account_nonce_on_node x (a ++ as_uint64 n))). intros m next l Hp. by eapply run_check_nonce.
Qed.

(** A block id, or none when the block is the head. *)
Definition asks (b : option multihash) : Prop := b = Some i ∨ b = None ∧ i = head_of s hd.

Lemma run_relevant_or_head b : asks b → ∃ x, relevant_or_head b s = (Ok x, s) ∧
  ∀ A (q : loc → prog heap mexn A) o, answers P q o → on_node (q x) s = (o, s).
Proof.
  intros Hb. destruct run_locked as (x & r & Hq & Hr & Hx). exists x. split; [|done].
  unfold relevant_or_head. rewrite run_bind. destruct Hb as [->|[-> Hh]]; [by rewrite Hr|].
  destruct (head_block _ _ _ Hok) as (_ & dh & Hdh & Hid & _).
  rewrite run_bind, (run_on_db_pure _ _ _ (proj2 (run_get_head_db _ _ _ (mo_db _ _ _ Hok)))).
  rewrite run_bind, (run_node_id s (mk_state_node hd shared_lock) dh Hdh), Hid, <- Hh. by rewrite Hr.
Qed.

Lemma run_nonce b a : asks b → same_length a P →
  get_pending_nonce a b s = (Ok (from_option as_nonce [] (highest_below u64_max (nonces_of a P))), s).
Proof.
  intros Hb Hs. destruct (run_relevant_or_head b Hb) as (x & Hx & Hq). unfold get_pending_nonce. rewrite run_bind, Hx.
  apply (Hq _ (λ x, get_pending_nonce_on_node x a)). intros m next l Hp. by eapply pending_nonce_run.
Qed.

Lemma run_count b a : asks b → same_length a P →
  get_pending_transaction_count a b s = (Ok (Z.of_nat (length (below u64_max (nonces_of a P)))), s).
Proof.
  intros Hb Hs. destruct (run_relevant_or_head b Hb) as (x & Hx & Hq). unfold get_pending_transaction_count.
  rewrite run_bind, Hx. apply (Hq _ (λ x, get_pending_transaction_count_on_node x a)).
  intros m next l Hp. by eapply pending_count_run.
Qed.

(** While the root is the head, every block id means the head. *)
Definition asks_known (b : option multihash) : Prop :=
  if decide (root = hd) then i = head_of s hd else asks b.

Lemma run_known_block_id b : ∃ b', known_block_id b s = (Ok b', s) ∧ (asks_known b → asks b').
Proof.
  pose proof (mo_db _ _ _ Hok) as Hdb. destruct (ends s root hd i Hok) as (dr & dh & Hdr & Hdh & _). cbn in Hdr, Hdh.
  exists (if bool_decide (_id dh = _id dr) then None else b). split.
  - unfold known_block_id. rewrite run_bind, (run_on_db_pure _ _ _ (proj2 (run_get_head_db _ _ _ Hdb))).
    rewrite run_bind, (run_node_id s (mk_state_node hd shared_lock) dh Hdh).
    rewrite run_bind, (run_on_db_pure _ _ _ (proj2 (run_get_root_db _ _ _ Hdb))).
    by rewrite run_bind, (run_node_id s (mk_state_node root shared_lock) dr Hdr).
  - unfold asks_known. assert (_id dh = _id dr ↔ root = hd) as Heq.
    { split; [|intros <-; congruence]. intros Heq. apply (ok_unique _ _ _ Hdb);
        [apply (ok_root _ _ _ Hdb)|apply (ok_head _ _ _ Hdb)|]. unfold id_at. rewrite Hdr, Hdh. cbn. congruence. }
    case_bool_decide as Hd; destruct (decide (root = hd)) as [Hrh|Hrh]; 
      first [by intros Hb; right|tauto].
Qed.

(** The node of an optional block id, the head's when there is none. *)
Lemma run_optional b : asks b → ∃ x r, relevant_node_shared b shared_lock s = (Ok r, s) ∧ locked_node r s = (Ok x, s) ∧
  ∀ A (q : loc → prog heap mexn A) o, answers P q o → on_node (q x) s = (o, s).
Proof.
  destruct run_locked as (x & r & Hq & Hr & Hx). intros [->|[-> Hh]]; [by exists x, r|]. exists x, r. split_and!; [|done|done].
  pose proof (mo_db _ _ _ Hok) as Hdb. destruct (head_block _ _ _ Hok) as (Hhi & dh & Hdh & Hid & _). rewrite <- Hr.
  unfold relevant_node_shared, relevant_node_with at 1. rewrite run_bind, run_bind.
  rewrite (run_on_db_pure _ _ _ (proj2 (run_get_head_db _ _ _ Hdb))). cbn [mret prog_ret].
  symmetry. unfold relevant_node_with. rewrite run_bind, (run_on_db_pure _ _ _ (proj2 (run_get_node_db _ _ _ i Hdb))).
  by rewrite Hh, (block_find _ _ _ _ _ Hok (head_block _ _ _ Hok)).
Qed.

Lemma run_pending_transactions b limit : asks_known b → limit ≤ max_request_limit →
  get_pending_transactions limit b s = (Ok ((λ e, pending_transaction_of e.2) <$> take (Z.to_nat limit) P), s).
Proof.
  intros Hb Hl. destruct (run_known_block_id b) as (b' & Hrun & Hb'). destruct (run_optional b' (Hb' Hb)) as (x & r & Hr & Hx & Hq).
  unfold get_pending_transactions. rewrite (proj2 (Z.leb_le _ _) Hl). cbn [assert_that]. rewrite run_bind. cbn [mret prog_ret].
  rewrite run_bind, Hrun, run_bind, Hr, run_bind, Hx. apply (Hq _ (λ x, pending_loop (Z.to_nat limit) x [])).
  intros m next l Hp. exact (pending_loop_run m l _ [] P next Hp).
Qed.

Lemma run_pending_transactions_by_id b ids : asks_known b → Z.of_nat (length ids) ≤ max_request_limit →
  get_pending_transactions_by_id ids b s =
    (Ok (omap (λ i, (λ e, pending_transaction_of e.2) <$> head (filter (λ e, trx_id e.2 = i) P)) ids), s).
Proof.
  intros Hb Hl. destruct (run_known_block_id b) as (b' & Hrun & Hb'). destruct (run_optional b' (Hb' Hb)) as (x & r & Hr & Hx & Hq).
  unfold get_pending_transactions_by_id. rewrite (proj2 (Z.leb_le _ _) Hl). cbn [assert_that]. rewrite run_bind. cbn [mret prog_ret].
  rewrite run_bind, Hrun, run_bind, Hr, run_bind, Hx. apply (Hq _ (λ x, ids_loop x ids)).
  intros m next l Hp. by eapply ids_loop_run.
Qed.

End Block.
(** ** All nodes *)

Lemma run_all_nodes : ∃ nodes : list state_node, on_db (get_all_nodes_shared shared_lock) s = (Ok nodes, s) ∧
  ∀ x, x ∈ _index (_db s) ↔ x ∈ _state <$> nodes.
Proof.
  exists ((λ x, mk_state_node x shared_lock) <$> index_list (_db s)). split.
  - apply run_on_db_pure. unfold get_all_nodes_shared. cbn [verify_shared_lock shared_lock owns_lock on_node_mutex negb assert_that].
    rewrite run_bind. cbn [mret prog_ret]. by rewrite run_bind, (run_assert_open _ _ _ (mo_db _ _ _ Hok)).
  - intros x. by rewrite <- list_fmap_compose, list_fmap_id, index_list_perm.
Qed.

(** The most resources a node reserves: blocks keep the pool they arrived
    with, and count too. *)
Lemma reserved_loop_run a (nodes : list state_node) c : (∀ x, x ∈ _state <$> nodes → x ∈ _index (_db s)) →
  ∃ v, reserved_loop a nodes c s = (Ok v, s) ∧ c ≤ v ∧
    (∀ x P, x ∈ _state <$> nodes → holds (_db s) x P → reserved a P ≤ v) ∧
    (v = c ∨ ∃ x P, x ∈ _state <$> nodes ∧ holds (_db s) x P ∧ v = reserved a P).
Proof.
  revert c. induction nodes as [|n nodes IH]; intros c Hin.
  { exists c. split_and!; [done|lia|by intros x P Hx%elem_of_nil|by left]. }
  assert (_state n ∈ _index (_db s)) as Hn by (apply Hin; by left).
  destruct (mo_pools _ _ _ Hok _ Hn) as [P HP]. cbn [reserved_loop].
  assert (answers P (λ l, get_reserved_account_rc_from_node l a) (Ok (reserved a P))) as Hq by (intros m nx l Hp; by eapply reserved_run).
  rewrite run_bind, (answer_run _ _ _ _ Hq Hn HP).
  destruct (IH (Z.max (reserved a P) c)) as (v & Hv & Hc & Hall & Hex); [intros x Hx; apply Hin; by right|].
  exists v. split_and!; [done|lia| |].
  - intros x Q [->|Hx]%elem_of_cons HQ; [|by eapply Hall].
    assert (Q = P) as -> by by eapply holds_unique. lia.
  - destruct Hex as [->|(x & Q & Hx & HQ & ->)]; [|right; exists x, Q; split_and!; [by right|done|done]].
    destruct (Z.max_spec (reserved a P) c) as [[_ ->]|[_ ->]]; [by left|]. right. exists (_state n), P. split_and!; [by left|done|done].
Qed.

Lemma any_node_run (check : loc → prog heap mexn bool) (f : pool → bool) stop (nodes : list state_node) :
  (∀ P, answers P check (Ok (f P))) → (∀ x, x ∈ _state <$> nodes → x ∈ _index (_db s)) →
  ∃ b, any_node check stop nodes s = (Ok b, s) ∧
    (b = stop ↔ ∃ i x P, x ∈ _state <$> nodes ∧ relevant s i x ∧ holds (_db s) x P ∧ f P = stop).
Proof.
  intros Hf. induction nodes as [|n nodes IH]; intros Hin.
  { exists (negb stop). split; [done|]. split; [by destruct stop|]. by intros (i & x & P & Hx%elem_of_nil & _). }
  assert (_state n ∈ _index (_db s)) as Hn by (apply Hin; by left).
  destruct (mo_pools _ _ _ Hok _ Hn) as [P HP]. destruct IH as (b & Hb & Hiff); [intros x Hx; apply Hin; by right|].
  destruct (ok_delta _ _ _ _ (mo_db _ _ _ Hok) Hn) as (d & _ & _ & Hd & _).
  cbn [any_node]. rewrite run_bind, (run_node_finalized s n d Hd).
  destruct (_finalized d) eqn:Hfin.
  { exists b. split; [done|]. rewrite Hiff. split; intros (i & x & Q & Hx & Hr & HQ & Hs); exists i, x, Q; split_and!; try done.
    - by right.
    - apply elem_of_cons in Hx as [->|Hx]; [|done]. destruct Hr as (_ & _ & d' & Hd' & Hf'). congruence. }
  destruct (fo_tmp _ _ (mo_forest _ _ _ Hok) _ d Hn Hd Hfin) as (p & dp & _ & _ & _ & _ & Hid & Hmx).
  assert (relevant s (_id dp) (_state n)) as Hr.
  { split_and!; [done|unfold id_at; rewrite Hd; cbn; by rewrite Hid|by exists d]. }
  rewrite run_bind, (run_node_id s n d Hd), run_bind, (run_mutex_at _ _ Hmx).
  rewrite run_bind, (answer_run _ _ _ _ (Hf P) Hn HP). destruct (bool_decide_reflect (f P = stop)) as [Hs|Hs].
  - exists stop. split; [done|]. split; [intros _|done]. exists (_id dp), (_state n), P. split_and!; [by left|done..].
  - exists b. split; [done|]. rewrite Hiff. split; intros (i & x & Q & Hx & Hrx & HQ & Hsx); exists i, x, Q; split_and!; try done.
    + by right.
    + apply elem_of_cons in Hx as [->|Hx]; [|done]. assert (Q = P) as -> by by eapply holds_unique. done.
Qed.

Lemma run_reserved a : ∃ v, get_reserved_account_rc a s = (Ok v, s) ∧ 0 ≤ v ∧
  (∀ x P, x ∈ _index (_db s) → holds (_db s) x P → reserved a P ≤ v) ∧
  (v = 0 ∨ ∃ x P, x ∈ _index (_db s) ∧ holds (_db s) x P ∧ v = reserved a P).
Proof.
  destruct run_all_nodes as (nodes & Hn & Hin). unfold get_reserved_account_rc. rewrite run_bind, Hn.
  destruct (reserved_loop_run a nodes 0) as (v & Hv & H0 & Hall & Hex); [intros x; apply Hin|]. exists v. split_and!; [done..| |].
  - intros x P Hx. apply Hall. by apply Hin.
  - destruct Hex as [?|(x & P & Hx & HP & ?)]; [by left|]. right. exists x, P. split_and!; [by apply Hin|done|done].
Qed.

Lemma run_any_node (check : loc → prog heap mexn bool) (f : pool → bool) stop : (∀ P, answers P check (Ok (f P))) →
  ∃ b, (nodes ← on_db (get_all_nodes_shared shared_lock); any_node check stop nodes) s = (Ok b, s) ∧
    (b = stop ↔ ∃ i P, pending s i P ∧ f P = stop).
Proof.
  intros Hf. destruct run_all_nodes as (nodes & Hn & Hin). rewrite run_bind, Hn.
  destruct (any_node_run check f stop nodes Hf) as (b & Hb & Hiff); [intros x; apply Hin|]. exists b. split; [done|].
  rewrite Hiff. split.
  - intros (i & x & P & _ & Hr & HP & Hs). exists i, P. split; [by exists x|done].
  - intros (i & P & (x & Hr & HP) & Hs). exists i, x, P. split_and!; [apply Hin, Hr|done..].
Qed.

Lemma run_check_resources_all a max limit : ∃ b, check_pending_account_resources a max limit None s = (Ok b, s) ∧
  (b = false ↔ ∃ i P, pending s i P ∧ max < reserved a P + limit).
Proof.
  destruct (run_any_node (λ x, check_pending_account_resources_on_node x a max limit) (λ P, reserved a P + limit <=? max) false)
    as (b & Hb & Hiff); [intros P m nx l Hp; by eapply run_check|]. exists b. split; [done|].
  rewrite Hiff. by setoid_rewrite Z.leb_gt.
Qed.

Lemma run_check_nonce_all a nonce n : nonce_value nonce = inr n → ∃ b, check_account_nonce a nonce None s = (Ok b, s) ∧
  (b = true ↔ ∃ i P, pending s i P ∧ a ++ as_uint64 n ∉ (λ e, trx_key e.2) <$> P).
Proof.
  intros Hn. destruct (run_any_node (λ x, check_account_nonce_on_node x (a ++ as_uint64 n))
    (λ P, negb (bool_decide (a ++ as_uint64 n ∈ (λ e, trx_key e.2) <$> P))) true)
    as (b & Hb & Hiff); [intros P m nx l Hp; by eapply run_check_nonce|].
  exists b. unfold check_account_nonce. rewrite Hn. cbn [converted]. rewrite run_bind. cbn [mret prog_ret]. split; [done|].
  rewrite Hiff. by setoid_rewrite negb_true_iff; setoid_rewrite bool_decide_eq_false.
Qed.

End Reads.
