(* ===== verification/MempoolReach.v ===== *)
(** A mempool as its constructor leaves it.

    Everything the mempool does, as operations, and the states they reach. *)

From S2P Require Import Prelude Storage Keys MapBackend StateDelta StateNode StateDeltaFacts StateCommit.
From S2P Require Import StateDatabase StateDiscard StateInvariant StateGrow.
From S2P Require Import StateTheorems StateProperties ObjectIteration ObjectIterationTheorems Mempool.
From S2P Require Import MempoolImpl MempoolFacts MempoolPool MempoolQueries MempoolState MempoolChanges.
From S2P Require Import MempoolChanges MempoolAdd.
Import StateDelta StateDatabase StateNode ObjectIteration Mempool MempoolImpl.

Section Start.
Context `{Hcrypto : !Crypto} `{Hdisk : !Disk} `{Hkeys : !DatabaseKeys} `{Hklaws : !DatabaseKeysLaws}.
Context `{Hconv : !Converter} `{Hcl : !ConverterLaws} `{Hsc : !SpacesContiguous} `{Hko : !KeyOrder}.
Context `{Hcs : !Converters} `{Hcsl : !ConvertersLaws} `{Hhash : !HashLaws}.

(** The root of an empty database. *)
Definition first_delta : state_delta :=
  with_finalized true (mk_state_delta None (Some MapBackend.new) ∅ (MapBackend._id MapBackend.new)
    (MapBackend._revision MapBackend.new) (Some (MapBackend._merkle_root MapBackend.new)) false).

Definition opened_mempool_db : database :=
  mk_database (set_delta 1 first_delta (alloc_delta (with_finalized false first_delta) (db_heap closed_db))) [1%positive]
    (Some 1%positive) {[MapBackend._id MapBackend.new := 1%positive]} (Some 1%positive) None
    (Some (λ _, mret tt)) (Some fifo_comparator).

Lemma open_run : open_algo None (Some (λ _, mret tt)) fifo unique_lock closed_db = (Ok tt, opened_mempool_db).
Proof. reflexivity. Qed.

Lemma opened_ok : db_ok opened_mempool_db 1 1.
Proof.
  destruct (open_root_ok MapBackend.new (Some (λ _, mret tt)) fifo_comparator None zero_not_null (good_algo fifo))
    as (db & Hrun & Hok).
  { intros f [= <-] h l d m Hh Hd Hv. exists h, d. by split_and!; try (by eexists). }
  assert ((Ok tt, db) = (@Ok exn unit tt, opened_mempool_db)) as Heq by (rewrite <- Hrun; reflexivity).
  by injection Heq as ->.
Qed.

Definition first_db : database :=
  grown_db opened_mempool_db (child_delta 1 first_delta (hash zero) default_header).

Definition first_mempool : mempool_impl := mk_mempool_impl first_db ({[hash zero]} ∪ ∅).

Lemma empty_pool : pool_view ∅ [] 1.
Proof.
  split; rewrite ?lookup_empty; try done; try (by constructor).
  - intros ks. rewrite lookup_empty. by intros [? ?].
  - intros k v. by rewrite lookup_empty, elem_of_nil.
  - intros k v. by rewrite lookup_empty, elem_of_nil.
  - intros k v. by rewrite lookup_empty, elem_of_nil.
Qed.

(** The constructor: one block, the root, whose pool is empty. *)
Lemma new_run t : undisturbed t →
  new fifo t (mk_mempool_impl closed_db ∅) = (Ok tt, first_mempool) ∧ mempool_ok first_mempool 1 1 ∧
  (∀ i, known first_mempool i ↔ i = zero) ∧ pending first_mempool zero [].
Proof.
  intros Ht. pose proof opened_ok as Hok.
  assert (deltas (db_heap opened_mempool_db) !! 1%positive = Some first_delta) as Hd by reflexivity.
  assert (absent opened_mempool_db (hash zero)) as Hab.
  { intros x ->%list_elem_of_singleton. change (Some zero ≠ Some (hash zero)). intros [= Hz]. by apply (zero_not_hash zero). }
  destruct (create_node_run opened_mempool_db 1 1 1 first_delta (hash zero) default_header unique_lock t Hok ltac:(by left)
    (null_not_hash zero) eq_refl Ht Hd eq_refl ltac:(cbn; unfold u64_max; lia) Hab) as (Hrun & Hh & Hok' & Hv).
  assert (∀ x, x ∈ _index first_db ↔ x = 1%positive ∨ x = 2%positive) as Hidx
    by (intros x; cbn; rewrite !elem_of_cons, elem_of_nil; tauto).
  assert (deltas (db_heap first_db) !! 1%positive = Some first_delta) as Hd1 by reflexivity.
  assert (deltas (db_heap first_db) !! 2%positive = Some (child_delta 1 first_delta (hash zero) default_header)) as Hd2 by reflexivity.
  assert (view (db_heap first_db) 1 = Some ∅ ∧ view (db_heap first_db) 2 = Some ∅) as [Hv1 Hv2].
  { assert (view (db_heap opened_mempool_db) 1 = Some ∅) as Hv0.
    { rewrite (view_intro _ 1 first_delta MapBackend.new (ok_heap _ _ _ Hok) Hd eq_refl). done. }
    split; [|by rewrite <- Hv0]. destruct (grown_old opened_mempool_db 1 1 _ 1 Hok ltac:(by left) Hh) as (_ & _ & Hv1).
    unfold first_db. by rewrite Hv1. }
  split_and!.
  - unfold new. rewrite run_bind, (run_on_db _ (mk_mempool_impl closed_db ∅) _ _ open_run).
    rewrite run_bind, (run_on_db_pure _ (set_db opened_mempool_db _) _ (proj1 (run_get_head_db _ _ _ Hok))).
    rewrite run_bind, (run_node_id (set_db opened_mempool_db _) (mk_state_node 1 None) first_delta Hd).
    cbn zeta. rewrite run_bind. unfold tmp_id. by rewrite (run_on_db _ (set_db opened_mempool_db _) _ _ Hrun).
  - split; [done|done| |].
    + split.
      * intros x d Hx Hx' Hf; change (_db first_mempool) with first_db in *. apply Hidx in Hx as [->| ->].
        { assert (d = first_delta) as -> by congruence. done. }
        assert (d = child_delta 1 first_delta (hash zero) default_header) as -> by congruence.
        exists 1%positive, first_delta. split_and!; [done|by apply Hidx; left|done|done|done|cbn; set_solver].
      * intros p dp Hx Hx' Hf; change (_db first_mempool) with first_db in *. apply Hidx in Hx as [->| ->]; last first.
        { assert (dp = child_delta 1 first_delta (hash zero) default_header) as -> by congruence. done. }
        assert (dp = first_delta) as -> by congruence. split; [intros j; apply zero_not_hash|].
        eexists 2%positive, _. split_and!; [by apply Hidx; right|exact Hd2|done|done].
    + intros x [->| ->]%Hidx; exists [], ∅, 1; (split; [done|apply empty_pool]).
  - intros i. split.
    + intros (p & Hp & dp & Hdp & Hi & Hf). change (_db first_mempool) with first_db in *.
      apply Hidx in Hp as [->| ->].
      * assert (dp = first_delta) as -> by congruence. done.
      * assert (dp = child_delta 1 first_delta (hash zero) default_header) as -> by congruence. done.
    + intros ->. exists 1%positive. split; [by apply Hidx; left|]. by exists first_delta.
  - exists 2%positive. split; [|exists ∅, 1; split; [done|apply empty_pool]].
    split_and!; [by apply Hidx; right|unfold id_at; cbn [_db first_mempool]; by rewrite Hd2|eexists; by split].
Qed.

End Start.

Inductive mempool_op :=
| HandleBlock (bam : block_accepted) (t : timing)
| HandleIrreversibility (topology_id : bytes)
| AddPendingTransaction (ptx : pending_transaction) (time max_payer_rc : Z)
| RemovePendingTransactions (ids : list bytes)
| Prune (expiration now : Z).

Section Reach.
Context `{Hcrypto : !Crypto} `{Hdisk : !Disk} `{Hkeys : !DatabaseKeys} `{Hklaws : !DatabaseKeysLaws}.
Context `{Hconv : !Converter} `{Hcl : !ConverterLaws} `{Hsc : !SpacesContiguous} `{Hko : !KeyOrder}.
Context `{Hcs : !Converters} `{Hcsl : !ConvertersLaws} `{Hhash : !HashLaws}.
Implicit Types (x : loc) (P : pool) (s : mempool_impl) (i : multihash).

Definition run_op (op : mempool_op) : prog mempool_impl mexn unit :=
  match op with
  | HandleBlock bam t => handle_block bam t;; mret tt
  | HandleIrreversibility id => handle_irreversibility id
  | AddPendingTransaction ptx time max => add_pending_transaction ptx time max;; mret tt
  | RemovePendingTransactions ids => remove_pending_transactions ids;; mret tt
  | Prune expiration now => prune expiration now;; mret tt
  end.

(** An id of a block not seen yet. *)
Definition fresh_block s i : Prop := absent (_db s) i ∧ i ≠ null_id ∧ ∀ j, i ≠ hash j.

(** A block between the root and the head. *)
Definition on_main_chain s i : Prop :=
  ∃ p hd, block_at s i p ∧ _head (_db s) = Some hd ∧ above (db_heap (_db s)) p hd.

(** A conversion that succeeds with [Φ], or throws. *)
Definition converts {A} (r : exn + A) (Φ : A → Prop) : Prop :=
  match r with inl e => e ≠ null_dereference | inr a => Φ a end.

(** What the operations rely on: no other thread interferes; blocks are new;
    an irreversible block is unknown or on the main chain; a transaction
    reserves resources and has a nonce; 64-bit counters do not run out. *)
Definition admissible s (op : mempool_op) : Prop :=
  match op with
  | HandleBlock bam t =>
    undisturbed t ∧ revisions_small (_db s) ∧ converts (to_multihash (block_id bam)) (fresh_block s) ∧
    converts (to_multihash (block_previous bam)) (λ _, True)
  | HandleIrreversibility id =>
    converts (to_multihash id) (λ i, find_id (_db s) i = None ∨ on_main_chain s i)
  | AddPendingTransaction ptx time max =>
    good (record_at ptx time) ∧ is_u64 max ∧ revisions_small (_db s) ∧ sequence_left s
  | RemovePendingTransactions _ | Prune _ _ => True
  end.

Inductive mempool_reaches s0 : mempool_impl → Prop :=
| mempool_refl : mempool_reaches s0 s0
| mempool_then s op o s' : mempool_reaches s0 s → admissible s op → run_op op s = (o, s') → mempool_reaches s0 s'.

(** The outcome is one the program defines. *)
Definition defined_outcome {A} (o : outcome mexn A) : Prop :=
  match o with Throw e => e ≠ undefined_behaviour | OutOfFuel => False | Ok _ => True end.

(** A root that becomes irreversible again. *)
Lemma irreversible_root s root hd topology_id i : mempool_ok s root hd → to_multihash topology_id = inr i →
  block_at s i root → ∃ s', handle_irreversibility topology_id s = (Ok tt, s') ∧ mempool_ok s' root hd ∧ _db s' = _db s.
Proof.
  intros Hok Hi Hb. pose proof (mo_db _ _ _ Hok) as Hdb. exists (dropped s (_db s)).
  assert (commit_node i unique_lock (_db s) = (Ok tt, _db s)) as Hrun.
  { destruct (ok_root _ _ _ Hdb) as [Hr _]. destruct Hb as (_ & d & Hd & Hid & _).
    unfold commit_node. cbn [verify_unique_lock unique_lock owns_lock on_node_mutex negb assert_that].
    rewrite run_bind. cbn [mret prog_ret]. rewrite run_bind, (run_assert_open _ _ _ Hdb), run_gets, Hr.
    cbn [deref_ptr]. rewrite run_bind. cbn [mret prog_ret]. rewrite run_bind, (run_on_heap_pure _ _ _ (run_id _ _ _ Hd)).
    by rewrite Hid, bool_decide_eq_true_2. }
  split; [by eapply irreversible_run|]. split; [|done].
  split; [done|apply Hok|apply (dropped_forest s (_db s) root hd Hdb); apply Hok|apply Hok].
Qed.

(** ** Every operation ends in a defined way and keeps the invariant *)

Definition keeps {A} (q : prog mempool_impl mexn A) s : Prop :=
  ∃ o s' root hd, q s = (o, s') ∧ mempool_ok s' root hd ∧ defined_outcome o.

Lemma keeps_unit {A} (q : prog mempool_impl mexn A) s : keeps q s → keeps (q;; mret tt) s.
Proof.
  intros (o & s' & root & hd & Hq & Hok & Ho). unfold keeps. rewrite run_bind, Hq. destruct o as [a|e|]; [| |done].
  - by exists (Ok tt), s', root, hd.
  - by exists (Throw e), s', root, hd.
Qed.

Lemma keeps_ok {A} (q : prog mempool_impl mexn A) s a s' root hd : q s = (Ok a, s') → mempool_ok s' root hd → keeps q s.
Proof. intros. by exists (Ok a), s', root, hd. Qed.

(** A call that throws before it changes anything. *)
Lemma keeps_throw {A} (q : prog mempool_impl mexn A) s e root hd : q s = (Throw (state_error e), s) →
  e ≠ null_dereference → mempool_ok s root hd → keeps q s.
Proof. intros Hq He Hok. exists (Throw (state_error e)), s, root, hd. split_and!; [done..|]. by intros [= ->]. Qed.

Lemma block_keeps s root hd b t : mempool_ok s root hd → admissible s (HandleBlock b t) → keeps (handle_block b t) s.
Proof.
  intros Hok (Ht & Hrev & Hid & Hprev). destruct (to_multihash (block_id b)) as [e|i] eqn:Hi.
  { eapply (keeps_throw _ _ e); [|done|done]. unfold handle_block. by rewrite Hi. }
  destruct (to_multihash (block_previous b)) as [e|previous] eqn:Hp.
  { eapply (keeps_throw _ _ e); [|done|done]. unfold handle_block. by rewrite Hi, Hp. }
  destruct Hid as (Hab & Hnull & Hnh). destruct (find_id (_db s) (hash (base s root hd previous))) as [x|] eqn:Hf.
  - destruct (relevant_found _ _ _ _ _ Hok Hf) as (_ & p & Hb & _).
    destruct (handle_block_known s root hd b t i previous Hok Hi Hp Ht Hab Hnull Hnh Hrev) as (P & s' & hd' & Hrun & Hok' & _);
      [by exists p|]. by eapply keeps_ok.
  - eapply keeps_ok; [|done]. apply (handle_block_unknown s root hd b t i previous Hok Hi Hp).
    intros [p Hb]. destruct (relevant_exists _ _ _ _ _ Hok Hb) as (x & Hr & _).
    rewrite (relevant_find _ _ _ _ _ Hok Hr) in Hf. done.
Qed.

Lemma irreversibility_keeps s root hd id : mempool_ok s root hd → admissible s (HandleIrreversibility id) →
  keeps (handle_irreversibility id) s.
Proof.
  intros Hok Hid. cbn in Hid. destruct (to_multihash id) as [e|i] eqn:Hi.
  { eapply (keeps_throw _ _ e); [|done|done]. unfold handle_irreversibility. by rewrite Hi. }
  destruct Hid as [Hf|(p & hd' & Hb & Hhd & Ha)].
  { eapply keeps_ok; [|done]. by eapply irreversible_unknown. }
  assert (hd' = hd) as -> by (destruct (ok_head _ _ _ (mo_db _ _ _ Hok)) as (Hh & _); congruence).
  destruct (decide (p = root)) as [->|Hne].
  - destruct (irreversible_root s root hd id i Hok Hi Hb) as (s' & Hrun & Hok' & _). by eapply keeps_ok.
  - destruct (irreversible_known s root hd p id i Hok Hi Hb Hne Ha) as (s' & Hrun & Hok' & _). by eapply keeps_ok.
Qed.

Lemma add_keeps s root hd ptx time max : mempool_ok s root hd → admissible s (AddPendingTransaction ptx time max) →
  keeps (add_pending_transaction ptx time max) s.
Proof.
  intros Hok (Hgood & Hmax & Hrev & Hleft).
  destruct (admit_run s root hd ptx time max Hok Hrev Hleft Hgood Hmax) as (o & s' & Hrun & Hok' & _ & Ho).
  exists o, s', root, hd. split_and!; [done..|]. destruct o as [v|e|]; [done| |done]. cbn.
  destruct Ho as [_ Ho]. destruct (decide _) as [->|He]; [done|]. destruct Ho as (i & P & _ & Hv).
  unfold verdict, add_spec in Hv. repeat case_match; cbn in Hv; by simplify_eq.
Qed.

Lemma op_keeps s root hd op : mempool_ok s root hd → admissible s op → keeps (run_op op) s.
Proof.
  intros Hok Had. destruct op as [b t|id|ptx time max|ids|expiration now]; cbn [run_op].
  - eapply keeps_unit, block_keeps; done.
  - by eapply irreversibility_keeps.
  - eapply keeps_unit, add_keeps; done.
  - apply keeps_unit. destruct (remove_spec s root hd ids Hok) as (s' & n & Hrun & Hok' & _). by eapply keeps_ok.
  - apply keeps_unit. destruct (prune_spec s root hd expiration now Hok) as (s' & n & Hrun & Hok' & _). by eapply keeps_ok.
Qed.

Lemma reaches_keeps s0 s root hd : mempool_ok s0 root hd → mempool_reaches s0 s → ∃ root hd, mempool_ok s root hd.
Proof.
  intros Hok. induction 1 as [|s op o s' _ IH Had Hrun]; [by exists root, hd|].
  destruct IH as (root1 & hd1 & Hok1). destruct (op_keeps s root1 hd1 op Hok1 Had) as (o' & s'' & root2 & hd2 & Hrun' & Hok2 & _).
  assert (s'' = s') as -> by congruence. by exists root2, hd2.
Qed.

(** What a pool is: transactions in the order they came, no two with one id
    or with one nonce of one account. *)
Definition pool_ok P : Prop :=
  StronglySorted (λ e e', e.1 < e'.1) P ∧ NoDup ((λ e, trx_id e.2) <$> P) ∧ NoDup ((λ e, trx_key e.2) <$> P) ∧
  Forall (λ e, good e.2) P.

Lemma pending_pool_ok s i P : pending s i P → pool_ok P.
Proof. intros (x & _ & m & next & _ & HP). split_and!; apply HP. Qed.

End Reach.
