(* ===== verification/MempoolTheorems.v ===== *)
(** The properties of the mempool. *)

From S2P Require Import Prelude Storage Keys MapBackend StateDelta StateNode StateDeltaFacts StateCommit StateDatabase.
From S2P Require Import StateDiscard StateInvariant StateGrow StateTheorems StateProperties.
From S2P Require Import ObjectIteration ObjectIterationTheorems Mempool MempoolImpl MempoolFacts MempoolPool MempoolQueries MempoolState.
From S2P Require Import MempoolReach MempoolChanges MempoolAdd MempoolReads.
Import StateDelta StateDatabase StateNode ObjectIteration Mempool MempoolImpl.

Section Theorems.
Context `{Hcrypto : !Crypto} `{Hdisk : !Disk} `{Hkeys : !DatabaseKeys} `{Hklaws : !DatabaseKeysLaws}.
Context `{Hconv : !Converter} `{Hcl : !ConverterLaws} `{Hsc : !SpacesContiguous} `{Hko : !KeyOrder}.
Context `{Hcs : !Converters} `{Hcsl : !ConvertersLaws} `{Hhash : !HashLaws}.
Implicit Types (s : mempool_impl) (i : multihash) (P : pool).

(** C4. A mempool is constructed, and every state it reaches by handling new
    blocks and irreversible blocks, adding, removing and pruning transactions
    satisfies the invariant: every block has exactly one writable node below
    it with a mutex, and its pool holds transactions in the order they came,
    no two with one id or one account nonce. Every further operation ends
    with a value or an exception the program throws, never in undefined
    behaviour, and keeps the invariant.  The operations are those that are
    [admissible]: a transaction has a positive resource limit, a block comes
    once, an irreversible block is one of the main chain or unknown; other
    operations can follow a null pointer.  Revisions and sequence numbers
    must not have run out, and every lock is obtained. *)
Theorem mempool_reachable (t : timing) : undisturbed t →
  ∃ s0, new fifo t (mk_mempool_impl closed_db ∅) = (Ok tt, s0) ∧ ∀ s, mempool_reaches s0 s →
    (∃ root hd, mempool_ok s root hd) ∧ (∀ i, known s i → ∃ P, pending s i P ∧ pool_ok P) ∧
    ∀ op, admissible s op → keeps (run_op op) s.
Proof.
  intros Ht. destruct (new_run t Ht) as (Hrun & Hok & _). eexists. split; [exact Hrun|]. intros s Hs.
  destruct (reaches_keeps _ _ _ _ Hok Hs) as (root & hd & Hoks). split_and!; [by exists root, hd| |].
  - intros i [p Hp]. destruct (pending_exists _ _ _ _ _ Hoks Hp) as [P HP]. exists P. split; [done|by eapply pending_pool_ok].
  - intros op. by eapply op_keeps.
Qed.

(** C6. [add_pending_transaction] appends the transaction, with a sequence
    number above all others, to the pool after every block where it fits:
    where its payer's limit covers what its pending transactions reserve, its
    id is new and no pending transaction has its account and nonce. Where the
    nonce conflicts the pool stays; when it conflicts everywhere, or a pool
    refuses for another reason, that exception is thrown and no pool changes.
    The result is what the transaction's payer reserves after the head. *)
Theorem add_pending_transaction_refines s root hd (ptx : pending_transaction) (time max : Z) :
  mempool_ok s root hd → revisions_small (_db s) → sequence_left s → good (record_at ptx time) → is_u64 max →
  ∃ o s', add_pending_transaction ptx time max s = (o, s') ∧ mempool_ok s' root hd ∧
    add_result s hd (record_at ptx time) max o s'.
Proof. intros. by apply admit_run. Qed.

(** C16. [handle_block] accepts a new block exactly when it knows the block's
    parent, or while the root is its only block. The transactions pending
    after the block are those pending after its parent without the block's
    own; the pools after all other blocks stay. A block that is refused
    changes nothing. *)
Theorem handle_block_pools s root hd (b : block_accepted) (t : timing) i previous :
  mempool_ok s root hd → to_multihash (block_id b) = inr i → to_multihash (block_previous b) = inr previous →
  undisturbed t → fresh_block s i → revisions_small (_db s) →
  (¬ known s (base s root hd previous) ∧ handle_block b t s = (Ok false, s)) ∨
  ∃ P s' hd', handle_block b t s = (Ok true, s') ∧ mempool_ok s' root hd' ∧
    pending s (base s root hd previous) P ∧ pending s' i (kept (transaction_id <$> block_transactions b) P) ∧
    (∀ j Q, j ≠ i → pending s' j Q ↔ pending s j Q) ∧ (∀ j, known s' j ↔ known s j ∨ j = i).
Proof.
  intros Hok Hi Hp Ht (Hab & Hnull & Hnh) Hrev.
  destruct (find_id (_db s) (hash (base s root hd previous))) as [x|] eqn:Hf.
  - right. destruct (relevant_found _ _ _ _ _ Hok Hf) as (_ & p & Hb & _).
    by apply (handle_block_known s root hd b t i previous Hok Hi Hp Ht Hab Hnull Hnh Hrev); exists p.
  - left. assert (¬ known s (base s root hd previous)) as Hn; [|split; [done|by eapply handle_block_unknown]].
    intros [p Hb]. destruct (relevant_exists _ _ _ _ _ Hok Hb) as (x & Hr & _).
    by rewrite (relevant_find _ _ _ _ _ Hok Hr) in Hf.
Qed.

(** C28. An irreversible block of the main chain becomes the root: exactly the
    blocks above it stay known, and the transactions pending after them are
    what they were. *)
Theorem handle_irreversibility_keeps_pools s root hd p (topology_id : bytes) i :
  mempool_ok s root hd → to_multihash topology_id = inr i → block_at s i p → p ≠ root →
  above (db_heap (_db s)) p hd →
  ∃ s', handle_irreversibility topology_id s = (Ok tt, s') ∧ mempool_ok s' p hd ∧
    (∀ j, known s' j ↔ ∃ q, block_at s j q ∧ above (db_heap (_db s)) p q) ∧
    (∀ j Q, known s' j → pending s' j Q ↔ pending s j Q).
Proof. intros. by eapply irreversible_known. Qed.

(** [remove_pending_transactions] and [prune] change the pools after the
    fork heads, and no other: the first drops the transactions with the given
    ids, the second the longest prefix of expired ones, and both return how
    many transactions the head's pool lost. *)
Theorem remove_and_prune s root hd (ids : list bytes) (expiration now : Z) : mempool_ok s root hd →
  (∃ s' n, remove_pending_transactions ids s = (Ok n, s') ∧ mempool_ok s' root hd ∧
     forks_changed s s' hd (filter (λ e, trx_id e.2 ∉ ids)) n) ∧
  ∃ s' n, prune expiration now s = (Ok n, s') ∧ mempool_ok s' root hd ∧
     forks_changed s s' hd (pruned expiration now) n.
Proof. intros Hok. split; [by apply remove_spec|by apply prune_spec]. Qed.

(** C27. What the mempool answers about the transactions [P] pending after a
    block: the oldest ones up to a count and those with given ids (while the
    root is the head, of the head whatever block is given), whether an id is
    pending, the highest pending nonce of an account and how many of
    its transactions are pending (nonces below the greatest 64-bit number;
    all accounts of one length), whether a payer can afford a limit and
    whether an account nonce is free. With no block given, resources must do
    on every pool, a nonce be free on some; the reserved resources are the
    most any node of the index reserves, of a block or below one, so that
    the pool of a block that has become final, which is not brought up to
    date, counts as well. *)
Theorem mempool_answers s root hd i P b (a : bytes) (count max limit n : Z) (ids : list bytes) (nonce : bytes) :
  mempool_ok s root hd → known s i → pending s i P → asks s hd i b → asks_known s root hd i b →
  same_length a P → count ≤ max_request_limit → Z.of_nat (length ids) ≤ max_request_limit → nonce_value nonce = inr n →
  get_pending_transactions count b s = (Ok ((λ e, pending_transaction_of e.2) <$> take (Z.to_nat count) P), s) ∧
  get_pending_transactions_by_id ids b s =
    (Ok (omap (λ i, (λ e, pending_transaction_of e.2) <$> head (filter (λ e, trx_id e.2 = i) P)) ids), s) ∧
  (∀ id, has_pending_transaction id (Some i) s = (Ok (bool_decide (id ∈ (λ e, trx_id e.2) <$> P)), s)) ∧
  get_pending_nonce a b s = (Ok (from_option as_nonce [] (highest_below u64_max (nonces_of a P))), s) ∧
  get_pending_transaction_count a b s = (Ok (Z.of_nat (length (below u64_max (nonces_of a P)))), s) ∧
  check_pending_account_resources a max limit (Some i) s = (Ok (reserved a P + limit <=? max), s) ∧
  check_account_nonce a nonce (Some i) s = (Ok (bool_decide (a ++ as_uint64 n ∉ (λ e, trx_key e.2) <$> P)), s) ∧
  (∃ c, check_pending_account_resources a max limit None s = (Ok c, s) ∧
     (c = false ↔ ∃ j Q, pending s j Q ∧ max < reserved a Q + limit)) ∧
  (∃ c, check_account_nonce a nonce None s = (Ok c, s) ∧
     (c = true ↔ ∃ j Q, pending s j Q ∧ a ++ as_uint64 n ∉ (λ e, trx_key e.2) <$> Q)) ∧
  ∃ v, get_reserved_account_rc a s = (Ok v, s) ∧ 0 ≤ v ∧
     (∀ x Q, x ∈ _index (_db s) → holds (_db s) x Q → reserved a Q ≤ v) ∧
     (v = 0 ∨ ∃ x Q, x ∈ _index (_db s) ∧ holds (_db s) x Q ∧ v = reserved a Q).
Proof.
  intros Hok Hi HP Hb Hk Hsame Hl Hids Hn.
  split_and!.
  - by eapply run_pending_transactions.
  - by eapply run_pending_transactions_by_id.
  - intros id. by eapply run_has.
  - by eapply run_nonce.
  - by eapply run_count.
  - by eapply run_check_resources.
  - erewrite run_check_account_nonce by done. by rewrite bool_decide_not.
  - by eapply run_check_resources_all.
  - by eapply run_check_nonce_all.
  - by eapply run_reserved.
Qed.

End Theorems.
