(* ===== verification/MempoolExample.v ===== *)
(** A concrete mempool: the witnesses of its properties. *)

From S2P Require Import Prelude Storage Keys MapBackend StateDelta StateNode StateDeltaFacts StateCommit StateDatabase.
From S2P Require Import StateDiscard StateInvariant StateGrow StateTheorems StateProperties StateExample.
From S2P Require Import ObjectIteration ObjectIterationTheorems Mempool MempoolImpl MempoolFacts MempoolPool MempoolQueries MempoolState.
From S2P Require Import MempoolReach MempoolChanges MempoolAdd MempoolReads MempoolTheorems.
Import StateDelta StateDatabase StateNode ObjectIteration Mempool MempoolImpl.

(** ** The libraries *)

(** A hash that marks its argument. *)
#[local] Instance marking_crypto : Crypto := {|
  hash b := byte_of 104 :: b;
  merkle_tree_root l := concat l;
  zero := [byte_of 0];
  null_id := [];
  multihash_ltb := bytes_ltb
|}.

#[local] Instance marking_laws : HashLaws.
Proof. split; [intros i j Heq; by injection Heq|done|done|done]. Qed.

#[local] Instance example_order : KeyOrder.
Proof.
  split.
  - intros sp k1 k2 _. rewrite !example_key_prefix. apply bytes_lt_app.
  - intros sp k Hk. rewrite !example_key_prefix. apply bytes_lt_app. by destruct k.
Qed.

(** Messages as their fields. *)
Definition record_fields (r : pending_transaction_record) :=
  let p := pending_transaction_of r in
  let t := transaction_of p in
  ((payer (header t), payee (header t), nonce (header t), rc_limit (header t), transaction_header_rest (header t)),
   (transaction_id t, transaction_rest t),
   (disk_storage_used p, network_bandwidth_used p, compute_bandwidth_used p),
   (system_disk_storage_used p, system_network_bandwidth_used p, system_compute_bandwidth_used p), timestamp_ r).

Definition of_record_fields (f : (bytes * bytes * bytes * Z * bytes) * (bytes * bytes) * (Z * Z * Z) * (Z * Z * Z) * Z)
  : pending_transaction_record :=
  let '(((pr, pe, n, l, hr), (i, tr), (d, w, c), (sd, sw, sc)), t) := f in
  mk_pending_transaction_record (mk_pending_transaction
    (mk_transaction i (mk_transaction_header pr pe n l hr) tr) d w c sd sw sc) t.

Lemma of_record_fields_of r : of_record_fields (record_fields r) = r.
Proof. by destruct r as [[[i [] tr] d w c sd sw sc] t]. Qed.

Definition parse_fields {T A} `{Countable T} (f : T → A) (b : bytes) : exn + A :=
  match decode (of_bits b) with Some x => inr (f x) | None => inl koinos_exception end.

#[local] Instance example_converters : Converters := {|
  as_record r := bits_of (encode (record_fields r));
  to_record := parse_fields of_record_fields;
  as_resources r := bits_of (encode (max_rc r, current_rc r));
  to_resources := parse_fields (λ p : Z * Z, mk_address_resource_record p.1 p.2);
  as_metadata r := bits_of (encode (seq_num r));
  to_metadata := parse_fields mk_mempool_metadata;
  as_uint64 := big_endian 8;
  to_uint64 b := inr (of_big_endian b);
  nonce_value b := if bool_decide (length b = 8%nat) then inr (of_big_endian b) else inl koinos_exception;
  as_nonce := big_endian 8;
  to_multihash := inr;
  convert_to_uint64 := u64
|}.

#[local] Instance example_converters_laws : ConvertersLaws.
Proof.
  split; cbn [as_record to_record as_resources to_resources as_metadata to_metadata as_uint64 to_uint64 nonce_value as_nonce
    convert_to_uint64 example_converters]; unfold parse_fields.
  - intros r _. by rewrite of_bits_of, decode_encode, of_record_fields_of.
  - intros r _ _. rewrite of_bits_of, decode_encode. by destruct r.
  - intros r _. rewrite of_bits_of, decode_encode. by destruct r.
  - intros x Hx. by rewrite u64_big_endian.
  - intros x. apply big_endian_length.
  - intros x y Hx Hy. rewrite of_big_endian_lt by by rewrite !big_endian_length. by rewrite !u64_big_endian.
  - intros b n. case_bool_decide as Hl; [|done]. intros [= <-]. unfold is_u64.
    pose proof (of_big_endian_range b) as Hr. rewrite Hl in Hr. exact Hr.
  - intros n Hn. rewrite bool_decide_eq_true_2 by apply big_endian_length. by rewrite u64_big_endian.
  - intros x Hx. by apply u64_small.
Qed.

(** ** The mempool

    A block [A] on the empty database, a transaction pending after both, a
    block [B] on [A] and a second transaction of another account. *)

Definition trx_of (i p : string) (n limit : Z) : transaction :=
  mk_transaction (str i) (mk_transaction_header (str p) [] (big_endian 8 n) limit []) [].
Definition ptx_of (t : transaction) : pending_transaction := mk_pending_transaction t 1 2 3 4 5 6.
Definition block_of (i previous : string) (height : Z) (trxs : list transaction) : block_accepted :=
  mk_block_accepted (str i) (str previous) height (StateExample.header height) trxs true.

Definition trx1 : transaction := trx_of "t1" "alice" 1 10.
Definition trx2 : transaction := trx_of "t2" "bobby" 1 20.
Definition trx3 : transaction := trx_of "t3" "alice" 2 30.

Definition pool0 : mempool_impl := first_mempool.
Definition op1 : mempool_op := HandleBlock (block_of "A" "" 1 []) calm.
Definition pool1 : mempool_impl := (run_op op1 pool0).2.
Definition op2 : mempool_op := AddPendingTransaction (ptx_of trx1) 5000000000 100.
Definition pool2 : mempool_impl := (run_op op2 pool1).2.
Definition op3 : mempool_op := HandleBlock (block_of "B" "A" 2 []) calm.
Definition pool3 : mempool_impl := (run_op op3 pool2).2.

Definition pool_at (s : mempool_impl) (x : loc) : list bytes :=
  match pending_loop 10 x [] (db_heap (_db s)) with
  | (Ok l, _) => (λ p, transaction_id (transaction_of p)) <$> l
  | _ => [str "error"]
  end.
(** ** Evaluating the hypotheses *)

Lemma revisions_eval s : forallb (λ l, match deltas (db_heap (_db s)) !! l with
    | Some d => (0 <=? _revision d) && (_revision d <? u64_max)
    | None => true
    end) (_index (_db s)) = true → revisions_small (_db s).
Proof.
  intros H x d Hx Hd. rewrite forallb_forall in H. specialize (H x (proj1 (list_elem_of_In _ _) Hx)).
  rewrite Hd in H. apply andb_true_iff in H as [?%Z.leb_le ?%Z.ltb_lt]. lia.
Qed.

Lemma sequence_eval s : forallb (λ x, match view (db_heap (_db s)) x with
    | Some m => match m !! Key mempool_metadata_space [] with
                | Some v => match to_metadata v with inr md => seq_num md + 1 <? 2 ^ 64 | inl _ => false end
                | None => true
                end
    | None => true
    end) (_index (_db s)) = true → sequence_left s.
Proof.
  intros H x m P next Hx Hv HP. rewrite forallb_forall in H. specialize (H x (proj1 (list_elem_of_In _ _) Hx)).
  rewrite Hv in H. pose proof (pv_metadata _ _ _ HP) as Hm. pose proof (pv_next _ _ _ HP) as Hn.
  destruct (m !! _) as [v|]; [subst v|lia]. rewrite to_as_metadata in H by (unfold is_u64; cbn; lia).
  by apply Z.ltb_lt in H.
Qed.

Lemma fresh_eval s i : forallb (λ x, negb (bool_decide (id_at (db_heap (_db s)) x = Some i))) (_index (_db s)) = true →
  i ≠ [] → (∀ j, i ≠ byte_of 104 :: j) → fresh_block s i.
Proof.
  intros H Hn Hj. split_and!; [|done|done]. intros x Hx Hi. rewrite forallb_forall in H.
  specialize (H x (proj1 (list_elem_of_In _ _) Hx)). by rewrite bool_decide_eq_true_2 in H.
Qed.

Lemma op_reached s root hd op s' root' hd' : mempool_ok s root hd → admissible s op → (run_op op s).2 = s' →
  _root (_db s') = Some root' → _head (_db s') = Some hd' → mempool_ok s' root' hd'.
Proof.
  intros Hok Had Hrun Hr Hh. destruct (op_keeps s root hd op Hok Had) as (o & s2 & r2 & h2 & Hrun2 & Hok2 & _).
  rewrite Hrun2 in Hrun. cbn in Hrun. subst s2. destruct (ok_root _ _ _ (mo_db _ _ _ Hok2)) as [Hr2 _].
  destruct (ok_head _ _ _ (mo_db _ _ _ Hok2)) as [Hh2 _]. assert (r2 = root') as -> by congruence.
  by assert (h2 = hd') as -> by congruence.
Qed.

(** A hypothesis evaluated to [true]. *)
#[local] Ltac evaluated := vm_compute; reflexivity.

Lemma calm_undisturbed : undisturbed calm.
Proof. done. Qed.

Lemma good_trx t time : is_u64 (rc_limit (Mempool.header t)) → 0 < rc_limit (Mempool.header t) →
  length (nonce (Mempool.header t)) = 8%nat → good (record_at (ptx_of t) time).
Proof.
  intros Hu Hl Hn. split_and!; [|done|].
  - split_and!; [apply wrap_range; lia|done|]. by repeat constructor.
  - eexists. cbn. by rewrite bool_decide_eq_true_2.
Qed.

Lemma pool0_ok : mempool_ok pool0 1 1.
Proof. apply (new_run calm calm_undisturbed). Qed.

Lemma op1_admissible : admissible pool0 op1.
Proof. split_and!; [done|apply revisions_eval; evaluated|by apply fresh_eval; [evaluated|..]|done]. Qed.

Lemma pool1_ok : mempool_ok pool1 1 3.
Proof. by apply (op_reached _ _ _ _ _ _ _ pool0_ok op1_admissible eq_refl); evaluated. Qed.

Lemma op2_admissible : admissible pool1 op2.
Proof. split_and!; [by apply good_trx|done|apply revisions_eval; evaluated|apply sequence_eval; evaluated]. Qed.

Lemma pool2_ok : mempool_ok pool2 1 3.
Proof. by apply (op_reached _ _ _ _ _ _ _ pool1_ok op2_admissible eq_refl); evaluated. Qed.

Lemma op3_admissible : admissible pool2 op3.
Proof. split_and!; [done|apply revisions_eval; evaluated|by apply fresh_eval; [evaluated|..]|done]. Qed.

Lemma pool3_ok : mempool_ok pool3 1 9.
Proof. by apply (op_reached _ _ _ _ _ _ _ pool2_ok op3_admissible eq_refl); evaluated. Qed.

Lemma block_eval s i p : bool_decide (p ∈ _index (_db s)) && match deltas (db_heap (_db s)) !! p with
    | Some d => bool_decide (_id d = i) && _finalized d
    | None => false
    end = true → block_at s i p.
Proof.
  intros [Hp H]%andb_true_iff. apply bool_decide_eq_true in Hp. split; [done|].
  destruct (deltas _ !! p) as [d|]; [|done]. apply andb_true_iff in H as [Hi Hf]. apply bool_decide_eq_true in Hi. by exists d.
Qed.

Lemma parent_eval s x p y : (deltas (db_heap (_db s)) !! x) ≫= _parent = Some p → above (db_heap (_db s)) y p →
  above (db_heap (_db s)) y x.
Proof. intros Hp Ha. destruct (deltas _ !! x) as [d|] eqn:Hd; [|done]. by eapply above_child. Qed.

(** What a successful block leaves after it. *)
Lemma block_pending s root hd b i previous s' P : mempool_ok s root hd → admissible s (HandleBlock b calm) →
  to_multihash (block_id b) = inr i → to_multihash (block_previous b) = inr previous →
  known s (base s root hd previous) → pending s (base s root hd previous) P → (run_op (HandleBlock b calm) s).2 = s' →
  pending s' i (kept (transaction_id <$> block_transactions b) P).
Proof.
  intros Hok (_ & Hrev & Hid & _) Hi Hp Hk HP Hrun. rewrite Hi in Hid. destruct Hid as (Hab & Hnull & Hnh).
  destruct (handle_block_known s root hd b calm i previous Hok Hi Hp calm_undisturbed Hab Hnull Hnh Hrev Hk)
    as (Q & s2 & hd2 & Hrun2 & _ & HQ & HP2 & _).
  cbn [run_op] in Hrun. rewrite run_bind, Hrun2 in Hrun. cbn in Hrun. subst s2.
  by rewrite (pending_unique s root hd _ P Q Hok HP HQ).
Qed.

Definition record1 : pending_transaction_record := record_at (ptx_of trx1) 5000000000.

(** After [B] the pool holds the first transaction. *)
Lemma pool3_pending : ∃ next, pending pool3 (str "B") [(next, record1)].
Proof.
  destruct (new_run calm calm_undisturbed) as (_ & _ & Hk0 & HP0).
  assert (pending pool1 (str "A") []) as HP1.
  { apply (block_pending pool0 1 1 (block_of "A" "" 1 []) (str "A") [] pool1 [] pool0_ok op1_admissible eq_refl eq_refl);
      [by apply Hk0|exact HP0|done]. }
  destruct op2_admissible as (Hgood & Hmax & Hrev & Hleft).
  destruct (admit_run pool1 1 3 (ptx_of trx1) 5000000000 100 pool1_ok Hrev Hleft Hgood Hmax) as (o & s' & Hrun & _ & _ & Ho).
  assert ((add_pending_transaction (ptx_of trx1) 5000000000 100 pool1).1 = Ok 10) as Hok by (vm_compute; reflexivity).
  rewrite Hrun in Hok. cbn in Hok. subst o. destruct Ho as (Hall & _). destruct (Hall _ _ HP1) as (P' & (next & _ & ->) & HP').
  assert (s' = pool2) as ->.
  { unfold pool2. cbn [run_op op2]. rewrite run_bind, Hrun. done. }
  exists next. rewrite <- (kept_nil [(next, record1)]). apply (block_pending pool2 1 3 (block_of "B" "A" 2 []) (str "B") (str "A") pool3 [(next, record1)] pool2_ok op3_admissible eq_refl eq_refl);
    [exists 3%positive; apply block_eval; vm_compute; reflexivity|exact HP'|done].
Qed.

(** ** Witnesses *)

Lemma mempool_reachable_witness : undisturbed calm ∧ (∃ root hd, mempool_ok pool3 root hd) ∧
  (∃ P, pending pool3 (str "B") P ∧ pool_ok P) ∧ keeps (run_op (Prune 1000 10000000000)) pool3.
Proof.
  split; [done|]. destruct (mempool_reachable calm calm_undisturbed) as (s0 & Hnew & Hall).
  destruct (new_run calm calm_undisturbed) as (Hnew0 & _).
  assert (s0 = pool0) as -> by (rewrite Hnew0 in Hnew; by injection Hnew).
  assert (∀ s s' op, mempool_reaches pool0 s → admissible s op → (run_op op s).2 = s' → mempool_reaches pool0 s') as Hstep.
  { intros s s' op Hs Had <-. eapply (mempool_then _ _ op (run_op op s).1); [done..|]. by destruct (run_op op s). }
  destruct (Hall pool3) as (Hok & Hpools & Hops).
  { eapply Hstep; [|exact op3_admissible|done]. eapply Hstep; [|exact op2_admissible|done].
    eapply Hstep; [|exact op1_admissible|done]. constructor. }
  split; [exact Hok|]. split; [|by apply Hops].
  apply Hpools. exists 9%positive. apply block_eval. vm_compute. reflexivity.
Defined.

Lemma add_pending_transaction_refines_witness : ∃ s', add_pending_transaction (ptx_of trx2) 6000000000 100 pool3 = (Ok 20, s') ∧
  mempool_ok s' 1 9 ∧ add_result pool3 9 (record_at (ptx_of trx2) 6000000000) 100 (Ok 20) s'.
Proof.
  destruct (add_pending_transaction_refines pool3 1 9 (ptx_of trx2) 6000000000 100) as (o & s' & Hrun & Hok & Hadd);
    [exact pool3_ok|apply revisions_eval; vm_compute; reflexivity|apply sequence_eval; vm_compute; reflexivity|by apply good_trx|done|].
  assert ((add_pending_transaction (ptx_of trx2) 6000000000 100 pool3).1 = Ok 20) as Ho by (vm_compute; reflexivity).
  rewrite Hrun in Ho. cbn in Ho. subst o. exists s'. split; [exact Hrun|]. split; [exact Hok|exact Hadd].
Defined.

Lemma handle_block_pools_witness :
  let b := block_of "B" "A" 2 [trx1] in
  (¬ known pool2 (str "A") ∧ handle_block b calm pool2 = (Ok false, pool2)) ∨
  ∃ P s' hd', handle_block b calm pool2 = (Ok true, s') ∧ mempool_ok s' 1 hd' ∧
    pending pool2 (str "A") P ∧ pending s' (str "B") (kept [str "t1"] P) ∧
    (∀ j Q, j ≠ str "B" → pending s' j Q ↔ pending pool2 j Q) ∧ (∀ j, known s' j ↔ known pool2 j ∨ j = str "B").
Proof.
  intros b. apply (handle_block_pools pool2 1 3 b calm (str "B") (str "A")); [exact pool2_ok|done|done|done| |].
  - by apply fresh_eval; [vm_compute; reflexivity|..].
  - apply revisions_eval. vm_compute. reflexivity.
Defined.

Lemma handle_irreversibility_keeps_pools_witness :
  ∃ s', handle_irreversibility (str "A") pool3 = (Ok tt, s') ∧ mempool_ok s' 3 9 ∧
    (∀ j, known s' j ↔ ∃ q, block_at pool3 j q ∧ above (db_heap (_db pool3)) 3 q) ∧
    (∀ j Q, known s' j → pending s' j Q ↔ pending pool3 j Q).
Proof.
  apply (handle_irreversibility_keeps_pools pool3 1 9 3 (str "A") (str "A")); [exact pool3_ok|done| |done|].
  - apply block_eval. vm_compute. reflexivity.
  - eapply parent_eval; [vm_compute; reflexivity|]. constructor.
Defined.

Lemma remove_and_prune_witness :
  (∃ s' n, remove_pending_transactions [str "t1"] pool3 = (Ok n, s') ∧ mempool_ok s' 1 9 ∧
     forks_changed pool3 s' 9 (filter (λ e, trx_id e.2 ∉ [str "t1"])) n) ∧
  ∃ s' n, prune 1000 10000000000 pool3 = (Ok n, s') ∧ mempool_ok s' 1 9 ∧
     forks_changed pool3 s' 9 (pruned 1000 10000000000) n.
Proof. apply (remove_and_prune pool3 1 9 [str "t1"] 1000 10000000000). exact pool3_ok. Defined.

Lemma mempool_answers_witness : ∃ P, pending pool3 (str "B") P ∧
  get_pending_transactions 5 (Some (str "B")) pool3 = (Ok ((λ e, pending_transaction_of e.2) <$> take 5 P), pool3) ∧
  get_pending_nonce (str "alice") (Some (str "B")) pool3
    = (Ok (from_option as_nonce [] (highest_below u64_max (nonces_of (str "alice") P))), pool3) ∧
  check_pending_account_resources (str "alice") 100 91 (Some (str "B")) pool3
    = (Ok (reserved (str "alice") P + 91 <=? 100), pool3).
Proof.
  destruct pool3_pending as (next & HP). exists [(next, record1)]. split; [exact HP|].
  destruct (mempool_answers pool3 1 9 (str "B") [(next, record1)] (Some (str "B")) (str "alice") 5 100 91 1 [str "t1"]
    (big_endian 8 1)) as (H1 & _ & _ & H4 & _ & H6 & _); [exact pool3_ok| |exact HP|by left|by left| |done|done|done|].
  - exists 9%positive. apply block_eval. vm_compute. reflexivity.
  - intros e ->%list_elem_of_singleton. reflexivity.
  - split; [exact H1|]. split; [exact H4|exact H6].
Defined.
