(* ===== verification/BlockApplicator.v ===== *)
(** Blocks that arrive before their parents:
    [src/src/koinos/mempool/block_applicator.cpp].

    [handle_block_func] is a parameter that acts on the caller's state and
    returns whether the block was applied; a call that throws is not
    modelled.  The mutex makes each operation one atomic step. *)

From S2P Require Import Prelude MapBackend StateDelta StateNode StateDatabase Mempool.

Module BlockApplicator.
Import Mempool.

Section Applicator.
Context {C : Type} (handle_block_func : block_accepted → C → bool * C).

Record block_applicator := mk_block_applicator {
  _block_map : gmap Z (list block_accepted);
  caller : C
}.

Definition set_caller (c : C) (s : block_applicator) : block_applicator := mk_block_applicator (_block_map s) c.
Definition set_waiting (height : Z) (l : list block_accepted) (s : block_applicator) : block_applicator :=
  mk_block_applicator (<[height := l]> (_block_map s)) (caller s).

Definition applied_block : Type := bytes * Z.

(** The predicate of [std::erase_if], applied to each block in turn: the
    blocks that stay and those that were applied. *)
Fixpoint erase_applied (id : bytes) (blocks : list block_accepted) (c : C)
  : list block_accepted * list applied_block * C :=
  match blocks with
  | [] => ([], [], c)
  | bam :: blocks =>
    if bool_decide (block_previous bam ≠ id) then
      let '(kept, applied, c) := erase_applied id blocks c in (bam :: kept, applied, c)
    else
      let (success, c) := handle_block_func bam c in
      let '(kept, applied, c) := erase_applied id blocks c in
      if (success : bool) then (kept, (block_id bam, block_height bam) :: applied, c)
      else (bam :: kept, applied, c)
  end.

#[local] Abbreviation M := (prog block_applicator mexn).

(** The [while] loop over [applied_blocks]. *)
Fixpoint drain (fuel : nat) (applied_blocks : list applied_block) : M unit :=
  match applied_blocks with
  | [] => mret tt
  | (id, height) :: rest =>
    match fuel with
    | O => λ s, (OutOfFuel, s)
    | S fuel =>
      blocks ← gets_state (λ s, _block_map s !! u64 (height + 1));
      match blocks with
      | Some blocks =>
        s ← get_state;
        let '(kept, applied, c) := erase_applied id blocks (caller s) in
        mod_state (λ s, set_caller c (set_waiting (u64 (height + 1)) kept s));;
        drain fuel (rest ++ applied)
      | None => drain fuel rest
      end
    end
  end.

(** Every applied block was waiting: their number bounds the loop. *)
Definition waiting_blocks (m : gmap Z (list block_accepted)) : nat := map_fold (λ _ l n, length l + n)%nat 0%nat m.

Definition handle_block (bam : block_accepted) : M unit :=
  s ← get_state;
  let (success, c) := handle_block_func bam (caller s) in
  mod_state (set_caller c);;
  if (success : bool) then
    drain (S (waiting_blocks (_block_map s))) [(block_id bam, block_height bam)]
  else
    match _block_map s !! block_height bam with
    | Some blocks => mod_state (set_waiting (block_height bam) (blocks ++ [bam]))
    | None => mod_state (set_waiting (block_height bam) [bam])
    end.

Definition handle_irreversible (height : Z) : M unit :=
  mod_state (λ s, mk_block_applicator (filter (λ p, ¬ p.1 ≤ height) (_block_map s)) (caller s)).

End Applicator.
End BlockApplicator.
