(* ===== verification/BlockApplicatorTheorems.v ===== *)
(** Blocks delivered in any order are applied once their ancestors are. *)

From S2P Require Import Prelude MapBackend StateDelta StateNode StateDatabase Mempool BlockApplicator.
Import Mempool BlockApplicator.

(** What the applicator expects of its caller: a block is applied exactly
    when its parent is known, and is known from then on. *)
Class AppliesBlocks {C : Type} (handle_block_func : block_accepted → C → bool * C) (known : C → gset bytes) := {
  applies_known b c : block_previous b ∈ known c → ∃ c', handle_block_func b c = (true, c') ∧
    known c' = {[block_id b]} ∪ known c;
  applies_unknown b c : block_previous b ∉ known c → ∃ c', handle_block_func b c = (false, c') ∧ known c' = known c
}.

(** The blocks of [L] that descend, through blocks of [L], from [K]. *)
Inductive connected (K : gset bytes) (L : list block_accepted) : block_accepted → Prop :=
| connected_base b : b ∈ L → block_previous b ∈ K → connected K L b
| connected_child b p : b ∈ L → connected K L p → block_previous b = block_id p → connected K L b.

(** A block is one above its parent. *)
Definition heights_ok (L : list block_accepted) : Prop :=
  ∀ b p, b ∈ L → p ∈ L → block_previous b = block_id p → block_height b = u64 (block_height p + 1).

Section Deliveries.
Context {C : Type} (f : block_accepted → C → bool * C) (known : C → gset bytes) `{Hf : !AppliesBlocks f known}.
Implicit Types (b p : block_accepted) (c : C) (L : list block_accepted) (K : gset bytes) (s : @block_applicator C).

Fixpoint deliver L : prog (@block_applicator C) mexn unit :=
  match L with
  | [] => mret tt
  | b :: L => handle_block f b;; deliver L
  end.

Definition waits (m : gmap Z (list block_accepted)) b : Prop := ∃ l, m !! block_height b = Some l ∧ b ∈ l.

(** After the blocks [L] came, while the blocks [queue] were applied and
    their children not yet looked for. *)
Record delivered K L (queue : list applied_block) s : Prop := {
  de_start : K ⊆ known (caller s);
  de_sound i : i ∈ known (caller s) → i ∈ K ∨ ∃ b, connected K L b ∧ block_id b = i;
  de_map h l b : _block_map s !! h = Some l → b ∈ l → b ∈ L ∧ h = block_height b;
  de_waits b : waits (_block_map s) b → block_previous b ∈ known (caller s) →
    ∃ q, q ∈ queue ∧ q.1 = block_previous b ∧ block_height b = u64 (q.2 + 1);
  de_all b : b ∈ L → block_id b ∈ known (caller s) ∨ waits (_block_map s) b;
  de_queue q : q ∈ queue → q.1 ∈ known (caller s) ∧ ∃ b, b ∈ L ∧ connected K L b ∧ q = (block_id b, block_height b)
}.

Lemma connected_mono K L L' b : L ⊆ L' → connected K L b → connected K L' b.
Proof.
  intros HL. induction 1 as [b Hb Hp|b p Hb _ IH Hp]; [apply connected_base; [by apply HL|done]|].
  eapply connected_child; [by apply HL|done..].
Qed.

Lemma erase_applied_spec id blocks c : id ∈ known c → ∃ c',
  erase_applied f id blocks c = (filter (λ b, block_previous b ≠ id) blocks,
    (λ b, (block_id b, block_height b)) <$> filter (λ b, block_previous b = id) blocks, c') ∧
  ∀ i, i ∈ known c' ↔ i ∈ known c ∨ ∃ b, b ∈ blocks ∧ block_previous b = id ∧ block_id b = i.
Proof.
  revert c. induction blocks as [|b blocks IH]; intros c Hid.
  { exists c. split; [done|]. intros i. split; [by left|]. by intros [?|(b & Hb%elem_of_nil & _)]. }
  cbn [erase_applied]. rewrite !filter_cons. destruct (decide (block_previous b = id)) as [Hp|Hp].
  - rewrite bool_decide_eq_false_2 by tauto. rewrite decide_False by tauto.
    destruct (applies_known b c) as (c1 & -> & Hk1); [by rewrite Hp|].
    destruct (IH c1) as (c' & -> & Hk'); [rewrite Hk1; set_solver|]. exists c'. split; [done|].
    intros i. rewrite Hk', Hk1, elem_of_union, elem_of_singleton. split.
    + intros [[->|?]|(b' & Hb' & ? & ?)]; [right; exists b; split_and!; [by left|done..]|by left|].
      right. exists b'. split_and!; [by right|done..].
    + intros [?|(b' & [->|Hb']%elem_of_cons & ? & <-)]; [by left; right|by left; left|]. right. by exists b'.
  - rewrite bool_decide_eq_true_2, decide_True by done. destruct (IH c Hid) as (c' & -> & Hk'). exists c'. split; [done|].
    intros i. rewrite Hk'. split; (intros [?|(b' & Hb' & ? & ?)]; [by left|right; exists b'; split_and!; try done]); [by right|].
    apply elem_of_cons in Hb' as [->|Hb']; [done|done].
Qed.

Lemma waiting_insert m h (l l' : list block_accepted) : m !! h = Some l →
  (waiting_blocks (<[h := l']> m) + length l = waiting_blocks m + length l')%nat.
Proof.
  intros Hl. unfold waiting_blocks.
  rewrite <- (insert_delete_id m h l Hl) at 2. rewrite <- (insert_delete_eq m h l').
  rewrite !map_fold_insert_L by (try (intros; lia); apply lookup_delete_eq). lia.
Qed.

Lemma filter_split blocks (id : bytes) : (length (filter (λ b, block_previous b ≠ id) blocks) +
  length (filter (λ b, block_previous b = id) blocks) = length blocks)%nat.
Proof.
  induction blocks as [|b blocks IH]; [done|]. rewrite !filter_cons.
  destruct (decide (block_previous b = id)) as [Hp|Hp];
    [rewrite (decide_False (P := _ ≠ _)) by tauto|rewrite (decide_True (P := _ ≠ _)) by done]; cbn; lia.
Qed.

Section Step.
Context K L (Hheights : heights_ok L).

(** Nothing waits for the first block of the queue. *)
Lemma step_nothing (id : bytes) (h : Z) rest s : delivered K L ((id, h) :: rest) s → _block_map s !! u64 (h + 1) = None →
  delivered K L rest s.
Proof.
  intros Hd Hn. split; [apply Hd|apply Hd|apply Hd| |apply Hd|].
  - intros b Hw Hk. destruct (de_waits _ _ _ _ Hd b Hw Hk) as (q & [->|Hq]%elem_of_cons & Hp & Hh); [|by exists q].
    destruct Hw as (l & Hl & _). cbn in Hh. congruence.
  - intros q Hq. apply Hd. by right.
Qed.

Lemma connected_waiting (id : bytes) (h : Z) rest s blocks b : delivered K L ((id, h) :: rest) s →
  _block_map s !! u64 (h + 1) = Some blocks → b ∈ blocks → block_previous b = id → b ∈ L ∧ connected K L b.
Proof.
  intros Hd Hl Hb Hp. destruct (de_map _ _ _ _ Hd _ _ _ Hl Hb) as [HbL _]. split; [done|].
  destruct (de_queue _ _ _ _ Hd (id, h)) as (_ & b0 & _ & Hc & Heq); [by left|]. eapply connected_child; [done|exact Hc|]. congruence.
Qed.

(** Its waiting children are applied. *)
Lemma step_children (id : bytes) (h : Z) rest s blocks c' : delivered K L ((id, h) :: rest) s →
  _block_map s !! u64 (h + 1) = Some blocks →
  (∀ i, i ∈ known c' ↔ i ∈ known (caller s) ∨ ∃ b, b ∈ blocks ∧ block_previous b = id ∧ block_id b = i) →
  delivered K L (rest ++ ((λ b, (block_id b, block_height b)) <$> filter (λ b, block_previous b = id) blocks))
    (set_caller c' (set_waiting (u64 (h + 1)) (filter (λ b, block_previous b ≠ id) blocks) s)).
Proof.
  intros Hd Hl Hk. pose proof (λ b Hb, connected_waiting id h rest s blocks b Hd Hl Hb) as Hcon.
  assert (∀ b, waits (<[u64 (h + 1) := filter (λ b, block_previous b ≠ id) blocks]> (_block_map s)) b →
    waits (_block_map s) b ∧ (block_height b = u64 (h + 1) → block_previous b ≠ id)) as Hback.
  { intros b (l & Hlk & Hb). apply lookup_insert_Some in Hlk as [[Hh <-]|[Hh Hlk]]; [|split; [by exists l|congruence]].
    apply list_elem_of_filter in Hb as [Hp Hb]. split; [|done]. exists blocks. split; [congruence|done]. }
  split; cbn [caller _block_map set_caller set_waiting].
  - intros i Hi. apply Hk. left. by apply (de_start _ _ _ _ Hd).
  - intros i [Hi|(b & Hb & Hp & <-)]%Hk; [by apply (de_sound _ _ _ _ Hd)|]. right. exists b. split; [by apply Hcon|done].
  - intros h' l b Hlk Hb. apply lookup_insert_Some in Hlk as [[<- <-]|[_ Hlk]]; [|by eapply de_map].
    apply list_elem_of_filter in Hb as [_ Hb]. by eapply de_map.
  - intros b [Hw Hne]%Hback [Hi|(p & Hp & Hpp & Hpid)]%Hk.
    + destruct (de_waits _ _ _ _ Hd b Hw Hi) as (q & [->|Hq]%elem_of_cons & Hqp & Hh).
      * cbn in Hqp, Hh. by destruct (Hne Hh).
      * exists q. split_and!; [rewrite elem_of_app; by left|done|done].
    + exists (block_id p, block_height p). split_and!; [|done|].
      * apply elem_of_app. right. apply list_elem_of_fmap. exists p. split; [done|]. by apply list_elem_of_filter.
      * destruct Hw as (l & Hlb & Hbl). apply Hheights; [by eapply de_map|by apply Hcon|done].
  - intros b HbL. destruct (de_all _ _ _ _ Hd b HbL) as [Hi|(l & Hlb & Hb)]; [left; apply Hk; by left|].
    destruct (decide (block_height b = u64 (h + 1))) as [Hh|Hh].
    + assert (l = blocks) as -> by congruence. destruct (decide (block_previous b = id)) as [Hp|Hp].
      * left. apply Hk. right. by exists b.
      * right. exists (filter (λ b, block_previous b ≠ id) blocks). rewrite Hh, lookup_insert_eq.
        split; [done|]. by apply list_elem_of_filter.
    + right. exists l. by rewrite lookup_insert_ne.
  - intros q [Hq|Hq]%elem_of_app.
    + destruct (de_queue _ _ _ _ Hd q) as (Hi & b & ?); [by right|]. split; [apply Hk; by left|by exists b].
    + apply list_elem_of_fmap in Hq as (b & -> & [Hp Hb]%list_elem_of_filter). cbn. split; [apply Hk; right; by exists b|].
      exists b. destruct (Hcon b Hb Hp). done.
Qed.

Lemma drain_run fuel queue s : (length queue + waiting_blocks (_block_map s) ≤ fuel)%nat → delivered K L queue s →
  ∃ s', drain f fuel queue s = (Ok tt, s') ∧ delivered K L [] s'.
Proof.
  revert queue s. induction fuel as [|fuel IH]; intros queue s Hfuel Hd.
  { destruct queue as [|q queue]; [by exists s|]. cbn in Hfuel. lia. }
  destruct queue as [|[id h] rest]; [by exists s|]. cbn [drain]. rewrite run_gets. cbn in Hfuel.
  destruct (_block_map s !! u64 (h + 1)) as [blocks|] eqn:Hl.
  - destruct (erase_applied_spec id blocks (caller s)) as (c' & Hrun & Hk); [apply (de_queue _ _ _ _ Hd (id, h)); by left|].
    rewrite run_bind. unfold get_state. rewrite Hrun, run_bind. apply IH; [|by eapply step_children].
    cbn [_block_map set_caller set_waiting]. rewrite length_app, length_fmap.
    pose proof (waiting_insert _ _ _ (filter (λ b, block_previous b ≠ id) blocks) Hl). pose proof (filter_split blocks id). lia.
  - apply IH; [lia|]. by eapply step_nothing.
Qed.

End Step.

(** A block that comes. *)
Lemma handle_block_run K L b s : heights_ok (L ++ [b]) → delivered K L [] s →
  ∃ s', handle_block f b s = (Ok tt, s') ∧ delivered K (L ++ [b]) [] s'.
Proof.
  intros Hh Hd. unfold handle_block. rewrite run_bind. unfold get_state.
  assert (L ⊆ L ++ [b]) as Hsub by (intros x Hx; apply elem_of_app; by left).
  assert (b ∈ L ++ [b]) as Hb by (apply elem_of_app; right; by left).
  destruct (decide (block_previous b ∈ known (caller s))) as [Hp|Hp].
  - destruct (applies_known b (caller s) Hp) as (c' & -> & Hk). rewrite run_bind. cbn [mod_state].
    apply (drain_run K (L ++ [b])); [done|cbn; lia|].
    assert (connected K (L ++ [b]) b) as Hcon.
    { destruct (de_sound _ _ _ _ Hd _ Hp) as [?|(p & Hcp & Hid)]; [by apply connected_base|].
      eapply connected_child; [done|by eapply connected_mono|done]. }
    split; cbn [caller _block_map set_caller].
    + rewrite Hk. pose proof (de_start _ _ _ _ Hd). set_solver.
    + intros i. rewrite Hk, elem_of_union, elem_of_singleton. intros [->|Hi]; [right; by exists b|].
      destruct (de_sound _ _ _ _ Hd i Hi) as [?|(p & ? & ?)]; [by left|]. right. exists p. split; [by eapply connected_mono|done].
    + intros h l x Hl Hx. destruct (de_map _ _ _ _ Hd h l x Hl Hx). split; [by apply Hsub|done].
    + intros x Hw. rewrite Hk, elem_of_union, elem_of_singleton. intros [Hx|Hx].
      * exists (block_id b, block_height b). split_and!; [by left|done|]. destruct Hw as (l & Hl & Hxl).
        apply Hh; [apply Hsub; by eapply de_map|done|done].
      * by destruct (de_waits _ _ _ _ Hd x Hw Hx) as (q & Hq%elem_of_nil & _).
    + intros x [Hx| ->%list_elem_of_singleton]%elem_of_app; [|left; rewrite Hk; set_solver].
      destruct (de_all _ _ _ _ Hd x Hx); [left; rewrite Hk; set_solver|by right].
    + intros q ->%list_elem_of_singleton. cbn. split; [rewrite Hk; set_solver|by exists b].
  - destruct (applies_unknown b (caller s) Hp) as (c' & -> & Hk). rewrite run_bind. cbn [mod_state].
    change (_block_map (set_caller c' s)) with (_block_map s).
    set (old := default [] (_block_map s !! block_height b)).
    exists (set_waiting (block_height b) (old ++ [b]) (set_caller c' s)).
    split; [unfold old; by destruct (_block_map s !! block_height b)|].
    assert (∀ x, waits (<[block_height b := old ++ [b]]> (_block_map s)) x ↔ waits (_block_map s) x ∨ x = b) as Hw.
    { intros x. unfold waits. destruct (decide (block_height x = block_height b)) as [Hxb|Hxb].
      - rewrite Hxb, lookup_insert_eq. unfold old. destruct (_block_map s !! block_height b) as [l|]; cbn [default].
        + split; [intros (l' & [= <-] & [?| ->%list_elem_of_singleton]%elem_of_app); [left; by exists l|by right]|].
          intros [(l' & [= <-] & ?)| ->]; (eexists; split; [done|]); apply elem_of_app; [by left|right; by left].
        + split; [intros (l' & [= <-] & ->%list_elem_of_singleton); by right|].
          intros [(l' & [=] & _)| ->]. eexists. split; [done|]. by left.
      - rewrite lookup_insert_ne by done. split; [by left|]. by intros [?| ->]. }
    split; cbn [caller _block_map set_caller set_waiting]; rewrite ?Hk.
    + apply Hd.
    + intros i Hi. destruct (de_sound _ _ _ _ Hd i Hi) as [?|(p & ? & ?)]; [by left|].
      right. exists p. split; [by eapply connected_mono|done].
    + intros h l x Hl Hx. destruct (decide (h = block_height b)) as [->|Hne].
      * rewrite lookup_insert_eq in Hl. injection Hl as <-. unfold old in Hx.
        apply elem_of_app in Hx as [Hx| ->%list_elem_of_singleton]; [|done].
        destruct (_block_map s !! block_height b) as [l|] eqn:Hl; cbn in Hx; [|by apply elem_of_nil in Hx].
        destruct (de_map _ _ _ _ Hd _ _ _ Hl Hx). split; [by apply Hsub|done].
      * rewrite lookup_insert_ne in Hl by done. destruct (de_map _ _ _ _ Hd _ _ _ Hl Hx). split; [by apply Hsub|done].
    + intros x [Hx| ->]%Hw Hxk; [|done]. by destruct (de_waits _ _ _ _ Hd x Hx Hxk) as (q & Hq%elem_of_nil & _).
    + intros x [Hx| ->%list_elem_of_singleton]%elem_of_app; [|right; apply Hw; by right].
      destruct (de_all _ _ _ _ Hd x Hx); [by left|]. right. apply Hw. by left.
    + by intros q Hq%elem_of_nil.
Qed.

Lemma deliver_run K L1 L2 s : heights_ok (L1 ++ L2) → delivered K L1 [] s →
  ∃ s', deliver L2 s = (Ok tt, s') ∧ delivered K (L1 ++ L2) [] s'.
Proof.
  revert L1 s. induction L2 as [|b L2 IH]; intros L1 s Hh Hd; [rewrite app_nil_r in *; by exists s|].
  destruct (handle_block_run K L1 b s) as (s1 & Hrun & Hd1); [|done|].
  { intros x p Hx Hp. apply Hh; [apply elem_of_app in Hx as [?| ->%list_elem_of_singleton]|
      apply elem_of_app in Hp as [?| ->%list_elem_of_singleton]]; rewrite elem_of_app, elem_of_cons; tauto. }
  destruct (IH (L1 ++ [b]) s1) as (s2 & Hrun2 & Hd2); [by rewrite <- app_assoc|done|]. rewrite <- app_assoc in Hd2.
  exists s2. split; [|done]. cbn [deliver]. by rewrite run_bind, Hrun.
Qed.

(** C26. Blocks may be delivered to the applicator in any order: every
    delivered block that descends from the known ones through delivered
    blocks is applied by the time the last of them was delivered, and no
    other; no call runs forever. *)
Theorem applicator_complete L c : heights_ok L →
  ∃ s, deliver L (mk_block_applicator ∅ c) = (Ok tt, s) ∧
    ∀ i, i ∈ known (caller s) ↔ i ∈ known c ∨ ∃ b, connected (known c) L b ∧ block_id b = i.
Proof.
  intros Hh. destruct (deliver_run (known c) [] L (mk_block_applicator ∅ c)) as (s & Hrun & Hd); [done| |].
  { split; cbn; try done; try (by intros ? ?%elem_of_nil); [by left|].
    intros b (l & Hl & _). by rewrite lookup_empty in Hl. }
  exists s. split; [exact Hrun|]. intros i. split; [apply Hd|]. intros [Hi|(b & Hb & <-)]; [by apply (de_start _ _ _ _ Hd)|].
  cbn [app] in Hd.
  assert (∀ x, x ∈ L → block_previous x ∈ known (caller s) → block_id x ∈ known (caller s)) as Hnext.
  { intros x Hx Hp. destruct (de_all _ _ _ _ Hd x Hx) as [?|Hw]; [done|].
    by destruct (de_waits _ _ _ _ Hd x Hw Hp) as (q & Hq%elem_of_nil & _). }
  induction Hb as [b Hb Hp|b p Hb _ IH Hp]; apply Hnext; [done|by apply (de_start _ _ _ _ Hd)|done|congruence].
Qed.

End Deliveries.

Module Example.

(** A caller that keeps the ids of the blocks it applied. *)
Definition apply_block (b : block_accepted) (c : gset bytes) : bool * gset bytes :=
  if bool_decide (block_previous b ∈ c) then (true, {[block_id b]} ∪ c) else (false, c).

#[local] Instance apply_block_ok : AppliesBlocks apply_block (λ c, c).
Proof.
  split; intros b c Hp; unfold apply_block.
  - exists ({[block_id b]} ∪ c). by rewrite bool_decide_eq_true_2.
  - exists c. by rewrite bool_decide_eq_false_2.
Qed.

Definition block_of (i previous : string) (height : Z) : block_accepted :=
  mk_block_accepted (str i) (str previous) height default_header [] true.

(** A chain delivered from its end, and a block whose parent never comes. *)
Definition blocks : list block_accepted :=
  [block_of "C" "B" 3; block_of "B" "A" 2; block_of "Z" "Y" 7; block_of "A" "G" 1].

Lemma applicator_complete_witness : heights_ok blocks ∧ ∃ s,
  deliver apply_block blocks (mk_block_applicator ∅ {[str "G"]}) = (Ok tt, s) ∧
  str "C" ∈ caller s ∧ str "Z" ∉ caller s.
Proof.
  assert (heights_ok blocks) as Hh.
  { intros b p Hb Hp. unfold blocks in Hb, Hp. rewrite !elem_of_cons, elem_of_nil in Hb, Hp.
    destruct Hb as [->|[->|[->|[->|[]]]]], Hp as [->|[->|[->|[->|[]]]]]; done. }
  split; [exact Hh|]. destruct (applicator_complete apply_block (λ c, c) blocks {[str "G"]} Hh) as (s & Hrun & Hk).
  exists s. split; [exact Hrun|]. split.
  - apply Hk. right. exists (block_of "C" "B" 3). split; [|done].
    apply (connected_child _ _ _ (block_of "B" "A" 2)); [by left| |done].
    apply (connected_child _ _ _ (block_of "A" "G" 1)); [by right; left| |done].
    apply connected_base; [by do 3 right; left|]. by apply elem_of_singleton.
  - rewrite Hk. intros [Hz%elem_of_singleton|(b & Hb & Hi)]; [done|].
    assert (b = block_of "Z" "Y" 7) as ->.
    { assert (b ∈ blocks) as HbL by by destruct Hb. unfold blocks in HbL. rewrite !elem_of_cons, elem_of_nil in HbL.
      by destruct HbL as [->|[->|[->|[->|[]]]]]. }
    inversion Hb as [? _ Hp%elem_of_singleton|? p _ Hp Hid]; subst; [done|].
    assert (p ∈ blocks) as HpL by by destruct Hp. unfold blocks in HpL. rewrite !elem_of_cons, elem_of_nil in HpL.
    by destruct HpL as [->|[->|[->|[->|[]]]]].
Defined.

End Example.
