(* ===== verification/RecordStores.v ===== *)
(** The stores that index accepted blocks in RocksDB columns:
    [src/src/transaction_store/transaction_store.cpp],
    [src/src/contract_meta_store/contract_meta_store.cpp] and
    [src/src/account_history/account_history.cpp].

    A member function is a program over the database.  A mutex around every
    access makes the operations atomic.  The messages are the protobuf
    messages cut down to the fields the stores read; what they only copy is
    one opaque byte string. *)

From S2P Require Import Prelude Storage Keys.

(** ** Iterators of RocksDB

    [Seek] and [SeekForPrev] find the first entry not before a key and the
    last not after it, [Next] and [Prev] the neighbours of a key; the result
    is the entry, or [None] where the iterator is not [Valid]. *)
Class RocksDBIterators (DB CF : Type) := {
  Seek : DB → CF → bytes → option (bytes * bytes);
  SeekForPrev : DB → CF → bytes → option (bytes * bytes);
  Next : DB → CF → bytes → option (bytes * bytes);
  Prev : DB → CF → bytes → option (bytes * bytes)
}.

(** The first and the last entry with a property. *)
Definition first_where {DB CF : Type} `{!RocksDB DB CF} (db : DB) (cf : CF) (P : bytes → Prop)
    (o : option (bytes * bytes)) : Prop :=
  match o with
  | Some (k, v) => Get db cf k = Found v ∧ P k ∧ ∀ k' v', Get db cf k' = Found v' → P k' → ¬ bytes_lt k' k
  | None => ∀ k' v', Get db cf k' = Found v' → ¬ P k'
  end.

Definition last_where {DB CF : Type} `{!RocksDB DB CF} (db : DB) (cf : CF) (P : bytes → Prop)
    (o : option (bytes * bytes)) : Prop :=
  match o with
  | Some (k, v) => Get db cf k = Found v ∧ P k ∧ ∀ k' v', Get db cf k' = Found v' → P k' → ¬ bytes_lt k k'
  | None => ∀ k' v', Get db cf k' = Found v' → ¬ P k'
  end.

Class RocksDBIteratorsLaws (DB CF : Type) `{!RocksDB DB CF} `{!RocksDBIterators DB CF} := {
  Seek_first (db : DB) (cf : CF) k : first_where db cf (λ k', ¬ bytes_lt k' k) (Seek db cf k);
  Next_first (db : DB) (cf : CF) k : first_where db cf (λ k', bytes_lt k k') (Next db cf k);
  SeekForPrev_last (db : DB) (cf : CF) k : last_where db cf (λ k', ¬ bytes_lt k k') (SeekForPrev db cf k);
  Prev_last (db : DB) (cf : CF) k : last_where db cf (λ k', bytes_lt k' k) (Prev db cf k)
}.

(** ** The broadcast *)

Module Broadcast.

Inductive operation : Type :=
| upload_contract (contract_id abi : bytes) (rest : bytes)
| call_contract (contract_id : bytes) (rest : bytes)
| other_operation (rest : bytes).

Record transaction_header := mk_transaction_header { payer : bytes; payee : bytes; header_rest : bytes }.

Record transaction := mk_transaction {
  transaction_id : bytes;
  transaction_header_ : option transaction_header;
  operations : list operation;
  transaction_rest : bytes
}.

Record block := mk_block {
  id : bytes;
  height : Z;
  signer : bytes;
  transactions : list transaction
}.

(** [block] is [None] where [has_block] is false. *)
Record block_accepted := mk_block_accepted { block_ : option block; live : bool }.

Inductive exn : Type := runtime_error.

End Broadcast.

(** ** Transactions by id *)

Module TransactionStore.
Import Broadcast.

Record transaction_item := mk_transaction_item {
  item_transaction : transaction;
  containing_blocks : list bytes
}.

Section Operations.
Context {DB CF : Type} `{!RocksDB DB CF} `{!Message transaction_item} (cf : CF).

#[local] Abbreviation op := (prog DB exn).

(** [_db->Put] with its status dropped. *)
Definition put (key value : bytes) : op unit := mod_state (λ db, (Put db cf key value).2).

Definition found (key : bytes) (db : DB) : option bytes :=
  match Get db cf key with
  | Found value => if bool_decide (value = []) then None else Some value
  | _ => None
  end.

Fixpoint get_loop (ids : list bytes) : op (list transaction_item) :=
  match ids with
  | [] => mret []
  | tx_id :: ids =>
    if bool_decide (tx_id = []) then get_loop ids
    else
      value ← gets_state (found tx_id);
      match value ≫= ParseFromString with
      | None => get_loop ids
      | Some item => items ← get_loop ids; mret (item :: items)
      end
  end.

Definition get_transactions_by_id (transaction_ids : list bytes) : op (list transaction_item) :=
  if Z.of_nat (length transaction_ids) =? 0 then raise runtime_error else get_loop transaction_ids.

Definition write_item (tx : transaction) (item : transaction_item) : op unit :=
  match SerializeToString item with
  | None => mret tt
  | Some value => put (transaction_id tx) value
  end.

Definition add_included_transaction (tx : transaction) (block_id : bytes) : op unit :=
  existing_value ← gets_state (found (transaction_id tx));
  match existing_value with
  | Some existing_value =>
    match ParseFromString existing_value with
    | None => mret tt
    | Some item =>
      if bool_decide (block_id ∈ containing_blocks item) then mret tt
      else write_item tx (mk_transaction_item (item_transaction item) (containing_blocks item ++ [block_id]))
    end
  | None => write_item tx (mk_transaction_item tx [block_id])
  end.

Fixpoint index_transactions (block_id : bytes) (txs : list transaction) : op unit :=
  match txs with
  | [] => mret tt
  | tx :: txs =>
    (if bool_decide (transaction_id tx = []) then mret tt
     else try_catch (add_included_transaction tx block_id) (λ _, mret tt));;
    index_transactions block_id txs
  end.

Definition handle_block_accepted (ba : block_accepted) : op unit :=
  match block_ ba with
  | None => mret tt
  | Some block => index_transactions (id block) (transactions block)
  end.

End Operations.
End TransactionStore.

(** ** Contract metadata *)

Module ContractMetaStore.
Import Broadcast.

Record contract_meta_item := mk_contract_meta_item { item_abi : bytes }.

Section Operations.
Context {DB CF : Type} `{!RocksDB DB CF} `{!Message contract_meta_item} (cf : CF).

#[local] Abbreviation op := (prog DB exn).

Definition get_contract_meta (contract_id : bytes) : op (option contract_meta_item) :=
  if bool_decide (contract_id = []) then raise runtime_error
  else
    s ← gets_state (λ db, Get db cf contract_id);
    match s with
    | Found value => mret (if bool_decide (value = []) then None else ParseFromString value)
    | _ => mret None
    end.

(** The failure of a write is only logged. *)
Definition index_operation (o : operation) : op unit :=
  match o with
  | upload_contract contract_id abi _ =>
    if bool_decide (contract_id = []) then mret tt
    else
      match SerializeToString (mk_contract_meta_item abi) with
      | None => mret tt
      | Some value => mod_state (λ db, (Put db cf contract_id value).2)
      end
  | _ => mret tt
  end.

Fixpoint index_operations (l : list operation) : op unit :=
  match l with
  | [] => mret tt
  | o :: l => index_operation o;; index_operations l
  end.

Fixpoint index_transactions (txs : list transaction) : op unit :=
  match txs with
  | [] => mret tt
  | tx :: txs => index_operations (operations tx);; index_transactions txs
  end.

Definition handle_block_accepted (ba : block_accepted) : op unit :=
  match block_ ba with
  | None => mret tt
  | Some block => index_transactions (transactions block)
  end.

End Operations.
End ContractMetaStore.
