(* ===== verification/AccountHistory.v ===== *)
(** The history of an account: [src/src/account_history/account_history.cpp],
    on the interface and the messages of RecordStores. *)

From S2P Require Import Prelude Storage Keys RecordStores.

Module AccountHistory.
Import Broadcast.

(** [account_history_entry] with its block record, of which the store sets
    the header's height and, with the block's id, its previous field. *)
Record account_history_entry := mk_account_history_entry {
  seq_num : Z;
  entry_height : Z;
  entry_previous : bytes
}.

Record get_account_history_request := mk_get_account_history_request {
  address : bytes;
  req_seq_num : Z;
  limit : Z;
  ascending : bool
}.

Definition max_records_per_query : Z := 500.

(** [for( i = 7; i >= 0; --i )], filling [s] from its end. *)
Fixpoint encode_loop (n : nat) (seq : Z) (s : bytes) : bytes :=
  match n with
  | O => s
  | S n => encode_loop n (Z.shiftr seq 8) (byte_of (Z.land seq 0xff) :: s)
  end.

Definition encode_seq (seq : Z) : bytes := encode_loop 8 seq [].

Definition decode_seq (s : bytes) : Z :=
  if Z.of_nat (length s) <? 8 then 0
  else foldl (λ v c, u64 (Z.lor (Z.shiftl v 8) (code c))) 0 (take 8 s).

Definition meta_prefix : bytes := str "meta:".

Section Operations.
Context {DB CF : Type} `{!RocksDB DB CF} `{!RocksDBIterators DB CF} `{!Message account_history_entry} (cf : CF).

#[local] Abbreviation op := (prog DB exn).

(** The test that ends a scan. *)
Definition other_account (prefix key : bytes) : bool :=
  (Z.of_nat (length key) <=? Z.of_nat (length prefix)) || bool_decide (take (length prefix) key ≠ prefix).

(** A [while] loop over the iterator, at most [n] steps. *)
Fixpoint scan (step : DB → CF → bytes → option (bytes * bytes)) (n : nat) (prefix : bytes)
    (it : option (bytes * bytes)) (db : DB) : list account_history_entry :=
  match n, it with
  | S n, Some (key, value) =>
    if other_account prefix key then []
    else
      let rest := scan step n prefix (step db cf key) db in
      match ParseFromString value with
      | Some record => record :: rest
      | None => rest
      end
  | _, _ => []
  end.

Definition get_account_history (req : get_account_history_request) : op (list account_history_entry) :=
  if bool_decide (address req = []) then mret []
  else
    let limit := if 0 <? limit req then Z.min (u32 (limit req)) max_records_per_query else max_records_per_query in
    let seq_start := req_seq_num req in
    let start_key := address req ++ encode_seq seq_start in
    if ascending req || (seq_start =? 0) then
      gets_state (λ db, scan Next (Z.to_nat limit) (address req) (Seek db cf start_key) db)
    else
      gets_state (λ db, scan Prev (Z.to_nat limit) (address req) (SeekForPrev db cf start_key) db).

(** [_db->Put] with its status dropped. *)
Definition put (key value : bytes) : op unit := mod_state (λ db, (Put db cf key value).2).

Definition next_sequence (address : bytes) : op Z :=
  let meta_key := meta_prefix ++ address in
  s ← gets_state (λ db, Get db cf meta_key);
  let seq := match s with
             | Found value => if Z.of_nat (length value) =? 8 then decode_seq value else 0
             | _ => 0
             end in
  let next := u64 (seq + 1) in
  put meta_key (encode_seq next);;
  mret seq.

Definition store_record (address : bytes) (seq : Z) (trx_id block_id : bytes) (block_height : Z) : op unit :=
  let record := mk_account_history_entry seq block_height block_id in
  match SerializeToString record with
  | None => mret tt
  | Some record_bytes => put (address ++ encode_seq seq) record_bytes
  end.

Definition insert_nonempty (a : bytes) (s : gset bytes) : gset bytes := if bool_decide (a = []) then s else {[a]} ∪ s.

(** The accounts an operation, a transaction and a block impact. *)
Definition operation_addresses (s : gset bytes) (o : operation) : gset bytes :=
  match o with
  | call_contract contract_id _ => insert_nonempty contract_id s
  | upload_contract contract_id _ _ => insert_nonempty contract_id s
  | other_operation _ => s
  end.

Definition transaction_addresses (s : gset bytes) (tx : transaction) : gset bytes :=
  let s := match transaction_header_ tx with
           | Some h => insert_nonempty (payee h) (insert_nonempty (payer h) s)
           | None => s
           end in
  foldl operation_addresses s (operations tx).

Definition block_addresses (block : block) : gset bytes :=
  foldl transaction_addresses (insert_nonempty (signer block) ∅) (transactions block).

Fixpoint store_all (addresses : list bytes) (block_id : bytes) (height : Z) : op unit :=
  match addresses with
  | [] => mret tt
  | addr :: addresses =>
    seq ← next_sequence addr;
    store_record addr seq [] block_id height;;
    store_all addresses block_id height
  end.

(** A [std::set] is traversed in the order of its elements. *)
Definition handle_block_accepted (ba : block_accepted) : op unit :=
  match block_ ba with
  | None => mret tt
  | Some block => store_all (sort_keys (elements (block_addresses block))) (id block) (height block)
  end.

End Operations.
End AccountHistory.
