(* ===== verification/RecordStoresTheorems.v ===== *)
(** What the stores of transactions and of contract metadata answer after
    any blocks were accepted. *)

From S2P Require Import Prelude Storage Keys RecordStores.
Import Broadcast.

(** A database whose calls succeed, and messages that can be written. *)
Class WorkingColumn {DB CF : Type} `{!RocksDB DB CF} (cf : CF) := {
  working_get db k m : Get db cf k ≠ GetError m;
  working_put db k v : ∃ db', Put db cf k v = (StatusOk, db')
}.

(** A message is written to the empty string only where it is blank: none of
    its fields is set to other than its default. *)
Class Writes (A : Type) `{!Message A} (blank : A → Prop) := {
  writes_all a : ∃ v, SerializeToString a = Some v ∧ (v = [] ↔ blank a)
}.

Section Column.
Context {DB CF : Type} `{Hrd : !RocksDB DB CF} `{Hrdl : !RocksDBLaws DB CF} (cf : CF) `{Hrel : !WorkingColumn cf}.
Implicit Types (db : DB) (k v : bytes).

(** The column as a map. *)
Definition stored db k : option bytes := match Get db cf k with Found v => Some v | _ => None end.

Lemma stored_put db k v k' : stored (Put db cf k v).2 k' = if decide (k = k') then Some v else stored db k'.
Proof.
  destruct (working_put db k v) as [db' Hp]. rewrite Hp. cbn. unfold stored. destruct (decide (k = k')) as [<-|Hne].
  - by rewrite (Get_Put _ _ _ _ _ Hp).
  - rewrite (Get_Put_ne _ _ _ _ _ cf k' Hp); [done|]. congruence.
Qed.

End Column.

(** The accepted blocks among the broadcasts. *)
Definition blocks_of (L : list block_accepted) : list block := omap block_ L.

(** A store fed by broadcasts, from an empty column. *)
Fixpoint fed {DB : Type} (handle : block_accepted → prog DB exn unit) (L : list block_accepted) (db : DB) : DB :=
  match L with
  | [] => db
  | ba :: L => fed handle L (handle ba db).2
  end.

Lemma fed_app {DB} (handle : block_accepted → prog DB exn unit) L1 L2 db :
  fed handle (L1 ++ L2) db = fed handle L2 (fed handle L1 db).
Proof. revert db. induction L1 as [|ba L1 IH]; intros db; [done|]. apply IH. Qed.

(** ** Transactions *)

Section Transactions.
Import TransactionStore.
Context {DB CF : Type} `{Hrd : !RocksDB DB CF} `{Hrdl : !RocksDBLaws DB CF} (cf : CF) `{Hrel : !WorkingColumn cf}.
Context `{Hmsg : !Message transaction_item} `{Hml : !MessageLaws transaction_item} `{Hw : !Writes transaction_item (λ _, False)}.
Implicit Types (db : DB) (i b : bytes) (tx : transaction) (it : transaction_item).

(** The inclusions of transactions, in order: block and transaction. *)
Definition inclusions (L : list block_accepted) : list (bytes * transaction) :=
  blocks_of L ≫= λ bl, (λ tx, (id bl, tx)) <$> transactions bl.

Definition inclusions_of i (E : list (bytes * transaction)) : list (bytes * transaction) :=
  filter (λ e, transaction_id e.2 = i) E.

(** What the item of an id says about its inclusions. *)
Definition describes (E : list (bytes * transaction)) (o : option transaction_item) : Prop :=
  match o with
  | None => E = []
  | Some it => snd <$> head E = Some (item_transaction it) ∧ NoDup (containing_blocks it) ∧
      ∀ b, b ∈ containing_blocks it ↔ b ∈ E.*1
  end.

Definition item_at db i : option transaction_item := found cf i db ≫= ParseFromString.

(** The column holds, for every id, an item that describes its inclusions. *)
Definition indexes db (E : list (bytes * transaction)) : Prop :=
  ∀ i, i ≠ [] → match found cf i db with
                | None => inclusions_of i E = []
                | Some v => ∃ it, ParseFromString v = Some it ∧ describes (inclusions_of i E) (Some it) ∧
                    inclusions_of i E ≠ []
                end.

Lemma found_stored db i : found cf i db = v ← stored cf db i; if bool_decide (v = []) then None else Some v.
Proof. unfold found, stored. by destruct (Get db cf i). Qed.

Lemma write_run tx it db : ∃ db', write_item cf tx it db = (Ok tt, db') ∧ ∃ v, ParseFromString v = Some it ∧
  ∀ i, found cf i db' = (if decide (transaction_id tx = i) then Some v else found cf i db).
Proof.
  destruct (writes_all it) as (v & Hv & Hblank). assert (v ≠ []) as Hne by (intros Hv0; by apply Hblank). exists (Put db cf (transaction_id tx) v).2.
  unfold write_item. rewrite Hv. split; [done|].
  exists v. split; [by apply Parse_Serialize|]. intros i. rewrite !found_stored, (stored_put cf (Hrel := Hrel)).
  destruct (decide _); [|done]. cbn. by rewrite bool_decide_eq_false_2.
Qed.

Lemma inclusions_snoc E b tx i : inclusions_of i (E ++ [(b, tx)]) =
  inclusions_of i E ++ (if decide (transaction_id tx = i) then [(b, tx)] else []).
Proof.
  unfold inclusions_of. rewrite filter_app. f_equal.
Qed.

Lemma describes_first b tx : describes [(b, tx)] (Some (mk_transaction_item tx [b])).
Proof. split_and!; [done|apply NoDup_singleton|]. intros b'. cbn. done. Qed.

Lemma describes_more E it b tx : describes E (Some it) → E ≠ [] →
  describes (E ++ [(b, tx)]) (Some (if decide (b ∈ containing_blocks it) then it
    else mk_transaction_item (item_transaction it) (containing_blocks it ++ [b]))).
Proof.
  intros (Hh & Hn & Hin) Hne. cbn. rewrite fmap_app. cbn. destruct E as [|e E]; [done|].
  destruct (decide (b ∈ containing_blocks it)) as [Hb|Hb]; (split; [done|]); cbn [containing_blocks].
  - split; [done|]. intros b'. rewrite elem_of_app, list_elem_of_singleton, <- Hin. split; [by left|]. by intros [?| ->].
  - split.
    + apply NoDup_app. split_and!; [done| |apply NoDup_singleton]. by intros b' Hb' ->%list_elem_of_singleton.
    + intros b'. by rewrite !elem_of_app, Hin.
Qed.

Definition index_transaction b tx : prog DB exn unit :=
  if bool_decide (transaction_id tx = []) then mret tt
  else try_catch (add_included_transaction cf tx b) (λ _, mret tt).

Lemma index_one db E b tx : indexes db E →
  ∃ db', index_transaction b tx db = (Ok tt, db') ∧ indexes db' (E ++ [(b, tx)]).
Proof.
  intros Hi. unfold index_transaction. destruct (bool_decide_reflect (transaction_id tx = [])) as [He|He].
  { exists db. split; [done|]. intros i Hne. specialize (Hi i Hne). rewrite inclusions_snoc, decide_False by congruence.
    by rewrite app_nil_r. }
  assert (∀ o, describes (inclusions_of (transaction_id tx) (E ++ [(b, tx)])) (Some o) →
    ∃ db', write_item cf tx o db = (Ok tt, db') ∧ indexes db' (E ++ [(b, tx)])) as Hwrite.
  { intros o Hd. destruct (write_run tx o db) as (db' & Hrun & v & Hp & Hf). exists db'. split; [done|].
    intros i Hne. rewrite Hf, inclusions_snoc. rewrite inclusions_snoc, decide_True in Hd by done.
    destruct (decide (transaction_id tx = i)) as [<-|Hti]; [|rewrite app_nil_r; by apply Hi].
    exists o. split_and!; [done|done|by destruct (inclusions_of _ E)]. }
  unfold try_catch, add_included_transaction. rewrite run_gets. pose proof (Hi _ He) as Hcur.
  rewrite inclusions_snoc, decide_True in Hwrite by done. destruct (found cf (transaction_id tx) db) as [v|] eqn:Hf.
  - destruct Hcur as (it & Hp & Hd & Hne). rewrite Hp. pose proof (describes_more _ it b tx Hd Hne) as Hmore.
    destruct (decide (b ∈ containing_blocks it)) as [Hb|Hb].
    + rewrite bool_decide_eq_true_2 by done. exists db. split; [done|]. intros i Hin. rewrite inclusions_snoc.
      destruct (decide (transaction_id tx = i)) as [<-|Hti]; [|rewrite app_nil_r; by apply Hi].
      rewrite Hf. exists it. split_and!; [done|done|by destruct (inclusions_of _ E)].
    + rewrite bool_decide_eq_false_2 by done. destruct (Hwrite _ Hmore) as (db' & -> & ?). by exists db'.
  - rewrite Hcur in Hwrite. destruct (Hwrite _ (describes_first b tx)) as (db' & -> & ?). by exists db'.
Qed.

Lemma index_transactions_run b txs : ∀ db E, indexes db E →
  ∃ db', index_transactions cf b txs db = (Ok tt, db') ∧ indexes db' (E ++ ((λ tx, (b, tx)) <$> txs)).
Proof.
  induction txs as [|tx txs IH]; intros db E Hi; [exists db; by rewrite app_nil_r|].
  destruct (index_one db E b tx Hi) as (db1 & Hrun & Hi1). destruct (IH db1 _ Hi1) as (db2 & Hrun2 & Hi2).
  exists db2. rewrite <- app_assoc in Hi2. split; [|done]. cbn [index_transactions]. fold (index_transaction b tx).
  by rewrite run_bind, Hrun.
Qed.

Lemma fed_indexes L db E : indexes db E → indexes (fed (handle_block_accepted cf) L db) (E ++ inclusions L).
Proof.
  revert db E. induction L as [|ba L IH]; intros db E Hi; [by rewrite app_nil_r|]. cbn [fed].
  assert (indexes (handle_block_accepted cf ba db).2 (E ++ inclusions [ba])) as H1.
  { unfold handle_block_accepted, inclusions, blocks_of. cbn [omap list_omap]. destruct (block_ ba) as [bl|]; [|by rewrite app_nil_r].
    destruct (index_transactions_run (id bl) (transactions bl) db E Hi) as (db' & -> & Hi'). cbn. by rewrite app_nil_r. }
  replace (inclusions (ba :: L)) with (inclusions [ba] ++ inclusions L); [rewrite app_assoc; by apply IH|].
  unfold inclusions, blocks_of. rewrite <- bind_app, <- omap_app. done.
Qed.

(** The read of a list of ids. *)
Lemma get_loop_run db ids : get_loop cf ids db = (Ok (omap (λ i, item_at db i) (filter (λ i, i ≠ []) ids)), db).
Proof.
  induction ids as [|i ids IH]; [done|]. cbn [get_loop]. rewrite filter_cons.
  destruct (decide (i ≠ [])) as [Hi|Hi].
  - rewrite bool_decide_eq_false_2 by done. rewrite run_gets. cbn [omap list_omap]. unfold item_at at 1.
    destruct (found cf i db ≫= ParseFromString); [|done]. by rewrite run_bind, IH.
  - rewrite bool_decide_eq_true_2 by (destruct (decide (i = [])); [done|by destruct Hi]). done.
Qed.

(** After any blocks were accepted, the store answers a list of ids with
    one item for each that was included: the transaction as it was first
    included, and every block that includes it, once. *)
Theorem transactions_indexed (L : list block_accepted) db : (∀ i, Get db cf i = NotFound) →
  let db' := fed (handle_block_accepted cf) L db in
  (∀ ids, ids ≠ [] → get_transactions_by_id cf ids db'
     = (Ok (omap (λ i, item_at db' i) (filter (λ i, i ≠ []) ids)), db')) ∧
  ∀ i, i ≠ [] → describes (inclusions_of i (inclusions L)) (item_at db' i).
Proof.
  intros Hempty db'. split.
  - intros ids Hne. unfold get_transactions_by_id. destruct (Z.eqb_spec (Z.of_nat (length ids)) 0) as [Hz|_].
    + by destruct ids.
    + apply get_loop_run.
  - intros i Hi. assert (indexes db []) as H0.
    { intros j _. unfold found. by rewrite Hempty. }
    pose proof (fed_indexes L db [] H0 i Hi) as H. fold db' in H. unfold item_at.
    destruct (found cf i db') as [v|]; [|done]. destruct H as (it & Hp & Hd & _). cbn. by rewrite Hp.
Qed.

End Transactions.

(** ** Contract metadata *)

Section Contracts.
Import ContractMetaStore.
Context {DB CF : Type} `{Hrd : !RocksDB DB CF} `{Hrdl : !RocksDBLaws DB CF} (cf : CF) `{Hrel : !WorkingColumn cf}.
Context `{Hmsg : !Message contract_meta_item} `{Hml : !MessageLaws contract_meta_item} `{Hw : !Writes contract_meta_item (λ it, item_abi it = [])}.
Implicit Types (db : DB) (i : bytes) (U : list (bytes * bytes)).

Definition upload_of (o : operation) : list (bytes * bytes) :=
  match o with upload_contract i abi _ => [(i, abi)] | _ => [] end.

(** The uploads of contracts, in order: contract and interface. *)
Definition uploads (L : list block_accepted) : list (bytes * bytes) :=
  blocks_of L ≫= λ bl, transactions bl ≫= λ tx, operations tx ≫= upload_of.

Definition latest i U : option contract_meta_item :=
  mk_contract_meta_item ∘ snd <$> last (filter (λ u, u.1 = i) U).

Definition answers db U : Prop := ∀ i, i ≠ [] →
  match Get db cf i with
  | Found v => ∃ it, latest i U = Some it ∧ ParseFromString v = Some it ∧ (v = [] ↔ item_abi it = [])
  | NotFound => latest i U = None
  | GetError _ => False
  end.

Lemma latest_snoc i U j abi :
  latest i (U ++ [(j, abi)]) = if decide (j = i) then Some (mk_contract_meta_item abi) else latest i U.
Proof.
  unfold latest. rewrite filter_app, filter_cons. cbn [fst]. destruct (decide (j = i)); cbn [filter list_filter].
  - by rewrite last_snoc.
  - by rewrite app_nil_r.
Qed.

Lemma operation_answers db U o : answers db U →
  ∃ db', index_operation cf o db = (Ok tt, db') ∧ answers db' (U ++ upload_of o).
Proof.
  intros Ha. destruct o as [i abi rest|i rest|rest]; cbn [index_operation upload_of];
    [|exists db; by rewrite app_nil_r..].
  destruct (bool_decide_reflect (i = [])) as [->|Hi].
  { exists db. split; [done|]. intros j Hj. rewrite latest_snoc, decide_False by done. by apply Ha. }
  destruct (writes_all (mk_contract_meta_item abi)) as (v & Hs & Hv). rewrite Hs.
  destruct (working_put (cf := cf) db i v) as [db' Hput]. exists db'. split; [unfold mod_state; by rewrite Hput|].
  intros j Hj. rewrite latest_snoc. destruct (decide (i = j)) as [<-|Hne].
  - rewrite (Get_Put _ _ _ _ _ Hput). eexists. split_and!; [done| |done]. by apply Parse_Serialize.
  - rewrite (Get_Put_ne _ _ _ _ _ cf j Hput) by congruence. by apply Ha.
Qed.

Lemma operations_answer l : ∀ db U, answers db U →
  ∃ db', index_operations cf l db = (Ok tt, db') ∧ answers db' (U ++ (l ≫= upload_of)).
Proof.
  induction l as [|o l IH]; intros db U Ha; [exists db; by rewrite app_nil_r|].
  destruct (operation_answers db U o Ha) as (db1 & Hrun & Ha1). destruct (IH db1 _ Ha1) as (db2 & Hrun2 & Ha2).
  exists db2. rewrite <- app_assoc in Ha2. split; [|done]. cbn [index_operations]. by rewrite run_bind, Hrun.
Qed.

Lemma transactions_answer txs : ∀ db U, answers db U →
  ∃ db', index_transactions cf txs db = (Ok tt, db') ∧ answers db' (U ++ (txs ≫= λ tx, operations tx ≫= upload_of)).
Proof.
  induction txs as [|tx txs IH]; intros db U Ha; [exists db; by rewrite app_nil_r|].
  destruct (operations_answer (operations tx) db U Ha) as (db1 & Hrun & Ha1). destruct (IH db1 _ Ha1) as (db2 & Hrun2 & Ha2).
  exists db2. rewrite <- app_assoc in Ha2. split; [|done]. cbn [index_transactions]. by rewrite run_bind, Hrun.
Qed.

Lemma fed_answers L db U : answers db U → answers (fed (handle_block_accepted cf) L db) (U ++ uploads L).
Proof.
  revert db U. induction L as [|ba L IH]; intros db U Ha; [by rewrite app_nil_r|]. cbn [fed].
  assert (answers (handle_block_accepted cf ba db).2 (U ++ uploads [ba])) as H1.
  { unfold handle_block_accepted, uploads, blocks_of. cbn [omap list_omap]. destruct (block_ ba) as [bl|]; [|by rewrite app_nil_r].
    destruct (transactions_answer (transactions bl) db U Ha) as (db' & -> & Ha'). cbn. by rewrite app_nil_r. }
  replace (uploads (ba :: L)) with (uploads [ba] ++ uploads L); [rewrite app_assoc; by apply IH|].
  unfold uploads, blocks_of. rewrite <- bind_app, <- omap_app. done.
Qed.

(** After any blocks were accepted, the store answers with the interface
    of the last upload of a contract, and with none for a contract that was
    never uploaded or whose last upload has no interface. *)
Theorem contract_meta_latest (L : list block_accepted) db i : (∀ j, Get db cf j = NotFound) → i ≠ [] →
  let db' := fed (handle_block_accepted cf) L db in
  get_contract_meta cf i db' =
    (Ok (it ← latest i (uploads L); if bool_decide (item_abi it = []) then None else Some it), db').
Proof.
  intros Hempty Hi db'. assert (answers db []) as H0 by (intros j _; by rewrite Hempty).
  pose proof (fed_answers L db [] H0 i Hi) as H. fold db' in H. unfold get_contract_meta.
  rewrite bool_decide_eq_false_2 by done. rewrite run_gets. cbn [app] in H.
  destruct (Get db' cf i) as [v| |m]; [|by rewrite H|done]. destruct H as (it & -> & Hp & Hv).
  cbn. by rewrite (bool_decide_ext _ _ Hv), Hp.
Qed.

End Contracts.

Module Example.

#[global] Instance map_db_working : WorkingColumn (DB := MapDB) 0%nat.
Proof.
  split; [|by eexists]. intros db k m. cbn. by destruct (db !! (0%nat, k)).
Qed.

(** ** Messages by their fields *)

#[local] Instance operation_eq_dec : EqDecision operation.
Proof. solve_decision. Defined.

#[local] Instance operation_countable : Countable operation.
Proof.
  refine (inj_countable' (λ o, match o with
    | upload_contract i abi r => inl (inl (i, abi, r))
    | call_contract i r => inl (inr (i, r))
    | other_operation r => inr r
    end) (λ f, match f with
    | inl (inl (i, abi, r)) => upload_contract i abi r
    | inl (inr (i, r)) => call_contract i r
    | inr r => other_operation r
    end) _). by intros [].
Defined.

#[local] Instance transaction_header_eq_dec : EqDecision transaction_header.
Proof. solve_decision. Defined.
#[local] Instance transaction_header_countable : Countable transaction_header.
Proof.
  refine (inj_countable' (λ h, (payer h, payee h, header_rest h)) (λ '(a, b, c), mk_transaction_header a b c) _). by intros [].
Defined.

#[local] Instance transaction_eq_dec : EqDecision transaction.
Proof. solve_decision. Defined.
#[local] Instance transaction_countable : Countable transaction.
Proof.
  refine (inj_countable' (λ t, (transaction_id t, transaction_header_ t, operations t, transaction_rest t))
    (λ '(a, b, c, d), mk_transaction a b c d) _). by intros [].
Defined.

#[local] Instance item_eq_dec : EqDecision TransactionStore.transaction_item.
Proof. solve_decision. Defined.
#[local] Instance item_countable : Countable TransactionStore.transaction_item.
Proof.
  refine (inj_countable' (λ t, (TransactionStore.item_transaction t, TransactionStore.containing_blocks t))
    (λ '(a, b), TransactionStore.mk_transaction_item a b) _). by intros [].
Defined.

#[local] Instance item_message : Message TransactionStore.transaction_item := countable_message.
#[local] Instance item_message_laws : MessageLaws TransactionStore.transaction_item := countable_message_laws.
#[local] Instance item_writes : Writes TransactionStore.transaction_item (λ _, False).
Proof. split. intros a. eexists. split; [done|]. split; done. Qed.

(** The interface is the only field. *)
#[local] Instance meta_message : Message ContractMetaStore.contract_meta_item := {
  SerializeToString it := Some (ContractMetaStore.item_abi it);
  ParseFromString v := Some (ContractMetaStore.mk_contract_meta_item v)
}.

#[local] Instance meta_message_laws : MessageLaws ContractMetaStore.contract_meta_item.
Proof. split. by intros [abi] b [= <-]. Qed.

#[local] Instance meta_writes : Writes ContractMetaStore.contract_meta_item (λ it, ContractMetaStore.item_abi it = []).
Proof. split. intros a. by eexists. Qed.

(** ** Two blocks on forks that include one transaction, and a block that
    uploads a contract twice *)

Definition trx1 : transaction := mk_transaction (str "t1") (Some (mk_transaction_header (str "alice") [] [])) [] [].
Definition trx2 : transaction :=
  mk_transaction (str "t2") None [upload_contract (str "c") (str "abi1") []; call_contract (str "c") []] [].
Definition trx3 : transaction := mk_transaction (str "t3") None [upload_contract (str "c") (str "abi2") []] [].

Definition accepted : list block_accepted :=
  [mk_block_accepted (Some (mk_block (str "A") 1 (str "alice") [trx1; trx2])) true;
   mk_block_accepted None true;
   mk_block_accepted (Some (mk_block (str "B") 1 (str "bob") [trx1; trx3])) false].

Lemma transactions_indexed_witness :
  let db := fed (TransactionStore.handle_block_accepted 0%nat) accepted (∅ : MapDB) in
  (∀ i, Get (∅ : MapDB) 0%nat i = NotFound) ∧
  TransactionStore.get_transactions_by_id 0%nat [str "t1"; []; str "t9"] db
    = (Ok [TransactionStore.mk_transaction_item trx1 [str "A"; str "B"]], db).
Proof.
  intros db. assert (∀ i, Get (∅ : MapDB) 0%nat i = NotFound) as H0 by (intros i; cbn; by rewrite lookup_empty).
  split; [exact H0|]. destruct (transactions_indexed 0%nat accepted (∅ : MapDB) H0) as [Hget _].
  refine (eq_trans (Hget [str "t1"; []; str "t9"] ltac:(done)) _).
  apply (f_equal (λ r, (r, db))). vm_compute. reflexivity.
Defined.

Lemma contract_meta_latest_witness :
  let db := fed (ContractMetaStore.handle_block_accepted 0%nat) accepted (∅ : MapDB) in
  (∀ i, Get (∅ : MapDB) 0%nat i = NotFound) ∧ str "c" ≠ [] ∧
  ContractMetaStore.get_contract_meta 0%nat (str "c") db = (Ok (Some (ContractMetaStore.mk_contract_meta_item (str "abi2"))), db).
Proof.
  intros db. assert (∀ i, Get (∅ : MapDB) 0%nat i = NotFound) as H0 by (intros i; cbn; by rewrite lookup_empty).
  split; [exact H0|]. split; [done|]. exact (contract_meta_latest 0%nat accepted (∅ : MapDB) (str "c") H0 ltac:(done)).
Defined.

End Example.
