(* ===== verification/AccountHistoryTheorems.v ===== *)
(** The pages of an account's history: what [get_account_history] answers
    after any blocks were accepted. *)

From S2P Require Import Prelude Storage Keys RecordStores RecordStoresTheorems AccountHistory.
Import Broadcast AccountHistory.

(** ** Sequence numbers *)

Lemma encode_loop_big_endian n seq s : encode_loop n seq s = big_endian n seq ++ s.
Proof.
  revert seq s. induction n as [|n IH]; intros seq s; [done|]. cbn [encode_loop].
  rewrite IH, big_endian_snoc, <- app_assoc. cbn [app]. rewrite Z.shiftr_div_pow2 by lia. change (2 ^ 8) with 256.
  f_equal. f_equal. unfold byte_of. f_equal. f_equal. unfold u8, wrap. rewrite land_255.
  change (2 ^ 8) with 256. by rewrite Z.mod_mod by lia.
Qed.

Lemma encode_seq_eq seq : encode_seq seq = big_endian 8 seq.
Proof. unfold encode_seq. by rewrite encode_loop_big_endian, app_nil_r. Qed.

Lemma decode_fold s v : 0 ≤ v → v * 256 ^ Z.of_nat (length s) + of_big_endian s < 2 ^ 64 →
  foldl (λ v c, u64 (Z.lor (Z.shiftl v 8) (code c))) v s = v * 256 ^ Z.of_nat (length s) + of_big_endian s.
Proof.
  revert v. induction s as [|c s IH]; intros v Hv Hs; [cbn; lia|]. cbn [foldl length of_big_endian] in *.
  rewrite Nat2Z.inj_succ, Z.pow_succ_r in * by lia. pose proof (code_range c) as Hc. pose proof (of_big_endian_range s) as Hr.
  rewrite lor_shiftl_add by lia. change (2 ^ 8) with 256.
  assert (0 < 256 ^ Z.of_nat (length s)) by lia.
  assert (u64 (v * 256 + code c) = v * 256 + code c) as -> by (apply wrap_small; nia). rewrite IH by nia. lia.
Qed.

Lemma decode_encode_seq x : is_u64 x → decode_seq (encode_seq x) = x.
Proof.
  intros Hx. rewrite encode_seq_eq. unfold decode_seq. rewrite big_endian_length. change (Z.of_nat 8 <? 8) with false. cbn [negb].
  rewrite take_ge by (rewrite big_endian_length; lia). pose proof (u64_big_endian x Hx) as He. unfold is_u64 in Hx.
  rewrite decode_fold; rewrite ?big_endian_length, ?He; lia.
Qed.

Section History.
Context {DB CF : Type} `{Hrd : !RocksDB DB CF} `{Hrdl : !RocksDBLaws DB CF} (cf : CF) `{Hrel : !WorkingColumn cf}.
Context `{Hit : !RocksDBIterators DB CF} `{Hitl : !RocksDBIteratorsLaws DB CF}.
Context `{Hmsg : !Message account_history_entry} `{Hml : !MessageLaws account_history_entry} `{Hw : !Writes account_history_entry (λ _, False)}.
Context (n : nat).
Implicit Types (db : DB) (a b k v : bytes) (H : bytes → list account_history_entry).

(** Addresses have one length, and none is a prefix of a metadata key. *)
Definition good_address a : Prop :=
  length a = n ∧ a ≠ [] ∧ ∀ b, length b = n → take n (meta_prefix ++ b) ≠ a.

Abbreviation record_key a j := (a ++ encode_seq j).
Abbreviation meta_key a := (meta_prefix ++ a).

Definition sequence db a : Z :=
  match stored cf db (meta_key a) with
  | Some value => if Z.of_nat (length value) =? 8 then decode_seq value else 0
  | None => 0
  end.

(** The column holds the histories [H]. *)
Record records db H : Prop := {
  rc_entry a (j : nat) : good_address a → (j < length (H a))%nat →
    ∃ v, stored cf db (record_key a (Z.of_nat j)) = Some v ∧ ParseFromString v = H a !! j;
  rc_sequence a : good_address a → sequence db a = Z.of_nat (length (H a));
  rc_small a : good_address a → Z.of_nat (length (H a)) < 2 ^ 64;
  rc_key k v : stored cf db k = Some v → (∃ a, good_address a ∧ k = meta_key a) ∨
    ∃ a (j : nat), good_address a ∧ (j < length (H a))%nat ∧ k = record_key a (Z.of_nat j)
}.

Lemma encode_length x : length (encode_seq x) = 8%nat.
Proof. rewrite encode_seq_eq. apply big_endian_length. Qed.

Lemma encode_lt x y : is_u64 x → is_u64 y → bytes_lt (encode_seq x) (encode_seq y) ↔ x < y.
Proof. rewrite !encode_seq_eq. apply big_endian_lt. Qed.

Lemma encode_inj x y : is_u64 x → is_u64 y → encode_seq x = encode_seq y → x = y.
Proof. intros Hx Hy Heq. rewrite <- (decode_encode_seq x Hx), <- (decode_encode_seq y Hy). by rewrite Heq. Qed.

Lemma record_key_inj a a' x y : good_address a → good_address a' → is_u64 x → is_u64 y →
  record_key a x = record_key a' y → a = a' ∧ x = y.
Proof.
  intros (Hl & _) (Hl' & _) Hx Hy Heq. apply app_inj_1 in Heq as [-> Heq]; [|congruence]. split; [done|by apply encode_inj].
Qed.

Lemma meta_not_record a a' x : good_address a → good_address a' → meta_key a ≠ record_key a' x.
Proof.
  intros (Hl & _) (Hl' & _) Heq. apply (f_equal length) in Heq. rewrite !length_app, encode_length in Heq. cbn in Heq. lia.
Qed.

Lemma index_u64 db H a (j : nat) : records db H → good_address a → (j < length (H a))%nat → is_u64 (Z.of_nat j).
Proof. intros Hr Ha Hj. pose proof (rc_small _ _ Hr a Ha). unfold is_u64. lia. Qed.

Lemma take_address a b : good_address a → take n (a ++ b) = a.
Proof. intros (Hl & _). by apply take_app_length'. Qed.

(** The stored keys that start with an address are its records. *)
Lemma found_record db H a k v : records db H → good_address a → stored cf db k = Some v → take n k = a →
  ∃ j : nat, (j < length (H a))%nat ∧ k = record_key a (Z.of_nat j).
Proof.
  intros Hr Ha Hk Ht. destruct (rc_key _ _ Hr k v Hk) as [(b & (Hb & _) & ->)|(b & j & (Hb & _) & Hj & ->)].
  - destruct Ha as (_ & _ & Hm). by destruct (Hm b Hb).
  - rewrite take_app_length' in Ht by done. subst b. by exists j.
Qed.

(** ** Scanning *)

Section Scan.
Context db H a (Hr : records db H) (Ha : good_address a).

Abbreviation hist := (H a).
Abbreviation key j := (record_key a (Z.of_nat j)).

Lemma key_small (j : nat) : (j < length hist)%nat → is_u64 (Z.of_nat j).
Proof. by apply (index_u64 db H a). Qed.

(** The iterator is at the record [j], or off the account's records. *)
Definition at_record (j : nat) (it : option (bytes * bytes)) : Prop :=
  match it with
  | Some (k, v) => ((j < length hist)%nat ∧ k = key j ∧ ParseFromString v = hist !! j) ∨
      ((length hist ≤ j)%nat ∧ other_account a k = true)
  | None => (length hist ≤ j)%nat
  end.

(** The iterator is at the last record before [j], or before all of them. *)
Definition before_record (j : nat) (it : option (bytes * bytes)) : Prop :=
  match j with
  | S j => ∃ v, it = Some (key j, v) ∧ ParseFromString v = hist !! j
  | O => match it with Some (k, v) => other_account a k = true | None => True end
  end.

Lemma record_not_other x : other_account a (record_key a x) = false.
Proof.
  unfold other_account. rewrite length_app, encode_length, take_app_length. rewrite bool_decide_eq_false_2 by tauto.
  rewrite orb_false_r. apply Z.leb_gt. lia.
Qed.

Lemma not_other k : other_account a k = false → take n k = a.
Proof.
  unfold other_account. rewrite (proj1 Ha). intros [_ Hk]%orb_false_iff. apply bool_decide_eq_false in Hk.
  destruct (decide (take n k = a)); [done|tauto].
Qed.

Lemma between_records k v x y : stored cf db k = Some v → bytes_lt (record_key a x) k → bytes_lt k (record_key a y) →
  is_u64 x → is_u64 y → ∃ j : nat, (j < length hist)%nat ∧ k = key j ∧ x < Z.of_nat j < y.
Proof.
  intros Hk H1 H2 Hx Hy. destruct (prefix_between _ _ _ _ H1 H2) as [b ->].
  destruct (found_record db H a _ v Hr Ha Hk) as (j & Hj & Heq); [by apply take_address|].
  exists j. rewrite Heq in *. pose proof (key_small j Hj) as Hu. rewrite bytes_lt_app, encode_lt in H1, H2 by done. done.
Qed.

(** A record is found at its key. *)
Lemma record_found (j : nat) : (j < length hist)%nat → ∃ v, Get db cf (key j) = Found v ∧ ParseFromString v = hist !! j.
Proof.
  intros Hj. destruct (rc_entry _ _ Hr a j Ha Hj) as (v & Hv & Hp). exists v. split; [|done].
  unfold stored in Hv. by destruct (Get db cf (key j)); simplify_eq.
Qed.

Lemma found_stored_key k v : Get db cf k = Found v → stored cf db k = Some v.
Proof. intros Hg. unfold stored. by rewrite Hg. Qed.

Lemma first_at_record (P : bytes → Prop) (j : nat) it : first_where db cf P it →
  (∀ j', (j' < length hist)%nat → P (key j') ↔ (j ≤ j')%nat) →
  (∀ k v, stored cf db k = Some v → P k → (j < length hist)%nat → ¬ bytes_lt k (key j)) → at_record j it.
Proof.
  intros Hf HP Hlow. destruct it as [[k v]|]; cbn.
  - destruct Hf as (Hg & HPk & Hmin). pose proof (found_stored_key _ _ Hg) as Hk. destruct (decide (j < length hist)%nat) as [Hj|Hj].
    + left. destruct (record_found j Hj) as (v' & Hg' & Hp'). pose proof (Hmin _ _ Hg' (proj2 (HP j Hj) ltac:(lia))) as H1.
      pose proof (Hlow k v Hk HPk Hj) as H2. destruct (bytes_lt_trichotomy k (key j)) as [?|[->|?]]; [done| |done].
      split_and!; [done|done|congruence].
    + right. split; [lia|]. destruct (other_account a k) eqn:Ho; [done|]. exfalso.
      destruct (found_record db H a k v Hr Ha Hk (not_other k Ho)) as (j' & Hj' & ->). apply HP in HPk; [lia|done].
  - destruct (decide (j < length hist)%nat) as [Hj|Hj]; [|lia]. destruct (record_found j Hj) as (v' & Hg' & _).
    exfalso. apply (Hf _ _ Hg'). apply HP; [done|lia].
Qed.

Lemma seek_at x : is_u64 x → at_record (Z.to_nat x) (Seek db cf (record_key a x)).
Proof.
  intros Hx. apply (first_at_record _ _ _ (Seek_first db cf _)).
  - intros j Hj. pose proof (key_small j Hj) as Hu. rewrite bytes_lt_app, encode_lt by done. unfold is_u64 in *. lia.
  - intros k v _ Hk Hj. rewrite Z2Nat.id by (unfold is_u64 in Hx; lia). done.
Qed.

Lemma next_at (j : nat) : (j < length hist)%nat → at_record (S j) (Next db cf (key j)).
Proof.
  intros Hj. pose proof (key_small j Hj) as Hu. apply (first_at_record _ _ _ (Next_first db cf _)).
  - intros j' Hj'. pose proof (key_small j' Hj') as Hu'. rewrite bytes_lt_app, encode_lt by done. lia.
  - intros k v Hk Hlt Hj2 Hgt. pose proof (key_small _ Hj2) as Hu2.
    destruct (between_records k v _ _ Hk Hlt Hgt Hu Hu2) as (j' & _ & _ & ?). lia.
Qed.

Lemma scan_forward (m j : nat) it : at_record j it → scan cf Next m a it db = take m (drop j hist).
Proof.
  revert j it. induction m as [|m IH]; intros j it Hat; [by destruct it|]. cbn [scan].
  destruct it as [[k v]|]; [|cbn in Hat; by rewrite drop_ge].
  destruct Hat as [(Hj & -> & Hp)|(Hj & ->)]; [|by rewrite drop_ge].
  rewrite record_not_other, Hp. destruct (lookup_lt_is_Some_2 _ _ Hj) as [e He]. rewrite He.
  rewrite (drop_S _ _ _ He). cbn [take]. f_equal. by apply IH, next_at.
Qed.

Lemma last_before_record (P : bytes → Prop) (j : nat) it : last_where db cf P it → (j ≤ length hist)%nat →
  (∀ j', (j' < length hist)%nat → P (key j') ↔ (j' < j)%nat) →
  (∀ k v i, stored cf db k = Some v → P k → j = S i → ¬ bytes_lt (key i) k) → before_record j it.
Proof.
  intros Hf Hjl HP Hhigh. destruct j as [|j]; cbn.
  - destruct it as [[k v]|]; [|done]. destruct Hf as (Hg & HPk & _). pose proof (found_stored_key _ _ Hg) as Hk.
    destruct (other_account a k) eqn:Ho; [done|]. exfalso.
    destruct (found_record db H a k v Hr Ha Hk (not_other k Ho)) as (j' & Hj' & ->). apply HP in HPk; [lia|done].
  - destruct (record_found j ltac:(lia)) as (v' & Hg' & Hp'). pose proof (proj2 (HP j ltac:(lia)) ltac:(lia)) as HPj.
    destruct it as [[k v]|]; [|by destruct (Hf _ _ Hg')]. destruct Hf as (Hg & HPk & Hmax).
    pose proof (found_stored_key _ _ Hg) as Hk. pose proof (Hmax _ _ Hg' HPj) as H1. pose proof (Hhigh k v j Hk HPk eq_refl) as H2.
    destruct (bytes_lt_trichotomy k (key j)) as [?|[->|?]]; [done| |done]. exists v. split; [done|congruence].
Qed.

Lemma seek_before x : is_u64 x →
  before_record (Nat.min (S (Z.to_nat x)) (length hist)) (SeekForPrev db cf (record_key a x)).
Proof.
  intros Hx. apply (last_before_record _ _ _ (SeekForPrev_last db cf _)); [lia| |].
  - intros j Hj. pose proof (key_small j Hj) as Hu. rewrite bytes_lt_app, encode_lt by done. unfold is_u64 in *. lia.
  - intros k v i Hk Hle Hi Hlt. assert (i < length hist)%nat as Hil by lia. pose proof (key_small i Hil) as Hu.
    destruct (bytes_lt_trichotomy k (record_key a x)) as [Hkx|[->|?]]; [| |done].
    + destruct (between_records k v _ _ Hk Hlt Hkx Hu Hx) as (j & Hj & _ & ?). unfold is_u64 in *. lia.
    + destruct (found_record db H a _ v Hr Ha Hk) as (j & Hj & Heq); [by apply take_address|].
      pose proof (key_small j Hj) as Huj. apply app_inv_head, encode_inj in Heq; [|done..]. subst x.
      rewrite bytes_lt_app, encode_lt in Hlt by done. lia.
Qed.

Lemma prev_before (j : nat) : (j < length hist)%nat → before_record j (Prev db cf (key j)).
Proof.
  intros Hj. pose proof (key_small j Hj) as Hu. apply (last_before_record _ _ _ (Prev_last db cf _)); [lia| |].
  - intros j' Hj'. pose proof (key_small j' Hj') as Hu'. rewrite bytes_lt_app, encode_lt by done. lia.
  - intros k v i Hk Hlt -> Hgt. pose proof (key_small i ltac:(lia)) as Hui.
    destruct (between_records k v _ _ Hk Hgt Hlt Hui Hu) as (j' & _ & _ & ?). lia.
Qed.

Lemma scan_backward (m j : nat) it : (j ≤ length hist)%nat → before_record j it →
  scan cf Prev m a it db = take m (reverse (take j hist)).
Proof.
  revert j it. induction m as [|m IH]; intros j it Hjl Hat; [by destruct it|].
  destruct j as [|j]; cbn [before_record] in Hat.
  - rewrite take_0, reverse_nil. destruct it as [[k v]|]; [|done]. cbn [scan]. by rewrite Hat.
  - destruct Hat as (v & -> & Hp). cbn [scan].
    rewrite record_not_other, Hp. destruct (lookup_lt_is_Some_2 hist j ltac:(lia)) as [e He].
    rewrite He, (take_S_r _ _ _ He), reverse_snoc. cbn [take]. f_equal. apply IH; [lia|]. apply prev_before. lia.
Qed.

End Scan.

(** ** Storing *)

Implicit Types (bl : block).

(** The entry of a block that is the [j]-th to impact an account. *)
Definition entry_of (j : nat) bl : account_history_entry := mk_account_history_entry (Z.of_nat j) (height bl) (id bl).

Definition extended H (A : list bytes) bl a : list account_history_entry :=
  H a ++ (if decide (a ∈ A) then [entry_of (length (H a)) bl] else []).

Lemma records_ext db H H' : (∀ a, H a = H' a) → records db H → records db H'.
Proof.
  intros Hext [He Hs Hl Hk]. split.
  - intros a j. rewrite <- Hext. apply He.
  - intros a. rewrite <- Hext. apply Hs.
  - intros a. rewrite <- Hext. apply Hl.
  - intros k v Hkv. destruct (Hk k v Hkv) as [?|(a & j & ? & ? & ?)]; [by left|]. right. exists a, j. by rewrite <- Hext.
Qed.

Lemma record_key_ne a b (i j : nat) : good_address a → good_address b → Z.of_nat i < 2 ^ 64 → Z.of_nat j < 2 ^ 64 →
  a ≠ b ∨ i ≠ j → record_key a (Z.of_nat i) ≠ record_key b (Z.of_nat j).
Proof.
  intros Ha Hb Hi Hj Hne Heq. apply record_key_inj in Heq as [-> Heq]; [|done|done|unfold is_u64; lia..].
  destruct Hne as [?|Hne]; [done|]. apply Hne. lia.
Qed.

Lemma next_sequence_run db H a : records db H → good_address a →
  next_sequence cf a db = (Ok (Z.of_nat (length (H a))), (Put db cf (meta_key a) (encode_seq (u64 (Z.of_nat (length (H a)) + 1)))).2).
Proof.
  intros Hr Ha. unfold next_sequence. rewrite run_gets. unfold put. rewrite <- (rc_sequence _ _ Hr a Ha).
  unfold sequence, stored. destruct (Get db cf (meta_key a)); done.
Qed.

(** Storing a record extends the history of one account. *)
Lemma store_extends db H a bl (seq := Z.of_nat (length (H a))) : records db H → good_address a → seq + 1 < 2 ^ 64 →
  let db1 := (Put db cf (meta_key a) (encode_seq (u64 (seq + 1)))).2 in
  ∃ db', store_record cf a seq [] (id bl) (height bl) db1 = (Ok tt, db') ∧ records db' (extended H [a] bl).
Proof.
  intros Hr Ha Hsmall db1. destruct (writes_all (entry_of (length (H a)) bl)) as (v & Hv & _).
  assert (u64 (seq + 1) = seq + 1) as Hu by (apply wrap_small; lia). pose proof (rc_small _ _ Hr) as Hlen.
  exists (Put db1 cf (record_key a seq) v).2. split.
  { unfold store_record. fold (entry_of (length (H a)) bl). unfold seq. unfold entry_of in Hv. by rewrite Hv. }
  assert (∀ k, stored cf (Put db1 cf (record_key a seq) v).2 k = if decide (record_key a seq = k) then Some v
    else if decide (meta_key a = k) then Some (encode_seq (seq + 1)) else stored cf db k) as Hst.
  { intros k. rewrite (stored_put cf (Hrel := Hrel)). unfold db1. by rewrite (stored_put cf (Hrel := Hrel)), Hu. }
  assert (∀ b, extended H [a] bl b = if decide (b = a) then H a ++ [entry_of (length (H a)) bl] else H b) as Hex.
  { intros b. unfold extended. destruct (decide (b = a)) as [->|Hne].
    - by rewrite decide_True by apply list_elem_of_here.
    - rewrite decide_False by (by intros ->%list_elem_of_singleton). apply app_nil_r. }
  apply (records_ext _ (λ b, if decide (b = a) then H a ++ [entry_of (length (H a)) bl] else H b)); [done|]. split.
  - intros b j Hb. cbn beta. intros Hj. rewrite Hst. destruct (decide (b = a)) as [->|Hne].
    + rewrite length_app in Hj. cbn [length] in Hj. destruct (decide (j = length (H a))) as [->|Hlast].
      * exists v. rewrite decide_True by done. split; [done|]. rewrite lookup_app_r, Nat.sub_diag by lia.
        by apply Parse_Serialize.
      * destruct (rc_entry _ _ Hr a j Ha ltac:(lia)) as (w & Hw1 & Hw2). exists w. rewrite lookup_app_l by lia.
        rewrite decide_False by (apply record_key_ne; [done|done|lia|lia|right; lia]).
        rewrite decide_False by (by apply meta_not_record). done.
    + destruct (rc_entry _ _ Hr b j Hb Hj) as (w & Hw1 & Hw2). exists w. pose proof (Hlen b Hb).
      rewrite decide_False by (apply record_key_ne; [done|done|lia|lia|by left]).
      rewrite decide_False by (by apply meta_not_record). done.
  - intros b Hb. unfold sequence. rewrite Hst. rewrite decide_False by (apply not_eq_sym; by apply meta_not_record).
    destruct (decide (meta_key a = meta_key b)) as [Heq|Hne].
    + apply app_inv_head in Heq as <-. rewrite decide_True by done. rewrite encode_length. cbn [Nat.eqb].
      change (Z.of_nat 8 =? 8) with true. cbn iota. rewrite decode_encode_seq by (unfold is_u64; lia).
      rewrite length_app. cbn [length]. lia.
    + rewrite decide_False by congruence. apply (rc_sequence _ _ Hr b Hb).
  - intros b Hb. cbn beta. destruct (decide (b = a)) as [->|_]; [|by apply Hlen]. rewrite length_app. cbn [length]. lia.
  - intros k w. rewrite Hst. destruct (decide (record_key a seq = k)) as [<-|_].
    { intros _. right. exists a, (length (H a)). rewrite decide_True, length_app by done. cbn [length]. split_and!; [done|lia|done]. }
    destruct (decide (meta_key a = k)) as [<-|_]; [by left; exists a|]. intros Hk.
    destruct (rc_key _ _ Hr k w Hk) as [?|(b & j & Hb & Hj & ->)]; [by left|]. right. exists b, j. split_and!; [done| |done].
    destruct (decide (b = a)) as [->|_]; [|done]. rewrite length_app. lia.
Qed.

Lemma store_all_run A bl : NoDup A → Forall good_address A → ∀ db H, records db H →
  (∀ a, a ∈ A → Z.of_nat (length (H a)) + 1 < 2 ^ 64) →
  ∃ db', store_all cf A (id bl) (height bl) db = (Ok tt, db') ∧ records db' (extended H A bl).
Proof.
  induction A as [|a A IH]; intros Hnd HA db H Hr Hsmall.
  - exists db. split; [done|]. apply (records_ext db H); [|done]. intros a. unfold extended. by rewrite decide_False, app_nil_r by set_solver.
  - apply NoDup_cons in Hnd as [Hna Hnd]. apply Forall_cons in HA as [Ha HA]. cbn [store_all].
    rewrite run_bind, (next_sequence_run db H a Hr Ha). cbn [mret prog_ret]. rewrite run_bind.
    destruct (store_extends db H a bl Hr Ha) as (db1 & -> & Hr1); [apply Hsmall, list_elem_of_here|].
    assert (∀ b, b ∈ A → extended H [a] bl b = H b) as Hother.
    { intros b Hb. unfold extended. rewrite decide_False, app_nil_r; [done|]. by intros ->%list_elem_of_singleton. }
    destruct (IH Hnd HA db1 _ Hr1) as (db' & -> & Hr').
    { intros b Hb. rewrite Hother by done. apply Hsmall. by right. }
    exists db'. split; [done|]. refine (records_ext db' _ _ _ Hr'). intros b. unfold extended at 1 3.
    destruct (decide (b ∈ A)) as [Hb|Hb].
    + rewrite Hother by done. by rewrite decide_True by (by right).
    + rewrite app_nil_r. unfold extended. destruct (decide (b = a)) as [->|Hne].
      * by rewrite !decide_True by apply list_elem_of_here.
      * by rewrite !decide_False by set_solver.
Qed.

(** ** Accepted blocks *)

(** The blocks that impact an account, in order, and its history. *)
Definition impacting a (L : list block_accepted) : list block := filter (λ bl, a ∈ block_addresses bl) (blocks_of L).

Definition history (L : list block_accepted) a : list account_history_entry := imap entry_of (impacting a L).

Lemma impacting_app a L1 L2 : impacting a (L1 ++ L2) = impacting a L1 ++ impacting a L2.
Proof. unfold impacting, blocks_of. by rewrite omap_app, filter_app. Qed.

Lemma impacting_length a L : (length (impacting a L) ≤ length L)%nat.
Proof.
  unfold impacting, blocks_of. etrans; [apply length_filter|]. induction L as [|ba L IH]; [done|].
  cbn. destruct (block_ ba); cbn; lia.
Qed.

(** The addresses of an accepted block are good. *)
Definition good_broadcast (ba : block_accepted) : Prop :=
  ∀ bl a, block_ ba = Some bl → a ∈ block_addresses bl → good_address a.

Lemma handle_records L ba db : records db (history L) → good_broadcast ba → Z.of_nat (length L) + 1 < 2 ^ 64 →
  ∃ db', handle_block_accepted cf ba db = (Ok tt, db') ∧ records db' (history (L ++ [ba])).
Proof.
  intros Hr Hgood Hsmall. unfold handle_block_accepted. destruct (block_ ba) as [bl|] eqn:Hb.
  - assert (∀ a, a ∈ sort_keys (elements (block_addresses bl)) ↔ a ∈ block_addresses bl) as Hin.
    { intros a. unfold sort_keys. by rewrite merge_sort_Permutation, elem_of_elements. }
    destruct (store_all_run (sort_keys (elements (block_addresses bl))) bl) with (db := db) (H := history L)
      as (db' & Hrun & Hr'); [| |done| |].
    + unfold sort_keys. rewrite merge_sort_Permutation. apply NoDup_elements.
    + apply Forall_forall. intros a Ha%Hin. by eapply Hgood.
    + intros a _. unfold history. rewrite length_imap. pose proof (impacting_length a L). lia.
    + exists db'. split; [done|]. refine (records_ext db' _ _ _ Hr'). intros a. unfold extended, history.
      rewrite impacting_app, imap_app, length_imap. f_equal. unfold impacting, blocks_of at 2. cbn. rewrite Hb. cbn.
      rewrite (decide_ext _ (a ∈ block_addresses bl)) by apply Hin. destruct (decide _); cbn; [|done]. by rewrite Nat.add_0_r.
  - exists db. split; [done|]. refine (records_ext db _ _ _ Hr). intros a. unfold history. rewrite impacting_app.
    unfold impacting at 3, blocks_of. cbn. rewrite Hb. cbn. by rewrite app_nil_r.
Qed.

Lemma fed_records L2 : ∀ L1 db, records db (history L1) → Forall good_broadcast L2 → Z.of_nat (length (L1 ++ L2)) < 2 ^ 64 →
  records (fed (handle_block_accepted cf) L2 db) (history (L1 ++ L2)).
Proof.
  induction L2 as [|ba L2 IH]; intros L1 db Hr Hgood Hsmall; [by rewrite app_nil_r|].
  apply Forall_cons in Hgood as [Hg Hgood]. rewrite length_app in Hsmall. cbn [length] in Hsmall.
  destruct (handle_records L1 ba db Hr Hg) as (db' & Hrun & Hr'); [lia|]. cbn [fed]. rewrite Hrun.
  specialize (IH (L1 ++ [ba]) db'). rewrite <- app_assoc in IH. apply IH; [done|done|]. rewrite length_app. cbn [app length]. lia.
Qed.

Lemma empty_records db : (∀ k, Get db cf k = NotFound) → records db (history []).
Proof.
  intros Hempty. split.
  - intros a j _ Hj. cbn in Hj. lia.
  - intros a _. unfold sequence, stored. by rewrite Hempty.
  - done.
  - intros k v. unfold stored. by rewrite Hempty.
Qed.

(** The number of entries a request asks for. *)
Definition page_size (req : get_account_history_request) : nat :=
  if 0 <? limit req then Z.to_nat (Z.min (u32 (limit req)) 500) else 500.

(** C37. After any blocks were accepted, a request is answered with a page of
    the history of the account: the entries of the blocks that impact it, in
    the order of their acceptance, from the requested number on; or, where a
    descending page is requested, backwards from the requested number.  A
    page has at most the requested number of entries, and never more than
    500.  The addresses that a block impacts are those of its signer, its
    payers, payees and contracts, not those of its events; they are all of
    one length, and none gives a key that looks like a counter's.  Otherwise
    a page can hold records of others ([foreign_records]). *)
Theorem account_history_pages (L : list block_accepted) db (req : get_account_history_request)
    (db' := fed (handle_block_accepted cf) L db) (hist := history L (address req)) (start := Z.to_nat (req_seq_num req)) :
  (∀ k, Get db cf k = NotFound) → Forall good_broadcast L → Z.of_nat (length L) < 2 ^ 64 →
  good_address (address req) → is_u64 (req_seq_num req) →
  get_account_history cf req db' =
    (Ok (take (page_size req)
      (if ascending req || (req_seq_num req =? 0) then drop start hist else reverse (take (S start) hist))), db').
Proof.
  intros Hempty Hgood Hsmall Ha Hs. pose proof (fed_records L [] db (empty_records db Hempty) Hgood Hsmall) as Hr.
  fold db' in Hr. cbn [app] in Hr. unfold get_account_history. rewrite bool_decide_eq_false_2 by apply Ha.
  assert (Z.to_nat (if 0 <? limit req then Z.min (u32 (limit req)) max_records_per_query else max_records_per_query)
    = page_size req) as -> by (unfold page_size; by destruct (0 <? limit req)).
  destruct (ascending req || (req_seq_num req =? 0)); unfold gets_state.
  - do 2 f_equal. apply (scan_forward db' _ _ Hr Ha). by apply (seek_at db' (history L)).
  - do 2 f_equal. rewrite (scan_backward db' _ _ Hr Ha _ _ _ (Nat.le_min_r _ _) (seek_before db' _ _ Hr Ha _ Hs)).
    f_equal. f_equal. rewrite <- take_take. by rewrite firstn_all.
Qed.

End History.

Module Example.

(** ** Iterators over a map *)

Definition column (db : MapDB) (cf : nat) : gmap bytes bytes := default ∅ (map_curry (M1 := gmap nat) (M2 := gmap bytes) db !! cf).

Definition entry_at (db : MapDB) (cf : nat) (k : option bytes) : option (bytes * bytes) :=
  k ← k; v ← column db cf !! k; Some (k, v).

#[global] Instance map_iterators : RocksDBIterators MapDB nat := {
  Seek db cf k := entry_at db cf (first_key (λ k', negb (bytes_ltb k' k)) (column db cf));
  SeekForPrev db cf k := entry_at db cf (last_key (λ k', negb (bytes_ltb k k')) (column db cf));
  Next db cf k := entry_at db cf (first_key (λ k', bytes_ltb k k') (column db cf));
  Prev db cf k := entry_at db cf (last_key (λ k', bytes_ltb k' k) (column db cf))
}.

Lemma column_get db cf k v : Get db cf k = Found v ↔ column db cf !! k = Some v.
Proof.
  assert (column db cf !! k = db !! (cf, k)) as ->.
  { rewrite <- (lookup_map_curry (M1 := gmap nat) (M2 := gmap bytes)). unfold column. by destruct (map_curry (M1 := gmap nat) (M2 := gmap bytes) db !! cf). }
  cbn. by destruct (db !! (cf, k)); split; intros [= ->].
Qed.

Lemma first_entry (P : bytes → bool) db cf : first_where db cf (λ k, P k = true) (entry_at db cf (first_key P (column db cf))).
Proof.
  unfold entry_at. destruct (first_key P (column db cf)) as [k|] eqn:Hf; cbn.
  - apply first_key_Some in Hf as ([v Hv] & HP & Hle). rewrite Hv. cbn. split_and!; [by apply column_get|done|].
    intros k' v' Hk'%column_get HP' Hlt. specialize (Hle k' ltac:(by eexists) HP'). by apply bytes_not_lt in Hle.
  - intros k v Hk%column_get HP. by rewrite (first_key_None _ _ k Hf) in HP.
Qed.

Lemma last_entry (P : bytes → bool) db cf : last_where db cf (λ k, P k = true) (entry_at db cf (last_key P (column db cf))).
Proof.
  unfold entry_at. destruct (last_key P (column db cf)) as [k|] eqn:Hf; cbn.
  - apply last_key_Some in Hf as ([v Hv] & HP & Hle). rewrite Hv. cbn. split_and!; [by apply column_get|done|].
    intros k' v' Hk'%column_get HP' Hlt. specialize (Hle k' ltac:(by eexists) HP'). by apply bytes_not_lt in Hle.
  - intros k v Hk%column_get HP. by rewrite (last_key_None _ _ k Hf) in HP.
Qed.

Lemma first_where_ext (db : MapDB) cf (P Q : bytes → Prop) o : (∀ k, P k ↔ Q k) → first_where db cf P o → first_where db cf Q o.
Proof. intros HPQ. unfold first_where. destruct o as [[k v]|]; setoid_rewrite HPQ; done. Qed.

Lemma last_where_ext (db : MapDB) cf (P Q : bytes → Prop) o : (∀ k, P k ↔ Q k) → last_where db cf P o → last_where db cf Q o.
Proof. intros HPQ. unfold last_where. destruct o as [[k v]|]; setoid_rewrite HPQ; done. Qed.

#[global] Instance map_iterators_laws : RocksDBIteratorsLaws MapDB nat.
Proof.
  assert (∀ b, (negb b = true : Prop) ↔ ¬ (b = true)) as Hneg by (intros []; done).
  split; intros db cf k.
  - eapply first_where_ext; [|apply first_entry]. intros k'. apply Hneg.
  - apply first_entry.
  - eapply last_where_ext; [|apply last_entry]. intros k'. apply Hneg.
  - apply last_entry.
Qed.

#[local] Instance entry_eq_dec : EqDecision account_history_entry.
Proof. solve_decision. Defined.
#[local] Instance entry_countable : Countable account_history_entry.
Proof.
  refine (inj_countable' (λ e, (seq_num e, entry_height e, entry_previous e))
    (λ '(a, b, c), mk_account_history_entry a b c) _). by intros [].
Defined.
#[local] Instance entry_message : Message account_history_entry := countable_message.
#[local] Instance entry_message_laws : MessageLaws account_history_entry := countable_message_laws.
#[local] Instance entry_writes : Writes account_history_entry (λ _, False).
Proof. split. intros a. eexists. split; [done|]. split; done. Qed.

(** ** Three blocks that impact two accounts *)

Definition pay (p : bytes) : transaction := mk_transaction [] (Some (mk_transaction_header p [] [])) [] [].

Definition block_a : block := mk_block (str "A") 1 (str "alice") [pay (str "bobby")].
Definition block_b : block := mk_block (str "B") 2 (str "bobby") [].
Definition block_c : block := mk_block (str "C") 3 (str "alice") [pay (str "alice")].

Definition accepted : list block_accepted :=
  [mk_block_accepted (Some block_a) true; mk_block_accepted (Some block_b) true;
   mk_block_accepted None true; mk_block_accepted (Some block_c) false].

Lemma good_block n bl l lv : elements (block_addresses bl) = l → Forall (good_address n) l →
  good_broadcast n (mk_block_accepted (Some bl) lv).
Proof. intros <- Hl bl' a [= <-] Ha%elem_of_elements. revert a Ha. by apply Forall_forall. Qed.

Definition latest_two : get_account_history_request := mk_get_account_history_request (str "alice") 9 2 false.

(** Without blocks of its own, an address that another one extends is answered
    with the blocks of the other. *)
Lemma foreign_records :
  let db := fed (handle_block_accepted 0%nat) accepted (∅ : MapDB) in
  history accepted (str "al") = [] ∧
  (get_account_history 0%nat (mk_get_account_history_request (str "al") 0 10 true) db).1
    = Ok [mk_account_history_entry 0 1 (str "A"); mk_account_history_entry 1 3 (str "C")].
Proof. by vm_compute. Qed.

Lemma account_history_pages_witness :
  let db := fed (handle_block_accepted 0%nat) accepted (∅ : MapDB) in
  (∀ k, Get (∅ : MapDB) 0%nat k = NotFound) ∧ Forall (good_broadcast 5) accepted ∧ good_address 5 (str "alice") ∧
  get_account_history 0%nat latest_two db
    = (Ok [mk_account_history_entry 1 3 (str "C"); mk_account_history_entry 0 1 (str "A")], db).
Proof.
  intros db. assert (∀ k, Get (∅ : MapDB) 0%nat k = NotFound) as H0 by (intros i; cbn; by rewrite lookup_empty).
  assert (∀ a, length a = 5%nat → take 5 a ≠ str "meta:" → good_address 5 a) as Hgood5.
  { intros a Hl Hm. split_and!; [exact Hl|by intros ->|]. intros b Hb Heq. apply Hm. rewrite <- Heq. by destruct b as [|? b]. }
  assert (good_address 5 (str "alice")) as Ha by (apply Hgood5; done).
  assert (good_address 5 (str "bobby")) as Hb by (apply Hgood5; done).
  assert (Forall (good_broadcast 5) accepted) as Hall.
  { apply Forall_cons. split; [|apply Forall_cons; split; [|apply Forall_cons; split; [by intros bl a|apply Forall_cons; split; [|apply Forall_nil_2]]]].
    - apply (good_block 5 block_a [str "bobby"; str "alice"]); [vm_compute; reflexivity|]. by repeat constructor.
    - apply (good_block 5 block_b [str "bobby"]); [vm_compute; reflexivity|]. by repeat constructor.
    - apply (good_block 5 block_c [str "alice"]); [vm_compute; reflexivity|]. by repeat constructor. }
  split; [exact H0|]. split; [exact Hall|]. split; [exact Ha|].
  refine (eq_trans (account_history_pages 0%nat 5 accepted (∅ : MapDB) latest_two H0 Hall ltac:(done) Ha ltac:(done)) _).
  apply (f_equal (λ r, (r, db))). vm_compute. reflexivity.
Defined.

End Example.
