(* ===== verification/SkipList.v ===== *)
(** The skip list of the block store: [src/src/block_store/skip_list.hpp].

    A block at height [h] points to its ancestors at [h - 1], [h - 2],
    [h - 4], ..., [h - 2^countr_zero(h)]; [get_previous_height_index] picks
    the pointer to follow towards a goal. *)

From S2P Require Import Prelude.

Module SkipList.

(** [std::countr_zero] of a 64-bit value. *)
Fixpoint countr_zero_pos (p : positive) : Z :=
  match p with
  | xO p => 1 + countr_zero_pos p
  | _ => 0
  end.

Definition countr_zero (x : Z) : Z :=
  match x with
  | Zpos p => countr_zero_pos p
  | _ => 64
  end.

Definition get_previous_heights (height : Z) : list Z :=
  if height =? 0 then []
  else
    let zeros := countr_zero height in
    (λ i, u64 (height - u64 (Z.shiftl 1 i))) <$> seqZ 0 (zeros + 1).

Record skip_index_result := mk_skip_index_result { index : Z; height : Z }.

Inductive skip_error : Type :=
| invalid_argument (message : string).

(** The loop over [i], which ranges over [steps]. *)
Fixpoint skip_index_loop (goal current : Z) (steps : list Z) (last_idx last_h : Z)
  : skip_index_result :=
  match steps with
  | [] => mk_skip_index_result last_idx last_h
  | i :: steps =>
    let h := u64 (current - u64 (Z.shiftl 1 i)) in
    if h <? goal then mk_skip_index_result (i - 1) last_h
    else skip_index_loop goal current steps i h
  end.

Definition get_previous_height_index (goal current : Z) : skip_error + skip_index_result :=
  if current <=? goal then
    inl (invalid_argument "goal height must be less than current height")
  else
    let zeros := countr_zero current in
    inr (skip_index_loop goal current (seqZ 0 (zeros + 1)) 0 0).

End SkipList.
Import SkipList.

(** ** Trailing zeros *)

Lemma countr_zero_nonneg x : 0 ≤ countr_zero x.
Proof.
  destruct x as [|p|p]; cbn; [lia| |lia]. induction p; cbn [countr_zero_pos]; lia.
Qed.

(** [x] is an odd multiple of [2^countr_zero(x)]. *)
Lemma countr_zero_spec x : 0 < x → ∃ q, x = (2 * q + 1) * 2 ^ countr_zero x.
Proof.
  destruct x as [|p|p]; [lia| |lia]. intros _. cbn [countr_zero].
  induction p as [p _|p IH|]; cbn [countr_zero_pos].
  - exists (Zpos p). lia.
  - destruct IH as [q Hq]. exists q.
    assert (0 ≤ countr_zero_pos p) by apply (countr_zero_nonneg (Zpos p)).
    rewrite Z.pow_add_r, Pos2Z.inj_xO by lia. nia.
  - exists 0. lia.
Qed.

Lemma countr_zero_le x : 0 < x → 2 ^ countr_zero x ≤ x.
Proof.
  intros Hx. destruct (countr_zero_spec x Hx) as [q Hq].
  pose proof (Z.pow_pos_nonneg 2 (countr_zero x) ltac:(lia) (countr_zero_nonneg x)) as Hp.
  assert (0 < 2 * q + 1) by (apply (Z.mul_pos_cancel_r _ _ Hp); lia). nia.
Qed.

Lemma countr_zero_lt_64 x : 0 < x < 2 ^ 64 → countr_zero x < 64.
Proof.
  intros Hx. pose proof (countr_zero_le x ltac:(lia)).
  apply (Z.pow_lt_mono_r_iff 2); lia.
Qed.

(** The exponent is the only one for which the quotient is odd. *)
Lemma countr_zero_unique x k q : 0 ≤ k → 0 < x → x = (2 * q + 1) * 2 ^ k → countr_zero x = k.
Proof.
  intros Hk Hx Hq. destruct (countr_zero_spec x Hx) as [p Hp].
  pose proof (countr_zero_nonneg x). destruct (Z.lt_trichotomy (countr_zero x) k) as [Hl|[?|Hl]];
    [|done|]; exfalso.
  - replace k with (countr_zero x + 1 + (k - countr_zero x - 1)) in Hq by lia.
    rewrite !Z.pow_add_r in Hq by lia.
    pose proof (Z.pow_pos_nonneg 2 (countr_zero x) ltac:(lia) ltac:(lia)) as Hpos.
    assert (2 * p + 1 = (2 * q + 1) * (2 * 2 ^ (k - countr_zero x - 1))) as Hodd.
    { apply (Z.mul_reg_r _ _ (2 ^ countr_zero x)); nia. }
    lia.
  - replace (countr_zero x) with (k + 1 + (countr_zero x - k - 1)) in Hp by lia.
    rewrite !Z.pow_add_r in Hp by lia.
    pose proof (Z.pow_pos_nonneg 2 k ltac:(lia) ltac:(lia)) as Hpos.
    assert (2 * q + 1 = (2 * p + 1) * (2 * 2 ^ (countr_zero x - k - 1))) as Hodd.
    { apply (Z.mul_reg_r _ _ (2 ^ k)); nia. }
    lia.
Qed.

(** ** The pointers of a block *)

Section Pointers.
Context (current : Z) (Hc : 0 < current < 2 ^ 64).

Lemma jump_height i :
  0 ≤ i ≤ countr_zero current →
  u64 (current - u64 (Z.shiftl 1 i)) = current - 2 ^ i ∧ 0 < 2 ^ i ≤ current.
Proof.
  intros Hi. pose proof (countr_zero_lt_64 current Hc). pose proof (countr_zero_le current ltac:(lia)).
  pose proof (Z.pow_le_mono_r 2 i (countr_zero current) ltac:(lia) ltac:(lia)).
  pose proof (Z.pow_pos_nonneg 2 i ltac:(lia) ltac:(lia)).
  rewrite Z.shiftl_mul_pow2, Z.mul_1_l by lia.
  unfold u64. rewrite (wrap_small 64 (2 ^ i)) by lia. rewrite wrap_small by lia. lia.
Qed.

Lemma get_previous_heights_spec :
  get_previous_heights current
  = (λ i, current - 2 ^ i) <$> seqZ 0 (countr_zero current + 1).
Proof.
  unfold get_previous_heights. rewrite (proj2 (Z.eqb_neq current 0)) by lia.
  apply list_fmap_ext. intros k i Hi. apply lookup_seqZ in Hi as [-> Hk].
  apply jump_height. lia.
Qed.

Lemma skip_index_loop_spec goal n j :
  0 ≤ j → j + Z.of_nat n = countr_zero current → goal ≤ current - 2 ^ j →
  ∃ i, skip_index_loop goal current (seqZ (j + 1) (Z.of_nat n)) j (current - 2 ^ j)
         = mk_skip_index_result i (current - 2 ^ i) ∧
       j ≤ i ≤ countr_zero current ∧ goal ≤ current - 2 ^ i ∧
       (i = countr_zero current ∨ current - 2 ^ (i + 1) < goal).
Proof.
  revert j. induction n as [|n IH]; intros j Hj Hn Hg.
  { exists j. cbn. split_and!; [done|lia|lia|done|left; lia]. }
  rewrite seqZ_cons by lia. cbn [skip_index_loop].
  destruct (jump_height (j + 1) ltac:(lia)) as [-> _].
  destruct (Z.ltb_spec (current - 2 ^ (j + 1)) goal) as [Hlt|Hge].
  - exists j. replace (j + 1 - 1) with j by lia. split_and!; [done|lia|lia|done|by right].
  - replace (Z.pred (Z.of_nat (S n))) with (Z.of_nat n) by lia.
    replace (Z.succ (j + 1)) with (j + 1 + 1) by lia.
    destruct (IH (j + 1) ltac:(lia) ltac:(lia) Hge) as (i & -> & Hi & Hgi & Hmax).
    exists i. split_and!; [done|lia|lia|done|done].
Qed.

(** The largest jump that does not pass the goal. *)
Lemma get_previous_height_index_spec goal :
  0 ≤ goal < current →
  ∃ i, get_previous_height_index goal current
         = inr (mk_skip_index_result i (current - 2 ^ i)) ∧
       0 ≤ i ≤ countr_zero current ∧ goal ≤ current - 2 ^ i ∧
       (i = countr_zero current ∨ current - 2 ^ (i + 1) < goal).
Proof.
  intros Hg. unfold get_previous_height_index.
  rewrite (proj2 (Z.leb_gt current goal)) by lia.
  pose proof (countr_zero_nonneg current).
  rewrite seqZ_cons by lia. cbn [skip_index_loop].
  destruct (jump_height 0 ltac:(lia)) as [-> _].
  rewrite (proj2 (Z.ltb_ge _ goal)) by (change (2 ^ 0) with 1; lia).
  replace (Z.pred (countr_zero current + 1)) with (Z.of_nat (Z.to_nat (countr_zero current))) by lia.
  change (Z.succ 0) with (0 + 1).
  destruct (skip_index_loop_spec goal (Z.to_nat (countr_zero current)) 0)
    as (i & -> & Hi & Hgi & Hmax); [lia|lia|change (2 ^ 0) with 1; lia|].
  exists i. split_and!; [done|lia|lia|done|done].
Qed.

End Pointers.

(** ** The number of jumps

    While whole low bits can be cleared every jump raises the number of
    trailing zeros; once they cannot, every jump clears the top bit of the
    distance.  Either can happen at most 64 times. *)

Definition jumps_left (goal current : Z) : Z :=
  let d := current - goal in
  if 2 ^ countr_zero current <=? d then 128 - countr_zero current else Z.log2 d + 1.

Lemma jumps_left_bound goal current :
  0 ≤ goal < current → current < 2 ^ 64 → 1 ≤ jumps_left goal current ≤ 128.
Proof.
  intros Hg Hc. unfold jumps_left. pose proof (countr_zero_lt_64 current ltac:(lia)).
  pose proof (countr_zero_nonneg current). pose proof (Z.log2_nonneg (current - goal)).
  assert (Z.log2 (current - goal) < 64) by (apply Z.log2_lt_pow2; lia).
  destruct (Z.leb_spec (2 ^ countr_zero current) (current - goal)); lia.
Qed.

Lemma jump_decreases goal current i :
  0 ≤ goal < current → current < 2 ^ 64 → 0 ≤ i ≤ countr_zero current →
  goal < current - 2 ^ i → (i = countr_zero current ∨ current - 2 ^ (i + 1) < goal) →
  jumps_left goal (current - 2 ^ i) < jumps_left goal current.
Proof.
  intros Hg Hc Hi Hgi Hmax.
  pose proof (countr_zero_lt_64 current ltac:(lia)) as Hz.
  pose proof (Z.pow_pos_nonneg 2 i ltac:(lia) ltac:(lia)).
  destruct (countr_zero_spec current ltac:(lia)) as [q Hq].
  set (z := countr_zero current) in *.
  pose proof (Z.pow_pos_nonneg 2 z ltac:(lia) ltac:(lia)) as Hpz.
  assert (0 ≤ q) by nia.
  pose proof (jumps_left_bound goal (current - 2 ^ i) ltac:(lia) ltac:(lia)) as Hb.
  destruct (decide (i = z)) as [->|Hne].
  - (* the lowest set bit is cleared *)
    assert (z < countr_zero (current - 2 ^ z)) as Hzz.
    { destruct (countr_zero_spec (current - 2 ^ z) ltac:(lia)) as [p Hp].
      pose proof (countr_zero_nonneg (current - 2 ^ z)).
      destruct (Z.lt_ge_cases z (countr_zero (current - 2 ^ z))) as [|Hle]; [done|exfalso].
      replace z with (countr_zero (current - 2 ^ z) + (z - countr_zero (current - 2 ^ z))) in Hq
        by lia.
      set (y := countr_zero (current - 2 ^ z)) in *.
      assert (current - 2 ^ z = 2 * q * 2 ^ (z - y) * 2 ^ y) as Heq.
      { replace (2 ^ z) with (2 ^ (y + (z - y))) by (f_equal; lia).
        rewrite Z.pow_add_r in * by lia. nia. }
      pose proof (Z.pow_pos_nonneg 2 y ltac:(lia) ltac:(lia)).
      assert (2 * p + 1 = 2 * q * 2 ^ (z - y)) by (apply (Z.mul_reg_r _ _ (2 ^ y)); lia).
      lia. }
    unfold jumps_left at 2. fold z.
    rewrite (proj2 (Z.leb_le (2 ^ z) _)) by lia.
    unfold jumps_left in *. pose proof (countr_zero_lt_64 (current - 2 ^ z) ltac:(lia)).
    destruct (Z.leb_spec (2 ^ countr_zero (current - 2 ^ z)) (current - 2 ^ z - goal)); [lia|].
    assert (Z.log2 (current - 2 ^ z - goal) < 64) by (apply Z.log2_lt_pow2; lia). lia.
  - (* the jump is limited by the goal *)
    destruct Hmax as [?|Hmax]; [done|].
    assert (2 ^ (i + 1) = 2 * 2 ^ i) as Hi1 by (rewrite Z.pow_add_r by lia; lia).
    assert (2 * 2 ^ i ≤ 2 ^ z) by (rewrite <- Hi1; apply Z.pow_le_mono_r; lia).
    assert (countr_zero (current - 2 ^ i) = i) as Hzi.
    { apply (countr_zero_unique _ i ((2 * q + 1) * 2 ^ (z - i - 1) - 1)); [lia..|].
      rewrite Hq. replace (2 ^ z) with (2 ^ (i + 1 + (z - i - 1))) by (f_equal; lia).
      rewrite !Z.pow_add_r by lia. lia. }
    unfold jumps_left. rewrite Hzi. fold z.
    rewrite (proj2 (Z.leb_gt (2 ^ i) _)) by lia.
    assert (Z.log2 (current - 2 ^ i - goal) < i) by (apply Z.log2_lt_pow2; lia).
    destruct (Z.leb_spec (2 ^ z) (current - goal)); [lia|].
    assert (i ≤ Z.log2 (current - goal)) by (apply Z.log2_le_pow2; lia). lia.
Qed.
