(* ===== verification/BlockStore.v ===== *)
(** The block store: [src/src/block_store/block_store.cpp].

    Module [BlockStore] holds the operations.  A member function is a
    program over the database; the mutex around every public operation makes
    it atomic.  The messages are the protobuf messages cut down to the
    fields the store reads; what it only copies is one opaque byte string. *)

From S2P Require Import Prelude Storage SkipList.

Module BlockStore.

(** ** Messages *)

Record block_header := mk_block_header {
  header_height : Z;
  header_previous : bytes;
  header_rest : bytes
}.

Record block := mk_block {
  id : bytes;
  header : option block_header;
  block_rest : bytes
}.

Record block_record := mk_block_record {
  record_id : bytes;
  record_height : Z;
  previous_block_ids : list bytes;
  record_block : option block;
  record_receipt : option bytes
}.

Record block_topology := mk_block_topology {
  topo_id : bytes;
  topo_height : Z;
  topo_previous : bytes
}.

Record block_item := mk_block_item {
  item_id : bytes;
  item_height : Z;
  item_block : option block;
  item_receipt : option bytes
}.

Record get_blocks_by_id_request := mk_get_blocks_by_id_request {
  block_ids : list bytes;
  id_return_block : bool;
  id_return_receipt : bool
}.

Record get_blocks_by_height_request := mk_get_blocks_by_height_request {
  head_block_id : bytes;
  ancestor_start_height : Z;
  req_num_blocks : Z;
  return_block : bool;
  return_receipt : bool
}.

Record add_block_request := mk_add_block_request {
  block_to_add : option block;
  receipt_to_add : option bytes
}.

Record block_accepted := mk_block_accepted {
  accepted_block : option block;
  accepted_receipt : option bytes;
  live : bool
}.

(** Every exception of the store derives from [std::exception]. *)
Inductive exn : Type :=
| block_not_present
| unexpected_height
| db_error
| invalid_argument
| runtime_error.

#[global] Instance exn_eq_dec : EqDecision exn.
Proof. solve_decision. Defined.

Definition META_KEY : bytes := [byte_of 1].

Definition max_block_request : Z := 1000.

(** [header()] of an absent header is the default message. *)
Definition header_or_default (b : block) : block_header :=
  default (mk_block_header 0 [] []) (header b).

Section Operations.
Context {DB CF : Type} `{!RocksDB DB CF} `{!Message block_record} `{!Message block_topology}.
Context (cf_blocks cf_meta : CF).

Abbreviation op := (prog DB exn).

(** ** Private helpers *)

Definition get_record_bytes (block_id : bytes) : op bytes :=
  s ← gets_state (λ db, Get db cf_blocks block_id);
  match s with
  | NotFound => mret []
  | GetError _ => raise db_error
  | Found value => mret value
  end.

Definition put_record_bytes (block_id value : bytes) : op unit :=
  db ← get_state;
  let (s, db) := Put db cf_blocks block_id value in
  put_state db;;
  match s with
  | StatusOk => mret tt
  | StatusError _ => raise db_error
  end.

(** The topology, or [None] where the code returns false. *)
Definition get_highest_block_topology : op (option block_topology) :=
  s ← gets_state (λ db, Get db cf_meta META_KEY);
  match s with
  | NotFound => mret None
  | GetError _ => raise db_error
  | Found value => mret (ParseFromString value)
  end.

Definition update_highest_block (topo : block_topology) : op unit :=
  match SerializeToString topo with
  | None => raise db_error
  | Some value =>
    db ← get_state;
    let (s, db) := Put db cf_meta META_KEY value in
    put_state db;;
    match s with
    | StatusOk => mret tt
    | StatusError _ => raise db_error
    end
  end.

(** [for( ;; )]: one unit of fuel per iteration. *)
Fixpoint ancestor_loop (fuel : nat) (current_id : bytes) (has_expected_height : bool)
    (expected_height target_height : Z) : op bytes :=
  match fuel with
  | O => λ db, (OutOfFuel, db)
  | S fuel =>
    record_bytes ← get_record_bytes current_id;
    if bool_decide (record_bytes = []) then raise block_not_present
    else
      match ParseFromString record_bytes with
      | None => raise db_error
      | Some record =>
        if has_expected_height && negb (record_height record =? expected_height)
        then raise unexpected_height
        else if record_height record =? target_height then mret (record_id record)
        else
          match SkipList.get_previous_height_index target_height (record_height record) with
          | inl _ => raise invalid_argument
          | inr (SkipList.mk_skip_index_result idx h) =>
            if (idx <? 0) || (Z.of_nat (length (previous_block_ids record)) <=? idx)
            then raise unexpected_height
            else
              let current_id := default [] (previous_block_ids record !! Z.to_nat idx) in
              if h =? target_height then mret current_id
              else ancestor_loop fuel current_id true h target_height
          end
      end
  end.

(** 128 iterations are enough for any database: [get_ancestor_total]. *)
Definition ancestor_fuel : nat := 128.

Definition get_ancestor_id_at_height (block_id : bytes) (target_height : Z) : op bytes :=
  ancestor_loop ancestor_fuel block_id false 0 target_height.

Definition item_of_record (record : block_record) (return_block return_receipt : bool) : block_item :=
  mk_block_item (record_id record) (record_height record)
    (if return_block then record_block record else None)
    (if return_receipt then record_receipt record else None).

(** [for( i = 0; i < count && !current_id.empty(); ++i )]; a [break] ends
    the list. *)
Fixpoint fill_loop (count : nat) (current_id : bytes) (first : bool) (expected_height : Z)
    (return_block return_receipt : bool) : op (list block_item) :=
  match count with
  | O => mret []
  | S count =>
    if bool_decide (current_id = []) then mret []
    else
      record_bytes ← get_record_bytes current_id;
      if bool_decide (record_bytes = []) then mret []
      else
        match ParseFromString record_bytes with
        | None => mret []
        | Some record =>
          if negb first && negb (record_height record =? expected_height) then mret []
          else
            let item := item_of_record record return_block return_receipt in
            let current_id := default [] (previous_block_ids record !! 0%nat) in
            items ← fill_loop count current_id false (u64 (record_height record - 1))
                      return_block return_receipt;
            mret (item :: items)
        end
  end.

Definition fill_blocks (start_id : bytes) (count : Z) (return_block return_receipt : bool)
  : op (list block_item) :=
  fill_loop (Z.to_nat count) start_id true 0 return_block return_receipt.

(** ** Lifecycle *)

Definition genesis_topology : block_topology :=
  mk_block_topology (repeat (byte_of 0) 34) 0 [].

Definition initialize : op unit :=
  topo ← get_highest_block_topology;
  match topo with
  | Some _ => mret tt
  | None => update_highest_block genesis_topology
  end.

(** ** RPC methods *)

(** The response's [topology], absent when there is none. *)
Definition get_highest_block : op (option block_topology) := get_highest_block_topology.

Fixpoint by_id_loop (ids : list bytes) (return_block return_receipt : bool)
  : op (list block_item) :=
  match ids with
  | [] => mret []
  | block_id :: ids =>
    record_bytes ← get_record_bytes block_id;
    if bool_decide (record_bytes = []) then by_id_loop ids return_block return_receipt
    else
      match ParseFromString record_bytes with
      | None => by_id_loop ids return_block return_receipt
      | Some record =>
        items ← by_id_loop ids return_block return_receipt;
        mret (item_of_record record return_block return_receipt :: items)
      end
  end.

Definition get_blocks_by_id (req : get_blocks_by_id_request) : op (list block_item) :=
  by_id_loop (take (Z.to_nat max_block_request) (block_ids req))
    (id_return_block req) (id_return_receipt req).

Definition get_blocks_by_height (req : get_blocks_by_height_request) : op (list block_item) :=
  if ancestor_start_height req =? 0 then mret []
  else
    let num_blocks := Z.min (req_num_blocks req) max_block_request in
    if num_blocks =? 0 then mret []
    else
      try_catch
        (start_id ← get_ancestor_id_at_height (head_block_id req) (ancestor_start_height req);
         items ← fill_blocks start_id 1 (return_block req) (return_receipt req);
         if 1 <? num_blocks then
           let end_height := u64 (u64 (ancestor_start_height req + num_blocks) - 1) in
           end_id ← get_ancestor_id_at_height (head_block_id req) end_height;
           items ← fill_blocks end_id num_blocks (return_block req) (return_receipt req);
           mret (reverse items)
         else mret items)
        (λ e, match e with
              | block_not_present | unexpected_height => mret []
              | e => raise e
              end).

(** The skip-list pointers; [None] where the code gives up on a missing
    ancestor and returns the response. *)
Fixpoint build_pointers (height : Z) (previous : bytes) (prev_heights : list Z)
    (pointers : list bytes) : op (option (list bytes)) :=
  match prev_heights with
  | [] => mret (Some pointers)
  | h :: prev_heights =>
    if h =? u64 (height - 1) then
      build_pointers height previous prev_heights (pointers ++ [previous])
    else
      ancestor ← try_catch (id ← get_ancestor_id_at_height previous h; mret (Some id)) (λ _, mret None);
      match ancestor with
      | Some ancestor_id => build_pointers height previous prev_heights (pointers ++ [ancestor_id])
      | None => mret None
      end
  end.

(** Serialize and store, then update the highest block. *)
Definition store_record (b : block) (height : Z) (previous : bytes) (record : block_record) : op unit :=
  match SerializeToString record with
  | None => raise db_error
  | Some record_bytes =>
    put_record_bytes (id b) record_bytes;;
    current_highest ← get_highest_block_topology;
    match current_highest with
    | Some current_highest =>
      if topo_height current_highest <? height
      then update_highest_block (mk_block_topology (id b) height previous)
      else mret tt
    | None => mret tt
    end
  end.

Definition add_block (req : add_block_request) : op unit :=
  match block_to_add req with
  | None => raise runtime_error
  | Some b =>
    match header b with
    | None => raise runtime_error
    | Some hdr =>
      let height := header_height hdr in
      existing ← get_record_bytes (id b);
      if bool_decide (existing ≠ []) then mret tt
      else
        pointers ←
          (if 1 <? height then
             build_pointers height (header_previous hdr) (SkipList.get_previous_heights height) []
           else if height =? 1 then mret (Some [header_previous hdr])
           else mret (Some []));
        match pointers with
        | None => mret tt
        | Some pointers =>
          store_record b height (header_previous hdr)
            (mk_block_record (id b) height pointers (Some b) (receipt_to_add req))
        end
    end
  end.

(** ** Broadcast handler *)

Definition handle_block_accepted (ba : block_accepted) : op unit :=
  match accepted_block ba with
  | None => mret tt
  | Some b =>
    try_catch (add_block (mk_add_block_request (Some b) (accepted_receipt ba)))
      (λ _, mret tt)
  end.

End Operations.

End BlockStore.
