(* ===== verification/BlockStoreTheorems.v ===== *)
(** Facts about the block store: what the reads return on a well-formed
    database, and that writing a block keeps it well formed.

    The properties of the block store: termination and correctness of the
    ancestor search, the range query, and the history of a store fed by
    [block_accepted] broadcasts. *)

From S2P Require Import Prelude Storage SkipList BlockStore.
Import SkipList.SkipList BlockStore.

(** ** The chain

    A block id is a hash of the block, so it determines the block's height
    and its parent; [prev_of] and [height_of] are the two functions. *)

Section Chain.
Context (height_of : bytes → Z) (prev_of : bytes → bytes).

Definition chain_heights : Prop :=
  ∀ i, 0 < height_of i → height_of (prev_of i) = height_of i - 1.

(** The ancestor [n] blocks below [i]. *)
Definition ancestor (i : bytes) (n : Z) : bytes := Nat.iter (Z.to_nat n) prev_of i.

Lemma ancestor_0 i : ancestor i 0 = i.
Proof. reflexivity. Qed.

Lemma ancestor_1 i : ancestor i 1 = prev_of i.
Proof. reflexivity. Qed.

Lemma ancestor_ancestor i n m :
  0 ≤ n → 0 ≤ m → ancestor (ancestor i n) m = ancestor i (n + m).
Proof.
  intros Hn Hm. unfold ancestor. rewrite Z.add_comm, Z2Nat.inj_add by lia.
  by rewrite Nat.iter_add.
Qed.

Lemma ancestor_height i n :
  chain_heights → 0 ≤ n ≤ height_of i → height_of (ancestor i n) = height_of i - n.
Proof.
  intros Hc Hn. destruct Hn as [Hn Hle]. revert Hle. pattern n.
  apply natlike_ind; [rewrite ancestor_0; lia| |done].
  intros m Hm IH Hle. rewrite <- Z.add_1_r, <- ancestor_ancestor by lia.
  rewrite ancestor_1, Hc by (rewrite IH; lia). rewrite IH; lia.
Qed.

(** The pointers of a block at height [h]. *)
Definition pointers_of (i : bytes) : list bytes :=
  if height_of i =? 0 then []
  else (λ k, ancestor i (2 ^ k)) <$> seqZ 0 (countr_zero (height_of i) + 1).

Lemma pointers_lookup i k :
  0 < height_of i → 0 ≤ k ≤ countr_zero (height_of i) →
  pointers_of i !! Z.to_nat k = Some (ancestor i (2 ^ k)).
Proof.
  intros Hh Hk. unfold pointers_of. rewrite (proj2 (Z.eqb_neq _ 0)) by lia.
  rewrite list_lookup_fmap, lookup_seqZ_lt by lia. cbn [fmap option_fmap option_map].
  do 3 f_equal. lia.
Qed.

Lemma pointers_length i :
  0 < height_of i → Z.of_nat (length (pointers_of i)) = countr_zero (height_of i) + 1.
Proof.
  intros Hh. unfold pointers_of. rewrite (proj2 (Z.eqb_neq _ 0)) by lia.
  rewrite length_fmap, length_seqZ. pose proof (countr_zero_nonneg (height_of i)). lia.
Qed.

(** What the record of a block holds. *)
Definition committed (i : bytes) (r : block_record) : Prop :=
  record_id r = i ∧ record_height r = height_of i ∧ is_u64 (height_of i) ∧
  previous_block_ids r = pointers_of i.

End Chain.

Section Facts.
Context {DB CF : Type} `{!RocksDB DB CF} `{!Message block_record} `{!Message block_topology}.
Context (cf_blocks cf_meta : CF).

(** [block_height] is a [uint64] field. *)
Definition heights_u64 : Prop :=
  ∀ b (r : block_record), ParseFromString b = Some r → is_u64 (record_height r).

Definition record_at (db : DB) (i : bytes) : option block_record :=
  match Get db cf_blocks i with
  | Found v => if bool_decide (v = []) then None else ParseFromString v
  | _ => None
  end.

(** ** Termination of the ancestor search, on any database *)

Lemma get_record_bytes_pure i (db : DB) : (get_record_bytes cf_blocks i db).2 = db.
Proof. unfold get_record_bytes, gets_state, mbind, prog_bind. destruct (Get _ _ _); done. Qed.

Lemma ancestor_loop_total fuel current_id (has : bool) expected target db :
  heights_u64 → is_u64 target →
  (if has then target < expected < 2 ^ 64 ∧ jumps_left target expected ≤ Z.of_nat fuel
   else (128 ≤ fuel)%nat) →
  (ancestor_loop cf_blocks fuel current_id has expected target db).1 ≠ OutOfFuel ∧
  (ancestor_loop cf_blocks fuel current_id has expected target db).2 = db.
Proof.
  intros Hu Ht. revert current_id has expected.
  induction fuel as [|fuel IH]; intros current_id has expected Hf.
  { exfalso. destruct has; [|lia]. destruct Hf as [He Hj]. unfold is_u64 in Ht.
    pose proof (jumps_left_bound target expected ltac:(lia) ltac:(lia)). lia. }
  cbn [ancestor_loop]. rewrite run_bind.
  pose proof (get_record_bytes_pure current_id db) as Hp.
  destruct (get_record_bytes cf_blocks current_id db) as [[v|e|] db'] eqn:Hg; cbn in Hp; subst db';
    [|done|].
  2: { exfalso. revert Hg. unfold get_record_bytes, gets_state, mbind, prog_bind.
       destruct (Get _ _ _); done. }
  case_bool_decide; [done|]. destruct (ParseFromString v) as [r|] eqn:Hr; [|done].
  pose proof (Hu _ _ Hr) as Hr64.
  destruct (has && negb (record_height r =? expected)) eqn:Hexp; [done|].
  destruct (Z.eqb_spec (record_height r) target) as [|Hne]; [done|].
  destruct (decide (record_height r < target)) as [Hlt|Hge].
  { unfold get_previous_height_index. rewrite (proj2 (Z.leb_le _ _)) by lia. done. }
  unfold is_u64 in *.
  destruct (get_previous_height_index_spec (record_height r) ltac:(lia) target ltac:(lia))
    as (i & -> & Hi & Hgi & Hmax).
  destruct ((i <? 0) || _); [done|].
  destruct (Z.eqb_spec (record_height r - 2 ^ i) target); [done|].
  pose proof (Z.pow_pos_nonneg 2 i ltac:(lia) ltac:(lia)).
  apply IH. split; [lia|].
  pose proof (jump_decreases target (record_height r) i ltac:(lia) ltac:(lia) Hi ltac:(lia) Hmax).
  destruct has.
  - apply andb_false_iff in Hexp as [?|Hexp]; [done|].
    apply negb_false_iff, Z.eqb_eq in Hexp. rewrite Hexp in *. lia.
  - pose proof (jumps_left_bound target (record_height r) ltac:(lia) ltac:(lia)). lia.
Qed.

(** ** What the search finds *)

Context (height_of : bytes → Z) (prev_of : bytes → bytes).
Abbreviation ancestor := (ancestor prev_of).
Abbreviation committed := (committed height_of prev_of).
Abbreviation pointers_of := (pointers_of height_of prev_of).

(** Every stored block is recorded with its height and its pointers. *)
Definition wf (db : DB) : Prop :=
  ∀ i v, Get db cf_blocks i = Found v →
    v ≠ [] ∧ ∃ r, ParseFromString v = Some r ∧ committed i r.

(** No read of the database fails. *)
Definition healthy (db : DB) : Prop := ∀ cf i m, Get db cf i ≠ GetError m.

Lemma wf_record db i r : wf db → record_at db i = Some r → committed i r.
Proof.
  unfold record_at. intros Hwf. destruct (Get db cf_blocks i) eqn:Hg; try done.
  destruct (Hwf _ _ Hg) as (Hv & r' & Hr & Hc). case_bool_decide; [done|congruence].
Qed.

(** A block the search for [target] from [i] looks at. *)
Definition visited (i : bytes) (target n : Z) : Prop := n = 0 ∨ 0 < n < height_of i - target.

Definition ancestor_outcome (db : DB) (i : bytes) (target : Z) (o : outcome exn bytes) : Prop :=
  match o with
  | Ok a => target ≤ height_of i ∧ a = ancestor i (height_of i - target)
  | Throw block_not_present =>
    ∃ n, visited i target n ∧ Get db cf_blocks (ancestor i n) = NotFound
  | Throw db_error =>
    ∃ n m, visited i target n ∧ Get db cf_blocks (ancestor i n) = GetError m
  | Throw invalid_argument => height_of i < target
  | Throw _ => False
  | OutOfFuel => True
  end.

Lemma ancestor_outcome_step db i n target o :
  chain_heights height_of prev_of →
  0 < n < height_of i - target → 0 ≤ target →
  ancestor_outcome db (ancestor i n) target o → ancestor_outcome db i target o.
Proof.
  intros Hc Hn Ht. pose proof (ancestor_height _ _ i n Hc ltac:(lia)) as Hh.
  unfold ancestor_outcome. rewrite Hh.
  assert (∀ k, visited (ancestor i n) target k → visited i target (n + k) ∧ 0 ≤ k) as Hv.
  { unfold visited. rewrite Hh. lia. }
  destruct o as [a|[]|]; try done; try lia.
  - intros [? ->]. split; [lia|]. rewrite ancestor_ancestor by lia. f_equal. lia.
  - intros (k & Hk & Hg). destruct (Hv k Hk). exists (n + k).
    rewrite ancestor_ancestor in Hg by lia. done.
  - intros (k & m & Hk & Hg). destruct (Hv k Hk). exists (n + k), m.
    rewrite ancestor_ancestor in Hg by lia. done.
Qed.

Lemma ancestor_loop_correct fuel i (has : bool) expected target db :
  chain_heights height_of prev_of → wf db → is_u64 target → (has = true → expected = height_of i) →
  ancestor_outcome db i target (ancestor_loop cf_blocks fuel i has expected target db).1.
Proof.
  intros Hc Hwf Ht. revert i has expected.
  induction fuel as [|fuel IH]; intros i has expected Hf; [done|].
  cbn [ancestor_loop]. unfold get_record_bytes, gets_state. rewrite !run_bind.
  destruct (Get db cf_blocks i) as [v| |m] eqn:Hg.
  2: { cbn. exists 0. split; [by left|done]. }
  2: { cbn. exists 0, m. split; [by left|done]. }
  destruct (Hwf _ _ Hg) as (Hv & r & Hr & Hid & Hh & Hu & Hp).
  cbn [mret prog_ret]. rewrite bool_decide_eq_false_2, Hr by done. rewrite Hh.
  replace (has && negb (height_of i =? expected)) with false; cycle 1.
  { destruct has; [|done]. by rewrite Hf, Z.eqb_refl. }
  unfold is_u64 in *.
  destruct (Z.eqb_spec (height_of i) target) as [Heq|Hne].
  { cbn. split; [lia|]. rewrite Heq. by rewrite Hid, Z.sub_diag, ancestor_0. }
  destruct (decide (height_of i < target)) as [Hlt|Hge].
  { unfold get_previous_height_index. rewrite (proj2 (Z.leb_le _ _)) by lia. done. }
  destruct (get_previous_height_index_spec (height_of i) ltac:(lia) target ltac:(lia))
    as (k & -> & Hk & Hgi & Hmax).
  pose proof (Z.pow_pos_nonneg 2 k ltac:(lia) ltac:(lia)).
  rewrite Hp, pointers_length by lia. rewrite pointers_lookup by lia. cbn [default].
  rewrite (proj2 (Z.ltb_ge k 0)), (proj2 (Z.leb_gt _ k)) by lia. cbn [orb].
  destruct (Z.eqb_spec (height_of i - 2 ^ k) target) as [<-|].
  { cbn. split; [lia|]. f_equal. lia. }
  apply (ancestor_outcome_step db i (2 ^ k)); [done|lia|lia|].
  apply IH. intros _. symmetry. apply ancestor_height; [done|lia].
Qed.

(** ** Writing a block *)

Lemma get_ancestor_pure i target db : heights_u64 → is_u64 target →
  get_ancestor_id_at_height cf_blocks i target db
  = ((get_ancestor_id_at_height cf_blocks i target db).1, db).
Proof.
  intros Hu Ht. rewrite (surjective_pairing (get_ancestor_id_at_height _ _ _ _)) at 1.
  f_equal. by apply ancestor_loop_total.
Qed.

(** The blocks below [i] are stored, down to height 1. *)
Definition linked (db : DB) (i : bytes) : Prop :=
  ∀ n, 0 < n < height_of i → ∃ v, Get db cf_blocks (ancestor i n) = Found v.

Lemma get_ancestor_linked i target db :
  heights_u64 → chain_heights height_of prev_of → wf db → linked db i →
  (∃ v, Get db cf_blocks i = Found v) → is_u64 target → target ≤ height_of i →
  get_ancestor_id_at_height cf_blocks i target db
  = (Ok (ancestor i (height_of i - target)), db).
Proof.
  intros Hu Hc Hwf Hl [v Hi] Ht Hle. rewrite get_ancestor_pure by done.
  pose proof (ancestor_loop_correct ancestor_fuel i false 0 target db Hc Hwf Ht ltac:(done)) as Ho.
  pose proof (ancestor_loop_total ancestor_fuel i false 0 target db Hu Ht
                ltac:(unfold ancestor_fuel; lia)) as [Hnf _].
  unfold get_ancestor_id_at_height. unfold is_u64 in Ht.
  assert (∀ n, visited i target n → ∃ v, Get db cf_blocks (ancestor i n) = Found v) as Hv.
  { intros n [->|Hn]; [by exists v|]. apply Hl. lia. }
  destruct (ancestor_loop _ _ _ _ _ _ _).1 as [a|[]|]; try done; cbn in Ho.
  - by destruct Ho as [_ ->].
  - destruct Ho as (n & Hn & Hg). destruct (Hv n Hn). congruence.
  - destruct Ho as (n & m & Hn & Hg). destruct (Hv n Hn). congruence.
  - lia.
Qed.

Lemma build_pointers_spec i hs acc db :
  heights_u64 → chain_heights height_of prev_of → wf db → 1 < height_of i → is_u64 (height_of i) →
  Forall (λ h, 0 ≤ h < height_of i) hs →
  build_pointers cf_blocks (height_of i) (prev_of i) hs acc db
    = (Ok (Some (acc ++ ((λ h, ancestor i (height_of i - h)) <$> hs))), db) ∨
  ¬ linked db i ∧ build_pointers cf_blocks (height_of i) (prev_of i) hs acc db = (Ok None, db).
Proof.
  intros Hu Hc Hwf Hh H64 Hhs. revert acc.
  induction Hhs as [|h hs Hr _ IH]; intros acc; cbn [build_pointers fmap list_fmap].
  { left. by rewrite app_nil_r. }
  unfold is_u64 in H64. unfold u64. rewrite wrap_small by lia.
  destruct (Z.eqb_spec h (height_of i - 1)) as [->|Hne].
  - replace (height_of i - (height_of i - 1)) with 1 by lia. rewrite ancestor_1.
    destruct (IH (acc ++ [prev_of i])) as [->|[? ->]]; [left|by right]. by rewrite <- app_assoc.
  - assert (is_u64 h) as Hh64 by (unfold is_u64; lia).
    pose proof (ancestor_height _ _ i 1 Hc ltac:(lia)) as Hp. rewrite ancestor_1 in Hp.
    rewrite run_bind. unfold try_catch. rewrite run_bind, get_ancestor_pure by done.
    pose proof (ancestor_loop_correct ancestor_fuel (prev_of i) false 0 h db Hc Hwf Hh64
      ltac:(done)) as Ho.
    pose proof (ancestor_loop_total ancestor_fuel (prev_of i) false 0 h db Hu Hh64
      ltac:(unfold ancestor_fuel; lia)) as [Hnf _].
    fold (get_ancestor_id_at_height cf_blocks (prev_of i) h) in Ho, Hnf.
    assert (∀ n, visited (prev_of i) h n → linked db i →
      ∃ v, Get db cf_blocks (ancestor (prev_of i) n) = Found v) as Hv.
    { intros n Hn Hl. rewrite <- ancestor_1, ancestor_ancestor by (unfold visited in Hn; lia).
      apply Hl. destruct Hn; lia. }
    destruct (get_ancestor_id_at_height _ _ _ _).1 as [a|[]|]; try done; cbn in Ho |- *.
    + destruct Ho as [_ ->].
      replace (ancestor (prev_of i) (height_of (prev_of i) - h)) with (ancestor i (height_of i - h)).
      * destruct (IH (acc ++ [ancestor i (height_of i - h)])) as [->|[? ->]];
          [left|by right]. by rewrite <- app_assoc.
      * rewrite Hp. change (prev_of i) with (ancestor i 1).
        rewrite ancestor_ancestor by lia. f_equal. lia.
    + right. split; [|done]. intros Hl. destruct Ho as (n & Hn & Hg).
      destruct (Hv n Hn Hl). congruence.
    + right. split; [|done]. intros Hl. destruct Ho as (n & m & Hn & Hg).
      destruct (Hv n Hn Hl). congruence.
    + lia.
Qed.

(** The block's header says what its id commits to. *)
Definition block_ok (b : block) : Prop :=
  is_u64 (height_of (id b)) ∧
  ∃ hdr, header b = Some hdr ∧ header_height hdr = height_of (id b) ∧
         header_previous hdr = prev_of (id b).

Definition record_of (b : block) (receipt : option bytes) : block_record :=
  mk_block_record (id b) (height_of (id b)) (pointers_of (id b)) (Some b) receipt.

Lemma record_of_committed b receipt : block_ok b → committed (id b) (record_of b receipt).
Proof. intros [Hu _]. done. Qed.

Lemma pointers_of_heights i :
  0 < height_of i → is_u64 (height_of i) →
  (λ h, ancestor i (height_of i - h)) <$> get_previous_heights (height_of i) = pointers_of i ∧
  Forall (λ h, 0 ≤ h < height_of i) (get_previous_heights (height_of i)).
Proof.
  intros Hh Hu. unfold is_u64 in Hu. rewrite get_previous_heights_spec by lia. split.
  - unfold BlockStoreTheorems.pointers_of. rewrite (proj2 (Z.eqb_neq _ 0)) by lia.
    rewrite <- list_fmap_compose. apply list_fmap_ext. intros k x _. cbn. f_equal. lia.
  - apply Forall_fmap, Forall_forall. intros k Hk. apply elem_of_seqZ in Hk. cbn.
    destruct (SkipList.jump_height (height_of i) ltac:(lia) k ltac:(lia)) as [_ ?]. lia.
Qed.

Lemma add_block_cases b receipt db :
  heights_u64 → chain_heights height_of prev_of → healthy db → wf db → block_ok b →
  let run := add_block cf_blocks cf_meta (mk_add_block_request (Some b) receipt) db in
  (∃ v, Get db cf_blocks (id b) = Found v) ∧ run = (Ok tt, db) ∨
  Get db cf_blocks (id b) = NotFound ∧ ¬ linked db (id b) ∧ run = (Ok tt, db) ∨
  Get db cf_blocks (id b) = NotFound ∧
  run = store_record cf_blocks cf_meta b (height_of (id b)) (prev_of (id b))
          (record_of b receipt) db.
Proof.
  intros Hu Hc Hok Hwf (H64 & hdr & Hhdr & Hh & Hp) run. unfold run, add_block. cbn.
  rewrite Hhdr. unfold get_record_bytes, gets_state. rewrite !run_bind.
  destruct (Get db cf_blocks (id b)) as [v| |m] eqn:Hg; [left|right|by destruct (Hok _ _ _ Hg)].
  { destruct (Hwf _ _ Hg) as [Hv _]. split; [by eexists|]. cbn.
    by rewrite bool_decide_eq_true_2. }
  cbn. rewrite run_bind, Hh, Hp. unfold is_u64 in H64.
  destruct (Z.ltb_spec 1 (height_of (id b))) as [H1|H1]; [|right; split; [done|]].
  - destruct (pointers_of_heights (id b) ltac:(lia) H64) as [Heq Hall].
    destruct (build_pointers_spec (id b) _ [] db Hu Hc Hwf H1 H64 Hall) as [->|[Hl ->]];
      [right|by left]. rewrite Heq. done.
  - unfold record_of, BlockStoreTheorems.pointers_of.
    destruct (Z.eqb_spec (height_of (id b)) 1) as [->|]; [done|].
    by replace (height_of (id b)) with 0 by lia.
Qed.

End Facts.

(** Writes and serialization that do not fail. *)
Class Reliable (DB CF : Type) `{!RocksDB DB CF} `{!Message block_record} `{!Message block_topology} := {
  Put_ok (db : DB) (cf : CF) k v : (Put db cf k v).1 = StatusOk;
  Serialize_record (r : block_record) : record_block r ≠ None → is_u64 (record_height r) →
    ∃ v, SerializeToString r = Some v ∧ v ≠ [];
  Serialize_topology (t : block_topology) : ∃ v, SerializeToString t = Some v
}.

Section History.
Context {DB CF : Type} `{!EqDecision CF} `{!RocksDB DB CF} `{!RocksDBLaws DB CF}.
Context `{!Message block_record} `{!Message block_topology}.
Context `{!MessageLaws block_record} `{!MessageLaws block_topology} `{!Reliable DB CF}.
Context (cf_blocks cf_meta : CF) (Hcf : cf_blocks ≠ cf_meta).
Context (height_of : bytes → Z) (prev_of : bytes → bytes).
Context (Hu : heights_u64) (Hc : chain_heights height_of prev_of).
Abbreviation ancestor := (ancestor prev_of).
Abbreviation committed := (committed height_of prev_of).
Abbreviation block_ok := (block_ok height_of prev_of).
Abbreviation record_of := (record_of height_of prev_of).
Abbreviation wf := (wf cf_blocks height_of prev_of).
Abbreviation record_at := (record_at cf_blocks).

Definition topology (db : DB) : option block_topology :=
  match Get db cf_meta META_KEY with Found v => ParseFromString v | _ => None end.

Lemma get_topology_run db : healthy db →
  get_highest_block_topology cf_meta db = (Ok (topology db), db).
Proof.
  intros Hh. unfold get_highest_block_topology, topology, gets_state. rewrite run_bind.
  destruct (Get db cf_meta META_KEY) eqn:Hg; [done|done|by destruct (Hh _ _ _ Hg)].
Qed.

Lemma put_run db cf k v :
  ∃ db', Put db cf k v = (StatusOk, db') ∧ Get db' cf k = Found v ∧
    (∀ cf' k', (cf, k) ≠ (cf', k') → Get db' cf' k' = Get db cf' k') ∧
    (healthy (CF := CF) db → healthy (CF := CF) db').
Proof.
  pose proof (Put_ok db cf k v) as Hs. destruct (Put db cf k v) as [s db'] eqn:Hp.
  cbn in Hs. subst s. exists db'. split; [done|].
  assert (Get db' cf k = Found v) as Hg by by eapply Get_Put.
  assert (∀ cf' k', (cf, k) ≠ (cf', k') → Get db' cf' k' = Get db cf' k') as Hne
    by (intros; by eapply Get_Put_ne).
  split_and!; [done..|]. intros Hh cf' k' m Hm.
  destruct (decide ((cf, k) = (cf', k'))) as [[= <- <-]|Hn]; [congruence|].
  rewrite Hne in Hm by done. by eapply Hh.
Qed.

Lemma update_highest_run t db :
  healthy (CF := CF) db →
  ∃ db', update_highest_block cf_meta t db = (Ok tt, db') ∧ healthy (CF := CF) db' ∧
    topology db' = Some t ∧ ∀ i, Get db' cf_blocks i = Get db cf_blocks i.
Proof.
  intros Hh. unfold update_highest_block. destruct (Serialize_topology t) as [v Hv]. rewrite Hv.
  rewrite run_bind. cbn. destruct (put_run db cf_meta META_KEY v) as (db' & -> & Hg & Hne & Hh').
  exists db'. split_and!; [done|by apply Hh'| |].
  - unfold topology. rewrite Hg. by apply Parse_Serialize.
  - intros i. apply Hne. congruence.
Qed.

Definition newer (b : block) (t : block_topology) : block_topology :=
  if topo_height t <? height_of (id b)
  then mk_block_topology (id b) (height_of (id b)) (prev_of (id b)) else t.

Lemma store_record_run b receipt db t :
  healthy (CF := CF) db → topology db = Some t → is_u64 (height_of (id b)) →
  ∃ db', store_record cf_blocks cf_meta b (height_of (id b)) (prev_of (id b))
           (record_of b receipt) db = (Ok tt, db') ∧
    healthy (CF := CF) db' ∧ topology db' = Some (newer b t) ∧
    (∃ v, Get db' cf_blocks (id b) = Found v ∧ v ≠ [] ∧
          ParseFromString v = Some (record_of b receipt)) ∧
    ∀ i, i ≠ id b → Get db' cf_blocks i = Get db cf_blocks i.
Proof.
  intros Hh Ht H64. unfold store_record.
  destruct (Serialize_record (record_of b receipt)) as (v & Hv & Hne); [done..|]. rewrite Hv.
  rewrite run_bind. unfold put_record_bytes. rewrite run_bind. cbn.
  destruct (put_run db cf_blocks (id b) v) as (db1 & -> & Hg1 & Hne1 & Hh1).
  specialize (Hh1 Hh).
  assert (topology db1 = Some t) as Ht1.
  { unfold topology. rewrite Hne1; [done|congruence]. }
  rewrite run_bind. cbn. rewrite run_bind, get_topology_run, Ht1 by done. unfold newer.
  destruct (topo_height t <? height_of (id b)).
  - destruct (update_highest_run (mk_block_topology (id b) (height_of (id b)) (prev_of (id b)))
      db1 Hh1) as (db2 & -> & Hh2 & Ht2 & Hb2).
    exists db2. split_and!; [done..| |].
    + exists v. rewrite Hb2. split_and!; [done..|by apply Parse_Serialize].
    + intros i Hi. rewrite Hb2. apply Hne1. congruence.
  - exists db1. split_and!; [done..| |].
    + exists v. split_and!; [done..|by apply Parse_Serialize].
    + intros i Hi. apply Hne1. congruence.
Qed.

(** ** Histories *)

Fixpoint handle_all (l : list block_accepted) : prog DB exn unit :=
  match l with
  | [] => mret tt
  | ba :: l => handle_block_accepted cf_blocks cf_meta ba;; handle_all l
  end.

Definition accepted_ids (l : list block_accepted) : list bytes :=
  omap (λ ba, id <$> accepted_block ba) l.

(** Blocks arrive after their parents, and every block is what its id
    commits to. *)
Inductive parents_first : list block_accepted → Prop :=
| parents_first_nil : parents_first []
| parents_first_snoc l ba b :
    parents_first l → accepted_block ba = Some b → block_ok b →
    (1 < height_of (id b) → prev_of (id b) ∈ accepted_ids l) →
    parents_first (l ++ [ba]).

Definition max_height (l : list block_accepted) : Z :=
  foldr Z.max 0 (height_of <$> accepted_ids l).

Record history (db : DB) (l : list block_accepted) : Prop := {
  history_healthy : healthy (CF := CF) db;
  history_wf : wf db;
  history_only i r : record_at db i = Some r →
    ∃ ba b, ba ∈ l ∧ accepted_block ba = Some b ∧ r = record_of b (accepted_receipt ba) ∧ id b = i;
  history_all i : i ∈ accepted_ids l → ∃ v, Get db cf_blocks i = Found v;
  history_top : ∃ t, topology db = Some t ∧ topo_height t = max_height l ∧
    (0 < max_height l → topo_id t ∈ accepted_ids l ∧ height_of (topo_id t) = max_height l)
}.

Lemma accepted_ids_snoc l ba b :
  accepted_block ba = Some b → accepted_ids (l ++ [ba]) = accepted_ids l ++ [id b].
Proof. intros Hb. unfold accepted_ids. rewrite omap_app. cbn. by rewrite Hb. Qed.

Lemma max_height_snoc l ba b :
  accepted_block ba = Some b → max_height (l ++ [ba]) = Z.max (max_height l) (height_of (id b)).
Proof.
  intros Hb. unfold max_height. rewrite (accepted_ids_snoc _ _ _ Hb), fmap_app. cbn.
  induction (accepted_ids l) as [|i ids IH]; cbn; lia.
Qed.

Lemma max_height_nonneg l : 0 ≤ max_height l.
Proof. unfold max_height. induction (accepted_ids l); cbn; lia. Qed.

Lemma max_height_ge l i : i ∈ accepted_ids l → height_of i ≤ max_height l.
Proof.
  unfold max_height. induction (accepted_ids l) as [|j ids IH]; [by intros ?%elem_of_nil|].
  cbn. intros [->|Hi]%elem_of_cons; [lia|]. apply IH in Hi. lia.
Qed.

(** Every proper ancestor, down to height 1, was accepted before. *)
Lemma parents_first_closed l i n :
  parents_first l → i ∈ accepted_ids l → 0 ≤ n < height_of i → ancestor i n ∈ accepted_ids l.
Proof.
  intros Hl. revert i n. induction Hl as [|l ba b Hl IH Hb Hok Hp]; intros i n; [by intros ?%elem_of_nil|].
  rewrite (accepted_ids_snoc _ _ _ Hb), !elem_of_app, !list_elem_of_singleton.
  intros [Hi| ->] Hn; [left; by apply IH|].
  destruct (decide (n = 0)) as [->|Hn0]; [by right|left].
  replace n with (1 + (n - 1)) by lia. rewrite <- ancestor_ancestor, ancestor_1 by lia.
  apply IH; [apply Hp; lia|]. rewrite Hc by lia. lia.
Qed.

Lemma parents_first_linked l db i :
  parents_first l → history db l → i ∈ accepted_ids l → linked cf_blocks height_of prev_of db i.
Proof.
  intros Hl Hh Hi n Hn. apply (history_all _ _ Hh). apply parents_first_closed; [done..|lia].
Qed.

(** One more block. *)
Lemma history_step db l ba b :
  parents_first l → history db l → accepted_block ba = Some b → block_ok b →
  (1 < height_of (id b) → prev_of (id b) ∈ accepted_ids l) →
  ∃ db', handle_block_accepted cf_blocks cf_meta ba db = (Ok tt, db') ∧ history db' (l ++ [ba]).
Proof.
  intros Hl Hh Hb Hok Hp. destruct (history_top _ _ Hh) as (t & Ht & Hth & Htop).
  unfold handle_block_accepted. rewrite Hb. unfold try_catch.
  assert (∀ i r, record_at db i = Some r → ∃ ba' b', ba' ∈ l ++ [ba] ∧
    accepted_block ba' = Some b' ∧ r = record_of b' (accepted_receipt ba') ∧ id b' = i) as Honly.
  { intros i r Hr. destruct (history_only _ _ Hh _ _ Hr) as (ba' & b' & ? & ?).
    exists ba', b'. rewrite elem_of_app. tauto. }
  destruct (add_block_cases cf_blocks cf_meta height_of prev_of b (accepted_receipt ba) db Hu Hc
    (history_healthy _ _ Hh) (history_wf _ _ Hh) Hok) as [[[v Hv] ->]|[(Hg & Hnl & ->)|[Hg ->]]].
  - exists db. split; [done|]. destruct (history_wf _ _ Hh _ _ Hv) as (Hv0 & r & Hr & _).
    destruct (history_only _ _ Hh (id b) r) as (ba' & b' & Hin & Hb' & _ & Hid).
    { unfold BlockStoreTheorems.record_at. by rewrite Hv, bool_decide_eq_false_2. }
    assert (id b ∈ accepted_ids l) as Hinl.
    { apply list_elem_of_omap. exists ba'. by rewrite Hb', <- Hid. }
    pose proof (max_height_ge l _ Hinl).
    split; [apply Hh|apply Hh|done| |].
    + intros i. rewrite (accepted_ids_snoc _ _ _ Hb), elem_of_app, list_elem_of_singleton.
      intros [Hi| ->]; by apply Hh.
    + exists t. rewrite (max_height_snoc _ _ _ Hb), Z.max_l, (accepted_ids_snoc _ _ _ Hb) by done.
      rewrite elem_of_app. tauto.
  - exfalso. apply Hnl. intros n Hn. apply (history_all _ _ Hh).
    replace n with (1 + (n - 1)) by lia. rewrite <- ancestor_ancestor, ancestor_1 by lia.
    apply parents_first_closed; [done|apply Hp; lia|]. rewrite Hc; lia.
  - destruct (store_record_run b (accepted_receipt ba) db t (history_healthy _ _ Hh) Ht
      (proj1 Hok))
      as (db' & -> & Hh' & Ht' & (v & Hv & Hv0 & Hr) & Hne).
    exists db'. split; [done|]. split; [done|..].
    + intros i w Hw. destruct (decide (i = id b)) as [->|Hi].
      * rewrite Hv in Hw. injection Hw as <-. split; [done|]. eexists. split; [done|].
        by apply record_of_committed.
      * rewrite Hne in Hw by done. by apply (history_wf _ _ Hh).
    + intros i r. destruct (decide (i = id b)) as [->|Hi].
      * unfold BlockStoreTheorems.record_at. rewrite Hv, bool_decide_eq_false_2, Hr by done.
        intros [= <-]. exists ba, b. rewrite elem_of_app, list_elem_of_singleton. tauto.
      * unfold BlockStoreTheorems.record_at. rewrite Hne by done. apply Honly.
    + intros i. rewrite (accepted_ids_snoc _ _ _ Hb), elem_of_app, list_elem_of_singleton.
      destruct (decide (i = id b)) as [->|Hi]; [by eexists|]. rewrite Hne by done.
      intros [Hin|?]; [|done]. by apply Hh.
    + exists (newer b t). split; [done|]. rewrite (max_height_snoc _ _ _ Hb).
      rewrite (accepted_ids_snoc _ _ _ Hb). unfold newer. rewrite Hth.
      rewrite elem_of_app, list_elem_of_singleton.
      destruct (Z.ltb_spec (max_height l) (height_of (id b))).
      * cbn. rewrite Z.max_r by lia. tauto.
      * rewrite Z.max_l by lia. tauto.
Qed.

Lemma handle_all_app l1 l2 db :
  handle_all (l1 ++ l2) db = (handle_all l1;; handle_all l2) db.
Proof.
  revert db. induction l1 as [|ba l1 IH]; intros db; cbn [handle_all app]; [done|].
  rewrite !run_bind. destruct (handle_block_accepted _ _ ba db) as [[]]; [|done..].
  rewrite IH, run_bind. done.
Qed.

Lemma handle_all_history db l :
  history db [] → parents_first l →
  ∃ db', handle_all l db = (Ok tt, db') ∧ history db' l.
Proof.
  intros H0. induction 1 as [|l ba b Hl [db1 [Hrun IH]] Hb Hok Hp]; [by exists db|].
  destruct (history_step db1 l ba b Hl IH Hb Hok Hp) as (db2 & Hr & Hh).
  exists db2. split; [|done]. rewrite handle_all_app, run_bind, Hrun. cbn. by rewrite run_bind, Hr.
Qed.

(** A store just initialized. *)
Lemma initialize_history db :
  healthy (CF := CF) db → (∀ i, Get db cf_blocks i = NotFound) → Get db cf_meta META_KEY = NotFound →
  ∃ db', initialize cf_meta db = (Ok tt, db') ∧ history db' [].
Proof.
  intros Hh Hb Hm. unfold initialize. rewrite run_bind, get_topology_run by done.
  unfold topology. rewrite Hm.
  destruct (update_highest_run genesis_topology db Hh) as (db' & -> & Hh' & Ht & Hb').
  exists db'. split; [done|]. split; [done|..].
  - intros i v. by rewrite Hb', Hb.
  - intros i r. unfold BlockStoreTheorems.record_at. by rewrite Hb', Hb.
  - by intros i ?%elem_of_nil.
  - exists genesis_topology. split_and!; [done..|cbn; lia].
Qed.

(** ** Ranges *)

Context (Hids : ∀ i, 0 < height_of i → i ≠ []).

Definition item_at (db : DB) (rb rr : bool) (i : bytes) : option block_item :=
  (λ r, item_of_record r rb rr) <$> record_at db i.

(** The ids met walking down from [i]. *)
Fixpoint walk (n : nat) (i : bytes) : list bytes :=
  match n with O => [] | S n => i :: walk n (prev_of i) end.

Lemma walk_reverse n start head :
  0 ≤ start → start + Z.of_nat n - 1 ≤ height_of head →
  reverse (walk n (ancestor head (height_of head - (start + Z.of_nat n - 1))))
  = (λ h, ancestor head (height_of head - h)) <$> seqZ start (Z.of_nat n).
Proof.
  revert start. induction n as [|n IH]; intros start Hs Hn; [done|]. cbn [walk].
  rewrite reverse_cons, Nat2Z.inj_succ, <- Z.add_1_r, seqZ_app, fmap_app by lia.
  cbn [seqZ fmap list_fmap]. f_equal.
  - rewrite <- IH by lia. do 2 f_equal.
    rewrite <- ancestor_1, ancestor_ancestor by lia. f_equal. lia.
  - replace (seqZ (start + Z.of_nat n) 1) with [start + Z.of_nat n] by (by rewrite seqZ_cons by lia).
    cbn. do 2 f_equal. lia.
Qed.

Lemma fill_loop_walk n i (first : bool) expected rb rr db :
  wf db → (first = false → expected = height_of i) →
  Z.of_nat n ≤ height_of i → (∀ k, 0 ≤ k < Z.of_nat n → ∃ v, Get db cf_blocks (ancestor i k) = Found v) →
  ∃ items, fill_loop cf_blocks n i first expected rb rr db = (Ok items, db) ∧
    Forall2 (λ i it, item_at db rb rr i = Some it) (walk n i) items.
Proof.
  intros Hwf. revert i first expected. induction n as [|n IH]; intros i first expected Hf Hh Hs.
  { by exists []. }
  cbn [fill_loop walk]. rewrite bool_decide_eq_false_2 by (apply Hids; lia).
  destruct (Hs 0 ltac:(lia)) as [v Hv]. rewrite ancestor_0 in Hv.
  destruct (Hwf _ _ Hv) as (Hv0 & r & Hr & Hcom). pose proof Hcom as (Hid & Hrh & H64 & Hp).
  unfold get_record_bytes, gets_state. rewrite !run_bind, Hv. cbn [mret prog_ret].
  rewrite bool_decide_eq_false_2, Hr, Hrh by done.
  replace (negb first && negb (height_of i =? expected)) with false; cycle 1.
  { destruct first; [done|]. by rewrite Hf, Z.eqb_refl. }
  rewrite run_bind, Hp. change 0%nat with (Z.to_nat 0).
  pose proof (countr_zero_nonneg (height_of i)).
  rewrite pointers_lookup by lia. cbn [default from_option]. unfold Datatypes.id.
  change (2 ^ 0) with 1. rewrite ancestor_1.
  unfold is_u64 in H64. unfold u64. rewrite wrap_small by lia.
  destruct (IH (prev_of i) false (height_of i - 1)) as (items & -> & Hitems).
  - intros _. symmetry. apply Hc. lia.
  - rewrite Hc; lia.
  - intros k Hk. rewrite <- ancestor_1, ancestor_ancestor by lia. apply Hs. lia.
  - eexists. split; [done|]. constructor; [|done].
    unfold item_at, BlockStoreTheorems.record_at. by rewrite Hv, bool_decide_eq_false_2, Hr.
Qed.

Lemma item_at_committed db rb rr i it :
  wf db → item_at db rb rr i = Some it → item_id it = i ∧ item_height it = height_of i.
Proof.
  unfold item_at. intros Hwf (r & Hr & ->)%fmap_Some.
  destruct (wf_record _ _ _ _ _ _ Hwf Hr) as (? & ? & _). done.
Qed.

Lemma u64_sub_wrap x y : u64 (u64 x - y) = u64 (x - y).
Proof. unfold u64, wrap. by rewrite Zminus_mod_idemp_l. Qed.

Section Range.
Context (db : DB) (l : list block_accepted) (head : bytes).
Context (Hl : parents_first l) (Hh : history db l) (Hhead : head ∈ accepted_ids l).

Lemma head_ancestor target : is_u64 target → target ≤ height_of head →
  get_ancestor_id_at_height cf_blocks head target db
  = (Ok (ancestor head (height_of head - target)), db).
Proof.
  intros Ht Hle. apply (get_ancestor_linked _ height_of); [done|done|apply Hh| |by apply Hh|done|done].
  by apply (parents_first_linked l).
Qed.

Lemma head_too_low target : is_u64 target → height_of head < target →
  get_ancestor_id_at_height cf_blocks head target db = (Throw invalid_argument, db).
Proof.
  intros Ht Hlt. rewrite get_ancestor_pure by done.
  destruct (history_all _ _ Hh _ Hhead) as [v Hv].
  pose proof (ancestor_loop_correct cf_blocks height_of prev_of ancestor_fuel head false 0 target db
    Hc (history_wf _ _ Hh) Ht ltac:(done)) as Ho.
  pose proof (ancestor_loop_total cf_blocks ancestor_fuel head false 0 target db Hu Ht
                ltac:(unfold ancestor_fuel; lia)) as [Hnf _].
  fold (get_ancestor_id_at_height cf_blocks head target) in Ho, Hnf.
  assert (∀ n, visited height_of head target n → n = 0) as Hz by (intros n [?|?]; lia).
  destruct (get_ancestor_id_at_height _ _ _ _).1 as [a|[]|]; try done; cbn in Ho.
  - lia.
  - destruct Ho as (n & ->%Hz & Hg). rewrite ancestor_0 in Hg. congruence.
  - destruct Ho as (n & m & ->%Hz & Hg). rewrite ancestor_0 in Hg. congruence.
Qed.

Lemma fill_range start n rb rr :
  0 < start → 0 < n → start + n - 1 ≤ height_of head →
  ∃ items, fill_blocks cf_blocks (ancestor head (height_of head - (start + n - 1))) n rb rr db
             = (Ok items, db) ∧
    Forall2 (λ h it, item_at db rb rr (ancestor head (height_of head - h)) = Some it)
      (seqZ start n) (reverse items).
Proof.
  intros Hs Hn Hle. unfold fill_blocks. rewrite <- (Z2Nat.id n) in Hle |- * by lia.
  rewrite Nat2Z.id. set (m := Z.to_nat n) in *.
  pose proof (ancestor_height _ _ head (height_of head - (start + Z.of_nat m - 1)) Hc ltac:(lia)) as Hah.
  destruct (fill_loop_walk m (ancestor head (height_of head - (start + Z.of_nat m - 1))) true 0 rb rr db)
    as (items & -> & Hit).
  - apply Hh.
  - done.
  - lia.
  - intros k Hk. rewrite ancestor_ancestor by lia. apply (history_all _ _ Hh).
    apply parents_first_closed; [done|done|lia].
  - exists items. split; [done|].
    apply Forall2_reverse in Hit. rewrite walk_reverse in Hit by lia.
    by apply Forall2_fmap_l in Hit.
Qed.

Lemma range_query (req : get_blocks_by_height_request) :
  head_block_id req = head → height_of head < 2 ^ 64 →
  let start := ancestor_start_height req in
  let n := Z.min (req_num_blocks req) max_block_request in
  0 < start → 0 < n → start + n - 1 ≤ height_of head →
  ∃ items, get_blocks_by_height cf_blocks req db = (Ok items, db) ∧
    Forall2 (λ h it,
      item_at db (return_block req) (return_receipt req)
        (ancestor head (height_of head - h)) = Some it ∧
      item_height it = h) (seqZ start n) items.
Proof.
  intros Hreq H64 start n Hs Hn Hle.
  unfold get_blocks_by_height. rewrite Hreq. fold start n.
  rewrite (proj2 (Z.eqb_neq start 0)), (proj2 (Z.eqb_neq n 0)) by lia.
  assert (∀ m items, start + m - 1 ≤ height_of head → 0 < m →
    Forall2 (λ h it, item_at db (return_block req) (return_receipt req)
      (ancestor head (height_of head - h)) = Some it)
      (seqZ start m) items →
    Forall2 (λ h it, item_at db (return_block req) (return_receipt req)
      (ancestor head (height_of head - h)) = Some it ∧
      item_height it = h) (seqZ start m) items) as Hstrong.
  { intros m items Hm Hm0 HF. apply Forall2_same_length_lookup in HF as [Hlen HF].
    apply Forall2_same_length_lookup. split; [done|]. intros k h it Hk Hit.
    pose proof (HF _ _ _ Hk Hit) as Hat. split; [done|].
    apply lookup_seqZ in Hk as [-> Hk].
    apply item_at_committed in Hat as [_ ->]; [|apply Hh].
    rewrite (ancestor_height height_of) by (done || lia). lia. }
  unfold try_catch. rewrite run_bind.
  rewrite head_ancestor
    by (done || unfold is_u64; lia).
  destruct (fill_range start 1 (return_block req) (return_receipt req)) as (items1 & Hf1 & HF1); [lia..|].
  replace (start + 1 - 1) with start in Hf1 by lia. rewrite run_bind, Hf1.
  destruct (Z.ltb_spec 1 n) as [H1|H1].
  - rewrite run_bind, u64_sub_wrap. unfold u64. rewrite wrap_small by lia.
    rewrite head_ancestor
      by (done || unfold is_u64; lia).
    destruct (fill_range start n (return_block req) (return_receipt req)) as (items & Hf & HF); [lia..|].
    rewrite run_bind, Hf. cbn. exists (reverse items). split; [done|]. by apply Hstrong.
  - replace n with 1 in * by lia. exists items1. split; [done|].
    apply Hstrong; [lia..|].
    replace (seqZ start 1) with [start] in * by (by rewrite seqZ_cons by lia).
    apply Forall2_cons_inv_l in HF1 as (it & its & Hit & HF1 & Hrev).
    apply Forall2_nil_inv_l in HF1 as ->.
    replace items1 with [it] by (apply (inj reverse); by rewrite Hrev). by constructor.
Qed.

(** The blocks of the answers are the accepted ones. *)
Lemma parents_first_ok l' ba b : parents_first l' → ba ∈ l' → accepted_block ba = Some b → block_ok b.
Proof.
  induction 1 as [|l' ba' b' _ IH Hb' Hok _]; [by intros ?%not_elem_of_nil|].
  intros [Hin| ->%list_elem_of_singleton]%elem_of_app Hb; [by apply IH|congruence].
Qed.

Lemma item_at_block rr i it : item_at db true rr i = Some it →
  ∃ b, item_block it = Some b ∧ id b = i ∧ ∃ ba, (ba ∈ l ∧ accepted_block ba = Some b) ∧ block_ok b.
Proof.
  unfold item_at. intros (r & Hr & ->)%fmap_Some.
  destruct (history_only _ _ Hh _ _ Hr) as (ba & b & Hin & Hb & -> & Hid).
  exists b. split_and!; [done|done|]. exists ba. split; [done|]. by eapply parents_first_ok.
Qed.

End Range.

End History.

(** ** Properties *)

Section Properties.
Context {DB CF : Type} `{!EqDecision CF} `{!RocksDB DB CF} `{!RocksDBLaws DB CF}.
Context `{!Message block_record} `{!Message block_topology}.
Context `{!MessageLaws block_record} `{!MessageLaws block_topology} `{!Reliable DB CF}.
Context (cf_blocks cf_meta : CF) (height_of : bytes → Z) (prev_of : bytes → bytes).

(** The ancestor search ends after at most 128 records whatever the
    database holds, corrupt or adversarial records included, and it never
    writes. *)
Theorem get_ancestor_total (i : bytes) (target : Z) (db : DB) :
  heights_u64 → is_u64 target →
  (get_ancestor_id_at_height cf_blocks i target db).1 ≠ OutOfFuel ∧
  (get_ancestor_id_at_height cf_blocks i target db).2 = db.
Proof. intros Hu Ht. by apply ancestor_loop_total. Qed.

(** C24. On a database whose records are what their ids commit to, the skip
    list search is the walk over parents: it ends within its 128 iterations,
    changes nothing and returns the ancestor at the target height;
    [block_not_present] and [db_error] are thrown only where a block on the
    way is missing or cannot be read, [invalid_argument] only when the target
    is above the block, and nothing else. *)
Theorem get_ancestor_correct (i : bytes) (target : Z) (db : DB) :
  heights_u64 → chain_heights height_of prev_of → wf cf_blocks height_of prev_of db → is_u64 target →
  let r := get_ancestor_id_at_height cf_blocks i target db in
  r.1 ≠ OutOfFuel ∧ r.2 = db ∧ ancestor_outcome cf_blocks height_of prev_of db i target r.1.
Proof.
  intros Hu Hc Hwf Ht r. assert (r.1 ≠ OutOfFuel ∧ r.2 = db) as [? ?] by (by apply ancestor_loop_total).
  split_and!; [done|done|]. by apply ancestor_loop_correct.
Qed.

(** C7. A store that is initialized and then fed any sequence of accepted
    blocks, parents first, with any repetitions and forks: no broadcast is
    lost or thrown, every accepted block is recorded with its block,
    receipt, height and pointers, the search finds every ancestor of every
    accepted block, and the highest block is the highest accepted. *)
Theorem accept_history (l : list block_accepted) (db : DB) :
  cf_blocks ≠ cf_meta → heights_u64 → chain_heights height_of prev_of →
  healthy (CF := CF) db → (∀ i, Get db cf_blocks i = NotFound) →
  Get db cf_meta META_KEY = NotFound → parents_first height_of prev_of l →
  ∃ db', (initialize cf_meta;; handle_all cf_blocks cf_meta l) db = (Ok tt, db') ∧
    (∀ i, i ∈ accepted_ids l → ∃ r ba b,
       record_at cf_blocks db' i = Some r ∧ ba ∈ l ∧ accepted_block ba = Some b ∧ id b = i ∧
       r = record_of height_of prev_of b (accepted_receipt ba)) ∧
    (∀ i target, i ∈ accepted_ids l → is_u64 target → target ≤ height_of i →
       get_ancestor_id_at_height cf_blocks i target db'
       = (Ok (ancestor prev_of i (height_of i - target)), db')) ∧
    ∃ t, get_highest_block cf_meta db' = (Ok (Some t), db') ∧ topo_height t = max_height height_of l ∧
      (0 < max_height height_of l → topo_id t ∈ accepted_ids l ∧
                                   height_of (topo_id t) = max_height height_of l).
Proof.
  intros Hcf Hu Hc Hh Hb Hm Hl.
  destruct (initialize_history cf_blocks cf_meta Hcf height_of prev_of db Hh Hb Hm) as (db1 & Hi & H0).
  destruct (handle_all_history cf_blocks cf_meta Hcf height_of prev_of Hu Hc db1 l H0 Hl)
    as (db2 & Hr & Hist).
  exists db2. split_and!.
  - by rewrite run_bind, Hi.
  - intros i Hin. destruct (history_all _ _ _ _ _ _ Hist _ Hin) as [v Hv].
    destruct (history_wf _ _ _ _ _ _ Hist _ _ Hv) as (Hv0 & r & Hpr & _).
    assert (record_at cf_blocks db2 i = Some r) as Hrec.
    { unfold record_at. by rewrite Hv, bool_decide_eq_false_2. }
    destruct (history_only _ _ _ _ _ _ Hist _ _ Hrec) as (ba & b & ? & ? & ? & ?).
    by exists r, ba, b.
  - intros i target Hin Ht Hle.
    by apply (head_ancestor cf_blocks cf_meta height_of prev_of Hu Hc db2 l i).
  - destruct (history_top _ _ _ _ _ _ Hist) as (t & Ht & Hth & Htop). exists t.
    split; [|by split]. unfold get_highest_block.
    rewrite (get_topology_run cf_meta) by apply Hist. by rewrite Ht.
Qed.

(** A range query below the head returns exactly the blocks of the
    head's chain at the heights [start, start + n), in ascending order,
    where [n] is the request's count cut at [max_block_request]. *)
Theorem blocks_by_height_range (l : list block_accepted) (db : DB) (req : get_blocks_by_height_request) :
  heights_u64 → chain_heights height_of prev_of → (∀ i, 0 < height_of i → i ≠ []) →
  parents_first height_of prev_of l → history cf_blocks cf_meta height_of prev_of db l →
  head_block_id req ∈ accepted_ids l → height_of (head_block_id req) < 2 ^ 64 →
  let start := ancestor_start_height req in
  let n := Z.min (req_num_blocks req) max_block_request in
  0 < start → 0 < n → start + n - 1 ≤ height_of (head_block_id req) →
  ∃ items, get_blocks_by_height cf_blocks req db = (Ok items, db) ∧
    Forall2 (λ h it,
      item_at cf_blocks db (return_block req) (return_receipt req)
        (ancestor prev_of (head_block_id req) (height_of (head_block_id req) - h)) = Some it ∧
      item_height it = h) (seqZ start n) items.
Proof.
  intros Hu Hc Hids Hl Hist Hhead H64 start n Hs Hn Hle.
  by apply (range_query cf_blocks cf_meta height_of prev_of Hu Hc Hids db l (head_block_id req) Hl Hist Hhead req).
Qed.

(** A range query that reaches above the head is not cut short, nor is
    it answered with an empty response: the [invalid_argument] of the skip
    list leaves the handler, which catches only [block_not_present] and
    [unexpected_height]. *)
Theorem blocks_by_height_above_head (l : list block_accepted) (db : DB) (req : get_blocks_by_height_request) :
  heights_u64 → chain_heights height_of prev_of → (∀ i, 0 < height_of i → i ≠ []) →
  parents_first height_of prev_of l → history cf_blocks cf_meta height_of prev_of db l →
  head_block_id req ∈ accepted_ids l →
  let start := ancestor_start_height req in
  let n := Z.min (req_num_blocks req) max_block_request in
  0 < start → 0 < n → start + n - 1 < 2 ^ 64 → height_of (head_block_id req) < start + n - 1 →
  get_blocks_by_height cf_blocks req db = (Throw invalid_argument, db).
Proof.
  intros Hu Hc Hids Hl Hist Hhead start n Hs Hn H64 Hlt.
  unfold get_blocks_by_height. fold start n.
  rewrite (proj2 (Z.eqb_neq start 0)), (proj2 (Z.eqb_neq n 0)) by lia.
  unfold try_catch. rewrite run_bind.
  destruct (decide (height_of (head_block_id req) < start)) as [Hlow|Hlow].
  { by rewrite (head_too_low cf_blocks cf_meta height_of prev_of Hu Hc db l)
      by (done || unfold is_u64; lia). }
  rewrite (head_ancestor cf_blocks cf_meta height_of prev_of Hu Hc db l)
    by (done || unfold is_u64; lia).
  destruct (fill_range cf_blocks cf_meta height_of prev_of Hc Hids db l (head_block_id req) Hl Hist
    Hhead start 1 (return_block req) (return_receipt req)) as (items1 & Hf1 & _); [lia..|].
  replace (start + 1 - 1) with start in Hf1 by lia. rewrite run_bind, Hf1.
  rewrite (proj2 (Z.ltb_lt 1 n)) by lia.
  rewrite run_bind, u64_sub_wrap. unfold u64. rewrite wrap_small by lia.
  by rewrite (head_too_low cf_blocks cf_meta height_of prev_of Hu Hc db l)
    by (done || unfold is_u64; lia).
Qed.

End Properties.

(** ** A concrete store

    Ids are strings, a block's height is the length of its id and its parent
    is the tail of the id. *)

Module Example_store.

#[global] Instance block_header_dec : EqDecision block_header.
Proof. solve_decision. Defined.
#[global] Instance block_dec : EqDecision block.
Proof. solve_decision. Defined.
#[global] Instance block_record_dec : EqDecision block_record.
Proof. solve_decision. Defined.
#[global] Instance block_topology_dec : EqDecision block_topology.
Proof. solve_decision. Defined.

#[global] Program Instance block_header_countable : Countable block_header :=
  inj_countable' (λ h, (header_height h, header_previous h, header_rest h))
                 (λ '(a, b, c), mk_block_header a b c) _.
Next Obligation. by intros []. Qed.
#[global] Program Instance block_countable : Countable block :=
  inj_countable' (λ b, (id b, header b, block_rest b)) (λ '(a, b, c), mk_block a b c) _.
Next Obligation. by intros []. Qed.

(** [block_height] is written and read as a [uint64]. *)
#[global] Instance record_message : Message block_record := {|
  SerializeToString r :=
    if decide (is_u64 (record_height r)) then @SerializeToString _ countable_message
      (record_id r, record_height r, previous_block_ids r, record_block r, record_receipt r)
    else None;
  ParseFromString b :=
    '(i, h, p, b, r) ← @ParseFromString (bytes * Z * list bytes * option block * option bytes)
                         countable_message b;
    if decide (is_u64 h) then Some (mk_block_record i h p b r) else None
|}.
#[global] Instance topology_message : Message block_topology := {|
  SerializeToString t :=
    @SerializeToString _ countable_message (topo_id t, topo_height t, topo_previous t);
  ParseFromString b :=
    '(i, h, p) ← @ParseFromString (bytes * Z * bytes) countable_message b;
    Some (mk_block_topology i h p)
|}.

#[global] Instance record_message_laws : MessageLaws block_record.
Proof.
  split. intros [i h p b r] bs. cbn [SerializeToString ParseFromString record_message].
  case_decide; [|done]. intros H1%(@Parse_Serialize _ _ countable_message_laws). rewrite H1. cbn.
  by rewrite decide_True.
Qed.

#[global] Instance topology_message_laws : MessageLaws block_topology.
Proof.
  split. intros [i h p] bs. cbn [SerializeToString ParseFromString topology_message].
  intros H1%(@Parse_Serialize _ _ countable_message_laws). by rewrite H1.
Qed.

#[global] Instance map_db_reliable : Reliable MapDB nat.
Proof.
  split; [done| |].
  - intros r _ Hu. cbn. rewrite decide_True by done. eauto.
  - intros t. cbn. eauto.
Qed.

Lemma record_heights : heights_u64.
Proof.
  intros bs r. cbn [ParseFromString record_message]. intros ([[[[i h] p] b] rc] & Hb & Hr)%bind_Some.
  case_decide; [|done]. injection Hr as <-. done.
Qed.

Lemma map_db_healthy (db : MapDB) : healthy (CF := nat) db.
Proof. intros cf i m. cbn. by destruct (db !! (cf, i)). Qed.

Definition height_of (i : bytes) : Z := Z.of_nat (length i).

Lemma chain_ok : chain_heights height_of (@tl ascii).
Proof. intros [|c i]; unfold height_of; cbn; lia. Qed.

(** Block [i]: its header is determined by its id. *)
Definition block_of (i : bytes) : block :=
  mk_block i (Some (mk_block_header (height_of i) (tl i) (str "header"))) (str "body").

Lemma block_of_ok i : is_u64 (height_of i) → block_ok height_of (@tl ascii) (block_of i).
Proof. intros Hi. split; [done|]. by eexists. Qed.

(** Six blocks, [a], [ba], ..., and a fork at height 3. *)
Definition chain : list block_accepted :=
  (λ s, mk_block_accepted (Some (block_of (str s))) (Some (str "receipt")) true)
    <$> ["a"; "ba"; "cba"; "xba"; "dcba"; "edcba"; "fedcba"]%string.

Lemma chain_parents_first : parents_first height_of (@tl ascii) chain.
Proof.
  unfold chain. cbn [fmap list_fmap].
  repeat match goal with
  | |- parents_first _ _ ?l =>
    let l' := eval cbn in (removelast l) in
    let x := eval cbn in (List.last l (mk_block_accepted None None true)) in
    change l with (l' ++ [x]);
    eapply parents_first_snoc;
      [ | reflexivity | apply block_of_ok; by vm_compute
        | first [by vm_compute | intros _; decided] ]
  end.
  apply parents_first_nil.
Qed.

End Example_store.
Import Example_store.

(** A database that holds the chain. *)
Definition chain_db : MapDB :=
  ((initialize 1%nat;; handle_all 0%nat 1%nat chain) (∅ : MapDB)).2.

Lemma chain_history : history 0%nat 1%nat height_of (@tl ascii) chain_db chain.
Proof.
  destruct (initialize_history 0%nat 1%nat ltac:(done) height_of (@tl ascii) ∅
    (map_db_healthy _)) as (db1 & Hi & H0); [done|done|].
  destruct (handle_all_history 0%nat 1%nat ltac:(done) height_of (@tl ascii) record_heights chain_ok
    db1 chain H0 chain_parents_first) as (db2 & Hr & Hist).
  unfold chain_db. rewrite run_bind, Hi, Hr. done.
Qed.

Lemma get_ancestor_total_witness :
  (get_ancestor_id_at_height 0%nat (str "fedcba") 2 chain_db).1 ≠ OutOfFuel ∧
  (get_ancestor_id_at_height 0%nat (str "fedcba") 2 chain_db).2 = chain_db.
Proof.
  exact (get_ancestor_total 0%nat (str "fedcba") 2 chain_db record_heights
           ltac:(decided)).
Defined.

Lemma get_ancestor_correct_witness :
  let r := get_ancestor_id_at_height 0%nat (str "fedcba") 2 chain_db in
  r.1 ≠ OutOfFuel ∧ r.2 = chain_db ∧ ancestor_outcome 0%nat height_of (@tl ascii) chain_db (str "fedcba") 2 r.1.
Proof.
  exact (get_ancestor_correct 0%nat height_of (@tl ascii) (str "fedcba") 2 chain_db record_heights chain_ok
           (history_wf _ _ _ _ _ _ chain_history) ltac:(decided)).
Defined.

Lemma accept_history_witness :
  ∃ db', (initialize 1%nat;; handle_all 0%nat 1%nat chain) (∅ : MapDB) = (Ok tt, db') ∧
    get_ancestor_id_at_height 0%nat (str "fedcba") 2 db' = (Ok (str "ba"), db').
Proof.
  destruct (accept_history 0%nat 1%nat height_of (@tl ascii) chain ∅ ltac:(done) record_heights
    chain_ok (map_db_healthy _) ltac:(done) ltac:(done) chain_parents_first)
    as (db' & Hrun & _ & Hanc & _).
  exists db'. split; [exact Hrun|].
  exact (Hanc (str "fedcba") 2 ltac:(decided)
           ltac:(decided) ltac:(by vm_compute)).
Defined.

Lemma blocks_by_height_range_witness :
  ∃ items, get_blocks_by_height 0%nat
    (mk_get_blocks_by_height_request (str "fedcba") 2 3 true true) chain_db = (Ok items, chain_db) ∧
    item_id <$> items = [str "ba"; str "cba"; str "dcba"].
Proof.
  destruct (blocks_by_height_range 0%nat 1%nat height_of (@tl ascii) chain chain_db
    (mk_get_blocks_by_height_request (str "fedcba") 2 3 true true) record_heights chain_ok
    ltac:(by intros [|]) chain_parents_first chain_history
    ltac:(decided) ltac:(by vm_compute) ltac:(by vm_compute)
    ltac:(by vm_compute) ltac:(by vm_compute)) as (items & Hrun & _).
  exists items. split; [exact Hrun|].
  assert (items = default [] (match (get_blocks_by_height 0%nat
    (mk_get_blocks_by_height_request (str "fedcba") 2 3 true true) chain_db).1 with
    Ok l => Some l | _ => None end)) as -> by (rewrite Hrun; reflexivity).
  by vm_compute.
Defined.

Lemma blocks_by_height_above_head_witness :
  get_blocks_by_height 0%nat (mk_get_blocks_by_height_request (str "fedcba") 5 3 true true) chain_db
  = (Throw invalid_argument, chain_db).
Proof.
  exact (blocks_by_height_above_head 0%nat 1%nat height_of (@tl ascii) chain chain_db
    (mk_get_blocks_by_height_request (str "fedcba") 5 3 true true) record_heights chain_ok
    ltac:(by intros [|]) chain_parents_first chain_history
    ltac:(decided) ltac:(by vm_compute) ltac:(by vm_compute)
    ltac:(by vm_compute) ltac:(by vm_compute)).
Defined.
