(* ===== verification/PeerPolicy.v ===== *)
(** The peer policies of the p2p node: error scores
    ([src/src/p2p/error_handler.hpp]), the fork watchdog
    ([fork_watchdog.hpp]) and the gossip switch ([gossip_toggle.hpp]).

    Each is a record and one function per member function; the mutex inside
    each makes a call atomic.  Clocks are arguments, in nanoseconds. *)

From S2P Require Import Prelude.

(** [duration_cast< seconds >] of nanoseconds truncates. *)
Definition seconds_of (ns : Z) : Z := Z.quot ns (10 ^ 9).

(** ** Options and peers, [types.hpp] *)

Record PeerID := mk_PeerID { peer_id : bytes; address : bytes }.

Record Checkpoint := mk_Checkpoint { checkpoint_height : Z; checkpoint_id : bytes }.

(** The options the modelled code reads; intervals in seconds. *)
Record P2POptions := mk_P2POptions {
  checkpoints : list Checkpoint;
  block_request_batch_size : Z;
  synced_block_delta : Z;
  peer_discovery_enabled : bool;
  target_peer_count : Z;
  max_peer_candidates : Z;
  max_candidate_dials_per_cycle : Z;
  candidate_redial_interval : Z;
  gossip_head_threshold : Z;
  always_enable_gossip : bool;
  always_disable_gossip : bool;
  error_score_halflife : Z;
  error_score_disconnect_threshold : Z;
  error_score_reconnect_threshold : Z;
  score_transaction_application : Z;
  score_block_application : Z;
  score_deserialization : Z;
  score_peer_rpc_error : Z;
  score_peer_rpc_timeout : Z;
  score_fork_bomb : Z;
  score_chain_id_mismatch : Z;
  score_chain_not_connected : Z;
  score_checkpoint_mismatch : Z
}.

(** The defaults of [types.hpp]. *)
Definition default_options : P2POptions :=
  mk_P2POptions [] 500 5 true 20 200 3 60 45 false false (30 * 60) 100000 50000
    100 5000 5000 5000 3500 200000 200000 200000 200000.

#[global] Instance PeerID_eq_dec : EqDecision PeerID.
Proof. solve_decision. Defined.

(** ** Error scores *)

Module PeerErrorHandler.

(** [static_cast< uint64_t >( score * exp( -( log( 2 ) / halflife ) * elapsed ) )],
    floating-point arithmetic of the C library: a factor between 0 and 1. *)
Class ScoreDecay := { decay : Z → Z → Z → Z }.
Class ScoreDecayLaws `{!ScoreDecay} := {
  decay_range halflife elapsed score :
    0 < halflife → 0 ≤ elapsed → 0 ≤ score → 0 ≤ decay halflife elapsed score ≤ score
}.

Record ScoreRecord := mk_ScoreRecord { score : Z; last_update : Z }.
Abbreviation scores := (gmap bytes ScoreRecord).

Section Scores.
Context `{!ScoreDecay}.

Definition decayed (opts : P2POptions) (now : Z) (record : ScoreRecord) : Z :=
  if 0 <? score record
  then decay (error_score_halflife opts) (seconds_of (now - last_update record)) (score record)
  else score record.

Definition record_error (opts : P2POptions) (now : Z) (peer_addr : bytes) (points : Z) (_scores : scores)
  : bool * scores :=
  let record := default (mk_ScoreRecord 0 now) (_scores !! peer_addr) in
  let total := u64 (decayed opts now record + points) in
  (error_score_disconnect_threshold opts <=? total,
   <[peer_addr := mk_ScoreRecord total now]> _scores).

Definition can_connect (opts : P2POptions) (peer_addr : bytes) (_scores : scores) : bool :=
  match _scores !! peer_addr with
  | None => true
  | Some record => score record <? error_score_reconnect_threshold opts
  end.

Definition get_score (peer_addr : bytes) (_scores : scores) : Z :=
  match _scores !! peer_addr with Some record => score record | None => 0 end.

End Scores.
End PeerErrorHandler.

(** ** The fork watchdog *)

Module ForkWatchdog.

Abbreviation fork_key := (bytes * bytes)%type.

Record fork_watchdog := mk_fork_watchdog {
  _forks : gmap fork_key (gset bytes);
  _height_index : gmap Z (gset fork_key)
}.

Definition empty_watchdog : fork_watchdog := mk_fork_watchdog ∅ ∅.

Definition max_forks_per_parent : Z := 3.

Definition check (block_id signer parent_id : bytes) (height : Z) (w : fork_watchdog)
  : bool * fork_watchdog :=
  let key := (signer, parent_id) in
  let blocks := {[block_id]} ∪ default ∅ (_forks w !! key) in
  (max_forks_per_parent <? i32 (Z.of_nat (size blocks)),
   mk_fork_watchdog (<[key := blocks]> (_forks w))
     (<[height := {[key]} ∪ default ∅ (_height_index w !! height)]> (_height_index w))).

(** One iteration of the [while] loop. *)
Definition purge_height (w : fork_watchdog) (h : Z) : fork_watchdog :=
  mk_fork_watchdog
    (foldl (λ forks key, delete key forks) (_forks w) (elements (default ∅ (_height_index w !! h))))
    (delete h (_height_index w)).

(** The heights of the index in ascending order, up to [height]. *)
Definition purge_below (height : Z) (w : fork_watchdog) : fork_watchdog :=
  foldl purge_height w
    (filter (λ h, h ≤ height) (merge_sort Z.le (map_to_list (_height_index w)).*1)).

End ForkWatchdog.

(** ** The gossip switch *)

Module GossipToggle.

Record gossip_toggle := mk_gossip_toggle {
  _running : bool;
  _enabled : bool;
  _head_time_ms : Z
}.

Definition new : gossip_toggle := mk_gossip_toggle false false 0.

(** Every function returns the calls of [_enable_cb] it makes. *)
Definition set_enabled (enabled : bool) (g : gossip_toggle) : list bool * gossip_toggle :=
  ([enabled], mk_gossip_toggle (_running g) enabled (_head_time_ms g)).

Definition start (opts : P2POptions) (g : gossip_toggle) : list bool * gossip_toggle :=
  if always_enable_gossip opts then set_enabled true g
  else if always_disable_gossip opts then set_enabled false g
  else ([], mk_gossip_toggle true (_enabled g) (_head_time_ms g)).

Definition stop (g : gossip_toggle) : gossip_toggle :=
  mk_gossip_toggle false (_enabled g) (_head_time_ms g).

Definition update_head_time (block_timestamp_ms : Z) (g : gossip_toggle) : gossip_toggle :=
  mk_gossip_toggle (_running g) (_enabled g) block_timestamp_ms.

(** The lag of the head: time points are signed 64-bit nanoseconds. *)
Definition lag (now head_ms : Z) : Z := seconds_of (i64 (now - i64 (i64 head_ms * 10 ^ 6))).

(** One iteration of [run_loop] after its sleep, with the peer count and the
    clock it reads. *)
Definition run_once (opts : P2POptions) (peers now : Z) (g : gossip_toggle) : list bool * gossip_toggle :=
  if negb (_running g) then ([], g)
  else if peers =? 0 then
    if _enabled g then set_enabled false g else ([], g)
  else if _head_time_ms g =? 0 then ([], g)
  else if lag now (_head_time_ms g) <? gossip_head_threshold opts then
    if negb (_enabled g) then set_enabled true g else ([], g)
  else
    if _enabled g then set_enabled false g else ([], g).

End GossipToggle.
