(* ===== verification/P2PNode.v ===== *)
(** The p2p node: [src/src/p2p/p2p_node.cpp].

    A handler is a program over the node and the trace of the calls it has
    made to the outside: to the chain, the block store, the transport, the
    event bus and the clock.  What a call returns is up to an environment,
    which sees the whole trace, so the peers, the chain and the network may
    answer anything.  At every call the environment may also change the
    node, which is how handlers on other threads and callbacks of the
    transport (that [disconnect_peer] runs before it returns) come in. *)

From S2P Require Import Prelude Keys SkipList BlockStore GorpcCodec PeerRpc PeerPolicy.
Import Gorpc.

Module P2PNode.
Import BlockStore.
Import PeerErrorHandler(ScoreDecay, decay, scores).

(** ** Messages *)

(** What the node reads of the opaque part of a block, and the wire format
    of a block: protobuf's. *)
Class Protocol := {
  block_signature : block → bytes;
  header_timestamp : block_header → Z;
  serialize_block : block → bytes;
  parse_block : bytes → option block
}.

Record transaction := mk_transaction { tx_id : bytes; tx_rest : bytes }.

Record head_info := mk_head_info { head_id : bytes; head_height : Z; last_irreversible_block : Z }.

Record PeerHeadInfo := mk_PeerHeadInfo { peer_block_id : bytes; peer_height : Z }.

(** ** The outside *)

Inductive event : Type :=
| GetChainId
| GetHeadInfo
| GetBlocksById (ids : list bytes)
| GetBlocksByHeight (req : get_blocks_by_height_request)
| SubmitBlock (b : block) (accepted : bool)
| SubmitTransaction (t : transaction) (accepted : bool)
| PeerGetChainId (p : PeerID)
| PeerGetHeadBlock (p : PeerID)
| PeerGetAncestor (p : PeerID) (id : bytes) (height : Z)
| PeerGetBlocks (p : PeerID) (id : bytes) (start_height count : Z)
| ConnectPeer (p : PeerID)
| DisconnectPeer (p : PeerID)
| PublishBlock (b : block)
| ConnectedPeerCount
| KnownPeers
| ReadClock
| GossipStatus (enabled : bool)
| TransportStart
| TransportStop.

Abbreviation trace := (list event).

Record PeerCandidate := mk_PeerCandidate {
  candidate_peer : PeerID;
  seed : bool;
  attempts : Z;
  last_dial : Z
}.

Definition new_candidate : PeerCandidate := mk_PeerCandidate (mk_PeerID [] []) false 0 0.

Record p2p_node := mk_p2p_node {
  _opts : P2POptions;
  _chain : bool;
  _block_store : bool;
  _event_bus : bool;
  _error_handler : scores;
  _fork_watchdog : ForkWatchdog.fork_watchdog;
  _gossip_toggle : option GossipToggle.gossip_toggle;
  _peers : gset bytes;
  _peer_candidates : gmap bytes PeerCandidate;
  _seen_blocks : gset bytes;
  _seen_transactions : gset bytes;
  _running : bool;
  _lib_height : Z;
  _chain_id : bytes;
  _seed_peers : list PeerID
}.

Definition set_scores (s : scores) (n : p2p_node) : p2p_node :=
  mk_p2p_node (_opts n) (_chain n) (_block_store n) (_event_bus n) s (_fork_watchdog n) (_gossip_toggle n)
    (_peers n) (_peer_candidates n) (_seen_blocks n) (_seen_transactions n) (_running n) (_lib_height n)
    (_chain_id n) (_seed_peers n).
Definition set_watchdog (w : ForkWatchdog.fork_watchdog) (n : p2p_node) : p2p_node :=
  mk_p2p_node (_opts n) (_chain n) (_block_store n) (_event_bus n) (_error_handler n) w (_gossip_toggle n)
    (_peers n) (_peer_candidates n) (_seen_blocks n) (_seen_transactions n) (_running n) (_lib_height n)
    (_chain_id n) (_seed_peers n).
Definition set_gossip (g : option GossipToggle.gossip_toggle) (n : p2p_node) : p2p_node :=
  mk_p2p_node (_opts n) (_chain n) (_block_store n) (_event_bus n) (_error_handler n) (_fork_watchdog n) g
    (_peers n) (_peer_candidates n) (_seen_blocks n) (_seen_transactions n) (_running n) (_lib_height n)
    (_chain_id n) (_seed_peers n).
Definition set_peers (p : gset bytes) (n : p2p_node) : p2p_node :=
  mk_p2p_node (_opts n) (_chain n) (_block_store n) (_event_bus n) (_error_handler n) (_fork_watchdog n)
    (_gossip_toggle n) p (_peer_candidates n) (_seen_blocks n) (_seen_transactions n) (_running n)
    (_lib_height n) (_chain_id n) (_seed_peers n).
Definition set_candidates (c : gmap bytes PeerCandidate) (n : p2p_node) : p2p_node :=
  mk_p2p_node (_opts n) (_chain n) (_block_store n) (_event_bus n) (_error_handler n) (_fork_watchdog n)
    (_gossip_toggle n) (_peers n) c (_seen_blocks n) (_seen_transactions n) (_running n) (_lib_height n)
    (_chain_id n) (_seed_peers n).
Definition set_seen (b t : gset bytes) (n : p2p_node) : p2p_node :=
  mk_p2p_node (_opts n) (_chain n) (_block_store n) (_event_bus n) (_error_handler n) (_fork_watchdog n)
    (_gossip_toggle n) (_peers n) (_peer_candidates n) b t (_running n) (_lib_height n) (_chain_id n)
    (_seed_peers n).
Definition set_running (r : bool) (n : p2p_node) : p2p_node :=
  mk_p2p_node (_opts n) (_chain n) (_block_store n) (_event_bus n) (_error_handler n) (_fork_watchdog n)
    (_gossip_toggle n) (_peers n) (_peer_candidates n) (_seen_blocks n) (_seen_transactions n) r
    (_lib_height n) (_chain_id n) (_seed_peers n).
Definition set_lib (h : Z) (n : p2p_node) : p2p_node :=
  mk_p2p_node (_opts n) (_chain n) (_block_store n) (_event_bus n) (_error_handler n) (_fork_watchdog n)
    (_gossip_toggle n) (_peers n) (_peer_candidates n) (_seen_blocks n) (_seen_transactions n) (_running n)
    h (_chain_id n) (_seed_peers n).
Definition set_chain_id (c : bytes) (n : p2p_node) : p2p_node :=
  mk_p2p_node (_opts n) (_chain n) (_block_store n) (_event_bus n) (_error_handler n) (_fork_watchdog n)
    (_gossip_toggle n) (_peers n) (_peer_candidates n) (_seen_blocks n) (_seen_transactions n) (_running n)
    (_lib_height n) c (_seed_peers n).
Definition set_seeds (s : list PeerID) (n : p2p_node) : p2p_node :=
  mk_p2p_node (_opts n) (_chain n) (_block_store n) (_event_bus n) (_error_handler n) (_fork_watchdog n)
    (_gossip_toggle n) (_peers n) (_peer_candidates n) (_seen_blocks n) (_seen_transactions n) (_running n)
    (_lib_height n) (_chain_id n) s.

(** The environment: the answer of each call, [inl] the [what()] of an
    exception, and the other threads. *)
Record environment := mk_environment {
  env_chain_id : trace → bytes + bytes;
  env_head_info : trace → bytes + head_info;
  env_blocks_by_id : trace → list bytes → bytes + list block_item;
  env_blocks_by_height : trace → get_blocks_by_height_request → bytes + list block_item;
  env_submit_block : trace → block → bytes + unit;
  env_submit_transaction : trace → transaction → bytes + unit;
  env_peer_chain_id : trace → PeerID → bytes + bytes;
  env_peer_head : trace → PeerID → bytes + PeerHeadInfo;
  env_peer_ancestor : trace → PeerID → bytes → Z → bytes + bytes;
  env_peer_blocks : trace → PeerID → bytes → Z → Z → bytes + list block;
  env_connect : trace → PeerID → bytes + unit;
  env_peer_count : trace → Z;
  env_known_peers : trace → list PeerID;
  env_clock : trace → Z;
  interfere : trace → p2p_node → p2p_node
}.

Record system := mk_system { node : p2p_node; calls : trace }.

Abbreviation N := (prog system bytes).

Section Node.
Context `{!Protocol} `{!ScoreDecay}.
Context (env : environment).

Definition call {A} (ev : bytes + A → event) (answer : trace → bytes + A) : N A := λ s,
  let r := answer (calls s) in
  let tr := calls s ++ [ev r] in
  let s := mk_system (interfere env tr (node s)) tr in
  match r with inl what => (Throw what, s) | inr a => (Ok a, s) end.

Definition is_ok {A} (r : bytes + A) : bool := match r with inr _ => true | inl _ => false end.

Definition gets_node {A} (f : p2p_node → A) : N A := gets_state (λ s, f (node s)).
Definition mod_node (f : p2p_node → p2p_node) : N unit := mod_state (λ s, mk_system (f (node s)) (calls s)).

Definition get_chain_id : N bytes := call (λ _, GetChainId) (env_chain_id env).
Definition get_head_info : N head_info := call (λ _, GetHeadInfo) (env_head_info env).
Definition store_blocks_by_id (ids : list bytes) : N (list block_item) :=
  call (λ _, GetBlocksById ids) (λ tr, env_blocks_by_id env tr ids).
Definition store_blocks_by_height (req : get_blocks_by_height_request) : N (list block_item) :=
  call (λ _, GetBlocksByHeight req) (λ tr, env_blocks_by_height env tr req).
Definition submit_block (b : block) : N unit :=
  call (λ r, SubmitBlock b (is_ok r)) (λ tr, env_submit_block env tr b).
Definition submit_transaction (t : transaction) : N unit :=
  call (λ r, SubmitTransaction t (is_ok r)) (λ tr, env_submit_transaction env tr t).
Definition peer_get_chain_id (p : PeerID) : N bytes :=
  call (λ _, PeerGetChainId p) (λ tr, env_peer_chain_id env tr p).
Definition peer_get_head_block (p : PeerID) : N PeerHeadInfo :=
  call (λ _, PeerGetHeadBlock p) (λ tr, env_peer_head env tr p).
Definition peer_get_ancestor_block_id (p : PeerID) (id : bytes) (height : Z) : N bytes :=
  call (λ _, PeerGetAncestor p id height) (λ tr, env_peer_ancestor env tr p id height).
Definition peer_get_blocks (p : PeerID) (id : bytes) (start_height count : Z) : N (list block) :=
  call (λ _, PeerGetBlocks p id start_height count) (λ tr, env_peer_blocks env tr p id start_height count).
Definition connect_peer (p : PeerID) : N unit := call (λ _, ConnectPeer p) (λ tr, env_connect env tr p).
Definition disconnect_peer (p : PeerID) : N unit := call (λ _, DisconnectPeer p) (λ _, inr tt).
Definition publish_block (b : block) : N unit := call (λ _, PublishBlock b) (λ _, inr tt).
Definition transport_peer_count : N Z := call (λ _, ConnectedPeerCount) (λ tr, inr (env_peer_count env tr)).
Definition transport_known_peers : N (list PeerID) := call (λ _, KnownPeers) (λ tr, inr (env_known_peers env tr)).
Definition now : N Z := call (λ _, ReadClock) (λ tr, inr (env_clock env tr)).
Definition transport_start : N unit := call (λ _, TransportStart) (λ _, inr tt).
Definition transport_stop : N unit := call (λ _, TransportStop) (λ _, inr tt).

(** The calls of the gossip switch's callback. *)
Fixpoint gossip_status (l : list bool) : N unit :=
  match l with
  | [] => mret tt
  | e :: l =>
    bus ← gets_node _event_bus;
    (if (bus : bool) then call (λ _, GossipStatus e) (λ _, inr tt) else mret tt);;
    gossip_status l
  end.

(** ** Error texts *)

Definition to_lower (c : ascii) : ascii :=
  if (65 <=? code c) && (code c <=? 90) then byte_of (code c + 32) else c.

Fixpoint is_prefix (n h : bytes) : bool :=
  match n, h with
  | [], _ => true
  | _ :: _, [] => false
  | c :: n, d :: h => bool_decide (c = d) && is_prefix n h
  end.

Fixpoint contains (h n : bytes) : bool :=
  is_prefix n h || match h with [] => false | _ :: h => contains h n end.

Definition contains_case_insensitive (haystack needle : bytes) : bool :=
  contains (to_lower <$> haystack) (to_lower <$> needle).

Definition is_transport_disconnect_error (error : bytes) : bool :=
  existsb (λ s, contains_case_insensitive error (str s))
    ["end of file"; "connection reset"; "broken pipe"; "zero bytes written"; "failed to open stream";
     "failed to write rpc request"; "failed to read rpc response"; "libp2p";
     "protocol negotiation failed"; "stream reset"; "stream closed"; "connection closed"]%string.

Definition is_irreversibility_error (error : bytes) : bool :=
  existsb (λ s, contains_case_insensitive error (str s))
    ["prior to irreversibility"; "earlier than irreversibility"; "block irreversibility"]%string.

Definition is_local_state_merkle_mismatch (error : bytes) : bool :=
  existsb (λ s, contains_case_insensitive error (str s))
    ["block previous state merkle mismatch"; "previous state merkle mismatch"]%string.

Definition has_dialable_address (peer : PeerID) : bool :=
  bool_decide (peer_id peer ≠ []) && bool_decide (address peer ≠ []).

(** ** Error reports *)

Definition report_peer_error (peer : PeerID) (error : bytes) (score : Z) : N bool :=
  t ← now;
  threshold_exceeded ←
    (λ s, let (r, sc) := PeerErrorHandler.record_error (_opts (node s)) t (address peer) score
                           (_error_handler (node s)) in
          (Ok r, mk_system (set_scores sc (node s)) (calls s)));
  if (threshold_exceeded : bool) then disconnect_peer peer;; mret true
  else if is_transport_disconnect_error error then disconnect_peer peer;; mret true
  else mret false.

Definition score_for_error (error : bytes) : N Z :=
  if contains_case_insensitive error (str "timeout") || contains_case_insensitive error (str "timed out")
  then gets_node (λ n, score_peer_rpc_timeout (_opts n))
  else gets_node (λ n, score_peer_rpc_error (_opts n)).

(** ** Peer candidates *)

(** The eviction loop, over the candidates in the order of their ids, once
    there are more than [max]. *)
Fixpoint evict (max : Z) (peers : gset bytes) (ids : list bytes) (c : gmap bytes PeerCandidate)
  : gmap bytes PeerCandidate :=
  match ids with
  | [] => c
  | i :: ids =>
    match c !! i with
    | Some cand =>
      if seed cand || bool_decide (i ∈ peers) then evict max peers ids c
      else
        let c := delete i c in
        if Z.of_nat (base.size c) <=? max then c else evict max peers ids c
    | None => evict max peers ids c
    end
  end.

Definition add_candidate (peer : PeerID) (is_seed : bool) (n : p2p_node) : p2p_node :=
  if negb (has_dialable_address peer) then n
  else
    let old := _peer_candidates n !! peer_id peer in
    let it := default new_candidate old in
    let it :=
      if negb (bool_decide (is_Some old)) || bool_decide (address (candidate_peer it) = []) || is_seed
      then mk_PeerCandidate peer (seed it) (attempts it) (last_dial it) else it in
    let it := mk_PeerCandidate (candidate_peer it) (seed it || is_seed) (attempts it) (last_dial it) in
    let c := <[peer_id peer := it]> (_peer_candidates n) in
    let max := max_peer_candidates (_opts n) in
    set_candidates
      (if (0 <? max) && (max <? Z.of_nat (base.size c))
       then evict max (_peers n) (map_keys c) c else c) n.

Definition add_peer_candidate (peer : PeerID) (is_seed : bool) : N unit := mod_node (add_candidate peer is_seed).

Fixpoint add_all (peers : list PeerID) : N unit :=
  match peers with [] => mret tt | p :: peers => add_peer_candidate p false;; add_all peers end.

Definition refresh_known_peer_candidates : N unit :=
  enabled ← gets_node (λ n, peer_discovery_enabled (_opts n));
  if (enabled : bool) then peers ← transport_known_peers; add_all peers else mret tt.

(** The selection loop: the peers to dial and the marked candidates. *)
Fixpoint select_peers (n : p2p_node) (wanted max_dials t : Z) (ids : list bytes)
    (to_dial : list PeerID) (c : gmap bytes PeerCandidate) : list PeerID * gmap bytes PeerCandidate :=
  match ids with
  | [] => (to_dial, c)
  | i :: ids =>
    if (wanted <=? Z.of_nat (length to_dial)) || (max_dials <=? Z.of_nat (length to_dial)) then (to_dial, c)
    else
      match c !! i with
      | None => select_peers n wanted max_dials t ids to_dial c
      | Some candidate =>
        if seed candidate || bool_decide (i ∈ _peers n) then select_peers n wanted max_dials t ids to_dial c
        else if negb (PeerErrorHandler.can_connect (_opts n) (address (candidate_peer candidate))
                        (_error_handler n))
        then select_peers n wanted max_dials t ids to_dial c
        else if (0 <? attempts candidate)
                && (t - last_dial candidate <? candidate_redial_interval (_opts n) * 10 ^ 9)
        then select_peers n wanted max_dials t ids to_dial c
        else
          select_peers n wanted max_dials t ids (to_dial ++ [candidate_peer candidate])
            (<[i := mk_PeerCandidate (candidate_peer candidate) (seed candidate)
                      (u32 (attempts candidate + 1)) t]> c)
      end
  end.

(** The dials; an exception of one is logged. *)
Fixpoint dial_peers (peers : list PeerID) : N unit :=
  match peers with
  | [] => mret tt
  | peer :: peers =>
    running ← gets_node _running;
    if (running : bool) then
      try_catch (connect_peer peer) (λ _, mret tt);;
      dial_peers peers
    else mret tt
  end.

Definition run_peer_acquisition_cycle : N unit :=
  opts ← gets_node _opts;
  if negb (peer_discovery_enabled opts) || (target_peer_count opts =? 0) then mret tt
  else
    connected ← transport_peer_count;
    if target_peer_count opts <=? connected then mret tt
    else
      t ← now;
      let wanted := u32 (target_peer_count opts - connected) in
      let max_dials := Z.max 1 (max_candidate_dials_per_cycle opts) in
      peers_to_dial ←
        (λ s, let (to_dial, c) := select_peers (node s) wanted max_dials t
                                    (map_keys (_peer_candidates (node s))) []
                                    (_peer_candidates (node s)) in
              (Ok to_dial, mk_system (set_candidates c (node s)) (calls s)));
      dial_peers peers_to_dial.

(** The seed peers are dialed in one cycle of the reconnection thread. *)
Fixpoint dial_seeds (seeds : list PeerID) : N unit :=
  match seeds with
  | [] => mret tt
  | s :: seeds =>
    running ← gets_node _running;
    if (running : bool) then
      allowed ← gets_node (λ n, PeerErrorHandler.can_connect (_opts n) (address s) (_error_handler n));
      if (allowed : bool) then
        found ← gets_node (λ n, bool_decide (peer_id s ∈ _peers n));
        (if (found : bool) then mret tt else try_catch (connect_peer s) (λ _, mret tt));;
        dial_seeds seeds
      else dial_seeds seeds
    else mret tt
  end.

(** One cycle of the reconnection thread; [seeds_due] when the interval
    since the last seed cycle is over. *)
Definition reconnect_cycle (seeds_due : bool) : N unit :=
  refresh_known_peer_candidates;;
  (if seeds_due then seeds ← gets_node _seed_peers; dial_seeds seeds else mret tt);;
  run_peer_acquisition_cycle.

(** ** Peer lifecycle *)

Definition on_peer_connected (peer : PeerID) : N unit :=
  mod_node (λ n,
    if bool_decide (peer_id peer ∈ _peers n) then n
    else
      let n :=
        if has_dialable_address peer then
          let it := default new_candidate (_peer_candidates n !! peer_id peer) in
          set_candidates
            (<[peer_id peer := mk_PeerCandidate peer (seed it) (attempts it) (last_dial it)]>
               (_peer_candidates n)) n
        else n in
      set_peers ({[peer_id peer]} ∪ _peers n) n).

Definition on_peer_disconnected (peer : PeerID) : N unit :=
  mod_node (λ n, set_peers (_peers n ∖ {[peer_id peer]}) n).

(** ** The server side of the Peer RPC *)

(** A decoding error is a [std::runtime_error]. *)
Definition decoded {A} (o : outcome DecodeError A) : N A := λ s,
  match o with
  | Ok a => (Ok a, s)
  | Throw e => (Throw (PeerRpc.what e), s)
  | OutOfFuel => (OutOfFuel, s)
  end.

(** Every item must carry its block. *)
Fixpoint block_payloads_of (items : list block_item) : N (list bytes) :=
  match items with
  | [] => mret []
  | item :: items =>
    match item_block item with
    | None => raise (str "block store response item is missing block payload")
    | Some b => rest ← block_payloads_of items; mret (serialize_block b :: rest)
    end
  end.

Definition handle_peer_rpc_request (service method args : bytes) : N bytes :=
  if bool_decide (service ≠ str "PeerRPCService")
  then raise (str "unknown peer RPC service: " ++ service)
  else if bool_decide (method = str "GetChainID") then
    chain ← gets_node _chain;
    if negb chain then raise (str "chain service is unavailable")
    else
      chain_id ← gets_node _chain_id;
      (if bool_decide (chain_id = []) then c ← get_chain_id; mod_node (set_chain_id c) else mret tt);;
      chain_id ← gets_node _chain_id;
      mret (encode_id_response chain_id)
  else if bool_decide (method = str "GetHeadBlock") then
    chain ← gets_node _chain;
    if negb chain then raise (str "chain service is unavailable")
    else
      head ← get_head_info;
      mret (encode_head_block_response (head_id head) (head_height head))
  else if bool_decide (method = str "GetAncestorBlockID") then
    store ← gets_node _block_store;
    if negb store then raise (str "block store service is unavailable")
    else
      request ← decoded (decode_get_ancestor_block_id_request args);
      items ← store_blocks_by_height
                (mk_get_blocks_by_height_request (parent_id request) (child_height request) 1 true false);
      match items with
      | [item] => mret (encode_id_response (item_id item))
      | _ => raise (str "unexpected number of blocks returned")
      end
  else if bool_decide (method = str "GetBlocks") then
    store ← gets_node _block_store;
    if negb store then raise (str "block store service is unavailable")
    else
      request ← decoded (decode_get_blocks_request args);
      items ← store_blocks_by_height
                (mk_get_blocks_by_height_request (Gorpc.head_block_id request) (start_block_height request)
                   (num_blocks request) true false);
      payloads ← block_payloads_of items;
      mret (encode_blocks_response payloads)
  else raise (str "unknown peer RPC method: " ++ method).

(** ** Local queries *)

(** [None] where the code returns false. *)
Definition get_local_block_height (block_id : bytes) : N (option Z) :=
  store ← gets_node _block_store;
  if negb store || bool_decide (block_id = []) then mret None
  else
    items ← store_blocks_by_id [block_id];
    match items with [item] => mret (Some (item_height item)) | _ => mret None end.

Definition get_local_ancestor_block_id (head_block_id : bytes) (height : Z) : N bytes :=
  store ← gets_node _block_store;
  if negb store || bool_decide (head_block_id = []) || (height =? 0) then mret []
  else
    items ← store_blocks_by_height (mk_get_blocks_by_height_request head_block_id height 1 false false);
    match items with [item] => mret (item_id item) | _ => mret [] end.

(** ** Synchronization *)

Fixpoint check_checkpoints (peer : PeerID) (peer_head : PeerHeadInfo) (cps : list Checkpoint) : N bool :=
  match cps with
  | [] => mret true
  | cp :: cps =>
    if peer_height peer_head <? checkpoint_height cp then mret false
    else
      peer_checkpoint ← peer_get_ancestor_block_id peer (peer_block_id peer_head) (checkpoint_height cp);
      if bool_decide (peer_checkpoint ≠ checkpoint_id cp) then
        score ← gets_node (λ n, score_checkpoint_mismatch (_opts n));
        report_peer_error peer (str "checkpoint mismatch") score;;
        mret false
      else check_checkpoints peer peer_head cps
  end.

Definition peer_handshake (peer : PeerID) : N bool :=
  chain ← gets_node _chain;
  if negb chain then mret false
  else
    peer_chain_id ← peer_get_chain_id peer;
    chain_id ← gets_node _chain_id;
    if bool_decide (peer_chain_id ≠ chain_id) then
      score ← gets_node (λ n, score_chain_id_mismatch (_opts n));
      report_peer_error peer (str "chain ID mismatch") score;;
      mret false
    else
      peer_head ← peer_get_head_block peer;
      if bool_decide (peer_block_id peer_head = []) then
        score ← gets_node (λ n, score_chain_not_connected (_opts n));
        report_peer_error peer (str "peer head is empty") score;;
        mret false
      else
        cps ← gets_node (λ n, checkpoints (_opts n));
        check_checkpoints peer peer_head cps.

Definition header_of (b : block) : block_header := header_or_default b.

Definition watch (b : block) : N bool := λ s,
  let (bomb, w) := ForkWatchdog.check (id b) (block_signature b) (header_previous (header_of b))
                     (header_height (header_of b)) (_fork_watchdog (node s)) in
  (Ok bomb, mk_system (set_watchdog w (node s)) (calls s)).

Definition see_block (b : block) : N unit :=
  mod_node (λ n, set_seen ({[id b]} ∪ _seen_blocks n) (_seen_transactions n) n).

(** [submit_block] and the [catch]: [None] when the block was applied. *)
Definition try_submit (b : block) : N (option bytes) :=
  try_catch (submit_block b;; see_block b;; mret None) (λ what, mret (Some what)).

(** The loop over the fetched blocks; false where the code returns. *)
Fixpoint apply_blocks (peer : PeerID) (expected_height : Z) (expected_previous : bytes) (blocks : list block)
  : N bool :=
  match blocks with
  | [] => mret true
  | b :: blocks =>
    running ← gets_node _running;
    if negb running then mret false
    else if negb (bool_decide (is_Some (header b))) || bool_decide (id b = [])
            || negb (header_height (header_of b) =? expected_height) then
      score ← gets_node (λ n, score_checkpoint_mismatch (_opts n));
      report_peer_error peer (str "invalid sync block sequence") score;;
      mret false
    else if bool_decide (expected_previous ≠ [])
            && bool_decide (header_previous (header_of b) ≠ expected_previous) then
      score ← gets_node (λ n, score_chain_not_connected (_opts n));
      report_peer_error peer (str "sync block previous mismatch") score;;
      mret false
    else
      bomb ← watch b;
      if (bomb : bool) then
        score ← gets_node (λ n, score_fork_bomb (_opts n));
        report_peer_error peer (str "fork bomb detected") score;;
        mret false
      else
        failure ← try_submit b;
        match failure with
        | None => apply_blocks peer (u64 (expected_height + 1)) (id b) blocks
        | Some what =>
          if is_irreversibility_error what
          then apply_blocks peer (u64 (expected_height + 1)) (id b) blocks
          else if is_local_state_merkle_mismatch what then mret false
          else
            score ← gets_node (λ n, score_block_application (_opts n));
            report_peer_error peer (str "block application: " ++ what) score;;
            mret false
        end
  end.

(** The part of [request_sync_blocks] after the anchor is known; the result
    and the new value of [is_synced]. *)
Definition sync_from (peer : PeerID) (peer_head : PeerHeadInfo) (local_lib_height : Z)
    (sync_anchor_id : bytes) (is_synced : bool) : N (bool * bool) :=
  opts ← gets_node _opts;
  let blocks_needed := u64 (peer_height peer_head - local_lib_height) in
  let batch := u32 (Z.min (block_request_batch_size opts) blocks_needed) in
  blocks ← peer_get_blocks peer (peer_block_id peer_head) (u64 (local_lib_height + 1)) batch;
  match last blocks with
  | None => mret (true, is_synced)
  | Some back =>
    applied ← apply_blocks peer (u64 (local_lib_height + 1)) sync_anchor_id blocks;
    if negb applied then mret (false, is_synced)
    else
      mret (true, u64 (peer_height peer_head - header_height (header_of back)) <? synced_block_delta opts)
  end.

Definition request_sync_blocks (peer : PeerID) (is_synced : bool) : N (bool * bool) :=
  chain ← gets_node _chain; store ← gets_node _block_store;
  if negb chain || negb store then mret (false, is_synced)
  else
    local_head ← get_head_info;
    let local_lib_height := Z.min (last_irreversible_block local_head) (head_height local_head) in
    peer_head ← peer_get_head_block peer;
    if peer_height peer_head <=? local_lib_height then mret (true, true)
    else
      known ← get_local_block_height (peer_block_id peer_head);
      if negb (default 0 known =? 0) then mret (true, true)
      else if 0 <? local_lib_height then
        sync_anchor_id ← get_local_ancestor_block_id (head_id local_head) local_lib_height;
        if bool_decide (sync_anchor_id = []) then mret (false, is_synced)
        else
          ancestor_id ← peer_get_ancestor_block_id peer (peer_block_id peer_head) local_lib_height;
          if bool_decide (ancestor_id ≠ sync_anchor_id) then
            score ← gets_node (λ n, score_chain_not_connected (_opts n));
            report_peer_error peer (str "chain not connected at LIB") score;;
            mret (false, is_synced)
          else sync_from peer peer_head local_lib_height sync_anchor_id is_synced
      else sync_from peer peer_head local_lib_height [] is_synced.

(** One iteration of each loop of [peer_sync_loop]: whether the loop goes
    on, is left, or the thread ends. *)
Inductive control : Type := Again | Leave | Finish.

Definition report_exception (peer : PeerID) (what : bytes) : N control :=
  score ← score_for_error what;
  gone ← report_peer_error peer what score;
  mret (if (gone : bool) then Finish else Again).

Definition below_threshold (peer : PeerID) : N control :=
  gone ← gets_node (λ n, error_score_disconnect_threshold (_opts n)
                         <=? PeerErrorHandler.get_score (address peer) (_error_handler n));
  mret (if (gone : bool) then Finish else Again).

Definition handshake_iteration (peer : PeerID) : N control :=
  try_catch
    (ok ← peer_handshake peer;
     if (ok : bool) then mret Leave else below_threshold peer)
    (report_exception peer).

Definition sync_iteration (peer : PeerID) (is_synced : bool) : N (control * bool) :=
  try_catch
    ('(_, is_synced) ← request_sync_blocks peer is_synced;
     c ← below_threshold peer; mret (c, is_synced))
    (λ what, c ← report_exception peer what; mret (c, is_synced)).

(** ** Gossip *)

Definition on_gossip_block (from : PeerID) (b : block) : N unit :=
  if bool_decide (id b = []) || negb (bool_decide (is_Some (header b))) then
    score ← gets_node (λ n, score_deserialization (_opts n));
    report_peer_error from (str "invalid gossiped block") score;;
    mret tt
  else
    bomb ← watch b;
    if (bomb : bool) then
      score ← gets_node (λ n, score_fork_bomb (_opts n));
      report_peer_error from (str "fork bomb via gossip") score;;
      mret tt
    else
      lib ← gets_node _lib_height;
      if header_height (header_of b) <=? lib then mret tt
      else
        seen ← gets_node (λ n, bool_decide (id b ∈ _seen_blocks n));
        if (seen : bool) then mret tt
        else
          chain ← gets_node _chain;
          if negb chain then mret tt
          else
            future ←
              try_catch
                (local_head ← get_head_info;
                 let local_height := head_height local_head in
                 mret ((local_height <? header_height (header_of b))
                       && (1 <? u64 (header_height (header_of b) - local_height))))
                (λ _, mret false);
            if (future : bool) then mret tt
            else
              failure ← try_submit b;
              match failure with
              | None => mret tt
              | Some what =>
                score ← gets_node (λ n, score_block_application (_opts n));
                report_peer_error from (str "gossip block: " ++ what) score;;
                mret tt
              end.

Definition on_gossip_transaction (from : PeerID) (t : transaction) : N unit :=
  if bool_decide (tx_id t = []) then
    score ← gets_node (λ n, score_deserialization (_opts n));
    report_peer_error from (str "invalid gossiped transaction") score;;
    mret tt
  else
    chain ← gets_node _chain;
    if negb chain then mret tt
    else
      seen ← gets_node (λ n, bool_decide (tx_id t ∈ _seen_transactions n));
      if (seen : bool) then mret tt
      else
        try_catch
          (submit_transaction t;;
           mod_node (λ n, set_seen (_seen_blocks n) ({[tx_id t]} ∪ _seen_transactions n) n))
          (λ what,
             score ← gets_node (λ n, score_transaction_application (_opts n));
             report_peer_error from (str "gossip tx: " ++ what) score;;
             mret tt).

(** ** Events *)

Definition on_block_accepted (ba : block_accepted) : N unit :=
  match accepted_block ba with
  | None => mret tt
  | Some b =>
    (match header b with
     | Some h =>
       mod_node (λ n, set_gossip (GossipToggle.update_head_time (header_timestamp h) <$> _gossip_toggle n) n)
     | None => mret tt
     end);;
    toggle ← gets_node _gossip_toggle;
    match toggle with
    | Some g => if live ba && GossipToggle._enabled g then publish_block b else mret tt
    | None => mret tt
    end
  end.

Definition on_block_irreversible (height : Z) : N unit :=
  mod_node (λ n, set_watchdog (ForkWatchdog.purge_below height (_fork_watchdog n)) (set_lib height n)).

(** One iteration of the gossip switch's thread. *)
Definition gossip_iteration : N unit :=
  toggle ← gets_node _gossip_toggle;
  match toggle with
  | None => mret tt
  | Some g =>
    if negb (GossipToggle._running g) then mret tt
    else
      peers ← transport_peer_count;
      toggle ← gets_node _gossip_toggle;
      match toggle with
      | None => mret tt
      | Some g =>
        t ← (if (peers =? 0) || (GossipToggle._head_time_ms g =? 0) then mret 0 else now);
        opts ← gets_node _opts;
        let (l, g) := GossipToggle.run_once opts peers t g in
        mod_node (set_gossip (Some g));; gossip_status l
      end
  end.

(** ** Lifecycle *)

Definition construct (opts : P2POptions) (chain block_store event_bus : bool) (seeds : list PeerID) : p2p_node :=
  foldl (λ n peer, add_candidate peer true n)
    (mk_p2p_node opts chain block_store event_bus ∅ ForkWatchdog.empty_watchdog None ∅ ∅ ∅ ∅ false 0 []
       seeds) seeds.

Definition start : N unit :=
  mod_node (set_running true);;
  chain ← gets_node _chain;
  (if (chain : bool) then c ← get_chain_id; mod_node (set_chain_id c) else mret tt);;
  mod_node (set_gossip (Some GossipToggle.new));;
  transport_start;;
  opts ← gets_node _opts;
  toggle ← gets_node _gossip_toggle;
  match toggle with
  | None => mret tt
  | Some g =>
    let (l, g) := GossipToggle.start opts g in
    mod_node (set_gossip (Some g));; gossip_status l
  end.

Definition stop : N unit :=
  running ← gets_node _running;
  mod_node (set_running false);;
  if negb running then mret tt
  else
    mod_node (λ n, set_peers ∅ (set_gossip (GossipToggle.stop <$> _gossip_toggle n) n));;
    transport_stop.

End Node.
End P2PNode.
