(* ===== verification/PeerPolicyTheorems.v ===== *)
(** The properties of the peer policies: the fork watchdog against an
    independent record per signer and parent, and the gossip switch. *)

From S2P Require Import Prelude PeerPolicy.

(** ** The fork watchdog *)

Section Watchdog.
Import ForkWatchdog.

Definition row (w : fork_watchdog) (h : Z) : gset fork_key := default ∅ (_height_index w !! h).
Definition ids_of (w : fork_watchdog) (key : fork_key) : gset bytes := default ∅ (_forks w !! key).

Lemma foldl_delete (forks : gmap fork_key (gset bytes)) l key :
  foldl (λ forks key, delete key forks) forks l !! key = if decide (key ∈ l) then None else forks !! key.
Proof.
  revert forks. induction l as [|k l IH]; intros forks; cbn [foldl]; [by rewrite decide_False by apply not_elem_of_nil|].
  rewrite IH. destruct (decide (key ∈ l)) as [Hin|Hin]; [rewrite decide_True; [done|by right]|].
  destruct (decide (key = k)) as [->|Hne].
  - by rewrite lookup_delete_eq, decide_True by left.
  - rewrite lookup_delete_ne, decide_False by (done || set_solver). done.
Qed.

Lemma row_purge w h h' : row (purge_height w h) h' = if decide (h' = h) then ∅ else row w h'.
Proof.
  unfold row, purge_height. cbn. destruct (decide (h' = h)) as [->|Hne].
  - by rewrite lookup_delete_eq.
  - by rewrite lookup_delete_ne.
Qed.

Lemma forks_purge w h key :
  _forks (purge_height w h) !! key = if decide (key ∈ row w h) then None else _forks w !! key.
Proof.
  unfold purge_height. cbn. rewrite foldl_delete.
  destruct (decide (key ∈ elements _)) as [Hin|Hin], (decide (key ∈ row w h)) as [Hr|Hr]; try done.
  - exfalso. by apply Hr, elem_of_elements.
  - exfalso. by apply Hin, elem_of_elements.
Qed.

Lemma purge_rows hs w h' :
  row (foldl purge_height w hs) h' = if decide (h' ∈ hs) then ∅ else row w h'.
Proof.
  revert w. induction hs as [|h hs IH]; intros w; cbn [foldl].
  { by rewrite decide_False by apply not_elem_of_nil. }
  rewrite IH, row_purge.
  destruct (decide (h' ∈ hs)), (decide (h' = h)), (decide (h' ∈ h :: hs)) as [Hin|Hin]; try done;
    exfalso; set_solver.
Qed.

Lemma purge_forks hs w key :
  _forks (foldl purge_height w hs) !! key =
    if decide (Exists (λ h, key ∈ row w h) hs) then None else _forks w !! key.
Proof.
  revert w. induction hs as [|h hs IH]; intros w; cbn [foldl].
  { rewrite decide_False; [done|]. by intros H%Exists_nil. }
  rewrite IH, forks_purge. destruct (decide (key ∈ row w h)) as [Hk|Hk].
  - rewrite (decide_True (P := Exists _ (h :: hs))) by (by left). by case_decide.
  - assert (Exists (λ h', key ∈ row (purge_height w h) h') hs ↔ Exists (λ h', key ∈ row w h') (h :: hs)) as Hiff.
    { rewrite Exists_cons, !Exists_exists. split.
      - intros (h' & Hin & Hr). rewrite row_purge in Hr. case_decide; [by apply not_elem_of_empty in Hr|eauto].
      - intros [?|(h' & Hin & Hr)]; [done|]. exists h'. split; [done|]. rewrite row_purge.
        rewrite decide_False; [done|]. by intros ->. }
    by rewrite (decide_ext _ _ _ _ Hiff).
Qed.

(** The heights that [purge_below] goes over. *)
Definition purged (w : fork_watchdog) (height : Z) : list Z :=
  filter (λ h, h ≤ height) (merge_sort Z.le (map_to_list (_height_index w)).*1).

Definition heights_of (w : fork_watchdog) (key : fork_key) : gset Z :=
  filter (λ h, key ∈ row w h) (dom (_height_index w)).

Lemma elem_of_heights w key h : h ∈ heights_of w key ↔ key ∈ row w h.
Proof.
  unfold heights_of. rewrite elem_of_filter, elem_of_dom. split; [by intros [? _]|]. intros Hr. split; [done|].
  unfold row in Hr. destruct (_height_index w !! h); [by eexists|by apply not_elem_of_empty in Hr].
Qed.

Lemma elem_of_purged w height h key : key ∈ row w h → h ∈ purged w height ↔ h ≤ height.
Proof.
  intros Hr. unfold purged. rewrite list_elem_of_filter, merge_sort_Permutation. split; [by intros [? _]|].
  intros Hle. split; [done|]. unfold row in Hr. destruct (_height_index w !! h) as [r|] eqn:Hh;
    [|by apply not_elem_of_empty in Hr].
  apply list_elem_of_fmap. exists (h, r). split; [done|]. by apply elem_of_map_to_list.
Qed.

Lemma purge_below_heights w height key :
  heights_of (purge_below height w) key = filter (λ h, ¬ h ≤ height) (heights_of w key).
Proof.
  apply set_eq. intros h. rewrite elem_of_filter, !elem_of_heights.
  change (purge_below height w) with (foldl purge_height w (purged w height)). rewrite purge_rows.
  destruct (decide (h ∈ purged w height)) as [Hin|Hin].
  - split; [by intros ?%not_elem_of_empty|]. intros [Hle Hr]. exfalso. by apply Hle, (elem_of_purged w height h key).
  - split; [|by intros [_ ?]]. intros Hr. split; [|done]. intros Hle. by apply Hin, (elem_of_purged w height h key).
Qed.

Lemma purge_below_forks w height key :
  _forks (purge_below height w) !! key =
    if decide (filter (λ h, h ≤ height) (heights_of w key) = ∅) then _forks w !! key else None.
Proof.
  change (purge_below height w) with (foldl purge_height w (purged w height)). rewrite purge_forks.
  destruct (decide (Exists _ _)) as [Hex|Hnex], (decide (filter _ _ = ∅)) as [He|He]; try done; exfalso.
  - apply Exists_exists in Hex as (h & Hin & Hr). apply (elem_of_purged w height h key Hr) in Hin.
    apply (not_elem_of_empty (C := gset Z) h). rewrite <- He. by rewrite elem_of_filter, elem_of_heights.
  - apply set_choose_L in He as (h & (Hle & Hr%elem_of_heights)%elem_of_filter).
    apply Hnex, Exists_exists. exists h. split; [|done]. by apply (elem_of_purged w height h key Hr).
Qed.

(** *** The specification: one independent record per signer and parent

    The ids checked and the heights they were checked at; a purge up to a
    height forgets the ids if any of the heights is covered. *)

Inductive op : Type :=
| Check (block_id signer parent_id : bytes) (height : Z)
| PurgeBelow (height : Z).

Definition apply_op (w : fork_watchdog) (o : op) : fork_watchdog :=
  match o with
  | Check i s p h => (check i s p h w).2
  | PurgeBelow h => purge_below h w
  end.

Definition spec_op (key : fork_key) (st : gset bytes * gset Z) (o : op) : gset bytes * gset Z :=
  match o with
  | Check i s p h => if decide ((s, p) = key) then ({[i]} ∪ st.1, {[h]} ∪ st.2) else st
  | PurgeBelow h =>
    (if decide (filter (λ h', h' ≤ h) st.2 = ∅) then st.1 else ∅, filter (λ h', ¬ h' ≤ h) st.2)
  end.

Definition abstract (w : fork_watchdog) (key : fork_key) : gset bytes * gset Z :=
  (ids_of w key, heights_of w key).

Lemma apply_op_spec w o key : abstract (apply_op w o) key = spec_op key (abstract w key) o.
Proof.
  unfold abstract. destruct o as [i s p h|h]; cbn [apply_op spec_op fst snd].
  - unfold ids_of, check. cbn [snd _forks]. destruct (decide ((s, p) = key)) as [<-|Hne].
    + rewrite lookup_insert_eq. cbn [default]. f_equal. apply set_eq. intros h'.
      rewrite elem_of_union, elem_of_singleton, !elem_of_heights. unfold row. cbn [_height_index].
      destruct (decide (h' = h)) as [->|Hh]; [rewrite lookup_insert_eq; cbn [default]; set_solver|].
      rewrite lookup_insert_ne by done. set_solver.
    + rewrite lookup_insert_ne by done. f_equal. apply set_eq. intros h'.
      rewrite !elem_of_heights. unfold row. cbn [_height_index].
      destruct (decide (h' = h)) as [->|Hh]; [rewrite lookup_insert_eq; cbn [default]; set_solver|].
      by rewrite lookup_insert_ne.
  - rewrite purge_below_heights. f_equal. unfold ids_of. rewrite purge_below_forks. by case_decide.
Qed.

Lemma history_spec l w key : abstract (foldl apply_op w l) key = foldl (spec_op key) (abstract w key) l.
Proof.
  revert w. induction l as [|o l IH]; intros w; cbn [foldl]; [done|]. by rewrite IH, apply_op_spec.
Qed.

(** Every key on record has a height on record. *)
Definition indexed (w : fork_watchdog) : Prop := ∀ key, is_Some (_forks w !! key) → heights_of w key ≠ ∅.

Lemma apply_op_indexed w o : indexed w → indexed (apply_op w o).
Proof.
  intros Hw key Hk. destruct o as [i s p h|h]; cbn [apply_op] in *.
  - unfold check in Hk. cbn [snd _forks] in Hk.
    pose proof (f_equal snd (apply_op_spec w (Check i s p h) key)) as Hh.
    unfold abstract in Hh. cbn [apply_op spec_op snd] in Hh. intros He. rewrite He in Hh.
    destruct (decide ((s, p) = key)) as [Heq|Hne]; cbn [snd] in Hh; [set_solver|].
    rewrite lookup_insert_ne in Hk by done. by apply (Hw key).
  - rewrite purge_below_heights. rewrite purge_below_forks in Hk. intros He.
    destruct (decide (filter _ _ = ∅)) as [Hle|Hle]; [|by destruct Hk]. apply (Hw key Hk).
    apply set_eq. intros h'. split; [|by intros ?%not_elem_of_empty]. intros Hin.
    destruct (decide (h' ≤ h)); [rewrite <- Hle|rewrite <- He]; by apply elem_of_filter.
Qed.

Lemma history_indexed l : indexed (foldl apply_op empty_watchdog l).
Proof.
  assert (indexed empty_watchdog) as H0 by (intros key [? Hk]; discriminate Hk).
  revert H0. generalize empty_watchdog. induction l as [|o l IH]; intros w Hw; cbn [foldl]; [done|].
  by apply IH, apply_op_indexed.
Qed.

(** After any history of checks and purges the watchdog knows, for
    every signer and parent independently, exactly the ids checked since the
    last purge that covered one of their heights; a check reports a fork
    bomb exactly when its id is among more than three of them; and a purge
    leaves no record without a height above the purged one, so the memory
    held is bounded by what came in above it. *)
Theorem fork_watchdog_refines (l : list op) (key : fork_key) :
  let w := foldl apply_op empty_watchdog l in
  let spec := foldl (spec_op key) (∅, ∅) l in
  abstract w key = spec ∧
  (∀ i h, (check i key.1 key.2 h w).1 = (3 <? i32 (Z.of_nat (size ({[i]} ∪ spec.1))))) ∧
  (∀ h, is_Some (_forks (purge_below h w) !! key) → ∃ h', h' ∈ heights_of w key ∧ h < h').
Proof.
  intros w spec.
  assert (abstract w key = spec) as Habs.
  { unfold w, spec. rewrite history_spec. reflexivity. }
  split_and!; [done| |].
  - intros i h. rewrite <- Habs. unfold check. cbn [fst]. by destruct key.
  - intros h Hk. pose proof (history_indexed (l ++ [PurgeBelow h]) key) as Hi.
    rewrite foldl_app in Hi. cbn [foldl apply_op] in Hi. specialize (Hi Hk).
    rewrite purge_below_heights in Hi. apply set_choose_L in Hi as (h' & (Hh & Hin)%elem_of_filter).
    exists h'. split; [done|lia].
Qed.

End Watchdog.
