(* ===== verification/P2PTheorems.v ===== *)
(** Facts about the handlers of the p2p node: what they add to the trace of
    calls, and what they never do.

    The properties of the p2p node: what it submits to the chain, whom it
    dials and drops, the fork watchdog, and the blocks it serves. *)

From S2P Require Import Prelude GorpcCodec PeerRpc Storage Keys SkipList BlockStore PeerPolicy P2PNode.
From S2P Require Import PeerPolicyTheorems.
Import BlockStore P2PNode.
Import PeerErrorHandler(ScoreDecay, decay, scores).

(** The blocks submitted to the chain in a trace, accepted or not. *)
Definition submitted (l : list event) : list block :=
  omap (λ e, match e with SubmitBlock b _ => Some b | _ => None end) l.

Lemma submitted_app l1 l2 : submitted (l1 ++ l2) = submitted l1 ++ submitted l2.
Proof. apply omap_app. Qed.

Section Facts.
Context `{Hproto : !Protocol} `{Hdecay : !ScoreDecay}.
Context (env : environment).

(** From [s], the program makes the calls [l] and ends as [Q] says. *)
Definition emits {A} (s : system) (m : N A) (Q : list event → outcome bytes A → system → Prop) : Prop :=
  ∃ l o s', m s = (o, s') ∧ calls s' = calls s ++ l ∧ Q l o s'.

Lemma emits_weaken {A} s (m : N A) Q1 Q2 :
  emits s m Q1 → (∀ l o s', Q1 l o s' → Q2 l o s') → emits s m Q2.
Proof. intros (l & o & s' & Hr & Hc & HQ) H. exists l, o, s'. auto. Qed.

(** What a program that ends with [Q1] leaves for the rest of it. *)
Definition then_ {A B} (k : A → N B) (Q : list event → outcome bytes B → system → Prop)
    (l : list event) (o : outcome bytes A) (s : system) : Prop :=
  match o with
  | Ok a => emits s (k a) (λ l', Q (l ++ l'))
  | Throw e => Q l (Throw e) s
  | OutOfFuel => Q l OutOfFuel s
  end.

Lemma emits_bind {A B} s (m : N A) (k : A → N B) Q :
  emits s m (then_ k Q) → emits s (m ≫= k) Q.
Proof.
  intros (l & o & s' & Hr & Hc & HQ). unfold emits. rewrite run_bind, Hr.
  destruct o as [a|e|]; cbn in HQ.
  - destruct HQ as (l' & o & s2 & Hr2 & Hc2 & HQ). exists (l ++ l'), o, s2.
    rewrite Hr2, Hc2, Hc, app_assoc. done.
  - exists l, (Throw e), s'. done.
  - exists l, OutOfFuel, s'. done.
Qed.

Lemma emits_ret {A} s (a : A) Q : Q [] (Ok a) s → emits s (mret a) Q.
Proof. intros H. exists [], (Ok a), s. by rewrite app_nil_r. Qed.

Lemma emits_catch {A} s (m : N A) (h : bytes → N A) Q :
  emits s m (λ l o s', match o with
                       | Throw e => emits s' (h e) (λ l', Q (l ++ l'))
                       | o => Q l o s'
                       end) →
  emits s (try_catch m h) Q.
Proof.
  intros (l & o & s' & Hr & Hc & HQ). unfold emits, try_catch. rewrite Hr.
  destruct o as [a|e|].
  - exists l, (Ok a), s'. done.
  - destruct HQ as (l' & o & s2 & Hr2 & Hc2 & HQ). exists (l ++ l'), o, s2.
    rewrite Hr2, Hc2, Hc, app_assoc. done.
  - exists l, OutOfFuel, s'. done.
Qed.

Lemma emits_gets {A B} s (f : p2p_node → A) (k : A → N B) Q :
  emits s (k (f (node s))) Q → emits s (gets_node f ≫= k) Q.
Proof. intros H. exact H. Qed.

Lemma emits_mod {B} s (f : p2p_node → p2p_node) (k : unit → N B) Q :
  emits (mk_system (f (node s)) (calls s)) (k tt) Q → emits s (mod_node f ≫= k) Q.
Proof. intros H. exact H. Qed.

Lemma emits_run {A B} s s' a (m : N A) (k : A → N B) Q :
  m s = (Ok a, s') → calls s' = calls s → emits s' (k a) Q → emits s (m ≫= k) Q.
Proof.
  intros Hm Hc (l & o & s2 & Hr & Hc2 & HQ). exists l, o, s2. rewrite run_bind, Hm. by rewrite Hr, Hc2, Hc.
Qed.

(** The state after a call. *)
Definition after (e : event) (s : system) : system :=
  mk_system (interfere env (calls s ++ [e]) (node s)) (calls s ++ [e]).

Lemma emits_call {A} s (ev : bytes + A → event) answer Q :
  (let r := answer (calls s) in
   Q [ev r] (match r with inl w => Throw w | inr a => Ok a end) (after (ev r) s)) →
  emits s (call env ev answer) Q.
Proof.
  intros H. unfold emits, call. cbn in H. unfold after in H.
  destruct (answer (calls s)) as [w|a]; eexists _, _, _; split_and!; try done; by apply H.
Qed.

Lemma emits_call_bind {A B} s (ev : bytes + A → event) answer (k : A → N B) Q :
  (∀ w, answer (calls s) = inl w → Q [ev (inl w)] (Throw w) (after (ev (inl w)) s)) →
  (∀ a, answer (calls s) = inr a →
     emits (after (ev (inr a)) s) (k a) (λ l, Q (ev (inr a) :: l))) →
  emits s (call env ev answer ≫= k) Q.
Proof.
  intros Hl Hr. apply emits_bind, emits_call. cbn.
  destruct (answer (calls s)) as [w|a] eqn:Ha; cbn; [by apply Hl|by apply Hr].
Qed.

(** ** Programs that submit no block *)

Definition silent {A} (m : N A) : Prop := ∀ s, emits s m (λ l _ _, submitted l = []).

Lemma emits_silent {A} s (m : N A) Q :
  silent m → (∀ l o s', submitted l = [] → Q l o s') → emits s m Q.
Proof. intros Hm HQ. eapply emits_weaken; [apply Hm|exact HQ]. Qed.

(** Calls that submit nothing do not count. *)
Lemma emits_skip {A} s (m : N A) l0 (P : list block → Prop) : submitted l0 = [] →
  emits s m (λ l _ _, P (submitted l)) → emits s m (λ l _ _, P (submitted (l0 ++ l))).
Proof.
  intros Hl0 Hm. eapply emits_weaken; [apply Hm|]. intros l o s'. by rewrite submitted_app, Hl0.
Qed.

Lemma emits_silent_bind {A B} s (m : N A) (k : A → N B) (P : list block → Prop) :
  silent m → P [] → (∀ a s, emits s (k a) (λ l _ _, P (submitted l))) →
  emits s (m ≫= k) (λ l _ _, P (submitted l)).
Proof.
  intros Hm HP Hk. apply emits_bind. eapply emits_weaken; [apply Hm|].
  intros l [a|e|] s' Hl; cbn [then_]; [|by rewrite Hl..]. by apply emits_skip.
Qed.

Lemma silent_ret {A} (a : A) : silent (mret a).
Proof. intros s. by apply emits_ret. Qed.

Lemma silent_bind {A B} (m : N A) (k : A → N B) : silent m → (∀ a, silent (k a)) → silent (m ≫= k).
Proof.
  intros Hm Hk s. apply emits_bind. eapply emits_weaken; [apply Hm|].
  intros l [a|e|] s' Hl; cbn; [|done|done]. eapply emits_weaken; [apply Hk|].
  intros l' o s2 Hl'. by rewrite submitted_app, Hl, Hl'.
Qed.

Lemma silent_catch {A} (m : N A) h : silent m → (∀ e, silent (h e)) → silent (try_catch m h).
Proof.
  intros Hm Hk s. apply emits_catch. eapply emits_weaken; [apply Hm|].
  intros l [a|e|] s' Hl; cbn; [done| |done]. eapply emits_weaken; [apply Hk|].
  intros l' o s2 Hl'. by rewrite submitted_app, Hl, Hl'.
Qed.

Lemma silent_gets {A} (f : p2p_node → A) : silent (gets_node f).
Proof. intros s. exists [], (Ok (f (node s))), s. by rewrite app_nil_r. Qed.

Lemma silent_mod f : silent (mod_node f).
Proof. intros s. eexists [], (Ok tt), _. by rewrite app_nil_r. Qed.

Lemma silent_call {A} (ev : bytes + A → event) answer :
  (∀ r, submitted [ev r] = []) → silent (call env ev answer).
Proof. intros H s. apply emits_call. apply H. Qed.

Lemma silent_pure {A} (f : p2p_node → A * p2p_node) :
  silent (λ s, let (a, n) := f (node s) in (Ok a, mk_system n (calls s))).
Proof.
  intros s. destruct (f (node s)) as [a n] eqn:Hf. exists [], (Ok a), (mk_system n (calls s)).
  rewrite Hf, app_nil_r. done.
Qed.

Lemma silent_raise {A} e : silent (A := A) (raise e).
Proof. intros s. exists [], (Throw e), s. by rewrite app_nil_r. Qed.

End Facts.

Create HintDb silent.
#[export] Hint Resolve silent_ret silent_gets silent_mod silent_raise : silent.

(** Go through the structure of a program that submits no block. *)
Ltac silent_step :=
  match goal with
  | |- silent (_ ≫= _) => apply silent_bind; [|intros ?]
  | |- silent (try_catch _ _) => apply silent_catch; [|intros ?]
  | |- silent (call _ _ _) => apply silent_call; intros ?; reflexivity
  | |- silent (match ?x with _ => _ end) => destruct x
  | |- silent (let '(_, _) := ?x in _) => destruct x
  | |- silent _ => solve [eauto with silent]
  end.
Ltac silent := repeat silent_step.

Section Reports.
Context `{Hproto : !Protocol} `{Hdecay : !ScoreDecay}.
Context (env : environment).

Lemma silent_record (peer : PeerID) t score :
  silent (λ s, let (r, sc) := PeerErrorHandler.record_error (_opts (node s)) t (address peer) score
                                (_error_handler (node s)) in
               (Ok r, mk_system (set_scores sc (node s)) (calls s))).
Proof.
  intros s. destruct (PeerErrorHandler.record_error (_opts (node s)) t (address peer) score
    (_error_handler (node s))) as [r sc] eqn:Hr.
  eexists [], (Ok r), _. rewrite Hr, app_nil_r. split_and!; reflexivity.
Qed.

Lemma silent_report peer error score : silent (report_peer_error env peer error score).
Proof.
  unfold report_peer_error, now, disconnect_peer. apply silent_bind; [silent|intros t].
  apply silent_bind; [apply silent_record|intros b]. silent.
Qed.

(** What the watchdog says of a block. *)
Definition watch_result (b : block) (s : system) : bool * ForkWatchdog.fork_watchdog :=
  ForkWatchdog.check (id b) (block_signature b) (header_previous (header_of b))
    (header_height (header_of b)) (_fork_watchdog (node s)).

Lemma run_watch b s :
  watch b s = (Ok (watch_result b s).1, mk_system (set_watchdog (watch_result b s).2 (node s)) (calls s)).
Proof. unfold watch, watch_result. by destruct (ForkWatchdog.check _ _ _ _ _). Qed.

Lemma silent_watch b : silent (watch b).
Proof.
  intros s. eexists [], _, _. rewrite run_watch, app_nil_r. by split_and!.
Qed.

End Reports.
#[export] Hint Resolve silent_report silent_watch : silent.

(** ** What is accepted is remembered

    The ids of the accepted blocks and transactions are in the sets of seen
    ones, as long as other threads do not forget any. *)

Definition seen_sub (n n' : p2p_node) : Prop :=
  _seen_blocks n ⊆ _seen_blocks n' ∧ _seen_transactions n ⊆ _seen_transactions n'.

Definition remembers (s : system) : Prop :=
  (∀ b, SubmitBlock b true ∈ calls s → id b ∈ _seen_blocks (node s)) ∧
  (∀ t, SubmitTransaction t true ∈ calls s → tx_id t ∈ _seen_transactions (node s)).

Definition accepts (e : event) : bool :=
  match e with SubmitBlock _ a | SubmitTransaction _ a => a | _ => false end.

Section Keeps.
Context `{Hproto : !Protocol} `{Hdecay : !ScoreDecay}.
Context (env : environment) (Hgrow : ∀ tr n, seen_sub n (interfere env tr n)).

Definition keeps {A} (m : N A) : Prop := ∀ s, remembers s → remembers (m s).2.

Lemma keeps_ret {A} (a : A) : keeps (mret a).
Proof. by intros s. Qed.

Lemma keeps_raise {A} e : keeps (A := A) (raise e).
Proof. by intros s. Qed.

Lemma keeps_gets {A} (f : p2p_node → A) : keeps (gets_node f).
Proof. by intros s. Qed.

Lemma keeps_bind {A B} (m : N A) (k : A → N B) : keeps m → (∀ a, keeps (k a)) → keeps (m ≫= k).
Proof.
  intros Hm Hk s Hs. rewrite run_bind. specialize (Hm s Hs). destruct (m s) as [[a|e|] s']; [by apply Hk|done..].
Qed.

Lemma keeps_catch {A} (m : N A) h : keeps m → (∀ e, keeps (h e)) → keeps (try_catch m h).
Proof.
  intros Hm Hk s Hs. unfold try_catch. specialize (Hm s Hs). destruct (m s) as [[a|e|] s']; [done|by apply Hk|done].
Qed.

Lemma keeps_mod f : (∀ n, seen_sub n (f n)) → keeps (mod_node f).
Proof.
  intros Hf s [Hb Ht]. destruct (Hf (node s)) as [Hfb Hft]. split; cbn.
  - intros b Hin. by apply Hfb, Hb.
  - intros t Hin. by apply Hft, Ht.
Qed.

Lemma keeps_state {A} (f : system → outcome bytes A * p2p_node) :
  (∀ s, seen_sub (node s) (f s).2) → keeps (λ s, ((f s).1, mk_system (f s).2 (calls s))).
Proof.
  intros Hf s [Hb Ht]. destruct (Hf s) as [Hfb Hft]. split; cbn.
  - intros b Hin. by apply Hfb, Hb.
  - intros t Hin. by apply Hft, Ht.
Qed.

(** A call that is not an accepted submission, and one that is. *)
Lemma call_remembers {A} (ev : bytes + A → event) answer s : remembers s →
  accepts (ev (answer (calls s))) = false → remembers (call env ev answer s).2.
Proof.
  intros [Hb Ht] Hne. destruct (Hgrow (calls s ++ [ev (answer (calls s))]) (node s)) as [Hgb Hgt].
  unfold call. destruct (answer (calls s)) as [w|a]; split; cbn;
    intros x [Hin|Hin%list_elem_of_singleton]%elem_of_app; try (by rewrite <- Hin in Hne);
    (apply Hgb, Hb || apply Hgt, Ht); done.
Qed.

Lemma keeps_call {A} (ev : bytes + A → event) answer :
  (∀ r, accepts (ev r) = false) → keeps (call env ev answer).
Proof. intros He s Hs. by apply call_remembers. Qed.

Lemma keeps_try_submit b : keeps (try_submit env b).
Proof.
  intros s Hs. unfold try_submit, try_catch. rewrite run_bind. unfold submit_block.
  pose proof (call_remembers (λ r, SubmitBlock b (is_ok r)) (λ tr, env_submit_block env tr b) s Hs) as Hcall.
  destruct (Hgrow (calls s ++ [SubmitBlock b (is_ok (env_submit_block env (calls s) b))]) (node s)) as [Hgb Hgt].
  unfold call in *. destruct (env_submit_block env (calls s) b) as [w|[]]; [by apply Hcall|].
  destruct Hs as [Hb Ht]. split; cbn in *.
  - intros b' [Hin|[= ->]%list_elem_of_singleton]%elem_of_app; [|set_solver].
    apply elem_of_union_r. by apply Hgb, Hb.
  - intros t [Hin|Hin%list_elem_of_singleton]%elem_of_app; [|done]. by apply Hgt, Ht.
Qed.

Lemma keeps_submit_transaction t :
  keeps (submit_transaction env t;;
         mod_node (λ n, set_seen (_seen_blocks n) ({[tx_id t]} ∪ _seen_transactions n) n)).
Proof.
  intros s Hs. rewrite run_bind. unfold submit_transaction.
  pose proof (call_remembers (λ r, SubmitTransaction t (is_ok r)) (λ tr, env_submit_transaction env tr t) s Hs) as Hcall.
  destruct (Hgrow (calls s ++ [SubmitTransaction t (is_ok (env_submit_transaction env (calls s) t))]) (node s))
    as [Hgb Hgt].
  unfold call in *. destruct (env_submit_transaction env (calls s) t) as [w|[]]; [by apply Hcall|].
  destruct Hs as [Hb Ht]. split; cbn in *.
  - intros b [Hin|Hin%list_elem_of_singleton]%elem_of_app; [|done]. by apply Hgb, Hb.
  - intros t' [Hin|[= ->]%list_elem_of_singleton]%elem_of_app; [|set_solver].
    apply elem_of_union_r. by apply Hgt, Ht.
Qed.

End Keeps.

Create HintDb keeps.
#[export] Hint Resolve keeps_ret keeps_raise keeps_gets keeps_try_submit keeps_submit_transaction : keeps.

Ltac keeps_step :=
  match goal with
  | |- keeps (try_submit _ _) => by apply keeps_try_submit
  | |- keeps (submit_transaction _ _;; _) => by apply keeps_submit_transaction
  | |- keeps (_ ≫= _) => apply keeps_bind; [|intros ?]
  | |- keeps (try_catch _ _) => apply keeps_catch; [|intros ?]
  | |- keeps (call _ _ _) => apply keeps_call; [done|intros ?; reflexivity]
  | |- keeps (mod_node _) => apply keeps_mod; intros ?; by split
  | |- keeps (match ?x with _ => _ end) => destruct x
  | |- keeps _ => solve [eauto with keeps]
  end.
Ltac keeps := repeat keeps_step.

Section Handlers.
Context `{Hproto : !Protocol} `{Hdecay : !ScoreDecay}.
Context (env : environment) (Hgrow : ∀ tr n, seen_sub n (interfere env tr n)).

Lemma keeps_report peer error score : keeps (report_peer_error env peer error score).
Proof using Hgrow.
  unfold report_peer_error, now, disconnect_peer. apply keeps_bind; [keeps|intros t].
  apply keeps_bind; [|intros []; keeps]. intros s Hs.
  destruct (PeerErrorHandler.record_error (_opts (node s)) t (address peer) score
    (_error_handler (node s))) as [r sc]. exact Hs.
Qed.

Lemma keeps_watch b : keeps (watch b).
Proof.
  intros s Hs. by rewrite run_watch.
Qed.

Lemma keeps_decoded {A} (o : outcome Gorpc.DecodeError A) : keeps (decoded o).
Proof. intros s Hs. by destruct o. Qed.

Lemma keeps_score what : keeps (score_for_error what).
Proof. unfold score_for_error. keeps. Qed.

#[local] Hint Resolve keeps_report keeps_watch keeps_decoded keeps_score : keeps.

Lemma keeps_add_candidate p b : keeps (add_peer_candidate p b).
Proof. apply keeps_mod. intros n. unfold add_candidate. by destruct (negb _). Qed.

Lemma keeps_add_all l : keeps (add_all l).
Proof. induction l; cbn [add_all]; [keeps|]. apply keeps_bind; [apply keeps_add_candidate|done]. Qed.

Lemma keeps_dial l : keeps (dial_peers env l).
Proof using Hgrow. induction l; cbn [dial_peers]; unfold connect_peer; keeps. Qed.

Lemma keeps_seeds l : keeps (dial_seeds env l).
Proof using Hgrow. induction l; cbn [dial_seeds]; unfold connect_peer; keeps. Qed.

Lemma keeps_status l : keeps (gossip_status env l).
Proof using Hgrow. induction l; cbn [gossip_status]; keeps. Qed.

Lemma keeps_payloads l : keeps (block_payloads_of l).
Proof. induction l; cbn [block_payloads_of]; keeps. Qed.

Lemma keeps_checkpoints p ph l : keeps (check_checkpoints env p ph l).
Proof using Hgrow. induction l; cbn [check_checkpoints]; unfold peer_get_ancestor_block_id; keeps. Qed.

Lemma keeps_apply_blocks p h prev l : keeps (apply_blocks env p h prev l).
Proof using Hgrow. revert h prev. induction l; intros h prev; cbn [apply_blocks]; keeps. Qed.

#[local] Hint Resolve keeps_add_all keeps_dial keeps_seeds keeps_status keeps_payloads keeps_checkpoints
  keeps_apply_blocks : keeps.

Lemma keeps_reconnect due : keeps (reconnect_cycle env due).
Proof using Hgrow.
  unfold reconnect_cycle, refresh_known_peer_candidates, run_peer_acquisition_cycle, transport_known_peers,
    transport_peer_count, now. keeps.
  intros s Hs. by destruct (select_peers _ _ _ _ _ _ _).
Qed.

Lemma keeps_rpc service method args : keeps (handle_peer_rpc_request env service method args).
Proof using Hgrow.
  unfold handle_peer_rpc_request, get_chain_id, get_head_info, store_blocks_by_height. keeps.
Qed.

Lemma keeps_sync p synced : keeps (sync_iteration env p synced).
Proof using Hgrow.
  unfold sync_iteration, request_sync_blocks, sync_from, below_threshold, report_exception,
    get_local_block_height, get_local_ancestor_block_id, get_head_info, peer_get_head_block,
    store_blocks_by_id, store_blocks_by_height, peer_get_ancestor_block_id, peer_get_blocks. keeps.
Qed.

Lemma keeps_handshake p : keeps (handshake_iteration env p).
Proof using Hgrow.
  unfold handshake_iteration, peer_handshake, below_threshold, report_exception, peer_get_chain_id,
    peer_get_head_block. keeps.
Qed.

Lemma keeps_gossip_block p b : keeps (on_gossip_block env p b).
Proof using Hgrow. unfold on_gossip_block, get_head_info. keeps. Qed.

Lemma keeps_gossip_transaction p t : keeps (on_gossip_transaction env p t).
Proof using Hgrow. unfold on_gossip_transaction. keeps. Qed.

Lemma keeps_accepted ba : keeps (on_block_accepted env ba).
Proof using Hgrow. unfold on_block_accepted, publish_block. keeps. Qed.

Lemma keeps_irreversible h : keeps (on_block_irreversible h).
Proof. unfold on_block_irreversible. keeps. Qed.

Lemma keeps_gossip_iteration : keeps (gossip_iteration env).
Proof using Hgrow. unfold gossip_iteration, transport_peer_count, now. keeps. Qed.

Lemma keeps_connected p : keeps (on_peer_connected p).
Proof. apply keeps_mod. intros n. by destruct (bool_decide _), (has_dialable_address p). Qed.

Lemma keeps_disconnected p : keeps (on_peer_disconnected p).
Proof. by apply keeps_mod. Qed.

Lemma keeps_start : keeps (start env).
Proof using Hgrow. unfold start, get_chain_id, transport_start. keeps. Qed.

Lemma keeps_stop : keeps (stop env).
Proof using Hgrow. unfold stop, transport_stop. keeps. Qed.

End Handlers.

(** A run of blocks that starts at [height] on top of [previous]: each has
    an id and a header, the heights are consecutive and each block but the
    first names the one before it; the first names [previous] unless that
    is empty. *)
Fixpoint chain_from (height : Z) (previous : bytes) (blocks : list block) : Prop :=
  match blocks with
  | [] => True
  | b :: blocks =>
    id b ≠ [] ∧ is_Some (header b) ∧ header_height (header_of b) = height ∧
    (previous ≠ [] → header_previous (header_of b) = previous) ∧
    chain_from (u64 (height + 1)) (id b) blocks
  end.

Section Sync.
Context `{Hproto : !Protocol} `{Hdecay : !ScoreDecay}.
Context (env : environment).

Lemma try_submit_emits b s : emits s (try_submit env b) (λ l o _, submitted l = [b] ∧ ∃ r, o = Ok r).
Proof.
  apply emits_catch, emits_bind, emits_call. cbn.
  destruct (env_submit_block env (calls s) b) as [w|[]]; cbn.
  - apply emits_ret. split; [done|]. by eexists.
  - apply emits_mod, emits_ret. split; [done|]. by eexists.
Qed.

(** The submissions of a run are a chain and a prefix of the blocks. *)
Definition submits_chain {A} (h : Z) (prev : bytes) (blocks : list block)
    (l : list event) (_ : outcome bytes A) (_ : system) : Prop :=
  chain_from h prev (submitted l) ∧ submitted l `prefix_of` blocks.

Lemma chain_silent {A} h prev blocks (m : N A) s : silent m → emits s m (submits_chain h prev blocks).
Proof.
  intros Hm. eapply emits_weaken; [apply Hm|]. intros l o s' Hl. unfold submits_chain. rewrite Hl.
  split; [done|apply prefix_nil].
Qed.

(** After calls that submit nothing, and after the submission of a block
    that continues the chain. *)
Lemma chain_skip {A} h prev blocks (m : N A) s l0 : submitted l0 = [] →
  emits s m (submits_chain h prev blocks) → emits s m (λ l, submits_chain h prev blocks (l0 ++ l)).
Proof.
  intros Hl0 Hm. eapply emits_weaken; [apply Hm|]. intros l o s'. unfold submits_chain.
  by rewrite submitted_app, Hl0.
Qed.

Lemma chain_cons {A} h prev b blocks (m : N A) s l0 : submitted l0 = [b] →
  id b ≠ [] → is_Some (header b) → header_height (header_of b) = h →
  bool_decide (prev ≠ []) && bool_decide (header_previous (header_of b) ≠ prev) = false →
  emits s m (submits_chain (u64 (h + 1)) (id b) blocks) →
  emits s m (λ l, submits_chain h prev (b :: blocks) (l0 ++ l)).
Proof.
  intros Hl0 Hid Hhd Hh Hprev Hm. eapply emits_weaken; [apply Hm|]. intros l o s' [Hc Hp].
  unfold submits_chain. rewrite submitted_app, Hl0. split; [|by apply prefix_cons].
  cbn. split_and!; [done..| |done]. intros Hne. apply andb_false_iff in Hprev as [Hp1|Hp1].
  - by apply bool_decide_eq_false in Hp1.
  - by apply bool_decide_eq_false, dec_stable in Hp1.
Qed.

Lemma apply_blocks_emits peer blocks h prev s :
  emits s (apply_blocks env peer h prev blocks) (submits_chain h prev blocks).
Proof.
  revert h prev s. induction blocks as [|b blocks IH]; intros h prev s; cbn [apply_blocks].
  { apply chain_silent. silent. }
  apply emits_gets. destruct (_running (node s)); cbn [negb]; [|apply chain_silent; silent].
  destruct (negb (bool_decide (is_Some (header b))) || _ || _) eqn:Hseq; [apply chain_silent; silent|].
  apply orb_false_elim in Hseq as [[Hhd%negb_false_iff%bool_decide_eq_true Hid%bool_decide_eq_false]%orb_false_elim
    Hh%negb_false_iff%Z.eqb_eq].
  destruct (bool_decide (prev ≠ []) && _) eqn:Hprev; [apply chain_silent; silent|].
  apply emits_bind. eapply emits_weaken; [apply silent_watch|]. intros l0 [bomb|e|] s1 Hl0; cbn [then_];
    [|by split; rewrite Hl0; [|apply prefix_nil]..].
  apply chain_skip; [done|]. destruct bomb; [apply chain_silent; silent|].
  apply emits_bind. eapply emits_weaken; [apply try_submit_emits|]. intros l1 o s2 [Hl1 [failure ->]].
  cbn [then_]. apply chain_cons; [done..|].
  destruct failure as [what|]; [|apply IH].
  destruct (is_irreversibility_error what); [apply IH|].
  destruct (is_local_state_merkle_mismatch what); apply chain_silent; silent.
Qed.

(** What one round of synchronization may submit, given the answers it got. *)
Definition sync_submissions (tr0 : trace) (peer : PeerID) (bs : list block) : Prop :=
  ∃ hi ph anchor blocks,
    let lib := Z.min (last_irreversible_block hi) (head_height hi) in
    env_head_info env tr0 = inr hi ∧ (∃ tr, env_peer_head env tr peer = inr ph) ∧ lib < peer_height ph ∧
    (if 0 <? lib then
       anchor ≠ [] ∧
       (∃ tr item, env_blocks_by_height env tr
                     (mk_get_blocks_by_height_request (head_id hi) lib 1 false false) = inr [item] ∧
                   item_id item = anchor) ∧
       (∃ tr, env_peer_ancestor env tr peer (peer_block_id ph) lib = inr anchor)
     else anchor = []) ∧
    (∃ tr count, env_peer_blocks env tr peer (peer_block_id ph) (u64 (lib + 1)) count = inr blocks) ∧
    chain_from (u64 (lib + 1)) anchor bs ∧ bs `prefix_of` blocks.

(** What the submissions of [sync_from] satisfy. *)
Definition sent_chain (peer : PeerID) (ph : PeerHeadInfo) (lib : Z) (anchor : bytes) (bs : list block) : Prop :=
  bs = [] ∨ ∃ blocks,
    (∃ tr count, env_peer_blocks env tr peer (peer_block_id ph) (u64 (lib + 1)) count = inr blocks) ∧
    chain_from (u64 (lib + 1)) anchor bs ∧ bs `prefix_of` blocks.

Lemma sync_from_emits peer ph lib anchor synced s :
  emits s (sync_from env peer ph lib anchor synced) (λ l _ _, sent_chain peer ph lib anchor (submitted l)).
Proof.
  apply emits_gets, emits_call_bind; [by left|]. intros blocks Hblocks.
  change (emits (after env (PeerGetBlocks peer (peer_block_id ph) (u64 (lib + 1))
      (u32 (Z.min (block_request_batch_size (_opts (node s))) (u64 (peer_height ph - lib))))) s)
    (match last blocks with
     | Some back =>
       applied ← apply_blocks env peer (u64 (lib + 1)) anchor blocks;
       if negb applied then mret (false, synced)
       else mret (true, u64 (peer_height ph - header_height (header_of back)) <? synced_block_delta (_opts (node s)))
     | None => mret (true, synced)
     end) (λ l _ _, sent_chain peer ph lib anchor (submitted l))).
  destruct (last blocks) as [back|]; [|apply emits_ret; by left].
  apply emits_bind. eapply emits_weaken; [apply apply_blocks_emits|]. intros l o s' [Hc Hp].
  assert (sent_chain peer ph lib anchor (submitted l)) as Hl by (right; exists blocks; eauto).
  destruct o as [[]|e|]; cbn [then_ negb]; [apply emits_ret; by rewrite app_nil_r..|done|done].
Qed.

Lemma local_height_silent i : silent (get_local_block_height env i).
Proof. unfold get_local_block_height, store_blocks_by_id. silent. Qed.

Lemma local_ancestor_emits i h s :
  emits s (get_local_ancestor_block_id env i h) (λ l o _, submitted l = [] ∧
    ∀ a, o = Ok a → a ≠ [] → ∃ tr item,
      env_blocks_by_height env tr (mk_get_blocks_by_height_request i h 1 false false) = inr [item] ∧
      item_id item = a).
Proof.
  apply emits_gets. destruct (_ || _); [apply emits_ret; split; [done|congruence]|].
  apply emits_call_bind; [done|]. intros items Hitems.
  destruct items as [|item [|]]; apply emits_ret; (split; [done|]); intros a [= <-] Hne; [done|eauto|done].
Qed.

(** C15. Whatever the peer answers, the blocks that one round of
    synchronization submits to the chain are a chain: the first is one above
    the local irreversible block and on top of it, when there is one, every
    next is one higher and on top of the one before, and all were sent by
    the peer for that range; and the peer has confirmed the local
    irreversible block as an ancestor of its head. *)
Theorem sync_submits_linked_chain peer synced s :
  ∃ l o s', request_sync_blocks env peer synced s = (o, s') ∧ calls s' = calls s ++ l ∧
    (submitted l = [] ∨ sync_submissions (calls s) peer (submitted l)).
Proof.
  set (P := λ bs, bs = [] ∨ sync_submissions (calls s) peer bs).
  enough (emits s (request_sync_blocks env peer synced) (λ l _ _, P (submitted l))) as H by exact H.
  assert (P []) as HP by (by left).
  apply emits_gets, emits_gets. destruct (_ || _); [by apply emits_ret|].
  apply emits_call_bind; [done|]. intros hi Hhi. cbn zeta. set (lib := Z.min _ _).
  apply emits_call_bind; [done|]. intros ph Hph.
  apply (emits_skip _ _ [GetHeadInfo; PeerGetHeadBlock peer] P); [done|].
  destruct (Z.leb_spec (peer_height ph) lib) as [Hle|Hlt]; [by apply emits_ret|].
  apply emits_silent_bind; [apply local_height_silent|done|]. intros known s1.
  destruct (negb (default 0 known =? 0)); [by apply emits_ret|].
  assert (∀ anchor s2,
    (if 0 <? lib then anchor ≠ [] ∧
       (∃ tr item, env_blocks_by_height env tr
                     (mk_get_blocks_by_height_request (head_id hi) lib 1 false false) = inr [item] ∧
                   item_id item = anchor) ∧
       (∃ tr, env_peer_ancestor env tr peer (peer_block_id ph) lib = inr anchor)
     else anchor = []) →
    emits s2 (sync_from env peer ph lib anchor synced) (λ l _ _, P (submitted l))) as Hgo.
  { intros anchor s2 Hanchor. eapply emits_weaken; [apply sync_from_emits|].
    intros l o s' [Hl|(blocks & Hb & Hc & Hp)]; [by left|right]. exists hi, ph, anchor, blocks.
    split_and!; eauto. }
  destruct (0 <? lib) eqn:Hlib; [|by apply Hgo].
  apply emits_bind. eapply emits_weaken; [apply local_ancestor_emits|].
  intros l2 [anchor|e|] s2 [Hl2 Hanchor]; cbn [then_]; [|by rewrite Hl2..].
  apply emits_skip; [done|]. destruct (bool_decide (anchor = [])) eqn:Hne; [by apply emits_ret|].
  apply bool_decide_eq_false in Hne. specialize (Hanchor _ eq_refl Hne).
  apply emits_call_bind; [done|]. intros anc Hanc.
  apply (emits_skip _ _ [PeerGetAncestor peer (peer_block_id ph) lib] P); [done|].
  destruct (bool_decide (anc ≠ anchor)) eqn:Heq.
  { apply emits_silent; [silent|]. by intros l o s' ->. }
  apply bool_decide_eq_false, dec_stable in Heq as ->. apply Hgo. eauto.
Qed.

End Sync.

(** ** Gossip *)

Section Gossip.
Context `{Hproto : !Protocol} `{Hdecay : !ScoreDecay}.

(** One handler of the node runs, with whatever the other threads do during
    its calls. *)
Inductive node_step (env : environment) : system → system → Prop :=
| step_gossip_block p b s : node_step env s (on_gossip_block env p b s).2
| step_gossip_transaction p t s : node_step env s (on_gossip_transaction env p t s).2
| step_sync p synced s : node_step env s (sync_iteration env p synced s).2
| step_handshake p s : node_step env s (handshake_iteration env p s).2
| step_rpc service method args s : node_step env s (handle_peer_rpc_request env service method args s).2
| step_connected p s : node_step env s (on_peer_connected p s).2
| step_disconnected p s : node_step env s (on_peer_disconnected p s).2
| step_accepted ba s : node_step env s (on_block_accepted env ba s).2
| step_irreversible h s : node_step env s (on_block_irreversible h s).2
| step_gossip_switch s : node_step env s (gossip_iteration env s).2
| step_reconnect due s : node_step env s (reconnect_cycle env due s).2
| step_start s : node_step env s (start env s).2
| step_stop s : node_step env s (stop env s).2.

Lemma step_remembers env s s' : (∀ tr n, seen_sub n (interfere env tr n)) →
  node_step env s s' → remembers s → remembers s'.
Proof.
  intros Hgrow Hstep Hs. destruct Hstep.
  - by apply keeps_gossip_block.
  - by apply keeps_gossip_transaction.
  - by apply keeps_sync.
  - by apply keeps_handshake.
  - by apply keeps_rpc.
  - by apply keeps_connected.
  - by apply keeps_disconnected.
  - by apply keeps_accepted.
  - by apply keeps_irreversible.
  - by apply keeps_gossip_iteration.
  - by apply keeps_reconnect.
  - by apply keeps_start.
  - by apply keeps_stop.
Qed.

Lemma steps_remember env s s' : (∀ tr n, seen_sub n (interfere env tr n)) →
  rtc (node_step env) s s' → remembers s → remembers s'.
Proof. intros Hgrow. induction 1; [done|]. intros Hs. eauto using step_remembers. Qed.

Lemma remembers_start s : calls s = [] → remembers s.
Proof. intros Hc. unfold remembers. rewrite Hc. by split; intros x Hx%elem_of_nil. Qed.

(** The gate of the gossip handler. *)
Definition gossip_admits (env : environment) (s : system) (b : block) : Prop :=
  id b ≠ [] ∧ is_Some (header b) ∧ _lib_height (node s) < header_height (header_of b) ∧
  (id b ∉ _seen_blocks (node s)) ∧
  (watch_result b s).1 = false ∧
  (∀ hi, env_head_info env (calls s) = inr hi → is_u64 (head_height hi) →
     is_u64 (header_height (header_of b)) → header_height (header_of b) ≤ head_height hi + 1).

Lemma gossip_block_emits env from b s :
  emits s (on_gossip_block env from b) (λ l _ _,
    submitted l = [] ∨ (submitted l = [b] ∧ gossip_admits env s b)).
Proof.
  set (P := λ bs, bs = [] ∨ (bs = [b] ∧ gossip_admits env s b)).
  change (emits s (on_gossip_block env from b) (λ l _ _, P (submitted l))).
  assert (P []) as HP by (by left).
  assert (∀ (m : N unit) s0, silent m → emits s0 m (λ l _ _, P (submitted l))) as Hquiet.
  { intros m s0 Hm. apply emits_silent; [done|]. by intros l o s' ->. }
  unfold on_gossip_block. destruct (bool_decide (id b = []) || _) eqn:Hvalid; [apply Hquiet; silent|].
  apply orb_false_elim in Hvalid as [Hid%bool_decide_eq_false Hhd%negb_false_iff%bool_decide_eq_true].
  eapply emits_run; [apply run_watch|done|]. set (s1 := mk_system _ _).
  destruct (watch_result b s).1 eqn:Hbomb; [apply Hquiet; silent|].
  apply emits_gets. change (_lib_height (node s1)) with (_lib_height (node s)).
  destruct (Z.leb_spec (header_height (header_of b)) (_lib_height (node s))) as [|Hlib]; [apply Hquiet; silent|].
  apply emits_gets. change (_seen_blocks (node s1)) with (_seen_blocks (node s)).
  destruct (bool_decide (id b ∈ _)) eqn:Hseen; [apply Hquiet; silent|]. apply bool_decide_eq_false in Hseen.
  apply emits_gets. destruct (negb _); [apply Hquiet; silent|].
  set (fut := λ hi, (head_height hi <? header_height (header_of b))
                    && (1 <? u64 (header_height (header_of b) - head_height hi))).
  apply emits_bind.
  apply (emits_weaken s1 _ (λ l o _, submitted l = [] ∧ ∃ f, o = Ok f ∧
    (f = false → ∀ hi, env_head_info env (calls s) = inr hi → fut hi = false))).
  { apply emits_catch, emits_bind, emits_call. cbn. fold s1.
    destruct (env_head_info env (calls s)) as [w|hi]; apply emits_ret; (split; [done|]); eexists;
      (split; [done|]); [done|]. by intros Hf hi' [= <-]. }
  intros l o s2 (Hl & future & -> & Hf). cbn [then_]. apply (emits_skip _ _ l P); [done|].
  destruct future; [apply Hquiet; silent|].
  apply emits_bind. eapply emits_weaken; [apply try_submit_emits|]. intros l1 o s3 [Hl1 [failure ->]].
  cbn [then_]. assert (P [b]) as HPb.
  { right. split; [done|]. split_and!; try done. intros hi Hhi Hu1 Hu2. specialize (Hf eq_refl hi Hhi).
    unfold fut, is_u64 in *. apply andb_false_iff in Hf as [?%Z.ltb_ge|Hu%Z.ltb_ge]; [lia|].
    destruct (Z.le_gt_cases (header_height (header_of b)) (head_height hi)); [lia|].
    unfold u64 in Hu. rewrite wrap_small in Hu; lia. }
  assert (∀ m : N unit, silent m → emits s3 m (λ l' _ _, P (submitted (l1 ++ l')))) as Hend.
  { intros m Hm. apply emits_silent; [done|]. intros l' _ _ Hl'. by rewrite submitted_app, Hl1, Hl'. }
  destruct failure; apply Hend; silent.
Qed.

(** C32. A gossiped block is submitted to the chain at most once per message,
    and only if it has an id and a header, lies above the irreversible
    block, is at most one above the local head, where the chain tells its
    head (the gate is passed where it throws), is not reported by the fork
    watchdog (which as it is called reports nothing) and was not accepted
    before: whatever ran on the node before, and whatever the other threads
    do, as long as they forget no block they saw. *)
Theorem gossip_submits_once env s0 s from b :
  (∀ tr n, seen_sub n (interfere env tr n)) → calls s0 = [] → rtc (node_step env) s0 s →
  ∃ l o s', on_gossip_block env from b s = (o, s') ∧ calls s' = calls s ++ l ∧
    (submitted l = [] ∨
     (submitted l = [b] ∧ gossip_admits env s b ∧
      ∀ b', SubmitBlock b' true ∈ calls s → id b' ≠ id b)).
Proof.
  intros Hgrow Hs0 Hsteps.
  pose proof (steps_remember env s0 s Hgrow Hsteps (remembers_start s0 Hs0)) as [Hb _].
  destruct (gossip_block_emits env from b s) as (l & o & s' & Hrun & Hc & Hl).
  exists l, o, s'. split_and!; [done|done|]. destruct Hl as [Hl|[Hl Hadmit]]; [by left|right].
  split_and!; [done|done|]. intros b' Hin Heq. apply Hb in Hin. rewrite Heq in Hin. by apply Hadmit.
Qed.

End Gossip.

(** ** Misbehaving peers *)

Section Misbehaviour.
Context `{Hproto : !Protocol} `{Hdecay : !ScoreDecay} `{!PeerErrorHandler.ScoreDecayLaws}.

(** The score of a peer that was not recorded in the future and does not
    overflow with [points] more. *)
Definition score_ok (s : system) (addr : bytes) (t points : Z) : Prop :=
  ∀ r, _error_handler (node s) !! addr = Some r →
    0 ≤ PeerErrorHandler.score r ∧ PeerErrorHandler.last_update r ≤ t ∧
    PeerErrorHandler.score r + points < 2 ^ 64.

Lemma record_error_reaches opts t addr points sc :
  0 < error_score_halflife opts → 0 ≤ points < 2 ^ 64 →
  (∀ r, sc !! addr = Some r → 0 ≤ PeerErrorHandler.score r ∧ PeerErrorHandler.last_update r ≤ t ∧
     PeerErrorHandler.score r + points < 2 ^ 64) →
  ∃ total, PeerErrorHandler.record_error opts t addr points sc
      = (error_score_disconnect_threshold opts <=? total,
         <[addr := PeerErrorHandler.mk_ScoreRecord total t]> sc) ∧
    points ≤ total ≤ PeerErrorHandler.get_score addr sc + points.
Proof.
  intros Hh Hp Hsc. unfold PeerErrorHandler.record_error.
  set (r := default _ _). eexists. split; [reflexivity|].
  assert (0 ≤ PeerErrorHandler.decayed opts t r ≤ PeerErrorHandler.get_score addr sc ∧
          PeerErrorHandler.get_score addr sc + points < 2 ^ 64) as [Hd Hlt].
  { unfold PeerErrorHandler.get_score, r, PeerErrorHandler.decayed. destruct (sc !! addr) as [r0|] eqn:Hr; cbn [default].
    - unfold Datatypes.id in *. destruct (Hsc _ eq_refl) as (H0 & Ht & Hl). split; [|done].
      destruct (Z.ltb_spec 0 (PeerErrorHandler.score r0)); [|lia].
      apply PeerErrorHandler.decay_range; [done| |done]. unfold seconds_of. apply Z.quot_pos; lia.
    - cbn. lia. }
  unfold u64. rewrite wrap_small by lia. lia.
Qed.

(** A peer that gossips a fork bomb, more than three blocks of one
    signer on one parent, is disconnected, its block is not submitted, and
    it is not allowed to connect again. *)
Theorem fork_bomb_disconnects env from b s :
  (∀ tr n, _opts (interfere env tr n) = _opts n ∧ _error_handler (interfere env tr n) = _error_handler n) →
  id b ≠ [] → is_Some (header b) → (watch_result b s).1 = true →
  let opts := _opts (node s) in
  0 < error_score_halflife opts → 0 ≤ score_fork_bomb opts < 2 ^ 64 →
  error_score_disconnect_threshold opts ≤ score_fork_bomb opts →
  error_score_reconnect_threshold opts ≤ error_score_disconnect_threshold opts →
  score_ok s (address from) (env_clock env (calls s)) (score_fork_bomb opts) →
  ∃ s', on_gossip_block env from b s = (Ok tt, s') ∧ calls s' = calls s ++ [ReadClock; DisconnectPeer from] ∧
    PeerErrorHandler.can_connect (_opts (node s')) (address from) (_error_handler (node s')) = false.
Proof.
  intros Henv Hid Hhd Hbomb opts Hhalf Hfb Hdis Hrec Hok. unfold on_gossip_block.
  rewrite bool_decide_eq_false_2, bool_decide_eq_true_2 by done. cbn [orb negb].
  rewrite run_bind, run_watch, Hbomb, run_bind. cbn [gets_node gets_state node].
  unfold report_peer_error, now. rewrite run_bind, run_bind. unfold call at 1. cbn [calls node].
  rewrite run_bind. set (n1 := interfere env _ _). cbn [node calls].
  destruct (Henv (calls s ++ [ReadClock]) (set_watchdog (watch_result b s).2 (node s))) as [Ho Hs].
  fold n1 in Ho, Hs. cbn in Ho, Hs.
  destruct (record_error_reaches (_opts n1) (env_clock env (calls s)) (address from)
    (score_fork_bomb opts) (_error_handler n1)) as (total & Heq & Hge & _).
  { by rewrite Ho. }
  { done. }
  { intros r Hr. rewrite Hs in Hr. by apply Hok. }
  change (score_fork_bomb (_opts (set_watchdog (watch_result b s).2 (node s)))) with (score_fork_bomb opts).
  rewrite Heq, Ho. rewrite (proj2 (Z.leb_le _ _)) by (fold opts; lia).
  rewrite run_bind. unfold disconnect_peer, call. cbn [calls node].
  eexists. split; [reflexivity|]. split; [by rewrite <- app_assoc|]. cbn [node].
  set (n2 := set_scores _ n1).
  destruct (Henv ((calls s ++ [ReadClock]) ++ [DisconnectPeer from]) n2) as [Ho2 Hs2].
  rewrite Ho2, Hs2. unfold PeerErrorHandler.can_connect, n2. cbn. rewrite lookup_insert_eq, Ho.
  apply Z.ltb_ge. cbn. fold opts. lia.
Qed.

End Misbehaviour.

(** ** Dialing *)

Section Dialing.
Context `{Hproto : !Protocol} `{Hdecay : !ScoreDecay}.

(** The peers dialed in a trace. *)
Definition dialed (l : list event) : list PeerID :=
  omap (λ e, match e with ConnectPeer p => Some p | _ => None end) l.

(** A candidate that may be dialed at time [t]. *)
Definition eligible (n : p2p_node) (t : Z) (i : bytes) (cand : PeerCandidate) : Prop :=
  seed cand = false ∧ (i ∉ _peers n) ∧
  PeerErrorHandler.can_connect (_opts n) (address (candidate_peer cand)) (_error_handler n) = true ∧
  (0 < attempts cand → candidate_redial_interval (_opts n) * 10 ^ 9 ≤ t - last_dial cand).

(** A candidate once it was picked. *)
Definition marked (t : Z) (cand : PeerCandidate) : PeerCandidate :=
  mk_PeerCandidate (candidate_peer cand) (seed cand) (u32 (attempts cand + 1)) t.

(** What the selection loop does: it picks some of the ids, all eligible,
    and marks exactly those. *)
Definition picks (n : p2p_node) (t : Z) (ids : list bytes) (c : gmap bytes PeerCandidate)
    (picked : list bytes) (cands : list PeerCandidate) (c' : gmap bytes PeerCandidate) : Prop :=
  picked `sublist_of` ids ∧
  Forall2 (λ i cand, c !! i = Some cand ∧ eligible n t i cand) picked cands ∧
  ∀ i, c' !! i = if decide (i ∈ picked) then marked t <$> c !! i else c !! i.

Lemma picks_none n t ids c : picks n t ids c [] [] c.
Proof. split_and!; [apply sublist_nil_l|constructor|]. intros i. by rewrite decide_False by apply not_elem_of_nil. Qed.

Lemma select_peers_spec n wanted max_dials t ids to_dial c : NoDup ids →
  ∃ picked cands,
    (select_peers n wanted max_dials t ids to_dial c).1 = to_dial ++ (candidate_peer <$> cands) ∧
    picks n t ids c picked cands (select_peers n wanted max_dials t ids to_dial c).2 ∧
    (cands = [] ∨ Z.of_nat (length to_dial + length cands) ≤ Z.min wanted max_dials).
Proof.
  intros Hnd. revert to_dial c. induction Hnd as [|i ids Hi Hnd IH]; intros to_dial c; cbn [select_peers].
  { exists [], []. cbn [fst snd]. rewrite app_nil_r. split_and!; [done|apply picks_none|by left]. }
  assert (∃ picked cands, (to_dial, c).1 = to_dial ++ (candidate_peer <$> cands) ∧
    picks n t (i :: ids) c picked cands (to_dial, c).2 ∧
    (cands = [] ∨ Z.of_nat (length to_dial + length cands) ≤ Z.min wanted max_dials)) as Hstop.
  { exists [], []. cbn [fst snd]. rewrite app_nil_r. split_and!; [done|apply picks_none|by left]. }
  assert (∃ picked cands,
    (select_peers n wanted max_dials t ids to_dial c).1 = to_dial ++ (candidate_peer <$> cands) ∧
    picks n t (i :: ids) c picked cands (select_peers n wanted max_dials t ids to_dial c).2 ∧
    (cands = [] ∨ Z.of_nat (length to_dial + length cands) ≤ Z.min wanted max_dials)) as Hskip.
  { destruct (IH to_dial c) as (picked & cands & H1 & (H2 & H3) & H4). exists picked, cands.
    split_and!; [done| |done]. split; [by apply sublist_cons|done]. }
  destruct (_ || _) eqn:Hfull; [done|]. apply orb_false_elim in Hfull as [Hw%Z.leb_gt Hm%Z.leb_gt].
  destruct (c !! i) as [cand|] eqn:Hc; [|done].
  destruct (seed cand || _) eqn:Hseed; [done|]. apply orb_false_elim in Hseed as [Hseed Hpeer%bool_decide_eq_false].
  destruct (negb _) eqn:Hcan; [done|]. apply negb_false_iff in Hcan.
  destruct (_ && _) eqn:Hredial; [done|].
  destruct (IH (to_dial ++ [candidate_peer cand]) (<[i := marked t cand]> c))
    as (picked & cands & H1 & (Hsub & Hall & Hmap) & H4).
  assert (i ∉ picked) as Hnp by (intros Hin; apply Hi; by eapply sublist_subseteq).
  exists (i :: picked), (cand :: cands). split_and!.
  - etrans; [exact H1|]. by rewrite <- app_assoc.
  - split_and!; [by apply sublist_skip| |].
    + constructor.
      * split; [done|]. split_and!; [done..|]. intros Ha. apply andb_false_iff in Hredial as [?%Z.ltb_ge|?%Z.ltb_ge]; lia.
      * apply Forall2_same_length_lookup in Hall as [Hlen Hall]. apply Forall2_same_length_lookup. split; [done|].
        intros k j cd Hj Hcd. destruct (Hall k j cd Hj Hcd) as [Hl He].
        rewrite lookup_insert_ne in Hl; [done|]. intros <-. apply Hnp. by eapply list_elem_of_lookup_2.
    + intros j. rewrite Hmap. destruct (decide (j ∈ picked)) as [Hin|Hin].
      * rewrite decide_True by (by right). by rewrite lookup_insert_ne by (by intros <-).
      * destruct (decide (j = i)) as [->|Hne].
        { rewrite decide_True, Hc by left. by rewrite lookup_insert_eq. }
        rewrite decide_False; [by rewrite lookup_insert_ne|]. by intros [?|?]%elem_of_cons.
  - right. destruct H4 as [->|H4]; [cbn; lia|]. rewrite length_app in H4. cbn in *. lia.
Qed.

Lemma dial_peers_run env peers s :
  (∀ tr n, interfere env tr n = n) →
  ∃ l, dial_peers env peers s = (Ok tt, mk_system (node s) (calls s ++ l)) ∧
    dialed l = if _running (node s) then peers else [].
Proof.
  intros Hq. revert s. induction peers as [|p peers IH]; intros s; cbn [dial_peers].
  { exists []. rewrite app_nil_r. destruct s. by destruct _running. }
  rewrite run_bind. cbn [gets_node gets_state]. destruct (_running (node s)) eqn:Hr; cycle 1.
  { exists []. rewrite app_nil_r. by destruct s. }
  rewrite run_bind. unfold try_catch, connect_peer, call.
  destruct (IH (mk_system (node s) (calls s ++ [ConnectPeer p]))) as (l & Hrun & Hd). cbn [node calls] in *.
  exists (ConnectPeer p :: l). split; [|change (p :: dialed l = p :: peers); by rewrite Hd, Hr].
  rewrite Hq. replace (calls s ++ ConnectPeer p :: l) with ((calls s ++ [ConnectPeer p]) ++ l)
    by (by rewrite <- app_assoc).
  by destruct (env_connect env (calls s) p) as [w|[]].
Qed.

(** One acquisition cycle dials at most as many peers as are missing to
    the target and at most the configured number, all different known
    candidates that are no seeds, are not connected, are not blocked by
    their error score and were not dialed within the redial interval; it
    marks exactly those as dialed now. *)
Theorem acquisition_bounded env s :
  (∀ tr n, interfere env tr n = n) → _running (node s) = true →
  let opts := _opts (node s) in
  let connected := env_peer_count env (calls s) in
  let t := env_clock env (calls s ++ [ConnectedPeerCount]) in
  0 ≤ connected → is_u32 (target_peer_count opts) →
  ∃ l s' picked cands, run_peer_acquisition_cycle env s = (Ok tt, s') ∧ calls s' = calls s ++ l ∧
    dialed l = candidate_peer <$> cands ∧ NoDup picked ∧
    picks (node s) t (map_keys (_peer_candidates (node s))) (_peer_candidates (node s)) picked cands
      (_peer_candidates (node s')) ∧
    Z.of_nat (length cands) ≤ Z.max 0 (target_peer_count opts - connected) ∧
    Z.of_nat (length cands) ≤ Z.max 1 (max_candidate_dials_per_cycle opts).
Proof.
  intros Hq Hrun opts connected t Hcon Htarget. unfold run_peer_acquisition_cycle.
  rewrite run_bind. cbn [gets_node gets_state]. fold opts.
  destruct (negb _ || _) eqn:Hoff.
  { exists [], s, [], []. rewrite app_nil_r. split_and!; try done; [constructor|apply picks_none|cbn; lia..]. }
  rewrite run_bind. unfold transport_peer_count, call at 1. fold connected. rewrite Hq.
  destruct (Z.leb_spec (target_peer_count opts) connected) as [Hle|Hlt].
  { exists [ConnectedPeerCount], (mk_system (node s) (calls s ++ [ConnectedPeerCount])), [], [].
    split_and!; try done; [constructor|apply picks_none|cbn; lia..]. }
  rewrite run_bind. unfold now, call at 1. cbn [node calls]. rewrite Hq, run_bind.
  fold t. cbn [node calls].
  destruct (select_peers_spec (node s) (u32 (target_peer_count opts - connected))
    (Z.max 1 (max_candidate_dials_per_cycle opts)) t (map_keys (_peer_candidates (node s))) []
    (_peer_candidates (node s)) (map_keys_NoDup _)) as (picked & cands & H1 & H2 & H3).
  destruct (select_peers _ _ _ _ _ _ _) as [to_dial c']. cbn [fst snd app] in H1, H2. subst to_dial.
  destruct (dial_peers_run env (candidate_peer <$> cands)
    (mk_system (set_candidates c' (node s)) ((calls s ++ [ConnectedPeerCount]) ++ [ReadClock])) Hq)
    as (l & Hl & Hd). cbn [node calls] in Hl, Hd. change (_running (set_candidates c' (node s))) with (_running (node s)) in Hd.
  rewrite Hrun in Hd. rewrite Hl.
  eexists (ConnectedPeerCount :: ReadClock :: l), _, picked, cands. split_and!; [done| |done| |exact H2|..].
  - cbn. by rewrite <- !app_assoc.
  - destruct H2 as [Hsub _]. exact (sublist_NoDup _ _ (map_keys_NoDup _) Hsub).
  - destruct H3 as [->|H3]; [cbn; lia|]. cbn [length Nat.add] in H3. unfold u32 in H3.
    unfold is_u32 in Htarget. rewrite wrap_small in H3 by lia. lia.
  - destruct H3 as [->|H3]; [cbn; lia|]. cbn [length Nat.add] in H3. lia.
Qed.

End Dialing.

(** ** What the node tells its watchdog

    The node passes a block's signature where the watchdog expects the
    signer. *)

Section Signatures.
Context `{Hproto : !Protocol}.

(** The watchdog's calls for a sequence of blocks seen and heights made
    irreversible. *)
Definition watchdog_op (e : block + Z) : op :=
  match e with
  | inl b => Check (id b) (block_signature b) (header_previous (header_of b)) (header_height (header_of b))
  | inr h => PurgeBelow h
  end.

Lemma watched_ids key l st i :
  i ∈ (foldl (spec_op key) st (watchdog_op <$> l)).1 →
  i ∈ st.1 ∨ ∃ b, inl b ∈ l ∧ block_signature b = key.1 ∧ id b = i.
Proof.
  revert st. induction l as [|e l IH]; intros st Hin; [by left|].
  apply IH in Hin as [Hin|(b & Hb & Hs & Hi)]; [|right; exists b; split_and!; [by right|done|done]].
  destruct e as [b|h]; cbn [watchdog_op spec_op] in Hin.
  - destruct (decide _) as [<-|_]; [|by left]. cbn [fst] in Hin.
    apply elem_of_union in Hin as [->%elem_of_singleton|]; [right|by left]. exists b. split_and!; [by left|done|done].
  - cbn [fst] in Hin. case_decide; [by left|by apply not_elem_of_empty in Hin].
Qed.

(** As long as no two blocks carry the same signature the watchdog never
    reports a fork bomb, however many blocks a signer puts on one parent:
    it counts per signature, not per signer. *)
Theorem watchdog_by_signature_inert (l : list (block + Z)) (b : block) :
  (∀ b', inl b' ∈ l → block_signature b' = block_signature b → id b' = id b) →
  (ForkWatchdog.check (id b) (block_signature b) (header_previous (header_of b)) (header_height (header_of b))
     (foldl apply_op ForkWatchdog.empty_watchdog (watchdog_op <$> l))).1 = false.
Proof.
  intros Hsig. set (w := foldl _ _ _). set (key := (block_signature b, header_previous (header_of b))).
  assert (ids_of w key ⊆ {[id b]}) as Hsub.
  { intros i Hi. pose proof (history_spec (watchdog_op <$> l) ForkWatchdog.empty_watchdog key) as Hspec.
    fold w in Hspec. apply (f_equal fst) in Hspec. cbn [abstract fst] in Hspec. rewrite Hspec in Hi.
    apply watched_ids in Hi as [Hi|(b' & Hb' & Hs & <-)]; [by apply not_elem_of_empty in Hi|].
    apply elem_of_singleton. by apply Hsig. }
  unfold ForkWatchdog.check. cbn [fst]. change (default ∅ (ForkWatchdog._forks w !! _)) with (ids_of w key).
  replace ({[id b]} ∪ ids_of w key) with ({[id b]} : gset bytes) by set_solver.
  rewrite size_singleton. done.
Qed.

End Signatures.
