(* ===== verification/ServeTheorems.v ===== *)
(** The p2p node as a server: what it answers from its block store reaches
    the client on the other side of the wire unchanged, and is a chain that
    the client's synchronization accepts. *)

From S2P Require Import Prelude Keys Storage SkipList BlockStore BlockStoreTheorems.
From S2P Require Import GorpcCodec GorpcFacts PeerRpc GorpcTheorems PeerPolicy P2PNode P2PTheorems.
From S2P Require Import P2PTheorems.
Import Gorpc PeerRpc BlockStore P2PNode.
Import PeerErrorHandler(ScoreDecay, decay, scores).

Section Serve.
Context {DB CF : Type} `{!EqDecision CF} `{!RocksDB DB CF} `{!RocksDBLaws DB CF}.
Context `{!Message block_record} `{!Message block_topology}.
Context `{!MessageLaws block_record} `{!MessageLaws block_topology} `{!Reliable DB CF}.
Context `{Hproto : !Protocol} `{Hdecay : !ScoreDecay} `{Hmemory : !Memory}.
Context (cf_blocks cf_meta : CF) (height_of : bytes → Z) (prev_of : bytes → bytes).

(** The node's block store interface is the block store on [db]; [what] is
    the text of its exceptions. *)
Definition store_answers (env : environment) (what : exn → bytes) (db : DB) : Prop :=
  ∀ tr req, env_blocks_by_height env tr req =
    match (get_blocks_by_height cf_blocks req db).1 with
    | Ok items => inr items
    | Throw e => inl (what e)
    | OutOfFuel => inl []
    end.

(** The request handler the node installs in its transport. *)
Definition rpc_handler (env : environment) (s : system) : Handler := λ service method args,
  match (handle_peer_rpc_request env service method args s).1 with
  | Ok payload => Ok payload
  | Throw what => Throw (StdException what)
  | OutOfFuel => OutOfFuel
  end.

Definition get_blocks_service : ServiceID := mkServiceID (str "PeerRPCService") (str "GetBlocks").

(** The blocks of the chain below [head] at the heights of [l]. *)
Definition chain_blocks (head : bytes) (heights : list Z) (blocks : list block) : Prop :=
  Forall2 (λ h b, id b = ancestor prev_of head (height_of head - h) ∧ block_ok height_of prev_of b)
    heights blocks.

Lemma chain_blocks_linked head start n blocks :
  chain_heights height_of prev_of → (∀ i, 0 < height_of i → i ≠ []) → height_of head < 2 ^ 64 →
  0 < start → start + n - 1 ≤ height_of head → chain_blocks head (seqZ start n) blocks →
  chain_from start (ancestor prev_of head (height_of head - (start - 1))) blocks.
Proof.
  intros Hc Hids H64. revert start n. induction blocks as [|b blocks IH]; intros start n Hs Hn HF; [done|].
  destruct (decide (0 < n)) as [Hpos|]; [|by rewrite seqZ_nil in HF by lia; inversion HF].
  rewrite seqZ_cons in HF by lia. apply Forall2_cons in HF as [[Hid Hok] HF].
  destruct Hok as [Hu (hdr & Hhdr & Hheight & Hprev)].
  assert (height_of (id b) = start) as Hst by (rewrite Hid, (ancestor_height height_of) by (done || lia); lia).
  assert (header_of b = hdr) as Hh by (unfold header_of, header_or_default; by rewrite Hhdr).
  cbn [chain_from]. rewrite Hh. split_and!.
  - apply Hids. lia.
  - by rewrite Hhdr.
  - lia.
  - intros _. rewrite Hprev, Hid, <- ancestor_1, ancestor_ancestor by lia. f_equal. lia.
  - destruct blocks as [|b' blocks]; [done|].
    assert (1 < n) as H1.
    { apply Forall2_length in HF. cbn in HF. rewrite length_seqZ in HF. lia. }
    unfold u64. rewrite wrap_small by lia.
    specialize (IH (Z.succ start) (Z.pred n)). replace (Z.succ start - 1) with start in IH by lia.
    rewrite Hid. rewrite <- Z.add_1_r in *. apply IH; [lia..|done].
Qed.

Lemma run_block_payloads items blocks s :
  Forall2 (λ it b, item_block it = Some b) items blocks →
  block_payloads_of items s = (Ok (serialize_block <$> blocks), s).
Proof.
  induction 1 as [|it b items blocks Hit _ IH]; [done|]. cbn [block_payloads_of]. rewrite Hit, run_bind, IH. done.
Qed.

(** The items of a range carry the accepted blocks of the chain. *)
Lemma served_blocks head l db items heights :
  parents_first height_of prev_of l → history cf_blocks cf_meta height_of prev_of db l →
  Forall2 (λ h it, item_at cf_blocks db true false (ancestor prev_of head (height_of head - h)) = Some it)
    heights items →
  ∃ blocks, Forall2 (λ it b, item_block it = Some b) items blocks ∧ chain_blocks head heights blocks ∧
    Forall (λ b, ∃ ba, ba ∈ l ∧ accepted_block ba = Some b) blocks.
Proof.
  intros Hl Hist. induction 1 as [|h it heights items Hit _ (blocks & Hb & Hc & Hin)].
  { exists []. split_and!; constructor. }
  destruct (item_at_block cf_blocks cf_meta height_of prev_of db l Hl Hist false _ _ Hit)
    as (b & Hib & Hid & ba & Hba & Hok).
  exists (b :: blocks). split_and!; constructor; eauto.
Qed.

Lemma run_get_blocks env s head start n items blocks :
  _block_store (node s) = true →
  decode_get_blocks_request (encode_get_blocks_request head start n) = Ok (mkBlocksRequest head start n) →
  env_blocks_by_height env (calls s) (mk_get_blocks_by_height_request head start n true false) = inr items →
  Forall2 (λ it b, item_block it = Some b) items blocks →
  (handle_peer_rpc_request env (str "PeerRPCService") (str "GetBlocks")
     (encode_get_blocks_request head start n) s).1 = Ok (encode_blocks_response (serialize_block <$> blocks)).
Proof.
  intros Hstore Hdec Hans Hitems. unfold handle_peer_rpc_request.
  change (bool_decide (str "PeerRPCService" ≠ str "PeerRPCService")) with false.
  change (bool_decide (str "GetBlocks" = str "GetChainID")) with false.
  change (bool_decide (str "GetBlocks" = str "GetHeadBlock")) with false.
  change (bool_decide (str "GetBlocks" = str "GetAncestorBlockID")) with false.
  change (bool_decide (str "GetBlocks" = str "GetBlocks")) with true. cbv beta iota.
  rewrite run_bind. cbn [gets_node gets_state]. rewrite Hstore. cbn [negb].
  rewrite run_bind. unfold decoded at 1. rewrite Hdec. cbn [Gorpc.head_block_id start_block_height num_blocks].
  rewrite run_bind. unfold store_blocks_by_height, call. rewrite Hans.
  by rewrite run_bind, (run_block_payloads items blocks).
Qed.

Lemma request_sized head start n :
  sized (size head) → is_u64 start → is_u64 n →
  mp_sized (MMap [(str "HeadBlockID", MRaw head); (str "StartBlockHeight", MUint start); (str "NumBlocks", MUint n)]).
Proof. intros Hh Hs Hn. cbn. unfold sized in *. cbn. split; [lia|]. split_and!; (done || lia). Qed.

Lemma response_sized l :
  sized (Z.of_nat (length l)) → Forall (λ b, sized (size b)) l →
  mp_sized (MMap [(str "Blocks", MArray (MRaw <$> l))]).
Proof.
  intros Hl Hb. cbn. unfold sized at 1 2. cbn. rewrite length_fmap. split_and!; try (done || lia).
  induction Hb as [|b l Hb _ IH]; cbn; [done|]. split; [done|]. apply IH. unfold sized in *. cbn in Hl. lia.
Qed.

Lemma parse_all blocks : Forall (λ b, parse_block (serialize_block b) = Some b) blocks →
  mapM parse_block (serialize_block <$> blocks) = Some blocks.
Proof. induction 1 as [|b blocks Hb _ IH]; cbn; [done|]. by rewrite Hb, IH. Qed.

(** C25. A client asks a node for [n] blocks below a head the node has
    accepted; the node answers from its block store, and the answer arrives
    in any fragmentation.  The client gets exactly the accepted blocks of
    the head's chain at heights [start, start + n), which form a chain on
    top of the block below them: what its synchronization requires to
    submit them. *)
Theorem serve_blocks env s what l db head start n chunks :
  heights_u64 → chain_heights height_of prev_of → (∀ i, 0 < height_of i → i ≠ []) →
  parents_first height_of prev_of l → history cf_blocks cf_meta height_of prev_of db l →
  head ∈ accepted_ids l → store_answers env what db → _block_store (node s) = true →
  (∀ ba b, ba ∈ l → accepted_block ba = Some b →
     sized (size (serialize_block b)) ∧ parse_block (serialize_block b) = Some b) →
  0 < start → 0 < n ≤ max_block_request → start + n - 1 ≤ height_of head → height_of head < 2 ^ 64 →
  sized (size head) →
  let args := encode_get_blocks_request head start n in
  let request := encode_request (str "PeerRPCService") (str "GetBlocks") args in
  fits args → fits request →
  concat chunks = handle_incoming_rpc (Some (rpc_handler env s)) request →
  size (concat chunks) ≤ max_response_size → Forall (λ c, c ≠ []) chunks → chunks ≠ [] →
  ∃ blocks, PeerRpc.peer_get_blocks parse_block n (ReadBytes <$> chunks) = Ok blocks ∧
    chain_blocks head (seqZ start n) blocks ∧
    chain_from start (ancestor prev_of head (height_of head - (start - 1))) blocks.
Proof.
  intros Hu Hc Hids Hl Hist Hhead Hans Hstore Hser Hs Hn Hle H64 Hhs args request Hfa Hfr Hcat Hmax Hne Hnn.
  destruct (range_query cf_blocks cf_meta height_of prev_of Hu Hc Hids db l head Hl Hist Hhead
    (mk_get_blocks_by_height_request head start n true false)) as (items & Hget & Hitems);
    cbn [ancestor_start_height req_num_blocks head_block_id return_block return_receipt] in *; [done|done|lia..|].
  rewrite Z.min_l in Hitems by lia.
  destruct (served_blocks head l db items (seqZ start n) Hl Hist) as (blocks & Hblocks & Hchain & Hin).
  { eapply Forall2_impl; [exact Hitems|]. by intros h it [? _]. }
  exists blocks. split_and!; [|done|by apply (chain_blocks_linked head start n)].
  assert (Forall (λ b, sized (size (serialize_block b)) ∧ parse_block (serialize_block b) = Some b) blocks) as Hall.
  { eapply Forall_impl; [exact Hin|]. intros b (ba & Hba & Hb). by eapply Hser. }
  assert (Z.of_nat (length blocks) = n) as Hlen.
  { apply Forall2_length in Hchain. rewrite length_seqZ in Hchain. lia. }
  assert (service_ok get_blocks_service) as Hsv by (split_and!; by vm_compute).
  set (payload := encode_blocks_response (serialize_block <$> blocks)).
  assert (rpc_handler env s (str "PeerRPCService") (str "GetBlocks") args = Ok payload) as Hanswer.
  { unfold rpc_handler, args. rewrite (run_get_blocks env s head start n items blocks); [done|done| | |done].
    - apply blocks_request_round_trip; [done| | |done]; unfold is_u64, is_u32, max_block_request in *; lia.
    - rewrite Hans, Hget. done. }
  assert (Forall (λ b, sized (size b)) (serialize_block <$> blocks)) as Hsized.
  { apply Forall_fmap. eapply Forall_impl; [exact Hall|]. by intros b [? _]. }
  assert (sized (Z.of_nat (length (serialize_block <$> blocks)))) as Hcount.
  { rewrite length_fmap, Hlen. unfold sized, max_block_request in *. lia. }
  assert (Z.of_nat (length (serialize_block <$> blocks)) ≤ max_strings) as Hmem.
  { rewrite length_fmap, Hlen. pose proof max_strings_large. unfold max_block_request in *. lia. }
  assert (mp_sized (MMap [(str "HeadBlockID", MRaw head); (str "StartBlockHeight", MUint start);
                          (str "NumBlocks", MUint n)])) as Hrequest.
  { apply request_sized; [done|..]; unfold is_u64, max_block_request in *; lia. }
  unfold request, args in *. unfold payload in Hanswer.
  rewrite encode_get_blocks_request_encode in Hcat, Hfr, Hanswer. rewrite encode_blocks_response_encode in Hanswer.
  destruct (exchange_success _ get_blocks_service _ _ chunks Hsv Hrequest Hfr Hanswer (response_sized _ Hcount Hsized) Hcat Hmax Hne Hnn)
    as [Hreceive Hfp].
  rewrite <- encode_blocks_response_encode in Hreceive, Hfp.
  unfold PeerRpc.peer_get_blocks, decode_payload.
  rewrite Hreceive, blocks_response_round_trip by done.
  rewrite length_fmap, Hlen, Z.eqb_refl. cbn [negb]. rewrite (parse_all blocks); [done|].
  eapply Forall_impl; [exact Hall|]. by intros b [_ ?].
Qed.

End Serve.
