(* ===== verification/P2PExample.v ===== *)
(** A concrete p2p node: the witnesses of its properties. *)

From S2P Require Import Prelude Keys Storage SkipList BlockStore BlockStoreTheorems.
From S2P Require Import GorpcCodec GorpcFacts PeerRpc GorpcTheorems PeerPolicy P2PNode P2PTheorems.
From S2P Require Import PeerPolicyTheorems P2PTheorems ServeTheorems.
Import Gorpc PeerRpc BlockStore P2PNode BlockStoreTheorems.Example_store.
Import PeerErrorHandler(ScoreDecay, decay, scores, ScoreDecayLaws).

(** A block is sent as its id. *)
#[global] Instance example_protocol : Protocol := {|
  block_signature b := str "signature";
  header_timestamp h := header_height h;
  serialize_block b := id b;
  parse_block i := Some (block_of i)
|}.

(** Scores halve at every half-life. *)
#[global] Instance example_decay : ScoreDecay := {|
  decay halflife elapsed score := score / 2 ^ (elapsed / halflife)
|}.

#[global] Instance example_decay_laws : ScoreDecayLaws.
Proof.
  split. intros halflife elapsed score Hh He Hs. cbn.
  assert (0 < 2 ^ (elapsed / halflife)) by (apply Z.pow_pos_nonneg; [lia|apply Z.div_pos; lia]).
  split; [apply Z.div_pos; lia|]. apply Z.div_le_upper_bound; [lia|]. nia.
Qed.

(** The chain and the peers answer; the local head is at height 5 and the
    block store is the one of the example chain. *)
Definition answers (db : MapDB) : environment := {|
  env_chain_id _ := inr (str "chain");
  env_head_info _ := inr (mk_head_info (str "edcba") 5 2);
  env_blocks_by_id _ _ := inr [];
  env_blocks_by_height _ req :=
    match (get_blocks_by_height 0%nat req db).1 with
    | Ok items => inr items
    | Throw _ => inl (str "block store error")
    | OutOfFuel => inl []
    end;
  env_submit_block _ _ := inr tt;
  env_submit_transaction _ _ := inr tt;
  env_peer_chain_id _ _ := inr (str "chain");
  env_peer_head _ _ := inr (mk_PeerHeadInfo (str "fedcba") 6);
  env_peer_ancestor _ _ i h := inr (drop (length i - Z.to_nat h) i);
  env_peer_blocks _ _ i start n := inr [];
  env_connect _ _ := inr tt;
  env_peer_count _ := 0;
  env_known_peers _ := [];
  env_clock tr := 10 ^ 9 * Z.of_nat (length tr);
  interfere _ n := n
|}.

Definition peer (s : string) : PeerID := mk_PeerID (str s) (str "/ip4/" ++ str s).

(** A running node that knows two peers. *)
Definition node0 : system :=
  (add_peer_candidate (peer "bob") false
     (add_peer_candidate (peer "alice") false
        (mk_system (set_running true (construct default_options true true true [])) [])).2).2.

(** The node after three forks of one signer on one parent were gossiped. *)
Definition fork_block (i : string) : block :=
  mk_block (str i) (Some (mk_block_header 6 (str "edcba") [])) [].

Definition node3 : system :=
  (on_gossip_block (answers chain_db) (peer "alice") (fork_block "fork3")
    (on_gossip_block (answers chain_db) (peer "alice") (fork_block "fork2")
      (on_gossip_block (answers chain_db) (peer "alice") (fork_block "fork1") node0).2).2).2.

Lemma node3_reached : rtc (node_step (answers chain_db)) node0 node3.
Proof.
  unfold node3.
  eapply rtc_l; [apply (step_gossip_block _ (peer "alice") (fork_block "fork1"))|].
  eapply rtc_l; [apply (step_gossip_block _ (peer "alice") (fork_block "fork2"))|].
  eapply rtc_l; [apply (step_gossip_block _ (peer "alice") (fork_block "fork3"))|]. reflexivity.
Qed.

Lemma answers_grow db : ∀ tr n, seen_sub n (interfere (answers db) tr n).
Proof. by split. Qed.

(** The third block is not submitted again. *)
Lemma gossip_submits_once_witness :
  ∃ l o s', on_gossip_block (answers chain_db) (peer "alice") (fork_block "fork3") node3 = (o, s') ∧
    calls s' = calls node3 ++ l ∧ submitted l = [].
Proof.
  destruct (gossip_submits_once (answers chain_db) node0 node3 (peer "alice") (fork_block "fork3")
    (answers_grow _) eq_refl node3_reached) as (l & o & s' & Hrun & Hc & Hl).
  exists l, o, s'. split; [exact Hrun|]. split; [exact Hc|].
  destruct Hl as [Hl|(_ & _ & Hnew)]; [exact Hl|]. exfalso.
  apply (Hnew (fork_block "fork3")); [|reflexivity]. apply (list_elem_of_lookup_2 _ 5). by vm_compute.
Defined.

(** The fourth fork of one signer on one parent. *)
Lemma fork_bomb_disconnects_witness :
  ∃ s', on_gossip_block (answers chain_db) (peer "alice") (fork_block "fork4") node3 = (Ok tt, s') ∧
    calls s' = calls node3 ++ [ReadClock; DisconnectPeer (peer "alice")].
Proof.
  assert ((watch_result (fork_block "fork4") node3).1 = true) as Hbomb by (by vm_compute).
  assert (_opts (node node3) = default_options) as Hopts by (by vm_compute).
  assert (score_ok node3 (address (peer "alice")) (env_clock (answers chain_db) (calls node3))
            (score_fork_bomb (_opts (node node3)))) as Hscore.
  { intros r Hr. assert (_error_handler (node node3) = ∅) as Hempty by (by vm_compute).
    rewrite Hempty, lookup_empty in Hr. discriminate Hr. }
  assert (id (fork_block "fork4") ≠ []) as Hid by discriminate.
  assert (0 < error_score_halflife (_opts (node node3))) as H1 by (rewrite Hopts; decided).
  assert (0 ≤ score_fork_bomb (_opts (node node3)) < 2 ^ 64) as H2 by (rewrite Hopts; decided).
  assert (error_score_disconnect_threshold (_opts (node node3)) ≤ score_fork_bomb (_opts (node node3))) as H3
    by (rewrite Hopts; decided).
  assert (error_score_reconnect_threshold (_opts (node node3))
          ≤ error_score_disconnect_threshold (_opts (node node3))) as H4 by (rewrite Hopts; decided).
  destruct (fork_bomb_disconnects (answers chain_db) (peer "alice") (fork_block "fork4") node3
    (λ _ _, conj eq_refl eq_refl) Hid (ex_intro _ _ eq_refl) Hbomb H1 H2 H3 H4 Hscore) as (s' & Hrun & Hc & _).
  exists s'. split; [exact Hrun|exact Hc].
Defined.

Lemma acquisition_bounded_witness :
  ∃ l s' cands, run_peer_acquisition_cycle (answers chain_db) node3 = (Ok tt, s') ∧
    calls s' = calls node3 ++ l ∧ dialed l = candidate_peer <$> cands ∧ Z.of_nat (length cands) ≤ 3.
Proof.
  destruct (acquisition_bounded (answers chain_db) node3 ltac:(done) ltac:(by vm_compute)
    ltac:(by vm_compute) ltac:(by vm_compute)) as (l & s' & picked & cands & Hrun & Hc & Hd & _ & _ & _ & Hmax).
  exists l, s', cands. split; [exact Hrun|]. split; [exact Hc|]. split; [exact Hd|exact Hmax].
Defined.

(** A request for three blocks below [fedcba], answered in two pieces. *)
Definition blocks_answer : bytes :=
  handle_incoming_rpc (Some (rpc_handler (answers chain_db) node0))
    (encode_request (str "PeerRPCService") (str "GetBlocks") (encode_get_blocks_request (str "fedcba") 2 3)).

Lemma chain_served ba b : ba ∈ chain → accepted_block ba = Some b →
  sized (size (serialize_block b)) ∧ parse_block (serialize_block b) = Some b.
Proof.
  intros (s & -> & Hs)%list_elem_of_fmap [= <-]. split; [|done].
  assert (Forall (λ s, 0 ≤ size (str s) < 2 ^ 32) ["a"; "ba"; "cba"; "xba"; "dcba"; "edcba"; "fedcba"]%string)
    as Hall by decided.
  rewrite Forall_forall in Hall. exact (Hall s Hs).
Qed.

#[local] Instance example_memory : Memory := {| max_strings := 2 ^ 24; max_strings_large := ltac:(lia) |}.

Lemma serve_blocks_witness :
  ∃ blocks, PeerRpc.peer_get_blocks parse_block 3
      (ReadBytes <$> [take 10 blocks_answer; drop 10 blocks_answer]) = Ok blocks ∧
    chain_from 2 (str "a") blocks.
Proof.
  destruct (serve_blocks 0%nat 1%nat height_of (@tl ascii) (answers chain_db) node0 (λ _, str "block store error")
    chain chain_db (str "fedcba") 2 3 [take 10 blocks_answer; drop 10 blocks_answer]
    record_heights chain_ok ltac:(by intros [|]) chain_parents_first chain_history ltac:(decided)
    (λ _ _, eq_refl) eq_refl chain_served ltac:(by vm_compute) ltac:(by vm_compute) ltac:(by vm_compute)
    ltac:(by vm_compute) ltac:(by vm_compute) ltac:(by vm_compute) ltac:(by vm_compute)
    ltac:(by vm_compute) ltac:(by vm_compute) ltac:(decided) ltac:(done)) as (blocks & Hget & _ & Hchain).
  exists blocks. split; [exact Hget|exact Hchain].
Defined.

(** Blocks signed with signatures of their own. *)
Definition signed_protocol : Protocol := {|
  block_signature b := id b;
  header_timestamp h := header_height h;
  serialize_block b := id b;
  parse_block i := Some (block_of i)
|}.

(** Four forks of one parent, and no report. *)
Lemma watchdog_by_signature_inert_witness :
  (ForkWatchdog.check (str "fork5") (str "fork5") (str "edcba") 6
     (foldl apply_op ForkWatchdog.empty_watchdog (@watchdog_op signed_protocol <$>
       [inl (fork_block "fork1"); inl (fork_block "fork2"); inl (fork_block "fork3");
        inl (fork_block "fork4")]))).1 = false.
Proof.
  exact (@watchdog_by_signature_inert signed_protocol
    [inl (fork_block "fork1"); inl (fork_block "fork2"); inl (fork_block "fork3"); inl (fork_block "fork4")]
    (fork_block "fork5") (λ b' _ Heq, Heq)).
Defined.
