(* ===== verification/JsonRpc.v ===== *)
(** The JSON-RPC server, [src/src/jsonrpc/jsonrpc_server.cpp], with the access
    policy [src/src/core/rpc_access_policy.hpp].

    The JSON library, protobuf, base58, base64 and the services are
    parameters.  A program runs over the calls that were made to the services
    so far; a call is answered by them and by the calls before it. *)

From S2P Require Import Prelude Keys.

Module JsonRpc.

(** ** JSON values, [nlohmann::json]

    The members of an object are in the order of their names. *)

Inductive json : Type :=
| null
| boolean (b : bool)
| number (x : Z)
| floating (text : bytes)
| string_ (s : bytes)
| array (l : list json)
| object (l : list (bytes * json)).

Definition is_object (j : json) : bool := match j with object _ => true | _ => false end.

Fixpoint lookup_member (name : bytes) (l : list (bytes * json)) : option json :=
  match l with
  | [] => None
  | (n, v) :: l => if bool_decide (n = name) then Some v else lookup_member name l
  end.

(** [object[ name ] = value]. *)
Fixpoint set_member (name : bytes) (v : json) (l : list (bytes * json)) : list (bytes * json) :=
  match l with
  | [] => [(name, v)]
  | (n, w) :: l' =>
    if bool_decide (n = name) then (name, v) :: l'
    else if bytes_ltb name n then (name, v) :: l
    else (n, w) :: set_member name v l'
  end.

(** [contains] and [operator[]]: a value that is no object has no members. *)
Definition member (name : bytes) (j : json) : option json :=
  match j with object l => lookup_member name l | _ => None end.

Definition set_json (name : bytes) (v : json) (j : json) : json :=
  match j with object l => object (set_member name v l) | _ => j end.

(** A list of pairs in braces. *)
Definition braces (l : list (bytes * json)) : json :=
  object (foldl (λ o p, set_member p.1 p.2 o) [] l).

(** [std::to_string]. *)
Fixpoint digits (fuel : nat) (x : Z) (acc : bytes) : bytes :=
  let acc := byte_of (48 + x `mod` 10) :: acc in
  match fuel with
  | O => acc
  | S fuel => if x <? 10 then acc else digits fuel (x / 10) acc
  end.
Definition to_string (x : Z) : bytes := digits 20 x [].

(** ** Exceptions and messages *)

Inductive exn : Type :=
| std_exception (what : bytes)
| other_exception.

(** [koinos::btype] of the options of a field. *)
Inductive btype : Type := BASE64 | HEX | BASE58 | BLOCK_ID | TRANSACTION_ID | CONTRACT_ID | ADDRESS.

#[global] Instance btype_eq_dec : EqDecision btype.
Proof. solve_decision. Defined.

Record field := mk_field { field_name : bytes; field_btype : option btype }.

(** What [Reflection::ListFields] shows of a message. *)
Inductive message : Type :=
| mk_message (fields : list (field * value))
with value : Type :=
| bytes_value (b : bytes)
| message_value (m : message)
| repeated_bytes (l : list bytes)
| repeated_messages (l : list message)
| other_value.

(** ** Access policy *)

Record RpcAccessPolicy := mk_policy { blacklist : list bytes; whitelist : list bytes }.

(** [std::isspace]. *)
Definition is_space (c : ascii) : bool := (code c =? 32) || ((9 <=? code c) && (code c <=? 13)).

Fixpoint drop_spaces (s : bytes) : bytes :=
  match s with c :: s' => if is_space c then drop_spaces s' else s | [] => [] end.

Definition trim (s : bytes) : bytes := reverse (drop_spaces (reverse (drop_spaces s))).

Definition rpc_prefix : bytes := str "koinos.rpc.".

Definition canonicalize (target : bytes) : bytes :=
  let target := trim target in
  if bool_decide (take (length rpc_prefix) target = rpc_prefix) then drop (length rpc_prefix) target else target.

Fixpoint matches (entries : list bytes) (service method : bytes) : bool :=
  match entries with
  | [] => false
  | raw_entry :: entries =>
    let entry := canonicalize raw_entry in
    if bool_decide (entry = []) then matches entries service method
    else if bool_decide (entry = service) || bool_decide (entry = service ++ str "." ++ method) then true
    else matches entries service method
  end.

Definition allows (p : RpcAccessPolicy) (service method : bytes) : bool :=
  match whitelist p with
  | [] => negb (matches (blacklist p) service method)
  | l => matches l service method
  end.

(** ** Parameters *)

(** What a service answers. *)
Inductive reply (A : Type) : Type :=
| returned (a : A)
| threw (what : bytes)
| threw_other.
Arguments returned {A} a.
Arguments threw {A} what.
Arguments threw_other {A}.

(** The responses that are not printed by protobuf. *)
Record head_info_response := mk_head_info {
  head_id : bytes; head_height : Z; head_previous : bytes;
  last_irreversible_block : Z; head_state_merkle_root : bytes; head_block_time : Z
}.
Record read_contract_response := mk_read_contract { result : bytes; logs : list bytes }.

(** [JsonStringToMessage] fills a request of a method and says whether the
    text was a message of its type; [parse] and [dump] throw where they have
    no value. *)
Class JsonLibrary := {
  Request : Type;
  default_request : Request;
  JsonStringToMessage : bytes → bytes → bytes → bool * Request;
  MessageToJsonString : message → option bytes;
  parse : bytes → option json;
  parse_what : bytes → bytes;
  dump : json → option bytes;
  dump_what : json → bytes;
  to_base64 : bytes → bytes;
  to_base58 : bytes → bytes;
  from_base58 : bytes → option bytes
}.

Section Calls.
Context `{!JsonLibrary}.

Record call := mk_call { call_service : bytes; call_method : bytes; call_request : Request }.

Class Services := {
  get_head_info : list call → Request → reply head_info_response;
  get_chain_id : list call → Request → reply bytes;
  get_account_nonce : list call → Request → reply bytes;
  read_contract : list call → Request → reply read_contract_response;
  other_method : list call → call → reply message;
  build_version : bytes
}.

End Calls.

Section Server.
Context {L : JsonLibrary} {V : Services}.

Definition M (A : Type) : Type := prog (list call) exn A.

#[global] Instance M_ret : MRet M := prog_ret.
#[global] Instance M_bind : MBind M := prog_bind.

Definition fail {A} (what : string) : M A := raise (std_exception (str what)).

(** ** Bytes in JSON *)

Definition has_hex_prefix (v : bytes) : bool :=
  match v with a :: b :: _ => (code a =? 48) && ((code b =? 120) || (code b =? 88)) | _ => false end.

Definition hex_nibble (c : ascii) : option Z :=
  if (48 <=? code c) && (code c <=? 57) then Some (code c - 48)
  else if (97 <=? code c) && (code c <=? 102) then Some (code c - 97 + 10)
  else if (65 <=? code c) && (code c <=? 70) then Some (code c - 65 + 10)
  else None.

Fixpoint hex_pairs (v : bytes) : M bytes :=
  match v with
  | a :: b :: v =>
    match hex_nibble a, hex_nibble b with
    | Some x, Some y => rest ← hex_pairs v; mret (byte_of (Z.lor (Z.shiftl x 4) y) :: rest)
    | _, _ => fail "invalid hex byte string"
    end
  | _ => mret []
  end.

Definition hex_to_bytes (v : bytes) : M bytes :=
  let digits := if has_hex_prefix v then drop 2 v else v in
  if Nat.even (length digits) then hex_pairs digits else fail "hex byte string has odd length".

Definition hex_digit (x : Z) : ascii := nth (Z.to_nat x) (str "0123456789abcdef") "0"%char.

Definition bytes_to_hex (b : bytes) : bytes :=
  str "0x" ++ concat ((λ c, [hex_digit (Z.shiftr (code c) 4); hex_digit (Z.land (code c) 15)]) <$> b).

Definition encode_koinos_bytes_field (f : field) (b : bytes) : bytes :=
  match default BASE64 (field_btype f) with
  | HEX | BLOCK_ID | TRANSACTION_ID => bytes_to_hex b
  | BASE58 | CONTRACT_ID | ADDRESS => to_base58 b
  | BASE64 => to_base64 b
  end.

(** The first elements of an array, one for each element of a repeated field. *)
Fixpoint replace_first {A} (g : A → json → json) (l : list A) (js : list json) : list json :=
  match l, js with
  | a :: l, j :: js => g a j :: replace_first g l js
  | _, _ => js
  end.

Fixpoint rewrite_koinos_json_bytes (m : message) (j : json) {struct m} : json :=
  match m, j with
  | mk_message fields, object _ =>
    (fix loop (fields : list (field * value)) (j : json) : json :=
       match fields with
       | [] => j
       | (f, v) :: fields =>
         loop fields
           match member (field_name f) j with
           | None => j
           | Some x => set_json (field_name f) (rewrite_value f v x) j
           end
       end) fields j
  | _, _ => j
  end
with rewrite_value (f : field) (v : value) (x : json) {struct v} : json :=
  match v, x with
  | repeated_bytes l, array js => array (replace_first (λ b _, string_ (encode_koinos_bytes_field f b)) l js)
  | repeated_messages l, array js => array (replace_first rewrite_koinos_json_bytes l js)
  | bytes_value b, string_ _ => string_ (encode_koinos_bytes_field f b)
  | message_value m, object _ => rewrite_koinos_json_bytes m x
  | _, _ => x
  end.

(** ** Parameters in the form of protobuf

    A function that changes a member in place is one from the value to the
    new value. *)

(** [if( object.contains( field ) ) g( object[ field ] )]. *)
Definition in_member (name : string) (g : json → M json) (j : json) : M json :=
  match member (str name) j with
  | None => mret j
  | Some x => y ← g x; mret (set_json (str name) y j)
  end.

Fixpoint in_elements (g : json → M json) (l : list json) : M (list json) :=
  match l with
  | [] => mret []
  | j :: l => k ← g j; l ← in_elements g l; mret (k :: l)
  end.

(** [if( object.contains( field ) && object[ field ].is_array() ) for( auto& value: object[ field ] ) g( value )]. *)
Definition in_array (name : string) (g : json → M json) : json → M json :=
  in_member name (λ x, match x with array l => l ← in_elements g l; mret (array l) | _ => mret x end).

Definition normalize_json_bytes_field (name : string) : json → M json :=
  in_member name (λ x,
    match x with
    | string_ v => if has_hex_prefix v then b ← hex_to_bytes v; mret (string_ (to_base64 b)) else mret x
    | _ => mret x
    end).

(** What is not base58 is kept. *)
Definition normalize_json_base58_field (name : string) : json → M json :=
  in_member name (λ x,
    match x with
    | string_ [] => mret x
    | string_ v => match from_base58 v with Some b => mret (string_ (to_base64 b)) | None => mret x end
    | _ => mret x
    end).

(** Through a wrapper with the single member [value]. *)
Definition through_wrapper (g : json → M json) (x : json) : M json :=
  match x with
  | string_ _ => w ← g (braces [(str "value", x)]); mret (default x (member (str "value") w))
  | _ => mret x
  end.

Definition normalize_json_hash_array (name : string) : json → M json :=
  in_array name (through_wrapper (normalize_json_bytes_field "value")).

Definition normalize_json_base58_array (name : string) : json → M json :=
  in_array name (through_wrapper (normalize_json_base58_field "value")).

Definition normalize_json_operation (op : json) : M json :=
  op ← in_member "call_contract" (λ c,
         c ← normalize_json_base58_field "contract_id" c; normalize_json_bytes_field "args" c) op;
  op ← in_member "upload_contract" (λ u,
         u ← normalize_json_base58_field "contract_id" u; normalize_json_bytes_field "bytecode" u) op;
  op ← in_member "set_system_call" (in_member "target" (in_member "system_call_bundle"
         (normalize_json_base58_field "contract_id"))) op;
  in_member "set_system_contract" (normalize_json_base58_field "contract_id") op.

Definition normalize_json_transaction (tx : json) : M json :=
  tx ← normalize_json_bytes_field "id" tx;
  tx ← in_member "header" (λ h,
         h ← normalize_json_bytes_field "chain_id" h;
         h ← normalize_json_bytes_field "nonce" h;
         h ← normalize_json_bytes_field "operation_merkle_root" h;
         h ← normalize_json_base58_field "payer" h;
         normalize_json_base58_field "payee" h) tx;
  tx ← in_array "operations" normalize_json_operation tx;
  normalize_json_hash_array "signatures" tx.

Definition normalize_json_block (block : json) : M json :=
  block ← normalize_json_bytes_field "id" block;
  block ← normalize_json_bytes_field "signature" block;
  block ← in_member "header" (λ h,
            h ← normalize_json_bytes_field "previous" h;
            h ← normalize_json_bytes_field "previous_state_merkle_root" h;
            h ← normalize_json_bytes_field "transaction_merkle_root" h;
            h ← normalize_json_base58_field "signer" h;
            normalize_json_hash_array "approved_proposals" h) block;
  in_array "transactions" normalize_json_transaction block.

Definition normalize_json_event (event : json) : M json :=
  event ← normalize_json_base58_field "source" event;
  event ← normalize_json_bytes_field "data" event;
  normalize_json_base58_array "impacted" event.

Definition normalize_json_state_delta_entry (entry : json) : M json :=
  entry ← in_member "object_space" (normalize_json_bytes_field "zone") entry;
  entry ← normalize_json_bytes_field "key" entry;
  normalize_json_bytes_field "value" entry.

Definition normalize_json_transaction_receipt (receipt : json) : M json :=
  receipt ← normalize_json_bytes_field "id" receipt;
  receipt ← normalize_json_base58_field "payer" receipt;
  receipt ← in_array "events" normalize_json_event receipt;
  in_array "state_delta_entries" normalize_json_state_delta_entry receipt.

Definition normalize_json_block_receipt (receipt : json) : M json :=
  receipt ← normalize_json_bytes_field "id" receipt;
  receipt ← normalize_json_bytes_field "state_merkle_root" receipt;
  receipt ← in_array "events" normalize_json_event receipt;
  receipt ← in_array "transaction_receipts" normalize_json_transaction_receipt receipt;
  in_array "state_delta_entries" normalize_json_state_delta_entry receipt.

Definition named (s : bytes) (literal : string) : bool := bool_decide (s = str literal).

Definition normalize_koinos_params (service method : bytes) (params : json) : M json :=
  if named service "chain" then
    if named method "get_account_nonce" || named method "get_account_rc" then normalize_json_base58_field "account" params
    else if named method "read_contract" then
      params ← normalize_json_base58_field "contract_id" params; normalize_json_bytes_field "args" params
    else if named method "submit_transaction" then in_member "transaction" normalize_json_transaction params
    else if named method "submit_block" || named method "propose_block" then in_member "block" normalize_json_block params
    else mret params
  else if named service "block_store" then
    params ← normalize_json_bytes_field "head_block_id" params;
    params ← normalize_json_hash_array "block_ids" params;
    if named method "add_block" then
      params ← in_member "block_to_add" normalize_json_block params;
      in_member "receipt_to_add" normalize_json_block_receipt params
    else mret params
  else if named service "transaction_store" then normalize_json_hash_array "transaction_ids" params
  else if named service "contract_meta_store" then normalize_json_base58_field "contract_id" params
  else mret params.

(** ** Responses *)

Definition chain_id_to_json (chain_id : bytes) : json := braces [(str "chain_id", string_ (to_base64 chain_id))].

Definition head_info_to_json (r : head_info_response) : json :=
  braces [
    (str "head_topology", braces [
       (str "id", string_ (bytes_to_hex (head_id r)));
       (str "height", string_ (to_string (head_height r)));
       (str "previous", string_ (bytes_to_hex (head_previous r)))]);
    (str "last_irreversible_block", string_ (to_string (last_irreversible_block r)));
    (str "head_state_merkle_root", string_ (to_base64 (head_state_merkle_root r)));
    (str "head_block_time", string_ (to_string (head_block_time r)))].

Definition account_nonce_to_json (nonce : bytes) : json := braces [(str "nonce", string_ (to_base64 nonce))].

Definition read_contract_to_json (r : read_contract_response) : json :=
  let j := braces [(str "result", string_ (to_base64 (result r)))] in
  match logs r with [] => j | _ => set_json (str "logs") (array (string_ <$> logs r)) j end.

Definition parse_json (s : bytes) : M json :=
  match parse s with Some j => mret j | None => raise (std_exception (parse_what s)) end.

Definition dump_json (j : json) : M bytes :=
  match dump j with Some s => mret s | None => raise (std_exception (dump_what j)) end.

Definition proto_to_json (m : message) : M bytes :=
  match MessageToJsonString m with
  | None => mret (str "{}")
  | Some json_str =>
    try_catch (j ← parse_json json_str; dump_json (rewrite_koinos_json_bytes m j))
      (λ e, match e with std_exception _ => mret json_str | other_exception => raise e end)
  end.

(** The request, and whether the text was one. *)
Definition json_to_proto (service method : bytes) (params : json) : M (bool * Request) :=
  match params with
  | null | object [] => mret (true, default_request)
  | _ => s ← dump_json params; mret (JsonStringToMessage service method s)
  end.

(** ** Dispatch *)

(** The services that the server was given. *)
Record JSONRPCServer := mk_server {
  _chain : bool; _mempool : bool; _block_store : bool; _contract_meta : bool; _tx_store : bool; _acct_history : bool;
  _access_policy : RpcAccessPolicy
}.

Definition of_reply {A} (r : reply A) : M A :=
  match r with returned a => mret a | threw what => raise (std_exception what) | threw_other => raise other_exception end.

(** A call of a service, and its answer. *)
Definition ask {A} (c : call) (answer : list call → reply A) : M A :=
  before ← get_state;
  mod_state (λ l, l ++ [c]);;
  of_reply (answer before).

(** [json_to_proto( params, req )], whose result is not looked at, the call,
    and the response in JSON. *)
Definition serve {A} (service method : bytes) (params : json) (answer : list call → Request → reply A)
    (to_json : A → M json) : M json :=
  '(_, req) ← json_to_proto service method params;
  resp ← ask (mk_call service method req) (λ before, answer before req);
  to_json resp.

Definition forward (service method : bytes) (params : json) : M json :=
  serve service method params (λ before req, other_method before (mk_call service method req))
    (λ resp, s ← proto_to_json resp; parse_json s).

Definition unknown {A} (what : string) (name : bytes) : M A := raise (std_exception (str what ++ name)).

Definition dispatch_chain (v : JSONRPCServer) (method : bytes) (params : json) : M json :=
  let chain := str "chain" in
  if negb (_chain v) then fail "chain service not available"
  else if named method "get_head_info" then serve chain method params get_head_info (λ r, mret (head_info_to_json r))
  else if named method "get_chain_id" then serve chain method params get_chain_id (λ r, mret (chain_id_to_json r))
  else if named method "get_fork_heads" then forward chain method params
  else if named method "get_account_nonce" then serve chain method params get_account_nonce (λ r, mret (account_nonce_to_json r))
  else if named method "get_account_rc" then forward chain method params
  else if named method "get_resource_limits" then forward chain method params
  else if named method "read_contract" then serve chain method params read_contract (λ r, mret (read_contract_to_json r))
  else if named method "submit_block" then forward chain method params
  else if named method "submit_transaction" then forward chain method params
  else if named method "invoke_system_call" then forward chain method params
  else if named method "propose_block" then forward chain method params
  else unknown "Unknown chain method: " method.

Definition dispatch_block_store (v : JSONRPCServer) (method : bytes) (params : json) : M json :=
  let block_store := str "block_store" in
  if negb (_block_store v) then fail "block_store service not available"
  else if named method "get_blocks_by_height" then forward block_store method params
  else if named method "get_blocks_by_id" then forward block_store method params
  else if named method "get_highest_block" then forward block_store method params
  else if named method "add_block" then forward block_store method params
  else unknown "Unknown block_store method: " method.

Definition dispatch_mempool (v : JSONRPCServer) (method : bytes) (params : json) : M json :=
  let mempool := str "mempool" in
  if negb (_mempool v) then fail "mempool service not available"
  else if named method "get_pending_transactions" then forward mempool method params
  else if named method "check_pending_account_resources" then forward mempool method params
  else if named method "get_reserved_account_rc" then forward mempool method params
  else unknown "Unknown mempool method: " method.

Definition dispatch_contract_meta_store (v : JSONRPCServer) (method : bytes) (params : json) : M json :=
  if negb (_contract_meta v) then fail "contract_meta_store service not available"
  else if named method "get_contract_meta" then forward (str "contract_meta_store") method params
  else unknown "Unknown contract_meta_store method: " method.

Definition dispatch_transaction_store (v : JSONRPCServer) (method : bytes) (params : json) : M json :=
  if negb (_tx_store v) then fail "transaction_store service not available"
  else if named method "get_transactions_by_id" then forward (str "transaction_store") method params
  else unknown "Unknown transaction_store method: " method.

Definition dispatch_account_history (v : JSONRPCServer) (method : bytes) (params : json) : M json :=
  if negb (_acct_history v) then fail "account_history service not available"
  else if named method "get_account_history" then forward (str "account_history") method params
  else unknown "Unknown account_history method: " method.

Definition node_name : bytes := str "teleno_node".

(** [node.get_status]; the head is left out where the chain does not answer. *)
Definition get_status (v : JSONRPCServer) : M json :=
  let status := braces [(str "node", string_ node_name); (str "version", string_ build_version); (str "mode", string_ (str "monolith"))] in
  status ←
    (if _chain v then
       try_catch
         (head ← ask (mk_call (str "chain") (str "get_head_info") default_request) (λ before, get_head_info before default_request);
          mret (set_json (str "last_irreversible_block") (number (last_irreversible_block head))
                  (set_json (str "head_height") (number (head_height head)) status)))
         (λ _, mret (set_json (str "head_height") null status))
     else mret status);
  mret (set_json (str "services")
    (braces [(str "chain", boolean (_chain v)); (str "block_store", boolean (_block_store v));
             (str "mempool", boolean (_mempool v)); (str "contract_meta_store", boolean (_contract_meta v));
             (str "transaction_store", boolean (_tx_store v)); (str "account_history", boolean (_acct_history v))]) status).

Definition dispatch (v : JSONRPCServer) (service method : bytes) (params : json) : M json :=
  if named service "chain" then dispatch_chain v method params
  else if named service "block_store" then dispatch_block_store v method params
  else if named service "mempool" then dispatch_mempool v method params
  else if named service "contract_meta_store" then dispatch_contract_meta_store v method params
  else if named service "transaction_store" then dispatch_transaction_store v method params
  else if named service "account_history" then dispatch_account_history v method params
  else if named service "node" && named method "get_status" then get_status v
  else unknown "Unknown service: " service.

(** ** Requests *)

Definition PARSE_ERROR : Z := -32700.
Definition INVALID_REQUEST : Z := -32600.
Definition METHOD_NOT_FOUND : Z := -32601.
Definition INTERNAL_ERROR : Z := -32603.

Definition make_error (error_code : Z) (text : bytes) (id : json) : json :=
  braces [(str "jsonrpc", string_ (str "2.0"));
          (str "error", braces [(str "code", number error_code); (str "message", string_ text)]); (str "id", id)].

Definition make_result (r id : json) : json :=
  braces [(str "jsonrpc", string_ (str "2.0")); (str "result", r); (str "id", id)].

(** [while( std::getline( ss, part, '.' ) )], with what was read of a part;
    after the last dot there is no empty part. *)
Fixpoint split_dots (part s : bytes) : list bytes :=
  match s with
  | [] => match part with [] => [] | _ => [part] end
  | c :: s => if code c =? 46 then part :: split_dots [] s else split_dots (part ++ [c]) s
  end.

Definition parse_method (method_str : bytes) : bytes * bytes :=
  match reverse (split_dots [] method_str) with
  | method :: service :: _ => (service, method)
  | _ => ([], [])
  end.

Definition request_id (request : json) : json := default null (member (str "id") request).

Definition request_params (request : json) : json :=
  match member (str "params") request with None | Some null => object [] | Some p => p end.

Definition process_single_request (v : JSONRPCServer) (request : json) : M json :=
  let id := request_id request in
  match member (str "jsonrpc") request with
  | Some (string_ version) =>
    if named version "2.0" then
      match member (str "method") request with
      | Some (string_ method_str) =>
        let '(service, method) := parse_method method_str in
        if bool_decide (service = []) || bool_decide (method = []) then
          mret (make_error METHOD_NOT_FOUND (str "Malformed method: " ++ method_str) id)
        else if negb (allows (_access_policy v) service method) then
          mret (make_error METHOD_NOT_FOUND (str "RPC method denied by access policy: " ++ service ++ str "." ++ method) id)
        else
          try_catch
            (params ← normalize_koinos_params service method (request_params request);
             r ← dispatch v service method params;
             mret (make_result r id))
            (λ e, mret (make_error INTERNAL_ERROR
                          (match e with std_exception what => what | other_exception => str "Unknown service exception" end) id))
      | _ => mret (make_error INVALID_REQUEST (str "Missing or invalid method") id)
      end
    else mret (make_error INVALID_REQUEST (str "Invalid JSON-RPC version") id)
  | _ => mret (make_error INVALID_REQUEST (str "Invalid JSON-RPC version") id)
  end.

Definition process_body (v : JSONRPCServer) (body : bytes) : M bytes :=
  match parse body with
  | None => dump_json (make_error PARSE_ERROR (str "Parse error") null)
  | Some (array items) => responses ← in_elements (process_single_request v) items; dump_json (array responses)
  | Some parsed => response ← process_single_request v parsed; dump_json response
  end.

(** ** Sessions *)

Inductive verb : Type := options | get | post | other_verb.

#[global] Instance verb_eq_dec : EqDecision verb.
Proof. solve_decision. Defined.

Record http_request := mk_http_request { method : verb; target : bytes; request_body : bytes; keep_alive : bool }.
Record http_response := mk_http_response { status : Z; response_body : bytes; response_keep_alive : bool }.

Definition health : json :=
  braces [(str "status", string_ (str "ok")); (str "node", string_ node_name); (str "version", string_ build_version)].

(** A literal with [']s for the quotes. *)
Definition json_text (s : string) : bytes := (λ c, if decide (c = "'"%char) then ascii_of_N 34 else c) <$> str s.

Definition only_post : bytes :=
  json_text "{'jsonrpc':'2.0','error':{'code':-32600,'message':'Only POST allowed'},'id':null}".

Definition session_limit : bytes :=
  json_text "{'jsonrpc':'2.0','error':{'code':-32001,'message':'JSON-RPC session limit reached'},'id':null}".

Definition handle_request (v : JSONRPCServer) (req : http_request) : M http_response :=
  match method req with
  | options => mret (mk_http_response 204 [] (keep_alive req))
  | post => body ← process_body v (request_body req); mret (mk_http_response 200 body (keep_alive req))
  | verb =>
    if bool_decide (verb = get) && (named (target req) "/health" || named (target req) "/healthz" || named (target req) "/")
    then body ← dump_json health; mret (mk_http_response 200 body (keep_alive req))
    else mret (mk_http_response 405 only_post (keep_alive req))
  end.

(** The requests of a connection until one is the last, and their responses;
    an exception ends the session without a response. *)
Fixpoint handle_session (v : JSONRPCServer) (reqs : list http_request) : M (list http_response) :=
  match reqs with
  | [] => mret []
  | req :: reqs =>
    try_catch
      (r ← handle_request v req;
       if response_keep_alive r then rs ← handle_session v reqs; mret (r :: rs) else mret [r])
      (λ _, mret [])
  end.

(** ** Connections

    The connections that are served are counted, and [refused] is what the
    others were sent; a step is a call of [start] or [stop], a connection that
    is accepted, or a session that ends. *)

Record listener := mk_listener { _running : bool; _active_sessions : Z; _thread_count : Z; sessions : nat; refused : list bytes }.

Definition new_listener (threads : Z) : listener := mk_listener false 0 (Z.max threads 1) 0 [].

Inductive connection_step : listener → listener → Prop :=
| started a t n r : connection_step (mk_listener false a t n r) (mk_listener true a t n r)
| stopped a t n r : connection_step (mk_listener true a t n r) (mk_listener false a t n r)
| accepted a t n r : a < t → connection_step (mk_listener true a t n r) (mk_listener true (u32 (a + 1)) t (S n) r)
| limited a t n r : t ≤ a → connection_step (mk_listener true a t n r) (mk_listener true a t n (r ++ [session_limit]))
| ended b a t n r : connection_step (mk_listener b a t (S n) r) (mk_listener b (u32 (a - 1)) t n r).

End Server.
End JsonRpc.
