(* ===== verification/JsonRpcTheorems.v ===== *)
(** The JSON-RPC server: what it answers, which services it calls, and bytes
    that are printed and read again. *)

From S2P Require Import Prelude Keys JsonRpc.
Import JsonRpc.

(** ** Members *)

Lemma lookup_set_member name v l : lookup_member name (set_member name v l) = Some v.
Proof.
  induction l as [|[n w] l IH]; simpl; [by rewrite bool_decide_eq_true_2|].
  case_bool_decide as Hn; [simpl; by rewrite bool_decide_eq_true_2|].
  destruct (bytes_ltb name n); simpl; [by rewrite bool_decide_eq_true_2|]. by rewrite bool_decide_eq_false_2.
Qed.

Lemma lookup_set_member_ne name name' v l : name ≠ name' → lookup_member name' (set_member name v l) = lookup_member name' l.
Proof.
  intros Hne. induction l as [|[n w] l IH]; simpl; [by rewrite bool_decide_eq_false_2|].
  case_bool_decide as Hn; [subst n; simpl; by rewrite !(bool_decide_eq_false_2 (name = name'))|].
  destruct (bytes_ltb name n); simpl; [by rewrite (bool_decide_eq_false_2 (name = name'))|]. by rewrite IH.
Qed.

Lemma member_set_json name v j : is_object j = true → member name (set_json name v j) = Some v.
Proof. destruct j; try done. intros _. apply lookup_set_member. Qed.

Lemma member_set_json_ne name name' v j : name ≠ name' → member name' (set_json name v j) = member name' j.
Proof. intros Hne. destruct j; try done. by apply lookup_set_member_ne. Qed.

Lemma set_json_object name v j : is_object (set_json name v j) = is_object j.
Proof. by destruct j. Qed.

(** ** The policy *)

(** An entry of a list of the policy that is a service or one of its methods. *)
Definition lists (entries : list bytes) (service method : bytes) : Prop :=
  ∃ e, e ∈ entries ∧ canonicalize e ≠ [] ∧ (canonicalize e = service ∨ canonicalize e = service ++ str "." ++ method).

Lemma matches_spec entries service method : matches entries service method = true ↔ lists entries service method.
Proof.
  unfold lists. induction entries as [|e l IH]; simpl.
  - split; [done|]. intros (e & He & _). by apply not_elem_of_nil in He.
  - case_bool_decide as He.
    + rewrite IH. split; intros (x & Hx & Hn & Hm); exists x; [by split; [right|]|].
      apply elem_of_cons in Hx as [->|Hx]; done.
    + case_bool_decide as H1; simpl; [split; [|done]; exists e; split; [by left|auto]|].
      case_bool_decide as H2; simpl; [split; [|done]; exists e; split; [by left|auto]|].
      rewrite IH. split; intros (x & Hx & Hn & Hm); exists x; [by split; [right|]|].
      apply elem_of_cons in Hx as [->|Hx]; [naive_solver|done].
Qed.

(** A whitelist that has entries decides alone. *)
Lemma allows_spec p service method :
  allows p service method = true ↔
  (if decide (whitelist p = []) then ¬ lists (blacklist p) service method else lists (whitelist p) service method).
Proof.
  unfold allows. destruct (whitelist p) as [|e l] eqn:Hw.
  - rewrite decide_True by done. rewrite negb_true_iff, <-matches_spec. by destruct (matches _ _ _).
  - rewrite decide_False by done. apply matches_spec.
Qed.

(** ** Methods *)

Definition dotless (s : bytes) : Prop := Forall (λ c, code c ≠ 46) s.

Lemma split_dots_part part s : dotless s → split_dots part s = match part ++ s with [] => [] | _ => [part ++ s] end.
Proof.
  revert part. induction s as [|c s IH]; intros part Hs; simpl; [by rewrite app_nil_r|].
  apply Forall_cons in Hs as [Hc Hs]. destruct (Z.eqb_spec (code c) 46); [done|].
  rewrite IH by done. by rewrite <-app_assoc.
Qed.

Lemma split_dots_app part s rest : dotless s → split_dots part (s ++ str "." ++ rest) = (part ++ s) :: split_dots [] rest.
Proof.
  revert part. induction s as [|c s IH]; intros part Hs; [simpl; by rewrite app_nil_r|].
  apply Forall_cons in Hs as [Hc Hs]. simpl. destruct (Z.eqb_spec (code c) 46); [done|].
  rewrite IH by done. by rewrite <-app_assoc.
Qed.

(** A method is the last part, its service the one before it, whatever is
    before them. *)
Lemma parse_method_last service method : dotless service → dotless method → method ≠ [] →
  parse_method (service ++ str "." ++ method) = (service, method) ∧
  parse_method (rpc_prefix ++ service ++ str "." ++ method) = (service, method).
Proof.
  intros Hs Hm Hne. assert (split_dots [] (service ++ str "." ++ method) = [service; method]) as Hd.
  { rewrite split_dots_app, split_dots_part by done. simpl. by destruct method. }
  unfold parse_method. split; [by rewrite Hd|].
  change rpc_prefix with (str "koinos" ++ str "." ++ str "rpc" ++ str ".").
  rewrite <-!app_assoc. rewrite split_dots_app, split_dots_app, Hd by (repeat constructor; vm_compute; discriminate). done.
Qed.

Section Server.
Context {L : JsonLibrary} {V : Services} (v : JSONRPCServer).

(** ** Calls of a program

    [asks n P m]: whatever was called before, [m] makes at most [n] calls
    more, all of them [P], and it returns or throws. *)
Definition asks {A} (n : nat) (P : call → Prop) (m : M A) : Prop :=
  ∀ before, ∃ made, (m before).2 = before ++ made ∧ (length made ≤ n)%nat ∧ Forall P made ∧ (m before).1 ≠ OutOfFuel.

Lemma run_M {A B} (m : M A) (g : A → M B) s :
  (m ≫= g) s = match m s with (Ok a, s') => g a s' | (Throw e, s') => (Throw e, s') | (OutOfFuel, s') => (OutOfFuel, s') end.
Proof. reflexivity. Qed.

Abbreviation silent m := (asks 0 (λ _, False) m).

Lemma asks_weaken {A} n k (P Q : call → Prop) (m : M A) : asks n P m → (n ≤ k)%nat → (∀ c, P c → Q c) → asks k Q m.
Proof.
  intros Hm Hn HPQ before. destruct (Hm before) as (made & H1 & H2 & H3 & H4). exists made.
  split; [done|]. split; [lia|]. split; [|done]. by eapply Forall_impl.
Qed.

Lemma asks_ret {A} (a : A) : silent (mret a).
Proof. intros before. exists []. simpl. by rewrite app_nil_r. Qed.

Lemma asks_raise {A} e : silent (@raise (list call) exn A e).
Proof. intros before. exists []. simpl. by rewrite app_nil_r. Qed.

Lemma asks_bind {A B} n k P (m : M A) (g : A → M B) : asks n P m → (∀ a, asks k P (g a)) → asks (n + k) P (m ≫= g).
Proof.
  intros Hm Hg before. destruct (Hm before) as (made & H1 & H2 & H3 & H4). rewrite run_M.
  destruct (m before) as [[a|e|] after]; simpl in *; [|exists made; auto with lia|done].
  destruct (Hg a after) as (more & H5 & H6 & H7 & H8). exists (made ++ more).
  rewrite H5, H1, length_app, app_assoc. split; [done|]. split; [lia|]. split; [by apply Forall_app|].
  by rewrite <-H1.
Qed.

Lemma asks_try {A} n k P (m : M A) (h : exn → M A) : asks n P m → (∀ e, asks k P (h e)) → asks (n + k) P (try_catch m h).
Proof.
  intros Hm Hh before. destruct (Hm before) as (made & H1 & H2 & H3 & H4). unfold try_catch.
  destruct (m before) as [[a|e|] after]; simpl in *; [exists made; auto with lia| |done].
  destruct (Hh e after) as (more & H5 & H6 & H7 & H8). exists (made ++ more).
  rewrite H5, H1, length_app, app_assoc. split; [done|]. split; [lia|]. split; [by apply Forall_app|].
  by rewrite <-H1.
Qed.

Lemma asks_ask {A} c (answer : list call → reply A) : asks 1 (λ c', c' = c) (ask c answer).
Proof.
  intros before. exists [c]. unfold ask. rewrite run_M. simpl. rewrite run_M. simpl.
  destruct (answer before); simpl; auto using Forall_cons, Forall_nil.
Qed.

Lemma silent_then {A B} n P (m : M A) (g : A → M B) : silent m → (∀ a, asks n P (g a)) → asks n P (m ≫= g).
Proof. intros Hm Hg. apply (asks_bind 0 n P); [|done]. by eapply asks_weaken. Qed.

Lemma asks_silent {A} n P (m : M A) : silent m → asks n P m.
Proof. intros Hm. eapply asks_weaken; [done|lia|done]. Qed.

(** ** Parameters and responses make no calls *)

Lemma silent_in_elements g l : (∀ j, silent (g j)) → silent (in_elements g l).
Proof.
  intros Hg. induction l as [|j l IH]; simpl; [apply asks_ret|].
  apply silent_then; [done|]. intros k. apply silent_then; [done|]. intros l'. apply asks_ret.
Qed.

Lemma silent_in_member name g j : (∀ x, silent (g x)) → silent (in_member name g j).
Proof.
  intros Hg. unfold in_member. destruct (member _ _); [|apply asks_ret].
  apply silent_then; [done|]. intros y. apply asks_ret.
Qed.

Lemma silent_in_array name g j : (∀ x, silent (g x)) → silent (in_array name g j).
Proof.
  intros Hg. apply silent_in_member. intros x. destruct x; try apply asks_ret.
  apply silent_then; [by apply silent_in_elements|]. intros l'. apply asks_ret.
Qed.

Lemma silent_hex_pairs w : silent (hex_pairs w).
Proof.
  cut (∀ n w, (length w ≤ n)%nat → silent (hex_pairs w)); [intros Hn; by eapply Hn|].
  clear w. intros n. induction n as [|n IH]; intros [|a [|b w]] Hn; simpl in *; try apply asks_ret; try lia.
  destruct (hex_nibble a), (hex_nibble b); try apply asks_raise.
  apply silent_then; [apply IH; lia|]. intros rest. apply asks_ret.
Qed.

Lemma silent_hex_to_bytes w : silent (hex_to_bytes w).
Proof. unfold hex_to_bytes. destruct (Nat.even _); [apply silent_hex_pairs|apply asks_raise]. Qed.

Lemma silent_bytes_field name j : silent (normalize_json_bytes_field name j).
Proof.
  apply silent_in_member. intros x. destruct x as [| | | |w| |]; try apply asks_ret.
  destruct (has_hex_prefix w); [|apply asks_ret].
  apply silent_then; [apply silent_hex_to_bytes|]. intros b. apply asks_ret.
Qed.

Lemma silent_base58_field name j : silent (normalize_json_base58_field name j).
Proof.
  apply silent_in_member. intros x. destruct x as [| | | |[|c w]| |]; try apply asks_ret.
  destruct (from_base58 _); apply asks_ret.
Qed.

Lemma silent_wrapper g x : (∀ j, silent (g j)) → silent (through_wrapper g x).
Proof.
  intros Hg. destruct x; try apply asks_ret. apply silent_then; [done|]. intros w. apply asks_ret.
Qed.

Ltac quiet := repeat first [apply silent_bytes_field | apply silent_base58_field | apply asks_ret | apply asks_raise
  | apply silent_then; [|intros ?] | apply silent_wrapper; intros ? | apply silent_in_array; intros ? | apply silent_in_member; intros ?].

Lemma silent_operation j : silent (normalize_json_operation j).
Proof. unfold normalize_json_operation. quiet. Qed.

Lemma silent_transaction j : silent (normalize_json_transaction j).
Proof. unfold normalize_json_transaction, normalize_json_hash_array. quiet. Qed.

Lemma silent_block j : silent (normalize_json_block j).
Proof. unfold normalize_json_block, normalize_json_hash_array. quiet. Qed.

Lemma silent_block_receipt j : silent (normalize_json_block_receipt j).
Proof.
  unfold normalize_json_block_receipt, normalize_json_event, normalize_json_transaction_receipt, normalize_json_state_delta_entry,
    normalize_json_event, normalize_json_base58_array. quiet.
Qed.

Lemma silent_params service method params : silent (normalize_koinos_params service method params).
Proof.
  unfold normalize_koinos_params, normalize_json_hash_array.
  repeat match goal with |- asks _ _ (if ?b then _ else _) => destruct b end;
    quiet; auto using silent_transaction, silent_block, silent_block_receipt.
  destruct (named _ _); quiet; auto using silent_block, silent_block_receipt.
Qed.

Lemma silent_parse_json text : silent (parse_json text).
Proof. unfold parse_json. destruct (parse text); quiet. Qed.

Lemma silent_dump_json j : silent (dump_json j).
Proof. unfold dump_json. destruct (dump j); quiet. Qed.

Lemma silent_proto_to_json m : silent (proto_to_json m).
Proof.
  unfold proto_to_json. destruct (MessageToJsonString m) as [text|]; [|apply asks_ret].
  apply (asks_try 0 0).
  - apply silent_then; [apply silent_parse_json|]. intros j. apply silent_dump_json.
  - intros e. destruct e; [apply asks_ret|apply asks_raise].
Qed.

Lemma silent_json_to_proto service method params : silent (json_to_proto service method params).
Proof.
  unfold json_to_proto. destruct params as [| | | | | |[|]]; try apply asks_ret;
    (apply silent_then; [apply silent_dump_json|]; intros ?; apply asks_ret).
Qed.

(** ** Dispatch *)

(** The call that a method stands for. *)
Definition call_of (service method : bytes) (c : call) : Prop := call_service c = service ∧ call_method c = method.

Lemma asks_serve {A} service method params (answer : list call → Request → reply A) to_json : (∀ r, silent (to_json r)) →
  asks 1 (call_of service method) (serve service method params answer to_json).
Proof.
  intros Hj. unfold serve. apply silent_then; [apply silent_json_to_proto|]. intros [ok req].
  apply (asks_bind 1 0).
  - eapply asks_weaken; [apply asks_ask|done|]. by intros c ->.
  - intros a. by apply asks_silent.
Qed.

Lemma asks_forward service method params : asks 1 (call_of service method) (forward service method params).
Proof.
  apply asks_serve. intros r. apply silent_then; [apply silent_proto_to_json|]. intros text. apply silent_parse_json.
Qed.

Lemma asks_unknown {A} n P what name : asks n P (unknown what name : M A).
Proof. apply asks_silent, asks_raise. Qed.

Ltac methods := repeat match goal with |- asks _ _ (if ?b then _ else _) => destruct b end;
  first [apply asks_forward | apply asks_unknown | apply asks_silent, asks_raise | apply asks_serve; intros ?; apply asks_ret].

Lemma asks_dispatch_chain method params : asks 1 (call_of (str "chain") method) (dispatch_chain v method params).
Proof. unfold dispatch_chain. methods. Qed.
Lemma asks_dispatch_block_store method params : asks 1 (call_of (str "block_store") method) (dispatch_block_store v method params).
Proof. unfold dispatch_block_store. methods. Qed.
Lemma asks_dispatch_mempool method params : asks 1 (call_of (str "mempool") method) (dispatch_mempool v method params).
Proof. unfold dispatch_mempool. methods. Qed.
Lemma asks_dispatch_contract_meta_store method params :
  asks 1 (call_of (str "contract_meta_store") method) (dispatch_contract_meta_store v method params).
Proof. unfold dispatch_contract_meta_store. methods. Qed.
Lemma asks_dispatch_transaction_store method params :
  asks 1 (call_of (str "transaction_store") method) (dispatch_transaction_store v method params).
Proof. unfold dispatch_transaction_store. methods. Qed.
Lemma asks_dispatch_account_history method params :
  asks 1 (call_of (str "account_history") method) (dispatch_account_history v method params).
Proof. unfold dispatch_account_history. methods. Qed.

(** [node.get_status] looks at the head of the chain. *)
Definition serves (service method : bytes) (c : call) : Prop :=
  call_of service method c ∨
  service = str "node" ∧ method = str "get_status" ∧ call_of (str "chain") (str "get_head_info") c ∧ call_request c = default_request.

Lemma asks_get_status : asks 1 (serves (str "node") (str "get_status")) (get_status v).
Proof.
  unfold get_status. apply (asks_bind 1 0); [|intros ?; apply asks_silent, asks_ret].
  destruct (_chain v); [|apply asks_silent, asks_ret].
  apply (asks_try 1 0); [|intros e; apply asks_silent, asks_ret].
  apply (asks_bind 1 0); [|intros ?; apply asks_silent, asks_ret].
  eapply asks_weaken; [apply asks_ask|done|]. intros c ->. right. done.
Qed.

Lemma named_eq s literal : named s literal = true → s = str literal.
Proof. apply bool_decide_eq_true_1. Qed.

Lemma asks_dispatch service method params : asks 1 (serves service method) (dispatch v service method params).
Proof.
  assert (∀ m : M json, asks 1 (call_of service method) m → asks 1 (serves service method) m) as Hw.
  { intros m Hm. eapply asks_weaken; [done|done|]. intros c Hc. by left. }
  unfold dispatch.
  repeat match goal with |- asks _ _ (if named ?x ?y then _ else _) =>
    let H := fresh in destruct (named x y) eqn:H; [apply named_eq in H; subst; apply Hw|clear H] end.
  - apply asks_dispatch_chain.
  - apply asks_dispatch_block_store.
  - apply asks_dispatch_mempool.
  - apply asks_dispatch_contract_meta_store.
  - apply asks_dispatch_transaction_store.
  - apply asks_dispatch_account_history.
  - destruct (_ && _) eqn:Hn; [|apply asks_unknown].
    apply andb_true_iff in Hn as [H1 H2]. apply named_eq in H1, H2. subst. apply asks_get_status.
Qed.

(** ** Requests *)

(** A call that a request may make: its method stands for it and the policy
    allows it. *)
Definition permitted (request : json) (c : call) : Prop :=
  ∃ text service method, member (str "method") request = Some (string_ text) ∧ parse_method text = (service, method) ∧
    service ≠ [] ∧ method ≠ [] ∧ allows (_access_policy v) service method = true ∧ serves service method c.

(** A response to a request: of version 2.0, with the id of the request, and
    either a result or an error. *)
Definition answers (request response : json) : Prop :=
  member (str "jsonrpc") response = Some (string_ (str "2.0")) ∧
  member (str "id") response = Some (default null (member (str "id") request)) ∧
  ((∃ r, member (str "result") response = Some r ∧ member (str "error") response = None) ∨
   (∃ e error_code text, member (str "result") response = None ∧ member (str "error") response = Some e ∧
      member (str "code") e = Some (number error_code) ∧ error_code ∈ [INVALID_REQUEST; METHOD_NOT_FOUND; INTERNAL_ERROR] ∧
      member (str "message") e = Some (string_ text))).

Lemma make_result_answers r request : answers request (make_result r (request_id request)).
Proof. split; [done|]. split; [done|]. left. by exists r. Qed.

Lemma make_error_answers c text request : c ∈ [INVALID_REQUEST; METHOD_NOT_FOUND; INTERNAL_ERROR] →
  answers request (make_error c text (request_id request)).
Proof. intros Hc. split; [done|]. split; [done|]. right. by eexists _, c, text. Qed.

(** A single request is answered with at most one call, which is permitted. *)
Lemma single_request request before : ∃ response made,
  process_single_request v request before = (Ok response, before ++ made) ∧ answers request response ∧
  (length made ≤ 1)%nat ∧ Forall (permitted request) made.
Proof.
  assert (∀ c text, c ∈ [INVALID_REQUEST; METHOD_NOT_FOUND; INTERNAL_ERROR] → ∃ response made,
    (mret (make_error c text (request_id request)) : M json) before = (Ok response, before ++ made) ∧ answers request response ∧
    (length made ≤ 1)%nat ∧ Forall (permitted request) made) as Herr.
  { intros c text Hc. exists (make_error c text (request_id request)), []. rewrite app_nil_r.
    split; [done|]. split; [by apply make_error_answers|]. split; [simpl; lia|constructor]. }
  assert (INVALID_REQUEST ∈ [INVALID_REQUEST; METHOD_NOT_FOUND; INTERNAL_ERROR]) as Hinv by (by left).
  assert (METHOD_NOT_FOUND ∈ [INVALID_REQUEST; METHOD_NOT_FOUND; INTERNAL_ERROR]) as Hmet by (right; by left).
  unfold process_single_request.
  destruct (member (str "jsonrpc") request) as [[| | | |version| |]|]; try (by apply Herr).
  destruct (named version "2.0"); [|by apply Herr].
  destruct (member (str "method") request) as [[| | | |text| |]|] eqn:Hm; try (by apply Herr).
  destruct (parse_method text) as [service method] eqn:Hp.
  destruct (bool_decide (service = []) || bool_decide (method = [])) eqn:Hne; [by apply Herr|].
  destruct (allows (_access_policy v) service method) eqn:Ha; simpl; [|by apply Herr].
  apply orb_false_iff in Hne as [Hs%bool_decide_eq_false_1 Hme%bool_decide_eq_false_1].
  set (work := normalize_koinos_params service method (request_params request) ≫= _).
  assert (asks 1 (serves service method) work) as Hw.
  { apply silent_then; [apply silent_params|]. intros params. apply (asks_bind 1 0); [apply asks_dispatch|].
    intros r. apply asks_silent, asks_ret. }
  assert (∀ r after, work before = (Ok r, after) → answers request r) as Hok.
  { intros r after. unfold work. rewrite run_M. destruct (normalize_koinos_params _ _ _ _) as [[params|e|] s1]; try done.
    rewrite run_M. destruct (dispatch _ _ _ _ _) as [[x|e|] s2]; try done. intros [= <- <-]. apply make_result_answers. }
  destruct (Hw before) as (made & H1 & H2 & H3 & H4).
  assert (Forall (permitted request) made) as H5.
  { eapply Forall_impl; [done|]. intros c Hc. by exists text, service, method. }
  unfold try_catch. destruct (work before) as [[r|e|] after] eqn:Hr; simpl in *; [| |done].
  - exists r, made. rewrite H1. split; [done|]. split; [by eapply Hok|done].
  - eexists _, made. rewrite H1. split; [done|]. split; [|done]. apply make_error_answers. right. right. by left.
Qed.

Lemma all_requests items before : ∃ responses made,
  in_elements (process_single_request v) items before = (Ok responses, before ++ concat made) ∧
  Forall2 answers items responses ∧ Forall2 (λ item l, (length l ≤ 1)%nat ∧ Forall (permitted item) l) items made.
Proof.
  revert before. induction items as [|item items IH]; intros before.
  - exists [], []. simpl. rewrite app_nil_r. done.
  - destruct (single_request item before) as (r & l & Hr & Ha & Hl & Hp).
    destruct (IH (before ++ l)) as (rs & made & Hrs & Has & Hms). exists (r :: rs), (l :: made). simpl.
    rewrite run_M, Hr, run_M, Hrs, <-app_assoc. split; [done|]. split; constructor; done.
Qed.

(** The requests of a body. *)
Definition requests (body : bytes) : list json :=
  match parse body with None => [] | Some (array items) => items | Some request => [request] end.

(** The response to a body: that of its request, those of the requests of a
    batch in their order, or an error where it is not JSON. *)
Definition responds (body : bytes) (response : json) : Prop :=
  match parse body with
  | None => response = make_error PARSE_ERROR (str "Parse error") null
  | Some (array items) => ∃ responses, response = array responses ∧ Forall2 answers items responses
  | Some request => answers request response
  end.

Lemma body_run body before : ∃ response made,
  process_body v body before =
    (match dump response with Some text => Ok text | None => Throw (std_exception (dump_what response)) end, before ++ concat made) ∧
  responds body response ∧ Forall2 (λ item l, (length l ≤ 1)%nat ∧ Forall (permitted item) l) (requests body) made.
Proof.
  assert (∀ j s, dump_json j s = (match dump j with Some text => Ok text | None => Throw (std_exception (dump_what j)) end, s)) as Hd
    by (intros j s; unfold dump_json; by destruct (dump j)).
  unfold process_body, responds, requests. destruct (parse body) as [j|].
  - assert (∃ response made,
      (r ← process_single_request v j; dump_json r) before =
        (match dump response with Some text => Ok text | None => Throw (std_exception (dump_what response)) end, before ++ concat made) ∧
      answers j response ∧ Forall2 (λ item l, (length l ≤ 1)%nat ∧ Forall (permitted item) l) [j] made) as Hone.
    { destruct (single_request j before) as (r & l & Hr & Ha & Hl & Hp). exists r, [l].
      rewrite run_M, Hr, Hd. simpl. rewrite app_nil_r. split; [done|]. split; [done|]. by constructor. }
    destruct j as [| | | | |items|]; try exact Hone.
    destruct (all_requests items before) as (rs & made & Hrs & Ha & Hm). exists (array rs), made.
    rewrite run_M, Hrs, Hd. split; [done|]. split; [by exists rs|done].
  - exists (make_error PARSE_ERROR (str "Parse error") null), []. simpl. rewrite app_nil_r, Hd. done.
Qed.

(** C33. Every body is answered: a request by one response with its id and either a
    result or an error, a batch by one response for each of its requests in
    their order, and what is not JSON by an error; whatever the services
    answer or throw, the only way to no answer is a response that cannot be
    printed. *)
Theorem every_request_answered body before : ∃ response after, responds body response ∧
  process_body v body before =
    (match dump response with Some text => Ok text | None => Throw (std_exception (dump_what response)) end, after).
Proof. destruct (body_run body before) as (r & made & Hr & Ha & _). eauto. Qed.

(** C23. A service is called only for a request whose method stands for the call
    and is allowed by the access policy, and at most once for each request; but
    [node.get_status], where it is allowed, asks the chain for its head. *)
Theorem calls_permitted body before : ∃ made,
  (process_body v body before).2 = before ++ concat made ∧
  Forall2 (λ item l, (length l ≤ 1)%nat ∧ Forall (permitted item) l) (requests body) made.
Proof. destruct (body_run body before) as (r & made & -> & _ & Hm). eauto. Qed.

(** ** Bytes that are printed and read again *)

Lemma hex_nibble_digit x : 0 ≤ x < 16 → hex_nibble (hex_digit x) = Some x.
Proof.
  intros Hx. assert (x ∈ seqZ 0 16) as Hin by (apply elem_of_seqZ; lia).
  revert x Hin Hx. cut (Forall (λ x, hex_nibble (hex_digit x) = Some x) (seqZ 0 16)).
  - intros H x Hin _. by eapply Forall_forall in H.
  - repeat constructor.
Qed.

Lemma hex_pairs_digits b before :
  hex_pairs (concat ((λ c, [hex_digit (Z.shiftr (code c) 4); hex_digit (Z.land (code c) 15)]) <$> b)) before = (Ok b, before).
Proof.
  induction b as [|c b IH]; [done|]. simpl. pose proof (code_range c) as Hc.
  rewrite Z.shiftr_div_pow2 by lia. change (2 ^ 4) with 16. change (Z.land (code c) 15) with (Z.land (code c) (Z.ones 4)).
  rewrite Z.land_ones by lia. change (2 ^ 4) with 16.
  rewrite !hex_nibble_digit by (pose proof (Z.mod_pos_bound (code c) 16); lia || (split; [apply Z.div_pos; lia|apply Z.div_lt_upper_bound; lia])).
  unfold fmap in IH. rewrite run_M, IH. simpl.
  assert (byte_of (Z.lor (Z.shiftl (code c `div` 16) 4) (code c `mod` 16)) = c) as ->; [|done].
  rewrite lor_shiftl_add by (lia || (change (2 ^ 4) with 16; apply Z.mod_pos_bound; lia)).
  change (2 ^ 4) with 16. replace (code c `div` 16 * 16 + code c `mod` 16) with (code c) by (pose proof (Z.div_mod (code c) 16); lia).
  apply code_inj. by apply code_byte_of_small.
Qed.

(** What is printed in hexadecimal is read back. *)
Lemma hex_round_trip b before : hex_to_bytes (bytes_to_hex b) before = (Ok b, before).
Proof.
  unfold hex_to_bytes. change (has_hex_prefix (bytes_to_hex b)) with true. cbv beta iota zeta.
  unfold bytes_to_hex. rewrite drop_app_exact by done.
  assert (Nat.even (length (concat ((λ c, [hex_digit (Z.shiftr (code c) 4); hex_digit (Z.land (code c) 15)]) <$> b))) = true) as ->
    by (by induction b).
  apply hex_pairs_digits.
Qed.

(** The loop over the fields of a message. *)
Fixpoint rewrite_fields (fields : list (field * value)) (j : json) : json :=
  match fields with
  | [] => j
  | (f, x) :: fields =>
    rewrite_fields fields
      match member (field_name f) j with None => j | Some y => set_json (field_name f) (rewrite_value f x y) j end
  end.

Lemma rewrite_fields_eq fields l : rewrite_koinos_json_bytes (mk_message fields) (object l) = rewrite_fields fields (object l).
Proof. done. Qed.

Definition names (fields : list (field * value)) : list bytes := (λ p, field_name p.1) <$> fields.

Lemma rewrite_fields_other fields j name : name ∉ names fields → member name (rewrite_fields fields j) = member name j.
Proof.
  revert j. induction fields as [|[f x] fields IH]; intros j Hn; [done|]. simpl in *.
  apply not_elem_of_cons in Hn as [Hne Hn]. rewrite IH by done.
  destruct (member (field_name f) j); [|done]. by apply member_set_json_ne.
Qed.

Lemma rewrite_fields_object fields j : is_object (rewrite_fields fields j) = is_object j.
Proof.
  revert j. induction fields as [|[f x] fields IH]; intros j; [done|]. simpl. rewrite IH.
  destruct (member (field_name f) j); [|done]. apply set_json_object.
Qed.

Lemma rewrite_fields_member fields j f x y : NoDup (names fields) → (f, x) ∈ fields → is_object j = true →
  member (field_name f) j = Some y → member (field_name f) (rewrite_fields fields j) = Some (rewrite_value f x y).
Proof.
  revert j. induction fields as [|[f' x'] fields IH]; intros j Hd Hin Ho Hm; [by apply not_elem_of_nil in Hin|].
  simpl in *. apply NoDup_cons in Hd as [Hn Hd]. apply elem_of_cons in Hin as [Hin|Hin].
  - simplify_eq. rewrite Hm, rewrite_fields_other by done. by apply member_set_json.
  - assert (field_name f ≠ field_name f') as Hne.
    { intros He. apply Hn. rewrite <-He. apply list_elem_of_fmap. by exists (f, x). }
    destruct (member (field_name f') j) as [z|]; [|by apply IH].
    apply IH; [done|done|by rewrite set_json_object|]. by rewrite member_set_json_ne.
Qed.

(** C39. A field of bytes that the server prints is understood when it is sent
    back: in hexadecimal and in base58 it becomes the base64 of the same bytes,
    which protobuf reads, and what is printed in base64 stays, unless it looks
    like hexadecimal. *)
Theorem bytes_field_round_trip fields l f b s name before :
  NoDup (names fields) → (f, bytes_value b) ∈ fields → field_name f = str name → lookup_member (str name) l = Some (string_ s) →
  let printed := rewrite_koinos_json_bytes (mk_message fields) (object l) in
  let understood := set_json (str name) (string_ (to_base64 b)) printed in
  match default BASE64 (field_btype f) with
  | HEX | BLOCK_ID | TRANSACTION_ID => normalize_json_bytes_field name printed before = (Ok understood, before)
  | BASE58 | CONTRACT_ID | ADDRESS => to_base58 b ≠ [] → from_base58 (to_base58 b) = Some b →
      normalize_json_base58_field name printed before = (Ok understood, before)
  | BASE64 => has_hex_prefix (to_base64 b) = false → normalize_json_bytes_field name printed before = (Ok understood, before)
  end.
Proof.
  intros Hd Hin Hname Hl. cbv zeta. rewrite rewrite_fields_eq.
  assert (member (str name) (rewrite_fields fields (object l)) = Some (string_ (encode_koinos_bytes_field f b))) as Hm.
  { rewrite <-Hname. erewrite rewrite_fields_member; [|done..|simpl; by rewrite Hname]. done. }
  assert (∀ w, w = str name → ∀ g, in_member name g (rewrite_fields fields (object l)) before =
    (y ← g (string_ (encode_koinos_bytes_field f b)); mret (set_json (str name) y (rewrite_fields fields (object l)))) before) as Hat
    by (intros w _ g; unfold in_member; by rewrite Hm).
  specialize (Hat _ eq_refl). unfold encode_koinos_bytes_field in Hm, Hat.
  assert (∀ w, w = bytes_to_hex b → normalize_json_bytes_field name (rewrite_fields fields (object l)) before =
    (y ← (if has_hex_prefix w then c ← hex_to_bytes w; mret (string_ (to_base64 c)) else mret (string_ w));
     mret (set_json (str name) y (rewrite_fields fields (object l)))) before →
    normalize_json_bytes_field name (rewrite_fields fields (object l)) before =
      (Ok (set_json (str name) (string_ (to_base64 b)) (rewrite_fields fields (object l))), before)) as Hhex.
  { intros w -> ->. change (has_hex_prefix (bytes_to_hex b)) with true. cbv iota. by rewrite run_M, run_M, hex_round_trip. }
  destruct (default BASE64 (field_btype f)).
  - intros Hp. unfold normalize_json_bytes_field. by rewrite Hat, Hp.
  - eapply Hhex; [done|]. unfold normalize_json_bytes_field. by rewrite Hat.
  - intros Hne Hb. unfold normalize_json_base58_field. rewrite Hat, run_M. destruct (to_base58 b); [done|]. by rewrite Hb.
  - eapply Hhex; [done|]. unfold normalize_json_bytes_field. by rewrite Hat.
  - eapply Hhex; [done|]. unfold normalize_json_bytes_field. by rewrite Hat.
  - intros Hne Hb. unfold normalize_json_base58_field. rewrite Hat, run_M. destruct (to_base58 b); [done|]. by rewrite Hb.
  - intros Hne Hb. unfold normalize_json_base58_field. rewrite Hat, run_M. destruct (to_base58 b); [done|]. by rewrite Hb.
Qed.

(** ** Connections *)

(** The counter is the number of sessions, and never passes the limit. *)
Theorem sessions_bounded threads s : threads < 2 ^ 32 → rtc connection_step (new_listener threads) s →
  _active_sessions s = Z.of_nat (sessions s) ∧ Z.of_nat (sessions s) ≤ _thread_count s ∧ _thread_count s = Z.max threads 1.
Proof.
  intros Ht Hs. pose (I := λ s, _active_sessions s = Z.of_nat (sessions s) ∧ Z.of_nat (sessions s) ≤ _thread_count s ∧
    _thread_count s = Z.max threads 1). change (I s). assert (I (new_listener threads)) as H0 by (unfold I; simpl; lia).
  revert H0. induction Hs as [|x y z Hxy _ IH]; [done|]. intros Hx. apply IH. clear IH.
  unfold I in *. destruct Hxy; simpl in *; try lia; rewrite u32_small by lia; lia.
Qed.

End Server.

(** ** An example

    A library whose base64 and base58 are the bytes after a letter, and
    services of which only the chain answers. *)
Module JsonRpcExample.

Definition body : bytes := str "batch".

Definition request_of (id : Z) (method : string) : json :=
  braces [(str "jsonrpc", string_ (str "2.0")); (str "id", number id); (str "method", string_ (str method))].

Definition batch : list json :=
  [request_of 1 "chain.get_chain_id"; request_of 2 "koinos.rpc.chain.submit_block"; request_of 3 "chain"; null].

Definition library : JsonLibrary := {|
  Request := unit;
  default_request := tt;
  JsonStringToMessage _ _ _ := (true, tt);
  MessageToJsonString _ := None;
  parse s := if bool_decide (s = body) then Some (array batch) else None;
  parse_what _ := [];
  dump _ := Some [];
  dump_what _ := [];
  to_base64 b := str "b" ++ b;
  to_base58 b := str "z" ++ b;
  from_base58 s := match s with c :: b => if bool_decide (c = "z"%char) then Some b else None | [] => None end
|}.

Definition services : @Services library := {|
  get_head_info _ _ := threw [];
  get_chain_id _ _ := returned (str "id");
  get_account_nonce _ _ := threw [];
  read_contract _ _ := threw [];
  other_method _ _ := threw_other;
  build_version := []
|}.

Definition server : JSONRPCServer := mk_server true false false false false false (mk_policy [str " koinos.rpc.chain.submit_block"] []).

(** One call: the second request is denied, the others are malformed. *)
Example batch_calls :
  (@process_body library services server body []).2 = [@mk_call library (str "chain") (str "get_chain_id") tt].
Proof. vm_compute. reflexivity. Qed.

Definition id_field : field := mk_field (str "id") (Some BLOCK_ID).
Definition signer_field : field := mk_field (str "signer") (Some ADDRESS).
Definition fields : list (field * value) := [(id_field, bytes_value (str "block")); (signer_field, bytes_value (str "alice"))].
Definition members : list (bytes * json) := [(str "id", string_ (str "x")); (str "signer", string_ (str "y"))].

Lemma bytes_field_round_trip_witness :
  @rewrite_koinos_json_bytes library (mk_message fields) (object members) =
    object [(str "id", string_ (str "0x626c6f636b")); (str "signer", string_ (str "zalice"))] ∧
  @normalize_json_bytes_field library "id" (@rewrite_koinos_json_bytes library (mk_message fields) (object members)) [] =
    (Ok (object [(str "id", string_ (str "bblock")); (str "signer", string_ (str "zalice"))]), []) ∧
  @normalize_json_base58_field library "signer" (@rewrite_koinos_json_bytes library (mk_message fields) (object members)) [] =
    (Ok (object [(str "id", string_ (str "0x626c6f636b")); (str "signer", string_ (str "balice"))]), []).
Proof.
  assert (NoDup (names fields)) as Hd by decided.
  split; [vm_compute; reflexivity|]. split.
  - exact (@bytes_field_round_trip library fields members id_field (str "block") (str "x") "id" []
      Hd ltac:(left) eq_refl eq_refl).
  - exact (@bytes_field_round_trip library fields members signer_field (str "alice") (str "y") "signer" []
      Hd ltac:(right; left) eq_refl eq_refl ltac:(discriminate) eq_refl).
Defined.

Lemma sessions_bounded_witness : ∃ s, rtc connection_step (new_listener 1) s ∧ sessions s = 1%nat ∧ refused s = [session_limit] ∧
  _active_sessions s = 1 ∧ Z.of_nat (sessions s) ≤ _thread_count s.
Proof.
  exists (mk_listener true 1 1 1 [session_limit]).
  assert (rtc connection_step (new_listener 1) (mk_listener true 1 1 1 [session_limit])) as Hr.
  { eapply rtc_l; [apply started|]. eapply rtc_l; [by apply accepted|]. eapply rtc_l; [by apply limited|]. apply rtc_refl. }
  split; [exact Hr|]. split; [reflexivity|]. split; [reflexivity|].
  destruct (sessions_bounded 1 (mk_listener true 1 1 1 [session_limit]) ltac:(lia) Hr) as (H1 & H2 & _). split; [exact H1|exact H2].
Defined.

End JsonRpcExample.
