(* ===== verification/Session.v ===== *)
(** The sessions of an execution, [src/src/koinos/chain/session.cpp].

    A session is shared by the resource meter, which charges it, and the
    chronicler, which copies events to it; both hold it by a weak pointer,
    [None] once it expired.  The charge of a session and its events are
    separate fields, so each holder carries the session on its own. *)

From S2P Require Import Prelude.

(** The exceptions of metering. *)
Inductive meter_exn : Type :=
| disk_storage_limit_exceeded_exception
| network_bandwidth_limit_exceeded_exception
| compute_bandwidth_limit_exceeded_exception
| insufficient_rc_exception
| reversion_exception.

#[global] Instance meter_exn_eq_dec : EqDecision meter_exn.
Proof. solve_decision. Defined.

(** [protocol::event_data]: the sequence number and the rest. *)
Record event_body := mk_event_body { source : bytes; event_name : bytes; event_bytes : bytes; impacted : list bytes }.
Record event_data := mk_event_data { sequence : Z; event_rest : event_body }.

Module Session.

Record session := mk_session {
  _begin_rc : Z;
  _end_rc : Z;
  _events : list event_data;
  _logs : list bytes
}.

Definition new (begin_rc : Z) : session := mk_session begin_rc begin_rc [] [].

Definition use_rc (rc : Z) : prog session meter_exn unit :=
  s ← get_state;
  assert_that (rc <=? _end_rc s) insufficient_rc_exception;;
  put_state (mk_session (_begin_rc s) (i64 (_end_rc s - rc)) (_events s) (_logs s)).

Definition remaining_rc (s : session) : Z := u64 (Z.min (_begin_rc s) (_end_rc s)).

Definition used_rc (s : session) : Z :=
  if _begin_rc s <? _end_rc s then 0 else u64 (i64 (_begin_rc s - _end_rc s)).

Definition push_event (ev : event_data) (s : session) : session :=
  mk_session (_begin_rc s) (_end_rc s) (_events s ++ [ev]) (_logs s).

Definition push_log (log : bytes) (s : session) : session :=
  mk_session (_begin_rc s) (_end_rc s) (_events s) (_logs s ++ [log]).

End Session.
