(* ===== verification/Chronicler.v ===== *)
(** The chronicler that collects the events and logs of an execution,
    [src/src/koinos/chain/chronicler.cpp]. *)

From S2P Require Import Prelude.
From S2P Require Import Session.

Module Chronicler.

Record chronicler := mk_chronicler {
  _session : option Session.session;
  _events : list (option bytes * event_data);
  _logs : list bytes;
  _seq_no : Z
}.

Definition new : chronicler := mk_chronicler None [] [] 0.

Definition set_session (s : option Session.session) (c : chronicler) : chronicler :=
  mk_chronicler s (_events c) (_logs c) (_seq_no c).

Definition push_event (transaction_id : option bytes) (ev : event_data) (c : chronicler) : chronicler :=
  let ev := mk_event_data (_seq_no c) (event_rest ev) in
  mk_chronicler (Session.push_event ev <$> _session c) (_events c ++ [(transaction_id, ev)]) (_logs c)
    (u32 (_seq_no c + 1)).

Definition push_log (message : bytes) (c : chronicler) : chronicler :=
  match _session c with
  | Some s => mk_chronicler (Some (Session.push_log message s)) (_events c) (_logs c) (_seq_no c)
  | None => mk_chronicler None (_events c) (_logs c ++ [message]) (_seq_no c)
  end.

End Chronicler.
