(* ===== verification/ResourceMeter.v ===== *)
(** The resource meter, [src/src/koinos/chain/resource_meter.cpp], and the
    metering of the virtual machine's ticks, [host_api.cpp].

    A meter is a program over its own fields and the session it charges. *)

From S2P Require Import Prelude.
From S2P Require Import Session.

Module ResourceMeter.

(** [chain::resource_limit_data]. *)
Record resource_limit_data := mk_resource_limit_data {
  disk_storage_limit : Z;
  disk_storage_cost : Z;
  network_bandwidth_limit : Z;
  network_bandwidth_cost : Z;
  compute_bandwidth_limit : Z;
  compute_bandwidth_cost : Z
}.

Record resource_meter := mk_resource_meter {
  _disk_storage_remaining : Z;
  _system_disk_storage_used : Z;
  _network_bandwidth_remaining : Z;
  _system_network_bandwidth_used : Z;
  _compute_bandwidth_remaining : Z;
  _system_compute_bandwidth_used : Z;
  _resource_limit_data : resource_limit_data
}.

(** The meter and the session its weak pointer leads to. *)
Record metering := mk_metering { meter : resource_meter; _session : option Session.session }.

(** [int128_t::convert_to< int64_t >] of boost, on values up to the largest
    64-bit one. *)
Class Int128 := { convert_to_int64 : Z → Z }.
Class Int128Laws `{!Int128} := { convert_small x : is_i64 x → convert_to_int64 x = x }.

Abbreviation M := (prog metering meter_exn).

Section Meter.
Context `{!Int128}.

Definition set_limits (rld : resource_limit_data) : resource_meter :=
  mk_resource_meter (disk_storage_limit rld) 0 (network_bandwidth_limit rld) 0 (compute_bandwidth_limit rld) 0 rld.

Definition initial_rld : resource_limit_data := mk_resource_limit_data u64_max 0 u64_max 0 u64_max 0.

Definition new : metering := mk_metering (set_limits initial_rld) None.

Definition set_resource_limit_data (rld : resource_limit_data) : M unit :=
  mod_state (λ s, mk_metering (set_limits rld) (_session s)).

Definition set_session (session : option Session.session) : M unit :=
  mod_state (λ s, mk_metering (meter s) session).

Definition mod_meter (f : resource_meter → resource_meter) : M unit :=
  mod_state (λ s, mk_metering (f (meter s)) (_session s)).

(** Charge the session [amount * cost], or [system] when there is none. *)
Definition charge (amount cost : Z) (system : resource_meter → resource_meter) : M unit :=
  session ← gets_state _session;
  match session with
  | Some session =>
    let rc_cost := amount * cost in
    assert_that (rc_cost <=? i64_max) reversion_exception;;
    match Session.use_rc (convert_to_int64 rc_cost) session with
    | (Ok _, session) => mod_state (λ s, mk_metering (meter s) (Some session))
    | (Throw e, _) => raise e
    | (OutOfFuel, _) => λ s, (OutOfFuel, s)
    end
  | None => mod_meter system
  end.

(** ** Disk storage *)

Definition use_disk_storage (amount : Z) : M unit :=
  m ← gets_state meter;
  assert_that (amount <=? i64 (_disk_storage_remaining m)) disk_storage_limit_exceeded_exception;;
  charge amount (disk_storage_cost (_resource_limit_data m)) (λ m,
    mk_resource_meter (_disk_storage_remaining m) (i64 (_system_disk_storage_used m + amount))
      (_network_bandwidth_remaining m) (_system_network_bandwidth_used m) (_compute_bandwidth_remaining m)
      (_system_compute_bandwidth_used m) (_resource_limit_data m));;
  mod_meter (λ m,
    mk_resource_meter
      (if 0 <=? amount then u64 (_disk_storage_remaining m - u64 amount)
       else u64 (_disk_storage_remaining m + u64 (i64 (-1 * amount))))
      (_system_disk_storage_used m) (_network_bandwidth_remaining m) (_system_network_bandwidth_used m)
      (_compute_bandwidth_remaining m) (_system_compute_bandwidth_used m) (_resource_limit_data m)).

Definition disk_storage_used (s : metering) : Z :=
  let m := meter s in
  if disk_storage_limit (_resource_limit_data m) <? _disk_storage_remaining m then 0
  else u64 (disk_storage_limit (_resource_limit_data m) - _disk_storage_remaining m).

Definition remaining_of (cost remaining : Z) (session : option Session.session) : Z :=
  match session with
  | Some session => if 0 <? cost then Z.min (Session.remaining_rc session / cost) remaining else remaining
  | None => remaining
  end.

Definition disk_storage_remaining (s : metering) : Z :=
  remaining_of (disk_storage_cost (_resource_limit_data (meter s))) (_disk_storage_remaining (meter s)) (_session s).

Definition system_disk_storage_used (s : metering) : Z := Z.max 0 (_system_disk_storage_used (meter s)).

(** ** Network bandwidth *)

Definition use_network_bandwidth (amount : Z) : M unit :=
  m ← gets_state meter;
  assert_that (u64 amount <=? _network_bandwidth_remaining m) network_bandwidth_limit_exceeded_exception;;
  assert_that (0 <=? amount) network_bandwidth_limit_exceeded_exception;;
  charge amount (network_bandwidth_cost (_resource_limit_data m)) (λ m,
    mk_resource_meter (_disk_storage_remaining m) (_system_disk_storage_used m) (_network_bandwidth_remaining m)
      (i64 (_system_network_bandwidth_used m + amount)) (_compute_bandwidth_remaining m)
      (_system_compute_bandwidth_used m) (_resource_limit_data m));;
  mod_meter (λ m,
    mk_resource_meter (_disk_storage_remaining m) (_system_disk_storage_used m)
      (u64 (_network_bandwidth_remaining m - u64 amount)) (_system_network_bandwidth_used m)
      (_compute_bandwidth_remaining m) (_system_compute_bandwidth_used m) (_resource_limit_data m)).

Definition network_bandwidth_used (s : metering) : Z :=
  u64 (network_bandwidth_limit (_resource_limit_data (meter s)) - _network_bandwidth_remaining (meter s)).

Definition network_bandwidth_remaining (s : metering) : Z :=
  remaining_of (network_bandwidth_cost (_resource_limit_data (meter s))) (_network_bandwidth_remaining (meter s))
    (_session s).

Definition system_network_bandwidth_used (s : metering) : Z := Z.max 0 (_system_network_bandwidth_used (meter s)).

(** ** Compute bandwidth *)

Definition use_compute_bandwidth (ticks : Z) : M unit :=
  m ← gets_state meter;
  assert_that (u64 ticks <=? _compute_bandwidth_remaining m) compute_bandwidth_limit_exceeded_exception;;
  assert_that (0 <=? ticks) compute_bandwidth_limit_exceeded_exception;;
  charge ticks (compute_bandwidth_cost (_resource_limit_data m)) (λ m,
    mk_resource_meter (_disk_storage_remaining m) (_system_disk_storage_used m) (_network_bandwidth_remaining m)
      (_system_network_bandwidth_used m) (_compute_bandwidth_remaining m)
      (i64 (_system_compute_bandwidth_used m + ticks)) (_resource_limit_data m));;
  mod_meter (λ m,
    mk_resource_meter (_disk_storage_remaining m) (_system_disk_storage_used m) (_network_bandwidth_remaining m)
      (_system_network_bandwidth_used m) (u64 (_compute_bandwidth_remaining m - u64 ticks))
      (_system_compute_bandwidth_used m) (_resource_limit_data m)).

Definition compute_bandwidth_used (s : metering) : Z :=
  u64 (compute_bandwidth_limit (_resource_limit_data (meter s)) - _compute_bandwidth_remaining (meter s)).

Definition compute_bandwidth_remaining (s : metering) : Z :=
  remaining_of (compute_bandwidth_cost (_resource_limit_data (meter s))) (_compute_bandwidth_remaining (meter s))
    (_session s).

Definition system_compute_bandwidth_used (s : metering) : Z := Z.max 0 (_system_compute_bandwidth_used (meter s)).

(** ** The ticks of the virtual machine, [host_api.cpp] *)

Definition get_meter_ticks (s : metering) : Z :=
  let remaining := compute_bandwidth_remaining s in
  i64 (if i64_max <? remaining then i64_max else remaining).

Definition use_meter_ticks (meter_ticks : Z) : M unit :=
  remaining ← gets_state compute_bandwidth_remaining;
  if remaining <? meter_ticks then
    remaining ← gets_state compute_bandwidth_remaining;
    use_compute_bandwidth (i64 remaining);;
    use_compute_bandwidth 1
  else use_compute_bandwidth (i64 meter_ticks).

End Meter.
End ResourceMeter.
