(* ===== verification/MeteringTheorems.v ===== *)
(** Facts of metering: a charge and a use on every branch, the books of a
    meter after a list of uses, and what is left of the ticks.

    What metering promises: exact accounting, refusals without a trace,
    exhaustion of the ticks, and the numbering of events; and the limit the
    disk storage guard misreads. *)

From S2P Require Import Prelude Session Chronicler ResourceMeter.
Import ResourceMeter.

Section Meter.
Context `{!Int128} `{!Int128Laws}.

(** ** What a history of uses adds up to *)

Inductive use : Type :=
| Disk (amount : Z)
| Network (amount : Z)
| Compute (ticks : Z).

Definition run_use (u : use) : M unit :=
  match u with
  | Disk n => use_disk_storage n
  | Network n => use_network_bandwidth n
  | Compute n => use_compute_bandwidth n
  end.

(** Run the uses one after the other, whatever they throw; the result are
    the uses that were accepted. *)
Fixpoint run_uses (l : list use) (s : metering) : list use * metering :=
  match l with
  | [] => ([], s)
  | u :: l =>
    match run_use u s with
    | (Ok _, s) => let (acc, s) := run_uses l s in (u :: acc, s)
    | (_, s) => run_uses l s
    end
  end.

Definition sum (f : use → Z) (l : list use) : Z := foldr (λ u n, f u + n) 0 l.

Definition disk_of (u : use) : Z := match u with Disk n => n | _ => 0 end.
Definition network_of (u : use) : Z := match u with Network n => n | _ => 0 end.
Definition compute_of (u : use) : Z := match u with Compute n => n | _ => 0 end.
Definition freed_of (u : use) : Z := match u with Disk n => Z.max 0 (- n) | _ => 0 end.
Definition rc_of (rld : resource_limit_data) (u : use) : Z :=
  match u with
  | Disk n => n * disk_storage_cost rld
  | Network n => n * network_bandwidth_cost rld
  | Compute n => n * compute_bandwidth_cost rld
  end.
Definition amount_of (u : use) : Z := match u with Disk n | Network n | Compute n => n end.

(** The books: limits [rld], a session that began with [begin_rc], and [F]
    the most disk storage that may be freed. *)
Record limits_ok (rld : resource_limit_data) (begin_rc F : Z) : Prop := {
  limit_disk : 0 ≤ disk_storage_limit rld ∧ disk_storage_limit rld + F ≤ i64_max;
  limit_network : 0 ≤ network_bandwidth_limit rld ≤ i64_max;
  limit_compute : 0 ≤ compute_bandwidth_limit rld ≤ i64_max;
  cost_disk : 0 ≤ disk_storage_cost rld;
  cost_network : 0 ≤ network_bandwidth_cost rld;
  cost_compute : 0 ≤ compute_bandwidth_cost rld;
  begin_ok : 0 ≤ begin_rc ∧ begin_rc + F * disk_storage_cost rld ≤ i64_max
}.

Lemma limits_in_range rld begin_rc F : limits_ok rld begin_rc F → 0 ≤ F →
  0 ≤ disk_storage_limit rld ≤ i64_max ∧ 0 ≤ network_bandwidth_limit rld ≤ i64_max ∧
  0 ≤ compute_bandwidth_limit rld ≤ i64_max ∧ 0 ≤ begin_rc ≤ i64_max.
Proof. intros [[? ?] ? ? ? _ _ [? ?]] HF. split_and!; nia. Qed.

Record books (rld : resource_limit_data) (begin_rc : Z) (acc : list use) (s : metering) : Prop := {
  book_limits : _resource_limit_data (meter s) = rld;
  book_disk : _disk_storage_remaining (meter s) = disk_storage_limit rld - sum disk_of acc;
  book_network : _network_bandwidth_remaining (meter s) = network_bandwidth_limit rld - sum network_of acc;
  book_compute : _compute_bandwidth_remaining (meter s) = compute_bandwidth_limit rld - sum compute_of acc;
  book_rc : ∃ ev lg, _session s = Some (Session.mk_session begin_rc (begin_rc - sum (rc_of rld) acc) ev lg);
  book_disk_in : 0 ≤ disk_storage_limit rld - sum disk_of acc;
  book_network_in : 0 ≤ sum network_of acc ≤ network_bandwidth_limit rld;
  book_compute_in : 0 ≤ sum compute_of acc ≤ compute_bandwidth_limit rld;
  book_rc_in : 0 ≤ begin_rc - sum (rc_of rld) acc
}.

Lemma sum_snoc f l u : sum f (l ++ [u]) = sum f l + f u.
Proof. unfold sum. induction l; cbn in *; lia. Qed.

Lemma freed_nonneg l : 0 ≤ sum freed_of l.
Proof. unfold sum. induction l as [|[n|n|n] l]; cbn in *; lia. Qed.

Lemma disk_bounded l : - sum freed_of l ≤ sum disk_of l.
Proof. unfold sum. induction l as [|[n|n|n] l]; cbn in *; lia. Qed.

(** Refunds come from freed storage only. *)
Definition nonneg_bandwidth (u : use) : Prop := match u with Disk _ => True | Network n | Compute n => 0 ≤ n end.

Lemma rc_bounded rld begin_rc F l : limits_ok rld begin_rc F → Forall nonneg_bandwidth l →
  - (sum freed_of l * disk_storage_cost rld) ≤ sum (rc_of rld) l.
Proof.
  intros [_ _ _ Hd Hn Hc _]. unfold sum. induction 1 as [|[n|n|n] l Hu _ IH]; cbn in *; nia.
Qed.

(** ** One use *)

(** What a use does when it is accepted: the new meter, by cases on the
    session. *)
Lemma i64_id x : is_i64 x → i64 x = x.
Proof. intros Hx. apply signed_small; unfold is_i64 in Hx; lia. Qed.

Lemma u64_id x : is_u64 x → u64 x = x.
Proof. intros Hx. apply wrap_small. exact Hx. Qed.

(** [charge] on a session: refused without a trace, or exact. *)
Lemma charge_spec amount cost system s b e ev lg :
  _session s = Some (Session.mk_session b e ev lg) → 0 ≤ e → is_i64 (e - amount * cost) ∨ e < amount * cost →
  is_i64 e → is_i64 (amount * cost) ∨ i64_max < amount * cost →
  charge amount cost system s =
    (if i64_max <? amount * cost then (Throw reversion_exception, s)
     else if e <? amount * cost then (Throw insufficient_rc_exception, s)
     else (Ok tt, mk_metering (meter s) (Some (Session.mk_session b (e - amount * cost) ev lg)))).
Proof.
  intros Hs He Hr Hi Hc. unfold charge, gets_state. rewrite run_bind, Hs. unfold assert_that.
  destruct (Z.leb_spec (amount * cost) i64_max) as [Hle|Hgt]; rewrite run_bind.
  - replace (i64_max <? amount * cost) with false by (symmetry; apply Z.ltb_ge; lia).
    cbn [mret prog_ret]. destruct Hc as [Hc|Hc]; [|lia].
    rewrite convert_small by exact Hc. unfold Session.use_rc, get_state, assert_that. rewrite run_bind.
    cbn [Session._end_rc]. destruct (Z.leb_spec (amount * cost) e) as [Hle2|Hgt2]; rewrite run_bind.
    + replace (e <? amount * cost) with false by (symmetry; apply Z.ltb_ge; lia).
      cbn [mret prog_ret]. unfold put_state, mod_state. rewrite i64_id; [reflexivity|]. destruct Hr; [done|lia].
    + replace (e <? amount * cost) with true by (symmetry; apply Z.ltb_lt; lia). reflexivity.
  - replace (i64_max <? amount * cost) with true by (symmetry; apply Z.ltb_lt; lia). reflexivity.
Qed.

(** A program that throws only from the state it started in. *)
Definition refuses_purely {A} (m : M A) : Prop := ∀ s,
  match m s with
  | (Throw _, s') => s' = s
  | (Ok _, _) => True
  | (OutOfFuel, _) => False
  end.

Lemma pure_gets {A B} (f : metering → A) (k : A → M B) :
  (∀ a, refuses_purely (k a)) → refuses_purely (gets_state f ≫= k).
Proof. intros Hk s. apply Hk. Qed.

Lemma pure_assert {A} b e (m : M A) : refuses_purely m → refuses_purely (assert_that b e;; m).
Proof. intros Hm s. unfold assert_that. destruct b; [apply Hm|done]. Qed.

Lemma pure_then_mod {A} f (m : M A) : refuses_purely m → refuses_purely (m;; mod_state f).
Proof. intros Hm s. rewrite run_bind. specialize (Hm s). by destruct (m s) as [[?|?|] ?]. Qed.

Lemma charge_pure amount cost system : refuses_purely (charge amount cost system).
Proof.
  apply pure_gets. intros [session|]; [|done]. apply pure_assert. intros s.
  unfold Session.use_rc, get_state, assert_that. rewrite run_bind.
  destruct (_ <=? Session._end_rc session); rewrite run_bind; done.
Qed.

(** ** Keeping the books *)

Section Books.
Context (rld : resource_limit_data) (b F : Z).
Hypothesis Hlim : limits_ok rld b F.

(** What the charge of one more use costs is in range. *)
Lemma rc_in_range acc u : Forall nonneg_bandwidth (acc ++ [u]) → sum freed_of acc + freed_of u ≤ F →
  0 ≤ b - sum (rc_of rld) acc →
  b - sum (rc_of rld) acc ≤ i64_max ∧ - i64_max ≤ rc_of rld u ∧
  b - sum (rc_of rld) acc - rc_of rld u ≤ i64_max.
Proof.
  intros Hn HF He. pose proof (rc_bounded rld b F _ Hlim Hn) as H1.
  apply Forall_app in Hn as [Hn Hu]. pose proof (rc_bounded rld b F _ Hlim Hn) as H2.
  pose proof (freed_nonneg acc) as H3. rewrite !sum_snoc in H1.
  destruct Hlim as [_ _ _ Hd Hne Hc [Hb HbF]].
  assert (0 ≤ freed_of u) by (destruct u; cbn; lia).
  assert (freed_of u * disk_storage_cost rld ≤ F * disk_storage_cost rld) by nia.
  assert (sum freed_of acc * disk_storage_cost rld ≤ F * disk_storage_cost rld) by nia.
  assert ((sum freed_of acc + freed_of u) * disk_storage_cost rld ≤ F * disk_storage_cost rld) by nia.
  split_and!; [lia| |lia].
  apply Forall_inv in Hu. destruct u as [n|n|n]; cbn in *; unfold i64_max in *; nia.
Qed.

(** The session's part of one more use. *)
Lemma charge_books acc s u system : books rld b acc s → Forall nonneg_bandwidth (acc ++ [u]) →
  sum freed_of acc + freed_of u ≤ F →
  (∃ e, charge (amount_of u)
          match u with
          | Disk _ => disk_storage_cost rld
          | Network _ => network_bandwidth_cost rld
          | Compute _ => compute_bandwidth_cost rld
          end system s = (Throw e, s)) ∨
  (∃ ev lg, charge (amount_of u)
          match u with
          | Disk _ => disk_storage_cost rld
          | Network _ => network_bandwidth_cost rld
          | Compute _ => compute_bandwidth_cost rld
          end system s =
        (Ok tt, mk_metering (meter s) (Some (Session.mk_session b (b - sum (rc_of rld) (acc ++ [u])) ev lg)))
      ∧ 0 ≤ b - sum (rc_of rld) (acc ++ [u])).
Proof.
  intros Hb Hn HF. destruct (book_rc _ _ _ _ Hb) as (ev & lg & Hs). pose proof (book_rc_in _ _ _ _ Hb) as He.
  destruct (rc_in_range acc u Hn HF He) as (R1 & R2 & R3).
  set (cost := match u with Disk _ => _ | _ => _ end).
  assert (rc_of rld u = amount_of u * cost) as Hrc by (by destruct u).
  rewrite Hrc in R2, R3. unfold i64_max in *.
  rewrite (charge_spec _ cost system s _ _ _ _ Hs He); [|unfold is_i64, i64_max; lia..].
  rewrite sum_snoc, Hrc.
  destruct (_ <? _); [left; eauto|]. destruct (Z.ltb_spec (b - sum (rc_of rld) acc) (amount_of u * cost)); [left; eauto|].
  right. exists ev, lg. split; [by rewrite Z.sub_add_distr|lia].
Qed.

(** A use is refused without a trace or goes into the books. *)
Definition accounted (acc : list use) (s : metering) (u : use) : Prop :=
  (∃ e, run_use u s = (Throw e, s)) ∨
  (∃ s', run_use u s = (Ok tt, s') ∧ nonneg_bandwidth u ∧ books rld b (acc ++ [u]) s').

Definition step_ok (acc : list use) (s : metering) (u : use) : Prop :=
  is_i64 (amount_of u) → Forall nonneg_bandwidth acc → sum freed_of acc + freed_of u ≤ F →
  books rld b acc s → accounted acc s u.

(** What every step has at hand: the limits, the books, and that disk use is
    bounded by what was freed. *)
Local Ltac open_books acc u :=
  intros Ha Hn HF Hb; pose proof Hlim as [[L1 L1'] L2 L3 _ _ _ _];
  pose proof Hb as [B0 B1 B2 B3 _ B5 B6 B7 _];
  pose proof (disk_bounded acc) as D1; pose proof (disk_bounded (acc ++ [u])) as D2;
  rewrite !sum_snoc in D2; pose proof (freed_nonneg acc) as D3;
  assert (nonneg_bandwidth u → Forall nonneg_bandwidth (acc ++ [u])) as Hn'
    by (intros; apply Forall_app; auto);
  unfold accounted; cbn in *; unfold is_i64, i64_max in *.

Lemma disk_step acc s n : step_ok acc s (Disk n).
Proof.
  open_books acc (Disk n).
  specialize (Hn' I). unfold use_disk_storage, gets_state, assert_that. rewrite run_bind, B0, B1.
  rewrite (i64_id (disk_storage_limit rld - sum disk_of acc)) by (unfold is_i64; lia).
  destruct (Z.leb_spec n (disk_storage_limit rld - sum disk_of acc)); rewrite run_bind; [|left; eauto].
  cbn [mret prog_ret]. rewrite run_bind.
  edestruct (charge_books acc s (Disk n)) as [[e He]|(ev & lg & He & Hp)]; [done..| |]; cbn in He; rewrite He; [left; eauto|].
  right. eexists. split; [reflexivity|]. split; [done|].
  assert (∀ x y, sum x acc + x (Disk n) = y → sum x (acc ++ [Disk n]) = y) as Hsum by (intros; rewrite sum_snoc; lia).
  split; cbn; rewrite ?B0, ?B2, ?B3; rewrite ?(sum_snoc disk_of), ?(sum_snoc network_of), ?(sum_snoc compute_of); cbn; [done| | | |eauto|lia..|done].
  + rewrite B1. destruct (Z.leb_spec 0 n).
    * rewrite (u64_id n), u64_id by (unfold is_u64; lia). lia.
    * rewrite i64_id, (u64_id (-1 * n)), u64_id by (unfold is_u64, is_i64; lia). lia.
  + lia.
  + lia.
Qed.

Lemma network_step acc s n : step_ok acc s (Network n).
Proof.
  open_books acc (Network n).
  unfold use_network_bandwidth, gets_state, assert_that. rewrite run_bind, B0, B2.
  destruct (Z.leb_spec (u64 n) (network_bandwidth_limit rld - sum network_of acc)) as [Hle|]; rewrite run_bind; [|left; eauto].
  cbn [mret prog_ret]. destruct (Z.leb_spec 0 n); rewrite run_bind; [|left; eauto].
  specialize (Hn' ltac:(lia)). rewrite u64_id in Hle by (unfold is_u64; lia).
  cbn [mret prog_ret]. rewrite run_bind.
  edestruct (charge_books acc s (Network n)) as [[e He]|(ev & lg & He & Hp)]; [done..| |]; cbn in He; rewrite He; [left; eauto|].
  right. eexists. split; [reflexivity|]. split; [lia|].
  split; cbn; rewrite ?B0, ?B1, ?B3; rewrite ?(sum_snoc disk_of), ?(sum_snoc network_of), ?(sum_snoc compute_of); cbn; [done| | | |eauto|lia..|done].
  + lia.
  + rewrite B2, (u64_id n), u64_id by (unfold is_u64; lia). lia.
  + lia.
Qed.

Lemma compute_step acc s n : step_ok acc s (Compute n).
Proof.
  open_books acc (Compute n).
  unfold use_compute_bandwidth, gets_state, assert_that. rewrite run_bind, B0, B3.
  destruct (Z.leb_spec (u64 n) (compute_bandwidth_limit rld - sum compute_of acc)) as [Hle|]; rewrite run_bind; [|left; eauto].
  cbn [mret prog_ret]. destruct (Z.leb_spec 0 n); rewrite run_bind; [|left; eauto].
  specialize (Hn' ltac:(lia)). rewrite u64_id in Hle by (unfold is_u64; lia).
  cbn [mret prog_ret]. rewrite run_bind.
  edestruct (charge_books acc s (Compute n)) as [[e He]|(ev & lg & He & Hp)]; [done..| |]; cbn in He; rewrite He; [left; eauto|].
  right. eexists. split; [reflexivity|]. split; [lia|].
  split; cbn; rewrite ?B0, ?B1, ?B2; rewrite ?(sum_snoc disk_of), ?(sum_snoc network_of), ?(sum_snoc compute_of); cbn; [done| | | |eauto|lia..|done].
  + lia.
  + lia.
  + rewrite B3, (u64_id n), u64_id by (unfold is_u64; lia). lia.
Qed.

Lemma use_step acc s u : step_ok acc s u.
Proof. destruct u; [apply disk_step|apply network_step|apply compute_step]. Qed.

Lemma run_uses_books l : ∀ acc s, Forall (λ u, is_i64 (amount_of u)) l → Forall nonneg_bandwidth acc →
  sum freed_of acc + sum freed_of l ≤ F → books rld b acc s →
  Forall nonneg_bandwidth (acc ++ (run_uses l s).1) ∧ books rld b (acc ++ (run_uses l s).1) (run_uses l s).2.
Proof.
  induction l as [|u l IH]; intros acc s Ha Hn HF Hb; cbn.
  - rewrite app_nil_r. done.
  - apply Forall_cons in Ha as [Hu Ha]. unfold sum in HF at 2. cbn in HF. fold (sum freed_of l) in HF.
    pose proof (freed_nonneg l). assert (0 ≤ freed_of u) by (destruct u; cbn; lia).
    destruct (use_step acc s u Hu Hn ltac:(lia) Hb) as [[e ->]|(s' & -> & Hnu & Hb')].
    + apply IH; [done..|lia|done].
    + specialize (IH (acc ++ [u]) s' Ha ltac:(apply Forall_app; auto) ltac:(rewrite sum_snoc; lia) Hb').
      destruct (run_uses l s') as [acc' s'']. rewrite <- app_assoc in IH. exact IH.
Qed.

End Books.

(** The books of a meter that was just given its limits and a session. *)
Definition opened (rld : resource_limit_data) (begin_rc : Z) : metering :=
  mk_metering (set_limits rld) (Some (Session.new begin_rc)).

Lemma opened_books rld b F : limits_ok rld b F → books rld b [] (opened rld b).
Proof.
  intros [[H1 _] H2 H3 _ _ _ [H7 _]].
  split; cbn; try done; try lia.
  exists [], []. unfold Session.new, opened. cbn. by rewrite Z.sub_0_r.
Qed.

(** ** Exhausting the ticks *)

(** A meter whose session was charged and not refunded. *)
Record compute_ok (s : metering) : Prop := {
  ok_remaining : 0 ≤ _compute_bandwidth_remaining (meter s) ≤ i64_max;
  ok_cost : 0 ≤ compute_bandwidth_cost (_resource_limit_data (meter s));
  ok_session session : _session s = Some session →
    0 ≤ Session._end_rc session ≤ Session._begin_rc session ∧ Session._begin_rc session ≤ i64_max
}.

Lemma compute_remaining_range s : compute_ok s →
  0 ≤ compute_bandwidth_remaining s ≤ _compute_bandwidth_remaining (meter s).
Proof.
  intros [H1 H2 H3]. unfold compute_bandwidth_remaining, remaining_of.
  destruct (_session s) as [session|]; [|lia]. destruct (H3 _ eq_refl) as [H4 H5].
  destruct (Z.ltb_spec 0 (compute_bandwidth_cost (_resource_limit_data (meter s)))); [|lia].
  unfold Session.remaining_rc. rewrite u64_id by (unfold is_u64, i64_max in *; lia).
  assert (0 ≤ (Session._begin_rc session `min` Session._end_rc session)
    `div` compute_bandwidth_cost (_resource_limit_data (meter s))) by (apply Z.div_pos; lia).
  lia.
Qed.

(** The state after [ticks] were accepted. *)
Definition spend (ticks : Z) (s : metering) : metering :=
  let m := meter s in
  let cost := compute_bandwidth_cost (_resource_limit_data m) in
  let system := match _session s with
                | Some _ => _system_compute_bandwidth_used m
                | None => i64 (_system_compute_bandwidth_used m + ticks)
                end in
  mk_metering
    (mk_resource_meter (_disk_storage_remaining m) (_system_disk_storage_used m) (_network_bandwidth_remaining m)
       (_system_network_bandwidth_used m) (_compute_bandwidth_remaining m - ticks) system (_resource_limit_data m))
    ((λ session, Session.mk_session (Session._begin_rc session) (Session._end_rc session - ticks * cost)
        (Session._events session) (Session._logs session)) <$> _session s).

(** Accepting [ticks] is having them remaining. *)
Lemma use_compute_spec s ticks : compute_ok s → 0 ≤ ticks ≤ i64_max →
  if ticks <=? compute_bandwidth_remaining s
  then use_compute_bandwidth ticks s = (Ok tt, spend ticks s) ∧ compute_ok (spend ticks s)
  else ∃ e, use_compute_bandwidth ticks s = (Throw e, s).
Proof.
  intros Hok Ht. pose proof (compute_remaining_range s Hok) as Hr. destruct Hok as [H1 H2 H3].
  unfold compute_bandwidth_remaining, remaining_of in *.
  unfold use_compute_bandwidth, gets_state, assert_that. rewrite run_bind.
  rewrite (u64_id ticks) by (unfold is_u64, i64_max in *; lia).
  destruct (Z.leb_spec ticks (_compute_bandwidth_remaining (meter s))) as [Hle|Hgt]; rewrite run_bind.
  2: { match goal with |- context [ticks <=? ?x] => destruct (Z.leb_spec ticks x) end; [lia|eauto]. }
  cbn [mret prog_ret]. destruct (Z.leb_spec 0 ticks); [|lia]. rewrite run_bind. cbn [mret prog_ret].
  rewrite run_bind. destruct s as [m [[b e ev lg]|]]; cbn in *.
  2: { destruct (Z.leb_spec ticks (_compute_bandwidth_remaining m)); [|lia].
       unfold charge, gets_state. rewrite run_bind. cbn.
       unfold mod_meter, mod_state, spend. cbn. rewrite u64_id by (unfold is_u64, i64_max in *; lia).
       split; [done|]. split; cbn; [lia|lia|done]. }
  destruct (H3 _ eq_refl) as [E1 E2]. cbn in *. set (cost := compute_bandwidth_cost (_resource_limit_data m)) in *.
  assert (0 ≤ ticks * cost) by nia. unfold Session.remaining_rc in *. cbn in *.
  rewrite (Z.min_r b e), (u64_id e) in * by (unfold is_u64, i64_max in *; lia).
  rewrite (charge_spec ticks cost _ (mk_metering m _) b e ev lg) by (cbn; done || unfold is_i64, i64_max in *; lia).
  assert ((ticks <=? (if 0 <? cost then (e `div` cost) `min` _compute_bandwidth_remaining m
                      else _compute_bandwidth_remaining m)) = (ticks * cost <=? e)) as ->.
  { apply eq_bool_prop_intro. rewrite !Is_true_true, !Z.leb_le. destruct (Z.ltb_spec 0 cost).
    - rewrite Z.min_glb_iff. split; [intros [L _]; pose proof (Z.mul_div_le e cost); nia|].
      intros L. split; [|done]. apply Z.div_le_lower_bound; lia.
    - assert (cost = 0) as -> by lia. lia. }
  destruct (Z.leb_spec (ticks * cost) e).
  - replace (i64_max <? ticks * cost) with false by (symmetry; apply Z.ltb_ge; lia).
    replace (e <? ticks * cost) with false by (symmetry; apply Z.ltb_ge; lia). cbn.
    unfold mod_meter, mod_state, spend. cbn. rewrite u64_id by (unfold is_u64, i64_max in *; lia).
    split; [done|]. split; cbn; [lia|done|]. intros ? [= <-]. cbn. fold cost. lia.
  - destruct (i64_max <? ticks * cost); [eauto|]. destruct (Z.ltb_spec e (ticks * cost)); [eauto|lia].
Qed.

Lemma spend_all s : compute_ok s → compute_bandwidth_remaining (spend (compute_bandwidth_remaining s) s) = 0.
Proof.
  intros Hok. pose proof (compute_remaining_range s Hok) as Hr. destruct Hok as [H1 H2 H3].
  unfold compute_bandwidth_remaining, remaining_of in *.
  destruct s as [m [[b e ev lg]|]]; cbn in *; [|lia].
  destruct (H3 _ eq_refl) as [E1 E2]. cbn in *. set (cost := compute_bandwidth_cost (_resource_limit_data m)) in *.
  destruct (Z.ltb_spec 0 cost) as [Hc|]; [|lia]. unfold Session.remaining_rc in *. cbn in *.
  rewrite (Z.min_r b e), (u64_id e) in * by (unfold is_u64, i64_max in *; lia).
  pose proof (Z.mul_div_le e cost ltac:(lia)). pose proof (Z.mul_succ_div_gt e cost ltac:(lia)).
  pose proof (Z.div_pos e cost ltac:(lia) ltac:(lia)).
  set (q := e `div` cost) in *.
  set (t := q `min` _compute_bandwidth_remaining m) in *.
  assert (0 ≤ t * cost ≤ e) as Ht by nia.
  rewrite (Z.min_r b), u64_id by (unfold is_u64, i64_max in *; lia). subst t.
  destruct (Z.min_spec q (_compute_bandwidth_remaining m)) as [[? ->]|[? ->]].
  - rewrite Z.div_small by nia. lia.
  - rewrite Z.sub_diag. rewrite Z.min_r; [done|]. apply Z.div_pos; nia.
Qed.

End Meter.

Section Meter.
Context `{!Int128} `{!Int128Laws}.

(** C34. Exact accounting: after any list of uses of disk storage, network
    bandwidth and ticks, run one after the other whatever they throw, on a
    meter with limits [rld] that charges a new session of [begin_rc], the
    meter reports as used exactly the sum of the uses that were accepted, no
    limit is exceeded, and the session was charged exactly their cost and
    never more than it had.  Uses may free disk storage, up to [F] bytes.  The
    limits are below 2^63, with [F] for disk storage and for what is refunded;
    the largest limits, which a new meter has, are not
    ([default_limit_wraps]). *)
Theorem metering_accounts rld begin_rc F l :
  limits_ok rld begin_rc F → Forall (λ u, is_i64 (amount_of u)) l → sum freed_of l ≤ F →
  let (acc, s) := run_uses l (opened rld begin_rc) in
  disk_storage_used s = Z.max 0 (sum disk_of acc) ∧
  network_bandwidth_used s = sum network_of acc ∧
  compute_bandwidth_used s = sum compute_of acc ∧
  sum disk_of acc ≤ disk_storage_limit rld ∧
  0 ≤ sum network_of acc ≤ network_bandwidth_limit rld ∧
  0 ≤ sum compute_of acc ≤ compute_bandwidth_limit rld ∧
  ∃ session, _session s = Some session ∧
    Session.used_rc session = Z.max 0 (sum (rc_of rld) acc) ∧
    Session.remaining_rc session = Z.min begin_rc (begin_rc - sum (rc_of rld) acc) ∧
    sum (rc_of rld) acc ≤ begin_rc.
Proof.
  intros Hlim Ha HF.
  destruct (run_uses_books rld begin_rc F Hlim l [] (opened rld begin_rc) Ha (Forall_nil_2 _) HF
    (opened_books rld begin_rc F Hlim)) as [_ Hb].
  destruct (run_uses l (opened rld begin_rc)) as [acc s]. cbn in Hb.
  destruct Hb as [B0 B1 B2 B3 (ev & lg & B4) B5 B6 B7 B8].
  pose proof (limits_in_range rld begin_rc F Hlim (Z.le_trans _ _ _ (freed_nonneg l) HF)) as (L1 & L2 & L3 & L4).
  unfold disk_storage_used, network_bandwidth_used, compute_bandwidth_used. rewrite B0, B1, B2, B3.
  unfold i64_max in *. rewrite !(Z.sub_sub_distr _ _ (sum _ _)), !Z.sub_diag, !Z.add_0_l.
  rewrite !(u64_id (sum network_of _)), !(u64_id (sum compute_of _)) by (unfold is_u64; lia).
  split_and!; [|lia..|].
  - destruct (Z.ltb_spec (disk_storage_limit rld) (disk_storage_limit rld - sum disk_of acc)); [lia|].
    rewrite u64_id; unfold is_u64; lia.
  - eexists. split; [exact B4|]. unfold Session.used_rc, Session.remaining_rc. cbn.
    split_and!; [|rewrite u64_id; unfold is_u64; lia|lia].
    destruct (Z.ltb_spec begin_rc (begin_rc - sum (rc_of rld) acc)); [lia|].
    rewrite i64_id, u64_id; unfold is_u64, is_i64; lia.
Qed.

(** A use that throws leaves no trace: whatever the meter, its session
    and the amount, the meter and the session are exactly what they were. *)
Theorem refused_use_pure u s :
  match run_use u s with
  | (Throw _, s') => s' = s
  | (Ok _, _) => True
  | (OutOfFuel, _) => False
  end.
Proof.
  revert s. change (refuses_purely (run_use u)).
  destruct u as [n|n|n]; cbn; unfold use_disk_storage, use_network_bandwidth, use_compute_bandwidth;
    apply pure_gets; intros m; repeat apply pure_assert; apply pure_then_mod; apply charge_pure.
Qed.

(** The virtual machine is given all the ticks the execution can pay
    for, and no more: it may use any number up to what it was given, which
    is charged exactly; one that used more is stopped by an exception, with
    nothing left to use. *)
Theorem ticks_exhausted s meter_ticks : compute_ok s → is_u64 meter_ticks →
  get_meter_ticks s = compute_bandwidth_remaining s ∧
  if meter_ticks <=? get_meter_ticks s
  then use_meter_ticks meter_ticks s = (Ok tt, spend meter_ticks s)
  else ∃ e s', use_meter_ticks meter_ticks s = (Throw e, s') ∧
    s' = spend (get_meter_ticks s) s ∧ compute_bandwidth_remaining s' = 0.
Proof.
  intros Hok Ht. pose proof (compute_remaining_range s Hok) as Hr. pose proof (ok_remaining s Hok) as Hm.
  unfold is_u64, i64_max in *.
  assert (get_meter_ticks s = compute_bandwidth_remaining s) as Hg.
  { unfold get_meter_ticks, i64_max. destruct (Z.ltb_spec (2 ^ 63 - 1) (compute_bandwidth_remaining s)); [lia|].
    apply i64_id. unfold is_i64. lia. }
  split; [exact Hg|]. rewrite Hg. unfold use_meter_ticks, gets_state. rewrite run_bind.
  destruct (Z.leb_spec meter_ticks (compute_bandwidth_remaining s)) as [Hle|Hgt].
  - destruct (Z.ltb_spec (compute_bandwidth_remaining s) meter_ticks); [lia|].
    rewrite i64_id by (unfold is_i64; lia).
    pose proof (use_compute_spec s meter_ticks Hok ltac:(unfold i64_max; lia)) as Hs.
    destruct (Z.leb_spec meter_ticks (compute_bandwidth_remaining s)); [apply Hs|lia].
  - destruct (Z.ltb_spec (compute_bandwidth_remaining s) meter_ticks); [|lia].
    rewrite run_bind, i64_id by (unfold is_i64; lia). rewrite run_bind.
    pose proof (use_compute_spec s (compute_bandwidth_remaining s) Hok ltac:(unfold i64_max; lia)) as Hs.
    rewrite Z.leb_refl in Hs. destruct Hs as [-> Hok']. pose proof (spend_all s Hok) as H0'.
    pose proof (use_compute_spec _ 1 Hok' ltac:(unfold i64_max; lia)) as Hs. rewrite H0' in Hs.
    destruct Hs as [e ->]. eauto.
Qed.

(** The guard of disk storage reads the remaining bytes as a signed
    integer: while more than [i64_max] bytes remain, as on a new meter whose
    limits are the largest values, every use of disk storage is refused,
    though the meter reports all of them as remaining; the other resources
    of a new meter can be used. *)
Theorem large_disk_limit_refuses n s : 0 ≤ n ≤ i64_max →
  i64_max < _disk_storage_remaining (meter s) ≤ u64_max →
  use_disk_storage n s = (Throw disk_storage_limit_exceeded_exception, s) ∧
  i64_max < _disk_storage_remaining (meter new) ≤ u64_max ∧ disk_storage_remaining new = u64_max ∧
  (∃ s', use_network_bandwidth n new = (Ok tt, s')) ∧ (∃ s', use_compute_bandwidth n new = (Ok tt, s')).
Proof.
  intros Hn Hs. unfold i64_max, u64_max in *. split_and!; [|done|done|done| |].
  - unfold use_disk_storage, gets_state, assert_that. rewrite run_bind.
    assert (i64 (_disk_storage_remaining (meter s)) = _disk_storage_remaining (meter s) - 2 ^ 64) as ->.
    { unfold i64, signed. fold (u64 (_disk_storage_remaining (meter s))). rewrite u64_id by (unfold is_u64; lia).
      destruct (Z.ltb_spec (_disk_storage_remaining (meter s)) (2 ^ (64 - 1))); lia. }
    destruct (Z.leb_spec n (_disk_storage_remaining (meter s) - 2 ^ 64)); [lia|]. by rewrite run_bind.
  - unfold use_network_bandwidth, gets_state, assert_that. rewrite run_bind, u64_id by (unfold is_u64; lia). cbn.
    destruct (Z.leb_spec n u64_max); [|unfold u64_max in *; lia]. rewrite run_bind. cbn [mret prog_ret].
    destruct (Z.leb_spec 0 n); [|lia]. eexists. reflexivity.
  - unfold use_compute_bandwidth, gets_state, assert_that. rewrite run_bind, u64_id by (unfold is_u64; lia). cbn.
    destruct (Z.leb_spec n u64_max); [|unfold u64_max in *; lia]. rewrite run_bind. cbn [mret prog_ret].
    destruct (Z.leb_spec 0 n); [|lia]. eexists. reflexivity.
Qed.

End Meter.

(** ** Events *)

(** What a chronicler goes through: new sessions, no session, events, logs. *)
Inductive chronicle : Type :=
| Attach (session : option Z)
| Event (transaction_id : option bytes) (ev : event_data)
| Log (message : bytes).

Definition chronicle_step (c : Chronicler.chronicler) (e : chronicle) : Chronicler.chronicler :=
  match e with
  | Attach session => Chronicler.set_session (Session.new <$> session) c
  | Event transaction_id ev => Chronicler.push_event transaction_id ev c
  | Log message => Chronicler.push_log message c
  end.

Definition chronicle_run (l : list chronicle) : Chronicler.chronicler := foldl chronicle_step Chronicler.new l.

(** What a history says was to be recorded: the events, and what the current
    session must hold, its events and its logs; without one, logs go to the
    chronicler. *)
Record recorded := mk_recorded {
  all_events : list (option bytes * event_body);
  attached : option (list event_body * list bytes);
  loose_logs : list bytes
}.

Definition record_step (r : recorded) (e : chronicle) : recorded :=
  match e, attached r with
  | Attach session, _ => mk_recorded (all_events r) ((λ _, ([], [])) <$> session) (loose_logs r)
  | Event t ev, a =>
    mk_recorded (all_events r ++ [(t, event_rest ev)]) ((λ el, (el.1 ++ [event_rest ev], el.2)) <$> a) (loose_logs r)
  | Log m, Some (evs, logs) => mk_recorded (all_events r) (Some (evs, logs ++ [m])) (loose_logs r)
  | Log m, None => mk_recorded (all_events r) None (loose_logs r ++ [m])
  end.

Definition record_run (l : list chronicle) : recorded := foldl record_step (mk_recorded [] None []) l.

(** The numbers of a list of events. *)
Definition numbered (l : list event_data) : Prop :=
  ∀ i ev, l !! i = Some ev → sequence ev = u32 (Z.of_nat i).

Record chronicled (r : recorded) (c : Chronicler.chronicler) : Prop := {
  chr_events : (λ e, (e.1, event_rest e.2)) <$> Chronicler._events c = all_events r;
  chr_logs : Chronicler._logs c = loose_logs r;
  chr_attached : (λ s, (event_rest <$> Session._events s, Session._logs s)) <$> Chronicler._session c = attached r;
  chr_suffix s : Chronicler._session c = Some s → Session._events s `suffix_of` (Chronicler._events c).*2;
  chr_numbered : numbered (Chronicler._events c).*2;
  chr_next : Chronicler._seq_no c = u32 (Z.of_nat (length (Chronicler._events c)))
}.

Lemma chronicle_step_ok r c e : chronicled r c → chronicled (record_step r e) (chronicle_step c e).
Proof.
  intros [E1 E2 E3 E4 E5 E6]. destruct e as [session|t ev|m]; cbn.
  - split; cbn; try done.
    + by destruct session.
    + destruct session; [|done]. intros ? [= <-]. apply suffix_nil.
  - split; cbn; rewrite <- ?E3; try done.
    + by rewrite fmap_app, E1.
    + destruct (Chronicler._session c) as [s|]; [|done]. cbn. by rewrite fmap_app.
    + destruct (Chronicler._session c) as [s|]; [|done]. intros ? [= <-]. cbn. rewrite fmap_app.
      destruct (E4 s eq_refl) as [pre ->]. exists pre. by rewrite app_assoc.
    + rewrite fmap_app. intros i x [Hi|(Hi & [Hx <-]%list_lookup_singleton_Some)]%lookup_app_Some; [by apply E5|].
      cbn in *. rewrite E6. f_equal. rewrite length_fmap in *. lia.
    + rewrite E6, length_app. unfold u32, wrap. rewrite Zplus_mod_idemp_l. f_equal. cbn. lia.
  - unfold Chronicler.push_log. rewrite <- E3. destruct (Chronicler._session c) as [s|] eqn:Es; cbn.
    + split; cbn; try done. intros ? [= <-]. cbn. by apply E4.
    + split; cbn; try done. by rewrite E2.
Qed.

(** The chronicler keeps every event in order, whoever holds the session
    and whatever number the event came with, and numbers them 0, 1, 2, ...
    modulo 2^32; the current session has exactly the events and logs pushed
    since it was attached, under the same numbers, and the logs pushed
    without a session are the chronicler's. *)
Theorem events_numbered l : chronicled (record_run l) (chronicle_run l).
Proof.
  unfold chronicle_run, record_run.
  assert (chronicled (mk_recorded [] None []) Chronicler.new) as H0' by (split; done).
  revert H0'. generalize (mk_recorded [] None []), Chronicler.new.
  induction l as [|e l IH]; intros r c Hc; [done|]. cbn. apply IH, chronicle_step_ok, Hc.
Qed.

(** ** Concrete runs *)

Module Example.

#[local] Instance boost_int128 : Int128 := { convert_to_int64 := i64 }.
#[local] Instance boost_int128_laws : Int128Laws.
Proof. constructor. apply i64_id. Qed.

Definition rld : resource_limit_data := mk_resource_limit_data 1000 10 500 5 10000 1.

(** Two refusals: the network limit, and the session's resources. *)
Definition uses : list use :=
  [Disk 100; Network 600; Network 20; Compute 3000; Disk (-40); Disk 800; Compute 0].

Definition accepted : list use := [Disk 100; Network 20; Compute 3000; Disk (-40); Compute 0].

Lemma metering_accounts_witness :
  (run_uses uses (opened rld 5000)).1 = accepted ∧
  let (acc, s) := run_uses uses (opened rld 5000) in
  disk_storage_used s = Z.max 0 (sum disk_of acc) ∧
  network_bandwidth_used s = sum network_of acc ∧
  compute_bandwidth_used s = sum compute_of acc ∧
  sum disk_of acc ≤ disk_storage_limit rld ∧
  0 ≤ sum network_of acc ≤ network_bandwidth_limit rld ∧
  0 ≤ sum compute_of acc ≤ compute_bandwidth_limit rld ∧
  ∃ session, _session s = Some session ∧
    Session.used_rc session = Z.max 0 (sum (rc_of rld) acc) ∧
    Session.remaining_rc session = Z.min 5000 (5000 - sum (rc_of rld) acc) ∧
    sum (rc_of rld) acc ≤ 5000.
Proof.
  split; [vm_compute; reflexivity|].
  apply (metering_accounts rld 5000 40 uses).
  - split; vm_compute; intuition congruence.
  - repeat constructor; vm_compute; congruence.
  - vm_compute. congruence.
Defined.

Lemma ticks_exhausted_witness :
  get_meter_ticks (opened rld 5000) = 5000 ∧
  ∃ e s', use_meter_ticks 7000 (opened rld 5000) = (Throw e, s') ∧
    s' = spend (get_meter_ticks (opened rld 5000)) (opened rld 5000) ∧ compute_bandwidth_remaining s' = 0.
Proof.
  split; [reflexivity|].
  refine (proj2 (ticks_exhausted (opened rld 5000) 7000 _ _)).
  - split; [vm_compute; split; congruence|vm_compute; congruence|].
    intros session [= <-]. vm_compute. repeat split; congruence.
  - vm_compute. split; congruence.
Defined.

(** On a new meter, whose limits are 2^64 - 1, freeing five bytes is accepted,
    wraps the remaining bytes around to four, and counts as a use of all the
    others. *)
Lemma default_limit_wraps :
  let r := use_disk_storage (-5) new in
  r.1 = Ok tt ∧ _disk_storage_remaining (meter r.2) = 4 ∧ disk_storage_used r.2 = u64_max - 4.
Proof. by vm_compute. Qed.

Lemma large_disk_limit_refuses_witness :
  use_disk_storage 0 new = (Throw disk_storage_limit_exceeded_exception, new) ∧
  i64_max < _disk_storage_remaining (meter new) ≤ u64_max ∧ disk_storage_remaining new = u64_max ∧
  (∃ s', use_network_bandwidth 0 new = (Ok tt, s')) ∧ (∃ s', use_compute_bandwidth 0 new = (Ok tt, s')).
Proof. apply (large_disk_limit_refuses 0 new); vm_compute; split; congruence. Defined.

End Example.
