(* ===== verification/ChainTypes.v ===== *)
(** The messages, the exceptions and the outside world of the chain:
    what [src/src/koinos/chain] takes from the generated protobuf code, from
    the koinos libraries of exceptions, conversion and cryptography, and the
    families of exceptions of [exceptions.hpp].

    A message is a record of its fields; those that the chain only copies are
    left out or kept as one byte string. *)

From S2P Require Import Prelude MapBackend StateDelta.
From S2P Require Import Session.
From S2P Require Import ResourceMeter.

Module Chain.

(** ** Messages *)

Record transaction_header := mk_transaction_header {
  chain_id : bytes;
  rc_limit : Z;
  nonce : bytes;
  operation_merkle_root : bytes;
  payer : bytes;
  payee : bytes
}.

Definition no_transaction_header : transaction_header := mk_transaction_header [] 0 [] [] [] [].

Record upload_contract_operation := mk_upload_contract_operation {
  upload_contract_id : bytes;
  bytecode : bytes;
  upload_abi : bytes;
  upload_authorizes_call_contract : bool;
  upload_authorizes_transaction_application : bool;
  upload_authorizes_upload_contract : bool
}.

Record call_contract_operation := mk_call_contract_operation {
  call_contract_id : bytes;
  call_entry_point : Z;
  call_arguments : bytes
}.

(** [protocol::system_call_target]; an unset target reads as thunk 0. *)
Inductive system_call_target : Type :=
| thunk_target (thunk_id : Z)
| bundle_target (contract_id : bytes) (entry_point : Z).

Record set_system_call_operation := mk_set_system_call_operation { call_id : Z; target : system_call_target }.

Record set_system_contract_operation := mk_set_system_contract_operation {
  system_contract_id : bytes;
  system_contract : bool
}.

Inductive operation : Type :=
| upload_contract (o : upload_contract_operation)
| call_contract (o : call_contract_operation)
| set_system_call (o : set_system_call_operation)
| set_system_contract (o : set_system_contract_operation)
| no_operation.

Record transaction := mk_transaction {
  trx_id : bytes;
  trx_header_ : option transaction_header;
  operations : list operation;
  signatures : list bytes
}.

(** [header()], which reads a default message where there is none. *)
Definition trx_header (t : transaction) : transaction_header := default no_transaction_header (trx_header_ t).

(** [protocol::block_header]; its timestamp, its signer and the serialization
    of the rest are what the state database keeps of it. *)
Record block_header := mk_block_header {
  previous : bytes;
  height : Z;
  previous_state_merkle_root : bytes;
  transaction_merkle_root : bytes;
  stored_header : MapBackend.block_header
}.

Definition no_block_header : block_header := mk_block_header [] 0 [] [] default_header.

Record block := mk_block {
  block_id : bytes;
  block_header_ : option block_header;
  transactions : list transaction;
  signature : bytes
}.

Definition header (b : block) : block_header := default no_block_header (block_header_ b).
Definition block_timestamp (b : block) : Z := timestamp (stored_header (header b)).
Definition block_signer (b : block) : bytes := signer (stored_header (header b)).

Record transaction_receipt := mk_transaction_receipt {
  tr_id : bytes;
  tr_payer : bytes;
  tr_max_payer_rc : Z;
  tr_rc_limit : Z;
  tr_rc_used : Z;
  tr_disk_storage_used : Z;
  tr_network_bandwidth_used : Z;
  tr_compute_bandwidth_used : Z;
  tr_reverted : bool;
  tr_events : list event_data;
  tr_logs : list bytes;
  tr_state_delta_entries : list StateDelta.state_delta_entry
}.

Record block_receipt := mk_block_receipt {
  br_id : bytes;
  br_height : Z;
  br_disk_storage_used : Z;
  br_network_bandwidth_used : Z;
  br_compute_bandwidth_used : Z;
  br_disk_storage_charged : Z;
  br_network_bandwidth_charged : Z;
  br_compute_bandwidth_charged : Z;
  br_state_merkle_root : bytes;
  br_events : list event_data;
  br_logs : list bytes;
  br_state_delta_entries : list StateDelta.state_delta_entry;
  br_transaction_receipts : list transaction_receipt
}.

Definition empty_transaction_receipt : transaction_receipt := mk_transaction_receipt [] [] 0 0 0 0 0 0 false [] [] [].
Definition empty_block_receipt : block_receipt := mk_block_receipt [] 0 0 0 0 0 0 0 [] [] [] [] [].

(** [chain::receipt], a variant. *)
Inductive receipt : Type :=
| no_receipt
| is_block_receipt (r : block_receipt)
| is_transaction_receipt (r : transaction_receipt).

Record contract_metadata_object := mk_contract_metadata_object {
  meta_hash : bytes;
  meta_system : bool;
  authorizes_call_contract : bool;
  authorizes_transaction_application : bool;
  authorizes_upload_contract : bool
}.

Definition no_contract_metadata : contract_metadata_object := mk_contract_metadata_object [] false false false false.

Record block_topology := mk_block_topology { topo_id : bytes; topo_previous : bytes; topo_height : Z }.

Record head_info := mk_head_info {
  head_topology : block_topology;
  last_irreversible_block : Z;
  head_block_time : Z
}.

Record database_object := mk_database_object { exists_ : bool; object_value : bytes; object_key : bytes }.

Definition no_object : database_object := mk_database_object false [] [].

Inductive privilege : Type := kernel_mode | user_mode.

#[global] Instance privilege_eq_dec : EqDecision privilege.
Proof. solve_decision. Defined.

Record caller_data := mk_caller_data { caller : bytes; caller_privilege : privilege }.
Record argument_data := mk_argument_data { entry_point_ : Z; arguments_ : bytes }.

Inductive authorization_type : Type := contract_call | transaction_application | contract_upload.
Inductive dsa : Type := ecdsa_secp256k1 | unknown_dsa.

Record authorize_arguments := mk_authorize_arguments {
  auth_type : authorization_type;
  auth_call : option (bytes * Z * bytes * bytes)
}.

(** [chain::value_type], by the kind of its value; a message is packed. *)
Inductive value_type : Type :=
| message_value (m : bytes)
| int32_value (v : Z)
| int64_value (v : Z)
| uint32_value (v : Z)
| uint64_value (v : Z)
| sint32_value (v : Z)
| sint64_value (v : Z)
| fixed32_value (v : Z)
| fixed64_value (v : Z)
| sfixed32_value (v : Z)
| sfixed64_value (v : Z)
| bool_value (b : bool)
| string_value (s : bytes)
| bytes_value (s : bytes)
| no_value.

Definition has_uint64_value (v : value_type) : bool := match v with uint64_value _ => true | _ => false end.
Definition as_uint64_value (v : value_type) : Z := match v with uint64_value v => v | _ => 0 end.

Record error_data := mk_error_data { message : bytes; details : bytes }.

(** [chain::result], a oneof. *)
Inductive result : Type :=
| result_object (o : bytes)
| result_error (e : error_data)
| no_result.

Definition has_object (r : result) : bool := match r with result_object _ => true | _ => false end.
Definition object_of (r : result) : bytes := match r with result_object o => o | _ => [] end.
Definition has_error (r : result) : bool := match r with result_error _ => true | _ => false end.
Definition error_of (r : result) : error_data := match r with result_error e => e | _ => mk_error_data [] [] end.

(** ** Exceptions *)

(** The exceptions of [exceptions.hpp], those of the koinos libraries that
    the chain names, and those of the components it calls. *)
Inductive exception_name : Type :=
| reversion_exception
| system_authorization_failure_exception
| invalid_contract_exception
| insufficient_privileges_exception
| insufficient_rc_exception
| insufficient_return_buffer_exception
| unknown_thunk_exception
| unknown_operation_exception
| read_only_context_exception
| internal_error_exception
| failure_exception
| field_not_found_exception
| unknown_hash_code_exception
| unknown_dsa_exception
| unknown_system_call_exception
| operation_not_found_exception
| authorization_failure_exception
| invalid_nonce_exception
| invalid_signature_exception
| malformed_block_exception
| malformed_transaction_exception
| block_resource_failure_exception
| pending_transaction_limit_exceeded_exception
| unknown_backend_exception
| unexpected_state_exception
| missing_required_arguments_exception
| unknown_previous_block_exception
| unexpected_height_exception
| block_state_error_exception
| state_merkle_mismatch_exception
| unexpected_receipt_exception
| rpc_failure_exception
| pending_state_error_exception
| timestamp_out_of_bounds_exception
| indexer_failure_exception
| network_bandwidth_limit_exceeded_exception
| compute_bandwidth_limit_exceeded_exception
| disk_storage_limit_exceeded_exception
| pre_irreversibility_block_exception
| success_exception
| state_db_exception (e : MapBackend.exn)
| vm_exception (message : bytes)
| library_exception (message : bytes).

#[global] Instance exception_name_eq_dec : EqDecision exception_name.
Proof. solve_decision. Defined.

Inductive exception_class : Type := Reversion | Failure | Success | Other.

#[global] Instance exception_class_eq_dec : EqDecision exception_class.
Proof. solve_decision. Defined.

(** The class an exception is derived from. *)
Definition class_of (n : exception_name) : exception_class :=
  match n with
  | reversion_exception | system_authorization_failure_exception | invalid_contract_exception
  | insufficient_privileges_exception | insufficient_rc_exception | insufficient_return_buffer_exception
  | unknown_thunk_exception | unknown_operation_exception | read_only_context_exception
  | internal_error_exception | state_db_exception _ | vm_exception _ => Reversion
  | success_exception => Success
  | library_exception _ => Other
  | _ => Failure
  end.

(** A [koinos::exception]: its code and data, and what was added to its json. *)
Record koinos_exception := mk_koinos_exception {
  name : exception_name;
  code : Z;
  data : error_data;
  json_transaction_id : option bytes;
  json_logs : option (list bytes)
}.

(** [StdException] is an exception that is not a [koinos::exception];
    [NullDereference] stands for undefined behaviour. *)
Inductive exn : Type :=
| Koinos (e : koinos_exception)
| StdException
| NullDereference.

(** The code an exception of a name has by default, with the codes
    [chain::success], [chain::reversion] and [chain::failure], and the data of
    a message: a template and the values for the names in it. *)
Class Exceptions := {
  success : Z;
  reversion : Z;
  failure : Z;
  insufficient_return_buffer : Z;
  default_code : exception_name → Z;
  format : bytes → list (bytes * bytes) → error_data;
  get_message : koinos_exception → bytes
}.

Class ExceptionsLaws `{!Exceptions} := {
  success_zero : success = 0;
  reversion_positive : 0 < reversion;
  failure_negative : failure < 0;
  reversion_codes n : class_of n = Reversion → reversion ≤ default_code n;
  failure_codes n : class_of n = Failure → default_code n ≤ failure
}.

Section Raising.
Context `{!Exceptions}.

(** [KOINOS_THROW] and [throw e( code, data )]. *)
Definition exception (n : exception_name) (template : bytes) (args : list (bytes * bytes)) : exn :=
  Koinos (mk_koinos_exception n (default_code n) (format template args) None None).

Definition exception_with (n : exception_name) (c : Z) (d : error_data) : exn :=
  Koinos (mk_koinos_exception n c d None None).

End Raising.

(** ** Conversion *)

(** [util::converter::as< std::string >] and [to< T >] of a message; the
    latter throws what it cannot read. *)
Class Convert (A : Type) := { as_string : A → bytes; to_message : bytes → exn + A }.

(** A name and a number of ticks each. *)
Abbreviation compute_bandwidth_registry := (list (bytes * Z)).

(** [ByteSizeLong] of the messages the chain charges for, and the code points
    of [boost::locale]: [utf_decode] is what follows the first one, [None] where
    it is illegal or incomplete. *)
Class Conversions := {
  convert_block :: Convert block;
  convert_header :: Convert block_header;
  convert_trx_header :: Convert transaction_header;
  convert_operation :: Convert operation;
  convert_metadata :: Convert contract_metadata_object;
  convert_value :: Convert value_type;
  convert_target :: Convert system_call_target;
  convert_limits :: Convert ResourceMeter.resource_limit_data;
  convert_registry :: Convert compute_bandwidth_registry;
  convert_error :: Convert error_data;
  convert_authorize :: Convert authorize_arguments;
  to_max_account_resources : bytes → exn + Z;
  to_authorize_result : bytes → exn + bool;
  to_varint : bytes → exn + Z;
  as_call_id : Z → bytes;
  trx_size : transaction → Z;
  block_size : block → Z;
  set_system_call_event : set_system_call_operation → bytes;
  set_system_contract_event : set_system_contract_operation → bytes;
  utf_decode : bytes → option bytes
}.

Class ConversionsLaws `{!Conversions} := {
  to_as_metadata m : to_message (as_string (A := contract_metadata_object) m) = inr m
}.

(** ** Cryptography *)

(** Multihashes with the code of their function and their digest, and the
    functions the chain hashes with; [sha1] ... are their codes. *)
Class ChainCrypto := {
  sha1 : Z;
  sha2_256 : Z;
  sha2_512 : Z;
  keccak_256 : Z;
  ripemd_160 : Z;
  to_multihash : bytes → exn + multihash;
  as_multihash : multihash → bytes;
  hash_code : multihash → Z;
  digest : multihash → bytes;
  crypto_hash : Z → bytes → Z → exn + multihash;
  merkle_root_of : Z → list multihash → multihash;
  is_zero : multihash → bool;
  public_key : Type;
  to_public_key : bytes → exn + public_key;
  as_public_key : public_key → bytes;
  serialize_uncompressed : public_key → bytes;
  to_address_bytes : public_key → bytes;
  is_canonical : bytes → bool;
  recover : bytes → multihash → exn + public_key;
  key_valid : public_key → bool;
  verify_random_proof : public_key → bytes → bytes → option multihash
}.

End Chain.
