(* ===== verification/BlockProducer.v ===== *)
(** The block producer: [src/src/block_production/block_producer.cpp].

    A member function is a program over the members that change, the clock
    and the chain and mempool the producer calls; what it asks of them is
    kept in order, the last call first.  A block passed by reference is
    threaded, and written back where it is a member. *)

From S2P Require Import Prelude MapBackend StateDelta.
From S2P Require Import ResourceMeter.
From S2P Require Import ChainTypes.
Import Chain.

Module BlockProducer.

Record ProducerConfig := mk_producer_config {
  algorithm : bytes;
  producer_address : bytes;
  resources_lower_bound : Z;
  resources_upper_bound : Z;
  max_inclusion_attempts : Z;
  approved_proposals : list bytes
}.

Inductive Status : Type := produced | not_ready | not_our_turn.

Record ProductionResult := mk_production_result {
  status : Status;
  result_height : Z;
  result_id : bytes;
  transaction_count : Z;
  removed_failed_transactions : Z;
  retry_after : Z
}.

Definition new_result : ProductionResult := mk_production_result not_ready 0 [] 0 0 5000.

Record PobAuxiliaryData := mk_pob_auxiliary_data {
  pob_contract_id : bytes;
  vhp_contract_id : bytes;
  vhp_symbol : bytes;
  vhp_precision : Z;
  target_block_interval : Z;
  quantum_length : Z;
  quanta_per_block_interval : Z
}.

(** A [time_point] is a number of nanoseconds. *)
Record PobBundle := mk_pob_bundle {
  bundle_block : block;
  seed : bytes;
  difficulty : bytes;
  vhp_balance : Z;
  time_quantum : Z
}.

(** ** Messages *)

Record get_head_info_response := mk_get_head_info_response {
  rpc_head_topology : block_topology;
  rpc_head_block_time : Z;
  rpc_head_state_merkle_root : bytes
}.

Record pending_transaction := mk_pending_transaction {
  transaction_ : transaction;
  disk_storage_used : Z;
  system_disk_storage_used : Z;
  network_bandwidth_used : Z;
  system_network_bandwidth_used : Z;
  compute_bandwidth_used : Z;
  system_compute_bandwidth_used : Z
}.

Record propose_block_response := mk_propose_block_response {
  response_receipt : option block_receipt;
  failed_transaction_indices : list Z
}.

Record signature_data := mk_signature_data { vrf_hash : bytes; vrf_proof : bytes; data_signature : bytes }.

(** The calls of [IChain] and [IMempool], by the type of the response. *)
Inductive call : Type → Type :=
| get_head_info : call get_head_info_response
| get_resource_limits : call ResourceMeter.resource_limit_data
| read_contract (contract_id : bytes) (entry_point : Z) (args : bytes) : call bytes
| invoke_system_call (id : Z) (args : bytes) : call bytes
| propose_block (b : block) : call propose_block_response
| get_pending_transactions (limit : Z) (block_id : bytes) : call (list pending_transaction).

(** A call with what came back. *)
Inductive exchange : Type :=
| exchanged {A} (c : call A) (r : Chain.exn + A).

(** What a producer throws: its own exceptions and those of what it calls. *)
Inductive exn : Type :=
| invalid_argument (what : bytes)
| runtime_error (what : bytes)
| foreign (e : Chain.exn).

Definition undefined : exn := foreign NullDereference.

(** The chain and the mempool, and the system clock, in nanoseconds. *)
Class Surroundings := {
  surroundings : Type;
  answer : ∀ A, call A → surroundings → (Chain.exn + A) * surroundings;
  system_clock_now : surroundings → Z * surroundings
}.
Arguments answer {_} {A} c w.

(** The rest of the cryptography library, the serialization of the messages
    of the contracts, [None] where [ParseFromString] fails, and base58. *)
Class ProducerLibraries `{!ChainCrypto} := {
  private_key : Type;
  get_public_key : private_key → public_key;
  sign_compact : private_key → multihash → Chain.exn + bytes;
  generate_random_proof : private_key → bytes → Chain.exn + bytes * multihash;
  hash_signatures : list bytes → Chain.exn + multihash;
  header_rest_of : list bytes → bytes;
  as_vrf_payload : bytes → Z → bytes;
  as_signature_data : signature_data → bytes;
  as_get_address_arguments : bytes → bytes;
  as_effective_balance_of_arguments : bytes → bytes;
  parse_consensus_parameters : bytes → option (Z * Z);
  parse_address : bytes → option bytes;
  parse_symbol : bytes → option bytes;
  parse_decimals : bytes → option Z;
  parse_balance : bytes → option Z;
  parse_metadata : bytes → option (bytes * bytes);
  get_contract_address_id : Z;
  from_base58 : bytes → Chain.exn + bytes
}.

Definition get_metadata_entry_point : Z := 0xfcf7a68f.
Definition get_consensus_parameters_entry_point : Z := 0x5fd7ac0f.
Definition effective_balance_of_entry_point : Z := 0x629f31e6.
Definition decimals_entry_point : Z := 0xee80fd2f.
Definition symbol_entry_point : Z := 0xb76a7ca1.

(** ** Time and numbers *)

Definition to_ms (time : Z) : Z := u64 (Z.quot time 1000000).

(** [milliseconds{ ms }] as nanoseconds, [None] where the product overflows. *)
Definition from_ms (ms : Z) : option Z :=
  let ns := i64 ms * 1000000 in if bool_decide (is_i64 ns) then Some ns else None.

(** An unsigned number of [w] bits; a longer string loses its high bytes. *)
Definition decode_big_endian_unsigned (w : Z) (b : bytes) : Z :=
  fold_left (λ value byte, Z.lor (wrap w (Z.shiftl value 8)) (Prelude.code byte)) b 0.

Definition difficulty_met (proof_digest : bytes) (vhp_balance : Z) (difficulty : bytes) : bool :=
  if vhp_balance =? 0 then false
  else
    let difficulty_value := decode_big_endian_unsigned 128 difficulty in
    if difficulty_value =? 0 then false
    else
      let target := (2 ^ 128 - 1) / difficulty_value in
      let proof_value := decode_big_endian_unsigned 256 proof_digest in
      Z.shiftr proof_value 128 / vhp_balance <? target.

(** ** The constructor *)

Definition construct (c : ProducerConfig) : exn + ProducerConfig :=
  if 100 <? resources_lower_bound c then
    inl (invalid_argument (str "block_producer.resources-lower-bound must be in [0..100]"))
  else if 100 <? resources_upper_bound c then
    inl (invalid_argument (str "block_producer.resources-upper-bound must be in [0..100]"))
  else if resources_upper_bound c <? resources_lower_bound c then
    inl (invalid_argument (str "block_producer.resources-lower-bound must not exceed resources-upper-bound"))
  else
    inr (mk_producer_config (algorithm c) (producer_address c) (resources_lower_bound c) (resources_upper_bound c)
           (if max_inclusion_attempts c =? 0 then 2000 else max_inclusion_attempts c) (approved_proposals c)).

(** ** The state *)

Section State.
Context `{!Surroundings}.

Record producer := mk_producer {
  _pob_auxiliary_data : option PobAuxiliaryData;
  _pob_bundle : option PobBundle;
  world : surroundings;
  asked : list exchange
}.

Definition set_auxiliary_data (x : option PobAuxiliaryData) (s : producer) : producer :=
  mk_producer x (_pob_bundle s) (world s) (asked s).
Definition set_bundle (x : option PobBundle) (s : producer) : producer :=
  mk_producer (_pob_auxiliary_data s) x (world s) (asked s).

Definition P (A : Type) : Type := prog producer exn A.

#[global] Instance P_ret : MRet P := prog_ret.
#[global] Instance P_bind : MBind P := prog_bind.

Definition lift {A} (r : Chain.exn + A) : P A :=
  match r with inl e => raise (foreign e) | inr a => mret a end.

Definition ask {A} (c : call A) : P A := λ s,
  let '(r, w) := answer c (world s) in
  lift r (mk_producer (_pob_auxiliary_data s) (_pob_bundle s) w (exchanged c r :: asked s)).

Definition now : P Z := λ s,
  let '(t, w) := system_clock_now (world s) in
  (Ok t, mk_producer (_pob_auxiliary_data s) (_pob_bundle s) w (asked s)).

Definition now_ms : P Z := t ← now; mret (to_ms t).

(** An [operator->] of an [optional]. *)
Definition deref {A} (o : option A) : P A := match o with Some a => mret a | None => raise undefined end.

Definition parsed {A} (o : option A) (what : bytes) : P A :=
  match o with Some a => mret a | None => raise (runtime_error what) end.

End State.

(** ** Blocks *)

Definition set_block_id (x : bytes) (b : block) : block := mk_block x (block_header_ b) (transactions b) (signature b).
Definition set_signature (x : bytes) (b : block) : block := mk_block (block_id b) (block_header_ b) (transactions b) x.
Definition set_transactions (x : list transaction) (b : block) : block :=
  mk_block (block_id b) (block_header_ b) x (signature b).

(** [mutable_header()]. *)
Definition on_header (f : block_header → block_header) (b : block) : block :=
  mk_block (block_id b) (Some (f (header b))) (transactions b) (signature b).

Definition set_timestamp (x : Z) : block → block :=
  on_header (λ h, mk_block_header (previous h) (height h) (previous_state_merkle_root h) (transaction_merkle_root h)
                    (MapBackend.mk_block_header x (signer (stored_header h)) (header_rest (stored_header h)))).

Definition set_transaction_merkle_root (x : bytes) : block → block :=
  on_header (λ h, mk_block_header (previous h) (height h) (previous_state_merkle_root h) x (stored_header h)).

(** [DeleteSubrange( index, 1 )]; an index out of range is undefined. *)
Definition delete_one (index : Z) (l : list transaction) : option (list transaction) :=
  let i := i32 index in
  if bool_decide (0 ≤ i < Z.of_nat (length l)) then Some (delete (Z.to_nat i) l) else None.

(** The loop from [rbegin] to [rend]. *)
Fixpoint delete_each (indices : list Z) (l : list transaction) : option (list transaction) :=
  match indices with
  | [] => Some l
  | i :: indices => match delete_one i l with Some l => delete_each indices l | None => None end
  end.

Definition delete_failed (failed_indices : list Z) (l : list transaction) : option (list transaction) :=
  delete_each (rev failed_indices) l.

(** ** Filling a block *)

(** [limit * bound / 100]. *)
Definition share (limit bound : Z) : Z := u64 (limit * bound) / 100.

Record filled := mk_filled {
  chosen : list transaction;
  disk_storage_count : Z;
  network_bandwidth_count : Z;
  compute_bandwidth_count : Z
}.

Definition nothing_filled : filled := mk_filled [] 0 0 0.

Definition within (limits : ResourceMeter.resource_limit_data) (bound : Z) (test : Z → Z → bool) (f : filled) : bool :=
  test (disk_storage_count f) (share (ResourceMeter.disk_storage_limit limits) bound)
  && test (network_bandwidth_count f) (share (ResourceMeter.network_bandwidth_limit limits) bound)
  && test (compute_bandwidth_count f) (share (ResourceMeter.compute_bandwidth_limit limits) bound).

(** What a block with one more transaction would use. *)
Definition add_pending (p : pending_transaction) (f : filled) : filled :=
  mk_filled (chosen f ++ [transaction_ p])
    (u64 (u64 (disk_storage_used p + system_disk_storage_used p) + disk_storage_count f))
    (u64 (u64 (network_bandwidth_used p + system_network_bandwidth_used p) + network_bandwidth_count f))
    (u64 (u64 (compute_bandwidth_used p + system_compute_bandwidth_used p) + compute_bandwidth_count f)).

Fixpoint fill_loop (c : ProducerConfig) (limits : ResourceMeter.resource_limit_data) (i : Z)
    (pending : list pending_transaction) (f : filled) : filled :=
  match pending with
  | [] => f
  | p :: pending =>
    if max_inclusion_attempts c <=? i then f
    else if negb (within limits (resources_lower_bound c) Z.ltb f) then f
    else if rc_limit (trx_header (transaction_ p)) =? 0 then fill_loop c limits (i + 1) pending f
    else
      let new := add_pending p f in
      fill_loop c limits (i + 1) pending (if within limits (resources_upper_bound c) Z.leb new then new else f)
  end.

(** ** Operations *)

Section Operations.
Context `{!Surroundings} `{!ChainCrypto} `{!Conversions} `{!ProducerLibraries}.
Context (_signing_key : private_key) (_config : ProducerConfig).

(** The hashes of the leaves, two for each transaction. *)
Fixpoint leaf_hashes (l : list transaction) : Chain.exn + list multihash :=
  match l with
  | [] => inr []
  | t :: l =>
    match crypto_hash sha2_256 (as_string (trx_header t)) 0 with
    | inl e => inl e
    | inr h =>
      match hash_signatures (signatures t) with
      | inl e => inl e
      | inr s => match leaf_hashes l with inl e => inl e | inr rest => inr (h :: s :: rest) end
      end
    end
  end.

Definition set_merkle_roots (b : block) : P block :=
  hashes ← lift (leaf_hashes (transactions b));
  mret (set_transaction_merkle_root (as_multihash (merkle_root_of sha2_256 hashes)) b).

Definition fill_block (b : block) : P block :=
  pending ← ask (get_pending_transactions (max_inclusion_attempts _config) (previous (header b)));
  limits ← ask get_resource_limits;
  mret (set_transactions (transactions b ++ chosen (fill_loop _config limits 0 pending nothing_filled)) b).

Definition next_block (signer : bytes) : P block :=
  head_info ← ask get_head_info;
  time ← now_ms;
  let b :=
    mk_block []
      (Some (mk_block_header (topo_id (rpc_head_topology head_info)) (u64 (topo_height (rpc_head_topology head_info) + 1))
               (rpc_head_state_merkle_root head_info) []
               (MapBackend.mk_block_header (Z.max time (rpc_head_block_time head_info)) signer
                  (header_rest_of (approved_proposals _config)))))
      [] [] in
  b ← fill_block b;
  set_merkle_roots b.

(** [set_id( hash( header() ) )]. *)
Definition identify (b : block) : P block :=
  h ← lift (crypto_hash sha2_256 (as_string (header b)) 0);
  mret (set_block_id (as_multihash h) b).

(** [sign_compact( to< multihash >( id() ) )]. *)
Definition sign_id (b : block) : P bytes :=
  id ← lift (to_multihash (block_id b));
  lift (sign_compact _signing_key id).

Definition receipt_result (r : block_receipt) (result : ProductionResult) : ProductionResult :=
  mk_production_result produced (br_height r) (br_id r) (u64 (Z.of_nat (length (br_transaction_receipts r))))
    (removed_failed_transactions result) 0.

Definition not_ready_result (r : ProductionResult) : ProductionResult :=
  mk_production_result not_ready (result_height r) (result_id r) (transaction_count r) (removed_failed_transactions r) 5000.

Definition add_removed (n : Z) (r : ProductionResult) : ProductionResult :=
  mk_production_result (status r) (result_height r) (result_id r) (transaction_count r)
    (u64 (removed_failed_transactions r + n)) (retry_after r).

Definition set_retry_after (x : Z) (r : ProductionResult) : ProductionResult :=
  mk_production_result (status r) (result_height r) (result_id r) (transaction_count r) (removed_failed_transactions r) x.

Definition set_status (x : Status) (r : ProductionResult) : ProductionResult :=
  mk_production_result x (result_height r) (result_id r) (transaction_count r) (removed_failed_transactions r) (retry_after r).

(** Whether to submit again, with the block and the result it leaves;
    [store] writes to the block the reference is to. *)
Definition submit_block (store : block → P unit) (b : block) (result : ProductionResult)
    : P (bool * block * ProductionResult) :=
  resp ← ask (propose_block b);
  match response_receipt resp with
  | None =>
    let failed_indices := failed_transaction_indices resp in
    match failed_indices with
    | [] => mret (false, b, not_ready_result result)
    | _ =>
      l ← deref (delete_failed failed_indices (transactions b));
      let b := set_transactions l b in
      store b;;
      b ← set_merkle_roots b;
      store b;;
      mret (true, b, add_removed (Z.of_nat (length failed_indices)) result)
    end
  | Some r => mret (false, b, receipt_result r result)
  end.

(** [while( submit_block( block, result ) )], with the body that signs the
    block again. *)
Fixpoint submit_loop (fuel : nat) (store : block → P unit) (sign : block → P block) (b : block)
    (result : ProductionResult) : P ProductionResult :=
  match fuel with
  | O => λ s, (OutOfFuel, s)
  | S fuel =>
    r ← submit_block store b result;
    match r with
    | (true, b, result) =>
      b ← identify b;
      store b;;
      b ← sign b;
      store b;;
      submit_loop fuel store sign b result
    | (false, _, result) => mret result
    end
  end.

(** A submission that is repeated has removed a transaction. *)
Definition submit (store : block → P unit) (sign : block → P block) (b : block) (result : ProductionResult)
    : P ProductionResult :=
  submit_loop (S (length (transactions b))) store sign b result.

Definition sign_federated (b : block) : P block := s ← sign_id b; mret (set_signature s b).

Definition produce_federated_once : P ProductionResult :=
  b ← next_block (to_address_bytes (get_public_key _signing_key));
  b ← identify b;
  b ← sign_federated b;
  result ← submit (λ _, mret tt) sign_federated b new_result;
  mret (match status result with produced => set_retry_after 5000 result | _ => result end).

(** ** Proof of burn *)

Definition next_time_quantum (time : Z) : P Z :=
  n ← now_ms;
  aux ← gets_state _pob_auxiliary_data;
  let time_ms := Z.max (to_ms time) n in
  let step :=
    match aux with
    | Some d => if 0 <? quantum_length d then quantum_length d else 10
    | None => 10
    end in
  let remainder := time_ms `mod` step in
  deref (from_ms (if remainder =? 0 then u64 (time_ms + step) else u64 (time_ms + u64 (step - remainder)))).

Definition get_contract_address (name : bytes) : P bytes :=
  resp ← ask (invoke_system_call get_contract_address_id (as_get_address_arguments name));
  parsed (parse_address resp) (str "unable to parse contract address for " ++ name).

Definition vhp_contract : P bytes :=
  aux ← gets_state _pob_auxiliary_data; aux ← deref aux; mret (vhp_contract_id aux).

Definition get_vhp_symbol : P bytes :=
  id ← vhp_contract;
  resp ← ask (read_contract id symbol_entry_point []);
  parsed (parse_symbol resp) (str "unable to parse VHP symbol").

Definition get_vhp_decimals : P Z :=
  id ← vhp_contract;
  resp ← ask (read_contract id decimals_entry_point []);
  parsed (parse_decimals resp) (str "unable to parse VHP decimals").

Definition get_vhp_balance : P Z :=
  owner ← lift (from_base58 (producer_address _config));
  id ← vhp_contract;
  resp ← ask (read_contract id effective_balance_of_entry_point (as_effective_balance_of_arguments owner));
  parsed (parse_balance resp) (str "unable to parse VHP balance").

Definition get_pob_metadata : P (bytes * bytes) :=
  aux ← gets_state _pob_auxiliary_data; aux ← deref aux;
  resp ← ask (read_contract (pob_contract_id aux) get_metadata_entry_point []);
  parsed (parse_metadata resp) (str "unable to parse PoB metadata").

Definition pow10 (n : Z) : Z := 10 ^ n.

Definition assert_valid (b : bool) (what : string) : P unit := assert_that b (runtime_error (str what)).

(** The members of [_pob_auxiliary_data] are set one after the other. *)
Definition refresh_pob_auxiliary_data : P unit :=
  pob ← get_contract_address (str "pob");
  vhp ← get_contract_address (str "vhp");
  mod_state (set_auxiliary_data (Some (mk_pob_auxiliary_data pob vhp [] 0 0 0 0)));;
  resp ← ask (read_contract pob get_consensus_parameters_entry_point []);
  params ← parsed (parse_consensus_parameters resp) (str "unable to parse PoB consensus parameters");
  let '(interval, quantum) := params in
  vhp_decimals ← get_vhp_decimals;
  assert_valid (negb ((vhp_decimals =? 0) || (10 <=? vhp_decimals))) "invalid VHP decimals from chain";;
  assert_valid (negb ((interval =? 0) || (quantum =? 0))) "invalid PoB consensus timing from chain";;
  symbol ← get_vhp_symbol;
  let quanta := interval / quantum in
  mod_state (set_auxiliary_data
    (Some (mk_pob_auxiliary_data pob vhp symbol (pow10 vhp_decimals) interval quantum quanta)));;
  assert_valid (negb (quanta =? 0)) "invalid PoB quanta per block interval from chain".

Definition next_pob_bundle : P PobBundle :=
  refresh_pob_auxiliary_data;;
  metadata ← get_pob_metadata;
  producer ← lift (from_base58 (producer_address _config));
  b ← next_block producer;
  balance ← get_vhp_balance;
  time ← deref (from_ms (block_timestamp b));
  quantum ← next_time_quantum time;
  assert_valid (negb (balance =? 0)) "configured producer has no effective VHP balance";;
  assert_valid (negb (decode_big_endian_unsigned 128 metadata.2 =? 0)) "PoB difficulty is zero";;
  mret (mk_pob_bundle b metadata.1 metadata.2 balance quantum).

(** The bundle of a new head. *)
Definition renew_bundle : P unit := b ← next_pob_bundle; mod_state (set_bundle (Some b)).

Definition update_bundle : P unit :=
  bundle ← gets_state _pob_bundle;
  match bundle with
  | None => renew_bundle
  | Some bundle =>
    head ← ask get_head_info;
    if bool_decide (previous (header (bundle_block bundle)) = topo_id (rpc_head_topology head)) then mret tt
    else renew_bundle
  end.

Definition set_bundle_block (b : block) (x : PobBundle) : PobBundle :=
  mk_pob_bundle b (seed x) (difficulty x) (vhp_balance x) (time_quantum x).
Definition set_bundle_quantum (t : Z) (x : PobBundle) : PobBundle :=
  mk_pob_bundle (bundle_block x) (seed x) (difficulty x) (vhp_balance x) t.

Definition store_bundle_block (b : block) : P unit :=
  mod_state (λ s, set_bundle (set_bundle_block b <$> _pob_bundle s) s).

Definition sign_pob (proof_hash : multihash) (proof : bytes) (b : block) : P block :=
  s ← sign_id b;
  mret (set_signature (as_signature_data (mk_signature_data (as_multihash proof_hash) proof s)) b).

(** The block of the bundle at its time quantum, with the proof for it. *)
Definition prepare_bundle (bundle : PobBundle) : P (block * multihash * bytes) :=
  let timestamp := to_ms (time_quantum bundle) in
  let b := set_timestamp timestamp (bundle_block bundle) in
  store_bundle_block b;;
  r ← lift (generate_random_proof _signing_key (as_vrf_payload (seed bundle) timestamp));
  let '(proof, proof_hash) := r in
  b ← identify b;
  store_bundle_block b;;
  b ← sign_pob proof_hash proof b;
  store_bundle_block b;;
  mret (b, proof_hash, proof).

Definition produce_bundle (bundle : PobBundle) (result : ProductionResult) : P ProductionResult :=
  r ← prepare_bundle bundle;
  let '(b, proof_hash, proof) := r in
  if negb (difficulty_met (digest proof_hash) (vhp_balance bundle) (difficulty bundle)) then
    quantum ← next_time_quantum (time_quantum bundle);
    mod_state (λ s, set_bundle (set_bundle_quantum quantum <$> _pob_bundle s) s);;
    mret (set_status not_our_turn result)
  else
    result ← submit store_bundle_block (sign_pob proof_hash proof) b result;
    mod_state (set_bundle None);;
    mret result.

Definition produce_pob_once : P ProductionResult :=
  assert_that (match producer_address _config with [] => false | _ => true end)
    (invalid_argument (str "block_producer.producer is required when algorithm is pob"));;
  aux ← gets_state _pob_auxiliary_data;
  (match aux with None => refresh_pob_auxiliary_data | Some _ => mret tt end);;
  update_bundle;;
  aux ← gets_state _pob_auxiliary_data; aux ← deref aux;
  bundle ← gets_state _pob_bundle; bundle ← deref bundle;
  let result := set_retry_after (if 0 <? quantum_length aux then quantum_length aux else 10) new_result in
  t ← now;
  if t + 5000000000 <? time_quantum bundle then mret (set_status not_our_turn result)
  else produce_bundle bundle result.

Definition produce_once : P ProductionResult :=
  if bool_decide (algorithm _config = str "pob") then produce_pob_once
  else if bool_decide (algorithm _config = str "federated") then produce_federated_once
  else raise (invalid_argument (str "unsupported block_producer.algorithm: " ++ algorithm _config)).

End Operations.

(** ** The file of the private key *)

Section KeyFile.
Context `{!ChainCrypto} `{!ProducerLibraries}.

(** Files by their path; [restricted] are those only their owner may read
    and write.  What the system allows is given for each path. *)
Record files := mk_files { contents : gmap bytes bytes; restricted : gset bytes }.

Class FileSystem := {
  parent_path : bytes → bytes;
  can_read : bytes → bool;
  can_create_directories : bytes → bool;
  can_open : bytes → bool;
  can_restrict : bytes → bool;
  can_finish : bytes → bool;
  written_part : bytes → bytes
}.

Class KeyLibrary := {
  from_wif : bytes → Chain.exn + private_key;
  to_wif : private_key → bytes;
  regenerate : multihash → Chain.exn + private_key;
  to_base58 : bytes → bytes;
  to_base64 : bytes → bytes
}.

Context `{!FileSystem} `{!KeyLibrary}.

Definition F (A : Type) : Type := prog files exn A.
#[local] Instance F_ret : MRet F := prog_ret.
#[local] Instance F_bind : MBind F := prog_bind.

Definition lift_file {A} (r : Chain.exn + A) : F A := match r with inl e => raise (foreign e) | inr a => mret a end.

(** [std::getline] of the first line. *)
Fixpoint first_line (s : bytes) : bytes :=
  match s with
  | [] => []
  | c :: s => if bool_decide (c = "010"%char) then [] else c :: first_line s
  end.

Definition load_private_key_file (path : bytes) : F private_key :=
  f ← gets_state contents;
  match (if can_read path then f !! path else None) with
  | None => raise (runtime_error (str "unable to open private key file: " ++ path))
  | Some s =>
    match first_line s with
    | [] => raise (runtime_error (str "private key file is empty: " ++ path))
    | private_key_wif => lift_file (from_wif private_key_wif)
    end
  end.

(** A failure is only logged. *)
Definition restrict_private_key_permissions (path : bytes) : F unit :=
  mod_state (λ f, if can_restrict path then mk_files (contents f) ({[path]} ∪ restricted f) else f).

Definition write_file (path s : bytes) : F unit := mod_state (λ f, mk_files (<[path := s]> (contents f)) (restricted f)).

(** [seed] is the random one; a write that fails leaves what it wrote. *)
Definition load_or_create_private_key_file (path seed : bytes) : F private_key :=
  f ← gets_state contents;
  match f !! path with
  | Some _ => load_private_key_file path
  | None =>
    (match parent_path path with
     | [] => mret tt
     | parent =>
       assert_that (can_create_directories parent) (foreign StdException)
     end);;
    secret ← lift_file (crypto_hash sha2_256 seed 0);
    private_key ← lift_file (regenerate secret);
    assert_that (can_open path) (runtime_error (str "unable to write private key file: " ++ path));;
    write_file path [];;
    restrict_private_key_permissions path;;
    let s := to_wif private_key ++ ["010"%char] in
    write_file path (if can_finish path then s else written_part s);;
    assert_that (can_finish path) (runtime_error (str "unable to finish writing private key file: " ++ path));;
    restrict_private_key_permissions path;;
    mret private_key
  end.

Definition public_address (_signing_key : private_key) : bytes :=
  to_base58 (to_address_bytes (get_public_key _signing_key)).

Definition public_key_base64 (_signing_key : private_key) : bytes :=
  to_base64 (as_public_key (get_public_key _signing_key)).

(** The stream is not looked at after the write. *)
Definition write_public_key_file (_signing_key : private_key) (path : bytes) : F unit :=
  assert_that (can_create_directories (parent_path path)) (foreign StdException);;
  assert_that (can_open path) (runtime_error (str "unable to write public key file: " ++ path));;
  let s := public_key_base64 _signing_key ++ ["010"%char] in
  write_file path (if can_finish path then s else written_part s).

End KeyFile.

End BlockProducer.
