(* ===== verification/BlockProducerTheorems.v ===== *)
(** The block producer terminates, proposes only blocks it has built, and
    fills them within the limits. *)

From S2P Require Import Prelude MapBackend StateDelta.
From S2P Require Import ResourceMeter.
From S2P Require Import ChainTypes BlockProducer.
Import Chain BlockProducer.

(** ** Termination *)

Section Termination.
Context `{W : !Surroundings} `{X : !ChainCrypto} `{V : !Conversions} `{L : !ProducerLibraries}.

(** The run ends, with an exception or a value as required. *)
Definition ensures {A} (Q : A → Prop) (m : P A) : Prop :=
  ∀ s, match (m s).1 with Ok a => Q a | Throw _ => True | OutOfFuel => False end.

Definition returns {A} (m : P A) : Prop := ensures (λ _, True) m.

Lemma ensures_ret {A} (Q : A → Prop) a : Q a → ensures Q (mret a).
Proof. intros HQ s. exact HQ. Qed.

Lemma ensures_bind {A B} (R : A → Prop) (Q : B → Prop) (m : P A) (k : A → P B) :
  ensures R m → (∀ a, R a → ensures Q (k a)) → ensures Q (m ≫= k).
Proof.
  intros Hm Hk s. specialize (Hm s). unfold mbind, P_bind, prog_bind.
  destruct (m s) as [[a|e|] s1]; [by apply Hk|done|done].
Qed.

Lemma returns_bind {A B} (Q : B → Prop) (m : P A) (k : A → P B) :
  returns m → (∀ a, ensures Q (k a)) → ensures Q (m ≫= k).
Proof. intros Hm Hk. apply (ensures_bind (λ _, True)); auto. Qed.

Lemma ensures_weaken {A} (Q R : A → Prop) (m : P A) : ensures Q m → (∀ a, Q a → R a) → ensures R m.
Proof. intros Hm HQ s. specialize (Hm s). destruct (m s) as [[a|e|] s1]; [by apply HQ|done|done]. Qed.

Lemma ensures_raise {A} (Q : A → Prop) e : ensures Q (raise e).
Proof. intros s. exact I. Qed.

Lemma returns_raise {A} e : returns (raise e : P A).
Proof. apply ensures_raise. Qed.

Lemma returns_ret {A} (a : A) : returns (mret a).
Proof. by apply ensures_ret. Qed.

Lemma returns_gets {A} (f : producer → A) : returns (gets_state f).
Proof. intros s. exact I. Qed.

Lemma returns_mod f : returns (mod_state f).
Proof. intros s. exact I. Qed.

Lemma returns_lift {A} (r : Chain.exn + A) : returns (lift r).
Proof. intros s. by destruct r. Qed.

Lemma returns_deref {A} (o : option A) : returns (deref o).
Proof. intros s. by destruct o. Qed.

Lemma returns_parsed {A} (o : option A) w : returns (parsed o w).
Proof. intros s. by destruct o. Qed.

Lemma returns_assert b e : returns (assert_that b e).
Proof. intros s. by destruct b. Qed.

Lemma returns_ask {A} (c : call A) : returns (ask c).
Proof. intros s. unfold ask. by destruct (answer c (world s)) as [[e|a] w]. Qed.

Lemma returns_now : returns now.
Proof. intros s. unfold now. by destruct (system_clock_now (world s)). Qed.

End Termination.

Create HintDb returns.
#[export] Hint Resolve ensures_ret ensures_raise returns_raise returns_ret returns_gets returns_mod returns_lift returns_deref
  returns_parsed returns_assert returns_ask returns_now : returns.

Ltac returns :=
  cbv zeta;
  repeat first
    [ solve [auto with returns]
    | match goal with |- ensures (λ _, True) ?m => change (returns m) end
    | apply returns_bind; [|intros ?]
    | match goal with
      | |- returns (if ?b then _ else _) => destruct b
      | |- ensures _ (if ?b then _ else _) => destruct b
      | |- returns (match ?x with _ => _ end) => destruct x
      | |- ensures _ (match ?x with _ => _ end) => destruct x
      end ].

Section Operations.
Context `{W : !Surroundings} `{X : !ChainCrypto} `{V : !Conversions} `{L : !ProducerLibraries}.
Context (key : private_key) (config : ProducerConfig).

Lemma ensures_merkle_roots b : ensures (λ b', transactions b' = transactions b) (set_merkle_roots b).
Proof. unfold set_merkle_roots. returns. Qed.

Lemma ensures_identify b : ensures (λ b', transactions b' = transactions b) (identify b).
Proof. unfold identify. returns. Qed.

Lemma returns_set_merkle_roots b : returns (set_merkle_roots b).
Proof. unfold set_merkle_roots. returns. Qed.

Lemma returns_identify b : returns (identify b).
Proof. unfold identify. returns. Qed.

Lemma returns_sign_id b : returns (sign_id key b).
Proof. unfold sign_id. returns. Qed.
#[local] Hint Resolve returns_set_merkle_roots returns_identify returns_sign_id : returns.

Lemma returns_next_block who : returns (next_block config who).
Proof. unfold next_block, now_ms, fill_block. returns. Qed.

Lemma delete_each_length indices l l' :
  delete_each indices l = Some l' → (length l' + length indices)%nat = length l.
Proof.
  revert l. induction indices as [|i indices IH]; intros l; simpl; [intros [= ->]; lia|].
  unfold delete_one. case_bool_decide as Hi; [|discriminate]. intros Hl%IH.
  assert (is_Some (l !! Z.to_nat (i32 i))) as [x Hx] by (apply lookup_lt_is_Some; lia).
  rewrite length_delete in Hl by eauto. lia.
Qed.

Lemma delete_failed_length indices l l' :
  delete_failed indices l = Some l' → (length l' + length indices)%nat = length l.
Proof. intros Hl%delete_each_length. rewrite length_rev in Hl. exact Hl. Qed.

(** A submission to be repeated has fewer transactions. *)
Lemma submit_block_shrinks store b r :
  (∀ b, returns (store b)) →
  ensures (λ '(again, b', _), again = true → (length (transactions b') < length (transactions b))%nat)
    (submit_block store b r).
Proof.
  intros Hstore. unfold submit_block. apply returns_bind; [apply returns_ask|]. intros resp.
  destruct (response_receipt resp); [by apply ensures_ret|].
  destruct (failed_transaction_indices resp) as [|i failed]; [by apply ensures_ret|].
  destruct (delete_failed (i :: failed) (transactions b)) as [l|] eqn:Hd; [|apply ensures_raise].
  apply (ensures_bind (λ l0, l0 = l)); [by intros s|]. intros ? ->. apply delete_failed_length in Hd.
  apply returns_bind; [apply Hstore|]. intros _.
  apply (ensures_bind _ _ _ _ (ensures_merkle_roots _)). intros b1 Hb1. simpl in Hb1.
  apply returns_bind; [apply Hstore|]. intros _. apply ensures_ret. intros _. rewrite Hb1. simpl in Hd. lia.
Qed.

Lemma returns_submit_loop store sign :
  (∀ b, returns (store b)) →
  (∀ b, ensures (λ b', transactions b' = transactions b) (sign b)) →
  ∀ fuel b r, (length (transactions b) < fuel)%nat → returns (submit_loop fuel store sign b r).
Proof.
  intros Hstore Hsign. induction fuel as [|fuel IH]; intros b r Hfuel; [lia|]. simpl.
  apply (ensures_bind _ _ _ _ (submit_block_shrinks store b r Hstore)). intros [[[] b1] r1] Hb1; [|apply returns_ret].
  specialize (Hb1 eq_refl).
  apply (ensures_bind _ _ _ _ (ensures_identify b1)). intros b2 Hb2.
  apply returns_bind; [apply Hstore|]. intros _.
  apply (ensures_bind _ _ _ _ (Hsign b2)). intros b3 Hb3.
  apply returns_bind; [apply Hstore|]. intros _. apply IH. rewrite Hb3, Hb2. lia.
Qed.

Lemma returns_submit store sign b r :
  (∀ b, returns (store b)) → (∀ b, ensures (λ b', transactions b' = transactions b) (sign b)) →
  returns (submit store sign b r).
Proof. intros Hstore Hsign. apply returns_submit_loop; [done|done|lia]. Qed.

Lemma ensures_sign_federated b : ensures (λ b', transactions b' = transactions b) (sign_federated key b).
Proof. unfold sign_federated. apply returns_bind; [apply returns_sign_id|]. intros s. by apply ensures_ret. Qed.

Lemma ensures_sign_pob h p b : ensures (λ b', transactions b' = transactions b) (sign_pob key h p b).
Proof. unfold sign_pob. apply returns_bind; [apply returns_sign_id|]. intros s. by apply ensures_ret. Qed.

Lemma returns_sign_federated b : returns (sign_federated key b).
Proof. apply (ensures_weaken _ _ _ (ensures_sign_federated b)). done. Qed.

Lemma returns_sign_pob h p b : returns (sign_pob key h p b).
Proof. apply (ensures_weaken _ _ _ (ensures_sign_pob h p b)). done. Qed.
#[local] Hint Resolve returns_next_block returns_sign_federated returns_sign_pob : returns.

Lemma returns_refresh : returns refresh_pob_auxiliary_data.
Proof.
  unfold refresh_pob_auxiliary_data, get_contract_address, get_vhp_decimals, get_vhp_symbol, vhp_contract, assert_valid.
  returns.
Qed.
#[local] Hint Resolve returns_refresh : returns.

Lemma returns_next_time_quantum t : returns (next_time_quantum t).
Proof. unfold next_time_quantum, now_ms. returns. Qed.
#[local] Hint Resolve returns_next_time_quantum : returns.

Lemma returns_update_bundle : returns (update_bundle config).
Proof.
  unfold update_bundle, renew_bundle, next_pob_bundle, get_pob_metadata, get_vhp_balance, vhp_contract, assert_valid.
  returns.
Qed.

Lemma returns_prepare_bundle bundle : returns (prepare_bundle key bundle).
Proof. unfold prepare_bundle, store_bundle_block. returns. Qed.
#[local] Hint Resolve returns_update_bundle returns_prepare_bundle : returns.

Lemma returns_submit_pob h p b r : returns (submit store_bundle_block (sign_pob key h p) b r).
Proof. apply returns_submit; [intros; apply returns_mod|apply ensures_sign_pob]. Qed.

Lemma returns_submit_federated b r : returns (submit (λ _, mret tt) (sign_federated key) b r).
Proof. apply returns_submit; [intros; apply returns_ret|apply ensures_sign_federated]. Qed.
#[local] Hint Resolve returns_submit_pob returns_submit_federated : returns.

(** C18. Producing a block always ends: each time the chain names transactions
    that failed, the block that is submitted again has fewer of them, so the
    loop of submissions runs at most once more than there are transactions. *)
Theorem produce_once_terminates s : (produce_once key config s).1 ≠ OutOfFuel.
Proof.
  assert (returns (produce_once key config)) as Hr.
  - unfold produce_once, produce_pob_once, produce_federated_once, produce_bundle. returns.
  - specialize (Hr s). destruct (produce_once key config s) as [[a|e|] s1]; done.
Qed.

End Operations.

(** ** Filling a block *)

Definition disk_use (p : pending_transaction) : Z := disk_storage_used p + system_disk_storage_used p.
Definition network_use (p : pending_transaction) : Z := network_bandwidth_used p + system_network_bandwidth_used p.
Definition compute_use (p : pending_transaction) : Z := compute_bandwidth_used p + system_compute_bandwidth_used p.

Definition total (use : pending_transaction → Z) (ps : list pending_transaction) : Z := foldr (λ p n, use p + n) 0 ps.

(** The uses of a list are numbers of 64 bits, and so is their sum. *)
Definition sums_fit (ps : list pending_transaction) : Prop :=
  Forall (λ p, 0 ≤ disk_use p ∧ 0 ≤ network_use p ∧ 0 ≤ compute_use p) ps ∧
  total disk_use ps < 2 ^ 64 ∧ total network_use ps < 2 ^ 64 ∧ total compute_use ps < 2 ^ 64.

(** The percentage of a limit can be computed in 64 bits. *)
Definition limits_fit (limits : ResourceMeter.resource_limit_data) : Prop :=
  0 ≤ ResourceMeter.disk_storage_limit limits < 2 ^ 57 ∧ 0 ≤ ResourceMeter.network_bandwidth_limit limits < 2 ^ 57 ∧
  0 ≤ ResourceMeter.compute_bandwidth_limit limits < 2 ^ 57.

Definition spends (p : pending_transaction) : Prop := rc_limit (trx_header (transaction_ p)) ≠ 0.

Record filled_by (f : filled) (ps : list pending_transaction) : Prop := {
  filled_chosen : chosen f = transaction_ <$> ps;
  filled_disk : disk_storage_count f = total disk_use ps;
  filled_network : network_bandwidth_count f = total network_use ps;
  filled_compute : compute_bandwidth_count f = total compute_use ps
}.

Lemma total_app use ps qs : total use (ps ++ qs) = total use ps + total use qs.
Proof. induction ps as [|p ps IH]; simpl; [reflexivity|]. unfold total in *. simpl. lia. Qed.

Lemma total_nonneg use ps : Forall (λ p, 0 ≤ use p) ps → 0 ≤ total use ps.
Proof. induction 1 as [|p ps Hp _ IH]; unfold total in *; simpl; lia. Qed.

Lemma sums_fit_parts ps qs : sums_fit (ps ++ qs) →
  sums_fit qs ∧ ∀ use, use = disk_use ∨ use = network_use ∨ use = compute_use →
    0 ≤ total use ps ∧ 0 ≤ total use qs ∧ total use ps + total use qs < 2 ^ 64.
Proof.
  intros [[Hps Hqs]%Forall_app Hlt]. rewrite !total_app in Hlt.
  assert (∀ use rs, use = disk_use ∨ use = network_use ∨ use = compute_use →
    Forall (λ p, 0 ≤ disk_use p ∧ 0 ≤ network_use p ∧ 0 ≤ compute_use p) rs → 0 ≤ total use rs) as Hn.
  - intros use rs Huse Hrs. apply total_nonneg. eapply Forall_impl; [exact Hrs|].
    intros p (? & ? & ?). by destruct Huse as [->|[->| ->]].
  - pose proof (Hn _ _ (or_introl eq_refl) Hps). pose proof (Hn _ _ (or_intror (or_introl eq_refl)) Hps).
    pose proof (Hn _ _ (or_intror (or_intror eq_refl)) Hps).
    split; [split; [exact Hqs|lia]|]. intros use Huse. split; [by apply Hn|]. split; [by apply Hn|].
    destruct Huse as [->|[->| ->]]; lia.
Qed.

Lemma sums_fit_skip ps p qs : sums_fit (ps ++ p :: qs) → sums_fit (ps ++ qs).
Proof.
  intros [Hps Hlt]. assert (Forall (λ p, 0 ≤ disk_use p ∧ 0 ≤ network_use p ∧ 0 ≤ compute_use p) (ps ++ qs)) as Hall.
  - apply Forall_app in Hps as [Hps Hqs]. apply Forall_app. split; [exact Hps|]. by inversion Hqs.
  - split; [exact Hall|]. rewrite !total_app in Hlt |- *. apply Forall_app in Hps as [_ Hqs].
    inversion Hqs as [|? ? (? & ? & ?)]; subst. unfold total in *. simpl in Hlt. lia.
Qed.

Lemma add_pending_filled f ps p qs :
  filled_by f ps → sums_fit (ps ++ p :: qs) → filled_by (add_pending p f) (ps ++ [p]).
Proof.
  intros [Hc Hd Hn Hp] Hfit. pose proof (proj2 (sums_fit_parts _ _ Hfit)) as Htot.
  destruct Hfit as [Hall _]. apply Forall_app in Hall as [_ Hall]. inversion Hall as [|? ? (H1 & H2 & H3) Hqs]; subst.
  assert (∀ use, (use = disk_use ∨ use = network_use ∨ use = compute_use) → 0 ≤ use p →
    u64 (u64 (use p) + total use ps) = total use (ps ++ [p])) as Hadd.
  - intros use Huse Hup. specialize (Htot use Huse). rewrite total_app. change (total use [p]) with (use p + 0).
    assert (0 ≤ total use qs).
    + apply total_nonneg. eapply Forall_impl; [exact Hqs|]. intros q (? & ? & ?). by destruct Huse as [->|[->| ->]].
    + assert (total use (p :: qs) = use p + total use qs) as Heq by reflexivity.
      unfold u64. rewrite Heq in Htot. rewrite (wrap_small 64 (use p)) by lia. rewrite wrap_small by lia. lia.
  - split; unfold add_pending; simpl.
    + by rewrite Hc, fmap_app.
    + rewrite Hd. by apply (Hadd disk_use); [left|].
    + rewrite Hn. by apply (Hadd network_use); [right; left|].
    + rewrite Hp. by apply (Hadd compute_use); [right; right|].
Qed.

Lemma fill_loop_filled c limits pending : ∀ i f ps,
  filled_by f ps → within limits (resources_upper_bound c) Z.leb f = true → sums_fit (ps ++ pending) →
  ∃ qs, qs `sublist_of` take (Z.to_nat (max_inclusion_attempts c - i)) pending ∧ Forall spends qs ∧
    filled_by (fill_loop c limits i pending f) (ps ++ qs) ∧
    within limits (resources_upper_bound c) Z.leb (fill_loop c limits i pending f) = true.
Proof.
  induction pending as [|p pending IH]; intros i f ps Hf Hin Hfit; simpl.
  - exists []. rewrite take_nil, app_nil_r. repeat split; [constructor|constructor|apply Hf..|exact Hin].
  - assert (∃ qs, qs `sublist_of` take (Z.to_nat (max_inclusion_attempts c - i)) (p :: pending) ∧ Forall spends qs ∧
      filled_by f (ps ++ qs) ∧ within limits (resources_upper_bound c) Z.leb f = true) as Hstop.
    { exists []. rewrite app_nil_r. split_and!; [apply sublist_nil_l|constructor|exact Hf|exact Hin]. }
    destruct (Z.leb_spec (max_inclusion_attempts c) i) as [_|Hi]; [exact Hstop|].
    destruct (negb _); [exact Hstop|]. clear Hstop.
    replace (Z.to_nat (max_inclusion_attempts c - i)) with (S (Z.to_nat (max_inclusion_attempts c - (i + 1)))) by lia.
    assert (∀ g rs, filled_by g rs → within limits (resources_upper_bound c) Z.leb g = true → sums_fit (rs ++ pending) →
      ∃ qs, qs `sublist_of` p :: take (Z.to_nat (max_inclusion_attempts c - (i + 1))) pending ∧ Forall spends qs ∧
        filled_by (fill_loop c limits (i + 1) pending g) (rs ++ qs) ∧
        within limits (resources_upper_bound c) Z.leb (fill_loop c limits (i + 1) pending g) = true) as Hskip.
    { intros g rs Hg Hgin Hgfit. destruct (IH (i + 1) g rs Hg Hgin Hgfit) as (qs & Hsub & Hsp & Hq & Hw).
      exists qs. split_and!; [by apply sublist_cons|exact Hsp|exact Hq|exact Hw]. }
    destruct (Z.eqb_spec (rc_limit (trx_header (transaction_ p))) 0) as [_|Hrc];
      [apply Hskip; [exact Hf|exact Hin|by eapply sums_fit_skip]|].
    destruct (within limits (resources_upper_bound c) Z.leb (add_pending p f)) eqn:Hnew;
      [|apply Hskip; [exact Hf|exact Hin|by eapply sums_fit_skip]].
    destruct (IH (i + 1) (add_pending p f) (ps ++ [p])) as (qs & Hsub & Hsp & Hq & Hw);
      [by eapply add_pending_filled|exact Hnew|by rewrite <- app_assoc|].
    exists (p :: qs). rewrite <- app_assoc in Hq. split_and!; [by apply sublist_skip|by constructor|exact Hq|exact Hw].
Qed.

Lemma share_exact limit bound : 0 ≤ limit < 2 ^ 57 → 0 ≤ bound ≤ 100 → share limit bound = limit * bound / 100.
Proof. intros Hl Hb. unfold share, u64. rewrite wrap_small by nia. reflexivity. Qed.

(** C19. A block is filled with pending transactions, in their order and each of
    them with a limit of resources, among the first [max_inclusion_attempts];
    what they use together is at most [resources_upper_bound] percent of every
    limit of the chain. *)
Theorem fill_block_within_limits c limits pending :
  sums_fit pending → limits_fit limits → 0 ≤ resources_upper_bound c ≤ 100 →
  ∃ ps, chosen (fill_loop c limits 0 pending nothing_filled) = transaction_ <$> ps ∧
    ps `sublist_of` take (Z.to_nat (max_inclusion_attempts c)) pending ∧ Forall spends ps ∧
    100 * total disk_use ps ≤ ResourceMeter.disk_storage_limit limits * resources_upper_bound c ∧
    100 * total network_use ps ≤ ResourceMeter.network_bandwidth_limit limits * resources_upper_bound c ∧
    100 * total compute_use ps ≤ ResourceMeter.compute_bandwidth_limit limits * resources_upper_bound c.
Proof.
  intros Hfit (Hl1 & Hl2 & Hl3) Hb.
  destruct (fill_loop_filled c limits pending 0 nothing_filled []) as (ps & Hsub & Hsp & [Hc Hd Hn Hp] & Hw).
  - by split.
  - unfold within, nothing_filled. simpl. rewrite !share_exact by lia.
    rewrite !andb_true_iff, !Z.leb_le. split_and!; apply Z.div_pos; nia.
  - exact Hfit.
  - simpl in *. rewrite Z.sub_0_r in Hsub. unfold within in Hw. rewrite !share_exact, Hd, Hn, Hp in Hw by lia.
    rewrite !andb_true_iff, !Z.leb_le in Hw. exists ps.
    pose proof (λ x, Z.mul_div_le x 100 ltac:(lia)) as Hdiv. destruct Hw as [[H1 H2] H3].
    split_and!; [exact Hc|exact Hsub|exact Hsp|..];
      (eapply Z.le_trans; [apply Z.mul_le_mono_nonneg_l; [lia|eassumption]|apply Hdiv]).
Qed.

(** ** The transactions that failed *)

(** The transactions, numbered from [k], whose numbers are not given. *)
Fixpoint surviving (k : Z) (indices : list Z) (l : list transaction) : list transaction :=
  match l with
  | [] => []
  | t :: l => if bool_decide (k ∈ indices) then surviving (k + 1) indices l else t :: surviving (k + 1) indices l
  end.

Lemma surviving_app k indices l1 l2 :
  surviving k indices (l1 ++ l2) = surviving k indices l1 ++ surviving (k + Z.of_nat (length l1)) indices l2.
Proof.
  revert k. induction l1 as [|t l1 IH]; intros k; simpl; [f_equal; lia|].
  rewrite IH. replace (k + 1 + Z.of_nat (length l1)) with (k + Z.of_nat (S (length l1))) by lia.
  by case_bool_decide.
Qed.

Lemma surviving_all k indices l : (∀ i, i ∈ indices → i < k) → surviving k indices l = l.
Proof.
  revert k. induction l as [|t l IH]; intros k Hk; simpl; [reflexivity|].
  rewrite bool_decide_eq_false_2 by (intros ?%Hk; lia). rewrite IH; [reflexivity|]. intros i ?%Hk. lia.
Qed.

Lemma surviving_ext k indices indices' l :
  (∀ i, k ≤ i < k + Z.of_nat (length l) → i ∈ indices ↔ i ∈ indices') → surviving k indices l = surviving k indices' l.
Proof.
  revert k. induction l as [|t l IH]; intros k Hk; simpl in *; [reflexivity|].
  rewrite (IH (k + 1)) by (intros; apply Hk; lia).
  destruct (decide (k ∈ indices)) as [Hi|Hi]; pose proof (Hk k ltac:(lia)) as Hiff.
  - rewrite !bool_decide_eq_true_2 by tauto. reflexivity.
  - rewrite !bool_decide_eq_false_2 by tauto. reflexivity.
Qed.

(** Without the largest number, and the transaction that has it. *)
Lemma surviving_snoc indices i l :
  0 ≤ i < Z.of_nat (length l) → (∀ j, j ∈ indices → j < i) →
  surviving 0 (indices ++ [i]) l = surviving 0 indices (delete (Z.to_nat i) l).
Proof.
  intros Hi Hlt. destruct (lookup_lt_is_Some_2 l (Z.to_nat i)) as [t Ht]; [lia|].
  rewrite delete_take_drop. rewrite <- (take_drop_middle l (Z.to_nat i) t Ht) at 1.
  rewrite !surviving_app, length_take, Nat.min_l by lia. simpl. rewrite Z2Nat.id by lia. f_equal.
  - apply surviving_ext. rewrite length_take. intros j Hj. rewrite elem_of_app, list_elem_of_singleton. split; [|tauto].
    intros [?| ->]; [done|lia].
  - rewrite bool_decide_eq_true_2 by set_solver. rewrite !surviving_all; [reflexivity| |].
    + intros j Hj%Hlt. lia.
    + intros j [Hj%Hlt|Hj%list_elem_of_singleton]%elem_of_app; lia.
Qed.

(** For indices in ascending order, deleting from the last to the first
    leaves the transactions that the chain did not name. *)
Theorem delete_failed_surviving indices l :
  StronglySorted Z.lt indices → Forall (λ i, 0 ≤ i < Z.of_nat (length l)) indices → Z.of_nat (length l) < 2 ^ 31 →
  delete_failed indices l = Some (surviving 0 indices l).
Proof.
  unfold delete_failed. revert l. induction indices as [|i indices IH] using rev_ind; intros l Hs Hr Hl.
  - simpl. by rewrite surviving_all by set_solver.
  - rewrite rev_app_distr. simpl. apply Forall_app in Hr as [Hr Hi]. rewrite Forall_singleton in Hi.
    apply StronglySorted_app in Hs as (Hlt & Hs & _).
    assert (∀ j, j ∈ indices → j < i) as Hbelow by (intros; apply Hlt; [done|set_solver]).
    unfold delete_one, i32. rewrite signed_small by (change (2 ^ (32 - 1)) with (2 ^ 31); lia). rewrite bool_decide_eq_true_2 by lia.
    assert (is_Some (l !! Z.to_nat i)) as [t Ht] by (apply lookup_lt_is_Some; lia).
    assert (length (delete (Z.to_nat i) l) = (length l - 1)%nat) as Hdel by (by apply length_delete).
    rewrite surviving_snoc by done. apply IH; [exact Hs| |rewrite Hdel; lia].
    apply Forall_forall. intros j Hj. rewrite Forall_forall in Hr. specialize (Hr j Hj). specialize (Hbelow j Hj).
    rewrite Hdel. lia.
Qed.

(** ** Time *)

Section Time.
Context `{W : !Surroundings}.

(** The next time quantum of a bundle is the first multiple of the quantum
    length, ten milliseconds while it is not known, after the time given and
    after the clock. *)
Theorem next_time_quantum_next s time ns w :
  system_clock_now (world s) = (ns, w) →
  let base := Z.max (to_ms time) (to_ms ns) in
  let step := match _pob_auxiliary_data s with Some d => if 0 <? quantum_length d then quantum_length d else 10 | None => 10 end in
  step < 2 ^ 32 → base < 2 ^ 43 →
  ∃ ms, (next_time_quantum time s).1 = Ok (ms * 1000000) ∧ base < ms ∧ ms `mod` step = 0 ∧
    ∀ ms', base < ms' → ms' `mod` step = 0 → ms ≤ ms'.
Proof.
  intros Hnow base step Hstep Hbase.
  assert (0 < step) as Hpos.
  { unfold step. destruct (_pob_auxiliary_data s) as [d|]; [|lia]. destruct (Z.ltb_spec 0 (quantum_length d)); lia. }
  assert (0 ≤ base) as H0.
  { unfold base, to_ms. pose proof (wrap_range 64 (Z.quot time 1000000) ltac:(lia)). unfold u64. lia. }
  set (ms := (base / step + 1) * step).
  pose proof (Z.div_mod base step ltac:(lia)) as Hdm. pose proof (Z.mod_pos_bound base step Hpos) as Hmod.
  assert (base < ms ≤ base + step) as Hms by (unfold ms; nia).
  exists ms. split_and!; [|lia|unfold ms; apply Z_mod_mult|].
  - assert ((if base `mod` step =? 0 then u64 (base + step) else u64 (base + u64 (step - base `mod` step))) = ms) as Hval.
    { unfold u64. destruct (Z.eqb_spec (base `mod` step) 0) as [He|He].
      - rewrite wrap_small by lia. unfold ms. clear -Hdm He. nia.
      - rewrite (wrap_small 64 (step - _)) by lia. rewrite wrap_small by lia. unfold ms. nia. }
    unfold next_time_quantum, now_ms, mbind, mret, P_bind, P_ret, prog_bind, prog_ret, now, gets_state.
    rewrite Hnow. simpl. fold base step. rewrite Hval. unfold from_ms, i64. rewrite signed_small by (change (2 ^ (64 - 1)) with (2 ^ 63); clear Hval; lia).
    rewrite bool_decide_eq_true_2 by (unfold is_i64; clear Hval; lia). reflexivity.
  - intros ms' Hlt Hz. apply Z.mod_divide in Hz as [q ->]; [|lia]. unfold ms.
    assert (base / step < q) by (apply Z.div_lt_upper_bound; lia). nia.
Qed.

End Time.

(** ** What is proposed *)

Lemma fill_loop_chosen c limits pending : ∀ i f,
  ∃ ps, chosen (fill_loop c limits i pending f) = chosen f ++ (transaction_ <$> ps) ∧ ps `sublist_of` pending ∧ Forall spends ps.
Proof.
  induction pending as [|p pending IH]; intros i f; simpl.
  - exists []. split_and!; [by rewrite app_nil_r|constructor|constructor].
  - assert (∃ ps, chosen f = chosen f ++ (transaction_ <$> ps) ∧ ps `sublist_of` p :: pending ∧ Forall spends ps) as Hstop.
    { exists []. split_and!; [by rewrite app_nil_r|apply sublist_nil_l|constructor]. }
    destruct (max_inclusion_attempts c <=? i); [exact Hstop|]. destruct (negb _); [exact Hstop|]. clear Hstop.
    assert (∃ ps, chosen (fill_loop c limits (i + 1) pending f) = chosen f ++ (transaction_ <$> ps) ∧
      ps `sublist_of` p :: pending ∧ Forall spends ps) as Hskip.
    { destruct (IH (i + 1) f) as (ps & Hc & Hs & Hsp). exists ps. split_and!; [done|by apply sublist_cons|done]. }
    destruct (Z.eqb_spec (rc_limit (trx_header (transaction_ p))) 0) as [_|Hrc]; [exact Hskip|].
    destruct (within _ _ _ _); [|exact Hskip].
    destruct (IH (i + 1) (add_pending p f)) as (ps & Hc & Hs & Hsp). exists (p :: ps).
    split_and!; [rewrite Hc; simpl; by rewrite <- app_assoc|by apply sublist_skip|by constructor].
Qed.

(** The identifier that the latest answer of the chain gave for its head. *)
Fixpoint latest_head `{!Surroundings} (l : list exchange) : option bytes :=
  match l with
  | [] => None
  | exchanged c r :: l =>
    match c in call A return (Chain.exn + A → option bytes) with
    | get_head_info => λ r, match r with inr i => Some (topo_id (rpc_head_topology i)) | inl _ => latest_head l end
    | _ => λ _, latest_head l
    end r
  end.

(** The block of a call that proposes one. *)
Definition proposed {A} (c : call A) : option block := match c with propose_block b => Some b | _ => None end.

Section Proposals.
Context `{W : !Surroundings} `{X : !ChainCrypto} `{V : !Conversions} `{L : !ProducerLibraries}.
Context (key : private_key) (config : ProducerConfig).

(** The root of the header is that of the transactions. *)
Definition well_rooted (b : block) : Prop :=
  ∃ hashes, leaf_hashes (transactions b) = inr hashes ∧
    transaction_merkle_root (header b) = as_multihash (merkle_root_of sha2_256 hashes).

(** Built by [who] on a head that the chain gave, of transactions pending
    after it, in their order. *)
Record built (who : bytes) (l : list exchange) (b : block) : Prop := {
  built_head : ∃ info, exchanged get_head_info (inr info) ∈ l ∧
    previous (header b) = topo_id (rpc_head_topology info) ∧
    height (header b) = u64 (topo_height (rpc_head_topology info) + 1) ∧
    previous_state_merkle_root (header b) = rpc_head_state_merkle_root info;
  built_transactions : ∃ ps,
    exchanged (get_pending_transactions (max_inclusion_attempts config) (previous (header b))) (inr ps) ∈ l ∧
    transactions b `sublist_of` (transaction_ <$> ps) ∧ Forall (λ t, rc_limit (trx_header t) ≠ 0) (transactions b);
  built_root : well_rooted b;
  built_signer : block_signer b = who
}.

Definition identified (b : block) : Prop :=
  ∃ h, crypto_hash sha2_256 (as_string (header b)) 0 = inr h ∧ block_id b = as_multihash h.

Definition signed_id (b : block) (s : bytes) : Prop :=
  ∃ id, to_multihash (block_id b) = inr id ∧ sign_compact key id = inr s.

Definition federated_block (l : list exchange) (b : block) : Prop :=
  built (to_address_bytes (get_public_key key)) l b ∧ identified b ∧ signed_id b (signature b).

(** The seed, the difficulty and the balance are what contracts answered. *)
Definition pob_evidence (l : list exchange) (seed difficulty : bytes) (balance : Z) : Prop :=
  (∃ id resp, exchanged (read_contract id get_metadata_entry_point []) (inr resp) ∈ l ∧
     parse_metadata resp = Some (seed, difficulty)) ∧
  ∃ id owner resp, from_base58 (producer_address config) = inr owner ∧
    exchanged (read_contract id effective_balance_of_entry_point (as_effective_balance_of_arguments owner)) (inr resp) ∈ l ∧
    parse_balance resp = Some balance.

(** The proof for the seed and the time of the block meets the difficulty,
    and goes with the signature. *)
Definition proven (seed difficulty : bytes) (balance : Z) (b : block) : Prop :=
  ∃ proof proof_hash s,
    generate_random_proof key (as_vrf_payload seed (block_timestamp b)) = inr (proof, proof_hash) ∧
    difficulty_met (digest proof_hash) balance difficulty = true ∧
    signed_id b s ∧ signature b = as_signature_data (mk_signature_data (as_multihash proof_hash) proof s).

Definition bundle_sound (l : list exchange) (x : PobBundle) : Prop :=
  (∃ owner, from_base58 (producer_address config) = inr owner ∧ built owner l (bundle_block x)) ∧
  pob_evidence l (seed x) (difficulty x) (vhp_balance x).

Definition pob_block (l : list exchange) (b : block) : Prop :=
  ∃ x, bundle_sound l x ∧ bundle_block x = b ∧ identified b ∧ proven (seed x) (difficulty x) (vhp_balance x) b.

(** A block proposed after the exchanges [l]. *)
Definition sound (l : list exchange) (b : block) : Prop :=
  latest_head l = Some (previous (header b)) ∧
  if bool_decide (algorithm config = str "pob") then pob_block l b else federated_block l b.

Fixpoint trace_sound (l : list exchange) : Prop :=
  match l with
  | [] => True
  | exchanged c _ :: l => match proposed c with Some b => sound l b | None => True end ∧ trace_sound l
  end.

Definition consistent (s : producer) : Prop :=
  trace_sound (asked s) ∧ ∀ x, _pob_bundle s = Some x → bundle_sound (asked s) x.

Definition wp {A} (m : P A) (Q : A → producer → Prop) (s : producer) : Prop :=
  consistent (m s).2 ∧ asked s `suffix_of` asked (m s).2 ∧ match (m s).1 with Ok a => Q a (m s).2 | _ => True end.

Lemma built_grows who l l' b : l `suffix_of` l' → built who l b → built who l' b.
Proof.
  intros [k ->] [(i & Hi & Hb) (ps & Hp & Hs) Hr Hw].
  split; [exists i; split; [set_solver|exact Hb]|exists ps; split; [set_solver|exact Hs]|exact Hr|exact Hw].
Qed.

Lemma evidence_grows l l' sd d n : l `suffix_of` l' → pob_evidence l sd d n → pob_evidence l' sd d n.
Proof.
  intros [k ->] [(i & r & Hi & Hr) (j & o & r' & Ho & Hj & Hr')].
  split; [exists i, r; set_solver|exists j, o, r'; set_solver].
Qed.

Lemma bundle_sound_grows l l' x : l `suffix_of` l' → bundle_sound l x → bundle_sound l' x.
Proof.
  intros Hl [(o & Ho & Hb) He].
  split; [exists o; split; [exact Ho|by eapply built_grows]|by eapply evidence_grows].
Qed.

Lemma wp_ret {A} (a : A) Q s : consistent s → Q a s → wp (mret a) Q s.
Proof. intros Hs HQ. by split_and!. Qed.

Lemma wp_bind {A B} (m : P A) (k : A → P B) Q s :
  wp m (λ a s', consistent s' → asked s `suffix_of` asked s' → wp (k a) Q s') s → wp (m ≫= k) Q s.
Proof.
  unfold wp, mbind, P_bind, prog_bind. intros (Hc & Hsuf & Hk).
  destruct (m s) as [[a|e|] s1]; simpl in *; [|by split_and!..].
  destruct (Hk Hc Hsuf) as (? & ? & ?). split_and!; [done|by etrans|done].
Qed.

Lemma wp_mono {A} (m : P A) Q R s : wp m Q s → (∀ a s', Q a s' → R a s') → wp m R s.
Proof. intros (? & ? & HQ) HR. split_and!; [done..|]. destruct (m s).1; auto. Qed.

Lemma wp_run {A} (m m' : P A) Q s : m s = m' s → wp m' Q s → wp m Q s.
Proof. unfold wp. by intros ->. Qed.

Lemma wp_raise {A} e (Q : A → producer → Prop) s : consistent s → wp (raise e) Q s.
Proof. intros Hs. by split_and!. Qed.

Lemma wp_lift {A} (r : Chain.exn + A) Q s : consistent s → (∀ a, r = inr a → Q a s) → wp (lift r) Q s.
Proof. intros Hs HQ. destruct r; [by apply wp_raise|by apply wp_ret; auto]. Qed.

Lemma wp_parsed {A} (o : option A) what Q s : consistent s → (∀ a, o = Some a → Q a s) → wp (parsed o what) Q s.
Proof. intros Hs HQ. destruct o; [by apply wp_ret; auto|by apply wp_raise]. Qed.

Lemma wp_deref {A} (o : option A) Q s : consistent s → (∀ a, o = Some a → Q a s) → wp (deref o) Q s.
Proof. intros Hs HQ. destruct o; [by apply wp_ret; auto|by apply wp_raise]. Qed.

Lemma wp_assert b e Q s : consistent s → (b = true → Q tt s) → wp (assert_that b e) Q s.
Proof. intros Hs HQ. destruct b; [by apply wp_ret; auto|by apply wp_raise]. Qed.

Lemma wp_gets {A} (f : producer → A) Q s : consistent s → Q (f s) s → wp (gets_state f) Q s.
Proof. intros Hs HQ. by split_and!. Qed.

Lemma wp_mod f Q s : consistent (f s) → asked (f s) = asked s → Q tt (f s) → wp (mod_state f) Q s.
Proof. intros Hs Ha HQ. split_and!; simpl; [done|by rewrite Ha|done]. Qed.

Lemma wp_now (Q : Z → producer → Prop) s :
  consistent s → (∀ t s', asked s' = asked s → _pob_bundle s' = _pob_bundle s → Q t s') → wp now Q s.
Proof.
  intros [Ht Hb] HQ. unfold wp, now. destruct (system_clock_now (world s)) as [t w]. simpl. split_and!; [|done|by apply HQ].
  split; [exact Ht|exact Hb].
Qed.

Lemma wp_ask {A} (c : call A) Q s :
  consistent s → match proposed c with Some b => sound (asked s) b | None => True end →
  (∀ r s', asked s' = exchanged c (inr r) :: asked s → _pob_bundle s' = _pob_bundle s → Q r s') → wp (ask c) Q s.
Proof.
  intros [Ht Hb] Hp HQ. unfold wp, ask. destruct (answer c (world s)) as [r w].
  assert (consistent (mk_producer (_pob_auxiliary_data s) (_pob_bundle s) w (exchanged c r :: asked s))) as Hc.
  { split; [by split|]. simpl. intros x Hx. eapply bundle_sound_grows; [|by apply Hb]. by exists [exchanged c r]. }
  assert (asked s `suffix_of` exchanged c r :: asked s) as Hsuf by (by exists [exchanged c r]).
  destruct r as [e|r]; simpl; split_and!; try done. by apply HQ.
Qed.

(** The same bundle, and the same head as far as is known. *)
Definition undisturbed (s s' : producer) : Prop :=
  _pob_bundle s' = _pob_bundle s ∧ latest_head (asked s') = latest_head (asked s).

Lemma wp_then {A B} (m : P A) (k : A → P B) (R : A → producer → Prop) Q s :
  wp m R s → (∀ a s', R a s' → consistent s' → asked s `suffix_of` asked s' → wp (k a) Q s') → wp (m ≫= k) Q s.
Proof. intros Hm Hk. apply wp_bind. eapply wp_mono; [exact Hm|]. intros a s' HR Hc Hsuf. by apply Hk. Qed.

Lemma wp_merkle_roots b s :
  consistent s →
  wp (set_merkle_roots b) (λ b' s', s' = s ∧ well_rooted b' ∧
    ∃ root, b' = set_transaction_merkle_root root b) s.
Proof.
  intros Hs. apply wp_bind, wp_lift; [done|]. intros hashes Hh _ _. apply wp_ret; [done|].
  split; [done|]. split; [exists hashes; by split|by eexists].
Qed.

Lemma wp_next_block who s :
  consistent s →
  wp (next_block config who) (λ b s', _pob_bundle s' = _pob_bundle s ∧ built who (asked s') b ∧
    latest_head (asked s') = Some (previous (header b))) s.
Proof.
  intros Hs. unfold next_block, now_ms, fill_block.
  apply wp_bind, wp_ask; [done|done|]. intros info s1 Ha1 Hb1 Hc1 _.
  apply wp_bind, wp_bind, wp_now; [done|]. intros t s2 Ha2 Hb2 Hc2 _. apply wp_ret; [done|]. intros _ _.
  apply wp_bind, wp_bind, wp_ask; [done|done|]. intros pending s3 Ha3 Hb3 Hc3 _.
  apply wp_bind, wp_ask; [done|done|]. intros limits s4 Ha4 Hb4 Hc4 _.
  apply wp_ret; [done|]. intros _ _.
  eapply wp_mono; [by apply wp_merkle_roots|]. intros b s5 (-> & Hroot & root & ->). simpl in *.
  rewrite Ha2, Ha1 in Ha3. rewrite Ha3 in Ha4. split; [congruence|]. rewrite Ha4. split; [|reflexivity].
  destruct (fill_loop_chosen config limits pending 0 nothing_filled) as (ps & Hch & Hsub & Hsp).
  split; [|exists pending; split; [|split]|exact Hroot|reflexivity].
  - exists info. split; [set_solver|done].
  - simpl. set_solver.
  - simpl. rewrite Hch. simpl. by apply fmap_sublist.
  - simpl. rewrite Hch. simpl. apply Forall_fmap. eapply Forall_impl; [exact Hsp|]. done.
Qed.

Lemma wp_vhp_contract s : consistent s → wp vhp_contract (λ _ s', s' = s) s.
Proof.
  intros Hs. apply wp_bind, wp_gets; [done|]. intros _ _. apply wp_bind, wp_deref; [done|]. intros aux _ _ _. by apply wp_ret.
Qed.

Lemma wp_read id entry args s :
  consistent s →
  wp (ask (read_contract id entry args))
    (λ resp s', undisturbed s s' ∧ exchanged (read_contract id entry args) (inr resp) ∈ asked s') s.
Proof.
  intros Hs. apply wp_ask; [done|done|]. intros r s' Ha Hb. unfold undisturbed. rewrite Ha. split; [done|]. set_solver.
Qed.

Lemma wp_vhp_balance s :
  consistent s →
  wp (get_vhp_balance config) (λ n s', undisturbed s s' ∧
    ∃ id owner resp, from_base58 (producer_address config) = inr owner ∧
      exchanged (read_contract id effective_balance_of_entry_point (as_effective_balance_of_arguments owner)) (inr resp)
        ∈ asked s' ∧ parse_balance resp = Some n) s.
Proof.
  intros Hs. apply wp_bind, wp_lift; [done|]. intros owner Ho _ _.
  eapply wp_then; [by apply wp_vhp_contract|]. intros id ? -> _ _.
  eapply wp_then; [by apply wp_read|]. intros resp s1 [Hu Hr] Hc _.
  apply wp_parsed; [done|]. intros n Hn. split; [exact Hu|]. by exists id, owner, resp.
Qed.

Lemma wp_metadata s :
  consistent s →
  wp get_pob_metadata (λ m s', undisturbed s s' ∧
    ∃ id resp, exchanged (read_contract id get_metadata_entry_point []) (inr resp) ∈ asked s' ∧
      parse_metadata resp = Some m) s.
Proof.
  intros Hs. apply wp_bind, wp_gets; [done|]. intros _ _. apply wp_bind, wp_deref; [done|]. intros aux _ _ _.
  eapply wp_then; [by apply wp_read|]. intros resp s1 [Hu Hr] Hc _.
  apply wp_parsed; [done|]. intros m Hm. split; [exact Hu|]. by exists (pob_contract_id aux), resp.
Qed.

Lemma wp_contract_address name s : consistent s → wp (get_contract_address name) (λ _ s', undisturbed s s') s.
Proof.
  intros Hs. apply wp_bind, wp_ask; [done|done|]. intros r s' Ha Hb Hc _. apply wp_parsed; [done|]. intros _ _.
  unfold undisturbed. by rewrite Ha.
Qed.

Lemma wp_vhp_read {A} entry (parse : bytes → option A) what s :
  consistent s →
  wp (id ← vhp_contract; resp ← ask (read_contract id entry []); parsed (parse resp) what) (λ _ s', undisturbed s s') s.
Proof.
  intros Hs. eapply wp_then; [by apply wp_vhp_contract|]. intros id ? -> _ _.
  eapply wp_then; [by apply wp_read|]. intros resp s1 [Hu _] Hc _. by apply wp_parsed.
Qed.

Lemma consistent_auxiliary x s : consistent s → consistent (set_auxiliary_data x s).
Proof. intros [Ht Hb]. by split. Qed.

Lemma undisturbed_trans s1 s2 s3 : undisturbed s1 s2 → undisturbed s2 s3 → undisturbed s1 s3.
Proof. unfold undisturbed. intros [? ?] [? ?]. split; congruence. Qed.

Lemma wp_refresh s : consistent s → wp refresh_pob_auxiliary_data (λ _ s', undisturbed s s') s.
Proof.
  intros Hs. unfold refresh_pob_auxiliary_data, get_vhp_decimals, get_vhp_symbol, assert_valid.
  eapply wp_then; [by apply wp_contract_address|]. intros pob s1 Hu1 Hc1 _.
  eapply wp_then; [by apply wp_contract_address|]. intros vhp s2 Hu2 Hc2 _.
  apply wp_bind, wp_mod; [by apply consistent_auxiliary|done|]. intros Hc3 _.
  eapply wp_then; [by apply wp_read|]. intros resp s4 [Hu4 _] Hc4 _.
  apply wp_bind, wp_parsed; [done|]. intros [interval quantum] _ _ _.
  eapply wp_then; [by apply wp_vhp_read|]. intros decimals s5 Hu5 Hc5 _.
  apply wp_bind, wp_assert; [done|]. intros _ _ _. apply wp_bind, wp_assert; [done|]. intros _ _ _.
  eapply wp_then; [by apply wp_vhp_read|]. intros symbol s6 Hu6 Hc6 _.
  apply wp_bind, wp_mod; [by apply consistent_auxiliary|done|]. intros Hc7 _.
  apply wp_assert; [done|]. intros _.
  pose proof (undisturbed_trans _ _ _ Hu1 Hu2) as Hu. pose proof (undisturbed_trans _ _ _ Hu5 Hu6) as Hu'.
  pose proof (undisturbed_trans _ _ _ Hu4 Hu') as Hu''. unfold undisturbed in *. simpl in *. intuition congruence.
Qed.

Lemma wp_next_time_quantum t s : consistent s → wp (next_time_quantum t) (λ _ s', undisturbed s s') s.
Proof.
  intros Hs. unfold next_time_quantum, now_ms. apply wp_bind, wp_bind, wp_now; [done|]. intros n s1 Ha Hb Hc _.
  apply wp_ret; [done|]. intros _ _. apply wp_bind, wp_gets; [done|]. intros _ _. apply wp_deref; [done|].
  intros q _. unfold undisturbed. by rewrite Ha.
Qed.

Lemma sublist_Forall {A} (Q : A → Prop) (l l' : list A) : l' `sublist_of` l → Forall Q l → Forall Q l'.
Proof. induction 1; intros HQ; [done|inversion HQ; subst; constructor; auto|inversion HQ; subst; auto]. Qed.

Lemma sublist_delete_one {A} i (l : list A) : delete i l `sublist_of` l.
Proof.
  revert i. induction l as [|x l IH]; intros [|i]; simpl; [done|done|by apply sublist_cons|by apply sublist_skip].
Qed.

Lemma leaf_hashes_sublist l l' hashes :
  leaf_hashes l = inr hashes → l' `sublist_of` l → ∃ hashes', leaf_hashes l' = inr hashes'.
Proof.
  intros Hl Hsub. revert hashes Hl. induction Hsub as [|t l' l Hsub IH|t l' l Hsub IH]; intros hashes Hl; simpl in *; [by eexists|..];
    destruct (crypto_hash _ _ _) as [|h]; try done; destruct (hash_signatures _) as [|g]; try done;
    destruct (leaf_hashes l) as [|rest]; try done; destruct (IH _ eq_refl) as [rest' Hr]; [rewrite Hr|]; by eexists.
Qed.

Lemma delete_failed_sublist indices l l' : delete_failed indices l = Some l' → l' `sublist_of` l.
Proof.
  unfold delete_failed. generalize (rev indices). clear indices. intros indices. revert l.
  induction indices as [|i indices IH]; intros l; simpl; [by intros [= ->]|].
  unfold delete_one. case_bool_decide; [|done]. intros Hs%IH. etrans; [exact Hs|]. apply sublist_delete_one.
Qed.

(** A block with the same place in the chain and some of the transactions. *)
Record derived (b b' : block) : Prop := {
  derived_previous : previous (header b') = previous (header b);
  derived_height : height (header b') = height (header b);
  derived_state_root : previous_state_merkle_root (header b') = previous_state_merkle_root (header b);
  derived_signer : block_signer b' = block_signer b;
  derived_timestamp : block_timestamp b' = block_timestamp b;
  derived_transactions : transactions b' `sublist_of` transactions b;
  derived_root : well_rooted b → well_rooted b'
}.

Lemma built_derived who l b b' : built who l b → derived b b' → built who l b'.
Proof.
  intros [(i & Hi & H1 & H2 & H3) (ps & Hp & Hs & Hr) Hroot Hw] [D1 D2 D3 D4 _ D5 D6].
  split; [exists i; rewrite D1, D2, D3; done|exists ps; rewrite D1|by apply D6|congruence].
  split; [done|]. split; [by etrans|]. by eapply sublist_Forall.
Qed.

Lemma derived_set_id i b : derived b (set_block_id i b).
Proof. by split. Qed.

Lemma derived_set_signature i b : derived b (set_signature i b).
Proof. by split. Qed.

Lemma built_set_timestamp who l t b : built who l b → built who l (set_timestamp t b).
Proof. intros [Hh Ht Hr Hw]. by split. Qed.

Lemma wp_identify b s :
  consistent s → wp (identify b) (λ b' s', s' = s ∧ identified b' ∧ ∃ i, b' = set_block_id i b) s.
Proof.
  intros Hs. apply wp_bind, wp_lift; [done|]. intros h Hh _ _. apply wp_ret; [done|].
  split; [done|]. split; [exists h; by split|by eexists].
Qed.

Lemma wp_sign_id b s : consistent s → wp (sign_id key b) (λ g s', s' = s ∧ signed_id b g) s.
Proof.
  intros Hs. apply wp_bind, wp_lift; [done|]. intros i Hi _ _. apply wp_lift; [done|]. intros g Hg.
  split; [done|]. by exists i.
Qed.

(** *** The loop of submissions, for a block that is held somewhere *)

Section Loop.
Context (write : block → producer → producer) (sign : block → P block).
Context (holds : producer → block → Prop) (ready : block → Prop).
Context (write_write : ∀ b b' s, write b' (write b s) = write b' s).
Context (write_holds : ∀ s b b', consistent s → holds s b → derived b b' →
  consistent (write b' s) ∧ asked (write b' s) = asked s ∧ holds (write b' s) b').
Context (holds_grows : ∀ s s' b, holds s b → undisturbed s s' → asked s `suffix_of` asked s' → holds s' b).
Context (holds_rooted : ∀ s b, consistent s → holds s b → well_rooted b).
Context (sign_ready : ∀ s b, consistent s → holds s b → identified b →
  wp (sign b) (λ b' s', s' = s ∧ ready b' ∧ ∃ g, b' = set_signature g b) s).
Context (ready_sound : ∀ s b, consistent s → holds s b → ready b → sound (asked s) b).

Lemma wp_write s b b' :
  consistent s → holds s b → derived b b' → wp (mod_state (write b')) (λ _ s', holds s' b') s.
Proof. intros Hs Hh Hd. destruct (write_holds s b b' Hs Hh Hd) as (? & ? & ?). by apply wp_mod. Qed.

(** After a deletion the block is written twice, and between the two its
    root is that of another list; the second always follows. *)
Lemma write_rooted {A} (b : block) (l : list transaction) (k : block → P A) s :
  well_rooted b → l `sublist_of` transactions b →
  ∃ b', derived b b' ∧
    (mod_state (write (set_transactions l b));; b1 ← set_merkle_roots (set_transactions l b); mod_state (write b1);; k b1) s
    = (mod_state (write b');; k b') s.
Proof.
  intros (hs & Hhs & _) Hsub. destruct (leaf_hashes_sublist _ _ _ Hhs Hsub) as [hs' Hl].
  exists (set_transaction_merkle_root (as_multihash (merkle_root_of sha2_256 hs')) (set_transactions l b)). split.
  - split; try done. intros _. by exists hs'.
  - unfold set_merkle_roots. simpl. rewrite Hl. unfold lift, mbind, P_bind, prog_bind, mod_state, mret, P_ret, prog_ret.
    by rewrite write_write.
Qed.

Lemma wp_submit_block s b r :
  consistent s → holds s b → ready b →
  wp (submit_block (λ b, mod_state (write b)) b r) (λ x s', x.1.1 = true → holds s' x.1.2) s.
Proof.
  intros Hs Hh Hready. unfold submit_block. apply wp_bind, wp_ask; [done|by apply ready_sound|].
  intros resp s1 Ha Hb Hc Hsuf.
  assert (holds s1 b) as Hh1. { apply (holds_grows s); [done| |done]. unfold undisturbed. by rewrite Ha. }
  destruct (response_receipt resp); [by apply wp_ret|].
  destruct (failed_transaction_indices resp) as [|i failed]; [by apply wp_ret|].
  destruct (delete_failed (i :: failed) (transactions b)) as [l|] eqn:Hd; [|by apply wp_bind, wp_raise].
  apply delete_failed_sublist in Hd. apply wp_bind, wp_ret; [done|]. intros _ _.
  destruct (write_rooted b l (λ b, mret (true, b, add_removed (Z.of_nat (length (i :: failed))) r)) s1
    (holds_rooted _ _ Hc Hh1) Hd) as (b' & Hder & Heq).
  eapply wp_run; [exact Heq|].
  eapply wp_then; [by apply (wp_write _ b)|]. intros u s2 Hh2 Hc2 _. by apply wp_ret.
Qed.

Lemma wp_submit_loop fuel : ∀ b r s, consistent s → holds s b → ready b →
  wp (submit_loop fuel (λ b, mod_state (write b)) sign b r) (λ _ _, True) s.
Proof.
  induction fuel as [|fuel IH]; intros b r s Hs Hh Hready; simpl; [by split_and!|].
  eapply wp_then; [by apply wp_submit_block|]. intros [[[] b1] r1] s1 Hagain Hc1 _; [|by apply wp_ret].
  specialize (Hagain eq_refl). simpl in Hagain.
  eapply wp_then; [by apply wp_identify|]. intros b2 ? (-> & Hid & i & ->) _ _.
  eapply wp_then; [by apply (wp_write _ b1), derived_set_id|]. intros u s2 Hh2 Hc2 _.
  eapply wp_then; [by apply sign_ready|]. intros b3 ? (-> & Hready3 & g & ->) _ _.
  eapply wp_then; [by apply (wp_write _ (set_block_id i b1)), derived_set_signature|]. intros u' s3 Hh3 Hc3 _.
  by apply IH.
Qed.

End Loop.

(** *** Federated *)

Definition holds_federated (s : producer) (b : block) : Prop :=
  built (to_address_bytes (get_public_key key)) (asked s) b ∧ latest_head (asked s) = Some (previous (header b)).

Definition ready_federated (b : block) : Prop := identified b ∧ signed_id b (signature b).

Lemma wp_sign_federated b s :
  consistent s → identified b →
  wp (sign_federated key b) (λ b' s', s' = s ∧ ready_federated b' ∧ ∃ g, b' = set_signature g b) s.
Proof.
  intros Hs Hid. eapply wp_then; [by apply wp_sign_id|]. intros g ? (-> & Hg) _ _. apply wp_ret; [done|].
  split; [done|]. split; [by split|by eexists].
Qed.

Lemma federated_sound s b :
  algorithm config ≠ str "pob" → holds_federated s b → ready_federated b → sound (asked s) b.
Proof.
  intros Ha [Hb Hl] [Hid Hg]. split; [exact Hl|]. rewrite bool_decide_eq_false_2 by exact Ha. by split_and!.
Qed.

Lemma wp_federated s :
  algorithm config ≠ str "pob" → consistent s → wp (produce_federated_once key config) (λ _ _, True) s.
Proof.
  intros Halg Hs. unfold produce_federated_once.
  eapply wp_then; [by apply wp_next_block|]. intros b s1 (_ & Hb & Hl) Hc _.
  eapply wp_then; [by apply wp_identify|]. intros b1 ? (-> & Hid & i & ->) _ _.
  eapply wp_then; [by apply wp_sign_federated|]. intros b2 ? (-> & Hready & g & ->) _ _.
  eapply wp_then.
  - apply (wp_submit_loop (λ _ s, s) (sign_federated key) holds_federated ready_federated); try done.
    + intros s0 b0 b' H0 [Hb0 Hl0] Hd. split; [done|]. split; [done|].
      split; [by eapply built_derived|by rewrite (derived_previous _ _ Hd)].
    + intros s0 s' b0 [Hb0 Hl0] [_ Hu] Hsuf. split; [by eapply built_grows|by rewrite Hu].
    + intros s0 b0 _ [Hb0 _]. apply Hb0.
    + intros s0 b0 H0 _ Hi0. by apply wp_sign_federated.
    + intros s0 b0 _. by apply federated_sound.
    + split; [|exact Hl]. eapply built_derived; [exact Hb|]. by split.
  - intros r s2 _ Hc2 _. by apply wp_ret.
Qed.

(** *** Proof of burn *)

Section Pob.
Context (x : PobBundle) (proof : bytes) (proof_hash : multihash).

Definition holds_pob (s : producer) (b : block) : Prop :=
  _pob_bundle s = Some (set_bundle_block b x) ∧ latest_head (asked s) = Some (previous (header b)) ∧
  block_timestamp b = to_ms (time_quantum x).

Definition ready_pob (b : block) : Prop :=
  identified b ∧ ∃ g, signed_id b g ∧
    signature b = as_signature_data (mk_signature_data (as_multihash proof_hash) proof g).

Definition write_pob (b : block) (s : producer) : producer := set_bundle (set_bundle_block b <$> _pob_bundle s) s.

Lemma consistent_write s b b' :
  consistent s → _pob_bundle s = Some (set_bundle_block b x) →
  (∀ who, built who (asked s) b → built who (asked s) b') → consistent (write_pob b' s).
Proof.
  intros [Ht Hb] Hx Hbuilt. split; [exact Ht|]. unfold write_pob. simpl. rewrite Hx. intros y [= <-].
  destruct (Hb _ Hx) as [(o & Ho & Hbo) He]. split; [|exact He]. exists o. split; [exact Ho|]. by apply Hbuilt.
Qed.

Lemma write_pob_holds s b b' :
  consistent s → holds_pob s b → derived b b' →
  consistent (write_pob b' s) ∧ asked (write_pob b' s) = asked s ∧ holds_pob (write_pob b' s) b'.
Proof.
  intros Hs (Hx & Hl & Ht) Hd. split; [eapply consistent_write; [done..|]; intros who Hb; by eapply built_derived|].
  split; [done|]. unfold holds_pob, write_pob. simpl. rewrite Hx. split; [done|].
  by rewrite (derived_previous _ _ Hd), (derived_timestamp _ _ Hd).
Qed.

Lemma wp_sign_pob b s :
  consistent s → identified b →
  wp (sign_pob key proof_hash proof b) (λ b' s', s' = s ∧ ready_pob b' ∧ ∃ g, b' = set_signature g b) s.
Proof.
  intros Hs Hid. eapply wp_then; [by apply wp_sign_id|]. intros g ? (-> & Hg) _ _. apply wp_ret; [done|].
  split; [done|]. split; [split; [exact Hid|by exists g]|by eexists].
Qed.

Lemma pob_sound s b :
  algorithm config = str "pob" → consistent s →
  generate_random_proof key (as_vrf_payload (seed x) (to_ms (time_quantum x))) = inr (proof, proof_hash) →
  difficulty_met (digest proof_hash) (vhp_balance x) (difficulty x) = true →
  holds_pob s b → ready_pob b → sound (asked s) b.
Proof.
  intros Ha [_ Hs] Hg Hd (Hx & Hl & Ht) [Hid (g & Hgs & Hsig)]. split; [exact Hl|].
  rewrite bool_decide_eq_true_2 by exact Ha. exists (set_bundle_block b x). split; [by apply Hs|]. split; [done|].
  split; [exact Hid|]. exists proof, proof_hash, g. simpl. rewrite Ht. by split_and!.
Qed.

Lemma wp_submit_pob b r s :
  algorithm config = str "pob" → consistent s →
  generate_random_proof key (as_vrf_payload (seed x) (to_ms (time_quantum x))) = inr (proof, proof_hash) →
  difficulty_met (digest proof_hash) (vhp_balance x) (difficulty x) = true →
  holds_pob s b → ready_pob b →
  wp (submit store_bundle_block (sign_pob key proof_hash proof) b r) (λ _ _, True) s.
Proof.
  intros Ha Hs Hg Hd Hh Hr.
  apply (wp_submit_loop write_pob (sign_pob key proof_hash proof) holds_pob ready_pob); try done.
  - intros b1 b2 s0. unfold write_pob. simpl. by destruct (_pob_bundle s0).
  - apply write_pob_holds.
  - intros s0 s' b0 (Hx & Hl & Ht) [Hub Hul] _. unfold holds_pob. by rewrite Hub, Hul.
  - intros s0 b0 [_ H0] (Hx & _). destruct (H0 _ Hx) as [(o & _ & Hbo) _]. apply Hbo.
  - intros s0 b0 H0 _ Hi0. by apply wp_sign_pob.
  - intros s0 b0 H0. by apply pob_sound.
Qed.

End Pob.

Lemma wp_prepare_bundle x s :
  consistent s → _pob_bundle s = Some x → latest_head (asked s) = Some (previous (header (bundle_block x))) →
  wp (prepare_bundle key x) (λ r s',
    generate_random_proof key (as_vrf_payload (seed x) (to_ms (time_quantum x))) = inr (r.2, r.1.2) ∧
    holds_pob x s' r.1.1 ∧ ready_pob r.2 r.1.2 r.1.1) s.
Proof.
  intros Hs Hx Hl. unfold prepare_bundle. set (b := set_timestamp (to_ms (time_quantum x)) (bundle_block x)).
  assert (consistent (write_pob b s)) as Hc1.
  { apply (consistent_write x s (bundle_block x)); [done|by destruct x|]. intros who. apply built_set_timestamp. }
  assert (holds_pob x (write_pob b s) b) as Hh1 by (unfold holds_pob, write_pob; simpl; by rewrite Hx).
  apply wp_bind, wp_mod; [done|done|]. intros _ _.
  apply wp_bind, wp_lift; [done|]. intros [proof proof_hash] Hp _ _.
  eapply wp_then; [by apply wp_identify|]. intros b1 ? (-> & Hid & i & ->) _ _.
  destruct (write_pob_holds x _ _ _ Hc1 Hh1 (derived_set_id i b)) as (Hc2 & Ha2 & Hh2).
  apply wp_bind, wp_mod; [done|done|]. intros _ _.
  eapply wp_then; [by apply wp_sign_pob|]. intros b2 ? (-> & Hready & g & ->) _ _.
  destruct (write_pob_holds x _ _ _ Hc2 Hh2 (derived_set_signature g (set_block_id i b))) as (Hc3 & Ha3 & Hh3).
  apply wp_bind, wp_mod; [done|done|]. intros _ _. by apply wp_ret.
Qed.

Lemma consistent_no_bundle s : consistent s → consistent (set_bundle None s).
Proof. intros [Ht _]. by split. Qed.

Lemma wp_produce_bundle x r s :
  algorithm config = str "pob" → consistent s → _pob_bundle s = Some x →
  latest_head (asked s) = Some (previous (header (bundle_block x))) →
  wp (produce_bundle key x r) (λ _ _, True) s.
Proof.
  intros Ha Hs Hx Hl. unfold produce_bundle.
  eapply wp_then; [by apply wp_prepare_bundle|]. intros [[b proof_hash] proof] s1 (Hp & Hh & Hr) Hc1 _. simpl in *.
  destruct (difficulty_met _ _ _) eqn:Hd; simpl.
  - eapply wp_then; [by apply (wp_submit_pob x)|]. intros r2 s2 _ Hc2 _.
    apply wp_bind, wp_mod; [by apply consistent_no_bundle|done|]. intros ? _. by apply wp_ret.
  - eapply wp_then; [by apply wp_next_time_quantum|]. intros q s2 [Hb2 _] Hc2 _.
    assert (consistent (set_bundle (set_bundle_quantum q <$> _pob_bundle s2) s2)) as Hc3.
    { destruct Hc2 as [Ht2 Hb2']. split; [exact Ht2|]. simpl. destruct (_pob_bundle s2) as [y|]; [|done].
      intros z [= <-]. exact (Hb2' y eq_refl). }
    apply wp_bind, wp_mod; [done|done|]. intros ? _. by apply wp_ret.
Qed.

Lemma wp_renew_bundle s :
  consistent s →
  wp (renew_bundle config) (λ _ s', ∃ x, _pob_bundle s' = Some x ∧
    latest_head (asked s') = Some (previous (header (bundle_block x)))) s.
Proof.
  intros Hs. unfold renew_bundle, next_pob_bundle, assert_valid.
  apply wp_bind. eapply wp_then; [by apply wp_refresh|]. intros u s1 _ Hc1 _.
  eapply wp_then; [by apply wp_metadata|]. intros [sd d] s2 [_ (i & resp & Hi & Hm)] Hc2 _.
  apply wp_bind, wp_lift; [done|]. intros owner Ho _ _.
  eapply wp_then; [by apply wp_next_block|]. intros b s3 (_ & Hb & Hl) Hc3 Hsuf3.
  eapply wp_then; [by apply wp_vhp_balance|]. intros n s4 [[_ Hu4] He] Hc4 Hsuf4.
  apply wp_bind, wp_deref; [done|]. intros t _ _ _.
  eapply wp_then; [by apply wp_next_time_quantum|]. intros q s5 [_ Hu5] Hc5 Hsuf5.
  apply wp_bind, wp_assert; [done|]. intros _ _ _. apply wp_bind, wp_assert; [done|]. intros _ _ _.
  apply wp_ret; [done|]. intros _ _.
  set (x := mk_pob_bundle b sd d n q).
  assert (bundle_sound (asked s5) x) as Hx.
  { split; [exists owner; split; [done|]; eapply built_grows; [|exact Hb]; by etrans|]. split.
    - exists i, resp. split; [|done].
      assert (asked s2 `suffix_of` asked s5) as [k Hk] by (etrans; [exact Hsuf3|]; by etrans). rewrite Hk. set_solver.
    - destruct He as (j & o & r & Hoo & Hj & Hr). exists j, o, r. split; [done|]. split; [|done].
      destruct Hsuf5 as [k Hk]. rewrite Hk. set_solver. }
  apply wp_mod; [|done|].
  - split; [apply Hc5|]. simpl. intros y [= <-]. exact Hx.
  - exists x. split; [done|]. simpl. by rewrite Hu5, Hu4.
Qed.

Lemma wp_update_bundle s :
  consistent s →
  wp (update_bundle config) (λ _ s', ∃ x, _pob_bundle s' = Some x ∧
    latest_head (asked s') = Some (previous (header (bundle_block x)))) s.
Proof.
  intros Hs. apply wp_bind, wp_gets; [done|]. intros _ _.
  destruct (_pob_bundle s) as [x|] eqn:Hx; [|by apply wp_renew_bundle].
  apply wp_bind, wp_ask; [done|done|]. intros head s1 Ha Hb Hc _.
  case_bool_decide as Hp; [|by apply wp_renew_bundle].
  apply wp_ret; [done|]. exists x. rewrite Ha, Hb. simpl. by rewrite Hp.
Qed.

Lemma wp_pob s :
  algorithm config = str "pob" → consistent s → wp (produce_pob_once key config) (λ _ _, True) s.
Proof.
  intros Ha Hs. unfold produce_pob_once. apply wp_bind, wp_assert; [done|]. intros _ _ _.
  apply wp_bind, wp_gets; [done|]. intros _ _.
  eapply (wp_then _ _ (λ _ _, True)).
  - destruct (_pob_auxiliary_data s); [by apply wp_ret|]. eapply wp_mono; [by apply wp_refresh|done].
  - intros u s1 _ Hc1 _. eapply wp_then; [by apply wp_update_bundle|]. intros u2 s2 (x & Hx & Hl) Hc2 _.
    apply wp_bind, wp_gets; [done|]. intros _ _. apply wp_bind, wp_deref; [done|]. intros aux _ _ _.
    apply wp_bind, wp_gets; [done|]. intros _ _. rewrite Hx. apply wp_bind, wp_ret; [done|]. intros _ _.
    apply wp_bind, wp_now; [done|]. intros t s3 Ha3 Hb3 Hc3 _.
    destruct (_ <? _); [by apply wp_ret|]. apply wp_produce_bundle; [done|done|congruence|by rewrite Ha3].
Qed.

(** A producer as it is constructed, after it has produced, and after what it
    calls has changed. *)
Inductive reachable : producer → Prop :=
| constructed w : reachable (mk_producer None None w [])
| again s : reachable s → reachable (produce_once key config s).2
| elapsed s w : reachable s → reachable (mk_producer (_pob_auxiliary_data s) (_pob_bundle s) w (asked s)).

Lemma reachable_consistent s : reachable s → consistent s.
Proof.
  induction 1 as [w|s _ IH|s w _ IH]; [by split| |exact IH].
  unfold produce_once. destruct (decide (algorithm config = str "pob")) as [Ha|Ha].
  - rewrite bool_decide_eq_true_2 by done. by apply wp_pob.
  - rewrite bool_decide_eq_false_2 by done. case_bool_decide; [by apply wp_federated|exact IH].
Qed.

End Proposals.

(** C10. Every block that the producer proposes to the chain is on the head that
    the chain named last; it has the height and the state root the chain
    answered for that head, transactions of the mempool for it in their order
    and each with a limit of resources, their Merkle root, the hash of its
    header as its identifier, and a signature of that identifier; with proof
    of burn also a proof for its time and the seed of the contract that meets
    the difficulty of the contract at the balance of the producer.  This
    survives failed transactions, new heads and every exception. *)
Theorem proposals_sound `{W : !Surroundings} `{X : !ChainCrypto} `{V : !Conversions} `{L : !ProducerLibraries} key config s :
  reachable key config s → trace_sound key config (asked s).
Proof. intros Hs. by apply reachable_consistent. Qed.

(** ** A proposal that the chain refuses *)

Section Refused.
Context `{W : !Surroundings} `{X : !ChainCrypto} `{V : !Conversions} `{L : !ProducerLibraries}.
Context (key : private_key) (config : ProducerConfig).

(** The block that a bundle is proposed as. *)
Definition due (x : PobBundle) (b : block) : Prop :=
  ∃ proof proof_hash h id g,
    generate_random_proof key (as_vrf_payload (seed x) (to_ms (time_quantum x))) = inr (proof, proof_hash) ∧
    difficulty_met (digest proof_hash) (vhp_balance x) (difficulty x) = true ∧
    crypto_hash sha2_256 (as_string (header (set_timestamp (to_ms (time_quantum x)) (bundle_block x)))) 0 = inr h ∧
    to_multihash (as_multihash h) = inr id ∧ sign_compact key id = inr g ∧
    b = set_signature (as_signature_data (mk_signature_data (as_multihash proof_hash) proof g))
          (set_block_id (as_multihash h) (set_timestamp (to_ms (time_quantum x)) (bundle_block x))).

Lemma run_ask {A B} (c : call A) (k : A → P B) s a w :
  answer c (world s) = (inr a, w) →
  (ask c ≫= k) s = k a (mk_producer (_pob_auxiliary_data s) (_pob_bundle s) w (exchanged c (inr a) :: asked s)).
Proof. intros Ha. unfold ask, mbind, P_bind, prog_bind. by rewrite Ha. Qed.

Lemma due_again x b : due x b → due (set_bundle_block b x) b.
Proof.
  intros (proof & ph & h & id & g & Hg & Hd & Hh & Hid & Hs & ->). by exists proof, ph, h, id, g.
Qed.

Lemma run_prepare x b s : due x b → _pob_bundle s = Some x →
  ∃ proof proof_hash, difficulty_met (digest proof_hash) (vhp_balance x) (difficulty x) = true ∧
    prepare_bundle key x s = (Ok (b, proof_hash, proof), set_bundle (Some (set_bundle_block b x)) s).
Proof.
  intros (proof & ph & h & id & g & Hg & Hd & Hh & Hid & Hs & ->) Hx. exists proof, ph. split; [exact Hd|].
  unfold prepare_bundle, identify, sign_pob, sign_id, store_bundle_block, mod_state, mbind, P_bind, prog_bind, mret, P_ret,
    prog_ret.
  rewrite Hg. simpl. rewrite Hh. simpl. rewrite Hid. simpl. rewrite Hs. simpl. by rewrite Hx.
Qed.

(** A block with a proof of burn that the chain refuses with an exception
    stays in its bundle with its time quantum: while the head is the same,
    it is the block of the next attempt too. *)
Theorem refused_proposal_repeated s x b aux info w1 t w2 e w3 :
  algorithm config = str "pob" → producer_address config ≠ [] →
  _pob_auxiliary_data s = Some aux → _pob_bundle s = Some x → due x b →
  answer get_head_info (world s) = (inr info, w1) →
  topo_id (rpc_head_topology info) = previous (header (bundle_block x)) →
  system_clock_now w1 = (t, w2) → time_quantum x ≤ t + 5000000000 →
  answer (propose_block b) w2 = (inl e, w3) →
  ∃ x', produce_once key config s =
      (Throw (foreign e), mk_producer (Some aux) (Some x') w3
         (exchanged (propose_block b) (inl e) :: exchanged get_head_info (inr info) :: asked s)) ∧
    due x' b ∧ time_quantum x' = time_quantum x ∧
    previous (header (bundle_block x')) = previous (header (bundle_block x)).
Proof.
  intros Halg Haddr Haux Hx Hdue Hhead Hprev Hnow Ht Hrefused. exists (set_bundle_block b x).
  split_and!; [|by apply due_again|done|by destruct Hdue as (? & ? & ? & ? & ? & ? & ? & ? & ? & ? & ->)].
  unfold produce_once. rewrite bool_decide_eq_true_2 by exact Halg. unfold produce_pob_once.
  destruct (producer_address config) as [|c rest]; [done|].
  set (s2 := mk_producer (Some aux) (Some x) w2 (exchanged get_head_info (inr info) :: asked s)).
  destruct (run_prepare x b s2 Hdue eq_refl) as (proof & ph & Hmet & Hprep).
  subst s2. destruct s as [a0 b0 w0 l0]. simpl in *. subst a0 b0.
  unfold update_bundle, ask, now, deref, lift, assert_that, mret, P_ret, prog_ret.
  do 3 (simpl; unfold gets_state, mbind, P_bind, prog_bind). rewrite Hhead. simpl.
  rewrite bool_decide_eq_true_2 by done. do 3 (simpl; unfold gets_state, mbind, P_bind, prog_bind). rewrite Hnow. simpl.
  destruct (Z.ltb_spec (t + 5000000000) (time_quantum x)); [lia|].
  unfold produce_bundle, mbind, P_bind, prog_bind. rewrite Hprep. rewrite Hmet. simpl.
  unfold submit, submit_loop, submit_block, ask, mbind, P_bind, prog_bind. simpl. by rewrite Hrefused.
Qed.

End Refused.

(** ** The file of the private key *)

Section KeyFile.
Context `{X : !ChainCrypto} `{L : !ProducerLibraries} `{F : !FileSystem} `{K : !KeyLibrary}.

Lemma first_line_app s rest : "010"%char ∉ s → first_line (s ++ "010"%char :: rest) = s.
Proof.
  induction s as [|c s IH]; intros Hs; simpl; [reflexivity|].
  rewrite bool_decide_eq_false_2 by set_solver. by rewrite IH by set_solver.
Qed.

Lemma lift_file_same {A} (r : Chain.exn + A) f a f' : lift_file r f = (Ok a, f') → f' = f.
Proof. destruct r; [done|]. by intros [= _ ->]. Qed.

(** A key that is created is the key that is loaded from then on; a file that
    exists is never written, and no other file is touched. *)
Theorem created_key_loaded path seed f k f' :
  from_wif (to_wif k) = inr k → to_wif k ≠ [] → "010"%char ∉ to_wif k → can_read path = true →
  load_or_create_private_key_file path seed f = (Ok k, f') →
  load_private_key_file path f' = (Ok k, f') ∧
  (∀ seed', load_or_create_private_key_file path seed' f' = (Ok k, f')) ∧
  (∀ p, p ≠ path ∨ is_Some (contents f !! p) → contents f' !! p = contents f !! p).
Proof.
  intros Hwif Hne Hnl Hread Hrun.
  assert ((load_private_key_file path f' = (Ok k, f') ∧ is_Some (contents f' !! path)) ∧
    (∀ p, p ≠ path ∨ is_Some (contents f !! p) → contents f' !! p = contents f !! p)) as [[Hload [s Hs]] Hsame].
  - unfold load_or_create_private_key_file in Hrun.
    apply bind_ok_inv in Hrun as (c & f0 & [= <- <-] & Hrun). destruct (contents f !! path) as [s|] eqn:Hpath.
    + assert (f' = f) as ->; [|by split; [split; [exact Hrun|by eexists]|]].
      unfold load_private_key_file in Hrun. apply bind_ok_inv in Hrun as (c & f0 & [= <- <-] & Hrun).
      rewrite Hread, Hpath in Hrun. destruct (first_line s) as [|ch line]; [done|].
      unfold lift_file in Hrun. destruct (from_wif (ch :: line)); [done|]. by injection Hrun.
    + apply bind_ok_inv in Hrun as (u1 & f1 & Hp & Hrun).
      assert (f1 = f) as ->. { destruct (parent_path path); [by injection Hp|]. unfold assert_that in Hp.
        destruct (can_create_directories _); [by injection Hp|done]. }
      apply bind_ok_inv in Hrun as (secret & f2 & H2 & Hrun).
      apply bind_ok_inv in Hrun as (k0 & f3 & H3 & Hrun). apply lift_file_same in H2 as ->, H3 as ->.
      destruct (can_open path); [|done]. destruct (can_finish path); [|by apply bind_ok_inv in Hrun as (? & ? & ? & ?)].
      unfold restrict_private_key_permissions in Hrun.
      assert (k0 = k ∧ contents f' = <[path := to_wif k ++ ["010"%char]]> (contents f)) as [-> Hc].
      { injection Hrun as -> <-. split; [done|].
        destruct (can_restrict path); simpl; by rewrite insert_insert_eq. }
      split.
      * split; [|rewrite Hc, lookup_insert_eq; by eexists].
        unfold load_private_key_file, mbind, F_bind, prog_bind, gets_state. rewrite Hread, Hc, lookup_insert_eq.
        rewrite first_line_app by exact Hnl.
        destruct (to_wif k) as [|ch line]; [done|]. by rewrite Hwif.
      * intros p [Hp'|[s Hs]]; rewrite Hc; [by rewrite lookup_insert_ne|].
        destruct (decide (p = path)) as [->|]; [congruence|by rewrite lookup_insert_ne].
  - split_and!; [exact Hload| |exact Hsame]. intros seed'. unfold load_or_create_private_key_file.
    unfold mbind, F_bind, prog_bind, gets_state. rewrite Hs. exact Hload.
Qed.

End KeyFile.

(** ** A concrete producer *)

#[local] Instance some_convert {A} : Convert A := {| as_string _ := []; to_message _ := inl StdException |}.

#[local] Instance some_conversions : Conversions := {|
  convert_header := {| as_string h := transaction_merkle_root h ++ [byte_of (timestamp (stored_header h))];
                       to_message _ := inl StdException |};
  to_max_account_resources _ := inr 0; to_authorize_result _ := inr true; to_varint _ := inr 18;
  as_call_id n := [byte_of n]; trx_size _ := 0; block_size _ := 0;
  set_system_call_event _ := []; set_system_contract_event _ := []; utf_decode _ := None
|}.

#[local] Instance some_crypto : ChainCrypto := {|
  sha1 := 17; sha2_256 := 18; sha2_512 := 19; keccak_256 := 27; ripemd_160 := 4179;
  to_multihash b := inr b; as_multihash m := m; hash_code _ := 18; digest m := m; crypto_hash _ b _ := inr b;
  merkle_root_of _ l := concat l; is_zero m := bool_decide (m = []);
  public_key := bytes; to_public_key b := inr b; as_public_key k := k; serialize_uncompressed k := k;
  to_address_bytes k := k; is_canonical _ := true; recover _ _ := inr []; key_valid _ := true;
  verify_random_proof _ _ _ := None
|}.

#[local] Instance some_libraries : ProducerLibraries := {|
  private_key := bytes; get_public_key k := k;
  sign_compact k m := inr (k ++ m);
  generate_random_proof k m := inr (k, m);
  hash_signatures l := inr (concat l);
  header_rest_of l := concat l;
  as_vrf_payload sd t := sd ++ [byte_of t];
  as_signature_data d := data_signature d;
  as_get_address_arguments n := n; as_effective_balance_of_arguments o := o;
  parse_consensus_parameters _ := Some (3000, 10); parse_address b := Some b; parse_symbol b := Some b;
  parse_decimals _ := Some 8; parse_balance _ := Some 100; parse_metadata _ := Some (str "seed", [byte_of 1]);
  get_contract_address_id := 10001; from_base58 b := inr b
|}.

Definition a_transaction (signature : string) : transaction :=
  mk_transaction [] (Some (mk_transaction_header [] 10 [] [] [] [])) [] [str signature].

Definition a_pending (signature : string) : pending_transaction := mk_pending_transaction (a_transaction signature) 10 0 10 0 10 0.

Definition some_limits : ResourceMeter.resource_limit_data := ResourceMeter.mk_resource_limit_data 1000 1 1000 1 1000 1.

(** The chain refuses every proposal where the flag is set, and else finds
    the first of the transactions of its first proposal to fail. *)
Definition respond {A} (c : call A) (w : bool * nat) : (Chain.exn + A) * (bool * nat) :=
  match c in call A return (Chain.exn + A) * (bool * nat) with
  | get_head_info => (inr (mk_get_head_info_response (mk_block_topology (str "head") [] 41) 5 (str "root")), w)
  | get_resource_limits => (inr some_limits, w)
  | read_contract _ _ _ => (inr [], w)
  | invoke_system_call _ args => (inr args, w)
  | get_pending_transactions _ _ => (inr [a_pending "a"; a_pending "b"], w)
  | propose_block b =>
    if w.1 then (inl StdException, w)
    else match w.2 with
         | O => (inr (mk_propose_block_response None [0]), (false, 1%nat))
         | n => (inr (mk_propose_block_response (Some empty_block_receipt) []), w)
         end
  end.

#[local] Instance some_surroundings : Surroundings := {|
  surroundings := bool * nat; answer _ c w := respond c w; system_clock_now w := (1000000000, w)
|}.

Definition pob_config : ProducerConfig := mk_producer_config (str "pob") (str "me") 75 90 2000 [].

Definition producer0 (refuses : bool) : producer := mk_producer None None (refuses, 0%nat) [].

(** A producer whose first proposal lost a transaction. *)
Lemma proposals_sound_witness :
  trace_sound (str "key") pob_config (asked (produce_once (str "key") pob_config (producer0 false)).2) ∧
  match asked (produce_once (str "key") pob_config (producer0 false)).2 with
  | exchanged c2 _ :: exchanged c1 _ :: _ =>
    (length ∘ transactions <$> proposed c2, length ∘ transactions <$> proposed c1) = (Some 1, Some 2)%nat
  | _ => False
  end.
Proof.
  split; [|vm_compute; reflexivity].
  exact (proposals_sound _ _ _ (again (str "key") pob_config _ (constructed (str "key") pob_config (false, 0%nat)))).
Defined.

Lemma fill_block_within_limits_witness :
  ∃ ps, chosen (fill_loop pob_config some_limits 0 [a_pending "a"; a_pending "b"] nothing_filled) = transaction_ <$> ps ∧
    ps `sublist_of` take (Z.to_nat (max_inclusion_attempts pob_config)) [a_pending "a"; a_pending "b"] ∧ Forall spends ps ∧
    100 * total disk_use ps ≤ 1000 * 90 ∧ 100 * total network_use ps ≤ 1000 * 90 ∧ 100 * total compute_use ps ≤ 1000 * 90.
Proof.
  refine (fill_block_within_limits pob_config some_limits [a_pending "a"; a_pending "b"] _ _ _).
  - split_and!; [repeat constructor; vm_compute; congruence|reflexivity..].
  - unfold limits_fit; simpl; lia.
  - simpl; lia.
Defined.

Lemma delete_failed_surviving_witness :
  delete_failed [0; 2] [a_transaction "a"; a_transaction "b"; a_transaction "c"] =
    Some (surviving 0 [0; 2] [a_transaction "a"; a_transaction "b"; a_transaction "c"]) ∧
  surviving 0 [0; 2] [a_transaction "a"; a_transaction "b"; a_transaction "c"] = [a_transaction "b"].
Proof.
  split; [|reflexivity]. apply delete_failed_surviving; [repeat constructor; lia|repeat constructor; simpl; lia|simpl; lia].
Defined.

Lemma next_time_quantum_next_witness :
  ∃ ms, (next_time_quantum 2000000 (producer0 false)).1 = Ok (ms * 1000000) ∧ 1000 < ms ∧ ms `mod` 10 = 0 ∧
    ∀ ms', 1000 < ms' → ms' `mod` 10 = 0 → ms ≤ ms'.
Proof. exact (next_time_quantum_next (producer0 false) 2000000 1000000000 (false, 0%nat) eq_refl eq_refl eq_refl). Defined.

(** A bundle of the head, at the time of the clock. *)
Definition some_bundle : PobBundle :=
  mk_pob_bundle (mk_block [] (Some (mk_block_header (str "head") 42 (str "root") [] (MapBackend.mk_block_header 5 (str "me") []))) [] [])
    (str "seed") [byte_of 1] 100 1000000000.

Definition some_auxiliary_data : PobAuxiliaryData := mk_pob_auxiliary_data [] [] [] 1 3000 10 300.

Definition due_block : block :=
  mk_block [byte_of 1000]
    (Some (mk_block_header (str "head") 42 (str "root") [] (MapBackend.mk_block_header 1000 (str "me") []))) []
    (str "key" ++ [byte_of 1000]).

Definition refused_state : producer := mk_producer (Some some_auxiliary_data) (Some some_bundle) (true, 0%nat) [].

Lemma refused_proposal_repeated_witness :
  ∃ x', produce_once (str "key") pob_config refused_state =
      (Throw (foreign StdException), mk_producer (Some some_auxiliary_data) (Some x') (true, 0%nat)
         [exchanged (propose_block due_block) (inl StdException);
          exchanged get_head_info (inr (mk_get_head_info_response (mk_block_topology (str "head") [] 41) 5 (str "root")))]) ∧
    due (str "key") x' due_block ∧ time_quantum x' = 1000000000 ∧ previous (header (bundle_block x')) = str "head".
Proof.
  refine (refused_proposal_repeated (str "key") pob_config refused_state some_bundle due_block some_auxiliary_data _ _ _ _ _ _
    eq_refl _ eq_refl eq_refl _ eq_refl eq_refl eq_refl _ eq_refl).
  - discriminate.
  - exists (str "key"), (str "seed" ++ [byte_of 1000]), [byte_of 1000], [byte_of 1000], (str "key" ++ [byte_of 1000]).
    split_and!; vm_compute; reflexivity.
  - simpl. lia.
Defined.

#[local] Instance some_file_system : FileSystem := {|
  parent_path _ := []; can_read _ := true; can_create_directories _ := true; can_open _ := true; can_restrict _ := true;
  can_finish _ := true; written_part s := s
|}.

#[local] Instance some_keys : KeyLibrary := {|
  from_wif s := match s with [] => inl StdException | _ :: s => inr s end;
  to_wif k := "K"%char :: k;
  regenerate m := inr m; to_base58 b := b; to_base64 b := b
|}.

Definition key_path : bytes := str "private.key".

Lemma created_key_loaded_witness :
  load_or_create_private_key_file key_path (str "seed") (mk_files ∅ ∅) =
    (Ok (str "seed"), mk_files {[key_path := str "Kseed" ++ ["010"%char]]} {[key_path]}) ∧
  load_private_key_file key_path (mk_files {[key_path := str "Kseed" ++ ["010"%char]]} {[key_path]}) =
    (Ok (str "seed"), mk_files {[key_path := str "Kseed" ++ ["010"%char]]} {[key_path]}) ∧
  (∀ seed', load_or_create_private_key_file key_path seed' (mk_files {[key_path := str "Kseed" ++ ["010"%char]]} {[key_path]}) =
    (Ok (str "seed"), mk_files {[key_path := str "Kseed" ++ ["010"%char]]} {[key_path]})) ∧
  (∀ p, p ≠ key_path ∨ is_Some ((∅ : gmap bytes bytes) !! p) →
    ({[key_path := str "Kseed" ++ ["010"%char]]} : gmap bytes bytes) !! p = (∅ : gmap bytes bytes) !! p).
Proof.
  split; [vm_compute; reflexivity|].
  refine (created_key_loaded key_path (str "seed") (mk_files ∅ ∅) (str "seed") _ eq_refl _ _ eq_refl _).
  - discriminate.
  - decided.
  - vm_compute. reflexivity.
Defined.
