(* ===== verification/Indexer.v ===== *)
(** The indexer: [src/src/koinos/chain/indexer.cpp].

    It asks the block store for the blocks above the head of the chain, in
    requests of growing size, and applies them to the controller.  Its
    handlers run on the threads of an [io_context], so that a handler is cut
    where it takes a lock or works on a queue: each piece is a task, a step
    runs one task, and tasks that were posted run in any order.  A task that
    waits, for a lock, a queue or a timer, is one whose step is not possible
    yet.  The controller and the block store are parameters; what they were
    asked is kept in order. *)

From S2P Require Import Prelude MapBackend StateDelta.
From S2P Require Import ResourceMeter.
From S2P Require Import ChainTypes.
Import Chain.

Module Indexer.

Definition request_queue_size : nat := 100.
Definition block_queue_size : nat := 100.

Record block_item := mk_block_item { item_block : block; item_receipt : block_receipt }.

(** [get_blocks_by_height]. *)
Record request := mk_request { head_block_id : bytes; ancestor_start_height : Z; num_blocks : Z }.

(** What the client answers: [rpc_threw] where it throws at once, else what its
    future holds; [A] is what was asked for. *)
Inductive reply (A : Type) : Type :=
| rpc_threw
| rpc_failed
| malformed_response
| error_response (message : bytes)
| unexpected_response
| response (a : A).
Arguments rpc_threw {A}.
Arguments rpc_failed {A}.
Arguments malformed_response {A}.
Arguments error_response {A} message.
Arguments unexpected_response {A}.
Arguments response {A} a.

Inductive controller_call : Type :=
| submit_block (b : block) (index_to : Z)
| apply_block_delta (b : block) (r : block_receipt) (index_to : Z)
| apply_block_delta_checked (b : block) (r : block_receipt) (expected_root : bytes) (index_to : Z).

(** The block store and the controller: what a request is answered after
    those before it, and what a call returns after those before it, [None]
    where it throws. *)
Class IndexerWorld := {
  highest_block : reply block_topology;
  blocks_by_height : list (request * reply (list block_item)) → request → reply (list block_item);
  head_height : list controller_call → option Z;
  call_result : list controller_call → controller_call → option bool
}.

(** What the future of [index()] holds. *)
Inductive answer : Type := indexed (value : bool) | indexer_failure.

(** ** Tasks *)

(** Of the handlers [prepare_index], [send_requests] and [process_requests]. *)
Inductive request_task : Type :=
| prepare_index
| complete_synchronized
| send_requests (last_height batch_size : Z)
| push_request (last_height batch_size : Z) (r : reply (list block_item))
| process_requests (last_height batch_size : Z)
| stage_response (last_height batch_size : Z) (r : reply (list block_item))
| drain_staged
| post_next (last_height batch_size : Z).

(** Of [process_block]; [wait_retry] is the armed timer. *)
Inductive block_task : Type :=
| process_block
| finish
| pull_block
| drain_pulled (b : block_item)
| post_pulled (last_height batch_size : Z) (b : block_item)
| apply_pulled (b : block_item)
| wait_retry.

Definition is_timer (t : block_task) : bool := match t with wait_retry => true | _ => false end.

(** Of [stop] and [handle_error]; what follows the first one holds the lock of
    the completion. *)
Inductive stop_task : Type :=
| stop
| handle_error
| close_request_queue
| close_block_queue
| cancel_retry.

(** ** The state *)

(** [_closing] while [_completion_mutex] is held by a stop; [_complete] while
    the promise is there. *)
Record completion := mk_completion {
  _stopped : bool;
  _complete : bool;
  _future_retrieved : bool;
  _future : option answer;
  _closing : bool;
  stop_work : list stop_task
}.

Record requesting := mk_requesting {
  _request_queue : list (reply (list block_item));
  _request_queue_closed : bool;
  _requests_complete : bool;
  _request_processing_complete : bool;
  request_work : list request_task;
  exchanges : list (request * reply (list block_item))
}.

(** [_response_active] is that there is a height and a batch size. *)
Record staging := mk_staging { _response_blocks : list block_item; _response_active : option (Z * Z) }.

Record applying := mk_applying {
  _block_queue : list block_item;
  _block_queue_closed : bool;
  _pending_item : option block_item;
  _fallback_count : Z;
  block_work : list block_task;
  calls : list controller_call
}.

Record indexer := mk_indexer {
  _completion : completion;
  _requesting : requesting;
  _staging : staging;
  _applying : applying;
  _target_head : block_topology;
  _start_height : Z
}.

Definition new : indexer :=
  mk_indexer (mk_completion false true false None false []) (mk_requesting [] false false false [] [])
    (mk_staging [] None) (mk_applying [] false None 0 [] []) (mk_block_topology [] [] 0) 0.

Definition set_completion (x : completion) (s : indexer) : indexer :=
  mk_indexer x (_requesting s) (_staging s) (_applying s) (_target_head s) (_start_height s).
Definition set_requesting (x : requesting) (s : indexer) : indexer :=
  mk_indexer (_completion s) x (_staging s) (_applying s) (_target_head s) (_start_height s).
Definition set_staging (x : staging) (s : indexer) : indexer :=
  mk_indexer (_completion s) (_requesting s) x (_applying s) (_target_head s) (_start_height s).
Definition set_applying (x : applying) (s : indexer) : indexer :=
  mk_indexer (_completion s) (_requesting s) (_staging s) x (_target_head s) (_start_height s).
Definition set_target (t : block_topology) (h : Z) (s : indexer) : indexer :=
  mk_indexer (_completion s) (_requesting s) (_staging s) (_applying s) t h.

Definition with_stop_work (l : list stop_task) (c : completion) : completion :=
  mk_completion (_stopped c) (_complete c) (_future_retrieved c) (_future c) (_closing c) l.
Definition with_request_work (l : list request_task) (r : requesting) : requesting :=
  mk_requesting (_request_queue r) (_request_queue_closed r) (_requests_complete r) (_request_processing_complete r) l (exchanges r).
Definition with_request_queue (l : list (reply (list block_item))) (r : requesting) : requesting :=
  mk_requesting l (_request_queue_closed r) (_requests_complete r) (_request_processing_complete r) (request_work r) (exchanges r).
Definition with_block_work (l : list block_task) (a : applying) : applying :=
  mk_applying (_block_queue a) (_block_queue_closed a) (_pending_item a) (_fallback_count a) l (calls a).
Definition with_block_queue (l : list block_item) (a : applying) : applying :=
  mk_applying l (_block_queue_closed a) (_pending_item a) (_fallback_count a) (block_work a) (calls a).

Definition later_stop (t : stop_task) (s : indexer) : indexer :=
  set_completion (with_stop_work (stop_work (_completion s) ++ [t]) (_completion s)) s.
Definition later_request (t : request_task) (s : indexer) : indexer :=
  set_requesting (with_request_work (request_work (_requesting s) ++ [t]) (_requesting s)) s.
Definition later_block (t : block_task) (s : indexer) : indexer :=
  set_applying (with_block_work (block_work (_applying s) ++ [t]) (_applying s)) s.

(** [_complete->set_value( ... )] or [set_exception], and [_complete.reset()]. *)
Definition resolve (a : answer) (s : indexer) : indexer :=
  let c := _completion s in
  set_completion (mk_completion (_stopped c) false (_future_retrieved c) (Some a) (_closing c) (stop_work c)) s.

(** [if( _complete && !_stopped )]. *)
Definition resolve_value (s : indexer) : indexer :=
  if _complete (_completion s) && negb (_stopped (_completion s)) then resolve (indexed true) s else s.

(** ** Requests *)

Section Steps.
Context `{!IndexerWorld} (_verify_blocks : bool).

Definition height_of_target (s : indexer) : Z := topo_height (_target_head s).

Definition run_prepare (s : indexer) : indexer :=
  if _stopped (_completion s) then s
  else
    match highest_block with
    | response t =>
      match head_height (calls (_applying s)) with
      | None => later_stop handle_error (set_target t 0 s)
      | Some h =>
        let s := set_target t h s in
        if h <? topo_height t then later_block process_block (later_request (send_requests h 50) s)
        else later_request complete_synchronized s
      end
    | _ => later_stop handle_error s
    end.

Definition request_of (s : indexer) (last_height batch_size : Z) : request :=
  mk_request (topo_id (_target_head s)) (u64 (last_height + 1))
    (u32 (Z.min batch_size (u64 (height_of_target s - last_height)))).

Definition ask (q : request) (s : indexer) : reply (list block_item) * indexer :=
  let r := _requesting s in
  let a := blocks_by_height (exchanges r) q in
  (a, set_requesting (mk_requesting (_request_queue r) (_request_queue_closed r) (_requests_complete r)
        (_request_processing_complete r) (request_work r) (exchanges r ++ [(q, a)])) s).

Definition run_send (last_height batch_size : Z) (s : indexer) : indexer :=
  if _stopped (_completion s) then s
  else if last_height <? height_of_target s then
    match ask (request_of s last_height batch_size) s with
    | (rpc_threw, s) => later_stop handle_error s
    | (a, s) => later_request (push_request last_height batch_size a) s
    end
  else
    let r := _requesting s in
    later_request (process_requests last_height batch_size)
      (set_requesting (mk_requesting (_request_queue r) (_request_queue_closed r) true (_request_processing_complete r)
         (request_work r) (exchanges r)) s).

(** [push]: on a closed queue it throws, on a full one it waits. *)
Definition run_push (last_height batch_size : Z) (a : reply (list block_item)) (s : indexer) : option indexer :=
  let r := _requesting s in
  if _request_queue_closed r then Some s
  else if bool_decide (request_queue_size ≤ length (_request_queue r))%nat then None
  else
    Some (later_request (process_requests last_height batch_size)
            (set_requesting (with_request_queue (_request_queue r ++ [a]) r) s)).

(** [pull]: on an empty queue it throws if it is closed, and else waits. *)
Definition run_process (last_height batch_size : Z) (s : indexer) : option indexer :=
  if _stopped (_completion s) then Some s
  else
    let r := _requesting s in
    match _request_queue r with
    | [] =>
      if _requests_complete r then
        Some (set_requesting (mk_requesting [] (_request_queue_closed r) true true (request_work r) (exchanges r)) s)
      else if _request_queue_closed r then Some s else None
    | a :: rest =>
      Some (later_request (stage_response last_height batch_size a) (set_requesting (with_request_queue rest r) s))
    end.

Definition run_stage (last_height batch_size : Z) (a : reply (list block_item)) (s : indexer) : indexer :=
  match a with
  | response items =>
    match _staging s with
    | mk_staging [] None => later_request drain_staged (set_staging (mk_staging items (Some (last_height, batch_size))) s)
    | _ => later_stop handle_error s
    end
  | _ => later_stop handle_error s
  end.

(** ** Staged blocks *)

(** The loop of [try_push_back], on an open queue: what does not fit stays. *)
Fixpoint fill (staged queue : list block_item) : list block_item * list block_item :=
  match staged with
  | [] => ([], queue)
  | b :: rest => if bool_decide (block_queue_size ≤ length queue)%nat then (staged, queue) else fill rest (queue ++ [b])
  end.

(** [drain_response_blocks] up to the release of its lock, with the request
    that is to be sent next. *)
Definition drain_response_blocks (s : indexer) : option (Z * Z) * indexer :=
  match _response_active (_staging s) with
  | None => (None, s)
  | Some (h, b) =>
    let a := _applying s in
    let '(staged, queue) :=
      if _block_queue_closed a then (_response_blocks (_staging s), _block_queue a)
      else fill (_response_blocks (_staging s)) (_block_queue a) in
    match staged with
    | [] =>
      (Some (u64 (h + b), Z.min (u64 (b * 2)) 1000), set_staging (mk_staging [] None) (set_applying (with_block_queue queue a) s))
    | _ => (None, set_staging (mk_staging staged (Some (h, b))) (set_applying (with_block_queue queue a) s))
    end
  end.

Definition run_post (last_height batch_size : Z) (s : indexer) : indexer :=
  if _stopped (_completion s) then s else later_request (send_requests last_height batch_size) s.

(** What follows [handle_error] takes the lock of the completion. *)
Definition run_request (t : request_task) (s : indexer) : option indexer :=
  match t with
  | prepare_index => Some (run_prepare s)
  | complete_synchronized => if _closing (_completion s) then None else Some (resolve_value s)
  | send_requests h b => Some (run_send h b s)
  | push_request h b a => run_push h b a s
  | process_requests h b => run_process h b s
  | stage_response h b a => Some (run_stage h b a s)
  | drain_staged =>
    match drain_response_blocks s with
    | (Some (h, b), s) => Some (later_request (post_next h b) s)
    | (None, s) => Some s
    end
  | post_next h b => Some (run_post h b s)
  end.

(** ** Blocks *)

(** A call of the controller; [None] where it throws. *)
Definition call_controller (c : controller_call) (s : indexer) : option bool * indexer :=
  let a := _applying s in
  (call_result (calls a) c,
   set_applying (mk_applying (_block_queue a) (_block_queue_closed a) (_pending_item a) (_fallback_count a) (block_work a)
     (calls a ++ [c])) s).

Definition set_pending (p : option block_item) (fallback : Z) (s : indexer) : indexer :=
  let a := _applying s in
  set_applying (mk_applying (_block_queue a) (_block_queue_closed a) p fallback (block_work a) (calls a)) s.

Definition run_process_block (s : indexer) : indexer :=
  if _stopped (_completion s) then s
  else
    match _request_processing_complete (_requesting s), _block_queue (_applying s) with
    | true, [] => later_block finish s
    | _, _ => later_block pull_block s
    end.

Definition finish_indexing (s : indexer) : indexer :=
  match head_height (calls (_applying s)) with
  | None => later_stop handle_error s
  | Some _ => resolve_value s
  end.

(** Under the lock of the completion. *)
Definition run_finish (s : indexer) : indexer :=
  if _stopped (_completion s) then s
  else
    match _pending_item (_applying s) with
    | None => finish_indexing s
    | Some p =>
      match call_controller (apply_block_delta (item_block p) (item_receipt p) (height_of_target s)) s with
      | (None, s) => later_stop handle_error s
      | (Some _, s) => finish_indexing (set_pending None (_fallback_count (_applying s)) s)
      end
    end.

(** [try_pull_front]; the timer is armed unless the indexer was stopped. *)
Definition run_pull (s : indexer) : indexer :=
  let a := _applying s in
  match _block_queue a with
  | b :: rest => later_block (drain_pulled b) (set_applying (with_block_queue rest a) s)
  | [] =>
    if _block_queue_closed a then s
    else if _stopped (_completion s) then s else later_block wait_retry s
  end.

(** Under the lock of the completion. *)
Definition run_apply (b : block_item) (s : indexer) : indexer :=
  if _stopped (_completion s) then s
  else if _verify_blocks then
    match call_controller (submit_block (item_block b) (height_of_target s)) s with
    | (None, s) => later_stop handle_error s
    | (Some _, s) => later_block process_block s
    end
  else
    match _pending_item (_applying s) with
    | None => later_block process_block (set_pending (Some b) (_fallback_count (_applying s)) s)
    | Some p =>
      match call_controller (apply_block_delta_checked (item_block p) (item_receipt p)
              (previous_state_merkle_root (header (item_block b))) (height_of_target s)) s with
      | (None, s) => later_stop handle_error s
      | (Some fell_back, s) =>
        let n := _fallback_count (_applying s) in
        later_block process_block (set_pending (Some b) (if fell_back then u64 (n + 1) else n) s)
      end
    end.

Definition run_block (t : block_task) (s : indexer) : option indexer :=
  match t with
  | process_block => Some (run_process_block s)
  | finish => if _closing (_completion s) then None else Some (run_finish s)
  | pull_block => Some (run_pull s)
  | drain_pulled b =>
    match drain_response_blocks s with
    | (Some (h, n), s) => Some (later_block (post_pulled h n b) s)
    | (None, s) => Some (later_block (apply_pulled b) s)
    end
  | post_pulled h n b => Some (later_block (apply_pulled b) (run_post h n s))
  | apply_pulled b => if _closing (_completion s) then None else Some (run_apply b s)
  | wait_retry => Some (later_block process_block s)
  end.

(** ** Stopping *)

(** [stop] and [handle_error] up to the closing of the queues. *)
Definition begin_stop (a : answer) (s : indexer) : option indexer :=
  let c := _completion s in
  if _closing c then None
  else if _stopped c then Some s
  else
    Some (set_completion
      (mk_completion true false (_future_retrieved c) (if _complete c then Some a else _future c) true
         (stop_work c ++ [close_request_queue])) s).

Definition run_stop (t : stop_task) (s : indexer) : option indexer :=
  match t with
  | stop => begin_stop (indexed false) s
  | handle_error => begin_stop indexer_failure s
  | close_request_queue =>
    let r := _requesting s in
    Some (later_stop close_block_queue
      (set_requesting (mk_requesting (_request_queue r) true (_requests_complete r) (_request_processing_complete r)
         (request_work r) (exchanges r)) s))
  | close_block_queue =>
    let a := _applying s in
    Some (later_stop cancel_retry
      (set_applying (mk_applying (_block_queue a) true (_pending_item a) (_fallback_count a) (block_work a) (calls a)) s))
  | cancel_retry =>
    let c := _completion s in
    let a := _applying s in
    Some (set_completion
      (mk_completion (_stopped c) (_complete c) (_future_retrieved c) (_future c) false (stop_work c))
      (set_applying (with_block_work (filter (λ t, is_timer t = false) (block_work a)) a) s))
  end.

(** ** Steps *)

(** [index()]: a second call throws, and so does one after a stop; while a
    stop holds the lock it waits. *)
Definition index (s : indexer) : option indexer :=
  let c := _completion s in
  if negb (_complete c) || _future_retrieved c || _closing c then None
  else
    Some (later_request prepare_index
      (set_completion (mk_completion (_stopped c) (_complete c) true (_future c) (_closing c) (stop_work c)) s)).

Inductive event : Type :=
| call_index
| call_stop
| request_step (i : nat)
| block_step (i : nat)
| stop_step (i : nat).

Definition step (e : event) (s : indexer) : option indexer :=
  match e with
  | call_index => index s
  | call_stop => Some (later_stop stop s)
  | request_step i =>
    t ← request_work (_requesting s) !! i;
    run_request t (set_requesting (with_request_work (delete i (request_work (_requesting s))) (_requesting s)) s)
  | block_step i =>
    t ← block_work (_applying s) !! i;
    run_block t (set_applying (with_block_work (delete i (block_work (_applying s))) (_applying s)) s)
  | stop_step i =>
    t ← stop_work (_completion s) !! i;
    run_stop t (set_completion (with_stop_work (delete i (stop_work (_completion s))) (_completion s)) s)
  end.

(** Steps that are possible, one after the other. *)
Fixpoint run (es : list event) (s : indexer) : option indexer :=
  match es with
  | [] => Some s
  | e :: es => match step e s with Some s => run es s | None => None end
  end.

End Steps.
End Indexer.
