(* ===== verification/IndexerTheorems.v ===== *)
(** The indexer applies the blocks it asked for, each once and in order,
    however its tasks interleave. *)

From S2P Require Import Prelude MapBackend StateDelta.
From S2P Require Import ResourceMeter.
From S2P Require Import ChainTypes Indexer.
Import Chain Indexer.

(** ** What is to be done *)

Definition items (a : reply (list block_item)) : list block_item := match a with response l => l | _ => [] end.
Definition is_blocks (a : reply (list block_item)) : Prop := match a with response _ => True | _ => False end.

(** The blocks of all answers, in the order of the requests. *)
Definition received (s : indexer) : list block_item := concat (items <$> (exchanges (_requesting s)).*2).

(** The calls for a list of blocks before the last one is known to be the
    last: with verification each block is submitted; without, each block is
    applied once its successor shows the root that it must have. *)
Fixpoint checked_calls (target : Z) (previous : option block_item) (l : list block_item) : list controller_call :=
  match l with
  | [] => []
  | b :: l =>
    match previous with
    | None => checked_calls target (Some b) l
    | Some p =>
      apply_block_delta_checked (item_block p) (item_receipt p) (previous_state_merkle_root (header (item_block b))) target
        :: checked_calls target (Some b) l
    end
  end.

Definition done_calls (verify : bool) (target : Z) (l : list block_item) : list controller_call :=
  if verify then (λ b, submit_block (item_block b) target) <$> l else checked_calls target None l.

(** And the call for the last block. *)
Definition all_calls (verify : bool) (target : Z) (l : list block_item) : list controller_call :=
  done_calls verify target l ++
  (if verify then [] else match last l with Some p => [apply_block_delta (item_block p) (item_receipt p) target] | None => [] end).

(** Where the requests continue after each request. *)
Definition next_batch (p : Z * Z) : Z * Z := (u64 (p.1 + p.2), Z.min (u64 (p.2 * 2)) 1000).
Definition position (start : Z) (i : nat) : Z * Z := Nat.iter i next_batch (start, 50).

Lemma checked_calls_snoc target previous l b :
  checked_calls target previous (l ++ [b]) = checked_calls target previous l ++
    match last l with
    | Some p => [apply_block_delta_checked (item_block p) (item_receipt p) (previous_state_merkle_root (header (item_block b))) target]
    | None =>
      match previous with
      | Some p => [apply_block_delta_checked (item_block p) (item_receipt p) (previous_state_merkle_root (header (item_block b))) target]
      | None => []
      end
    end.
Proof.
  revert previous. induction l as [|x l IH]; intros previous; simpl; [by destruct previous|].
  rewrite last_cons. destruct previous; simpl; rewrite IH; by destruct (last l).
Qed.

Lemma done_calls_snoc verify target l b :
  done_calls verify target (l ++ [b]) = done_calls verify target l ++
    (if verify then [submit_block (item_block b) target]
     else match last l with
          | Some p => [apply_block_delta_checked (item_block p) (item_receipt p) (previous_state_merkle_root (header (item_block b))) target]
          | None => []
          end).
Proof. unfold done_calls. destruct verify; [by rewrite fmap_app|]. rewrite checked_calls_snoc. by destruct (last l). Qed.

Section Indexing.
Context `{W : !IndexerWorld} (verify : bool).

(** ** Where the work is

    The work on requests is in one place: a task, the staged response, or the
    task on blocks that goes on with it; besides it there may be tasks that
    are only to move staged blocks. *)
Inductive place : Type :=
| nowhere
| at_request (t : request_task)
| at_staged (last_height batch_size : Z)
| at_post (last_height batch_size : Z).

Definition request_part (p : place) : list request_task := match p with at_request t => [t] | _ => [] end.
Definition active_part (p : place) : option (Z * Z) := match p with at_staged h b => Some (h, b) | _ => None end.
Definition in_flight (p : place) : list block_item :=
  match p with at_request (push_request _ _ a) | at_request (stage_response _ _ a) => items a | _ => [] end.

Definition pulled (w : list block_task) : list block_item :=
  match w with [drain_pulled b] | [post_pulled _ _ b] | [apply_pulled b] => [b] | _ => [] end.

Definition posting (w : list block_task) : option (Z * Z) := match w with [post_pulled h b _] => Some (h, b) | _ => None end.
Definition post_part (p : place) : option (Z * Z) := match p with at_post h b => Some (h, b) | _ => None end.

(** All blocks that were answered and are not done: pulled, queued, staged
    and in flight. *)
Definition waiting (s : indexer) (p : place) (w : list block_task) : list block_item :=
  pulled w ++ _block_queue (_applying s) ++ _response_blocks (_staging s) ++ in_flight p ++
  concat (items <$> _request_queue (_requesting s)).

Definition count (s : indexer) : nat := length (exchanges (_requesting s)).

(** The request at a position was answered last, with [a]. *)
Definition last_sent (s : indexer) (h b : Z) (a : reply (list block_item)) : Prop :=
  ∃ l q, exchanges (_requesting s) = l ++ [(q, a)] ∧ position (_start_height s) (length l) = (h, b) ∧ Forall is_blocks l.*2.

(** The next request is at a position. *)
Definition next_at (s : indexer) (h b : Z) : Prop :=
  position (_start_height s) (count s) = (h, b) ∧ Forall is_blocks (exchanges (_requesting s)).*2.

Definition untouched (s : indexer) : Prop :=
  exchanges (_requesting s) = [] ∧ calls (_applying s) = [] ∧ _block_queue (_applying s) = [] ∧
  _pending_item (_applying s) = None ∧ _request_queue (_requesting s) = [] ∧ _requests_complete (_requesting s) = false ∧
  _request_processing_complete (_requesting s) = false.

Definition request_state (s : indexer) (p : place) (w : list block_task) : Prop :=
  let r := _requesting s in
  match p with
  | nowhere => _requests_complete r = true → height_of_target s ≤ (position (_start_height s) (count s)).1 ∧
      Forall is_blocks (exchanges r).*2
  | at_request prepare_index => untouched s ∧ w = []
  | at_request complete_synchronized => untouched s ∧ w = [] ∧ height_of_target s ≤ _start_height s
  | at_request drain_staged => False
  | at_request (send_requests h b) | at_request (post_next h b) | at_post h b =>
    next_at s h b ∧ _request_queue r = [] ∧ _requests_complete r = false
  | at_request (push_request h b a) | at_request (stage_response h b a) =>
    last_sent s h b a ∧ _request_queue r = [] ∧ _requests_complete r = false
  | at_request (process_requests h b) =>
    (_requests_complete r = false ∧ ∃ a, last_sent s h b a ∧ _request_queue r = [a]) ∨
    (_requests_complete r = true ∧ next_at s h b ∧ height_of_target s ≤ h ∧ _request_queue r = [])
  | at_staged h b => (∃ a, last_sent s h b a ∧ is_blocks a) ∧ _request_queue r = [] ∧ _requests_complete r = false
  end.

(** All that was received is done. *)
Definition finished (s : indexer) (w : list block_task) : Prop :=
  _request_processing_complete (_requesting s) = true ∧ w = [] ∧
  calls (_applying s) = all_calls verify (height_of_target s) (received s).

(** What was received is done up to [k], and the rest waits in order. *)
Definition unfinished (s : indexer) (p : place) (w : list block_task) (k : list block_item) : Prop :=
  calls (_applying s) = done_calls verify (height_of_target s) k ∧ k `prefix_of` received s ∧
  (w ≠ [] → _pending_item (_applying s) = (if verify then None else last k) ∧
     k ++ waiting s p w `prefix_of` received s ∧
     (p ≠ nowhere ∨ _stopped (_completion s) = false → k ++ waiting s p w = received s)).

(** The requests are those of the plan: each starts where the one before it
    ends, none at or above the target. *)
Definition as_planned (s : indexer) : Prop :=
  (exchanges (_requesting s)).*1 =
    (λ i, let h := position (_start_height s) i in request_of s h.1 h.2) <$> seq 0 (count s) ∧
  ∀ i, (i < count s)%nat → (position (_start_height s) i).1 < height_of_target s.

(** The state of an indexer whose work on requests is at [p], with tasks [w]
    on blocks and [q] on stops. *)
Record core (s : indexer) (p : place) (w : list block_task) (q : list stop_task) : Prop := {
  core_one : (length w ≤ 1)%nat;
  core_post : posting w = post_part p;
  core_active : _response_active (_staging s) = active_part p;
  core_staged : _response_active (_staging s) = None → _response_blocks (_staging s) = [];
  core_bound : (length (_block_queue (_applying s)) ≤ block_queue_size)%nat;
  core_plan : as_planned s;
  core_requests : request_state s p w;
  core_processed : _request_processing_complete (_requesting s) = true →
    p = nowhere ∧ _requests_complete (_requesting s) = true ∧ _request_queue (_requesting s) = [];
  core_finish : w = [finish] → _request_processing_complete (_requesting s) = true ∧ _block_queue (_applying s) = [];
  core_calls : (∃ k, unfinished s p w k) ∨ finished s w;
  core_future : _future (_completion s) = Some (indexed true) →
    (p = nowhere ∧ w = [] ∧ untouched s ∧ height_of_target s ≤ _start_height s) ∨ finished s w;
  core_closed : _request_queue_closed (_requesting s) = true ∨ close_request_queue ∈ q →
    _stopped (_completion s) = true;
  core_idle : _future_retrieved (_completion s) = false →
    p = nowhere ∧ w = [] ∧ untouched s ∧ _future (_completion s) ≠ Some (indexed true)
}.

Definition invariant (s : indexer) : Prop :=
  ∃ p n, request_work (_requesting s) ≡ₚ replicate n drain_staged ++ request_part p ∧
    core s p (block_work (_applying s)) (stop_work (_completion s)).


(** ** Facts on the parts *)

Lemma position_S start i : position start (S i) = next_batch (position start i).
Proof. done. Qed.

Lemma last_sent_next s h b a : last_sent s h b a → is_blocks a →
  position (_start_height s) (count s) = next_batch (h, b) ∧ Forall is_blocks (exchanges (_requesting s)).*2.
Proof.
  intros (l & q & He & Hp & Hf) Ha. unfold count. rewrite He, length_app, fmap_app. simpl.
  rewrite Nat.add_1_r, position_S, Hp. split; [done|]. by apply Forall_app; split; [|constructor].
Qed.

Lemma fill_spec staged queue : (length queue ≤ block_queue_size)%nat →
  (fill staged queue).2 ++ (fill staged queue).1 = queue ++ staged ∧ (length (fill staged queue).2 ≤ block_queue_size)%nat.
Proof.
  revert queue. induction staged as [|x l IH]; intros queue Hq; simpl; [done|].
  case_bool_decide as Hb; [done|].
  destruct (IH (queue ++ [x])) as [H1 H2]; [rewrite length_app; simpl; lia|].
  split; [|done]. rewrite H1. by rewrite <-app_assoc.
Qed.

Lemma work_removed (l : list request_task) p n i t :
  l ≡ₚ replicate n drain_staged ++ request_part p → l !! i = Some t →
  (∃ m, t = drain_staged ∧ delete i l ≡ₚ replicate m drain_staged ++ request_part p) ∨
  (p = at_request t ∧ delete i l ≡ₚ replicate n drain_staged).
Proof.
  intros Hl Hi.
  assert (replicate n drain_staged ++ request_part p ≡ₚ t :: delete i l) as Hd
    by (rewrite <-Hl; by apply delete_Permutation).
  assert (t ∈ replicate n drain_staged ++ request_part p) as Ht by (rewrite Hd; by left).
  apply elem_of_app in Ht as [Ht|Ht].
  - apply elem_of_replicate in Ht as [-> Hn]. left. exists (pred n). split; [done|].
    destruct n as [|n]; [done|]. simpl in *. by apply Permutation_cons_inv in Hd.
  - destruct p as [|t'|?|?]; simpl in *; try (by apply not_elem_of_nil in Ht).
    apply list_elem_of_singleton in Ht as ->. right. split; [done|].
    rewrite Permutation_app_comm in Hd. simpl in Hd. by apply Permutation_cons_inv in Hd.
Qed.

(** ** The state of the work

    Where the lists of tasks change, or a task ends. *)

Ltac relist := intros []; constructor; assumption.

Lemma core_later_request t s p w q : core s p w q → core (later_request t s) p w q.
Proof. relist. Qed.
Lemma core_later_block t s p w q : core s p w q → core (later_block t s) p w q.
Proof. relist. Qed.
Lemma core_later_stop t s p w q : core s p w q → core (later_stop t s) p w q.
Proof. relist. Qed.

Lemma core_stops s p w q q' : core s p w q →
  (close_request_queue ∈ q' → close_request_queue ∈ q ∨ _stopped (_completion s) = true) → core s p w q'.
Proof.
  intros [] Hq. constructor; try assumption.
  intros [Hc|Hc]; [by eauto|]. destruct (Hq Hc); eauto.
Qed.

Lemma core_drop s t w q : core s (at_request t) w q →
  (in_flight (at_request t) = [] ∨ _stopped (_completion s) = true) → core s nowhere w q.
Proof.
  intros [] Hlost. assert (_request_processing_complete (_requesting s) = false) as Hp.
  { destruct (_request_processing_complete _); [|done]. by destruct core_processed0. }
  constructor; try assumption; try congruence.
  - intros Hr. destruct t; simpl in *; try (destruct_and?; congruence); try done.
    + destruct core_requests0 as [Hu _]. unfold untouched in Hu. destruct_and?. congruence.
    + destruct core_requests0 as [Hu _]. unfold untouched in Hu. destruct_and?. congruence.
    + destruct core_requests0 as [[? _]|(_ & [Hn Hf] & Hh & _)]; [congruence|]. by rewrite Hn.
  - destruct core_calls0 as [(k & Hk & Hr & Hw)|[? _]]; [|congruence]. left. exists k.
    split; [done|]. split; [done|]. intros Hne. destruct (Hw Hne) as (Hpe & _ & He).
    rewrite <-He by (left; done). split; [done|].
    assert (waiting s nowhere w `prefix_of` waiting s (at_request t) w ∧
      (_stopped (_completion s) = false → waiting s nowhere w = waiting s (at_request t) w)) as [H1 H2].
    { unfold waiting. destruct Hlost as [->|Hs]; [done|]. split; [|congruence]. do 3 apply prefix_app.
      assert (in_flight (at_request t) = [] ∨ _request_queue (_requesting s) = []) as [->|Hq]; [|done|].
      + destruct t; simpl in *; try (by left); right; by destruct_and?.
      + rewrite Hq. simpl. apply prefix_nil. }
    split; [by apply prefix_app|]. intros [?|Hs]; [done|]. by rewrite H2.
  - intros Hf. destruct (core_future0 Hf) as [[? _]|[? _]]; congruence.
  - intros Hf. by destruct (core_idle0 Hf).
Qed.

Lemma core_drop_block s p w q : core s p w q → posting w = None → core s p [] q.
Proof.
  intros [] Hw. constructor; try assumption; simpl.
  - lia.
  - congruence.
  - destruct p as [|[]|?|?]; simpl in *; naive_solver.
  - done.
  - destruct core_calls0 as [(k & Hk & Hr & _)|(H1 & H2 & H3)]; [left; by exists k|by right].
  - intros Hf. destruct (core_future0 Hf) as [(H1 & H2 & H3)|(H1 & H2 & H3)]; [left|right]; done.
  - intros Hf. destruct (core_idle0 Hf) as (H1 & H2 & H3). done.
Qed.

(** The task on blocks goes on with another one. *)
Lemma core_block s p t t' q : core s p [t] q → pulled [t'] = pulled [t] → posting [t'] = posting [t] →
  (t' = finish → _request_processing_complete (_requesting s) = true ∧ _block_queue (_applying s) = []) → core s p [t'] q.
Proof.
  intros [] Hp Hq Hf. constructor; try assumption.
  - congruence.
  - destruct p as [|[]|?|?]; simpl in *; naive_solver.
  - intros [= ->]. by apply Hf.
  - destruct core_calls0 as [(k & Hk & Hr & Hw)|(H1 & H2 & H3)]; [left|done].
    exists k. split; [done|]. split; [done|]. intros _. unfold waiting. rewrite Hp. by apply Hw.
  - intros Hi. destruct (core_future0 Hi) as [(H1 & H2 & H3)|(H1 & H2 & H3)]; done.
  - intros Hi. by destruct (core_idle0 Hi) as (H1 & H2 & H3).
Qed.

(** ** Moving staged blocks *)

Definition same_work (s s' : indexer) : Prop :=
  request_work (_requesting s') = request_work (_requesting s) ∧ block_work (_applying s') = block_work (_applying s) ∧
  stop_work (_completion s') = stop_work (_completion s).

Lemma drain_core s p w q o s' : core s p w q → drain_response_blocks s = (o, s') →
  same_work s s' ∧
  match o with
  | None => core s' p w q
  | Some (h, b) => request_part p = [] ∧ core s' (at_request (post_next h b)) w q
  end.
Proof.
  intros Hc. unfold drain_response_blocks.
  destruct (_response_active (_staging s)) as [[h b]|] eqn:Ha; [|by intros [= <- <-]].
  destruct (if _block_queue_closed (_applying s) then _ else _) as [staged queue] eqn:Hf.
  assert (queue ++ staged = _block_queue (_applying s) ++ _response_blocks (_staging s) ∧ (length queue ≤ block_queue_size)%nat)
    as [Hsame Hsize].
  { destruct Hc. destruct (_block_queue_closed _); [by simplify_eq|].
    destruct (fill_spec (_response_blocks (_staging s)) (_block_queue (_applying s)) core_bound0) as [H1 H2].
    by rewrite Hf in H1, H2. }
  destruct Hc. rewrite Ha in core_active0. destruct p as [|t|h' b'|h' b']; try done. simpl in core_active0. simplify_eq.
  assert (w ≠ [finish]) as Hw by (intros ->; destruct core_finish0 as [Hp _]; [done|]; by destruct (core_processed0 Hp)).
  assert (∀ s' p', _response_blocks (_staging s') = staged → _block_queue (_applying s') = queue →
    _request_queue (_requesting s') = _request_queue (_requesting s) → in_flight p' = [] →
    waiting s' p' w = waiting s (at_staged h' b') w) as Hwait.
  { intros s'' p'' H1 H2 H3 H4. unfold waiting. rewrite H1, H2, H3, H4. simpl. f_equal. rewrite !(app_assoc queue), !(app_assoc (_block_queue (_applying s))).
    by rewrite Hsame. }
  destruct staged as [|x staged]; intros [= <- <-]; (split; [done|]).
  - split; [done|]. constructor; try assumption; simpl; try done.
    + destruct core_requests0 as ((a & Hs & Hb) & H2 & H3). pose proof (last_sent_next _ _ _ _ Hs Hb) as [H4 H5]. done.
    + intros Hp. by destruct (core_processed0 Hp).
    + destruct core_calls0 as [(k & Hk & Hr & Hn)|Hfin]; [left; exists k|by right].
      split; [done|]. split; [done|]. intros Hne. rewrite (Hwait _ (at_request _)) by done.
      destruct (Hn Hne) as (H1 & H2 & H3). split; [done|]. split; [done|]. intros _. apply H3. by left.
    + intros Hi. destruct (core_future0 Hi) as [(? & _)|Hfin]; [done|by right].
    + intros Hi. by destruct (core_idle0 Hi).
  - constructor; try assumption; simpl; try done.
    + destruct core_calls0 as [(k & Hk & Hr & Hn)|Hfin]; [left; exists k|by right].
      split; [done|]. split; [done|]. intros Hne. rewrite (Hwait _ (at_staged _ _)) by done.
      destruct (Hn Hne) as (H1 & H2 & H3). split; [done|]. split; [done|]. intros _. apply H3. by left.
    + intros Hi. destruct (core_future0 Hi) as [(? & _)|Hfin]; [done|by right].
    + intros Hi. by destruct (core_idle0 Hi).
Qed.

(** ** Tasks on requests *)

Lemma invariant_failed s n : request_work (_requesting s) ≡ₚ replicate n drain_staged →
  core s nowhere (block_work (_applying s)) (stop_work (_completion s)) → invariant (later_stop handle_error s).
Proof.
  intros Hl Hc. exists nowhere, n. split; [simpl; by rewrite app_nil_r|]. apply core_later_stop.
  eapply core_stops; [done|]. simpl. intros Hq. apply elem_of_app in Hq as [?|Hq]; [by left|].
  by apply list_elem_of_singleton in Hq.
Qed.

Lemma invariant_next t s n : request_work (_requesting s) ≡ₚ replicate n drain_staged →
  core s (at_request t) (block_work (_applying s)) (stop_work (_completion s)) → invariant (later_request t s).
Proof.
  intros Hl Hc. exists (at_request t), n. split; [simpl; by rewrite Hl|]. by apply core_later_request.
Qed.

Lemma invariant_idle s n : request_work (_requesting s) ≡ₚ replicate n drain_staged →
  core s nowhere (block_work (_applying s)) (stop_work (_completion s)) → invariant s.
Proof. intros Hl Hc. exists nowhere, n. split; [simpl; by rewrite app_nil_r|done]. Qed.

Lemma core_target s w q t h p w' : core s (at_request prepare_index) w q →
  (p, w') = (nowhere, []) ∨ (p, w') = (at_request (send_requests h 50), [process_block]) ∨
  ((p, w') = (at_request complete_synchronized, []) ∧ topo_height t ≤ h) →
  core (set_target t h s) p w' q.
Proof.
  intros [] Hp. destruct core_requests0 as [Hu ->]. unfold untouched in Hu.
  destruct Hu as (He & Hca & Hb & Hpe & Hrq & Hrc & Hpr). specialize (core_staged0 core_active0).
  assert (p ≠ nowhere → p = at_request (send_requests h 50) ∨ p = at_request complete_synchronized ∧ topo_height t ≤ h) as Hp'
    by naive_solver.
  assert (unfinished (set_target t h s) p w' []) as Hun.
  { unfold unfinished, waiting, received. simpl. rewrite He, Hca, Hb, Hpe, Hrq, core_staged0.
    split; [by destruct verify|]. split; [done|]. intros _. destruct verify; naive_solver. }
  assert (posting w' = None ∧ post_part p = None ∧ active_part p = None ∧ (length w' ≤ 1)%nat ∧ w' ≠ [finish]) as (H1 & H2 & H3 & H4 & H5)
    by (destruct Hp as [?|[?|[? ?]]]; simplify_eq; simpl; auto).
  constructor; simpl; try assumption; try congruence; try done.
  - by rewrite H3.
  - unfold as_planned, count. simpl. rewrite He. split; [done|]. simpl. lia.
  - destruct Hp as [?|[?|[? ?]]]; simplify_eq; simpl.
    + congruence.
    + unfold next_at, count. simpl. rewrite He. simpl. done.
    + done.
  - left. by exists [].
  - intros Hi. destruct (core_future0 Hi) as [(? & _)|(? & _)]; congruence.
  - intros Hi. by destruct (core_idle0 Hi).
Qed.

(** The work on requests goes on at [p] with the requests [r], which has the
    exchanges [l] more. *)
Lemma core_move s t w q r p l : core s (at_request t) w q →
  exchanges r = exchanges (_requesting s) ++ l → _request_queue_closed r = _request_queue_closed (_requesting s) →
  post_part p = None → active_part p = None →
  as_planned (set_requesting r s) → request_state (set_requesting r s) p w →
  waiting (set_requesting r s) p w = waiting s (at_request t) w ++ concat (items <$> l.*2) →
  (_request_processing_complete r = true → p = nowhere ∧ _requests_complete r = true ∧ _request_queue r = []) →
  core (set_requesting r s) p w q.
Proof.
  intros [] He Hcl Hpo Hac Hpl Hrs Hw Hpr. simpl in *.
  assert (_request_processing_complete (_requesting s) = false) as Hp.
  { destruct (_request_processing_complete (_requesting s)); [|done]. by destruct core_processed0. }
  constructor; simpl; try assumption; try congruence.
  - intros ->. destruct core_finish0; [done|congruence].
  - destruct core_calls0 as [(k & Hk & Hr & Hn)|(? & _)]; [left; exists k|congruence].
    assert (received (set_requesting r s) = received s ++ concat (items <$> l.*2)) as Hre
      by (unfold received; simpl; by rewrite He, !fmap_app, concat_app).
    unfold unfinished. rewrite Hre, Hw. split; [done|]. split; [by apply prefix_app_r|].
    intros Hne. destruct (Hn Hne) as (H1 & H2 & H3). split; [done|].
    assert (k ++ waiting s (at_request t) w ++ concat (items <$> l.*2) = received s ++ concat (items <$> l.*2)) as ->
      by (rewrite app_assoc, H3 by (by left); done).
    done.
  - intros Hi. destruct (core_future0 Hi) as [(? & _)|(? & _)]; congruence.
  - by rewrite Hcl.
  - intros Hi. by destruct (core_idle0 Hi).
Qed.

Lemma core_ask s h b w q : core s (at_request (send_requests h b)) w q → h < height_of_target s →
  let a := ask (request_of s h b) s in core a.2 (at_request (push_request h b a.1)) w q.
Proof.
  intros Hc Hh. pose proof Hc as []. destruct core_requests0 as ([Hp Hf] & Hq & Hrc). unfold ask. simpl.
  eapply core_move; [done|simpl; done|done|done|done| | | |].
  - destruct core_plan0 as [H1 H2]. unfold as_planned, count in *. simpl. rewrite fmap_app, length_app. simpl.
    split; [rewrite H1, Nat.add_1_r, seq_S, fmap_app; simpl; by rewrite Hp|].
    intros i Hi. simpl in Hi. destruct (decide (i = length (exchanges (_requesting s)))) as [->|Hne]; [by rewrite Hp|]. apply H2. lia.
  - simpl. split; [|done]. by exists (exchanges (_requesting s)), (request_of s h b).
  - unfold waiting. simpl. rewrite Hq. simpl. by rewrite <-!app_assoc.
  - simpl. intros Hpr. by destruct core_processed0.
Qed.

Section Request.
Variables (s : indexer) (n : nat).
Hypothesis only_drains : request_work (_requesting s) ≡ₚ replicate n drain_staged.
Let w := block_work (_applying s).
Let q := stop_work (_completion s).

Lemma prepare_invariant : core s (at_request prepare_index) w q → invariant (run_prepare s).
Proof.
  intros Hc. assert (core s nowhere w q) as Hd by (eapply core_drop; [done|by left]).
  unfold run_prepare. destruct (_stopped _); [by eapply invariant_idle|].
  destruct highest_block as [| | | | |t]; try (by eapply invariant_failed).
  assert (w = []) as Hw by (destruct Hc; by destruct core_requests0).
  destruct (head_height _) as [h|].
  - destruct (h <? topo_height t) eqn:Hlt.
    + exists (at_request (send_requests h 50)), n. split; [simpl; by rewrite only_drains|].
      apply core_later_block, core_later_request. simpl. fold w q. rewrite Hw.
      eapply core_target; [done|]. right. by left.
    + eapply invariant_next; [done|]. simpl. fold w q. rewrite Hw. eapply core_target; [done|].
      right. right. split; [done|]. by apply Z.ltb_ge.
  - eapply invariant_failed; [done|]. simpl. fold w q. rewrite Hw. eapply core_target; [done|by left].
Qed.

Lemma send_invariant h b : core s (at_request (send_requests h b)) w q → invariant (run_send h b s).
Proof.
  intros Hc. unfold run_send.
  destruct (_stopped _); [eapply invariant_idle; [done|]; eapply core_drop; [done|by left]|].
  destruct (h <? height_of_target s) eqn:Hh.
  - pose proof (core_ask _ _ _ _ _ Hc (proj1 (Z.ltb_lt _ _) Hh)) as Ha. unfold ask in *. simpl in Ha.
    destruct (blocks_by_height _ _).
    + eapply invariant_failed; [done|]. eapply core_drop; [done|by left].
    + by eapply invariant_next.
    + by eapply invariant_next.
    + by eapply invariant_next.
    + by eapply invariant_next.
    + by eapply invariant_next.
  - eapply invariant_next; [done|]. pose proof Hc as []. destruct core_requests0 as (Hn & Hq & Hrc).
    eapply (core_move _ _ _ _ _ _ []); [done|simpl; by rewrite app_nil_r|done|done|done|done| | |].
    + simpl. right. split; [done|]. split; [done|]. split; [by apply Z.ltb_ge|done].
    + unfold waiting. simpl. by rewrite !app_nil_r.
    + simpl. intros Hpr. by destruct core_processed0.
Qed.

Lemma push_invariant h b a s' : core s (at_request (push_request h b a)) w q → run_push h b a s = Some s' → invariant s'.
Proof.
  intros Hc. pose proof Hc as []. destruct core_requests0 as (Hl & Hq & Hrc). unfold run_push. rewrite Hq. simpl.
  destruct (_request_queue_closed (_requesting s)) eqn:Hcl; intros [= <-].
  - eapply invariant_idle; [done|]. eapply core_drop; [done|]. right. apply core_closed0. by left.
  - eapply invariant_next; [done|].
    eapply (core_move _ _ _ _ _ _ []); [done|simpl; by rewrite app_nil_r|done|done|done|done| | |].
    + simpl. left. split; [done|]. by exists a.
    + unfold waiting. simpl. rewrite Hq. simpl. by rewrite !app_nil_r.
    + simpl. intros Hpr. by destruct core_processed0.
Qed.

Lemma process_invariant h b s' : core s (at_request (process_requests h b)) w q → run_process h b s = Some s' → invariant s'.
Proof.
  intros Hc. pose proof Hc as []. unfold run_process.
  destruct (_stopped _); [intros [= <-]; eapply invariant_idle; [done|]; eapply core_drop; [done|by left]|].
  destruct core_requests0 as [(Hrc & a & Hl & Hq)|(Hrc & [Hn Hf] & Hh & Hq)]; rewrite Hq; [|rewrite Hrc]; intros [= <-].
  - eapply invariant_next; [done|].
    eapply (core_move _ _ _ _ _ _ []); [done|simpl; by rewrite app_nil_r|done|done|done|done| | |].
    + done.
    + unfold waiting. simpl. rewrite Hq. simpl. by rewrite !app_nil_r.
    + simpl. intros Hpr. by destruct core_processed0.
  - eapply invariant_idle; [done|].
    eapply (core_move _ _ _ _ _ _ []); [done|simpl; by rewrite app_nil_r|done|done|done|done| | |].
    + simpl. intros _. unfold count in *. simpl. by rewrite Hn.
    + unfold waiting. simpl. rewrite Hq. simpl. by rewrite !app_nil_r.
    + done.
Qed.

Lemma stage_invariant h b a : core s (at_request (stage_response h b a)) w q → invariant (run_stage h b a s).
Proof.
  intros Hc. assert (a = response (items a) ∨ run_stage h b a s = later_stop handle_error s ∧ items a = []) as Ha
    by (destruct a; auto).
  pose proof Hc as []. destruct core_requests0 as (Hl & Hq & Hrc). specialize (core_staged0 core_active0). simpl in core_active0.
  destruct Ha as [Ha|[-> Ha]].
  - unfold run_stage. rewrite Ha. destruct (_staging s) as [blocks active] eqn:Hs. simpl in *. subst blocks active.
    exists (at_staged h b), (S n). split; [simpl; by rewrite only_drains, app_nil_r, <-replicate_cons_app|].
    apply core_later_request. fold w q. simpl.
    assert (waiting (set_staging (mk_staging (items a) (Some (h, b))) s) (at_staged h b) w =
      waiting s (at_request (stage_response h b a)) w) as Hw.
    { unfold waiting. simpl. rewrite Hs, Hq. simpl. by rewrite !app_nil_r. }
    constructor; simpl; try assumption; try done.
    + split; [|done]. exists a. split; [done|]. by rewrite Ha.
    + intros Hpr. by destruct core_processed0.
    + destruct core_calls0 as [(k & Hk & Hr & Hn)|Hf]; [left; exists k|by right].
      split; [done|]. split; [done|]. intros Hne. destruct (Hn Hne) as (H1 & H2 & H3). rewrite <-Hw in H2, H3.
      split; [done|]. split; [done|]. intros _. apply H3. by left.
    + intros Hi. destruct (core_future0 Hi) as [(? & _)|Hf]; [done|by right].
    + intros Hi. by destruct (core_idle0 Hi).
  - assert (core s nowhere w q) as Hd by (eapply core_drop; [done|by left]).
    by eapply invariant_failed.
Qed.

Lemma post_invariant h b : core s (at_request (post_next h b)) w q → invariant (run_post h b s).
Proof.
  intros Hc. unfold run_post.
  destruct (_stopped _); [eapply invariant_idle; [done|]; eapply core_drop; [done|by left]|].
  eapply invariant_next; [done|]. pose proof Hc as [].
  assert (set_requesting (_requesting s) s = s) as Hs by (by destruct s). rewrite <-Hs.
  eapply (core_move _ _ _ _ _ _ []); [done|by rewrite app_nil_r|done|done|done|done|done| |].
  - unfold waiting. simpl. by rewrite !app_nil_r.
  - intros Hpr. by destruct core_processed0.
Qed.

Lemma complete_invariant : core s (at_request complete_synchronized) w q → invariant (resolve_value s).
Proof.
  intros Hc. assert (core s nowhere w q) as Hd by (eapply core_drop; [done|by left]).
  unfold resolve_value. destruct (_ && _); [|by eapply invariant_idle].
  eapply invariant_idle; [done|]. pose proof Hc as []. destruct core_requests0 as (Hu & Hw & Hh).
  destruct Hd. constructor; try assumption; simpl; [intros _; by left|]. intros Hi. by destruct (core_idle0 Hi).
Qed.

End Request.
(** ** Tasks on blocks *)

(** A change of the state of application that keeps what waits: all of it
    after the blocks that are done, now up to [k'] with the task [w']. *)
Lemma core_apply s p t q a w' :
  core s p [t] q → posting [t] = None → posting w' = None → (length w' ≤ 1)%nat → w' ≠ [finish] →
  (length (_block_queue a) ≤ block_queue_size)%nat →
  (∀ k, unfinished s p [t] k → ∃ k', unfinished (set_applying a s) p w' k') →
  core (set_applying a s) p w' q.
Proof.
  intros [] Ht Hw' H1 Hfi Hb Hk.
  assert (∀ t', p = at_request t' → t' ≠ prepare_index ∧ t' ≠ complete_synchronized) as Hp'
    by (intros t' ->; destruct t'; simpl in *; naive_solver).
  constructor; simpl; try assumption; try done.
  - congruence.
  - destruct p as [|[]|?|?]; simpl in *; try done; by destruct (Hp' _ eq_refl).
  - destruct core_calls0 as [(k & Hu)|(? & ? & ?)]; [left|done]. by apply (Hk k).
  - intros Hi. destruct (core_future0 Hi) as [(? & ? & ?)|(? & ? & ?)]; done.
  - intros Hi. by destruct (core_idle0 Hi) as (? & ? & ?).
Qed.

Lemma unfinished_shorter s p q k b : core s p [apply_pulled b] q → unfinished s p [apply_pulled b] k →
  k ++ [b] `prefix_of` received s.
Proof.
  intros Hc (_ & _ & Hn). destruct (Hn ltac:(done)) as (_ & Hp & _). etransitivity; [|done].
  unfold waiting. simpl. apply prefix_app. by exists (_block_queue (_applying s) ++ _response_blocks (_staging s) ++
    in_flight p ++ concat (items <$> _request_queue (_requesting s))).
Qed.

(** The block that was pulled is done. *)
Lemma core_applied s p q b pending fallback w' :
  core s p [apply_pulled b] q →
  (w' = [] ∨ w' = [process_block] ∧ pending = (if verify then None else Some b)) →
  let a := _applying s in
  core (set_applying (mk_applying (_block_queue a) (_block_queue_closed a) pending fallback (block_work a)
      (calls a ++
        (if verify then [submit_block (item_block b) (height_of_target s)]
         else match _pending_item a with
              | Some x => [apply_block_delta_checked (item_block x) (item_receipt x)
                             (previous_state_merkle_root (header (item_block b))) (height_of_target s)]
              | None => []
              end))) s) p w' q.
Proof.
  intros Hc Hw. simpl. eapply core_apply; [done|done|by destruct Hw as [->|[-> _]]| | |by destruct Hc|].
  - destruct Hw as [->|[-> _]]; simpl; lia.
  - by destruct Hw as [->|[-> _]].
  - intros k Hu. pose proof (unfinished_shorter _ _ _ _ _ Hc Hu) as Hpre. destruct Hu as (Hk & Hr & Hn).
    destruct (Hn ltac:(done)) as (Hpe & H1 & H2). exists (k ++ [b]). unfold unfinished. simpl.
    split; [rewrite done_calls_snoc, Hk, Hpe; f_equal; by destruct verify|]. split; [done|].
    intros Hne. destruct Hw as [->|[-> ->]]; [done|].
    assert ((k ++ [b]) ++ waiting s p [process_block] = k ++ waiting s p [apply_pulled b]) as Hwait
      by (unfold waiting; simpl; by rewrite <-app_assoc).
    split; [destruct verify; [done|by rewrite last_snoc]|].
    change (waiting (set_applying _ s) p [process_block]) with (waiting s p [process_block]). rewrite Hwait. done.
Qed.

(** All that was received is done. *)
Lemma core_finished s p q pending fallback :
  core s p [finish] q → _stopped (_completion s) = false →
  let a := _applying s in
  let s' := set_applying (mk_applying (_block_queue a) (_block_queue_closed a) pending fallback (block_work a)
      (calls a ++ match _pending_item a with
                  | Some x => [apply_block_delta (item_block x) (item_receipt x) (height_of_target s)]
                  | None => []
                  end)) s in
  core s' nowhere [] q ∧ p = nowhere ∧ finished s' [].
Proof.
  intros Hc Hs. simpl. pose proof Hc as []. destruct core_finish0 as [Hp Hb]; [done|].
  destruct (core_processed0 Hp) as (-> & Hrc & Hq). specialize (core_staged0 core_active0).
  assert (∀ k, unfinished s nowhere [finish] k → _pending_item (_applying s) = (if verify then None else last k) ∧ k = received s) as Hk.
  { intros k (_ & _ & Hn). destruct (Hn ltac:(done)) as (H1 & _ & H2). split; [done|].
    rewrite <-H2 by (by right). unfold waiting. simpl. by rewrite Hb, core_staged0, Hq, app_nil_r. }
  destruct core_calls0 as [(k & Hu)|(_ & ? & _)]; [|done]. destruct (Hk k Hu) as [Hpe ->].
  assert (calls (_applying s) ++ match _pending_item (_applying s) with
      | Some x => [apply_block_delta (item_block x) (item_receipt x) (height_of_target s)] | None => [] end =
    all_calls verify (height_of_target s) (received s)) as Hall.
  { destruct Hu as (-> & _). unfold all_calls. rewrite Hpe. by destruct verify. }
  match goal with |- core ?s' _ _ _ ∧ _ => assert (finished s' []) as Hfin by done end.
  split; [|done]. constructor; simpl; try assumption; try done.
  - lia.
  - by right.
  - intros Hi. destruct (core_future0 Hi) as [(_ & ? & _)|(_ & ? & _)]; done.
  - intros Hi. by destruct (core_idle0 Hi) as (? & ? & ?).
Qed.

Section Block.
Variables (s : indexer) (p : place) (n : nat).
Hypothesis only_work : request_work (_requesting s) ≡ₚ replicate n drain_staged ++ request_part p.
Hypothesis no_block_work : block_work (_applying s) = [].
Let q := stop_work (_completion s).

Lemma invariant_end : core s p [] q → invariant s.
Proof. intros Hc. exists p, n. split; [done|]. by rewrite no_block_work. Qed.

Lemma invariant_end_failed : core s p [] q → invariant (later_stop handle_error s).
Proof.
  intros Hc. exists p, n. split; [done|]. apply core_later_stop. simpl. rewrite no_block_work.
  eapply core_stops; [done|]. intros Hq. apply elem_of_app in Hq as [?|Hq]; [by left|]. by apply list_elem_of_singleton in Hq.
Qed.

Lemma invariant_block t : core s p [t] q → invariant (later_block t s).
Proof. intros Hc. exists p, n. split; [done|]. simpl. rewrite no_block_work. by apply core_later_block. Qed.

End Block.

Section BlockStep.
Variables (s : indexer) (p : place) (n : nat).
Hypothesis only_work : request_work (_requesting s) ≡ₚ replicate n drain_staged ++ request_part p.
Hypothesis no_block_work : block_work (_applying s) = [].
Let q := stop_work (_completion s).

Lemma process_block_invariant : core s p [process_block] q → invariant (run_process_block s).
Proof.
  intros Hc. unfold run_process_block.
  destruct (_stopped _); [eapply invariant_end; eauto; by eapply core_drop_block|].
  destruct (_request_processing_complete _) eqn:Hp; [destruct (_block_queue _) eqn:Hb|];
    (eapply invariant_block; [done..|]; by eapply core_block).
Qed.

Lemma finish_invariant : core s p [finish] q → invariant (run_finish s).
Proof.
  intros Hc. unfold run_finish.
  destruct (_stopped _) eqn:Hs; [eapply invariant_end; eauto; by eapply core_drop_block|].
  assert (∀ pending fallback,
    let a := _applying s in
    let s' := set_applying (mk_applying (_block_queue a) (_block_queue_closed a) pending fallback (block_work a)
      (calls a ++ match _pending_item a with
                  | Some x => [apply_block_delta (item_block x) (item_receipt x) (height_of_target s)]
                  | None => []
                  end)) s in
    invariant (later_stop handle_error s') ∧ invariant (finish_indexing s')) as Hend.
  { intros pending fallback a s'. destruct (core_finished _ _ _ pending fallback Hc Hs) as (Hd & -> & Hf).
    fold a s' in Hd, Hf. assert (invariant (later_stop handle_error s')) as He by (by eapply invariant_end_failed).
    split; [done|]. unfold finish_indexing. destruct (head_height _); [|done]. unfold resolve_value.
    destruct (_ && _); [|by eapply invariant_end]. eapply (invariant_end _ nowhere); [done|done|].
    destruct Hd. constructor; try assumption; [intros _; by right|]. intros Hi. destruct (core_idle0 Hi) as (_ & _ & Hu & _).
    destruct Hf as (Hf & _). unfold untouched in Hu. destruct_and?. simpl in *. congruence. }
  pose proof (λ x y, proj1 (Hend x y)) as Hthrow. pose proof (λ x y, proj2 (Hend x y)) as Hdone. clear Hend.
  cbv zeta in Hthrow, Hdone. destruct (_pending_item (_applying s)) as [x|] eqn:Hpe.
  - unfold call_controller. destruct (call_result _ _); [apply Hdone|apply Hthrow].
  - specialize (Hdone None (_fallback_count (_applying s))). rewrite app_nil_r, <-Hpe in Hdone.
    by destruct s as [? ? ? [] ? ?].
Qed.

Lemma pull_invariant : core s p [pull_block] q → invariant (run_pull s).
Proof.
  intros Hc. unfold run_pull. destruct (_block_queue (_applying s)) as [|b rest] eqn:Hb.
  - destruct (_block_queue_closed _); [eapply invariant_end; eauto; by eapply core_drop_block|].
    destruct (_stopped _); [eapply invariant_end; eauto; by eapply core_drop_block|].
    eapply invariant_block; [done..|]. by eapply core_block.
  - eapply invariant_block; [done..|]. eapply core_apply; [done|done|done|simpl; lia|done| |].
    + destruct Hc. rewrite Hb in core_bound0. simpl in *. lia.
    + intros k (Hk & Hr & Hn). exists k. split; [done|]. split; [done|]. intros _. destruct (Hn ltac:(done)) as (H1 & H2 & H3).
      split; [done|].
      assert (waiting (set_applying (with_block_queue rest (_applying s)) s) p [drain_pulled b] = waiting s p [pull_block]) as ->
        by (unfold waiting; simpl; by rewrite Hb).
      done.
Qed.

Lemma drain_invariant b s' : core s p [drain_pulled b] q → run_block verify (drain_pulled b) s = Some s' → invariant s'.
Proof.
  intros Hc. simpl. destruct (drain_response_blocks s) as [o s''] eqn:Hd.
  destruct (drain_core _ _ _ _ _ _ Hc Hd) as [(Hr & Hb & Hs) Ho].
  destruct o as [[h m]|]; intros [= <-].
  - destruct Ho as [Hp Hn]. rewrite Hp in only_work. eapply (invariant_block _ (at_post h m)); [by rewrite Hr|by rewrite Hb|].
    rewrite Hs. destruct Hn. constructor; simpl; try assumption; try done.
    + intros Hpr. by destruct (core_processed0 Hpr).
    + destruct core_calls0 as [(k & Hk & Hre & Hw)|(_ & ? & _)]; [left; exists k|done].
      split; [done|]. split; [done|]. intros _. destruct (Hw ltac:(done)) as (H1 & H2 & H3).
      split; [done|]. split; [done|]. intros _. apply H3. by left.
    + intros Hi. destruct (core_future0 Hi) as [(? & _)|(_ & ? & _)]; done.
    + intros Hi. by destruct (core_idle0 Hi).
  - eapply (invariant_block _ p); [by rewrite Hr|by rewrite Hb|]. rewrite Hs. by eapply core_block.
Qed.

Lemma post_pulled_invariant h m b : core s p [post_pulled h m b] q → invariant (later_block (apply_pulled b) (run_post h m s)).
Proof.
  intros Hc. pose proof Hc as []. destruct p as [| | |h' m'] eqn:Hpl; try done. injection core_post0 as <- <-.
  assert (∀ p', p' = nowhere ∧ _stopped (_completion s) = true ∨ p' = at_request (send_requests h m) →
    core s p' [apply_pulled b] q) as Hgo.
  { intros p' Hp'. destruct core_requests0 as (Hn & Hq & Hrc).
    assert (_request_processing_complete (_requesting s) = false) as Hpr
      by (destruct (_request_processing_complete (_requesting s)); [by destruct core_processed0|done]).
    constructor; simpl; try assumption; try done.
    - by destruct Hp' as [[-> _]| ->].
    - by destruct Hp' as [[-> _]| ->].
    - destruct Hp' as [[-> _]| ->]; simpl; [congruence|done].
    - congruence.
    - destruct core_calls0 as [(k & Hk & Hre & Hw)|(_ & ? & _)]; [left; exists k|done].
      split; [done|]. split; [done|]. intros _. destruct (Hw ltac:(done)) as (H1 & H2 & H3).
      assert (waiting s p' [apply_pulled b] = waiting s (at_post h m) [post_pulled h m b]) as ->
        by (by destruct Hp' as [[-> _]| ->]).
      split; [done|]. split; [done|]. intros _. apply H3. by left.
    - intros Hi. destruct (core_future0 Hi) as [(? & _)|(_ & ? & _)]; done.
    - intros Hi. by destruct (core_idle0 Hi). }
  unfold run_post. simpl in only_work. destruct (_stopped _) eqn:Hs.
  - eapply (invariant_block _ nowhere); [done|done|]. apply Hgo. by left.
  - eapply (invariant_block _ (at_request (send_requests h m)) n).
    + simpl. by rewrite only_work, app_nil_r.
    + done.
    + apply core_later_request, Hgo. by right.
Qed.

Lemma apply_invariant b : core s p [apply_pulled b] q → invariant (run_apply verify b s).
Proof.
  intros Hc. unfold run_apply.
  destruct (_stopped _); [eapply invariant_end; eauto; by eapply core_drop_block|].
  pose proof (λ pending fallback, core_applied _ _ _ _ pending fallback _ Hc (or_introl eq_refl)) as Hend.
  pose proof (λ pending fallback H, core_applied _ _ _ _ pending fallback _ Hc (or_intror (conj eq_refl H))) as Hgo.
  assert (_pending_item (_applying s) = if verify then None else _pending_item (_applying s)) as Hpe.
  { destruct Hc. destruct core_calls0 as [(k & _ & _ & Hn)|(_ & ? & _)]; [|done].
    destruct (Hn ltac:(done)) as [-> _]. by destruct verify. }
  destruct verify eqn:Hv; simpl in Hend, Hgo.
  - unfold call_controller. destruct (call_result _ _).
    + eapply invariant_block; [done..|]. by apply Hgo.
    + eapply invariant_end_failed; [done..|]. apply Hend.
  - destruct (_pending_item (_applying s)) as [x|] eqn:Hx.
    + unfold call_controller. destruct (call_result _ _).
      * eapply invariant_block; [done..|]. by apply Hgo.
      * eapply invariant_end_failed; [done..|]. apply Hend.
    + eapply invariant_block; [done..|]. rewrite app_nil_r in Hgo. by apply Hgo.
Qed.

End BlockStep.
(** ** Stops *)

Lemma unfinished_stopped s p w k a c q :
  unfinished s p w k → unfinished (set_completion (mk_completion true false (_future_retrieved (_completion s)) a c q) s) p w k.
Proof.
  intros (Hk & Hr & Hn). split; [done|]. split; [done|]. intros Hne. destruct (Hn Hne) as (H1 & H2 & H3).
  split; [done|]. split; [done|]. intros [?|?]; [|done]. apply H3. by left.
Qed.

Lemma begin_stop_core a s p w q s' : a ≠ indexed true → stop_work (_completion s) = q →
  core s p w q → begin_stop a s = Some s' →
  core s' p w (stop_work (_completion s')) ∧ request_work (_requesting s') = request_work (_requesting s) ∧
  block_work (_applying s') = block_work (_applying s).
Proof.
  intros Ha Hq Hc. unfold begin_stop. destruct (_closing _); [done|].
  destruct (_stopped _); intros [= <-]; [by rewrite Hq|]. split; [|done].
  destruct Hc. constructor; simpl; try assumption; try done.
  - destruct core_calls0 as [(k & Hu)|?]; [left; exists k|by right]. by apply unfinished_stopped.
  - destruct (_complete _); [naive_solver|]. done.
  - intros Hi. destruct (core_idle0 Hi) as (? & ? & ? & ?). do 3 (split; [done|]).
    destruct (_complete _); [naive_solver|done].
Qed.

Lemma stop_invariant s p n t i s' :
  request_work (_requesting s) ≡ₚ replicate n drain_staged ++ request_part p →
  core s p (block_work (_applying s)) (stop_work (_completion s)) → stop_work (_completion s) !! i = Some t →
  run_stop t (set_completion (with_stop_work (delete i (stop_work (_completion s))) (_completion s)) s) = Some s' → invariant s'.
Proof.
  intros Hl Hc Hi. set (s0 := set_completion _ s).
  assert (core s0 p (block_work (_applying s0)) (stop_work (_completion s0))) as H0.
  { apply (core_stops _ _ _ (stop_work (_completion s))); [destruct Hc; by constructor|].
    intros Hq. left. simpl in Hq. by eapply elem_of_sublist, sublist_delete. }
  assert (t = close_request_queue → _stopped (_completion s0) = true) as Ht.
  { intros ->. destruct Hc. apply core_closed0. right. by eapply list_elem_of_lookup_2. }
  destruct t; simpl.
  - intros Hb. destruct (begin_stop_core (indexed false) _ _ _ _ _ ltac:(done) eq_refl H0 Hb) as (H1 & H2 & H3).
    exists p, n. by rewrite H2, H3.
  - intros Hb. destruct (begin_stop_core indexer_failure _ _ _ _ _ ltac:(done) eq_refl H0 Hb) as (H1 & H2 & H3).
    exists p, n. by rewrite H2, H3.
  - intros [= <-]. exists p, n. split; [done|]. apply core_later_stop. simpl.
    eapply (core_stops _ _ _ (delete i (stop_work (_completion s)))).
    + destruct H0. constructor; try assumption. intros _. by apply Ht.
    + right. by apply Ht.
  - intros [= <-]. exists p, n. split; [done|]. apply core_later_stop. simpl.
    eapply (core_stops _ _ _ (delete i (stop_work (_completion s)))).
    + destruct H0. by constructor.
    + intros Hq. apply elem_of_app in Hq as [?|Hq]; [by left|]. by apply list_elem_of_singleton in Hq.
  - intros [= <-]. exists p, n. split; [done|]. simpl in *. pose proof H0 as [].
    assert (filter (λ t, is_timer t = false) (block_work (_applying s)) = block_work (_applying s) ∨
      block_work (_applying s) = [wait_retry] ∧ filter (λ t, is_timer t = false) (block_work (_applying s)) = []) as Hf.
    { destruct (block_work (_applying s)) as [|[] [|]]; simpl in *; try lia; auto. }
    assert (core s0 p (filter (λ t, is_timer t = false) (block_work (_applying s))) (delete i (stop_work (_completion s)))) as H1.
    { destruct Hf as [->|[Hw ->]]; [done|]. eapply core_drop_block; [done|]. by rewrite Hw. }
    destruct H1. by constructor.
Qed.

Lemma index_invariant s s' : invariant s → index s = Some s' → invariant s'.
Proof.
  intros (p & n & Hl & Hc). unfold index. destruct (_ || _ || _) eqn:Hg; [done|]. intros [= <-].
  apply orb_false_iff in Hg as [Hg _]. apply orb_false_iff in Hg as [_ Hr].
  pose proof Hc as []. destruct (core_idle0 Hr) as (-> & Hw & Hu & Hf). simpl in Hl. rewrite app_nil_r in Hl.
  eapply invariant_next; [done|]. simpl. rewrite Hw in *. constructor; simpl; try assumption; try done.
  - destruct Hu as (_ & _ & _ & _ & _ & _ & Hp). by rewrite Hp.
  - destruct core_calls0 as [(k & H1 & H2 & _)|(Hp & _)]; [left; by exists k|].
    destruct Hu as (_ & _ & _ & _ & _ & _ & Hp'). by rewrite Hp in Hp'.
Qed.

(** ** Steps *)

Lemma request_invariant s p n t i s' :
  request_work (_requesting s) ≡ₚ replicate n drain_staged ++ request_part p →
  core s p (block_work (_applying s)) (stop_work (_completion s)) → request_work (_requesting s) !! i = Some t →
  run_request t (set_requesting (with_request_work (delete i (request_work (_requesting s))) (_requesting s)) s) = Some s' →
  invariant s'.
Proof.
  intros Hl Hc Hi. set (s0 := set_requesting _ s).
  assert (core s0 p (block_work (_applying s0)) (stop_work (_completion s0))) as H0 by (destruct Hc; by constructor).
  destruct (work_removed _ _ _ _ _ Hl Hi) as [(m & -> & Hd)|[-> Hd]].
  - simpl. destruct (drain_response_blocks s0) as [o s1] eqn:Hdr.
    destruct (drain_core _ _ _ _ _ _ H0 Hdr) as [(Hr & Hb & Hs) Ho].
    destruct o as [[h b]|]; intros [= <-].
    + destruct Ho as [Hp Ho]. rewrite Hp, app_nil_r in Hd. eapply (invariant_next _ _ m); [by rewrite Hr|].
      by rewrite Hb, Hs.
    + exists p, m. by rewrite Hr, Hb, Hs.
  - destruct t; simpl.
    + intros [= <-]. by eapply prepare_invariant.
    + destruct (_closing _); intros [= <-]. by eapply complete_invariant.
    + intros [= <-]. by eapply send_invariant.
    + intros Hs. by eapply (push_invariant s0).
    + intros Hs. by eapply (process_invariant s0).
    + intros [= <-]. by eapply stage_invariant.
    + by destruct H0.
    + intros [= <-]. by eapply post_invariant.
Qed.

Lemma block_invariant s p n t i s' :
  request_work (_requesting s) ≡ₚ replicate n drain_staged ++ request_part p →
  core s p (block_work (_applying s)) (stop_work (_completion s)) → block_work (_applying s) !! i = Some t →
  run_block verify t (set_applying (with_block_work (delete i (block_work (_applying s))) (_applying s)) s) = Some s' →
  invariant s'.
Proof.
  intros Hl Hc Hi. set (s0 := set_applying _ s).
  assert (block_work (_applying s) = [t] ∧ i = 0%nat) as [Hb ->].
  { destruct Hc. destruct (block_work (_applying s)) as [|x [|]]; simpl in *; [done| |lia].
    by destruct i; simplify_eq/=. }
  assert (block_work (_applying s0) = []) as Hn by (simpl; by rewrite Hb).
  assert (core s0 p [t] (stop_work (_completion s0))) as H0 by (rewrite Hb in Hc; destruct Hc; by constructor).
  destruct t; simpl.
  - intros [= <-]. by eapply process_block_invariant.
  - destruct (_closing _); intros [= <-]. by eapply finish_invariant.
  - intros [= <-]. by eapply pull_invariant.
  - intros Hs. by eapply (drain_invariant s0).
  - intros [= <-]. by eapply post_pulled_invariant.
  - destruct (_closing _); intros [= <-]. by eapply apply_invariant.
  - intros [= <-]. eapply (invariant_block s0 p n); [done|done|]. by eapply core_block.
Qed.

Lemma step_invariant e s s' : invariant s → step verify e s = Some s' → invariant s'.
Proof.
  intros Hinv. pose proof Hinv as (p & n & Hl & Hc). destruct e as [| |i|i|i]; simpl.
  - by apply index_invariant.
  - intros [= <-]. exists p, n. split; [done|]. apply core_later_stop. eapply core_stops; [done|]. simpl.
    intros Hq. apply elem_of_app in Hq as [?|Hq]; [by left|]. by apply list_elem_of_singleton in Hq.
  - destruct (request_work _ !! i) as [t|] eqn:Hi; [|done]. by eapply request_invariant.
  - destruct (block_work _ !! i) as [t|] eqn:Hi; [|done]. by eapply block_invariant.
  - destruct (stop_work _ !! i) as [t|] eqn:Hi; [|done]. by eapply stop_invariant.
Qed.

Lemma new_invariant : invariant new.
Proof.
  exists nowhere, 0%nat. split; [done|]. constructor; simpl; try done.
  - lia.
  - unfold block_queue_size. lia.
  - unfold as_planned, count. simpl. split; [done|]. lia.
  - left. exists []. unfold unfinished. simpl. by destruct verify.
  - intros [?|Hq]; [done|]. by apply not_elem_of_nil in Hq.
Qed.

Lemma run_invariant es s s' : invariant s → run verify es s = Some s' → invariant s'.
Proof.
  revert s. induction es as [|e es IH]; intros s Hs; simpl; [by intros [= <-]|].
  destruct (step verify e s) as [s1|] eqn:He; [|done]. apply IH. by eapply step_invariant.
Qed.

(** ** What the invariant shows *)

Lemma checked_calls_prefix target previous l k : l `prefix_of` k → checked_calls target previous l `prefix_of` checked_calls target previous k.
Proof.
  revert previous k. induction l as [|x l IH]; intros previous k Hk; [apply prefix_nil|].
  destruct k as [|y k]; [by apply prefix_nil_not in Hk|]. apply prefix_cons_inv_1 in Hk as Hx. apply prefix_cons_inv_2 in Hk. subst y.
  simpl. destruct previous; [|by apply IH]. by apply prefix_cons, IH.
Qed.

Lemma done_calls_prefix target l k : l `prefix_of` k → done_calls verify target l `prefix_of` all_calls verify target k.
Proof.
  intros Hk. unfold all_calls. apply prefix_app_r. unfold done_calls. destruct verify.
  - destruct Hk as [m ->]. rewrite fmap_app. by eexists.
  - by apply checked_calls_prefix.
Qed.

(** The positions do not wrap around below 2^63. *)
Lemma position_bounds start target i : 0 ≤ start → target < 2 ^ 63 →
  (∀ j, (j < i)%nat → (position start j).1 < target) →
  start ≤ (position start i).1 ∧ 0 < (position start i).2 ≤ 1000 ∧
  (i ≠ 0%nat → (position start i).1 = (position start (pred i)).1 + (position start (pred i)).2).
Proof.
  intros Hs Ht. induction i as [|i IH]; intros Hb; [simpl; lia|].
  destruct IH as (H1 & H2 & _); [intros j Hj; apply Hb; lia|]. specialize (Hb i ltac:(lia)).
  rewrite position_S. unfold next_batch. simpl. rewrite !u64_small by lia. lia.
Qed.

(** The heights of a request. *)
Definition heights (q : request) : list Z := seqZ (ancestor_start_height q) (num_blocks q).

Lemma requests_tile s i : 0 ≤ _start_height s → height_of_target s < 2 ^ 63 →
  (∀ j, (j < i)%nat → (position (_start_height s) j).1 < height_of_target s) → _start_height s ≤ height_of_target s →
  concat (heights <$> ((λ i, let h := position (_start_height s) i in request_of s h.1 h.2) <$> seq 0 i)) =
    seqZ (_start_height s + 1) (Z.min (position (_start_height s) i).1 (height_of_target s) - _start_height s).
Proof.
  intros Hs Ht. induction i as [|i IH]; intros Hb Hle.
  - simpl. by rewrite Z.min_l, Z.sub_diag by lia.
  - specialize (IH ltac:(intros j ?; apply Hb; lia) Hle).
    rewrite seq_S, !fmap_app, concat_app, IH. simpl. rewrite app_nil_r.
    destruct (position_bounds _ _ i Hs Ht) as (H1 & H2 & _); [intros j ?; apply Hb; lia|].
    destruct (position_bounds _ _ (S i) Hs Ht) as (H3 & _ & H4); [done|]. specialize (H4 ltac:(done)). simpl pred in H4.
    specialize (Hb i ltac:(lia)). unfold heights, request_of. simpl.
    rewrite !u64_small, u32_small by (rewrite ?u64_small; lia).
    rewrite (Z.min_l (position _ i).1) by lia.
    replace (Z.min ((position (_start_height s) i).1 + (position (_start_height s) i).2) (height_of_target s) - _start_height s)
      with (((position (_start_height s) i).1 - _start_height s) +
        Z.min (position (_start_height s) i).2 (height_of_target s - (position (_start_height s) i).1)) by lia.
    rewrite (seqZ_app (_start_height s + 1)) by lia. do 2 f_equal. lia.
Qed.

(** C22. In whatever order its tasks run, the indexer has at most made the calls
    for the blocks that it was answered, each once and in the order of the
    requests; its requests are those of the plan, each starting where the one
    before it ends and none above the target; and it never holds more than a
    hundred blocks in its queue. *)
Theorem indexer_in_order es s : run verify es new = Some s →
  calls (_applying s) `prefix_of` all_calls verify (height_of_target s) (received s) ∧
  as_planned s ∧ (length (_block_queue (_applying s)) ≤ block_queue_size)%nat.
Proof.
  intros Hr. destruct (run_invariant _ _ _ new_invariant Hr) as (p & n & _ & []).
  split; [|done]. destruct core_calls0 as [(k & -> & Hk & _)|(_ & _ & ->)]; [|done]. by apply done_calls_prefix.
Qed.

(** C12. When the future of [index] holds [true], every request was answered with
    blocks, all calls for all these blocks were made, the last block included,
    and the requests asked for each height from the start up to the target
    exactly once and in order. *)
Theorem indexed_exactly es s : run verify es new = Some s → _future (_completion s) = Some (indexed true) →
  Forall is_blocks (exchanges (_requesting s)).*2 ∧
  calls (_applying s) = all_calls verify (height_of_target s) (received s) ∧
  (0 ≤ _start_height s ≤ height_of_target s → height_of_target s < 2 ^ 63 →
   concat (heights <$> (exchanges (_requesting s)).*1) = seqZ (_start_height s + 1) (height_of_target s - _start_height s)).
Proof.
  intros Hr Hf. destruct (run_invariant _ _ _ new_invariant Hr) as (p & n & _ & []).
  destruct core_plan0 as [Hplan Hbelow].
  assert (Forall is_blocks (exchanges (_requesting s)).*2 ∧
    calls (_applying s) = all_calls verify (height_of_target s) (received s) ∧
    height_of_target s ≤ (position (_start_height s) (count s)).1) as (H1 & H2 & H3).
  { destruct (core_future0 Hf) as [(-> & _ & (He & Hc & _) & Hh)|(Hp & _ & Hc)].
    - unfold count, received. rewrite He, Hc. simpl. split; [constructor|]. split; [|done]. by destruct verify.
    - destruct (core_processed0 Hp) as (-> & Hrc & _). by destruct (core_requests0 Hrc). }
  split; [done|]. split; [done|]. intros Hs Ht. rewrite Hplan, requests_tile by (done || lia). by rewrite Z.min_r by lia.
Qed.

End Indexing.

(** ** An example

    A block store with sixty blocks above the head, asked for in two requests. *)
Module IndexerExample.

Definition item_at (h : Z) : block_item :=
  mk_block_item (mk_block ([ascii_of_N (Z.to_N h)]) (Some (mk_block_header [] h ([ascii_of_N (Z.to_N h)]) [] MapBackend.default_header)) [] []) empty_block_receipt.

Definition world : IndexerWorld := {|
  highest_block := response (mk_block_topology ([ascii_of_N (Z.to_N 60)]) [] 60);
  blocks_by_height _ q := response (item_at <$> heights q);
  head_height _ := Some 0;
  call_result _ _ := Some false
|}.

(** Requests first. *)
Fixpoint drive (fuel : nat) (s : indexer) : list event :=
  match fuel with
  | O => []
  | S fuel =>
    let e :=
      match request_work (_requesting s), block_work (_applying s) with
      | _ :: _, _ => [request_step 0]
      | [], _ :: _ => [block_step 0]
      | [], [] => []
      end in
    match e, @run world false e s with e :: _, Some s => e :: drive fuel s | _, _ => [] end
  end.

Definition events (fuel : nat) : list event := call_index :: drive fuel (default new (@run world false [call_index] new)).
Definition after (fuel : nat) : indexer := default new (@run world false (events fuel) new).

Lemma indexer_in_order_witness :
  length (calls (_applying (after 100))) = 20%nat ∧ length (received (after 100)) = 60%nat ∧
  calls (_applying (after 100)) `prefix_of` all_calls false 60 (received (after 100)).
Proof.
  split; [vm_compute; reflexivity|]. split; [vm_compute; reflexivity|].
  exact (proj1 (indexer_in_order (W := world) false (events 100) (after 100) ltac:(vm_compute; reflexivity))).
Defined.

Lemma indexed_exactly_witness :
  _future (_completion (after 1000)) = Some (indexed true) ∧
  length (exchanges (_requesting (after 1000))) = 2%nat ∧ length (calls (_applying (after 1000))) = 60%nat ∧
  calls (_applying (after 1000)) = all_calls false 60 (received (after 1000)) ∧
  concat (heights <$> (exchanges (_requesting (after 1000))).*1) = seqZ 1 60.
Proof.
  assert (@run world false (events 1000) new = Some (after 1000)) as Hr by (vm_compute; reflexivity).
  assert (_future (_completion (after 1000)) = Some (indexed true)) as Hf by (vm_compute; reflexivity).
  split; [exact Hf|]. split; [vm_compute; reflexivity|]. split; [vm_compute; reflexivity|].
  destruct (indexed_exactly (W := world) false (events 1000) (after 1000) Hr Hf) as (_ & Hc & Ht).
  split; [exact Hc|]. apply Ht; decided.
Defined.

End IndexerExample.
