(* ===== verification/IndexerAnswers.v ===== *)
(** The indexer gets to its answer: it is never left with nothing that can go
    on, and each of the steps it is led by leaves less to do. *)

From S2P Require Import Prelude MapBackend StateDelta.
From S2P Require Import ResourceMeter.
From S2P Require Import ChainTypes Indexer IndexerTheorems.
Import Chain Indexer.

Section Answering.
Context `{W : !IndexerWorld} (verify : bool).

(** ** Going on

    Until the future holds an answer, the indexer has an errand, which is to
    stop, or it goes on: there is a task on blocks, or one that starts or ends
    the work; the requests are somewhere; and blocks that are staged will be
    moved. *)

Definition errand (s : indexer) : Prop := stop ∈ stop_work (_completion s) ∨ handle_error ∈ stop_work (_completion s).

Definition going (s : indexer) : Prop :=
  (block_work (_applying s) ≠ [] ∨ prepare_index ∈ request_work (_requesting s) ∨
    complete_synchronized ∈ request_work (_requesting s)) ∧
  (_request_processing_complete (_requesting s) = true ∨ (∃ t, t ∈ request_work (_requesting s) ∧ t ≠ drain_staged) ∨
    _response_active (_staging s) ≠ None ∨ posting (block_work (_applying s)) ≠ None) ∧
  (_response_active (_staging s) ≠ None → drain_staged ∈ request_work (_requesting s) ∨ _block_queue (_applying s) ≠ [] ∨
    ∃ b, block_work (_applying s) = [drain_pulled b]).

Definition flags (s : indexer) : Prop :=
  _closing (_completion s) = true ∨ _request_queue_closed (_requesting s) = true ∨ _block_queue_closed (_applying s) = true ∨
  close_request_queue ∈ stop_work (_completion s) ∨ close_block_queue ∈ stop_work (_completion s) ∨
  cancel_retry ∈ stop_work (_completion s).

Record live (s : indexer) : Prop := {
  live_promise : _complete (_completion s) = true ↔ _future (_completion s) = None;
  live_stopped : _stopped (_completion s) = true → _complete (_completion s) = false;
  live_flags : flags s → _stopped (_completion s) = true;
  live_going : _future_retrieved (_completion s) = true → _complete (_completion s) = true → errand s ∨ going s
}.

(** What a task leaves alone: it may only have the future hold [true], or ask
    for a stop. *)
Definition kept (s s' : indexer) : Prop :=
  let c := _completion s in let c' := _completion s' in
  (_stopped c' = _stopped c ∧ _future_retrieved c' = _future_retrieved c ∧ _closing c' = _closing c ∧
   _request_queue_closed (_requesting s') = _request_queue_closed (_requesting s) ∧
   _block_queue_closed (_applying s') = _block_queue_closed (_applying s)) ∧
  ((_complete c' = _complete c ∧ _future c' = _future c ∧
     (stop_work c' = stop_work c ∨ stop_work c' = stop_work c ++ [handle_error])) ∨
   (_complete c = true ∧ _complete c' = false ∧ _future c' = Some (indexed true) ∧ stop_work c' = stop_work c)).

Lemma kept_refl s : kept s s.
Proof. split; [done|]. by left; split_and!; [..|left]. Qed.

Lemma kept_trans_quiet s1 s2 s3 : kept s1 s2 → kept s2 s3 →
  stop_work (_completion s2) = stop_work (_completion s1) → _complete (_completion s2) = _complete (_completion s1) →
  _future (_completion s2) = _future (_completion s1) → kept s1 s3.
Proof.
  intros [Ha _] [Hc Hd] H1 H2 H3. split; [destruct_and?; split_and!; congruence|]. by rewrite H1, H2, H3 in Hd.
Qed.

Ltac keeps := unfold kept; simpl; split; [by split_and!|]; first
  [by left; split_and!; [..|left] | by left; split_and!; [..|right] | by right; split_and!].

Lemma resolve_kept s : kept s (resolve_value s).
Proof. unfold resolve_value. destruct (_complete _) eqn:Hc; [destruct (_stopped _) eqn:Hs|]; simpl; [apply kept_refl| |apply kept_refl]. keeps. Qed.

Lemma drain_kept s o s' : drain_response_blocks s = (o, s') → kept s s'.
Proof.
  unfold drain_response_blocks. intros Hd. repeat case_match; simplify_eq; try apply kept_refl; keeps.
Qed.

Lemma run_request_kept t s s' : run_request t s = Some s' → kept s s'.
Proof.
  destruct t; simpl; intros Hr.
  - injection Hr as <-. unfold run_prepare. repeat case_match; try apply kept_refl; keeps.
  - repeat case_match; simplify_eq. apply resolve_kept.
  - injection Hr as <-. unfold run_send, ask. repeat case_match; simplify_eq; try apply kept_refl; keeps.
  - unfold run_push in Hr. repeat case_match; simplify_eq; try apply kept_refl; keeps.
  - unfold run_process in Hr. repeat case_match; simplify_eq; try apply kept_refl; keeps.
  - injection Hr as <-. unfold run_stage. repeat case_match; simplify_eq; try apply kept_refl; keeps.
  - destruct (drain_response_blocks s) as [[[h b]|] s1] eqn:Hd; simplify_eq; pose proof (drain_kept _ _ _ Hd); done.
  - injection Hr as <-. unfold run_post. repeat case_match; simplify_eq; try apply kept_refl; keeps.
Qed.

Lemma finish_indexing_kept s s1 : kept s s1 → stop_work (_completion s1) = stop_work (_completion s) →
  _complete (_completion s1) = _complete (_completion s) → _future (_completion s1) = _future (_completion s) → kept s (finish_indexing s1).
Proof.
  intros Hk H1 H2 H3. eapply kept_trans_quiet; [done| |done..]. unfold finish_indexing. destruct (head_height _); [apply resolve_kept|]. keeps.
Qed.

Lemma run_block_kept t s s' : run_block verify t s = Some s' → kept s s'.
Proof.
  destruct t; simpl; intros Hr.
  - injection Hr as <-. unfold run_process_block. repeat case_match; try apply kept_refl; keeps.
  - repeat case_match; simplify_eq. unfold run_finish, call_controller. repeat case_match; simplify_eq; try apply kept_refl;
      first [keeps | apply finish_indexing_kept; [first [apply kept_refl|keeps]|done..]].
  - injection Hr as <-. unfold run_pull. repeat case_match; try apply kept_refl; keeps.
  - destruct (drain_response_blocks s) as [[[h b']|] s1] eqn:Hd; simplify_eq; pose proof (drain_kept _ _ _ Hd); done.
  - injection Hr as <-. unfold run_post. repeat case_match; keeps.
  - repeat case_match; simplify_eq. unfold run_apply, call_controller. repeat case_match; simplify_eq; try apply kept_refl; keeps.
  - injection Hr as <-. keeps.
Qed.

Lemma live_kept s s' : live s → kept s s' →
  (_future_retrieved (_completion s) = true → _complete (_completion s) = true → _complete (_completion s') = true →
   errand s ∨ going s → errand s' ∨ going s') → live s'.
Proof.
  intros [Hp Hs Hf Hg] [(H1 & H2 & H3 & H4 & H5) Hc] Hgo. constructor.
  - destruct Hc as [(-> & -> & _)|(_ & -> & -> & _)]; done.
  - rewrite H1. intros Hst. specialize (Hs Hst). destruct Hc as [(-> & _)|(? & -> & _)]; congruence.
  - rewrite H1. intros Hfl. apply Hf. unfold flags in *. rewrite H3, H4, H5 in Hfl.
    destruct Hc as [(_ & _ & [He|He])|(_ & _ & _ & He)]; rewrite He in Hfl; try done.
    rewrite !elem_of_app, !list_elem_of_singleton in Hfl. naive_solver.
  - rewrite H2. intros Hr Hco. apply Hgo; try done.
    + destruct Hc as [(Hc & _)|(_ & Hc & _)]; congruence.
    + apply Hg; [done|]. destruct Hc as [(Hc & _)|(_ & Hc & _)]; congruence.
Qed.

Lemma errand_kept s s' : kept s s' → errand s → errand s'.
Proof.
  unfold errand. intros [_ [(_ & _ & [->| ->])|(_ & _ & _ & ->)]] He; try done. rewrite !elem_of_app. naive_solver.
Qed.

Lemma errand_later s : errand (later_stop handle_error s).
Proof. right. simpl. apply elem_of_app. right. by left. Qed.

Lemma fill_left staged queue x l queue' : fill staged queue = (x :: l, queue') → queue' ≠ [].
Proof.
  revert queue. induction staged as [|y staged IH]; intros queue; simpl; [done|].
  case_bool_decide as Hb; [|by apply IH]. intros [= -> -> <-] ->. simpl in Hb. unfold block_queue_size in Hb. lia.
Qed.

(** Moving staged blocks leaves none, or a full queue. *)
Lemma drain_going s o s' : _block_queue_closed (_applying s) = false → drain_response_blocks s = (o, s') →
  _request_processing_complete (_requesting s') = _request_processing_complete (_requesting s) ∧
  match o with
  | Some _ => _response_active (_staging s') = None ∧ _response_active (_staging s) ≠ None
  | None => _response_active (_staging s') = _response_active (_staging s) ∧
      (_response_active (_staging s) ≠ None → _block_queue (_applying s') ≠ [])
  end.
Proof.
  unfold drain_response_blocks. intros Hcl. rewrite Hcl. destruct (_response_active (_staging s)) as [[h b]|] eqn:Ha; [|by intros [= <- <-]].
  destruct (fill _ _) as [[|x l] queue] eqn:Hf; intros [= <- <-]; [done|]. split; [done|]. split; [done|].
  intros _. simpl. by eapply fill_left.
Qed.

Lemma request_going s p n t i s' :
  request_work (_requesting s) ≡ₚ replicate n drain_staged ++ request_part p →
  core verify s p (block_work (_applying s)) (stop_work (_completion s)) → request_work (_requesting s) !! i = Some t →
  run_request t (set_requesting (with_request_work (delete i (request_work (_requesting s))) (_requesting s)) s) = Some s' →
  _stopped (_completion s) = false → _request_queue_closed (_requesting s) = false → _block_queue_closed (_applying s) = false →
  _complete (_completion s) = true → _complete (_completion s') = true → going s → errand s' ∨ going s'.
Proof.
  intros Hl Hc Hi. set (s0 := set_requesting _ s). intros Hr Hst Hrq Hbq Hco Hco' (Ga & Gb & Gc).
  assert (∀ x, x ∈ request_work (_requesting s) → x = drain_staged ∨ p = at_request x) as Honly.
  { intros x Hx. rewrite Hl in Hx. apply elem_of_app in Hx as [Hx|Hx]; [apply elem_of_replicate in Hx as [-> _]; by left|].
    right. destruct p; simpl in Hx; try (by apply not_elem_of_nil in Hx). apply list_elem_of_singleton in Hx. by subst. }
  assert (∀ x, x ∈ request_work (_requesting s) → x ≠ t → x ∈ delete i (request_work (_requesting s))) as Hrest.
  { intros x Hx Hne. pose proof (delete_Permutation _ _ _ Hi) as Hd. rewrite Hd in Hx. by apply elem_of_cons in Hx as [?|?]. }
  destruct (work_removed _ _ _ _ _ Hl Hi) as [(m & -> & Hd)|[-> Hd]].
  - simpl in Hr. destruct (drain_response_blocks s0) as [o s1] eqn:Hdr.
    destruct (drain_going s0 o s1 Hbq Hdr) as [H1 H2].
    assert (same_work s0 s1) as (Hrw & Hbw & _).
    { unfold drain_response_blocks in Hdr. repeat case_match; simplify_eq; done. }
    right. destruct o as [[h b]|]; simplify_eq.
    + destruct H2 as [H2 H3]. split; [|split].
      * simpl. rewrite Hbw, Hrw. simpl. destruct Ga as [?|[Hx|Hx]]; [by left|right; left|right; right];
          apply elem_of_app; left; by apply Hrest.
      * right. left. exists (post_next h b). simpl. split; [|done]. apply elem_of_app. right. by left.
      * simpl. by rewrite H2.
    + destruct H2 as [H2 H3]. split; [|split].
      * rewrite Hbw, Hrw. simpl. destruct Ga as [?|[Hx|Hx]]; [by left|right; left|right; right]; by apply Hrest.
      * rewrite H1, H2, Hbw, Hrw. simpl. destruct Gb as [?|[(x & Hx & Hne)|[?|?]]]; [by left|right; left|by right; right; left|by right; right; right].
        exists x. split; [by apply Hrest|done].
      * rewrite H2. simpl. intros Ha. right. left. by apply H3.
  - assert (_response_active (_staging s) = None) as Ha by (by destruct Hc).
    assert (t ≠ prepare_index → t ≠ complete_synchronized → block_work (_applying s) ≠ []) as Hbw.
    { intros H1 H2. destruct Ga as [?|[Hx|Hx]]; [done| |]; destruct (Honly _ Hx) as [?|[= ?]]; congruence. }
    assert (∀ x r, x ≠ drain_staged → x ∈ r ++ [x] ∧ x ≠ drain_staged) as Hlast
      by (intros x r Hx; split; [apply elem_of_app; right; by left|done]).
    destruct t; simpl in Hr.
    + injection Hr as <-. revert Hco'. unfold run_prepare. simpl. rewrite Hst.
      destruct highest_block as [| | | | |tt]; try (intros _; left; apply errand_later).
      destruct (head_height _) as [h|]; [|intros _; left; apply errand_later].
      destruct (h <? topo_height tt); intros _; right; split; [left|split| |split].
      * simpl. by destruct (block_work (_applying s)).
      * right. left. exists (send_requests h 50). by apply Hlast.
      * simpl. congruence.
      * right. right. by apply Hlast.
      * right. left. exists complete_synchronized. by apply Hlast.
      * simpl. congruence.
    + simpl in Hr. destruct (_closing _); [done|]. simplify_eq. unfold resolve_value in Hco'. simpl in Hco'. rewrite Hco, Hst in Hco'. done.
    + injection Hr as <-. unfold run_send, ask. simpl. rewrite Hst.
      destruct (_ <? _); [destruct (blocks_by_height _ _); [left; apply errand_later|..]|];
        (right; split; [left; by apply Hbw|]; split; [right; left; eexists; by apply Hlast|simpl; congruence]).
    + unfold run_push in Hr. simpl in Hr. rewrite Hrq in Hr. case_bool_decide; simplify_eq. right.
      split; [left; by apply Hbw|]. split; [right; left; eexists; by apply Hlast|simpl; congruence].
    + unfold run_process in Hr. simpl in Hr. rewrite Hst, Hrq in Hr. right.
      destruct (_request_queue _); [destruct (_requests_complete _); [|done]|]; simplify_eq; (split; [left; by apply Hbw|]).
      * split; [by left|simpl; congruence].
      * split; [right; left; eexists; by apply Hlast|simpl; congruence].
    + injection Hr as <-. unfold run_stage. simpl. destruct r; try (left; apply errand_later).
      destruct (_staging s) as [[|] [|]]; try (left; apply errand_later).
      right. split; [left; by apply Hbw|]. split; [by right; right; left|]. intros _. left. simpl. apply elem_of_app. right. by left.
    + by destruct Hc.
    + injection Hr as <-. unfold run_post. simpl. rewrite Hst. right.
      split; [left; by apply Hbw|]. split; [right; left; eexists; by apply Hlast|simpl; congruence].
Qed.

Lemma block_going s p t s' :
  core verify s p (block_work (_applying s)) (stop_work (_completion s)) → block_work (_applying s) = [t] →
  run_block verify t (set_applying (with_block_work [] (_applying s)) s) = Some s' →
  _stopped (_completion s) = false → _block_queue_closed (_applying s) = false →
  _complete (_completion s) = true → _complete (_completion s') = true → going s → errand s' ∨ going s'.
Proof.
  intros Hc Hw. set (s0 := set_applying _ s). intros Hr Hst Hbq Hco Hco' (_ & Gb & Gc).
  assert (∀ s1 t', _requesting s1 = _requesting s → _staging s1 = _staging s → _block_queue (_applying s1) = _block_queue (_applying s) →
    block_work (_applying s1) = [] → posting [t] = None → (∀ b, t ≠ drain_pulled b) → errand (later_block t' s1) ∨ going (later_block t' s1)) as Hsame.
  { intros s1 t' H1 H2 H3 H4 Hpo Hdr. right. split; [left; simpl; by rewrite H4|]. split.
    - simpl. rewrite H1, H2. destruct Gb as [?|[?|[?|Hp]]]; [by left|by right; left|by right; right; left|by rewrite Hw in Hp].
    - simpl. rewrite H1, H2, H3. intros Ha. destruct (Gc Ha) as [?|[?|[b Hb]]]; [by left|by right; left|].
      rewrite Hw in Hb. injection Hb as ->. by destruct (Hdr b). }
  destruct t; simpl in Hr.
  - injection Hr as <-. unfold run_process_block. simpl. rewrite Hst.
    destruct (_request_processing_complete _); [destruct (_block_queue _) eqn:Hq|]; by apply Hsame.
  - destruct (_closing _); [done|]. injection Hr as <-. revert Hco'. unfold run_finish, finish_indexing. simpl. rewrite Hst.
    assert (∀ s1, _completion s1 = _completion s → _complete (_completion (resolve_value s1)) = true →
      errand (resolve_value s1) ∨ going (resolve_value s1)) as Hres
      by (intros s1 H1; unfold resolve_value; rewrite H1, Hst, Hco; done).
    destruct (_pending_item _); [unfold call_controller; simpl; destruct (call_result _ _); [|intros _; left; apply errand_later]|];
      (simpl; destruct (head_height _); [by apply Hres|intros _; left; apply errand_later]).
  - injection Hr as <-. unfold run_pull. simpl. rewrite Hbq, Hst. destruct (_block_queue (_applying s)) as [|b rest] eqn:Hq; [by apply Hsame|].
    right. split; [by left|]. split; [|intros _; right; right; by exists b].
    simpl. destruct Gb as [?|[?|[?|Hp]]]; [by left|by right; left|by right; right; left|by rewrite Hw in Hp].
  - destruct (drain_response_blocks s0) as [o s1] eqn:Hd.
    destruct (drain_going s0 o s1 Hbq Hd) as [H1 H2].
    assert (same_work s0 s1) as (Hrw & Hbw & _) by (unfold drain_response_blocks in Hd; repeat case_match; simplify_eq; done).
    right. destruct o as [[h m]|]; simplify_eq; destruct H2 as [H2 H3].
    + split; [left; simpl; by rewrite Hbw|]. split; [by right; right; right; simpl; rewrite Hbw|]. simpl. by rewrite H2.
    + split; [left; simpl; by rewrite Hbw|]. split.
      * simpl. rewrite H1, H2, Hrw. simpl. destruct Gb as [?|[?|[?|Hp]]]; [by left|by right; left|by right; right; left|by rewrite Hw in Hp].
      * simpl. rewrite H2. simpl. intros Ha. right. left. by apply H3.
  - injection Hr as <-. unfold run_post. simpl. rewrite Hst. right. split; [by left|]. split.
    + right. left. exists (send_requests last_height batch_size). simpl. split; [|done]. apply elem_of_app. right. by left.
    + simpl. pose proof (core_post _ _ _ _ _ Hc) as Hpo. rewrite (core_active _ _ _ _ _ Hc). rewrite Hw in Hpo. by destruct p.
  - destruct (_closing _); [done|]. injection Hr as <-. unfold run_apply. simpl. rewrite Hst. unfold call_controller.
    destruct verify; [|destruct (_pending_item _)]; simpl;
      repeat match goal with |- context [call_result ?a ?b] => destruct (call_result a b) end;
      first [by apply Hsame | left; apply errand_later].
  - injection Hr as <-. by apply Hsame.
Qed.

(** ** Every run *)

Lemma stop_live s t i s' : live s → stop_work (_completion s) !! i = Some t →
  run_stop t (set_completion (with_stop_work (delete i (stop_work (_completion s))) (_completion s)) s) = Some s' → live s'.
Proof.
  intros [Hp Hs Hf Hg] Hi. pose proof (list_elem_of_lookup_2 _ _ _ Hi) as Hin.
  assert (∀ x, x ∈ delete i (stop_work (_completion s)) → x ∈ stop_work (_completion s)) as Hdel
    by (intros x Hx; by eapply elem_of_sublist, sublist_delete).
  assert (∀ a, a ≠ indexed true → begin_stop a (set_completion (with_stop_work (delete i (stop_work (_completion s))) (_completion s)) s) = Some s' → live s') as Hbegin.
  { intros a Ha. unfold begin_stop. simpl. destruct (_closing _) eqn:Hcl; [done|]. destruct (_stopped _) eqn:Hst; intros [= <-].
    - specialize (Hs eq_refl). constructor; simpl; [done|done|done|congruence].
    - constructor; simpl; [|done|done|done]. split; [done|]. destruct (_complete _) eqn:Hco; [done|]. intros Hfu. by apply Hp in Hfu. }
  destruct t; simpl.
  - by apply Hbegin.
  - by apply Hbegin.
  - intros [= <-]. assert (_stopped (_completion s) = true) as Hst by (apply Hf; unfold flags; tauto).
    constructor; simpl; [done|done|done|]. rewrite (Hs Hst). done.
  - intros [= <-]. assert (_stopped (_completion s) = true) as Hst by (apply Hf; unfold flags; tauto).
    constructor; simpl; [done|done|done|]. rewrite (Hs Hst). done.
  - intros [= <-]. assert (_stopped (_completion s) = true) as Hst by (apply Hf; unfold flags; tauto).
    constructor; simpl; [done|done|done|]. rewrite (Hs Hst). done.
Qed.

Lemma live_clear s : live s → _complete (_completion s) = true →
  _stopped (_completion s) = false ∧ _closing (_completion s) = false ∧ _request_queue_closed (_requesting s) = false ∧
  _block_queue_closed (_applying s) = false.
Proof.
  intros [_ Hs Hf _] Hco. assert (_stopped (_completion s) = false) as Hst
    by (destruct (_stopped (_completion s)); [by rewrite Hs in Hco|done]).
  split; [done|]. unfold flags in Hf. rewrite Hst in Hf. split_and!; apply not_true_is_false; intros Ht; naive_solver.
Qed.

Lemma step_live e s s' : invariant verify s → live s → step verify e s = Some s' → live s'.
Proof.
  intros (p & n & Hl & Hc) Hlive. destruct e as [| |i|i|i]; simpl.
  - unfold index. destruct (_ || _ || _) eqn:Hg; [done|]. intros [= <-].
    apply orb_false_iff in Hg as [Hg Hcl]. apply orb_false_iff in Hg as [Hco Hr]. apply negb_false_iff in Hco.
    destruct Hlive as [Hp Hs Hf _]. constructor; simpl; [done|done|done|]. intros _ _. right.
    destruct (core_idle _ _ _ _ _ Hc Hr) as (-> & _). pose proof (core_active _ _ _ _ _ Hc) as Ha. simpl in Ha. split; [|split].
    + right. left. simpl. apply elem_of_app. right. by left.
    + right. left. exists prepare_index. simpl. split; [|done]. apply elem_of_app. right. by left.
    + simpl. congruence.
  - intros [= <-]. destruct Hlive as [Hp Hs Hf _]. constructor; simpl; [done|done| |].
    + unfold flags in *. simpl. rewrite !elem_of_app, !list_elem_of_singleton. naive_solver.
    + intros _ _. left. left. simpl. apply elem_of_app. right. by left.
  - destruct (request_work _ !! i) as [t|] eqn:Hi; [|done]. simpl. intros Hr.
    assert (kept s s') as Hk by (exact (run_request_kept _ _ _ Hr)).
    apply (live_kept s); [done|done|]. intros Hre Hco Hco' [He|Hgo]; [left; by eapply errand_kept|].
    destruct (live_clear s Hlive Hco) as (H1 & H2 & H3 & H4). by eapply request_going.
  - destruct (block_work _ !! i) as [t|] eqn:Hi; [|done]. simpl. intros Hr.
    assert (block_work (_applying s) = [t] ∧ i = 0%nat) as [Hb ->].
    { destruct Hc. destruct (block_work (_applying s)) as [|x [|]]; simpl in *; [done| |lia]. by destruct i; simplify_eq/=. }
    assert (kept s s') as Hk by (exact (run_block_kept _ _ _ Hr)).
    apply (live_kept s); [done|done|]. intros Hre Hco Hco' [He|Hgo]; [left; by eapply errand_kept|].
    destruct (live_clear s Hlive Hco) as (H1 & H2 & H3 & H4). rewrite Hb in Hr. simpl in Hr. by eapply block_going.
  - destruct (stop_work _ !! i) as [t|] eqn:Hi; [|done]. by eapply stop_live.
Qed.

Lemma new_live : live new.
Proof.
  constructor; simpl; [done|done| |done]. unfold flags. simpl. intros [?|[?|[?|[Hx|[Hx|Hx]]]]]; try done; by apply not_elem_of_nil in Hx.
Qed.

Lemma run_live es s s' : invariant verify s → live s → run verify es s = Some s' → live s'.
Proof.
  revert s. induction es as [|e es IH]; intros s Hs Hl; simpl; [by intros [= <-]|].
  destruct (step verify e s) as [s1|] eqn:He; [|done]. apply IH; [by eapply step_invariant|by eapply step_live].
Qed.

(** ** What is left to do

    In the order of their weight: how far the requests are, the tasks on
    requests, the blocks to be pulled, and the task on blocks. *)

Definition remaining (target h : Z) : nat := 8 * Z.to_nat (target - h).

Definition task_cost (target : Z) (complete : bool) (made : list controller_call) (t : request_task) : nat :=
  match t with
  | prepare_index =>
    match highest_block, head_height made with response t, Some h => remaining (topo_height t) h + 3 | _, _ => 2 end
  | complete_synchronized => 1
  | send_requests h _ => remaining target h + 2
  | push_request h b _ => remaining target (u64 (h + b)) + 7
  | process_requests h b => if complete then 1 else remaining target (u64 (h + b)) + 6
  | stage_response h b _ => remaining target (u64 (h + b)) + 5
  | drain_staged => 0
  | post_next h _ => remaining target h + 3
  end.

Definition tasks_cost (s : indexer) : nat :=
  sum_list_with (task_cost (height_of_target s) (_requests_complete (_requesting s)) (calls (_applying s)))
    (request_work (_requesting s)).

Definition request_cost (s : indexer) : nat :=
  tasks_cost s +
  match _response_active (_staging s) with Some (h, b) => remaining (height_of_target s) (u64 (h + b)) + 4 | None => 0 end +
  match posting (block_work (_applying s)) with Some (h, _) => remaining (height_of_target s) h + 3 | None => 0 end.

Definition block_cost (s : indexer) : nat := length (_block_queue (_applying s)) + length (_response_blocks (_staging s)).

Definition rank (s : indexer) (t : block_task) : nat :=
  match t with
  | drain_pulled _ => 8
  | post_pulled _ _ _ => 7
  | apply_pulled _ => 6
  | pull_block => match _block_queue (_applying s) with [] => 5 | _ => 2 end
  | wait_retry => 4
  | process_block => 3
  | finish => 1
  end.
Definition task_rank (s : indexer) : nat := sum_list_with (rank s) (block_work (_applying s)).

Definition tasks (s : indexer) : nat := length (request_work (_requesting s)).

Definition less (s' s : indexer) : Prop :=
  (request_cost s' < request_cost s)%nat ∨
  request_cost s' = request_cost s ∧ ((tasks s' < tasks s)%nat ∨
    tasks s' = tasks s ∧ ((block_cost s' < block_cost s)%nat ∨
      block_cost s' = block_cost s ∧ (task_rank s' < task_rank s)%nat)).

Lemma less_ind (P : indexer → Prop) : (∀ s, (∀ s', less s' s → P s') → P s) → ∀ s, P s.
Proof.
  intros H s. remember (request_cost s) as a eqn:Ha. revert s Ha.
  induction a as [a IHa] using lt_wf_ind. intros s. remember (tasks s) as b eqn:Hb. revert s Hb.
  induction b as [b IHb] using lt_wf_ind. intros s. remember (block_cost s) as c eqn:Hc. revert s Hc.
  induction c as [c IHc] using lt_wf_ind. intros s. remember (task_rank s) as d eqn:Hd. revert s Hd.
  induction d as [d IHd] using lt_wf_ind. intros s Hd Hc Hb Ha. apply H.
  intros s' [Hl|(H1 & [Hl|(H2 & [Hl|(H3 & Hl)])])].
  - by eapply (IHa (request_cost s')); [lia|].
  - by eapply (IHb (tasks s')); [lia| |lia].
  - by eapply (IHc (block_cost s')); [lia| |lia|lia].
  - by eapply (IHd (task_rank s')); [lia| |lia|lia|lia].
Qed.

Definition ranged (s : indexer) : Prop := 0 ≤ _start_height s ∧ height_of_target s < 2 ^ 63.

(** A position that was asked for is below the target, and the one after it is
    nearer. *)
Lemma last_sent_nearer s p w q h b a : ranged s → core verify s p w q → last_sent s h b a →
  0 ≤ h < height_of_target s ∧ 0 < b ≤ 1000.
Proof.
  intros [Hs Ht] Hc (l & e & He & Hp & _). destruct (core_plan _ _ _ _ _ Hc) as [_ Hb].
  assert (length l < count s)%nat as Hl by (unfold count; rewrite He, length_app; simpl; lia).
  destruct (position_bounds (_start_height s) (height_of_target s) (length l) Hs Ht) as (H1 & H2 & _); [intros j Hj; apply Hb; lia|].
  specialize (Hb _ Hl). rewrite Hp in *. simpl in *. lia.
Qed.

Lemma next_at_nearer s p w q h b : ranged s → core verify s p w q → next_at s h b → h < height_of_target s →
  0 ≤ h ∧ 0 < b ≤ 1000 ∧ u64 (h + b) = h + b.
Proof.
  intros [Hs Ht] Hc [Hp _] Hh. destruct (core_plan _ _ _ _ _ Hc) as [_ Hb].
  destruct (position_bounds (_start_height s) (height_of_target s) (count s) Hs Ht Hb) as (H1 & H2 & _).
  rewrite Hp in *. simpl in *. rewrite u64_small by lia. lia.
Qed.

Lemma sum_drains target complete made l : (∀ x, x ∈ l → x = drain_staged) → sum_list_with (task_cost target complete made) l = 0%nat.
Proof.
  induction l as [|x l IH]; intros Hl; [done|]. simpl. rewrite (Hl x) by (by left). simpl. apply IH. intros y Hy. apply Hl. by right.
Qed.

(** Moving staged blocks. *)
Lemma drain_cost s o s' : (length (_block_queue (_applying s)) ≤ block_queue_size)%nat → drain_response_blocks s = (o, s') →
  same_work s s' ∧ height_of_target s' = height_of_target s ∧
  _requests_complete (_requesting s') = _requests_complete (_requesting s) ∧ calls (_applying s') = calls (_applying s) ∧
  block_cost s' = block_cost s ∧
  match o with
  | None => _response_active (_staging s') = _response_active (_staging s)
  | Some (h, b) => _response_active (_staging s') = None ∧
      ∃ h' b', _response_active (_staging s) = Some (h', b') ∧ h = u64 (h' + b')
  end.
Proof.
  intros Hq. unfold drain_response_blocks. destruct (_response_active (_staging s)) as [[h b]|] eqn:Ha; [|by intros [= <- <-]].
  destruct (if _block_queue_closed (_applying s) then _ else _) as [staged queue] eqn:Hf.
  assert (length queue + length staged = length (_block_queue (_applying s)) + length (_response_blocks (_staging s)))%nat as Hlen.
  { destruct (_block_queue_closed _); [by simplify_eq|].
    destruct (fill_spec (_response_blocks (_staging s)) (_block_queue (_applying s)) Hq) as [H1 _]. rewrite Hf in H1. simpl in H1.
    apply (f_equal length) in H1. rewrite !length_app in H1. done. }
  destruct staged as [|x staged]; intros [= <- <-]; (do 4 (split; [done|])); unfold block_cost; simpl in *; (split; [done|]).
  - split; [done|]. by exists h, b.
  - done.
Qed.

Lemma cost_single s rest l : request_work (_requesting s) = rest ++ l → (∀ x, x ∈ rest → x = drain_staged) →
  _response_active (_staging s) = None → posting (block_work (_applying s)) = None →
  request_cost s = sum_list_with (task_cost (height_of_target s) (_requests_complete (_requesting s)) (calls (_applying s))) l.
Proof.
  intros H1 H2 H3 H4. unfold request_cost, tasks_cost. rewrite H1, H3, H4, sum_list_with_app, sum_drains by done. lia.
Qed.

Definition forward (s' s : indexer) : Prop := _complete (_completion s') = false ∨ errand s' ∨ less s' s.

(** With the requests at the first task. *)
Lemma task_progress s t rest : request_work (_requesting s) = t :: rest → (∀ x, x ∈ rest → x = drain_staged) →
  core verify s (at_request t) (block_work (_applying s)) (stop_work (_completion s)) → ranged s →
  _stopped (_completion s) = false → _closing (_completion s) = false → _complete (_completion s) = true →
  ∃ s', run_request t (set_requesting (with_request_work rest (_requesting s)) s) = Some s' ∧ forward s' s.
Proof.
  intros Hw Hrest Hc Hrg Hst Hcl Hco. pose proof (core_active _ _ _ _ _ Hc) as Ha. pose proof (core_post _ _ _ _ _ Hc) as Hp.
  pose proof (core_requests _ _ _ _ _ Hc) as Hrs. simpl in Ha, Hp.
  assert (request_cost s = task_cost (height_of_target s) (_requests_complete (_requesting s)) (calls (_applying s)) t) as Hcost.
  { unfold request_cost, tasks_cost. rewrite Hw, Ha, Hp. simpl. rewrite sum_drains by done. lia. }
  assert (∀ s1 t', request_work (_requesting s1) = rest → _response_active (_staging s1) = None → posting (block_work (_applying s1)) = None →
    (task_cost (height_of_target s1) (_requests_complete (_requesting s1)) (calls (_applying s1)) t' <
     task_cost (height_of_target s) (_requests_complete (_requesting s)) (calls (_applying s)) t)%nat →
    forward (later_request t' s1) s) as Hnext.
  { intros s1 t' H1 H2 H3 H4. right. right. left. rewrite Hcost. erewrite (cost_single _ rest [t']); [|by simpl; rewrite H1|done..].
    cbn [sum_list_with]. rewrite Nat.add_0_r. exact H4. }
  assert (∀ s1, request_work (_requesting s1) = rest → _response_active (_staging s1) = None → posting (block_work (_applying s1)) = None →
    (0 < task_cost (height_of_target s) (_requests_complete (_requesting s)) (calls (_applying s)) t)%nat → forward s1 s) as Hend.
  { intros s1 H1 H2 H3 H4. right. right. left. rewrite Hcost, (cost_single _ rest []); [|by rewrite app_nil_r|done..]. simpl. lia. }
  assert (∀ s1 t', request_work (_requesting s1) = rest → _response_active (_staging s1) = None → posting (block_work (_applying s1)) = None →
    height_of_target s1 = height_of_target s →
    (task_cost (height_of_target s) (_requests_complete (_requesting s1)) (calls (_applying s1)) t' <
     task_cost (height_of_target s) (_requests_complete (_requesting s)) (calls (_applying s)) t)%nat →
    forward (later_request t' s1) s) as Hsame by (intros s1 t' H1 H2 H3 H4 H5; apply Hnext; try done; by rewrite H4).
  assert (∀ s1, forward (later_stop handle_error s1) s) as Herr by (intros s1; right; left; apply errand_later).
  destruct t; simpl run_request.
  - eexists. split; [done|]. unfold run_prepare. simpl. rewrite Hst. destruct Hrs as [(He & Hca & _) Hbw]. simpl in Hnext, Hcost.
    destruct highest_block as [| | | | |t] eqn:Hhb; try done. rewrite Hca. destruct (head_height []) as [h|] eqn:Hh; [|done].
    rewrite Hca, Hh in Hcost. rewrite Hca, Hh in Hnext.
    destruct (Z.ltb_spec h (topo_height t)).
    + right. right. left. rewrite Hcost, (cost_single _ rest [send_requests h 50]); [|done|done|done|by simpl; rewrite Hbw].
      simpl. unfold height_of_target. simpl. lia.
    + apply Hnext; [done|done|done|]. simpl. lia.
  - rewrite Hcl. eexists. split; [done|]. left. unfold resolve_value. simpl. by rewrite Hco, Hst.
  - eexists. split; [done|]. unfold run_send. simpl. rewrite Hst. destruct Hrs as (Hn & Hq & Hrc).
    destruct (Z.ltb_spec last_height (height_of_target s)) as [Hlt|Hge].
    + change (height_of_target (set_requesting _ s)) with (height_of_target s).
      rewrite (proj2 (Z.ltb_lt _ _) Hlt).
      destruct (next_at_nearer _ _ _ _ _ _ Hrg Hc Hn Hlt) as (H1 & H2 & H3).
      assert (remaining (height_of_target s) (u64 (last_height + batch_size)) + 7 < remaining (height_of_target s) last_height + 2)%nat as Hless
        by (rewrite H3; unfold remaining; lia).
      unfold ask. destruct (blocks_by_height _ _); [done|..]; (apply Hsame; [done|done|done|done|exact Hless]).
    + change (height_of_target (set_requesting _ s)) with (height_of_target s).
      rewrite (proj2 (Z.ltb_ge _ _) Hge). apply Hsame; [done|done|done|done|]. simpl. lia.
  - destruct Hrs as (_ & Hq & _). unfold run_push. simpl. rewrite Hq. simpl.
    destruct (_request_queue_closed _).
    + eexists. split; [done|]. apply Hend; [done|done|done|simpl; lia].
    + eexists. split; [done|]. apply Hsame; [done|done|done|done|]. simpl. destruct (_requests_complete _); lia.
  - unfold run_process. simpl. rewrite Hst. destruct Hrs as [(Hrc & a & _ & Hq)|(Hrc & _ & _ & Hq)]; rewrite Hq; [|rewrite Hrc].
    + eexists. split; [done|]. apply Hsame; [done|done|done|done|]. simpl. rewrite Hrc. lia.
    + eexists. split; [done|]. apply Hend; [done|done|done|]. simpl. rewrite Hrc. lia.
  - eexists. split; [done|]. unfold run_stage. destruct r; try done. simpl.
    destruct (_staging s) as [[|x l] [|]]; try done.
    right. right. left. rewrite Hcost. unfold request_cost, tasks_cost, height_of_target. simpl. rewrite Hp, sum_list_with_app, sum_drains by done. simpl. lia.
  - done.
  - eexists. split; [done|]. unfold run_post. simpl. rewrite Hst. apply Hsame; [done|done|done|done|]. simpl. lia.
Qed.

Lemma drain_progress s rest : request_work (_requesting s) = drain_staged :: rest →
  (length (_block_queue (_applying s)) ≤ block_queue_size)%nat →
  ∃ s', run_request drain_staged (set_requesting (with_request_work rest (_requesting s)) s) = Some s' ∧ forward s' s.
Proof.
  intros Hw Hq. simpl. destruct (drain_response_blocks _) as [o s1] eqn:Hd.
  destruct (drain_cost (set_requesting (with_request_work rest (_requesting s)) s) o s1 Hq Hd) as ((Hrw & Hbw & _) & Ht & Hrc & Hca & _ & Ho).
  simpl in Hrw, Hbw, Hrc, Hca, Ho. change (height_of_target (set_requesting _ s)) with (height_of_target s) in Ht.
  destruct o as [[h b]|]; (eexists; split; [done|]).
  - destruct Ho as (Ha & h' & b' & Ha' & ->). right. right. left. unfold request_cost, tasks_cost.
    change (height_of_target (later_request _ s1)) with (height_of_target s1). simpl.
    rewrite Hw, Hrw, Hbw, Hrc, Hca, Ha, Ha', Ht, sum_list_with_app. simpl. lia.
  - right. right. right. split.
    + unfold request_cost, tasks_cost. by rewrite Hw, Hrw, Hbw, Hrc, Hca, Ho, Ht.
    + left. unfold tasks. rewrite Hw, Hrw. simpl. lia.
Qed.

(** The task on blocks, where there is none on requests. *)
Lemma block_progress s t p : request_work (_requesting s) = [] → block_work (_applying s) = [t] →
  core verify s p (block_work (_applying s)) (stop_work (_completion s)) → going s →
  _stopped (_completion s) = false → _closing (_completion s) = false → _block_queue_closed (_applying s) = false →
  _complete (_completion s) = true →
  ∃ s', run_block verify t (set_applying (with_block_work [] (_applying s)) s) = Some s' ∧ forward s' s.
Proof.
  intros Hr Hw Hc (_ & Gb & Gc) Hst Hcl Hbq Hco.
  assert (posting [t] = None → _block_queue (_applying s) = [] → (∀ b, t ≠ drain_pulled b) →
    _request_processing_complete (_requesting s) = true) as Hempty.
  { intros Hp Hq Hd. rewrite Hr, Hw in *. destruct Gb as [?|[(x & Hx & _)|[Ha|?]]]; [done|by apply not_elem_of_nil in Hx| |congruence].
    destruct (Gc Ha) as [Hx|[?|[b Hb]]]; [by apply not_elem_of_nil in Hx|done|]. injection Hb as ->. by destruct (Hd b). }
  assert (∀ s1 t', request_work (_requesting s1) = [] → block_work (_applying s1) = [] → height_of_target s1 = height_of_target s →
    _response_active (_staging s1) = _response_active (_staging s) → posting [t] = None → posting [t'] = None →
    (block_cost s1 < block_cost s ∨ block_cost s1 = block_cost s ∧ rank (later_block t' s1) t' < rank s t)%nat →
    forward (later_block t' s1) s) as Hnext.
  { intros s1 t' H1 H2 H3 H4 H5 H6 H7. right. right. right. split.
    - unfold request_cost, tasks_cost. change (height_of_target (later_block t' s1)) with (height_of_target s1).
      change (request_work (_requesting (later_block t' s1))) with (request_work (_requesting s1)).
      change (block_work (_applying (later_block t' s1))) with (block_work (_applying s1) ++ [t']).
      change (_staging (later_block t' s1)) with (_staging s1). rewrite H1, H2, H3, H4, Hr, Hw. cbn [app]. by rewrite H5, H6.
    - right. split; [unfold tasks; simpl; by rewrite H1, Hr|].
      unfold task_rank. change (block_cost (later_block t' s1)) with (block_cost s1).
      change (block_work (_applying (later_block t' s1))) with (block_work (_applying s1) ++ [t']). rewrite H2, Hw.
      cbn [sum_list_with app]. rewrite !Nat.add_0_r. destruct H7 as [?|[? ?]]; [by left|by right]. }
  assert (∀ s1, forward (later_stop handle_error s1) s) as Herr by (intros s1; right; left; apply errand_later).
  assert (∀ s1, _completion s1 = _completion s → forward (finish_indexing s1) s) as Hfin.
  { intros s1 H1. unfold finish_indexing. destruct (head_height _); [|done]. left. unfold resolve_value. by rewrite H1, Hco, Hst. }
  destruct t; simpl run_block.
  - eexists. split; [done|]. unfold run_process_block. simpl. rewrite Hst.
    destruct (_block_queue (_applying s)) as [|b l] eqn:Hq.
    + rewrite Hempty by done. apply Hnext; try done. right. split; [done|]. simpl. lia.
    + destruct (_request_processing_complete _); (apply Hnext; try done; right; split; [done|simpl; rewrite Hq; lia]).
  - rewrite Hcl. eexists. split; [done|]. unfold run_finish. simpl. rewrite Hst.
    destruct (_pending_item _); [|by apply Hfin]. unfold call_controller. simpl. destruct (call_result _ _); [by apply Hfin|done].
  - eexists. split; [done|]. unfold run_pull. simpl. rewrite Hbq, Hst. destruct (_block_queue (_applying s)) as [|b rest] eqn:Hq.
    + apply Hnext; try done. right. split; [done|]. simpl. rewrite Hq. lia.
    + apply Hnext; try done. left. unfold block_cost. simpl. rewrite Hq. simpl. lia.
  - destruct (drain_response_blocks _) as [o s1] eqn:Hd.
    destruct (drain_cost (set_applying (with_block_work [] (_applying s)) s) o s1 (core_bound _ _ _ _ _ Hc) Hd)
      as ((Hrw & Hbw & _) & Ht & _ & _ & Hbc & Ho).
    simpl in Hrw, Hbw, Ho. change (height_of_target (set_applying _ s)) with (height_of_target s) in Ht.
    change (block_cost (set_applying _ s)) with (block_cost s) in Hbc.
    destruct o as [[h m]|]; (eexists; split; [done|]).
    + destruct Ho as (Ha & h' & b' & Ha' & ->). right. right. left. unfold request_cost, tasks_cost.
      change (height_of_target (later_block _ s1)) with (height_of_target s1). simpl.
      rewrite Hr, Hrw, Hbw, Hw, Ha, Ha', Ht, Hr. simpl. lia.
    + apply Hnext; try done; [by rewrite Hrw|]. right. split; [done|]. simpl. lia.
  - eexists. split; [done|]. unfold run_post. simpl. rewrite Hst. pose proof (core_active _ _ _ _ _ Hc) as Ha.
    pose proof (core_post _ _ _ _ _ Hc) as Hp. rewrite Hw in Hp. simpl in Hp. assert (active_part p = None) as Hap by (by destruct p).
    rewrite Hap in Ha. right. right. left. unfold request_cost, tasks_cost.
    change (height_of_target (later_block _ _)) with (height_of_target s). simpl. rewrite Hr, Hw, Ha. simpl. lia.
  - rewrite Hcl. eexists. split; [done|]. unfold run_apply. simpl. rewrite Hst. unfold call_controller.
    destruct verify; [|destruct (_pending_item _)]; simpl;
      repeat match goal with |- context [call_result ?a ?b] => destruct (call_result a b) end;
      first [done | apply Hnext; try done; right; split; [done|simpl; lia]].
  - eexists. split; [done|]. apply Hnext; try done. right. split; [done|]. simpl. lia.
Qed.

(** ** The answer *)

Section Heights.
Hypothesis target_small : ∀ t, highest_block = response t → topo_height t < 2 ^ 63.
Hypothesis head_nonneg : ∀ made h, head_height made = Some h → 0 ≤ h.

Definition place_kept (s s' : indexer) : Prop := _target_head s' = _target_head s ∧ _start_height s' = _start_height s.

Lemma ranged_kept s s' : ranged s → place_kept s s' → ranged s'.
Proof. intros [H1 H2] [H3 H4]. unfold ranged, height_of_target. by rewrite H3, H4. Qed.

Lemma drain_place s o s' : drain_response_blocks s = (o, s') → place_kept s s'.
Proof. unfold drain_response_blocks. intros. repeat case_match; by simplify_eq. Qed.

Lemma request_ranged t s s' : ranged s → run_request t s = Some s' → ranged s'.
Proof.
  intros Hs Hr. assert (t = prepare_index ∨ t ≠ prepare_index) as [->|Hne] by (destruct t; first [by left | by right]).
  - injection Hr as <-. unfold run_prepare. repeat case_match; try done; (split; simpl; [by eauto|]); unfold height_of_target; simpl;
      first [by apply target_small | done].
  - apply (ranged_kept s); [done|]. destruct t; simpl in Hr; try done.
    + repeat case_match; simplify_eq. unfold resolve_value. by repeat case_match.
    + injection Hr as <-. unfold run_send, ask. repeat case_match; by simplify_eq.
    + unfold run_push in Hr. repeat case_match; by simplify_eq.
    + unfold run_process in Hr. repeat case_match; by simplify_eq.
    + injection Hr as <-. unfold run_stage. by repeat case_match.
    + destruct (drain_response_blocks s) as [[[h b]|] s1] eqn:Hd; simplify_eq; by pose proof (drain_place _ _ _ Hd).
    + injection Hr as <-. unfold run_post. by repeat case_match.
Qed.

Lemma block_place t s s' : run_block verify t s = Some s' → place_kept s s'.
Proof.
  destruct t; simpl; intros Hr.
  - injection Hr as <-. unfold run_process_block. by repeat case_match.
  - repeat case_match; simplify_eq. unfold run_finish, call_controller, finish_indexing, resolve_value. repeat case_match; by simplify_eq.
  - injection Hr as <-. unfold run_pull. by repeat case_match.
  - destruct (drain_response_blocks s) as [[[h b']|] s1] eqn:Hd; simplify_eq; by pose proof (drain_place _ _ _ Hd).
  - injection Hr as <-. unfold run_post. by repeat case_match.
  - repeat case_match; simplify_eq. unfold run_apply, call_controller. repeat case_match; by simplify_eq.
  - by injection Hr as <-.
Qed.

Lemma step_ranged e s s' : ranged s → step verify e s = Some s' → ranged s'.
Proof.
  intros Hs. destruct e as [| |i|i|i]; simpl.
  - unfold index. by repeat case_match; intros; simplify_eq.
  - by intros [= <-].
  - destruct (request_work _ !! i); [|done]. simpl. intros Hr. by eapply request_ranged, Hr.
  - destruct (block_work _ !! i); [|done]. simpl. intros Hr. eapply ranged_kept; [|by eapply block_place]. done.
  - destruct (stop_work _ !! i) as [t|]; [|done]. destruct t; simpl; unfold begin_stop; repeat case_match; intros; by simplify_eq.
Qed.

Lemma run_ranged es s s' : ranged s → run verify es s = Some s' → ranged s'.
Proof.
  revert s. induction es as [|e es IH]; intros s Hs; simpl; [by intros [= <-]|].
  destruct (step verify e s) as [s1|] eqn:He; [|done]. apply IH. by eapply step_ranged.
Qed.

Definition own (e : event) : Prop := match e with call_index | call_stop => False | _ => True end.

Definition answered (s : indexer) : Prop := ∃ es s', Forall own es ∧ run verify es s = Some s' ∧ _future (_completion s') ≠ None.

Lemma answered_step e s s' : own e → step verify e s = Some s' → answered s' → answered s.
Proof.
  intros He Hs (es & s2 & H1 & H2 & H3). exists (e :: es), s2. split; [by constructor|]. simpl. by rewrite Hs.
Qed.

Lemma errand_answered s : live s → errand s → _complete (_completion s) = true → answered s.
Proof.
  intros Hl He Hco. destruct (live_clear s Hl Hco) as (Hst & Hcl & _).
  assert (∃ i t, stop_work (_completion s) !! i = Some t ∧ (t = stop ∨ t = handle_error)) as (i & t & Hi & Ht).
  { destruct He as [He|He]; apply list_elem_of_lookup_1 in He as [i Hi]; eauto. }
  assert (∃ s', step verify (stop_step i) s = Some s' ∧ _future (_completion s') ≠ None) as (s' & Hs & Hf).
  { simpl. rewrite Hi. simpl. destruct Ht as [-> | ->]; simpl; unfold begin_stop; simpl; rewrite Hst, Hcl, Hco; by eexists. }
  apply (answered_step (stop_step i) s s'); [done|done|]. exists [], s'. done.
Qed.

(** The next step of an indexer that goes on. *)
Lemma going_step s : invariant verify s → live s → ranged s → going s → _complete (_completion s) = true →
  ∃ e s', own e ∧ step verify e s = Some s' ∧ forward s' s.
Proof.
  intros (p & n & Hl & Hc) Hlive Hrg Hgo Hco. destruct (live_clear s Hlive Hco) as (Hst & Hcl & _ & Hbq).
  destruct (request_work (_requesting s)) as [|t rest] eqn:Hw.
  - destruct (block_work (_applying s)) as [|t w] eqn:Hb.
    { destruct Hgo as ([?|[Hx|Hx]] & _); [done| |]; rewrite Hw in Hx; by apply not_elem_of_nil in Hx. }
    assert (w = []) as -> by (pose proof (core_one _ _ _ _ _ Hc) as H1; destruct w; simpl in *; [done|lia]).
    rewrite <-Hb in Hc. destruct (block_progress s t p) as (s' & Hs & Hf); try done.
    exists (block_step 0), s'. split; [done|]. split; [|done]. simpl. by rewrite Hb.
  - rewrite <-Hw in Hl. assert (request_work (_requesting s) !! 0%nat = Some t) as Hi by (by rewrite Hw).
    assert (∃ s', run_request t (set_requesting (with_request_work rest (_requesting s)) s) = Some s' ∧ forward s' s) as (s' & Hs & Hf).
    { destruct (work_removed _ _ _ _ _ Hl Hi) as [(m & -> & _)|[-> Hd]].
      - apply drain_progress; [done|]. apply (core_bound _ _ _ _ _ Hc).
      - apply task_progress; try done. rewrite Hw in Hd. simpl in Hd. intros x Hx. rewrite Hd in Hx. by apply elem_of_replicate in Hx as [-> _]. }
    exists (request_step 0), s'. split; [done|]. split; [|done]. simpl. by rewrite Hw.
Qed.

Lemma own_retrieved e s s' : own e → step verify e s = Some s' →
  _future_retrieved (_completion s') = _future_retrieved (_completion s).
Proof.
  destruct e as [| |i|i|i]; try done; intros _; simpl.
  - destruct (request_work _ !! i); [|done]. simpl. intros Hr. by destruct (run_request_kept _ _ _ Hr) as [(_ & -> & _) _].
  - destruct (block_work _ !! i); [|done]. simpl. intros Hr. by destruct (run_block_kept _ _ _ Hr) as [(_ & -> & _) _].
  - destruct (stop_work _ !! i) as [t|]; [|done]. destruct t; simpl; unfold begin_stop; repeat case_match; intros; by simplify_eq.
Qed.

Lemma all_answered s : invariant verify s → live s → ranged s → _future_retrieved (_completion s) = true → answered s.
Proof.
  induction s as [s IH] using less_ind. intros Hinv Hl Hrg Hre.
  assert (∀ s1, live s1 → _complete (_completion s1) = false → answered s1) as Hdone.
  { intros s1 H1 H2. exists [], s1. split; [constructor|]. split; [done|]. intros Hf. apply (live_promise s1 H1) in Hf. congruence. }
  destruct (_complete (_completion s)) eqn:Hco; [|by apply Hdone].
  destruct (live_going s Hl Hre Hco) as [He|Hgo]; [by apply errand_answered|].
  destruct (going_step s Hinv Hl Hrg Hgo Hco) as (e & s' & He & Hs & Hf). apply (answered_step e s s'); [done|done|].
  pose proof (step_live _ _ _ Hinv Hl Hs) as Hl'.
  destruct (_complete (_completion s')) eqn:Hco'; [|by apply Hdone].
  destruct Hf as [Hf|[Hf|Hf]]; [congruence|by apply errand_answered|].
  apply IH; [done|by eapply step_invariant|done|by eapply step_ranged|]. by rewrite (own_retrieved e s s').
Qed.

(** C13. From whatever point a run has come to after [index()], with whatever
    answers of the block store and the controller, the indexer gets to its
    answer by tasks of its own: it never waits for a lock, a queue or a timer
    that nothing will release, and it need not go on for ever. *)
Theorem index_answers es s : run verify es new = Some s → _future_retrieved (_completion s) = true →
  ∃ es' s', Forall own es' ∧ run verify es' s = Some s' ∧ _future (_completion s') ≠ None.
Proof.
  intros Hr Hre. apply all_answered; [|by eapply run_live, Hr; [apply new_invariant|apply new_live]| |done].
  - by eapply run_invariant, Hr; apply new_invariant.
  - by eapply run_ranged, Hr; split.
Qed.

End Heights.
End Answering.

(** ** An example *)

Import IndexerExample.

Lemma index_answers_witness :
  _future (_completion (after 100)) = None ∧
  ∃ es' s', Forall own es' ∧ @run world false es' (after 100) = Some s' ∧ _future (_completion s') ≠ None.
Proof.
  split; [vm_compute; reflexivity|].
  refine (index_answers (W := world) false _ _ (events 100) (after 100) _ _).
  - intros t [= <-]. simpl. lia.
  - intros made h [= <-]. lia.
  - vm_compute. reflexivity.
  - vm_compute. reflexivity.
Defined.
