(* ===== verification/ExecutionContext.v ===== *)
(** The execution context, [src/src/koinos/chain/execution_context.cpp], the
    object spaces of [state.cpp], and the ids of the thunks that
    [system_calls.cpp] registers.

    An execution is a program over a [machine]: the heap of deltas, the
    modules that the virtual machine caches, and the context. *)

From S2P Require Import Prelude Keys MapBackend StateDelta StateNode MergeIterator ObjectIteration.
From S2P Require Import Session.
From S2P Require Import Chronicler.
From S2P Require Import ResourceMeter.
From S2P Require Import ChainTypes.

(** ** The thunks *)

Module SystemCallId.

(** [chain::system_call_id]: the ids that have a thunk. *)
Inductive system_call_id : Type :=
| get_head_info
| apply_block
| apply_transaction
| apply_upload_contract_operation
| apply_call_contract_operation
| apply_set_system_call_operation
| apply_set_system_contract_operation
| pre_block_callback
| post_block_callback
| pre_transaction_callback
| post_transaction_callback
| get_chain_id
| process_block_signature
| get_transaction
| get_transaction_field
| get_block
| get_block_field
| get_last_irreversible_block
| get_account_nonce
| verify_account_nonce
| set_account_nonce
| check_system_authority
| get_operation
| get_account_rc
| consume_account_rc
| get_resource_limits
| consume_block_resources
| put_object
| remove_object
| get_object
| get_next_object
| get_prev_object
| log
| event
| hash
| recover_public_key
| verify_merkle_root
| verify_signature
| verify_vrf_proof
| call
| exit
| get_arguments
| get_contract_id
| get_caller
| check_authority
| nop.

#[global] Instance system_call_id_eq_dec : EqDecision system_call_id.
Proof. solve_decision. Defined.

(** Every thunk but [nop] is registered as a genesis thunk. *)
Definition is_genesis (i : system_call_id) : bool := match i with nop => false | _ => true end.

End SystemCallId.

(** The numbers and the names of the ids, from the generated enumeration;
    [id_of_number] finds the thunk registered at a number. *)
Class SystemCallIds := {
  number : SystemCallId.system_call_id → Z;
  id_of_number : Z → option SystemCallId.system_call_id;
  enum_name : Z → option bytes
}.

Class SystemCallIdsLaws `{!SystemCallIds} := {
  id_of_number_of i : id_of_number (number i) = Some i;
  number_of_id n i : id_of_number n = Some i → number i = n;
  enum_name_of i : is_Some (enum_name (number i))
}.

(** The numbers of [chain::system_space_id]. *)
Inductive system_space : Type := contract_bytecode | contract_metadata | system_call_dispatch | metadata | transaction_nonce.

Class SystemSpaces := { space_number : system_space → Z }.
Class SystemSpacesLaws `{!SystemSpaces} := { space_number_inj :: Inj (=) (=) space_number }.

(** [ParseFromString] of a [FileDescriptorSet]. *)
Class Descriptors := { parse_descriptors : bytes → bool }.

(** All that an execution takes from outside the repository. *)
Class Outside := {
  outside_crypto :: Crypto;
  outside_keys :: DatabaseKeys;
  outside_converter :: Converter;
  outside_int128 :: ResourceMeter.Int128;
  outside_exceptions :: Chain.Exceptions;
  outside_conversions :: Chain.Conversions;
  outside_cryptography :: Chain.ChainCrypto;
  outside_ids :: SystemCallIds;
  outside_spaces :: SystemSpaces;
  outside_descriptors :: Descriptors
}.

Module ExecutionContext.
Import StateDelta StateNode Chain.

Record stack_frame := mk_stack_frame {
  contract_id : bytes;
  sid : Z;
  call_privilege : privilege;
  call_args : bytes;
  entry_point : Z
}.

(** [stack_frame{ .sid = sid, .call_privilege = kernel_mode }]. *)
Definition kernel_frame (sid : Z) : stack_frame := mk_stack_frame [] sid kernel_mode [] 0.

Record execution_result := mk_execution_result { result_code : Z; res : result }.

Inductive intent : Type := read_only | block_application | transaction_application | block_proposal.

#[global] Instance intent_eq_dec : EqDecision intent.
Proof. solve_decision. Defined.

(** [system_call_cache_bundle] or [thunk_cache_bundle]. *)
Inductive cache_bundle : Type :=
| system_call_cache_bundle (contract_id contract_bytecode : bytes) (entry_point : Z) (meta : contract_metadata_object)
| thunk_cache_bundle (thunk_id : Z) (is_override : bool).

Record execution_context_cache := mk_execution_context_cache {
  compute_bandwidth : option (gmap bytes Z);
  descriptor_pool_ : option bytes;
  system_call_table : gmap Z cache_bundle;
  block_hash_code_ : option Z
}.

(** The meter and the chronicler hold the session of the transaction by weak
    pointers: each has its own part of it. *)
Record execution_context := mk_execution_context {
  _stack : list stack_frame;
  _current_state_node : option abstract_state_node;
  _parent_state_node : option abstract_state_node;
  _block : option block;
  _trx : option transaction;
  _op : option operation;
  _mempool_nonce : option value_type;
  _resource_meter : ResourceMeter.metering;
  _chronicler : Chronicler.chronicler;
  _intent : intent;
  _receipt : receipt;
  _cache : execution_context_cache;
  _result : execution_result;
  _failed_transaction_indices : list Z
}.

(** The modules of the virtual machine's cache by id, the last used first. *)
Abbreviation module_cache := (list (bytes * bytes)).

Record machine := mk_machine { heap_ : heap; modules : module_cache; ctx : execution_context }.

Abbreviation M := (prog machine exn).

(** *** Updates of one field *)

Definition set_ctx (f : execution_context → execution_context) (s : machine) : machine :=
  mk_machine (heap_ s) (modules s) (f (ctx s)).

Definition with_stack (x : list stack_frame) (c : execution_context) : execution_context :=
  mk_execution_context x (_current_state_node c) (_parent_state_node c) (_block c) (_trx c) (_op c)
    (_mempool_nonce c) (_resource_meter c) (_chronicler c) (_intent c) (_receipt c) (_cache c) (_result
    c) (_failed_transaction_indices c).
Definition with_current_state_node (x : option abstract_state_node) (c : execution_context) : execution_context :=
  mk_execution_context (_stack c) x (_parent_state_node c) (_block c) (_trx c) (_op c) (_mempool_nonce
    c) (_resource_meter c) (_chronicler c) (_intent c) (_receipt c) (_cache c) (_result c)
    (_failed_transaction_indices c).
Definition with_parent_state_node (x : option abstract_state_node) (c : execution_context) : execution_context :=
  mk_execution_context (_stack c) (_current_state_node c) x (_block c) (_trx c) (_op c)
    (_mempool_nonce c) (_resource_meter c) (_chronicler c) (_intent c) (_receipt c) (_cache c) (_result
    c) (_failed_transaction_indices c).
Definition with_block (x : option block) (c : execution_context) : execution_context :=
  mk_execution_context (_stack c) (_current_state_node c) (_parent_state_node c) x (_trx c) (_op c)
    (_mempool_nonce c) (_resource_meter c) (_chronicler c) (_intent c) (_receipt c) (_cache c) (_result
    c) (_failed_transaction_indices c).
Definition with_trx (x : option transaction) (c : execution_context) : execution_context :=
  mk_execution_context (_stack c) (_current_state_node c) (_parent_state_node c) (_block c) x (_op c)
    (_mempool_nonce c) (_resource_meter c) (_chronicler c) (_intent c) (_receipt c) (_cache c) (_result
    c) (_failed_transaction_indices c).
Definition with_op (x : option operation) (c : execution_context) : execution_context :=
  mk_execution_context (_stack c) (_current_state_node c) (_parent_state_node c) (_block c) (_trx c) x
    (_mempool_nonce c) (_resource_meter c) (_chronicler c) (_intent c) (_receipt c) (_cache c) (_result
    c) (_failed_transaction_indices c).
Definition with_mempool_nonce (x : option value_type) (c : execution_context) : execution_context :=
  mk_execution_context (_stack c) (_current_state_node c) (_parent_state_node c) (_block c) (_trx c)
    (_op c) x (_resource_meter c) (_chronicler c) (_intent c) (_receipt c) (_cache c) (_result c)
    (_failed_transaction_indices c).
Definition with_resource_meter (x : ResourceMeter.metering) (c : execution_context) : execution_context :=
  mk_execution_context (_stack c) (_current_state_node c) (_parent_state_node c) (_block c) (_trx c)
    (_op c) (_mempool_nonce c) x (_chronicler c) (_intent c) (_receipt c) (_cache c) (_result c)
    (_failed_transaction_indices c).
Definition with_chronicler (x : Chronicler.chronicler) (c : execution_context) : execution_context :=
  mk_execution_context (_stack c) (_current_state_node c) (_parent_state_node c) (_block c) (_trx c)
    (_op c) (_mempool_nonce c) (_resource_meter c) x (_intent c) (_receipt c) (_cache c) (_result c)
    (_failed_transaction_indices c).
Definition with_intent (x : intent) (c : execution_context) : execution_context :=
  mk_execution_context (_stack c) (_current_state_node c) (_parent_state_node c) (_block c) (_trx c)
    (_op c) (_mempool_nonce c) (_resource_meter c) (_chronicler c) x (_receipt c) (_cache c) (_result c)
    (_failed_transaction_indices c).
Definition with_receipt (x : receipt) (c : execution_context) : execution_context :=
  mk_execution_context (_stack c) (_current_state_node c) (_parent_state_node c) (_block c) (_trx c)
    (_op c) (_mempool_nonce c) (_resource_meter c) (_chronicler c) (_intent c) x (_cache c) (_result c)
    (_failed_transaction_indices c).
Definition with_cache (x : execution_context_cache) (c : execution_context) : execution_context :=
  mk_execution_context (_stack c) (_current_state_node c) (_parent_state_node c) (_block c) (_trx c)
    (_op c) (_mempool_nonce c) (_resource_meter c) (_chronicler c) (_intent c) (_receipt c) x (_result
    c) (_failed_transaction_indices c).
Definition with_result (x : execution_result) (c : execution_context) : execution_context :=
  mk_execution_context (_stack c) (_current_state_node c) (_parent_state_node c) (_block c) (_trx c)
    (_op c) (_mempool_nonce c) (_resource_meter c) (_chronicler c) (_intent c) (_receipt c) (_cache c) x
    (_failed_transaction_indices c).
Definition with_failed_transaction_indices (x : list Z) (c : execution_context) : execution_context :=
  mk_execution_context (_stack c) (_current_state_node c) (_parent_state_node c) (_block c) (_trx c)
    (_op c) (_mempool_nonce c) (_resource_meter c) (_chronicler c) (_intent c) (_receipt c) (_cache c)
    (_result c) x.

Section Context_.
Context `{!Outside}.

Definition no_cache : execution_context_cache := mk_execution_context_cache None None ∅ None.

Definition new (i : intent) : execution_context :=
  mk_execution_context [] None None None None None None ResourceMeter.new Chronicler.new i no_receipt no_cache
    (mk_execution_result 0 no_result) [].

(** *** Lifting *)

Definition gets_ctx {A} (f : execution_context → A) : M A := gets_state (λ s, f (ctx s)).
Definition mod_ctx (f : execution_context → execution_context) : M unit := mod_state (set_ctx f).

Definition raise_ {A} (n : exception_name) (template : bytes) (args : list (bytes * bytes)) : M A :=
  raise (exception n template args).

(** [KOINOS_ASSERT]. *)
Definition koinos_assert (b : bool) (n : exception_name) (template : bytes) (args : list (bytes * bytes)) : M unit :=
  if b then mret tt else raise_ n template args.

Definition of_state_db (e : MapBackend.exn) : exn :=
  match e with null_dereference => NullDereference | e => exception (state_db_exception e) [] [] end.

(** A call of a state node. *)
Definition on_heap {A} (m : prog heap MapBackend.exn A) : M A := λ s,
  match m (heap_ s) with
  | (Ok a, h) => (Ok a, mk_machine h (modules s) (ctx s))
  | (Throw e, h) => (Throw (of_state_db e), mk_machine h (modules s) (ctx s))
  | (OutOfFuel, h) => (OutOfFuel, mk_machine h (modules s) (ctx s))
  end.

Definition of_meter (e : meter_exn) : exn :=
  exception
    match e with
    | Session.disk_storage_limit_exceeded_exception => disk_storage_limit_exceeded_exception
    | Session.network_bandwidth_limit_exceeded_exception => network_bandwidth_limit_exceeded_exception
    | Session.compute_bandwidth_limit_exceeded_exception => compute_bandwidth_limit_exceeded_exception
    | Session.insufficient_rc_exception => insufficient_rc_exception
    | Session.reversion_exception => reversion_exception
    end [] [].

(** A call of the resource meter. *)
Definition on_meter {A} (m : prog ResourceMeter.metering meter_exn A) : M A := λ s,
  let set x := set_ctx (with_resource_meter x) s in
  match m (_resource_meter (ctx s)) with
  | (Ok a, x) => (Ok a, set x)
  | (Throw e, x) => (Throw (of_meter e), set x)
  | (OutOfFuel, x) => (OutOfFuel, set x)
  end.

(** [util::converter::to< A >]. *)
Definition convert {A} (r : exn + A) : M A := match r with inl e => raise e | inr a => mret a end.

(** [m], and [cleanup] when it ends or throws: the destructor of a guard. *)
Definition finally {A} (m : M A) (cleanup : execution_context → execution_context) : M A := λ s,
  let (r, s) := m s in (r, set_ctx cleanup s).

(** The same for a program that has variables [X] of its own. *)
Definition at_machine {X A} (m : M A) : prog (machine * X) exn A := λ s, let (r, s') := m s.1 in (r, (s', s.2)).
Definition finally_with {X A} (m : prog (machine * X) exn A) (cleanup : execution_context → execution_context)
    : prog (machine * X) exn A := λ s,
  let (r, s) := m s in (r, (set_ctx cleanup s.1, s.2)).

Definition deref_node (n : option abstract_state_node) : M abstract_state_node :=
  match n with Some n => mret n | None => raise NullDereference end.

(** [parent()] of a state node and of an anonymous one. *)
Definition node_parent (n : abstract_state_node) : M (option abstract_state_node) :=
  match n with
  | StateNode l => p ← on_heap (parent l); mret (StateNode <$> p)
  | AnonymousNode p _ => mret (Some p)
  end.

(** [id()], [parent_id()] and [revision()]: an anonymous node has its parent's. *)
Definition node_id (n : abstract_state_node) : M multihash := on_heap (id (named n)).
Definition node_parent_id (n : abstract_state_node) : M multihash := on_heap (parent_id (named n)).
Definition node_revision (n : abstract_state_node) : M Z := on_heap (revision (named n)).

(** *** The state node, the block, the transaction and the operation *)

Definition set_state_node (node parent : option abstract_state_node) : M unit :=
  mod_ctx (with_current_state_node node);;
  match parent, node with
  | Some parent, _ => mod_ctx (with_parent_state_node (Some parent))
  | None, Some node => p ← node_parent node; mod_ctx (with_parent_state_node p)
  | None, None => mod_ctx (with_parent_state_node None)
  end.

Definition get_state_node : M (option abstract_state_node) := gets_ctx _current_state_node.

Definition get_parent_node : M (option abstract_state_node) :=
  gets_ctx (λ c, match _parent_state_node c with Some p => Some p | None => _current_state_node c end).

Definition clear_state_node : M unit := mod_ctx (λ c, with_parent_state_node None (with_current_state_node None c)).

Definition set_block (b : block) : M unit := mod_ctx (with_block (Some b)).
Definition set_transaction (t : transaction) : M unit := mod_ctx (with_trx (Some t)).
Definition set_operation (o : operation) : M unit := mod_ctx (with_op (Some o)).
Definition set_mempool_nonce (n : value_type) : M unit := mod_ctx (with_mempool_nonce (Some n)).

Definition with_block_guard {A} (b : block) (m : M A) : M A := finally (set_block b;; m) (with_block None).
Definition with_transaction_guard {A} (t : transaction) (m : M A) : M A :=
  finally (set_transaction t;; m) (with_trx None).
Definition with_operation_guard {A} (o : operation) (m : M A) : M A := finally (set_operation o;; m) (with_op None).

(** *** The stack, its top first *)

Definition stack_limit : Z := 256.

Definition push_frame (frame : stack_frame) : M unit :=
  stack ← gets_ctx _stack;
  koinos_assert (Z.of_nat (length stack) <? stack_limit) reversion_exception (str "apply context stack overflow") [];;
  mod_ctx (with_stack (frame :: stack)).

Definition pop_frame : M stack_frame :=
  stack ← gets_ctx _stack;
  match stack with
  | [] => raise_ internal_error_exception (str "stack is empty") []
  | frame :: stack => mod_ctx (with_stack stack);; mret frame
  end.

(** The frame below the top, that of the caller. *)
Definition caller_frame (c : execution_context) : option stack_frame := _stack c !! 1%nat.

Definition get_contract_call_args : M bytes :=
  f ← gets_ctx caller_frame;
  match f with
  | Some f => mret (call_args f)
  | None => raise_ internal_error_exception (str "stack is empty") []
  end.

Definition get_contract_entry_point : M Z :=
  f ← gets_ctx caller_frame;
  match f with
  | Some f => mret (entry_point f)
  | None => raise_ internal_error_exception (str "stack is empty") []
  end.

(** [constants::system]. *)
Definition system_ : bytes := [].

Definition get_caller (c : execution_context) : bytes :=
  match caller_frame c with Some f => contract_id f | None => system_ end.
Definition get_caller_privilege (c : execution_context) : privilege :=
  match caller_frame c with Some f => call_privilege f | None => kernel_mode end.
Definition get_caller_entry_point (c : execution_context) : Z :=
  match caller_frame c with Some f => entry_point f | None => 0 end.

Definition frame_with_privilege (p : privilege) (f : stack_frame) : stack_frame :=
  mk_stack_frame (contract_id f) (sid f) p (call_args f) (entry_point f).

Definition put_privilege (p : privilege) (c : execution_context) : execution_context :=
  match _stack c with [] => c | f :: stack => with_stack (frame_with_privilege p f :: stack) c end.

Definition get_privilege : M privilege :=
  stack ← gets_ctx _stack;
  match stack with
  | [] => raise_ internal_error_exception (str "stack empty") []
  | f :: _ => mret (call_privilege f)
  end.

Definition set_privilege (p : privilege) : M unit :=
  stack ← gets_ctx _stack;
  koinos_assert (negb (bool_decide (stack = []))) internal_error_exception (str "stack empty") [];;
  mod_ctx (put_privilege p).

Definition get_contract_id (c : execution_context) : bytes :=
  match filter (λ i, i ≠ []) (contract_id <$> _stack c) with i :: _ => i | [] => system_ end.

Definition with_stack_frame {A} (f : stack_frame) (m : M A) : M A :=
  push_frame f;; finally m (λ c, with_stack (tail (_stack c)) c).

Definition with_privilege {A} (p : privilege) (m : M A) : M A :=
  old ← get_privilege;
  set_privilege p;;
  finally m (put_privilege old).

(** *** Sessions and receipts *)

Definition read_only_ (c : execution_context) : bool := bool_decide (_intent c = read_only).

Definition make_session (rc : Z) : M unit :=
  let session := Session.new (i64 rc) in
  on_meter (ResourceMeter.set_session (Some session));;
  mod_ctx (λ c, with_chronicler (Chronicler.set_session (Some session) (_chronicler c)) c).

(** The last [shared_ptr] to the session goes away. *)
Definition drop_session (c : execution_context) : execution_context :=
  with_chronicler (Chronicler.set_session None (_chronicler c))
    (with_resource_meter (ResourceMeter.mk_metering (ResourceMeter.meter (_resource_meter c)) None) c).

Definition use_disk_storage (n : Z) : M unit := on_meter (ResourceMeter.use_disk_storage n).
Definition use_network_bandwidth (n : Z) : M unit := on_meter (ResourceMeter.use_network_bandwidth n).
Definition use_compute_bandwidth (n : Z) : M unit := on_meter (ResourceMeter.use_compute_bandwidth n).

Definition set_receipt (r : receipt) : M unit := mod_ctx (with_receipt r).
Definition set_result (r : execution_result) : M unit := mod_ctx (with_result r).

Definition add_failed_transaction_index (i : Z) : M unit :=
  mod_ctx (λ c, with_failed_transaction_indices (_failed_transaction_indices c ++ [i]) c).

(** *** Object spaces, [state.cpp] *)

Definition kernel_zone : bytes := [].
Definition space_of (s : system_space) : object_space := mk_object_space true kernel_zone (space_number s).

Definition state_key (name : bytes) : bytes := as_multihash (hash (str "object_key::" ++ name)).
Definition key_head_block : bytes := state_key (str "head_block").
Definition key_chain_id : bytes := state_key (str "chain_id").
Definition key_genesis_key : bytes := state_key (str "genesis_key").
Definition key_resource_limit_data : bytes := state_key (str "resource_limit_data").
Definition key_max_account_resources : bytes := state_key (str "max_account_resources").
Definition key_protocol_descriptor : bytes := state_key (str "protocol_descriptor").
Definition key_compute_bandwidth_registry : bytes := state_key (str "compute_bandwidth_registry").
Definition key_block_hash_code : bytes := state_key (str "block_hash_code").

Definition assert_permissions (space : object_space) : M unit :=
  p ← gets_ctx get_caller_privilege;
  match p with
  | kernel_mode =>
    koinos_assert (system space) reversion_exception (str "privileged code can only access system space") []
  | user_mode =>
    koinos_assert (negb (system space)) insufficient_privileges_exception
      (str "user code cannot access system space") [];;
    caller ← gets_ctx get_caller;
    koinos_assert (bool_decide (zone space = caller)) reversion_exception
      (str "user code cannot access other contract space") []
  end.

(** *** The cache *)

Definition get_cache : M execution_context_cache := gets_ctx _cache.

Definition reset_cache : M unit := mod_ctx (with_cache no_cache).

(** An object of the parent node, for the cache. *)
Definition parent_object (space : object_space) (key : bytes) : M (option bytes) :=
  node ← get_parent_node;
  match node with
  | None => raise_ reversion_exception (str "cannot build execution context cache without a state node") []
  | Some node => on_heap (get_object (state_of node) space key)
  end.

Definition build_compute_registry_cache : M unit :=
  obj ← parent_object (space_of metadata) key_compute_bandwidth_registry;
  match obj with
  | None => raise_ reversion_exception (str "compute bandwidth registry does not exist") []
  | Some obj =>
    entries ← convert (to_message (A := compute_bandwidth_registry) obj);
    let table := foldl (λ m '(name, compute), <[name := compute]> m) (∅ : gmap bytes Z) entries in
    mod_ctx (λ c, with_cache (mk_execution_context_cache (Some table) (descriptor_pool_ (_cache c))
      (system_call_table (_cache c)) (block_hash_code_ (_cache c))) c)
  end.

Definition build_descriptor_pool : M unit :=
  pdesc ← parent_object (space_of metadata) key_protocol_descriptor;
  match pdesc with
  | None => raise_ reversion_exception (str "file descriptor set does not exist") []
  | Some pdesc =>
    koinos_assert (parse_descriptors pdesc) reversion_exception (str "file descriptor set is malformed") [];;
    mod_ctx (λ c, with_cache (mk_execution_context_cache (compute_bandwidth (_cache c)) (Some pdesc)
      (system_call_table (_cache c)) (block_hash_code_ (_cache c))) c)
  end.

Definition emplace_system_call (id : Z) (b : cache_bundle) : M unit :=
  mod_ctx (λ c, with_cache (mk_execution_context_cache (compute_bandwidth (_cache c)) (descriptor_pool_ (_cache c))
    (<[id := b]> (system_call_table (_cache c))) (block_hash_code_ (_cache c))) c).

Definition cache_system_call (id : Z) : M unit :=
  node ← get_parent_node;
  match node with
  | None => raise_ reversion_exception (str "cannot build execution context cache without a state node") []
  | Some _ =>
    cache ← get_cache;
    match system_call_table cache !! id with
    | Some _ => mret tt
    | None =>
      obj ← parent_object (space_of system_call_dispatch) (as_call_id id);
      match obj with
      | None => emplace_system_call id (thunk_cache_bundle id false)
      | Some obj =>
        system_call_target ← convert (to_message (A := system_call_target) obj);
        match system_call_target with
        | bundle_target contract_id entry_point =>
          contract_meta ← parent_object (space_of contract_metadata) contract_id;
          contract_code ← parent_object (space_of contract_bytecode) contract_id;
          match contract_meta with
          | None =>
            raise_ invalid_contract_exception (str "contract metadata for call id ${id} not found") [(str "id", as_call_id id)]
          | Some contract_meta =>
            match contract_code with
            | None =>
              raise_ invalid_contract_exception (str "contract bytecode for call id ${id} not found") [(str "id", as_call_id id)]
            | Some contract_code =>
              meta ← convert (to_message (A := contract_metadata_object) contract_meta);
              emplace_system_call id (system_call_cache_bundle contract_id contract_code entry_point meta)
            end
          end
        | thunk_target thunk_id => emplace_system_call id (thunk_cache_bundle thunk_id true)
        end
      end
    end
  end.

Definition build_block_hash_code_cache : M unit :=
  bhash ← parent_object (space_of metadata) key_block_hash_code;
  match bhash with
  | None => raise_ invalid_contract_exception (str "block hash code does not exist") []
  | Some bhash =>
    code ← convert (to_varint bhash);
    mod_ctx (λ c, with_cache (mk_execution_context_cache (compute_bandwidth (_cache c)) (descriptor_pool_ (_cache c))
      (system_call_table (_cache c)) (Some code)) c)
  end.

Definition get_compute_bandwidth (thunk_name : bytes) : M Z :=
  cache ← get_cache;
  (match compute_bandwidth cache with None => build_compute_registry_cache | Some _ => mret tt end);;
  cache ← get_cache;
  match compute_bandwidth cache ≫= (.!! thunk_name) with
  | Some n => mret n
  | None => raise_ reversion_exception (str "unable to find compute bandwidth for ${t}") [(str "t", thunk_name)]
  end.

Definition descriptor_pool : M bytes :=
  cache ← get_cache;
  (match descriptor_pool_ cache with None => build_descriptor_pool | Some _ => mret tt end);;
  cache ← get_cache;
  match descriptor_pool_ cache with Some p => mret p | None => raise NullDereference end.

Definition block_hash_code : M Z :=
  cache ← get_cache;
  (match block_hash_code_ cache with None => build_block_hash_code_cache | Some _ => mret tt end);;
  cache ← get_cache;
  match block_hash_code_ cache with Some c => mret c | None => raise NullDereference end.

(** *** Dispatch *)

Definition system_call_exists (id : Z) : M bool :=
  cache_system_call id;;
  cache ← get_cache;
  match system_call_table cache !! id with
  | Some (system_call_cache_bundle _ _ _ _) => mret true
  | _ => mret false
  end.

Definition thunk_is_genesis (id : Z) : bool :=
  match id_of_number id with Some i => SystemCallId.is_genesis i | None => false end.

Definition thunk_exists (id : Z) : bool := bool_decide (is_Some (id_of_number id)).

Definition thunk_translation (id : Z) : M Z :=
  cache_system_call id;;
  cache ← get_cache;
  match system_call_table cache !! id with
  | None => raise_ reversion_exception (str "unable to find call id ${id} in system call cache") [(str "id", as_call_id id)]
  | Some (system_call_cache_bundle _ _ _ _) =>
    raise_ reversion_exception (str "system call ${id} is implemented via contract override") [(str "id", as_call_id id)]
  | Some (thunk_cache_bundle thunk_id is_override) =>
    if (is_override : bool) then mret thunk_id
    else
      koinos_assert (thunk_id =? id) internal_error_exception
        (str "non-override cached thunk id ${cached} does not match id ${id}")
        [(str "cached", as_call_id thunk_id); (str "id", as_call_id id)];;
      koinos_assert (thunk_is_genesis id) unknown_thunk_exception (str "thunk ${id} is not enabled") [(str "id", as_call_id id)];;
      mret id
  end.

(** [execution_context::system_call]: the call runs the contract that
    overrides it, with [run] the virtual machine. *)
Definition system_call (run : bytes → bytes → M unit) (id : Z) (args : bytes) : M execution_result :=
  try_catch
    (cache_system_call id;;
     cache ← get_cache;
     match system_call_table cache !! id with
     | None => raise_ reversion_exception (str "unable to find call id ${id} in system call cache") [(str "id", as_call_id id)]
     | Some (thunk_cache_bundle _ _) =>
       raise_ reversion_exception (str "system call ${id} is implemented via thunk") [(str "id", as_call_id id)]
     | Some (system_call_cache_bundle contract_id contract_code entry_point meta) =>
       with_stack_frame
         (mk_stack_frame contract_id 0 (if meta_system meta then kernel_mode else user_mode) args entry_point)
         (run contract_code (meta_hash meta))
     end)
    (λ e, match e with
          | Koinos ke => if bool_decide (class_of (name ke) = Success) then mret tt else raise e
          | _ => raise e
          end);;
  gets_ctx _result.

End Context_.
End ExecutionContext.
