(* ===== verification/ProtoUtils.v ===== *)
(** Fields of messages by their path, [src/src/koinos/chain/proto_utils.cpp],
    over the reflection of the protobuf library. *)

From S2P Require Import Prelude MapBackend StateDelta StateNode ChainTypes ExecutionContext.

(** [FieldDescriptor::Type]. *)
Inductive field_type : Type :=
| TYPE_DOUBLE | TYPE_FLOAT | TYPE_INT64 | TYPE_UINT64 | TYPE_INT32 | TYPE_FIXED64 | TYPE_FIXED32 | TYPE_BOOL
| TYPE_STRING | TYPE_GROUP | TYPE_MESSAGE | TYPE_BYTES | TYPE_UINT32 | TYPE_ENUM | TYPE_SFIXED32 | TYPE_SFIXED64
| TYPE_SINT32 | TYPE_SINT64.

#[global] Instance field_type_eq_dec : EqDecision field_type.
Proof. solve_decision. Defined.

(** Messages, descriptors and fields; a getter is given the index of a
    repeated field. [pack] wraps a message, an enumerator or a list in an
    [Any]. *)
Class Reflection := {
  reflected : Type;
  descriptor : Type;
  field_descriptor : Type;
  of_transaction : Chain.transaction → reflected;
  of_block : Chain.block → reflected;
  type_name : reflected → bytes;
  FindMessageTypeByName : bytes → bytes → option descriptor;
  FindFieldByName : descriptor → bytes → option (Z * field_type);
  FindFieldByNumber : reflected → Z → option field_descriptor;
  is_repeated : field_descriptor → bool;
  GetMessage : reflected → field_descriptor → option nat → reflected;
  FieldSize : reflected → field_descriptor → nat;
  GetInt64 : reflected → field_descriptor → option nat → Z;
  GetUInt64 : reflected → field_descriptor → option nat → Z;
  GetInt32 : reflected → field_descriptor → option nat → Z;
  GetUInt32 : reflected → field_descriptor → option nat → Z;
  GetBool : reflected → field_descriptor → option nat → bool;
  GetString : reflected → field_descriptor → option nat → bytes;
  GetEnum : reflected → field_descriptor → option nat → Z * bytes;
  pack_message : reflected → bytes;
  pack_enum : Z * bytes → bytes;
  pack_list : list Chain.value_type → bytes
}.

Module ProtoUtils.
Import Chain ExecutionContext.

Section Fields.
Context `{!Outside} `{!Reflection}.

Definition unexpected_type {A} : M A :=
  raise_ reversion_exception (str "attempted to retrieve the value of an unexpected field type") [].

Definition get_field_value (m : reflected) (f : field_descriptor) (type : field_type) : M value_type :=
  match type with
  | TYPE_INT64 => mret (int64_value (GetInt64 m f None))
  | TYPE_UINT64 => mret (uint64_value (GetUInt64 m f None))
  | TYPE_INT32 => mret (int32_value (GetInt32 m f None))
  | TYPE_FIXED64 => mret (fixed64_value (GetUInt64 m f None))
  | TYPE_FIXED32 => mret (fixed32_value (u32 (GetInt32 m f None)))
  | TYPE_BOOL => mret (bool_value (GetBool m f None))
  | TYPE_STRING => mret (string_value (GetString m f None))
  | TYPE_MESSAGE => mret (message_value (pack_message (GetMessage m f None)))
  | TYPE_BYTES => mret (bytes_value (GetString m f None))
  | TYPE_UINT32 => mret (uint32_value (GetUInt32 m f None))
  | TYPE_ENUM => mret (message_value (pack_enum (GetEnum m f None)))
  | TYPE_SFIXED32 => mret (sfixed32_value (GetInt32 m f None))
  | TYPE_SFIXED64 => mret (sfixed64_value (GetInt64 m f None))
  | TYPE_SINT32 => mret (sint32_value (GetInt32 m f None))
  | TYPE_SINT64 => mret (sint64_value (GetInt64 m f None))
  | TYPE_DOUBLE | TYPE_FLOAT | TYPE_GROUP => unexpected_type
  end.

Definition get_repeated_field_value (m : reflected) (f : field_descriptor) (type : field_type) : M value_type :=
  let list_of (v : option nat → value_type) : M value_type :=
    mret (message_value (pack_list ((λ i, v (Some i)) <$> seq 0 (FieldSize m f)))) in
  match type with
  | TYPE_INT64 => list_of (λ i, int64_value (GetInt64 m f i))
  | TYPE_UINT64 => list_of (λ i, uint64_value (GetUInt64 m f i))
  | TYPE_INT32 => list_of (λ i, int32_value (GetInt32 m f i))
  | TYPE_FIXED64 => list_of (λ i, fixed64_value (GetUInt64 m f i))
  | TYPE_FIXED32 => list_of (λ i, fixed32_value (GetUInt32 m f i))
  | TYPE_BOOL => list_of (λ i, bool_value (GetBool m f i))
  | TYPE_STRING => list_of (λ i, string_value (GetString m f i))
  | TYPE_MESSAGE => list_of (λ i, message_value (pack_message (GetMessage m f i)))
  | TYPE_BYTES => list_of (λ i, bytes_value (GetString m f i))
  | TYPE_UINT32 => list_of (λ i, uint32_value (GetUInt32 m f i))
  | TYPE_ENUM => list_of (λ i, message_value (pack_enum (GetEnum m f i)))
  | TYPE_SFIXED32 => list_of (λ i, sfixed32_value (GetInt32 m f i))
  | TYPE_SFIXED64 => list_of (λ i, sfixed64_value (GetInt64 m f i))
  | TYPE_SINT32 => list_of (λ i, sint32_value (GetInt32 m f i))
  | TYPE_SINT64 => list_of (λ i, sint64_value (GetInt64 m f i))
  | TYPE_DOUBLE | TYPE_FLOAT | TYPE_GROUP => unexpected_type
  end.

(** [boost::split] at dots. *)
Fixpoint split_dots (s : bytes) : list bytes :=
  match s with
  | [] => [[]]
  | c :: s =>
    if bool_decide (c = "."%char) then [] :: split_dots s
    else match split_dots s with [] => [[c]] | w :: l => (c :: w) :: l end
  end.

(** The loop over the path: the message that has the last field. *)
Fixpoint walk_path (path : list bytes) (pool_descriptor : option descriptor) (m : reflected)
    : M (reflected * option field_descriptor * field_type) :=
  match path with
  | [] => raise NullDereference
  | segment :: path =>
    match pool_descriptor with
    | None => raise NullDereference
    | Some d =>
      match FindFieldByName d segment with
      | None => raise_ field_not_found_exception (str "unable to find field ${fname}") [(str "fname", segment)]
      | Some (field_num, type) =>
        match FindFieldByNumber m field_num with
        | None =>
          raise_ field_not_found_exception (str "unable to find field number ${fnum} on ${type} message")
            [(str "fnum", as_call_id field_num); (str "type", type_name m)]
        | Some f =>
          match path with
          | [] => mret (m, Some f, type)
          | _ :: _ =>
            koinos_assert (bool_decide (type = TYPE_MESSAGE)) field_not_found_exception
              (str "expected nested field to be within a message") [];;
            let m := GetMessage m f None in
            pool ← descriptor_pool;
            walk_path path (FindMessageTypeByName pool (type_name m)) m
          end
        end
      end
    end
  end.

Definition get_nested_field_value (parent_message : reflected) (field_name : bytes) : M value_type :=
  pool ← descriptor_pool;
  let pool_descriptor := FindMessageTypeByName pool (type_name parent_message) in
  koinos_assert (bool_decide (is_Some (const tt <$> pool_descriptor))) internal_error_exception
    (str "${type} descriptor was not found") [(str "type", type_name parent_message)];;
  r ← walk_path (split_dots field_name) pool_descriptor parent_message;
  let '(m, f, type) := r in
  match f with
  | None => raise NullDereference
  | Some f => if is_repeated f then get_repeated_field_value m f type else get_field_value m f type
  end.

End Fields.
End ProtoUtils.
