(* ===== verification/SystemCalls.v ===== *)
(** The system calls: the thunks of [src/src/koinos/chain/system_calls.cpp].

    A thunk runs over the open recursion [sys], the system calls it makes in
    its turn, and [run], the virtual machine on a contract.  Dispatch ties the
    knot. *)

From S2P Require Import Prelude Keys MapBackend StateDelta StateNode MergeIterator ObjectIteration.
From S2P Require Import Session.
From S2P Require Import Chronicler.
From S2P Require Import ResourceMeter.
From S2P Require Import ChainTypes ExecutionContext ProtoUtils.
Import StateDelta StateNode Chain ExecutionContext.

Module SystemCall.

(** A call of a thunk by its arguments, indexed by the type of its value. *)
Inductive call : Type → Type :=
| get_head_info : call head_info
| apply_block (b : block) : call unit
| apply_transaction (trx : transaction) : call unit
| apply_upload_contract_operation (o : upload_contract_operation) : call unit
| apply_call_contract_operation (o : call_contract_operation) : call unit
| apply_set_system_call_operation (o : set_system_call_operation) : call unit
| apply_set_system_contract_operation (o : set_system_contract_operation) : call unit
| pre_block_callback : call unit
| post_block_callback : call unit
| pre_transaction_callback : call unit
| post_transaction_callback : call unit
| get_chain_id : call bytes
| process_block_signature (id : bytes) (h : block_header) (signature_data : bytes) : call bool
| get_transaction : call transaction
| get_transaction_field (field : bytes) : call value_type
| get_block : call block
| get_block_field (field : bytes) : call value_type
| get_last_irreversible_block : call Z
| get_account_nonce (account : bytes) : call bytes
| verify_account_nonce (account nonce : bytes) : call bool
| set_account_nonce (account nonce : bytes) : call unit
| check_system_authority : call bool
| get_operation : call operation
| get_account_rc (account : bytes) : call Z
| consume_account_rc (account : bytes) (rc : Z) : call bool
| get_resource_limits : call ResourceMeter.resource_limit_data
| consume_block_resources (disk network compute : Z) : call bool
| put_object (space : object_space) (key obj : bytes) : call unit
| remove_object (space : object_space) (key : bytes) : call unit
| get_object (space : object_space) (key : bytes) : call database_object
| get_next_object (space : object_space) (key : bytes) : call database_object
| get_prev_object (space : object_space) (key : bytes) : call database_object
| log (msg : bytes) : call unit
| event (name data : bytes) (impacted : list bytes) : call unit
| hash (id : Z) (obj : bytes) (size : Z) : call bytes
| recover_public_key (type : dsa) (signature_data digest : bytes) (compressed : bool) : call bytes
| verify_merkle_root (root : bytes) (hashes : list bytes) : call bool
| verify_signature (type : dsa) (public_key signature digest : bytes) (compressed : bool) : call bool
| verify_vrf_proof (type : dsa) (public_key proof hash message : bytes) : call bool
| call_ (contract_id : bytes) (entry_point : Z) (args : bytes) : call bytes
| exit (code : Z) (res : result) : call unit
| get_arguments : call argument_data
| get_contract_id : call bytes
| get_caller : call caller_data
| check_authority (x : authorization_type) (account data : bytes) : call bool
| nop : call unit.

Definition id_of {A} (c : call A) : SystemCallId.system_call_id :=
  match c with
  | get_head_info => SystemCallId.get_head_info
  | apply_block _ => SystemCallId.apply_block
  | apply_transaction _ => SystemCallId.apply_transaction
  | apply_upload_contract_operation _ => SystemCallId.apply_upload_contract_operation
  | apply_call_contract_operation _ => SystemCallId.apply_call_contract_operation
  | apply_set_system_call_operation _ => SystemCallId.apply_set_system_call_operation
  | apply_set_system_contract_operation _ => SystemCallId.apply_set_system_contract_operation
  | pre_block_callback => SystemCallId.pre_block_callback
  | post_block_callback => SystemCallId.post_block_callback
  | pre_transaction_callback => SystemCallId.pre_transaction_callback
  | post_transaction_callback => SystemCallId.post_transaction_callback
  | get_chain_id => SystemCallId.get_chain_id
  | process_block_signature _ _ _ => SystemCallId.process_block_signature
  | get_transaction => SystemCallId.get_transaction
  | get_transaction_field _ => SystemCallId.get_transaction_field
  | get_block => SystemCallId.get_block
  | get_block_field _ => SystemCallId.get_block_field
  | get_last_irreversible_block => SystemCallId.get_last_irreversible_block
  | get_account_nonce _ => SystemCallId.get_account_nonce
  | verify_account_nonce _ _ => SystemCallId.verify_account_nonce
  | set_account_nonce _ _ => SystemCallId.set_account_nonce
  | check_system_authority => SystemCallId.check_system_authority
  | get_operation => SystemCallId.get_operation
  | get_account_rc _ => SystemCallId.get_account_rc
  | consume_account_rc _ _ => SystemCallId.consume_account_rc
  | get_resource_limits => SystemCallId.get_resource_limits
  | consume_block_resources _ _ _ => SystemCallId.consume_block_resources
  | put_object _ _ _ => SystemCallId.put_object
  | remove_object _ _ => SystemCallId.remove_object
  | get_object _ _ => SystemCallId.get_object
  | get_next_object _ _ => SystemCallId.get_next_object
  | get_prev_object _ _ => SystemCallId.get_prev_object
  | log _ => SystemCallId.log
  | event _ _ _ => SystemCallId.event
  | hash _ _ _ => SystemCallId.hash
  | recover_public_key _ _ _ _ => SystemCallId.recover_public_key
  | verify_merkle_root _ _ => SystemCallId.verify_merkle_root
  | verify_signature _ _ _ _ _ => SystemCallId.verify_signature
  | verify_vrf_proof _ _ _ _ _ => SystemCallId.verify_vrf_proof
  | call_ _ _ _ => SystemCallId.call
  | exit _ _ => SystemCallId.exit
  | get_arguments => SystemCallId.get_arguments
  | get_contract_id => SystemCallId.get_contract_id
  | get_caller => SystemCallId.get_caller
  | check_authority _ _ _ => SystemCallId.check_authority
  | nop => SystemCallId.nop
  end.

End SystemCall.

Module Thunk.
Import SystemCall ProtoUtils.

Abbreviation calls := (∀ A, call A → M A).

Section Helpers.
Context `{!Outside}.

(** ** Helpers *)

Definition validate_hash_code (id : Z) : M unit :=
  koinos_assert (bool_decide (id ∈ [sha1; sha2_256; sha2_512; keccak_256; ripemd_160]))
    unknown_hash_code_exception (str "unknown hash code") [].

Definition hash_compute_keys (id : Z) : M (bytes * bytes) :=
  if id =? sha1 then mret (str "sha1_base", str "sha1_per_byte")
  else if id =? sha2_256 then mret (str "sha2_256_base", str "sha2_256_per_byte")
  else if id =? sha2_512 then mret (str "sha2_512_base", str "sha2_512_per_byte")
  else if id =? keccak_256 then mret (str "keccak_256_base", str "keccak_256_per_byte")
  else if id =? ripemd_160 then mret (str "ripemd_160_base", str "ripemd_160_per_byte")
  else raise_ unknown_hash_code_exception (str "unknown hash code") [].

(** The recursion halves the number of leaves, at most 64 times. *)
Fixpoint hashes_per_leaves_loop (fuel : nat) (leaves : Z) : Z :=
  match fuel with
  | O => 1
  | S fuel =>
    if leaves <=? 2 then 1
    else
      let even_leaves := u64 (u64 (leaves + 1) / 2 * 2) in
      if Z.land even_leaves (even_leaves - 1) =? 0 then even_leaves - 1
      else u64 (even_leaves / 2 + hashes_per_leaves_loop fuel (even_leaves / 2))
  end.

Definition hashes_per_leaves (leaves : Z) : Z := hashes_per_leaves_loop 64 leaves.

Fixpoint validate_utf_loop (fuel : nat) (s : bytes) : bool :=
  match s with
  | [] => true
  | _ => match fuel with
         | O => false
         | S fuel => match utf_decode s with None => false | Some s => validate_utf_loop fuel s end
         end
  end.

Definition validate_utf (s : bytes) : bool := validate_utf_loop (length s) s.

Definition delta_entries : M (list state_delta_entry) :=
  node ← get_state_node; node ← deref_node node; on_heap (get_delta_entries (state_of node)).

Definition meter : M ResourceMeter.metering := gets_ctx _resource_meter.

Definition generate_block_receipt (receipt : block_receipt) (b : block) (disk_charged network_charged compute_charged : Z)
    : M block_receipt :=
  m ← meter;
  chronicler ← gets_ctx _chronicler;
  entries ← delta_entries;
  mret (mk_block_receipt (block_id b) (height (header b)) (ResourceMeter.disk_storage_used m)
    (ResourceMeter.network_bandwidth_used m) (ResourceMeter.compute_bandwidth_used m) disk_charged network_charged
    compute_charged (br_state_merkle_root receipt)
    (br_events receipt ++ omap (λ e, match e.1 with None => Some e.2 | Some _ => None end) (Chronicler._events chronicler))
    (br_logs receipt ++ Chronicler._logs chronicler) (br_state_delta_entries receipt ++ entries)
    (br_transaction_receipts receipt)).

Definition generate_transaction_receipt (receipt : transaction_receipt) (t : transaction)
    (payer_rc used_rc disk network compute : Z) (events : list event_data) (logs : list bytes) : M transaction_receipt :=
  entries ← delta_entries;
  mret (mk_transaction_receipt (trx_id t) (payer (trx_header t)) payer_rc (rc_limit (trx_header t)) used_rc disk network
    compute (tr_reverted receipt) (tr_events receipt ++ events) (tr_logs receipt ++ logs)
    (tr_state_delta_entries receipt ++ entries)).

(** The receipt of the block as [generate_receipt] leaves it. *)
Definition receipt_of_block (b : block) (disk network compute : Z) : M unit :=
  r ← gets_ctx _receipt;
  match r with
  | is_block_receipt r => r ← generate_block_receipt r b disk network compute; set_receipt (is_block_receipt r)
  | _ => raise StdException
  end.

(** [KOINOS_CAPTURE_CATCH_AND_RETHROW] of a transaction's id. *)
Definition capture_transaction_id (t : transaction) (e : exn) : exn :=
  match e with
  | Koinos e => Koinos (mk_koinos_exception (name e) (code e) (data e) (Some (trx_id t)) (json_logs e))
  | e => e
  end.

Definition class_of_exn (e : exn) : option exception_class :=
  match e with Koinos e => Some (class_of (name e)) | _ => None end.

Definition is_class (k : exception_class) (e : exn) : bool := bool_decide (class_of_exn e = Some k).

Definition require_kernel : M unit :=
  p ← gets_ctx get_caller_privilege;
  koinos_assert (bool_decide (p = kernel_mode)) insufficient_privileges_exception
    (str "calling privileged thunk from non-privileged code") [].

Definition require_writable : M unit :=
  r ← gets_ctx read_only_;
  koinos_assert (negb r) read_only_context_exception (str "unable to perform action while context is read only") [].

Definition applies_blocks (i : intent) : bool := match i with block_application | block_proposal => true | _ => false end.

(** The current state node of an object call. *)
Definition current_node : M loc :=
  node ← get_state_node;
  match node with
  | Some node => mret (state_of node)
  | None => raise_ internal_error_exception (str "current state node does not exist") []
  end.

(** [for( const auto& x: l ) f( x )], collecting the values. *)
Fixpoint for_all {A B} (f : A → M B) (l : list A) : M (list B) :=
  match l with
  | [] => mret []
  | x :: l => y ← f x; rest ← for_all f l; mret (y :: rest)
  end.

Fixpoint for_each_ {A} (f : A → M unit) (l : list A) : M unit :=
  match l with [] => mret tt | x :: l => f x;; for_each_ f l end.

End Helpers.

Section Thunks.
Context `{!Outside} `{!Reflection}.
Context (sys : calls) (run : bytes → bytes → M unit).

Arguments sys {A} _.

(** ** System helpers *)

Definition get_chain_id_ : M bytes :=
  o ← sys (get_object (space_of metadata) key_chain_id); mret (object_value o).

Definition process_block_signature_ (id signature_data : bytes) : M bool :=
  genesis ← sys (get_object (space_of metadata) key_genesis_key);
  recovered ← sys (recover_public_key ecdsa_secp256k1 signature_data id true);
  key ← convert (to_public_key recovered);
  mret (bool_decide (object_value genesis = to_address_bytes key)).

Definition get_transaction_ : M transaction :=
  t ← gets_ctx _trx;
  match t with
  | Some t => mret t
  | None => raise_ internal_error_exception (str "transaction does not exist") []
  end.

Definition get_transaction_field_ (field : bytes) : M value_type :=
  t ← get_transaction_; get_nested_field_value (of_transaction t) field.

Definition get_block_ : M block :=
  b ← gets_ctx _block;
  match b with
  | Some b => mret b
  | None => raise_ internal_error_exception (str "block does not exist") []
  end.

Definition get_block_field_ (field : bytes) : M value_type :=
  b ← get_block_; get_nested_field_value (of_block b) field.

Definition default_irreversible_threshold : Z := 60.

Definition get_last_irreversible_block_ : M Z :=
  head ← get_state_node; head ← deref_node head;
  r ← node_revision head;
  mret (if default_irreversible_threshold <? r then u64 (r - default_irreversible_threshold) else 0).

Definition get_head_info_ : M head_info :=
  head ← get_state_node; head ← deref_node head;
  i ← node_id head;
  p ← node_parent_id head;
  r ← node_revision head;
  lib ← sys get_last_irreversible_block;
  b ← gets_ctx _block;
  time ←
    match b with
    | Some b => mret (block_timestamp b)
    | None =>
      o ← sys (get_object (space_of metadata) key_head_block);
      if exists_ o then b ← convert (to_message (A := block) (object_value o)); mret (block_timestamp b) else mret 0
    end;
  mret (mk_head_info (mk_block_topology (as_multihash i) (as_multihash p) r) lib time).

Definition get_account_nonce_ (account : bytes) : M bytes :=
  obj ← sys (get_object (space_of transaction_nonce) account);
  mret (if exists_ obj then object_value obj else as_string (uint64_value 0)).

Definition verify_account_nonce_ (account nonce : bytes) : M bool :=
  nonce_value ← convert (to_message (A := value_type) nonce);
  koinos_assert (has_uint64_value nonce_value) invalid_nonce_exception
    (str "nonce did not contain uint64 value - nonce: ${n}, account: ${a}") [(str "n", nonce); (str "a", account)];;
  current ← sys (get_account_nonce account);
  current_nonce_value ← convert (to_message (A := value_type) current);
  koinos_assert (has_uint64_value current_nonce_value) invalid_nonce_exception
    (str "current nonce did not contain uint64 value - nonce: ${n}, account: ${a}") [(str "n", current); (str "a", account)];;
  mempool_nonce ← gets_ctx _mempool_nonce;
  let last := match mempool_nonce with Some n => n | None => current_nonce_value end in
  mret (as_uint64_value nonce_value =? u64 (as_uint64_value last + 1)).

Definition set_account_nonce_ (account nonce : bytes) : M unit :=
  require_kernel;;
  nonce_value ← convert (to_message (A := value_type) nonce);
  koinos_assert (has_uint64_value nonce_value) invalid_nonce_exception
    (str "set nonce did not contain uint64 value - nonce: ${n}, account: ${a}") [(str "n", nonce); (str "a", account)];;
  sys (put_object (space_of transaction_nonce) account nonce).

(** Whether one of the signatures is of the address. *)
Fixpoint signed_by (address digest : bytes) (sigs : list bytes) : M bool :=
  match sigs with
  | [] => mret false
  | sig :: sigs =>
    recovered ← sys (recover_public_key ecdsa_secp256k1 sig digest true);
    key ← convert (to_public_key recovered);
    if bool_decide (to_address_bytes key = address) then mret true else signed_by address digest sigs
  end.

Definition check_system_authority_ : M bool :=
  genesis ← sys (get_object (space_of metadata) key_genesis_key);
  trx ← get_transaction_;
  signed_by (object_value genesis) (trx_id trx) (signatures trx).

Definition get_operation_ : M operation :=
  o ← gets_ctx _op;
  match o with
  | Some o => mret o
  | None => raise_ operation_not_found_exception (str "outside an operational context") []
  end.

(** ** Resources *)

Definition get_account_rc_ (account : bytes) : M Z :=
  obj ← sys (get_object (space_of metadata) key_max_account_resources);
  koinos_assert (exists_ obj) internal_error_exception (str "max_account_resources does not exist") [];;
  convert (to_max_account_resources (object_value obj)).

Definition get_resource_limits_ : M ResourceMeter.resource_limit_data :=
  obj ← sys (get_object (space_of metadata) key_resource_limit_data);
  koinos_assert (exists_ obj) internal_error_exception (str "resource_limit_data does not exist") [];;
  convert (to_message (A := ResourceMeter.resource_limit_data) (object_value obj)).

(** ** Database *)

Definition charge_object (o : bytes) : M unit :=
  n ← get_compute_bandwidth (str "object_serialization_per_byte");
  use_compute_bandwidth (i64 (u64 (n * Z.of_nat (length o)))).

Definition put_object_ (space : object_space) (key obj : bytes) : M unit :=
  r ← gets_ctx read_only_;
  koinos_assert (negb r) read_only_context_exception (str "cannot put object during read only call") [];;
  charge_object obj;;
  assert_permissions space;;
  state ← current_node;
  n ← on_heap (StateNode.put_object state space key obj);
  use_disk_storage n.

Definition remove_object_ (space : object_space) (key : bytes) : M unit :=
  r ← gets_ctx read_only_;
  koinos_assert (negb r) read_only_context_exception (str "cannot remove object during read only call") [];;
  assert_permissions space;;
  state ← current_node;
  n ← on_heap (StateNode.remove_object state space key);
  use_disk_storage n.

Definition get_object_ (space : object_space) (key : bytes) : M database_object :=
  assert_permissions space;;
  state ← current_node;
  result ← on_heap (StateNode.get_object state space key);
  match result with
  | Some o => charge_object o;; mret (mk_database_object true o [])
  | None => mret no_object
  end.

(** The result of [get_next_object] and [get_prev_object]. *)
Definition found_object (r : option bytes * bytes) : M database_object :=
  match r with
  | (Some o, next_key) => charge_object o;; mret (mk_database_object true o next_key)
  | (None, _) => mret no_object
  end.

Definition get_next_object_ (space : object_space) (key : bytes) : M database_object :=
  assert_permissions space;;
  state ← current_node;
  r ← on_heap (ObjectIteration.get_next_object state space key);
  found_object r.

Definition get_prev_object_ (space : object_space) (key : bytes) : M database_object :=
  assert_permissions space;;
  state ← current_node;
  r ← on_heap (ObjectIteration.get_prev_object state space key);
  found_object r.

(** ** Logging *)

Definition log_ (msg : bytes) : M unit :=
  koinos_assert (validate_utf msg) reversion_exception (str "log entry contains invalid utf-8") [];;
  mod_ctx (λ c, with_chronicler (Chronicler.push_log msg (_chronicler c)) c).

Definition event_ (name data : bytes) (impacted : list bytes) : M unit :=
  koinos_assert (negb (bool_decide (name = []))) reversion_exception (str "event name cannot be empty") [];;
  koinos_assert (Z.of_nat (length name) <=? 128) reversion_exception
    (str "event name cannot be larger than 128 bytes") [];;
  koinos_assert (validate_utf name) reversion_exception (str "event name contains invalid utf-8") [];;
  n ← get_compute_bandwidth (str "event_per_impacted");
  use_compute_bandwidth (i64 (u64 (n * Z.of_nat (length impacted))));;
  caller ← gets_ctx ExecutionContext.get_caller;
  transaction ← gets_ctx _trx;
  let ev := mk_event_data 0 (mk_event_body caller name data impacted) in
  mod_ctx (λ c, with_chronicler (Chronicler.push_event (trx_id <$> transaction) ev (_chronicler c)) c).

(** ** Cryptography *)

Definition hash_ (id : Z) (obj : bytes) (size : Z) : M bytes :=
  validate_hash_code id;;
  keys ← hash_compute_keys id;
  base ← get_compute_bandwidth keys.1;
  per_byte ← get_compute_bandwidth keys.2;
  use_compute_bandwidth (i64 (u64 (base + u64 (per_byte * Z.of_nat (length obj)))));;
  h ← convert (crypto_hash id obj size);
  mret (as_multihash h).

Definition recover_public_key_ (type : dsa) (signature_data digest : bytes) (compressed : bool) : M bytes :=
  koinos_assert (match type with ecdsa_secp256k1 => true | unknown_dsa => false end) unknown_dsa_exception
    (str "unexpected dsa") [];;
  koinos_assert (Z.of_nat (length signature_data) =? 65) invalid_signature_exception (str "unexpected signature length") [];;
  koinos_assert (is_canonical signature_data) invalid_signature_exception (str "signature must be canonical") [];;
  d ← convert (to_multihash digest);
  pub_key ← convert (recover signature_data d);
  koinos_assert (key_valid pub_key) invalid_signature_exception (str "public key is invalid") [];;
  mret (if compressed then as_public_key pub_key else serialize_uncompressed pub_key).

Definition verify_merkle_root_ (root : bytes) (hashes : list bytes) : M bool :=
  base ← get_compute_bandwidth (str "deserialize_multihash_base");
  per_byte ← get_compute_bandwidth (str "deserialize_multihash_per_byte");
  let n := Z.of_nat (length hashes) in
  use_compute_bandwidth (i64 (u64 ((n + 1) * u64 (base + u64 (Z.of_nat (length root) * per_byte)))));;
  root_hash ← convert (to_multihash root);
  keys ← hash_compute_keys (hash_code root_hash);
  hash_base ← get_compute_bandwidth keys.1;
  hash_per_byte ← get_compute_bandwidth keys.2;
  use_compute_bandwidth (i64 (u64 (hashes_per_leaves n *
    u64 (hash_base + u64 (2 * Z.of_nat (length (digest root_hash)) * hash_per_byte)))));;
  validate_hash_code (hash_code root_hash);;
  leaves ← for_all (λ s,
    mh ← convert (to_multihash s);
    koinos_assert (hash_code mh =? hash_code root_hash) unknown_hash_code_exception
      (str "leaf and merkle root hash codes do not match") [];;
    koinos_assert (Z.of_nat (length (digest mh)) =? Z.of_nat (length (digest root_hash))) unknown_hash_code_exception
      (str "leaf and merkle root hash sizes do not match") [];;
    mret mh) hashes;
  mret (bool_decide (merkle_root_of (hash_code root_hash) leaves = root_hash)).

Definition verify_signature_ (type : dsa) (public_key signature digest : bytes) (compressed : bool) : M bool :=
  koinos_assert (match type with ecdsa_secp256k1 => true | unknown_dsa => false end) unknown_dsa_exception
    (str "unexpected dsa") [];;
  recovered ← sys (recover_public_key type signature digest compressed);
  mret (bool_decide (recovered = public_key)).

Definition verify_vrf_proof_ (type : dsa) (public_key proof hash message : bytes) : M bool :=
  koinos_assert (match type with ecdsa_secp256k1 => true | unknown_dsa => false end) unknown_dsa_exception
    (str "unexpected dsa") [];;
  pub_key ← convert (to_public_key public_key);
  expected_hash ← convert (to_multihash hash);
  mret (match verify_random_proof pub_key message proof with
        | Some proof_hash => bool_decide (proof_hash = expected_hash)
        | None => false
        end).

(** ** Contracts *)

Definition authorize_entrypoint : Z := 0x4a2dbd90.

(** A [success_exception] ends a contract. *)
Definition until_success (m : M unit) : M unit :=
  try_catch m (λ e, if is_class Success e then mret tt else raise e).

Definition call_contract_ (contract_id : bytes) (entry_point : Z) (args : bytes) : M bytes :=
  contract_object ← sys (get_object (space_of contract_bytecode) contract_id);
  koinos_assert (exists_ contract_object) invalid_contract_exception (str "contract does not exist") [];;
  contract_meta_object ← sys (get_object (space_of contract_metadata) contract_id);
  koinos_assert (exists_ contract_meta_object) invalid_contract_exception (str "contract metadata does not exist") [];;
  contract_meta ← convert (to_message (A := contract_metadata_object) (object_value contract_meta_object));
  koinos_assert (negb (bool_decide (meta_hash contract_meta = []))) invalid_contract_exception
    (str "contract hash does not exist") [];;
  p ← gets_ctx get_caller_privilege;
  koinos_assert (negb (entry_point =? authorize_entrypoint) || bool_decide (p = kernel_mode))
    insufficient_privileges_exception (str "calling privileged thunk from non-privileged code") [];;
  until_success
    (with_stack_frame
      (mk_stack_frame contract_id 0 (if meta_system contract_meta then kernel_mode else user_mode) args entry_point)
      (run (object_value contract_object) (meta_hash contract_meta)));;
  r ← gets_ctx _result;
  let code := result_code r in
  let error := error_of (res r) in
  if negb (code =? 0) && (reversion <=? code) then raise (exception_with reversion_exception code error)
  else if negb (code =? 0) && (code <=? failure) then raise (exception_with failure_exception code error)
  else mret (object_of (res r)).

Definition exit_ (code : Z) (res : result) : M unit :=
  set_result (mk_execution_result code res);;
  if code =? 0 then raise (exception_with success_exception code (mk_error_data [] []))
  else
    koinos_assert (has_error res) reversion_exception (str "exit error did not contain error data") [];;
    let error := error_of res in
    if negb (validate_utf (message error)) then
      raise (exception_with reversion_exception reversion (format (str "error message contains invalid utf-8") []))
    else if reversion <=? code then raise (exception_with reversion_exception code error)
    else raise (exception_with failure_exception code error).

Definition get_arguments_ : M argument_data :=
  entry ← get_contract_entry_point; args ← get_contract_call_args; mret (mk_argument_data entry args).

Definition get_contract_id_ : M bytes := gets_ctx ExecutionContext.get_contract_id.

Definition get_caller_ : M caller_data :=
  frame0 ← pop_frame;
  frame1 ← pop_frame;
  caller ← gets_ctx ExecutionContext.get_caller;
  p ← gets_ctx get_caller_privilege;
  push_frame frame1;;
  push_frame frame0;;
  mret (mk_caller_data caller p).

Definition authorized_by_contract (x : authorization_type) (account data : bytes) : M bool :=
  c ← gets_ctx ExecutionContext.get_caller;
  e ← gets_ctx get_caller_entry_point;
  call ← match x with
         | contract_call => d ← get_caller_; mret (Some (c, e, caller d, data))
         | _ => mret None
         end;
  r ← sys (call_ account authorize_entrypoint (as_string (mk_authorize_arguments x call)));
  convert (to_authorize_result r).

Definition check_authority_ (account data : bytes) : M bool :=
  require_writable;;
  caller ← gets_ctx ExecutionContext.get_caller;
  op ← gets_ctx _op;
  let auth_type :=
    if bool_decide (caller = system_) then
      match op with Some (upload_contract _) => contract_upload | _ => Chain.transaction_application end
    else contract_call in
  obj ← sys (get_object (space_of contract_metadata) account);
  authorize_override ←
    (if exists_ obj then
       m ← convert (to_message (A := contract_metadata_object) (object_value obj));
       mret match auth_type with
            | contract_call => authorizes_call_contract m
            | Chain.transaction_application => authorizes_transaction_application m
            | contract_upload => authorizes_upload_contract m
            end
     else mret false);
  if (authorize_override : bool) then authorized_by_contract auth_type account data
  else
    trx ← get_transaction_;
    signed_by account (trx_id trx) (signatures trx).

(** ** Operations *)

Definition apply_upload_contract_operation_ (o : upload_contract_operation) : M unit :=
  require_kernel;;
  require_writable;;
  authorized ← sys (check_authority Chain.contract_upload (upload_contract_id o) []);
  koinos_assert authorized authorization_failure_exception (str "account ${account} has not authorized action")
    [(str "account", upload_contract_id o)];;
  obj ← sys (get_object (space_of contract_metadata) (upload_contract_id o));
  contract_meta ←
    (if exists_ obj then convert (to_message (A := contract_metadata_object) (object_value obj))
     else mret no_contract_metadata);
  code ← block_hash_code;
  h ← sys (hash code (bytecode o) 0);
  let contract_meta :=
    mk_contract_metadata_object h (meta_system contract_meta) (upload_authorizes_call_contract o)
      (upload_authorizes_transaction_application o) (upload_authorizes_upload_contract o) in
  sys (put_object (space_of contract_bytecode) (upload_contract_id o) (bytecode o));;
  sys (put_object (space_of contract_metadata) (upload_contract_id o) (as_string contract_meta)).

Definition apply_call_contract_operation_ (o : call_contract_operation) : M unit :=
  require_kernel;;
  require_writable;;
  with_privilege user_mode
    (try_catch (sys (call_ (call_contract_id o) (call_entry_point o) (call_arguments o));; mret tt)
      (λ e, match e with
            | Koinos ke =>
              if is_class Failure e then
                raise (exception_with reversion_exception (default_code reversion_exception) (data ke))
              else raise e
            | _ => raise e
            end)).

Definition apply_set_system_call_operation_ (o : set_system_call_operation) : M unit :=
  require_kernel;;
  require_writable;;
  authority ← sys check_system_authority;
  koinos_assert authority system_authorization_failure_exception (str "system authority required") [];;
  match target o with
  | bundle_target contract_id _ =>
    contract_object ← sys (get_object (space_of contract_bytecode) contract_id);
    koinos_assert (exists_ contract_object) invalid_contract_exception (str "contract does not exist") [];;
    contract_meta_object ← sys (get_object (space_of contract_metadata) contract_id);
    koinos_assert (exists_ contract_meta_object) invalid_contract_exception (str "contract metadata does not exist") [];;
    contract_meta ← convert (to_message (A := contract_metadata_object) (object_value contract_meta_object));
    koinos_assert (meta_system contract_meta) invalid_contract_exception (str "contract is not a system contract") [];;
    koinos_assert (negb (call_id o =? number SystemCallId.call)) reversion_exception
      (str "cannot override call_contract") []
  | thunk_target thunk_id =>
    koinos_assert (thunk_exists thunk_id) unknown_thunk_exception (str "thunk ${tid} does not exist")
      [(str "tid", as_call_id thunk_id)]
  end;;
  sys (put_object (space_of system_call_dispatch) (as_call_id (call_id o)) (as_string (target o)));;
  sys (event (str "koinos.chain.set_system_call_event") (set_system_call_event o) []).

Definition apply_set_system_contract_operation_ (o : set_system_contract_operation) : M unit :=
  require_kernel;;
  require_writable;;
  authority ← sys check_system_authority;
  koinos_assert authority system_authorization_failure_exception (str "system authority required") [];;
  contract_object ← sys (get_object (space_of contract_bytecode) (system_contract_id o));
  koinos_assert (exists_ contract_object) invalid_contract_exception (str "contract does not exist") [];;
  contract_meta_object ← sys (get_object (space_of contract_metadata) (system_contract_id o));
  koinos_assert (exists_ contract_meta_object) invalid_contract_exception (str "contract does not exist") [];;
  m ← convert (to_message (A := contract_metadata_object) (object_value contract_meta_object));
  koinos_assert (negb (bool_decide (meta_hash m = []))) invalid_contract_exception (str "contract hash does not exist") [];;
  let m := mk_contract_metadata_object (meta_hash m) (system_contract o) (authorizes_call_contract m)
             (authorizes_transaction_application m) (authorizes_upload_contract m) in
  sys (put_object (space_of contract_metadata) (system_contract_id o) (as_string m));;
  sys (event (str "koinos.chain.set_system_contract_event") (set_system_contract_event o) []).

(** ** Transactions *)

(** The variables of [apply_transaction] that its handlers read. *)
Record trx_locals := mk_trx_locals {
  reverted : bool;
  reverted_exception : option exn;
  used_rc_ : Z;
  disk_used : Z;
  network_used : Z;
  compute_used : Z;
  payer_rc : Z;
  trx_events : list event_data;
  trx_logs : list bytes
}.

Abbreviation L := (prog (machine * trx_locals) exn).

Definition mod_locals (f : trx_locals → trx_locals) : L unit := mod_state (λ s, (s.1, f s.2)).

Definition set_payer_rc (n : Z) (l : trx_locals) : trx_locals :=
  mk_trx_locals (reverted l) (reverted_exception l) (used_rc_ l) (disk_used l) (network_used l) (compute_used l) n
    (trx_events l) (trx_logs l).
Definition set_reverted (r : bool) (l : trx_locals) : trx_locals :=
  mk_trx_locals r (reverted_exception l) (used_rc_ l) (disk_used l) (network_used l) (compute_used l) (payer_rc l)
    (trx_events l) (trx_logs l).
Definition set_reverted_exception (e : exn) (l : trx_locals) : trx_locals :=
  mk_trx_locals (reverted l) (Some e) (used_rc_ l) (disk_used l) (network_used l) (compute_used l) (payer_rc l)
    (trx_events l) (trx_logs l).

Definition nonce_account_of (trx : transaction) : bytes :=
  let h := trx_header trx in
  if negb (bool_decide (payee h = [])) && negb (bool_decide (payee h = payer h)) then payee h else payer h.

Definition use_payee_nonce (trx : transaction) : bool :=
  let h := trx_header trx in negb (bool_decide (payee h = [])) && negb (bool_decide (payee h = payer h)).

(** The checks of a transaction, before its operations. *)
Definition check_transaction (trx : transaction) : L unit :=
  let h := trx_header trx in
  rc ← at_machine (sys (get_account_rc (payer h)));
  mod_locals (set_payer_rc rc);;
  at_machine
   (koinos_assert (rc_limit h <=? rc) failure_exception
      (str "payer does not have the rc to cover transaction rc limit") [];;
    chain_id_object ← sys (get_object (space_of metadata) key_chain_id);
    koinos_assert (exists_ chain_id_object) failure_exception (str "chain id does not exist") [];;
    koinos_assert (bool_decide (chain_id h = object_value chain_id_object)) failure_exception (str "chain id mismatch") [];;
    code ← block_hash_code;
    id ← sys (hash code (as_string h) 0);
    koinos_assert (bool_decide (id = trx_id trx)) failure_exception
      (str "transaction contains an invalid transaction id") [];;
    op_root ← convert (to_multihash (operation_merkle_root h));
    koinos_assert (hash_code op_root =? code) failure_exception
      (str "unexpected operation merkle root hash code - was: ${o}, expected: ${e}")
      [(str "o", as_call_id (hash_code op_root)); (str "e", as_call_id code)];;
    hashes ← for_all (λ op, code ← block_hash_code; sys (hash code (as_string op) 0)) (operations trx);
    root_matches ← sys (verify_merkle_root (operation_merkle_root h) hashes);
    koinos_assert root_matches failure_exception (str "operation merkle root does not match") [];;
    authorized ← sys (check_authority Chain.transaction_application (payer h) []);
    koinos_assert authorized authorization_failure_exception (str "account ${account} has not authorized transaction")
      [(str "account", payer h)];;
    (if use_payee_nonce trx then
       authorized ← sys (check_authority Chain.transaction_application (payee h) []);
       koinos_assert authorized authorization_failure_exception
         (str "account ${account} has not authorized transaction") [(str "account", payee h)]
     else mret tt);;
    nonce_ok ← sys (verify_account_nonce (nonce_account_of trx) (nonce h));
    (if (nonce_ok : bool) then mret tt
     else
       mempool_nonce ← gets_ctx _mempool_nonce;
       current ← match mempool_nonce with
                 | Some n => mret (as_string n)
                 | None => sys (get_account_nonce (nonce_account_of trx))
                 end;
       raise_ invalid_nonce_exception
         (str "invalid transaction nonce - account: ${a}, nonce: ${n}, current nonce: ${c}")
         [(str "a", nonce_account_of trx); (str "n", nonce h); (str "c", current)]);;
    sys (set_account_nonce (nonce_account_of trx) (nonce h));;
    use_network_bandwidth (i64 (trx_size trx))).

Definition apply_operation (o : operation) : M unit :=
  with_operation_guard o
    match o with
    | upload_contract o => sys (apply_upload_contract_operation o)
    | call_contract o => sys (apply_call_contract_operation o)
    | set_system_call o => sys (apply_set_system_call_operation o)
    | set_system_contract o => sys (apply_set_system_contract_operation o)
    | no_operation => raise_ unknown_operation_exception (str "unknown operation") []
    end.

Definition run_operations (trx : transaction) (trx_node : abstract_state_node) : M unit :=
  sys pre_transaction_callback;;
  for_each_ apply_operation (operations trx);;
  sys post_transaction_callback;;
  node ← on_heap (anonymous_commit trx_node);
  mod_ctx (with_current_state_node (Some node)).

(** Where a receipt goes. *)
Definition deliver_receipt (r : transaction_receipt) : M unit :=
  i ← gets_ctx _intent;
  match i with
  | block_application | block_proposal =>
    b ← gets_ctx _receipt;
    match b with
    | is_block_receipt b =>
      set_receipt (is_block_receipt
        (mk_block_receipt (br_id b) (br_height b) (br_disk_storage_used b) (br_network_bandwidth_used b)
          (br_compute_bandwidth_used b) (br_disk_storage_charged b) (br_network_bandwidth_charged b)
          (br_compute_bandwidth_charged b) (br_state_merkle_root b) (br_events b) (br_logs b)
          (br_state_delta_entries b) (br_transaction_receipts b ++ [r])))
    | _ => raise_ failure_exception (str "expected block receipt with block application intent") []
    end
  | transaction_application => set_receipt (is_transaction_receipt r)
  | read_only => mret tt
  end.

Definition finish_receipt (trx : transaction) : L unit :=
  l ← gets_state snd;
  at_machine
    (r ← generate_transaction_receipt
           (mk_transaction_receipt [] [] 0 0 0 0 0 0 (reverted l) [] [] [])
           trx (payer_rc l) (used_rc_ l) (disk_used l) (network_used l) (compute_used l) (trx_events l) (trx_logs l);
     deliver_receipt r).

(** What the session of the payer recorded, and what was used since the
    transaction began. *)
Definition close_session (start_disk start_network start_compute : Z) (s : machine * trx_locals) : trx_locals :=
  let (m, l) := s in
  let c := ctx m in
  let meter := _resource_meter c in
  let recorded := Chronicler._session (_chronicler c) in
  mk_trx_locals (reverted l) (reverted_exception l)
    (default 0 (Session.used_rc <$> ResourceMeter._session meter))
    (u64 (ResourceMeter.disk_storage_used meter - start_disk))
    (u64 (ResourceMeter.network_bandwidth_used meter - start_network))
    (u64 (ResourceMeter.compute_bandwidth_used meter - start_compute))
    (payer_rc l)
    (if reverted l then trx_events l else default [] (Session._events <$> recorded))
    (default [] (Session._logs <$> recorded)).

(** The handlers of what the operations throw. *)
Definition operations_failed (block_node : abstract_state_node) (e : exn) : L bool :=
  if is_class Failure e then
    i ← at_machine (gets_ctx _intent);
    if bool_decide (i = block_proposal) then
      at_machine (set_state_node (Some block_node) None);; mret false
    else raise e
  else if is_class Reversion e then
    mod_locals (set_reverted true);;
    at_machine (log_ (str "transaction reverted: " ++ match e with Koinos ke => get_message ke | _ => [] end));;
    mod_locals (set_reverted_exception e);;
    mret true
  else raise e.

(** The operations of a transaction, on an anonymous node of their own; whether
    the transaction goes on to be charged. *)
Definition operations_body (trx : transaction) (block_node : abstract_state_node) : L bool :=
  trx_node ← at_machine (on_heap (create_anonymous_node block_node));
  parent ← at_machine (node_parent block_node);
  at_machine (set_state_node (Some trx_node) parent);;
  try_catch (at_machine (run_operations trx trx_node);; mret true) (operations_failed block_node).

(** What the payer is charged, and the receipt. *)
Definition settle_transaction (trx : transaction) (start : ResourceMeter.metering) (block_node : abstract_state_node)
    : L unit :=
  at_machine (set_state_node (Some block_node) None);;
  mod_state (λ s, (s.1, close_session (ResourceMeter.disk_storage_used start)
    (ResourceMeter.network_bandwidth_used start) (ResourceMeter.compute_bandwidth_used start) s));;
  at_machine (mod_ctx drop_session);;
  l ← gets_state snd;
  consumed ← at_machine (sys (consume_account_rc (payer (trx_header trx)) (used_rc_ l)));
  at_machine (koinos_assert consumed failure_exception (str "unable to consume rc for payer: ${p}")
    [(str "p", payer (trx_header trx))]);;
  finish_receipt trx.

Definition transaction_body (trx : transaction) : L unit :=
  start ← at_machine meter;
  at_machine (make_session (rc_limit (trx_header trx)));;
  finally_with
    (try_catch (check_transaction trx) (λ e,
       match e with
       | Koinos ke => if is_class Reversion e then at_machine (raise_ failure_exception (get_message ke) []) else raise e
       | _ => raise e
       end);;
     block_node ← at_machine (get_state_node ≫= deref_node);
     applied ← operations_body trx block_node;
     if (applied : bool) then settle_transaction trx start block_node else mret tt)
    drop_session.

Definition apply_transaction_l (trx : transaction) : L unit :=
  try_catch
    (at_machine require_kernel;;
     at_machine require_writable;;
     at_machine (set_transaction trx);;
     finally_with (transaction_body trx) (with_trx None))
    (λ e, match e with Koinos _ => finish_receipt trx;; raise e | _ => raise e end);;
  l ← gets_state snd;
  match reverted_exception l with Some e => raise e | None => mret tt end.

Definition no_locals : trx_locals := mk_trx_locals false None 0 0 0 0 0 [] [].

Definition apply_transaction_ (trx : transaction) : M unit := λ s,
  let (r, s) := apply_transaction_l trx (s, no_locals) in (r, s.1).

(** ** Blocks *)

(** The transactions of a block from the [i]-th on. *)
Fixpoint apply_transactions (i : Z) (trxs : list transaction) : M unit :=
  match trxs with
  | [] => mret tt
  | tx :: trxs =>
    try_catch (sys (apply_transaction tx)) (λ e,
      if is_class Reversion e then mret tt
      else if is_class Failure e then
        intent ← gets_ctx _intent;
        if bool_decide (intent = block_proposal) then add_failed_transaction_index i
        else raise (capture_transaction_id tx e)
      else raise (capture_transaction_id tx e));;
    apply_transactions (u32 (i + 1)) trxs
  end.

(** The hashes of the transactions' headers and signatures. *)
Fixpoint transaction_hashes (trxs : list transaction) : M (list bytes) :=
  match trxs with
  | [] => mret []
  | trx :: trxs =>
    code ← block_hash_code;
    h ← sys (hash code (as_string (trx_header trx)) 0);
    code ← block_hash_code;
    s ← sys (hash code (concat (signatures trx)) 0);
    rest ← transaction_hashes trxs;
    mret (h :: s :: rest)
  end.

Definition transactions_bytes_size (b : block) : Z := u64 (foldr (λ t n, trx_size t + n) 0 (transactions b)).

Definition block_body (b : block) : M unit :=
  limits ← sys get_resource_limits;
  on_meter (ResourceMeter.set_resource_limit_data limits);;
  code ← block_hash_code;
  id ← sys (hash code (as_string (header b)) 0);
  koinos_assert (bool_decide (id = block_id b)) malformed_block_exception (str "block contains an invalid block id") [];;
  tx_root ← convert (to_multihash (transaction_merkle_root (header b)));
  koinos_assert (hash_code tx_root =? code) malformed_block_exception
    (str "unexpected transaction merkle root hash code - was: ${t}, expected: ${e}")
    [(str "t", as_call_id (hash_code tx_root)); (str "e", as_call_id code)];;
  hashes ← transaction_hashes (transactions b);
  use_network_bandwidth (i64 (u64 (block_size b - transactions_bytes_size b)));;
  root_matches ← sys (verify_merkle_root (transaction_merkle_root (header b)) hashes);
  koinos_assert root_matches malformed_block_exception (str "transaction merkle root does not match") [];;
  block_hash ← sys (hash code (as_string (header b)) 0);
  block_hash ← convert (to_multihash block_hash);
  signed ← sys (process_block_signature (as_multihash block_hash) (header b) (signature b));
  koinos_assert signed invalid_signature_exception (str "failed to process block signature") [];;
  sys pre_block_callback;;
  node ← get_state_node; node ← deref_node node;
  on_heap (StateNode.put_object (state_of node) (space_of metadata) key_head_block (as_string b));;
  apply_transactions 0 (transactions b);;
  sys post_block_callback;;
  m ← meter;
  let rld := ResourceMeter._resource_limit_data (ResourceMeter.meter m) in
  let system_rc_cost :=
    u64 (ResourceMeter.system_disk_storage_used m * ResourceMeter.disk_storage_cost rld +
         ResourceMeter.system_network_bandwidth_used m * ResourceMeter.network_bandwidth_cost rld +
         ResourceMeter.system_compute_bandwidth_used m * ResourceMeter.compute_bandwidth_cost rld) in
  consumed ← sys (consume_account_rc (block_signer b) system_rc_cost);
  koinos_assert consumed insufficient_rc_exception (str "unable to consume system rc for block producer: ${p}")
    [(str "p", block_signer b)];;
  m ← meter;
  let disk := ResourceMeter.disk_storage_used m in
  let network := ResourceMeter.network_bandwidth_used m in
  let compute := ResourceMeter.compute_bandwidth_used m in
  consumed ← sys (consume_block_resources disk network compute);
  koinos_assert consumed failure_exception (str "unable to consume block resources") [];;
  receipt_of_block b disk network compute.

Definition apply_block_ (b : block) : M unit :=
  set_receipt (is_block_receipt empty_block_receipt);;
  try_catch
    (require_kernel;;
     i ← gets_ctx _intent;
     koinos_assert (applies_blocks i) insufficient_privileges_exception
       (str "expected block application intent while applying block") [];;
     with_block_guard b (block_body b))
    (λ e,
     m ← meter;
     receipt_of_block b (ResourceMeter.disk_storage_used m) (ResourceMeter.network_bandwidth_used m)
       (ResourceMeter.compute_bandwidth_used m);;
     raise e).

End Thunks.
End Thunk.
