(* ===== verification/Dispatch.v ===== *)
(** Dispatch of the system calls: the functions that the macros of
    [src/src/koinos/chain/thunk_utils.hpp] define, [thunk_dispatcher.hpp] and
    [host_api.cpp].

    The dispatcher stores a thunk as an [std::any]: here a function with the
    code of its type, the types of [system_calls.hpp], that a cast compares.
    A contract passes its arguments and takes its results through the memory
    of its instance, a byte string here with pointers as offsets. *)

From S2P Require Import Prelude Keys MapBackend StateDelta StateNode MergeIterator ObjectIteration.
From S2P Require Import Session.
From S2P Require Import Chronicler.
From S2P Require Import ResourceMeter.
From S2P Require Import ChainTypes ExecutionContext ProtoUtils SystemCalls.
Import StateDelta StateNode Chain ExecutionContext SystemCall.

(** A call with its type. *)
Definition any_call : Type := {A : Type & call A}.

(** The generated messages of the arguments and the results of thunks;
    [parse_arguments] reads what it can, as the result of [ParseFromArray] is
    not looked at, and so does [parse_result]. *)
Class Wire := {
  parse_arguments : SystemCallId.system_call_id → bytes → any_call;
  serialize_arguments : ∀ {A}, call A → bytes;
  parse_result : ∀ {A}, call A → bytes → A;
  serialize_result : ∀ {A}, call A → A → bytes
}.

(** Arguments are of the thunk's own type. *)
Class WireLaws `{!Wire} := { id_of_arguments i b : id_of (projT2 (parse_arguments i b)) = i }.

Module Dispatch.

(** A program with the memory of the instance. *)
Abbreviation HM := (prog (machine * bytes) exn).

Section Thunks.
Context `{!Outside} `{!Reflection} `{!Wire}.

(** ** The types of the thunks

    The pass-through map keeps a thunk as [std::any] of its function type, and
    a system call casts it to the type of its own.  The types of the
    parameters are those of [system_calls.hpp]; the result of a thunk that
    has one is a message of its own, [<name>_result], as [call_thunk_impl]
    asserts. *)

Inductive param : Type :=
| string_ref | uint64_t | uint32_t | int32_t | bool_ | dsa_ | string_vector_ref | object_space_ref | block_ref | transaction_ref
| block_header_ref | upload_contract_operation_ref | call_contract_operation_ref | set_system_call_operation_ref
| set_system_contract_operation_ref | result_ | authorization_type_.

Inductive return_type : Type := void | result_of (i : SystemCallId.system_call_id).

Definition function_type : Type := return_type * list param.

#[global] Instance param_eq_dec : EqDecision param.
Proof. solve_decision. Defined.
#[global] Instance return_type_eq_dec : EqDecision return_type.
Proof. solve_decision. Defined.
#[global] Instance function_type_eq_dec : EqDecision function_type.
Proof. unfold function_type. solve_decision. Defined.

Definition param_value (p : param) : Type :=
  match p with
  | string_ref => bytes
  | uint64_t | uint32_t | int32_t => Z
  | bool_ => bool
  | dsa_ => dsa
  | string_vector_ref => list bytes
  | object_space_ref => object_space
  | block_ref => block
  | transaction_ref => transaction
  | block_header_ref => block_header
  | upload_contract_operation_ref => upload_contract_operation
  | call_contract_operation_ref => call_contract_operation
  | set_system_call_operation_ref => set_system_call_operation
  | set_system_contract_operation_ref => set_system_contract_operation
  | result_ => result
  | authorization_type_ => authorization_type
  end.

Fixpoint arguments (l : list param) : Type := match l with [] => unit | p :: l => param_value p * arguments l end.

(** The value of a result message. *)
Definition result_value (i : SystemCallId.system_call_id) : Type :=
  match i with
  | SystemCallId.get_head_info => head_info
  | SystemCallId.get_chain_id | SystemCallId.get_account_nonce | SystemCallId.hash | SystemCallId.recover_public_key |
    SystemCallId.call | SystemCallId.get_contract_id => bytes
  | SystemCallId.process_block_signature | SystemCallId.verify_account_nonce | SystemCallId.check_system_authority |
    SystemCallId.consume_account_rc | SystemCallId.consume_block_resources | SystemCallId.verify_merkle_root |
    SystemCallId.verify_signature | SystemCallId.verify_vrf_proof | SystemCallId.check_authority => bool
  | SystemCallId.get_transaction => transaction
  | SystemCallId.get_transaction_field | SystemCallId.get_block_field => value_type
  | SystemCallId.get_block => block
  | SystemCallId.get_last_irreversible_block | SystemCallId.get_account_rc => Z
  | SystemCallId.get_operation => operation
  | SystemCallId.get_resource_limits => ResourceMeter.resource_limit_data
  | SystemCallId.get_object | SystemCallId.get_next_object | SystemCallId.get_prev_object => database_object
  | SystemCallId.get_arguments => argument_data
  | SystemCallId.get_caller => caller_data
  | _ => unit
  end.

Definition return_value (r : return_type) : Type := match r with void => unit | result_of i => result_value i end.

(** A [std::function] in a [std::any]. *)
Record any := any_function { type_of : function_type; function_of : arguments type_of.2 → M (return_value type_of.1) }.

Definition any_cast (t : function_type) (x : any) : option (arguments t.2 → M (return_value t.1)) :=
  match decide (type_of x = t) with
  | left e => Some (eq_rect (type_of x) (λ t, arguments t.2 → M (return_value t.1)) (function_of x) t e)
  | right _ => None
  end.

(** The type to which a system call casts, [call_thunk< RETURN_TYPE TYPES >],
    with the arguments that it forwards and what it returns. *)
Record call_site (A : Type) := mk_call_site {
  site_type : function_type;
  site_arguments : arguments site_type.2;
  site_return : M (return_value site_type.1) → M A
}.
#[global] Arguments mk_call_site {A} _ _ _.
#[global] Arguments site_type {A} _.
#[global] Arguments site_arguments {A} _.
#[global] Arguments site_return {A} _ _.

Definition site {A} (c : call A) : call_site A :=
  match c in call A return call_site A with
  | get_head_info => mk_call_site (result_of SystemCallId.get_head_info, []) tt (λ r, r)
  | apply_block b => mk_call_site (void, [block_ref]) (b, tt) (λ r, r)
  | apply_transaction trx => mk_call_site (void, [transaction_ref]) (trx, tt) (λ r, r)
  | apply_upload_contract_operation o => mk_call_site (void, [upload_contract_operation_ref]) (o, tt) (λ r, r)
  | apply_call_contract_operation o => mk_call_site (void, [call_contract_operation_ref]) (o, tt) (λ r, r)
  | apply_set_system_call_operation o => mk_call_site (void, [set_system_call_operation_ref]) (o, tt) (λ r, r)
  | apply_set_system_contract_operation o => mk_call_site (void, [set_system_contract_operation_ref]) (o, tt) (λ r, r)
  | pre_block_callback => mk_call_site (void, []) tt (λ r, r)
  | post_block_callback => mk_call_site (void, []) tt (λ r, r)
  | pre_transaction_callback => mk_call_site (void, []) tt (λ r, r)
  | post_transaction_callback => mk_call_site (void, []) tt (λ r, r)
  | get_chain_id => mk_call_site (result_of SystemCallId.get_chain_id, []) tt (λ r, r)
  | process_block_signature id h signature_data => mk_call_site (result_of SystemCallId.process_block_signature, [string_ref; block_header_ref; string_ref])
      (id, (h, (signature_data, tt))) (λ r, r)
  | get_transaction => mk_call_site (result_of SystemCallId.get_transaction, []) tt (λ r, r)
  | get_transaction_field field => mk_call_site (result_of SystemCallId.get_transaction_field, [string_ref])
      (field, tt) (λ r, r)
  | get_block => mk_call_site (result_of SystemCallId.get_block, []) tt (λ r, r)
  | get_block_field field => mk_call_site (result_of SystemCallId.get_block_field, [string_ref]) (field, tt) (λ r, r)
  | get_last_irreversible_block => mk_call_site (result_of SystemCallId.get_last_irreversible_block, []) tt (λ r, r)
  | get_account_nonce account => mk_call_site (result_of SystemCallId.get_account_nonce, [string_ref]) (account, tt) (λ r, r)
  | verify_account_nonce account nonce => mk_call_site (result_of SystemCallId.verify_account_nonce, [string_ref; string_ref])
      (account, (nonce, tt)) (λ r, r)
  | set_account_nonce account nonce => mk_call_site (void, [string_ref; string_ref]) (account, (nonce, tt)) (λ r, r)
  | check_system_authority => mk_call_site (result_of SystemCallId.check_system_authority, []) tt (λ r, r)
  | get_operation => mk_call_site (result_of SystemCallId.get_operation, []) tt (λ r, r)
  | get_account_rc account => mk_call_site (result_of SystemCallId.get_account_rc, [string_ref]) (account, tt) (λ r, r)
  | consume_account_rc account rc => mk_call_site (result_of SystemCallId.consume_account_rc, [string_ref; uint64_t])
      (account, (rc, tt)) (λ r, r)
  | get_resource_limits => mk_call_site (result_of SystemCallId.get_resource_limits, []) tt (λ r, r)
  | consume_block_resources disk network compute => mk_call_site (result_of SystemCallId.consume_block_resources, [uint64_t; uint64_t; uint64_t])
      (disk, (network, (compute, tt))) (λ r, r)
  | put_object space key obj => mk_call_site (void, [object_space_ref; string_ref; string_ref])
      (space, (key, (obj, tt))) (λ r, r)
  | remove_object space key => mk_call_site (void, [object_space_ref; string_ref]) (space, (key, tt)) (λ r, r)
  | get_object space key => mk_call_site (result_of SystemCallId.get_object, [object_space_ref; string_ref])
      (space, (key, tt)) (λ r, r)
  | get_next_object space key => mk_call_site (result_of SystemCallId.get_next_object, [object_space_ref; string_ref])
      (space, (key, tt)) (λ r, r)
  | get_prev_object space key => mk_call_site (result_of SystemCallId.get_prev_object, [object_space_ref; string_ref])
      (space, (key, tt)) (λ r, r)
  | log msg => mk_call_site (void, [string_ref]) (msg, tt) (λ r, r)
  | event name data impacted => mk_call_site (void, [string_ref; string_ref; string_vector_ref])
      (name, (data, (impacted, tt))) (λ r, r)
  | hash id obj size => mk_call_site (result_of SystemCallId.hash, [uint64_t; string_ref; uint64_t])
      (id, (obj, (size, tt))) (λ r, r)
  | recover_public_key type sig digest compressed => mk_call_site (result_of SystemCallId.recover_public_key, [dsa_; string_ref; string_ref; bool_])
      (type, (sig, (digest, (compressed, tt)))) (λ r, r)
  | verify_merkle_root root hashes => mk_call_site (result_of SystemCallId.verify_merkle_root, [string_ref; string_vector_ref])
      (root, (hashes, tt)) (λ r, r)
  | verify_signature type key sig digest compressed => mk_call_site (result_of SystemCallId.verify_signature, [dsa_; string_ref; string_ref; string_ref; bool_])
      (type, (key, (sig, (digest, (compressed, tt))))) (λ r, r)
  | verify_vrf_proof type key proof h message => mk_call_site (result_of SystemCallId.verify_vrf_proof, [dsa_; string_ref; string_ref; string_ref; string_ref])
      (type, (key, (proof, (h, (message, tt))))) (λ r, r)
  | call_ contract_id entry_point args => mk_call_site (result_of SystemCallId.call, [string_ref; uint32_t; string_ref])
      (contract_id, (entry_point, (args, tt))) (λ r, r)
  | exit code res => mk_call_site (void, [int32_t; result_]) (code, (res, tt)) (λ r, r)
  | get_arguments => mk_call_site (result_of SystemCallId.get_arguments, []) tt (λ r, r)
  | get_contract_id => mk_call_site (result_of SystemCallId.get_contract_id, []) tt (λ r, r)
  | get_caller => mk_call_site (result_of SystemCallId.get_caller, []) tt (λ r, r)
  | check_authority x account data => mk_call_site (result_of SystemCallId.check_authority, [authorization_type_; string_ref; string_ref])
      (x, (account, (data, tt))) (λ r, r)
  | nop => mk_call_site (void, []) tt (λ r, r)
  end.

Context (sys : ∀ A, call A → M A) (run : bytes → bytes → M unit).

(** [register_thunks]: the body of each thunk. *)
Definition thunk {A} (c : call A) : M A :=
  match c in call A return M A with
  | get_head_info => Thunk.get_head_info_ sys
  | apply_block b => Thunk.apply_block_ sys b
  | apply_transaction trx => Thunk.apply_transaction_ sys trx
  | apply_upload_contract_operation o => Thunk.apply_upload_contract_operation_ sys o
  | apply_call_contract_operation o => Thunk.apply_call_contract_operation_ sys o
  | apply_set_system_call_operation o => Thunk.apply_set_system_call_operation_ sys o
  | apply_set_system_contract_operation o => Thunk.apply_set_system_contract_operation_ sys o
  | pre_block_callback | post_block_callback | pre_transaction_callback | post_transaction_callback | nop => mret tt
  | get_chain_id => Thunk.get_chain_id_ sys
  | process_block_signature id _ signature_data => Thunk.process_block_signature_ sys id signature_data
  | get_transaction => Thunk.get_transaction_
  | get_transaction_field field => Thunk.get_transaction_field_ field
  | get_block => Thunk.get_block_
  | get_block_field field => Thunk.get_block_field_ field
  | get_last_irreversible_block => Thunk.get_last_irreversible_block_
  | get_account_nonce account => Thunk.get_account_nonce_ sys account
  | verify_account_nonce account nonce => Thunk.verify_account_nonce_ sys account nonce
  | set_account_nonce account nonce => Thunk.set_account_nonce_ sys account nonce
  | check_system_authority => Thunk.check_system_authority_ sys
  | get_operation => Thunk.get_operation_
  | get_account_rc account => Thunk.get_account_rc_ sys account
  | consume_account_rc _ _ => mret true
  | get_resource_limits => Thunk.get_resource_limits_ sys
  | consume_block_resources _ _ _ => mret true
  | put_object space key obj => Thunk.put_object_ space key obj
  | remove_object space key => Thunk.remove_object_ space key
  | get_object space key => Thunk.get_object_ space key
  | get_next_object space key => Thunk.get_next_object_ space key
  | get_prev_object space key => Thunk.get_prev_object_ space key
  | log msg => Thunk.log_ msg
  | event name data impacted => Thunk.event_ name data impacted
  | hash id obj size => Thunk.hash_ id obj size
  | recover_public_key type sig digest compressed => Thunk.recover_public_key_ type sig digest compressed
  | verify_merkle_root root hashes => Thunk.verify_merkle_root_ root hashes
  | verify_signature type key sig digest compressed => Thunk.verify_signature_ sys type key sig digest compressed
  | verify_vrf_proof type key proof h message => Thunk.verify_vrf_proof_ type key proof h message
  | call_ contract_id entry_point args => Thunk.call_contract_ sys run contract_id entry_point args
  | exit code res => Thunk.exit_ code res
  | get_arguments => Thunk.get_arguments_
  | get_contract_id => Thunk.get_contract_id_
  | get_caller => Thunk.get_caller_
  | check_authority _ account data => Thunk.check_authority_ sys account data
  end.

(** Whether a thunk returns [void]. *)
Definition is_void {A} (c : call A) : bool :=
  match c with
  | apply_block _ | apply_transaction _ | apply_upload_contract_operation _ | apply_call_contract_operation _
  | apply_set_system_call_operation _ | apply_set_system_contract_operation _ | pre_block_callback
  | post_block_callback | pre_transaction_callback | post_transaction_callback | set_account_nonce _ _
  | put_object _ _ _ | remove_object _ _ | log _ | event _ _ _ | exit _ _ | nop => true
  | _ => false
  end.

(** [register_thunks]: the function that is registered under an id, with the
    type that [register_thunk] deduces. *)
Definition registered (i : SystemCallId.system_call_id) : any :=
  match i with
  | SystemCallId.get_head_info => any_function (result_of SystemCallId.get_head_info, []) (λ _, thunk get_head_info)
  | SystemCallId.apply_block => any_function (void, [block_ref]) (λ '(b, _), thunk (apply_block b))
  | SystemCallId.apply_transaction => any_function (void, [transaction_ref]) (λ '(trx, _), thunk (apply_transaction trx))
  | SystemCallId.apply_upload_contract_operation => any_function (void, [upload_contract_operation_ref])
      (λ '(o, _), thunk (apply_upload_contract_operation o))
  | SystemCallId.apply_call_contract_operation => any_function (void, [call_contract_operation_ref])
      (λ '(o, _), thunk (apply_call_contract_operation o))
  | SystemCallId.apply_set_system_call_operation => any_function (void, [set_system_call_operation_ref])
      (λ '(o, _), thunk (apply_set_system_call_operation o))
  | SystemCallId.apply_set_system_contract_operation => any_function (void, [set_system_contract_operation_ref])
      (λ '(o, _), thunk (apply_set_system_contract_operation o))
  | SystemCallId.pre_block_callback => any_function (void, []) (λ _, thunk pre_block_callback)
  | SystemCallId.post_block_callback => any_function (void, []) (λ _, thunk post_block_callback)
  | SystemCallId.pre_transaction_callback => any_function (void, []) (λ _, thunk pre_transaction_callback)
  | SystemCallId.post_transaction_callback => any_function (void, []) (λ _, thunk post_transaction_callback)
  | SystemCallId.get_chain_id => any_function (result_of SystemCallId.get_chain_id, []) (λ _, thunk get_chain_id)
  | SystemCallId.process_block_signature => any_function (result_of SystemCallId.process_block_signature, [string_ref; block_header_ref; string_ref])
      (λ '(id, (h, (signature_data, _))), thunk (process_block_signature id h signature_data))
  | SystemCallId.get_transaction => any_function (result_of SystemCallId.get_transaction, []) (λ _, thunk get_transaction)
  | SystemCallId.get_transaction_field => any_function (result_of SystemCallId.get_transaction_field, [string_ref])
      (λ '(field, _), thunk (get_transaction_field field))
  | SystemCallId.get_block => any_function (result_of SystemCallId.get_block, []) (λ _, thunk get_block)
  | SystemCallId.get_block_field => any_function (result_of SystemCallId.get_block_field, [string_ref])
      (λ '(field, _), thunk (get_block_field field))
  | SystemCallId.get_last_irreversible_block => any_function (result_of SystemCallId.get_last_irreversible_block, [])
      (λ _, thunk get_last_irreversible_block)
  | SystemCallId.get_account_nonce => any_function (result_of SystemCallId.get_account_nonce, [string_ref])
      (λ '(account, _), thunk (get_account_nonce account))
  | SystemCallId.verify_account_nonce => any_function (result_of SystemCallId.verify_account_nonce, [string_ref; string_ref])
      (λ '(account, (nonce, _)), thunk (verify_account_nonce account nonce))
  | SystemCallId.set_account_nonce => any_function (void, [string_ref; string_ref])
      (λ '(account, (nonce, _)), thunk (set_account_nonce account nonce))
  | SystemCallId.check_system_authority => any_function (result_of SystemCallId.check_system_authority, [])
      (λ _, thunk check_system_authority)
  | SystemCallId.get_operation => any_function (result_of SystemCallId.get_operation, []) (λ _, thunk get_operation)
  | SystemCallId.get_account_rc => any_function (result_of SystemCallId.get_account_rc, [string_ref])
      (λ '(account, _), thunk (get_account_rc account))
  | SystemCallId.consume_account_rc => any_function (result_of SystemCallId.consume_account_rc, [string_ref; uint64_t])
      (λ '(account, (rc, _)), thunk (consume_account_rc account rc))
  | SystemCallId.get_resource_limits => any_function (result_of SystemCallId.get_resource_limits, [])
      (λ _, thunk get_resource_limits)
  | SystemCallId.consume_block_resources => any_function (result_of SystemCallId.consume_block_resources, [uint64_t; uint64_t; uint64_t])
      (λ '(disk, (network, (compute, _))), thunk (consume_block_resources disk network compute))
  | SystemCallId.put_object => any_function (void, [object_space_ref; string_ref; string_ref])
      (λ '(space, (key, (obj, _))), thunk (put_object space key obj))
  | SystemCallId.remove_object => any_function (void, [object_space_ref; string_ref])
      (λ '(space, (key, _)), thunk (remove_object space key))
  | SystemCallId.get_object => any_function (result_of SystemCallId.get_object, [object_space_ref; string_ref])
      (λ '(space, (key, _)), thunk (get_object space key))
  | SystemCallId.get_next_object => any_function (result_of SystemCallId.get_next_object, [object_space_ref; string_ref])
      (λ '(space, (key, _)), thunk (get_next_object space key))
  | SystemCallId.get_prev_object => any_function (result_of SystemCallId.get_prev_object, [object_space_ref; string_ref])
      (λ '(space, (key, _)), thunk (get_prev_object space key))
  | SystemCallId.log => any_function (void, [string_ref]) (λ '(msg, _), thunk (log msg))
  | SystemCallId.event => any_function (void, [string_ref; string_ref; string_vector_ref])
      (λ '(name, (data, (impacted, _))), thunk (event name data impacted))
  | SystemCallId.hash => any_function (result_of SystemCallId.hash, [uint64_t; string_ref; uint64_t])
      (λ '(id, (obj, (size, _))), thunk (hash id obj size))
  | SystemCallId.recover_public_key => any_function (result_of SystemCallId.recover_public_key, [dsa_; string_ref; string_ref; bool_])
      (λ '(type, (sig, (digest, (compressed, _)))), thunk (recover_public_key type sig digest compressed))
  | SystemCallId.verify_merkle_root => any_function (result_of SystemCallId.verify_merkle_root, [string_ref; string_vector_ref])
      (λ '(root, (hashes, _)), thunk (verify_merkle_root root hashes))
  | SystemCallId.verify_signature => any_function (result_of SystemCallId.verify_signature, [dsa_; string_ref; string_ref; string_ref; bool_])
      (λ '(type, (key, (sig, (digest, (compressed, _))))), thunk (verify_signature type key sig digest compressed))
  | SystemCallId.verify_vrf_proof => any_function (result_of SystemCallId.verify_vrf_proof, [dsa_; string_ref; string_ref; string_ref; string_ref])
      (λ '(type, (key, (proof, (h, (message, _))))), thunk (verify_vrf_proof type key proof h message))
  | SystemCallId.call => any_function (result_of SystemCallId.call, [string_ref; uint32_t; string_ref])
      (λ '(contract_id, (entry_point, (args, _))), thunk (call_ contract_id entry_point args))
  | SystemCallId.exit => any_function (void, [int32_t; result_]) (λ '(code, (res, _)), thunk (exit code res))
  | SystemCallId.get_arguments => any_function (result_of SystemCallId.get_arguments, []) (λ _, thunk get_arguments)
  | SystemCallId.get_contract_id => any_function (result_of SystemCallId.get_contract_id, []) (λ _, thunk get_contract_id)
  | SystemCallId.get_caller => any_function (result_of SystemCallId.get_caller, []) (λ _, thunk get_caller)
  | SystemCallId.check_authority => any_function (result_of SystemCallId.check_authority, [authorization_type_; string_ref; string_ref])
      (λ '(x, (account, (data, _))), thunk (check_authority x account data))
  | SystemCallId.nop => any_function (void, []) (λ _, thunk nop)
  end.

(** [call_thunk] of the pass-through map: the thunk that is registered under
    the number, if it is of the type of the call's; a bad cast throws. *)
Definition call_thunk_typed {A} (thunk_id : Z) (c : call A) : M A :=
  match id_of_number thunk_id with
  | None => raise_ unknown_thunk_exception (str "thunk ${id} not found") [(str "id", as_call_id thunk_id)]
  | Some i =>
    match any_cast (site_type (site c)) (registered i) with
    | Some f => site_return (site c) (f (site_arguments (site c)))
    | None => raise StdException
    end
  end.

(** Charge what the thunk of an id costs. *)
Definition charge_thunk (thunk_id : Z) : M unit :=
  match enum_name thunk_id with
  | None => raise_ unknown_thunk_exception (str "unrecognized thunk id ${id}") [(str "id", as_call_id thunk_id)]
  | Some thunk_name =>
    compute ← get_compute_bandwidth thunk_name;
    use_compute_bandwidth (i64 compute)
  end.

(** What the result of a contract that overrides a call means. *)
Definition override_result {A} (c : call A) (r : execution_result) : M A :=
  (if negb (result_code r =? 0) then
     if reversion <=? result_code r then raise (exception_with reversion_exception (result_code r) (error_of (res r)))
     else if result_code r <=? failure then raise (exception_with failure_exception (result_code r) (error_of (res r)))
     else mret tt
   else if bool_decide (id_of c = SystemCallId.exit) then
     raise (exception_with success_exception (result_code r) (mk_error_data [] []))
   else mret tt);;
  mret (parse_result c (object_of (res r))).

(** [system_call::name] as [_THUNK_DETAIL_DEFINE] defines it. *)
Definition system_call {A} (c : call A) : M A :=
  let sid := number (id_of c) in
  with_stack_frame (kernel_frame sid)
    (overridden ← system_call_exists sid;
     if overridden : bool then
       r ← ExecutionContext.system_call run sid (serialize_arguments c);
       override_result c r
     else
       thunk_id ← thunk_translation sid;
       charge_thunk thunk_id;;
       call_thunk_typed thunk_id c).

(** ** [host_api] *)

Definition read_memory (ptr len : Z) : HM bytes :=
  gets_state (λ s, take (Z.to_nat len) (drop (Z.to_nat ptr) s.2)).

Definition write_memory (ptr : Z) (b : bytes) : HM unit :=
  mod_state (λ s, (s.1, take (Z.to_nat ptr) s.2 ++ b ++ drop (Z.to_nat ptr + length b) s.2)).

(** A [uint32_t], little-endian. *)
Definition write_u32 (ptr x : Z) : HM unit :=
  write_memory ptr [byte_of x; byte_of (x / 2 ^ 8); byte_of (x / 2 ^ 16); byte_of (x / 2 ^ 24)].

Definition byte_size (b : bytes) : Z := Z.of_nat (length b).

(** [call_thunk_impl]. *)
Definition call_thunk_impl {A} (c : call A) (ret_ptr ret_len bytes_written : Z) : HM unit :=
  if is_void c then
    write_u32 bytes_written 0;;
    at_machine (thunk c);;
    mret tt
  else
    r ← at_machine (thunk c);
    let b := serialize_result c r in
    at_machine (koinos_assert (byte_size b <=? ret_len) insufficient_return_buffer_exception
      (str "return buffer is not large enough for the return value") []);;
    write_memory ret_ptr b;;
    write_u32 bytes_written (u32 (byte_size b)).

(** [thunk_dispatcher::call_thunk] of the dispatch map. *)
Definition call_thunk (id ret_ptr ret_len arg_ptr arg_len bytes_written : Z) : HM unit :=
  match id_of_number id with
  | None => at_machine (raise_ unknown_thunk_exception (str "thunk ${id} not found") [(str "id", as_call_id id)])
  | Some i =>
    at_machine (n ← get_compute_bandwidth (str "deserialize_message_per_byte");
                use_compute_bandwidth (i64 (u64 (n * arg_len))));;
    args ← read_memory arg_ptr arg_len;
    call_thunk_impl (projT2 (parse_arguments i args)) ret_ptr ret_len bytes_written
  end.

(** [throw] of an exception with a code and data. *)
Definition throw_code {A} (n : exception_name) (code : Z) (error : error_data) : HM A :=
  raise (exception_with n code error).

(** Run [m]; the code and the data of the [koinos::exception] it throws. *)
Definition code_of (m : HM unit) : HM (Z * error_data) :=
  try_catch (m;; mret (0, mk_error_data [] [])) (λ e,
    match e with Koinos ke => mret (Chain.code ke, data ke) | e => raise e end).

(** The code that the contract sees, and the error in its return buffer. *)
Definition return_code (code : Z) (error : error_data) (ret_ptr ret_len bytes_written : Z) : HM Z :=
  if negb (code =? success) then
    let error_bytes := as_string error in
    if byte_size error_bytes <=? ret_len then
      write_memory ret_ptr error_bytes;;
      write_u32 bytes_written (u32 (byte_size error_bytes));;
      mret code
    else
      write_u32 bytes_written 0;;
      mret insufficient_return_buffer
  else mret code.

Definition invoke_thunk (tid ret_ptr ret_len arg_ptr arg_len bytes_written : Z) : HM Z :=
  p ← at_machine get_privilege;
  at_machine (koinos_assert (bool_decide (p = kernel_mode)) insufficient_privileges_exception
    (str "'invoke_thunk' must be called from a system context") []);;
  r ← code_of (call_thunk tid ret_ptr ret_len arg_ptr arg_len bytes_written);
  let (code, error) := r : Z * error_data in
  if tid =? number SystemCallId.exit then
    if reversion <=? code then throw_code reversion_exception code error
    else if code <=? failure then throw_code failure_exception code error
    else throw_code success_exception code (mk_error_data [] [])
  else return_code code error ret_ptr ret_len bytes_written.

(** A frame of the stack around a program with the memory. *)
Definition with_stack_frame_in {A} (f : stack_frame) (m : HM A) : HM A :=
  at_machine (push_frame f);; finally_with m (λ c, with_stack (tail (_stack c)) c).

Definition host_call (sid ret_ptr ret_len arg_ptr arg_len bytes_written : Z) : HM unit :=
  write_u32 bytes_written 0;;
  with_stack_frame_in (kernel_frame sid)
    (overridden ← at_machine (system_call_exists sid);
     if overridden : bool then
       args ← read_memory arg_ptr arg_len;
       exec_res ← at_machine (ExecutionContext.system_call run sid args);
       if has_object (res exec_res) then
         let b := object_of (res exec_res) in
         at_machine (koinos_assert (byte_size b <=? ret_len) insufficient_return_buffer_exception
           (str "return buffer is not large enough for the return value") []);;
         write_memory ret_ptr b;;
         write_u32 bytes_written (u32 (byte_size b))
       else mret tt
     else
       thunk_id ← at_machine (thunk_translation sid);
       at_machine (koinos_assert (thunk_exists thunk_id) unknown_thunk_exception (str "thunk ${tid} does not exist")
         [(str "tid", as_call_id thunk_id)]);;
       at_machine (charge_thunk thunk_id);;
       call_thunk thunk_id ret_ptr ret_len arg_ptr arg_len bytes_written).

Definition invoke_system_call (sid ret_ptr ret_len arg_ptr arg_len bytes_written : Z) : HM Z :=
  r ← code_of (host_call sid ret_ptr ret_len arg_ptr arg_len bytes_written);
  let (code, error) := r : Z * error_data in
  p ← at_machine get_privilege;
  if bool_decide (p = user_mode) && (reversion <=? code) then throw_code reversion_exception code error
  else if sid =? number SystemCallId.exit then
    if reversion <=? code then throw_code reversion_exception code error
    else if code <=? failure then throw_code failure_exception code error
    else throw_code success_exception (default_code success_exception) (mk_error_data [] [])
  else return_code code error ret_ptr ret_len bytes_written.

Definition get_meter_ticks : M Z := gets_ctx (λ c, ResourceMeter.get_meter_ticks (_resource_meter c)).
Definition use_meter_ticks (n : Z) : M unit := on_meter (ResourceMeter.use_meter_ticks n).

End Thunks.
End Dispatch.
