(* ===== verification/VirtualMachine.v ===== *)
(** The virtual machine: [src/src/koinos/vm_manager/fizzy], over the fizzy
    interpreter, which is a parameter, and the knot of the system calls. *)

From S2P Require Import Prelude Keys MapBackend StateDelta StateNode MergeIterator ObjectIteration.
From S2P Require Import Session.
From S2P Require Import Chronicler.
From S2P Require Import ResourceMeter.
From S2P Require Import ChainTypes ExecutionContext ProtoUtils SystemCalls Dispatch.
Import StateDelta StateNode Chain ExecutionContext SystemCall.

Inductive host_function : Type := host_invoke_thunk | host_invoke_system_call.

(** A call of a host function: its arguments, the memory of the instance, if
    it has one, and the ticks that are left. *)
Record host_request := mk_host_request {
  function : host_function;
  xid : Z;
  ret_ptr : Z;
  ret_len : Z;
  arg_ptr : Z;
  arg_len : Z;
  bytes_written : Z;
  memory : option bytes;
  ticks : Z
}.

(** What it gives back: [FizzyExecutionResult], the memory and the ticks. *)
Record host_reply := mk_host_reply {
  trapped : bool;
  value : option Z;
  reply_memory : option bytes;
  reply_ticks : Z
}.

Inductive execution_event : Type :=
| HostCall (r : host_request)
| Finished (trapped : bool) (ticks : Z).

(** Fizzy: [fizzy_execute m ticks replies] is what an execution of the start
    function of [m] on so many ticks does after the replies to its host calls,
    the first reply first.  Parsing and instantiation give a reason for failing. *)
Class Fizzy := {
  fizzy_module : Type;
  fizzy_parse : bytes → bytes + fizzy_module;
  fizzy_resolve_instantiate : fizzy_module → option bytes;
  fizzy_has_start : fizzy_module → bool;
  fizzy_execute : fizzy_module → Z → list host_reply → execution_event
}.

Module ModuleCache.

(** The ids and bytecodes of the modules, the last used first. *)
Definition module_cache_size : nat := 32.

Fixpoint remove_id (id : bytes) (l : module_cache) : module_cache :=
  match l with
  | [] => []
  | (i, m) :: l => if bool_decide (i = id) then l else (i, m) :: remove_id id l
  end.

Fixpoint find_id (id : bytes) (l : module_cache) : option bytes :=
  match l with
  | [] => None
  | (i, m) :: l => if bool_decide (i = id) then Some m else find_id id l
  end.

Definition get_module (id : bytes) (l : module_cache) : option bytes * module_cache :=
  match find_id id l with
  | None => (None, l)
  | Some m => (Some m, (id, m) :: remove_id id l)
  end.

Definition put_module (id : bytes) (m : bytes) (l : module_cache) : module_cache :=
  let l := if (module_cache_size <=? length l)%nat then removelast l else l in
  (id, m) :: l.

End ModuleCache.

Module VirtualMachine.
Import Dispatch.

Section Runner.
Context `{!Outside} `{!Reflection} `{!Wire} `{!Fizzy}.
Context (sys : ∀ A, call A → M A) (run_ : bytes → bytes → M unit).

Definition vm_error (name : string) : exception_name := vm_exception (str name).

(** The offset of a pointer, [None] for a null one. *)
Definition resolve_ptr (memory : option bytes) (ptr size : Z) : M (option Z) :=
  match memory with
  | None =>
    raise_ (vm_error "fizzy_returned_null_exception")
      (str "fizzy_get_instance_memory_data() unexpectedly returned null pointer") []
  | Some m =>
    let mem_size := byte_size m in
    mret (if (ptr =? mem_size) && (size =? 0) then Some mem_size
          else if mem_size <? ptr then None
          else if mem_size - ptr <? size then None
          else Some ptr)
  end.

Definition parse_bytecode (bytecode : bytes) : M fizzy_module :=
  match fizzy_parse bytecode with
  | inr m => mret m
  | inl msg => raise_ (vm_error "module_parse_exception") (str "could not parse fizzy module - ${code}: ${msg}") [(str "msg", msg)]
  end.

Definition instantiate_module (m : fizzy_module) : M unit :=
  match fizzy_resolve_instantiate m with
  | None => mret tt
  | Some msg =>
    raise_ (vm_error "module_instantiate_exception") (str "could not instantiate module - ${code}: ${msg}") [(str "msg", msg)]
  end.

Definition wasm_memory (b : bool) (msg : string) : M unit :=
  koinos_assert b (vm_error "wasm_memory_exception") (str msg) [].

(** The host's own function. *)
Definition host (f : host_function) : Z → Z → Z → Z → Z → Z → HM Z :=
  match f with
  | host_invoke_thunk => invoke_thunk sys run_
  | host_invoke_system_call => invoke_system_call sys run_
  end.

(** [catch( ... )]; undefined behaviour is not caught. *)
Definition catch_all {S A} (m : prog S exn A) (h : exn → prog S exn A) : prog S exn A :=
  try_catch m (λ e, match e with NullDereference => raise e | _ => h e end).

(** The call with its pointers: the value or the exception, and the memory. *)
Definition call_host (r : host_request) (m : bytes) (ret arg written : Z) : M ((exn + Z) * bytes) := λ s,
  match catch_all (v ← host (function r) (xid r) ret (ret_len r) arg (arg_len r) written; mret (inr v))
          (λ e, mret (inl e)) (s, m) with
  | (Ok v, (s, m)) => (Ok (v, m), s)
  | (Throw e, (s, _)) => (Throw e, s)
  | (OutOfFuel, (s, _)) => (OutOfFuel, s)
  end.

(** [_invoke_thunk] and [_invoke_system_call] of the runner: the reply,
    [_previous_ticks] and [_exception]. *)
Definition invoke (previous_ticks : Z) (r : host_request) : M (host_reply * Z * option exn) :=
  catch_all
    (ret ← resolve_ptr (memory r) (ret_ptr r) (ret_len r);
     arg ← resolve_ptr (memory r) (arg_ptr r) (arg_len r);
     written ← resolve_ptr (memory r) (bytes_written r) 4;
     match ret, arg, written, memory r with
     | None, _, _, _ => raise_ (vm_error "wasm_memory_exception") (str "invalid ret_ptr") []
     | Some _, None, _, _ => raise_ (vm_error "wasm_memory_exception") (str "invalid arg_ptr") []
     | Some ret, Some arg, Some written, Some m =>
       use_meter_ticks (u64 (previous_ticks - ticks r));;
       v ← call_host r m ret arg written;
       previous_ticks ← get_meter_ticks;
       let '(v, m) := v : (exn + Z) * bytes in
       match v with
       | inr v => mret (mk_host_reply false (Some v) (Some m) previous_ticks, previous_ticks, None)
       | inl e => mret (mk_host_reply true None (Some m) previous_ticks, previous_ticks, Some e)
       end
     | _, _, _, _ => raise_ (vm_error "wasm_memory_exception") (str "invalid bytes_written") []
     end)
    (λ e, mret (mk_host_reply true None (memory r) (ticks r), previous_ticks, Some e)).

(** [fizzy_execute] with the host calls it makes, and the rest of
    [call_start]. *)
Fixpoint execute (fuel : nat) (m : fizzy_module) (start_ticks previous_ticks : Z) (replies : list host_reply)
    (exception : option exn) : M unit :=
  match fuel with
  | O => λ s, (OutOfFuel, s)
  | S fuel =>
    match fizzy_execute m start_ticks replies with
    | HostCall r =>
      p ← invoke previous_ticks r;
      let '(reply, previous_ticks, exception) := p : host_reply * Z * option exn in
      execute fuel m start_ticks previous_ticks (replies ++ [reply]) exception
    | Finished trapped ticks =>
      use_meter_ticks (u64 (previous_ticks - ticks));;
      match exception with
      | Some e => raise e
      | None =>
        if (trapped : bool) then raise_ (vm_error "wasm_trap_exception") (str "module exited due to trap") []
        else mret tt
      end
    end
  end.

Definition call_start (fuel : nat) (m : fizzy_module) : M unit :=
  previous_ticks ← get_meter_ticks;
  koinos_assert (fizzy_has_start m) (vm_error "module_start_exception") (str "module does not have _start function") [];;
  execute fuel m previous_ticks previous_ticks [] None.

Definition mod_modules (f : module_cache → module_cache) : M unit :=
  mod_state (λ s, mk_machine (heap_ s) (f (modules s)) (ctx s)).

(** The module of an id, from the cache or parsed. *)
Definition cached_module (bytecode id : bytes) : M fizzy_module :=
  if bool_decide (id = []) then parse_bytecode bytecode
  else
    cache ← gets_state modules;
    let (hit, cache) := ModuleCache.get_module id cache in
    mod_modules (const cache);;
    match hit with
    | Some cached => parse_bytecode cached
    | None =>
      m ← parse_bytecode bytecode;
      mod_modules (ModuleCache.put_module id bytecode);;
      mret m
    end.

Definition run (fuel : nat) (bytecode id : bytes) : M unit :=
  m ← cached_module bytecode id;
  instantiate_module m;;
  call_start fuel m.

End Runner.

(** ** The knot

    The system calls and the virtual machine [depth] calls deep; a frame of
    the stack is pushed at each level, so that [stack_limit] bounds the depth
    that is ever reached.  [fuel] bounds the host calls of one contract. *)

Record knot := mk_knot { sys : ∀ A, call A → M A; run_contract : bytes → bytes → M unit }.

Section Knot.
Context `{!Outside} `{!Reflection} `{!Wire} `{!Fizzy}.

Fixpoint knot_at (fuel depth : nat) : knot :=
  match depth with
  | O => mk_knot (λ _ _ s, (OutOfFuel, s)) (λ _ _ s, (OutOfFuel, s))
  | S depth =>
    let k := knot_at fuel depth in
    mk_knot (λ A, Dispatch.system_call (sys k) (run_contract k)) (run (sys k) (run_contract k) fuel)
  end.

(** Enough for an empty stack. *)
Definition full_depth : nat := 258.

Definition system_calls (fuel : nat) : ∀ A, call A → M A := sys (knot_at fuel full_depth).

End Knot.
End VirtualMachine.
