(* ===== verification/Rectify.v ===== *)
(** The corrections of the chain's history, [src/src/koinos/chain/rectify.cpp].

    The literals of the code are decoded by the koinos libraries; the program
    that replaces a contract is a parameter. *)

From S2P Require Import Prelude Keys MapBackend StateDelta StateNode MergeIterator ObjectIteration.
From S2P Require Import Session.
From S2P Require Import ResourceMeter.
From S2P Require Import ChainTypes ExecutionContext.

(** [util::from_hex] and [util::from_base64] of a literal, and the bytecode
    that one of the literals spells. *)
Class Literals := {
  from_hex : string → bytes;
  from_base64 : string → bytes;
  new_bytecode : bytes
}.

Module Rectify.
Import StateDelta StateNode Chain ExecutionContext.

Section Rectification.
Context `{!Outside} `{!Literals}.

Definition block_9180357 : bytes := from_hex "0x1220f66b60a65c8614eda8b70a03df13a6f53a2089111dc6eed1a286d879d22e84b4".

(** [mutable_...( i )] of a repeated field: undefined out of range. *)
Definition at_index {A} (i : nat) (l : list A) : M A :=
  match l !! i with Some x => mret x | None => raise NullDereference end.

Definition set_entries (entries : list state_delta_entry) (r : block_receipt) : block_receipt :=
  mk_block_receipt (br_id r) (br_height r) (br_disk_storage_used r) (br_network_bandwidth_used r)
    (br_compute_bandwidth_used r) (br_disk_storage_charged r) (br_network_bandwidth_charged r)
    (br_compute_bandwidth_charged r) (br_state_merkle_root r) (br_events r) (br_logs r) entries
    (br_transaction_receipts r).

Definition set_compute_bandwidth (used charged : Z) (r : block_receipt) : block_receipt :=
  mk_block_receipt (br_id r) (br_height r) (br_disk_storage_used r) (br_network_bandwidth_used r) used
    (br_disk_storage_charged r) (br_network_bandwidth_charged r) charged (br_state_merkle_root r) (br_events r)
    (br_logs r) (br_state_delta_entries r) (br_transaction_receipts r).

Definition set_transaction_receipts (l : list transaction_receipt) (r : block_receipt) : block_receipt :=
  mk_block_receipt (br_id r) (br_height r) (br_disk_storage_used r) (br_network_bandwidth_used r)
    (br_compute_bandwidth_used r) (br_disk_storage_charged r) (br_network_bandwidth_charged r)
    (br_compute_bandwidth_charged r) (br_state_merkle_root r) (br_events r) (br_logs r) (br_state_delta_entries r) l.

(** A transaction receipt with other compute bandwidth, rc and entries. *)
Definition with_usage (compute rc : Z) (entries : list state_delta_entry) (r : transaction_receipt) : transaction_receipt :=
  mk_transaction_receipt (tr_id r) (tr_payer r) (tr_max_payer_rc r) (tr_rc_limit r) rc (tr_disk_storage_used r)
    (tr_network_bandwidth_used r) compute (tr_reverted r) (tr_events r) (tr_logs r) entries.

Definition put_on (node : abstract_state_node) (space : object_space) (key value : bytes) : M unit :=
  on_heap (StateNode.put_object (state_of node) space key value);; mret tt.

Definition rectify_block_9180357 (r : block_receipt) : M block_receipt :=
  let r := set_compute_bandwidth 17631052 17557631 r in
  tr ← at_index 0 (br_transaction_receipts r);
  let tr := with_usage 14582049 423344309 (tr_state_delta_entries tr) tr in
  node ← get_state_node;
  e5 ← at_index 5 (br_state_delta_entries r);
  let zone5 := from_base64 "ALJp6C6zICjLRQ8DEj48TS+Rp8fr9OW8fA==" in
  let key5 := from_base64 "bWFya2V0cw==" in
  let value5 := from_base64 "Cg4IgdDQhB8YsLUCIICAIBIPCJThs6XNARiAgBAggIBAGhMI0beCnLHVAhjgwrUbIODNi4kB" in
  let e5 := mk_state_delta_entry (mk_object_space true zone5 (space_id (entry_space e5))) key5 (Some value5) in
  let r := set_entries (<[5%nat := e5]> (br_state_delta_entries r)) r in
  node ← deref_node node;
  put_on node (mk_object_space true zone5 0) key5 value5;;
  _ ← at_index 63 (br_state_delta_entries r);
  let space63 := mk_object_space true (from_base64 "AC4z/RqpB7IkzpzmyUIokB0oOgLalW2nkQ==") 1 in
  let key63 := from_base64 "ANAlFhI9x76hhWhfte5LvQ6NfFoHakTMtQ==" in
  let value63 := from_base64 "CICOmsf2EhDLnKv99BIY2IHul64x" in
  let e63 := mk_state_delta_entry space63 key63 (Some value63) in
  let r := set_entries (<[63%nat := e63]> (br_state_delta_entries r)) r in
  _ ← at_index 62 (tr_state_delta_entries tr);
  let tr := with_usage (tr_compute_bandwidth_used tr) (tr_rc_used tr) (<[62%nat := e63]> (tr_state_delta_entries tr)) tr in
  put_on node space63 key63 value63;;
  mret (set_transaction_receipts (<[0%nat := tr]> (br_transaction_receipts r)) r).

Definition rectify_fund_contract (r : block_receipt) : M block_receipt :=
  let metadata_space := space_of contract_metadata in
  let bytecode_space := space_of contract_bytecode in
  let key := from_base64 "AGODyCuhi5XqbJWB30tP4BYEWmCH6mq2zg==" in
  let new_koinos_fund_hash := from_hex "0x12206d263c191b3a6d7cbd70e24fc5c62159f316f6ec115ba8796f269e2ce41d11aa" in
  node ← get_state_node; node ← deref_node node;
  existing ← on_heap (StateNode.get_object (state_of node) metadata_space key);
  match existing with
  | None => mret r
  | Some existing =>
    existing ← convert (to_message (A := contract_metadata_object) existing);
    if bool_decide (meta_hash existing = new_koinos_fund_hash) then mret r
    else
      let meta := as_string (mk_contract_metadata_object new_koinos_fund_hash true true true true) in
      put_on node bytecode_space key new_bytecode;;
      put_on node metadata_space key meta;;
      mret (set_entries
        (br_state_delta_entries r ++
           [mk_state_delta_entry bytecode_space key (Some new_bytecode);
            mk_state_delta_entry metadata_space key (Some meta)]) r)
  end.

Definition maybe_rectify_state (b : block) (r : block_receipt) : M block_receipt :=
  if (height (header b) =? 9180357) && bool_decide (block_id b = block_9180357) then rectify_block_9180357 r
  else if (1761911880000 <? block_timestamp b) && (block_timestamp b <? 1761912000000) then rectify_fund_contract r
  else mret r.

Definition acceptable_rectified_previous_root (parent_block_id computed_parent_root claimed_previous_root : bytes) : bool :=
  if bool_decide (parent_block_id = from_hex "0x1220a97d7b0567ad55e3b04446a2bef447335cfd676668b069544b04a4719146d586") then
    bool_decide (computed_parent_root = from_hex "0x12203a22d59290a838dd49c87f57fe80319636950948f6b9aaf02287c03bb36e5f68") &&
    bool_decide (claimed_previous_root = from_hex "0x12209948b54dee01acd8528cf15dec02366b76e7739aedaf4487859bf6d0d182d690")
  else false.

End Rectification.
End Rectify.
