(* ===== verification/Controller.v ===== *)
(** The controller of the chain, [src/src/koinos/chain/controller.cpp].

    Its state is the state database, the modules of the virtual machine, the
    cached head block and what was sent to the other services.  An operation
    that has an execution context of its own is a program over both; a part of
    the code that gives the lock of the database up takes what other threads do
    meanwhile as an argument. *)

From S2P Require Import Prelude Keys MapBackend StateDelta StateNode StateDatabase MergeIterator ObjectIteration.
From S2P Require Import Session.
From S2P Require Import Chronicler.
From S2P Require Import ResourceMeter.
From S2P Require Import ChainTypes ExecutionContext ProtoUtils SystemCalls Dispatch VirtualMachine Rectify.
Import StateDelta Chain ExecutionContext.

(** [chain::genesis_data], its serialization and [system_call_id_Parse]. *)
Record genesis_entry := mk_genesis_entry { genesis_space : object_space; genesis_entry_key : bytes; genesis_value : bytes }.
Abbreviation genesis_data := (list genesis_entry).

Class ChainRpc := {
  genesis_bytes : genesis_data → bytes;
  system_call_id_Parse : bytes → option Z
}.

Module Controller.
Import StateDatabase.

(** What the controller sends to the other services: requests and broadcasts. *)
Inductive message : Type :=
| add_block (b : block) (r : block_receipt)
| check_pending_account_resources (payer : bytes) (max_payer_rc rc_limit : Z)
| check_account_nonce (payee nonce : bytes)
| get_pending_nonce (payee : bytes)
| get_pending_transaction_count (payee : bytes)
| block_irreversible (t : block_topology)
| block_accepted (b : block) (r : block_receipt) (live head : bool)
| fork_heads (last_irreversible_block : block_topology) (heads : list block_topology)
| event_parcel (block_id : bytes) (height : Z) (event : event_data) (transaction_id : option bytes)
| transaction_failed (id : bytes)
| transaction_accepted (t : transaction) (r : transaction_receipt) (height disk network compute : Z).

(** A response, or the exception of its future. *)
Inductive response : Type :=
| response_throws (e : exn)
| response_error
| response_add_block
| response_check_pending_account_resources (success : bool)
| response_check_account_nonce (success : bool)
| response_pending_nonce (nonce : bytes)
| response_pending_transaction_count (count : Z)
| response_other.

(** The other services: the response to a request after what was sent before. *)
Abbreviation services := (list message → message → response).

Record controller_impl := mk_controller_impl {
  _db : database;
  vm_modules : module_cache;
  _cached_head_block : block;
  sent : list message
}.

Definition set_db (db : database) (s : controller_impl) : controller_impl :=
  mk_controller_impl db (vm_modules s) (_cached_head_block s) (sent s).
Definition set_cached_head_block (b : block) (s : controller_impl) : controller_impl :=
  mk_controller_impl (_db s) (vm_modules s) b (sent s).
Definition add_sent (m : message) (s : controller_impl) : controller_impl :=
  mk_controller_impl (_db s) (vm_modules s) (_cached_head_block s) (sent s ++ [m]).

Abbreviation C := (prog controller_impl exn).

(** The variables of an operation that the handlers of its exceptions see. *)
Record variables := mk_variables {
  context : execution_context;
  block_node : option state_node;
  db_lock : option lock;
  result_receipt : option block_receipt;
  result_failed : list Z;
  new_head : bool
}.

Definition set_context (x : execution_context) (v : variables) : variables :=
  mk_variables x (block_node v) (db_lock v) (result_receipt v) (result_failed v) (new_head v).
Definition set_block_node (x : option state_node) (v : variables) : variables :=
  mk_variables (context v) x (db_lock v) (result_receipt v) (result_failed v) (new_head v).
Definition set_db_lock (x : option lock) (v : variables) : variables :=
  mk_variables (context v) (block_node v) x (result_receipt v) (result_failed v) (new_head v).
Definition set_result_receipt (x : option block_receipt) (v : variables) : variables :=
  mk_variables (context v) (block_node v) (db_lock v) x (result_failed v) (new_head v).
Definition set_result_failed (x : list Z) (v : variables) : variables :=
  mk_variables (context v) (block_node v) (db_lock v) (result_receipt v) x (new_head v).
Definition set_new_head (x : bool) (v : variables) : variables :=
  mk_variables (context v) (block_node v) (db_lock v) (result_receipt v) (result_failed v) x.

Abbreviation V := (prog (controller_impl * variables) exn).

Definition at_controller {A} (m : C A) : V A := λ s, let (r, s') := m s.1 in (r, (s', s.2)).
Definition vars {A} (f : variables → A) : V A := gets_state (λ s, f s.2).
Definition mod_vars (f : variables → variables) : V unit := mod_state (λ s, (s.1, f s.2)).

(** An operation with its variables, which end with it. *)
Definition with_variables {A} (v : variables) (m : V A) : C A := λ s, let (r, s') := m (s, v) in (r, s'.1).

Record apply_block_options := mk_apply_block_options {
  index_to : Z;
  application_time : Z;
  propose_block : bool;
  expected_state_root : option bytes;
  emit_external_side_effects : bool
}.

Record apply_block_result := mk_apply_block_result {
  receipt_ : option block_receipt;
  failed_transaction_indices : list Z
}.

(** What other threads do during an operation: while it creates a node, and
    before and after it holds the unique lock to finalize it. *)
Record interference := mk_interference {
  creation : timing;
  before_finalize : controller_impl → controller_impl;
  after_finalize : controller_impl → controller_impl
}.

Section Controller_.
Context `{!Outside} `{!Reflection} `{!Wire} `{!Fizzy} `{!Disk} `{!Literals} `{!ChainRpc}.
(** The fuel of a contract, and the members that do not change. *)
Context (fuel : nat) (_read_compute_bandwidth_limit _syscall_bufsize : Z) (_pending_transaction_limit : option Z).
Context (_client : option services).

(** ** Lifting *)

Definition sys {A} (c : SystemCall.call A) : M A := VirtualMachine.system_calls fuel A c.

(** A call of the database. *)
Definition on_db {A} (m : prog database MapBackend.exn A) : C A := λ s,
  match m (_db s) with
  | (Ok a, db) => (Ok a, set_db db s)
  | (Throw e, db) => (Throw (of_state_db e), set_db db s)
  | (OutOfFuel, db) => (OutOfFuel, set_db db s)
  end.

(** A call of a node of the database. *)
Definition on_node {A} (m : prog heap MapBackend.exn A) : C A := on_db (StateDatabase.on_heap m).

(** A program of an execution context on the heap of the database. *)
Definition run_context {A} (m : M A) (c : execution_context) (s : controller_impl)
    : outcome exn A * controller_impl * execution_context :=
  let (r, m) := m (mk_machine (db_heap (_db s)) (vm_modules s) c) in
  (r, mk_controller_impl (set_heap (heap_ m) (_db s)) (modules m) (_cached_head_block s) (sent s), ctx m).

(** A context that ends with the program. *)
Definition with_context {A} (c : execution_context) (m : M A) : C A := λ s,
  let '(r, s, _) := run_context m c s in (r, s).

(** A program of the operation's own context. *)
Definition on_context {A} (m : M A) : V A := λ s,
  let '(r, c, x) := run_context m (context s.2) s.1 in (r, (c, set_context x s.2)).

Definition assert_c {S} (b : bool) (n : exception_name) (template : string) : prog S exn unit :=
  if b then mret tt else raise (exception n (str template) []).

Definition converted {S A} (r : exn + A) : prog S exn A := match r with inl e => raise e | inr a => mret a end.

Definition deref_ {S A} (p : option A) : prog S exn A :=
  match p with Some a => mret a | None => raise NullDereference end.

(** [get_shared_lock] and [get_unique_lock]. *)
Definition shared_lock : option lock := Some (mk_lock true true).
Definition unique_lock : option lock := Some (mk_lock true true).

Definition node_of (n : state_node) : StateNode.abstract_state_node := StateNode.StateNode (_state n).

Definition send (m : message) : C unit := mod_state (add_sent m).

(** [_client->rpc]. *)
Definition rpc (client : services) (m : message) : C response :=
  s ← get_state; send m;; mret (client (sent s) m).

(** [stack_frame{ .call_privilege = p }]. *)
Definition frame_of (contract_id : bytes) (p : privilege) : stack_frame := mk_stack_frame contract_id 0 p [] 0.

Definition initial_variables (i : intent) : variables :=
  mk_variables (ExecutionContext.new i) None shared_lock None [] false.

(** ** Opening and closing *)

Fixpoint write_genesis (root : loc) (entries : genesis_data) : prog heap MapBackend.exn unit :=
  match entries with
  | [] => mret tt
  | e :: entries =>
    o ← StateNode.get_object root (genesis_space e) (genesis_entry_key e);
    assert_that (bool_decide (o = None)) MapBackend.koinos_exception;;
    StateNode.put_object root (genesis_space e) (genesis_entry_key e) (genesis_value e);;
    write_genesis root entries
  end.

Definition make_genesis_initializer (data : genesis_data) : genesis_init := λ root,
  write_genesis root data;;
  key ← StateNode.get_object root (space_of metadata) key_genesis_key;
  assert_that (bool_decide (key ≠ None)) MapBackend.koinos_exception;;
  match crypto_hash sha2_256 (genesis_bytes data) 0 with
  | inl _ => raise MapBackend.koinos_exception
  | inr chain_id =>
    o ← StateNode.get_object root (space_of metadata) key_chain_id;
    assert_that (bool_decide (o = None)) MapBackend.koinos_exception;;
    StateNode.put_object root (space_of metadata) key_chain_id (as_multihash chain_id);;
    mret tt
  end.

Definition open_path (p : option bytes) (data : genesis_data) (algo : fork_resolution_algorithm) (reset_ : bool)
    : C Z :=
  on_db (StateDatabase.open_path p (Some (make_genesis_initializer data)) (Some (comparator_of algo)) unique_lock);;
  (if reset_ then on_db (reset unique_lock) else mret tt);;
  head ← on_db (get_head_shared shared_lock);
  on_node (revision (_state head)).

Definition open_backend (b : option backend_type) (data : genesis_data) (algo : fork_resolution_algorithm)
    (reset_ : bool) : C Z :=
  assert_c (negb reset_) unexpected_state_exception "reset is not supported for borrowed chain state storage";;
  on_db (open_backend_ b (Some (make_genesis_initializer data)) (Some (comparator_of algo)) unique_lock);;
  head ← on_db (get_head_shared shared_lock);
  on_node (revision (_state head)).

Definition close_ : C unit := on_db (close unique_lock).

(** ** Validation *)

Definition missing (b : bool) (field : string) : C unit :=
  if b then mret tt
  else raise (exception missing_required_arguments_exception (str "missing expected field") [(str "field", str field)]).

Definition nonempty {A} (l : list A) : bool := match l with [] => false | _ => true end.

Definition validate_transaction (t : transaction) : C unit :=
  missing (nonempty (trx_id t)) "id";;
  missing (bool_decide (is_Some (const tt <$> trx_header_ t))) "header";;
  missing (nonempty (payer (trx_header t))) "payer";;
  missing (negb (rc_limit (trx_header t) =? 0)) "rc_limit";;
  missing (nonempty (operation_merkle_root (trx_header t))) "operation_merkle_root";;
  missing (nonempty (signatures t)) "signature_data".

Fixpoint validate_transactions (l : list transaction) : C unit :=
  match l with [] => mret tt | t :: l => validate_transaction t;; validate_transactions l end.

Definition validate_block (b : block) : C unit :=
  missing (nonempty (block_id b)) "id";;
  missing (bool_decide (is_Some (const tt <$> block_header_ b))) "header";;
  missing (nonempty (previous (header b))) "previous";;
  missing (negb (height (header b) =? 0)) "height";;
  missing (negb (block_timestamp b =? 0)) "timestamp";;
  missing (nonempty (previous_state_merkle_root (header b))) "previous_state_merkle_root";;
  missing (nonempty (transaction_merkle_root (header b))) "transaction_merkle_root";;
  missing (nonempty (signature b)) "signature_data";;
  validate_transactions (transactions b).

(** ** The heads of the forks *)

(** Sorted by height, the highest first; the order of equal heights, which
    [std::sort] leaves open, is kept. *)
Definition higher (a b : block_topology) : Prop := topo_height b ≤ topo_height a.

#[global] Instance higher_dec a b : Decision (higher a b).
Proof. unfold higher. apply _. Defined.

(** [while( fork_itr != begin() && fork_itr->id() != ... ) ++fork_itr]. *)
Fixpoint find_fork (fuel : nat) (fork_itr : nat) (id : bytes) (l : list block_topology) : nat :=
  match fuel with
  | O => fork_itr
  | S fuel =>
    if bool_decide (fork_itr ≠ 0%nat) && bool_decide (topo_id <$> l !! fork_itr ≠ Some id)
    then find_fork fuel (S fork_itr) id l else fork_itr
  end.

(** [std::iter_swap( fork_itr, begin() )]. *)
Definition swap_first (i : nat) (l : list block_topology) : list block_topology :=
  match l !! i, l !! 0%nat with
  | Some x, Some y => <[0%nat := x]> (<[i := y]> l)
  | _, _ => l
  end.

Definition head_first (id : bytes) (l : list block_topology) : list block_topology :=
  let fork_itr := find_fork (length l) 0 id l in
  if bool_decide (fork_itr ≠ 0%nat) then swap_first fork_itr l else l.

(** The head info of an anonymous child of a node. *)
Definition head_info_of (n : state_node) : M head_info :=
  child ← ExecutionContext.on_heap (StateNode.create_anonymous_node (node_of n));
  set_state_node (Some child) None;;
  reset_cache;;
  sys SystemCall.get_head_info.

Fixpoint fork_topologies (forks : list state_node) : M (list block_topology) :=
  match forks with
  | [] => mret []
  | f :: forks => i ← head_info_of f; rest ← fork_topologies forks; mret (head_topology i :: rest)
  end.

Definition get_fork_data (l : option lock) : C (list block_topology * block_topology) :=
  root ← on_db (get_root_shared l);
  forks ← on_db (get_fork_heads_shared l);
  with_context (ExecutionContext.new read_only)
    (push_frame (frame_of [] kernel_mode);;
     head_info ← head_info_of root;
     heads ← fork_topologies forks;
     let sorted := merge_sort higher heads in
     mret (head_first (topo_id (head_topology head_info)) sorted, head_topology head_info)).

(** ** Applying blocks *)

Definition ms_of (ns : Z) : Z := Z.quot ns 1000000.

(** Topology and time of the parent. *)
Definition parent_info (parent : state_node) : C (Z * Z) :=
  with_context (ExecutionContext.new read_only)
    (push_frame (frame_of [] kernel_mode);;
     set_state_node (Some (node_of parent)) None;;
     reset_cache;;
     i ← sys SystemCall.get_head_info;
     mret (topo_height (head_topology i), head_block_time i)).

(** The state root that the header names is the parent's. *)
Definition assert_previous_root (b : block) (parent : state_node) : C unit :=
  root ← on_node (StateNode.node_merkle_root (_state parent));
  let parent_root := as_multihash root in
  assert_c (bool_decide (previous_state_merkle_root (header b) = parent_root)
            || Rectify.acceptable_rectified_previous_root (previous (header b)) parent_root
                 (previous_state_merkle_root (header b)))
    state_merkle_mismatch_exception "block previous state merkle mismatch".

Definition set_state_merkle_root (root : bytes) (r : block_receipt) : block_receipt :=
  mk_block_receipt (br_id r) (br_height r) (br_disk_storage_used r) (br_network_bandwidth_used r)
    (br_compute_bandwidth_used r) (br_disk_storage_charged r) (br_network_bandwidth_charged r)
    (br_compute_bandwidth_charged r) root (br_events r) (br_logs r) (br_state_delta_entries r)
    (br_transaction_receipts r).

Definition pending_root (n : state_node) : C bytes :=
  root ← on_node (StateNode.pending_merkle_root (_state n)); mret (as_multihash root).

(** The block becomes the head of the cache when it is the head. *)
Definition cache_head (b : block) (id : multihash) : C bool :=
  head ← on_db (get_head_unique unique_lock);
  head_id ← on_node (StateDelta.id (_state head));
  if bool_decide (id = head_id) then mod_state (set_cached_head_block b);; mret true else mret false.

Definition advance_lib (lib : Z) (id : multihash) : C unit :=
  root ← on_db (get_root_unique unique_lock);
  r ← on_node (revision (_state root));
  if r <? lib then
    lib_node ← on_db (get_node_at_revision_unique lib id unique_lock);
    lib_id ← on_node (StateDelta.id (_state lib_node));
    on_db (commit_node lib_id unique_lock)
  else mret tt.

(** Take the node of the block again. *)
Definition look_up_block_node (id : multihash) : V unit :=
  mod_vars (set_db_lock shared_lock);;
  node ← at_controller (on_db (get_node_shared id shared_lock));
  mod_vars (set_block_node node);;
  on_context (set_state_node (node_of <$> node) None).

(** Finalize the node, cache the head and advance the last irreversible block
    under the unique lock. *)
Definition finalize_block (b : block) (id : multihash) (lib : Z) (with_receipt_root : bool) (io : interference) : V unit :=
  try_catch
    (mod_vars (set_db_lock None);;
     mod_vars (set_block_node None);;
     on_context clear_state_node;;
     at_controller (mod_state (before_finalize io));;
     at_controller (on_db (finalize_node_unique id unique_lock));;
     (if with_receipt_root then
        node ← at_controller (on_db (get_node_unique id unique_lock)); node ← deref_ node;
        root ← at_controller (on_node (StateNode.node_merkle_root (_state node)));
        mod_vars (λ v, set_result_receipt (set_state_merkle_root (as_multihash root) <$> result_receipt v) v)
      else mret tt);;
     is_head ← at_controller (cache_head b id);
     mod_vars (λ v, set_new_head (new_head v || is_head) v);;
     at_controller (advance_lib lib id);;
     at_controller (mod_state (after_finalize io));;
     look_up_block_node id)
    (λ e, match e with
          | NullDereference => raise e
          | _ => look_up_block_node id;; raise e
          end).

(** Discard the node of a block that failed before it was finalized. *)
Definition discard_unfinalized : V unit :=
  node ← vars block_node;
  match node with
  | None => mret tt
  | Some n =>
    finalized ← at_controller (on_node (is_finalized (_state n)));
    if (finalized : bool) then mret tt
    else
      i ← at_controller (on_node (StateDelta.id (_state n)));
      l ← vars db_lock;
      at_controller (on_db (discard_node_shared i ∅ l))
  end.

(** [e.add_json( "logs", ... )] of the receipt of the block. *)
Definition add_block_logs (ke : koinos_exception) : V koinos_exception :=
  c ← vars context;
  mret (match _receipt c with
        | is_block_receipt r => mk_koinos_exception (name ke) (Chain.code ke) (data ke) (json_transaction_id ke) (Some (br_logs r))
        | _ => ke
        end).

(** Whether there is a client to tell. *)
Definition emits (o : apply_block_options) : bool :=
  bool_decide (is_Some (const tt <$> _client)) && emit_external_side_effects o.

Definition store_block (b : block) (o : apply_block_options) : V unit :=
  match _client with
  | Some client =>
    if emit_external_side_effects o then
      r ← vars result_receipt; r ← deref_ r;
      resp ← at_controller (rpc client (add_block b r));
      match resp with
      | response_throws e => raise e
      | response_error => raise (exception rpc_failure_exception (str "received error from block store: ${e}") [])
      | response_add_block => mret tt
      | _ => raise (exception rpc_failure_exception (str "unexpected response when submitting block: ${r}") [])
      end
    else mret tt
  | None => mret tt
  end.

Fixpoint send_all (l : list message) : C unit :=
  match l with [] => mret tt | m :: l => send m;; send_all l end.

(** What is said of an accepted block. *)
Definition announce_block (b : block) (live : bool) (o : apply_block_options) : V unit :=
  if emits o then
    l ← vars db_lock;
    d ← at_controller (get_fork_data l);
    let (heads, lib) := d : list block_topology * block_topology in
    r ← vars result_receipt; r ← deref_ r;
    is_head ← vars new_head;
    c ← vars context;
    at_controller (send_all
      ([block_irreversible lib; block_accepted b r live is_head; fork_heads lib heads] ++
       ((λ e, event_parcel (block_id b) (height (header b)) e.2 e.1) <$> Chronicler._events (_chronicler c))))
  else mret tt.

(** The body of the [try] of [apply_block]. *)
Definition apply_body (b : block) (o : apply_block_options) (io : interference) (parent : state_node)
    (block_id_ parent_id : multihash) (parent_height time_lower_bound time_upper_bound : Z) (live : bool)
    : V apply_block_result :=
  (if is_zero parent_id then
     assert_c (height (header b) =? 1) unexpected_height_exception "first block must have height of 1"
   else mret tt);;
  node ← vars block_node;
  assert_c (bool_decide (is_Some node)) block_state_error_exception "could not create new block state node";;
  assert_c (height (header b) =? u64 (parent_height + 1)) unexpected_height_exception "expected block height of ${a}, was ${b}";;
  assert_c (block_timestamp b <=? time_upper_bound) timestamp_out_of_bounds_exception "block timestamp is too far in the future";;
  assert_c (time_lower_bound <? block_timestamp b) timestamp_out_of_bounds_exception "block timestamp is too old";;
  at_controller (assert_previous_root b parent);;
  on_context
    (push_frame (frame_of [] kernel_mode);;
     set_state_node (node_of <$> node) None;;
     reset_cache;;
     sys (SystemCall.apply_block b));;
  mod_vars (λ v, set_result_failed (_failed_transaction_indices (context v)) v);;
  failed ← vars result_failed;
  assert_c (negb (propose_block o && nonempty failed)) failure_exception "${n} transactions failed in the block";;
  c ← vars context;
  match _receipt c with
  | is_block_receipt r =>
    mod_vars (set_result_receipt (Some r));;
    r ← on_context (Rectify.maybe_rectify_state b r);
    mod_vars (set_result_receipt (Some r));;
    (match expected_state_root o with
     | None => mret tt
     | Some expected =>
       node ← deref_ node;
       root ← at_controller (pending_root node);
       assert_c (bool_decide (expected = root)) state_merkle_mismatch_exception
         "re-executed block does not reproduce the consensus state merkle root"
     end);;
    store_block b o;;
    lib ← on_context (sys SystemCall.get_last_irreversible_block);
    finalize_block b block_id_ lib true io;;
    announce_block b live o;;
    r ← vars result_receipt;
    failed ← vars result_failed;
    mret (mk_apply_block_result r failed)
  | _ => raise (exception unexpected_receipt_exception (str "expected block receipt") [])
  end.

(** The handler of [koinos::exception]. *)
Definition apply_failed (b : block) (o : apply_block_options) (ke : koinos_exception) : V apply_block_result :=
  discard_unfinalized;;
  ke ← add_block_logs ke;
  failed ← vars result_failed;
  if propose_block o && nonempty failed then
    (if emits o then
       at_controller (send_all ((λ i, transaction_failed (default [] (trx_id <$> transactions b !! Z.to_nat i))) <$> failed))
     else mret tt);;
    r ← vars result_receipt;
    mret (mk_apply_block_result r failed)
  else
    (if emits o then
       match json_transaction_id ke with
       | Some i => at_controller (send (transaction_failed i))
       | None => mret tt
       end
     else mret tt);;
    raise (Koinos ke).

Definition apply_handler (b : block) (o : apply_block_options) (e : exn) : V apply_block_result :=
  match e with
  | Koinos ke =>
    if bool_decide (name ke = block_state_error_exception) then raise e else apply_failed b o ke
  | StdException => discard_unfinalized;; raise e
  | NullDereference => raise e
  end.

Definition no_apply_result : apply_block_result := mk_apply_block_result None [].

(** A block without its parent: before the root, the root, or unknown. *)
Definition orphan_block (block_id_ : multihash) (height_ : Z) (l : option lock) : C unit :=
  root ← on_db (get_root_shared l);
  root_revision ← on_node (revision (_state root));
  assert_c (root_revision <=? height_) pre_irreversibility_block_exception "block is prior to irreversibility";;
  root_id ← on_node (StateDelta.id (_state root));
  assert_c (bool_decide (block_id_ = root_id)) unknown_previous_block_exception "unknown previous block".

Definition apply_block_with (b : block) (o : apply_block_options) (io : interference) : V apply_block_result :=
  let time_upper_bound := u64 (ms_of (application_time o + 5000000000)) in
  block_id_ ← converted (to_multihash (block_id b));
  parent_id ← converted (to_multihash (previous (header b)));
  applied ← at_controller (on_db (get_node_shared block_id_ shared_lock));
  parent ← at_controller (on_db (get_node_shared parent_id shared_lock));
  match applied, parent with
  | Some _, _ => mret no_apply_result
  | None, None => at_controller (orphan_block block_id_ (height (header b)) shared_lock);; mret no_apply_result
  | None, Some parent =>
    finalized ← at_controller (on_node (is_finalized (_state parent)));
    assert_c finalized unknown_previous_block_exception "unknown previous block";;
    let live := u64 (ms_of (application_time o - 60000000000)) <? block_timestamp b in
    node ← at_controller (on_db (create_writable_node_shared parent_id block_id_ (stored_header (header b)) shared_lock
             (creation io)));
    mod_vars (set_block_node node);;
    bounds ← (if bool_decide (is_Some node) && negb (is_zero parent_id) then at_controller (parent_info parent)
              else mret (0, 0));
    let (parent_height, time_lower_bound) := bounds : Z * Z in
    try_catch
      (apply_body b o io parent block_id_ parent_id parent_height time_lower_bound time_upper_bound live)
      (apply_handler b o)
  end.

Definition apply_block (b : block) (o : apply_block_options) (io : interference) : C apply_block_result :=
  validate_block b;;
  with_variables (initial_variables (if propose_block o then block_proposal else block_application))
    (apply_block_with b o io).

(** ** Replaying receipts *)

Definition replay_entry (node : state_node) (e : state_delta_entry) : C unit :=
  match entry_value e with
  | Some v => on_node (StateNode.put_object (_state node) (entry_space e) (entry_key e) v);; mret tt
  | None => on_node (StateNode.remove_object_preserve_tombstone (_state node) (entry_space e) (entry_key e));; mret tt
  end.

Fixpoint replay_entries (node : option state_node) (l : list state_delta_entry) : C unit :=
  match l with
  | [] => mret tt
  | e :: l => n ← deref_ node; replay_entry n e;; replay_entries node l
  end.

Definition delta_body (b : block) (r : block_receipt) (expected_root : option bytes) (block_id_ : multihash)
    (io : interference) : V bool :=
  node ← vars block_node;
  at_controller (replay_entries node (br_state_delta_entries r));;
  (if nonempty (br_state_merkle_root r) then
     n ← deref_ node;
     root ← at_controller (pending_root n);
     assert_c (bool_decide (br_state_merkle_root r = root)) state_merkle_mismatch_exception "block receipt state merkle mismatch"
   else mret tt);;
  n ← deref_ node;
  replayed_root ← at_controller (pending_root n);
  let mismatch :=
    match expected_root with
    | Some e => negb (bool_decide (e = replayed_root))
                && negb (Rectify.acceptable_rectified_previous_root (block_id b) replayed_root e)
    | None => false
    end in
  if (mismatch : bool) then
    mod_vars (set_block_node None);;
    on_context clear_state_node;;
    l ← vars db_lock;
    at_controller (on_db (discard_node_shared block_id_ ∅ l));;
    mod_vars (set_db_lock None);;
    mret true
  else
    on_context (push_frame (frame_of [] kernel_mode);; set_state_node (node_of <$> node) None;; reset_cache);;
    lib ← on_context (sys SystemCall.get_last_irreversible_block);
    finalize_block b block_id_ lib false io;;
    mret false.

Definition delta_handler (e : exn) : V bool :=
  match e with
  | Koinos ke =>
    if bool_decide (name ke = block_state_error_exception) then raise e
    else discard_unfinalized;; ke ← add_block_logs ke; raise (Koinos ke)
  | StdException => discard_unfinalized;; raise e
  | NullDereference => raise e
  end.

(** [None] is a block that is the root. *)
Definition replay_block (b : block) (r : block_receipt) (expected_root : option bytes) (block_id_ : multihash)
    (io : interference) : V (option bool) :=
  parent_id ← converted (to_multihash (previous (header b)));
  applied ← at_controller (on_db (get_node_shared block_id_ shared_lock));
  parent ← at_controller (on_db (get_node_shared parent_id shared_lock));
  (match applied with
   | Some _ => at_controller (on_db (discard_node_shared block_id_ ∅ shared_lock))
   | None => mret tt
   end);;
  match parent with
  | None => at_controller (orphan_block block_id_ (height (header b)) shared_lock);; mret None
  | Some parent =>
    at_controller (assert_previous_root b parent);;
    node ← at_controller (on_db (create_writable_node_shared parent_id block_id_ (stored_header (header b)) shared_lock
             (creation io)));
    mod_vars (set_block_node node);;
    reexecute ← try_catch (delta_body b r expected_root block_id_ io) delta_handler;
    mret (Some reexecute)
  end.

(** The second interference is that of the execution of a block whose replay
    has another root, at the time [now]. *)
Definition apply_block_delta (b : block) (r : block_receipt) (index_to_ : Z) (expected_root : option bytes)
    (io io' : interference) (now : Z) : C bool :=
  block_id_ ← converted (to_multihash (block_id b));
  replayed ← with_variables (initial_variables block_application) (replay_block b r expected_root block_id_ io);
  match replayed with
  | None => mret false
  | Some false => mret false
  | Some true =>
    apply_block b (mk_apply_block_options index_to_ now false expected_root false) io';;
    node ← on_db (get_node_shared block_id_ shared_lock);
    assert_c (bool_decide (is_Some node)) block_state_error_exception "re-executed block node is missing after fallback";;
    mret true
  end.

(** ** Transactions *)

Definition payee_of (t : transaction) : bytes :=
  let h := trx_header t in if nonempty (payee h) then payee h else payer h.

Definition mempool_failure {A} (template : string) : C A := raise (exception rpc_failure_exception (str template) []).

(** What a response must be. *)
Definition expect {A} (f : response → option A) (r : response) : C A :=
  match r with
  | response_throws e => raise e
  | response_error => mempool_failure "received error from mempool: ${e}"
  | r => match f r with Some a => mret a | None => mempool_failure "received unexpected response from mempool" end
  end.

(** The checks of the mempool, and its nonce for the account. *)
Definition ask_mempool (client : services) (t : transaction) (max_payer_rc : Z) : C (option value_type) :=
  let h := trx_header t in
  r1 ← rpc client (check_pending_account_resources (payer h) max_payer_rc (rc_limit h));
  r2 ← rpc client (check_account_nonce (payee_of t) (nonce h));
  r3 ← rpc client (get_pending_nonce (payee_of t));
  r4 ← match _pending_transaction_limit with
       | Some _ => r ← rpc client (get_pending_transaction_count (payee_of t)); mret (Some r)
       | None => mret None
       end;
  ok ← expect (λ r, match r with response_check_pending_account_resources b => Some b | _ => None end) r1;
  assert_c ok insufficient_rc_exception "insufficient pending account resources";;
  ok ← expect (λ r, match r with response_check_account_nonce b => Some b | _ => None end) r2;
  assert_c ok invalid_nonce_exception "invalid account nonce";;
  n ← expect (λ r, match r with response_pending_nonce n => Some n | _ => None end) r3;
  mempool_nonce ← converted (to_message (A := value_type) n);
  (match _pending_transaction_limit, r4 with
   | Some limit, Some r4 =>
     count ← expect (λ r, match r with response_pending_transaction_count n => Some n | _ => None end) r4;
     assert_c (count <? limit) pending_transaction_limit_exceeded_exception "pending transaction limit exceeded"
   | _, _ => mret tt
   end);;
  mret (if has_uint64_value mempool_nonce then Some mempool_nonce else None).

(** The context of a read of the head's state, on an anonymous child of it. *)
Definition at_head (l : option lock) : C StateNode.abstract_state_node :=
  head ← on_db (get_head_shared l);
  on_node (StateNode.create_anonymous_node (node_of head)).

Definition submit_body (t : transaction) (broadcast : bool) : V transaction_receipt :=
  on_context reset_cache;;
  max_payer_rc ← on_context (sys (SystemCall.get_account_rc (payer (trx_header t))));
  (match _client with
   | Some client =>
     if (broadcast : bool) then
       n ← at_controller (ask_mempool client t max_payer_rc);
       match n with Some n => on_context (set_mempool_nonce n) | None => mret tt end
     else mret tt
   | None => mret tt
   end);;
  on_context
    (limits ← sys SystemCall.get_resource_limits;
     on_meter (ResourceMeter.set_resource_limit_data limits);;
     sys (SystemCall.apply_transaction t));;
  c ← vars context;
  match _receipt c with
  | is_transaction_receipt r =>
    (match _client with
     | Some _ =>
       if (broadcast : bool) then
         node ← deref_ (_current_state_node c);
         height ← on_context (node_revision node);
         let m := _resource_meter c in
         at_controller (send (transaction_accepted t r height
           (u64 (ResourceMeter.disk_storage_used m - tr_disk_storage_used r))
           (u64 (ResourceMeter.network_bandwidth_used m - tr_network_bandwidth_used r))
           (u64 (ResourceMeter.compute_bandwidth_used m - tr_compute_bandwidth_used r))))
       else mret tt
     | None => mret tt
     end);;
    mret r
  | _ => raise (exception unexpected_receipt_exception (str "expected transaction receipt") [])
  end.

Definition submit_handler (e : exn) : V transaction_receipt :=
  match e with
  | Koinos ke =>
    c ← vars context;
    raise (Koinos (match _receipt c with
                   | is_transaction_receipt r =>
                     mk_koinos_exception (name ke) (Chain.code ke) (data ke) (json_transaction_id ke) (Some (tr_logs r))
                   | _ => ke
                   end))
  | _ => raise e
  end.

Definition submit_transaction (t : transaction) (broadcast : bool) : C transaction_receipt :=
  validate_transaction t;;
  with_variables (initial_variables transaction_application)
    (head_block ← at_controller (gets_state _cached_head_block);
     node ← at_controller (at_head shared_lock);
     on_context (set_block head_block;; set_state_node (Some node) None;; push_frame (frame_of [] kernel_mode));;
     try_catch (submit_body t broadcast) submit_handler).

(** ** Reads *)

(** A system call on the state of the head, from a frame. *)
Definition read_head {A} (f : stack_frame) (c : SystemCall.call A) : C A :=
  node ← at_head shared_lock;
  with_context (ExecutionContext.new read_only)
    (push_frame f;; set_state_node (Some node) None;; reset_cache;; sys c).

(** The topology of the head, the last irreversible block, the root of the
    state and the time of the head. *)
Definition get_head_info : C (block_topology * Z * bytes * Z) :=
  head_block ← gets_state _cached_head_block;
  head ← on_db (get_head_shared shared_lock);
  node ← on_node (StateNode.create_anonymous_node (node_of head));
  i ← with_context (ExecutionContext.new read_only)
        (push_frame (frame_of [] kernel_mode);; set_state_node (Some node) None;; set_block head_block;; reset_cache;;
         sys SystemCall.get_head_info);
  root ← on_node (StateNode.node_merkle_root (_state head));
  mret (head_topology i, last_irreversible_block i, as_multihash root, head_block_time i).

Definition get_chain_id : C bytes := read_head (frame_of [] kernel_mode) SystemCall.get_chain_id.

Definition get_resource_limits : C ResourceMeter.resource_limit_data :=
  read_head (frame_of [] kernel_mode) SystemCall.get_resource_limits.

Definition get_account_rc (account : bytes) : C Z :=
  missing (nonempty account) "payer";;
  read_head (frame_of [] kernel_mode) (SystemCall.get_account_rc account).

Definition get_account_nonce (account : bytes) : C bytes :=
  missing (nonempty account) "account";;
  read_head (frame_of [] kernel_mode) (SystemCall.get_account_nonce account).

Definition get_fork_heads : C (list block_topology * block_topology) := get_fork_data shared_lock.

(** The limits of a read: compute bandwidth alone. *)
Definition read_limits : ResourceMeter.resource_limit_data :=
  ResourceMeter.mk_resource_limit_data 0 0 0 0 _read_compute_bandwidth_limit 0.

(** [throw e] of a reference to [koinos::exception]: a copy that has lost the
    derived class. *)
Definition sliced (ke : koinos_exception) (logs : list bytes) : exn :=
  Koinos (mk_koinos_exception (library_exception (str "koinos::exception")) (Chain.code ke) (data ke)
            (json_transaction_id ke) (Some logs)).

Definition read_contract (contract_id : bytes) (entry_point : Z) (args : bytes) : C (bytes * list bytes) :=
  missing (nonempty contract_id) "contract_id";;
  head_block ← gets_state _cached_head_block;
  node ← at_head shared_lock;
  with_context (ExecutionContext.new read_only)
    (push_frame (frame_of [] user_mode);;
     set_state_node (Some node) None;;
     set_block head_block;;
     reset_cache;;
     on_meter (ResourceMeter.set_resource_limit_data read_limits);;
     r ← try_catch (sys (SystemCall.call_ contract_id entry_point args)) (λ e,
           match e with
           | Koinos ke => logs ← gets_ctx (λ c, Chronicler._logs (_chronicler c)); raise (sliced ke logs)
           | _ => raise e
           end);
     logs ← gets_ctx (λ c, Chronicler._logs (_chronicler c));
     mret (r, logs)).

(** [host_api::call] with a buffer, the arguments and the number of bytes
    written as its memory. *)
Definition call_in_buffer (sid : Z) (args : bytes) : M bytes := λ s,
  let size := Z.to_nat _syscall_bufsize in
  let len := Dispatch.byte_size args in
  let k := VirtualMachine.knot_at fuel VirtualMachine.full_depth in
  let '(r, (s, m)) :=
    Dispatch.host_call (VirtualMachine.sys k) (VirtualMachine.run_contract k) sid 0 _syscall_bufsize _syscall_bufsize
      len (_syscall_bufsize + len) (s, replicate size (ascii_of_N 0) ++ args ++ replicate 4 (ascii_of_N 0)) in
  let written := drop (size + length args) m in
  let n := foldr (λ c n, Prelude.code c + 256 * n) 0 written in
  (match r with Ok _ => Ok (take (Z.to_nat n) m) | Throw e => Throw e | OutOfFuel => OutOfFuel end, s).

Definition invoke_system_call (id : option Z) (name : option bytes) (caller : option caller_data) (args : bytes) : C bytes :=
  (if bool_decide (is_Some id) || bool_decide (is_Some name) then mret tt
   else raise (exception missing_required_arguments_exception (str "missing expected field: ${f1} or ${f2}") []));;
  node ← at_head shared_lock;
  let f := match caller with
           | Some c => frame_of (Chain.caller c) (caller_privilege c)
           | None => frame_of [] kernel_mode
           end in
  with_context (ExecutionContext.new read_only)
    (push_frame f;;
     set_state_node (Some node) None;;
     reset_cache;;
     on_meter (ResourceMeter.set_resource_limit_data read_limits);;
     sid ← match id, name with
           | Some i, _ => mret i
           | None, Some n =>
             match system_call_id_Parse n with
             | Some i => mret i
             | None => raise_ unknown_system_call_exception (str "unknown system call name") []
             end
           | None, None => raise NullDereference
           end;
     call_in_buffer sid args).

(** ** The controller's interface *)

Definition submit_block (b : block) (index_to_ now : Z) (io : interference) : C (option block_receipt) :=
  r ← apply_block b (mk_apply_block_options index_to_ now false None true) io; mret (receipt_ r).

(** A receipt, or the indices of the transactions that failed. *)
Definition propose_block_ (b : block) (index_to_ now : Z) (io : interference) : C (block_receipt + list Z) :=
  r ← apply_block b (mk_apply_block_options index_to_ now true None true) io;
  mret (match receipt_ r with Some r => inl r | None => inr (failed_transaction_indices r) end).

End Controller_.
End Controller.
