(* ===== verification/ProgramLogic.v ===== *)
(** A logic for programs that run side by side.

    [agrees I m m' Q]: from a state where [I] holds, [m] and [m'] do the same,
    [I] holds where they end, however they end, and [Q] holds of what they
    return.  With [m = m'] it says that [m] keeps [I]; with two bodies of an open
    recursion it says that a recursion does not depend on its depth.

    What the operations of state nodes leave alone: reads change nothing, and
    a write changes no delta but the one it is made on. *)

From S2P Require Import Prelude Keys MapBackend StateDelta StateNode StateDeltaFacts StateCommit.
From S2P Require Import MergeIterator ObjectIteration.


Create HintDb agrees discriminated.

Section Logic.
Context {S E : Type} (I : S → Prop).

Definition agrees {A} (m m' : prog S E A) (Q : A → Prop) : Prop :=
  ∀ s, I s → m s = m' s ∧ I (m s).2 ∧ ∀ a, (m s).1 = Ok a → Q a.

Abbreviation agrees_ m m' := (agrees m m' (λ _, True)).

Lemma agrees_weaken {A} (m m' : prog S E A) (Q Q' : A → Prop) :
  agrees m m' Q → (∀ a, Q a → Q' a) → agrees m m' Q'.
Proof. intros Hm HQ s Hs. destruct (Hm s Hs) as (? & ? & ?). eauto. Qed.

Lemma agrees_true {A} (m m' : prog S E A) (Q : A → Prop) : agrees m m' Q → agrees_ m m'.
Proof. intros Hm. by eapply agrees_weaken. Qed.

Lemma agrees_ret {A} (a : A) (Q : A → Prop) : Q a → agrees (mret a) (mret a) Q.
Proof. intros HQ s Hs. split_and!; [done..|]. by intros ? [= <-]. Qed.

Lemma agrees_raise {A} e (Q : A → Prop) : agrees (raise e) (raise e) Q.
Proof. intros s Hs. split_and!; done. Qed.

Lemma agrees_fuel {A} (Q : A → Prop) : agrees (λ s, (OutOfFuel, s)) (λ s, (OutOfFuel, s)) Q.
Proof. intros s Hs. split_and!; done. Qed.

Lemma agrees_bind {A B} (m m' : prog S E A) (k k' : A → prog S E B) (Q : A → Prop) (R : B → Prop) :
  agrees m m' Q → (∀ a, Q a → agrees (k a) (k' a) R) → agrees (m ≫= k) (m' ≫= k') R.
Proof.
  intros Hm Hk s Hs. destruct (Hm s Hs) as (He & Hi & HQ). rewrite !run_bind, <- He.
  destruct (m s) as [[a|e|] s1]; [|done..]. by apply Hk; [apply HQ|].
Qed.

Lemma agrees_bind_ {A B} (m m' : prog S E A) (k k' : A → prog S E B) (R : B → Prop) :
  agrees_ m m' → (∀ a, agrees (k a) (k' a) R) → agrees (m ≫= k) (m' ≫= k') R.
Proof. intros Hm Hk. eapply agrees_bind; [done|]. intros a _. apply Hk. Qed.

Lemma agrees_gets {A} (f : S → A) (Q : A → Prop) :
  (∀ s, I s → Q (f s)) → agrees (gets_state f) (gets_state f) Q.
Proof. intros HQ s Hs. split_and!; [done..|]. intros ? [= <-]. by apply HQ. Qed.

Lemma agrees_mod f : (∀ s, I s → I (f s)) → agrees_ (mod_state f) (mod_state f).
Proof. intros Hf s Hs. split_and!; [done|by apply Hf|done]. Qed.

Lemma agrees_catch {A} (m m' : prog S E A) (h h' : E → prog S E A) (Q : A → Prop) :
  agrees m m' Q → (∀ e, agrees (h e) (h' e) Q) → agrees (try_catch m h) (try_catch m' h') Q.
Proof.
  intros Hm Hh s Hs. destruct (Hm s Hs) as (He & Hi & HQ). unfold try_catch. rewrite <- He.
  destruct (m s) as [[a|e|] s1]; [done|by apply Hh|done].
Qed.

(** A program that only reads. *)
Definition reads_only {A} (m : prog S E A) : Prop := ∀ s, (m s).2 = s.

Lemma agrees_read {A} (m : prog S E A) : reads_only m → agrees_ m m.
Proof. intros Hm s Hs. rewrite Hm. done. Qed.

(** *** Reading *)

Lemma read_ret {A} (a : A) : reads_only (mret a).
Proof. done. Qed.
Lemma read_raise {A} e : reads_only (A := A) (raise e).
Proof. done. Qed.
Lemma read_fuel {A} : reads_only (A := A) (λ s, (OutOfFuel, s)).
Proof. done. Qed.
Lemma read_gets {A} (f : S → A) : reads_only (gets_state f).
Proof. done. Qed.
Lemma read_assert b e : reads_only (assert_that b e).
Proof. by destruct b. Qed.
Lemma read_bind {A B} (m : prog S E A) (k : A → prog S E B) :
  reads_only m → (∀ a, reads_only (k a)) → reads_only (m ≫= k).
Proof.
  intros Hm Hk s. rewrite run_bind. specialize (Hm s). destruct (m s) as [[a|e|] s1]; cbn in Hm; subst s1; [|done..].
  apply Hk.
Qed.

End Logic.

Abbreviation agrees_ I m m' := (agrees I m m' (λ _, True)).

Create HintDb reads discriminated.
#[export] Hint Resolve read_ret read_raise read_fuel read_gets read_assert : reads.

(** Programs that only read, by their syntax. *)
Ltac reading :=
  repeat first
    [ solve [eauto 1 with reads nocore]
    | apply read_bind; [|intros ?]
    | progress intros
    | match goal with
      | |- reads_only (match ?x with _ => _ end) => destruct x
      | |- reads_only (if ?b then _ else _) => destruct b
      | |- reads_only (let '_ := ?x in _) => destruct x
      end ].

#[export] Hint Resolve agrees_raise agrees_fuel : agrees.
#[export] Hint Extern 1 (agrees _ (mret _) (mret _) (λ _, True)) => apply agrees_ret; exact I : agrees.
#[export] Hint Extern 1 (agrees _ (gets_state _) (gets_state _) (λ _, True)) => apply agrees_gets; intros; exact I : agrees.

(** One step of a proof by the syntax of the programs. *)
Ltac agree_step :=
  first
    [ solve [eauto 2 with agrees nocore]
    | apply agrees_bind_; [|intros ?]
    | apply agrees_catch; [|intros ?]
    | progress intros
    | match goal with
      | |- agrees _ (match ?x with _ => _ end) _ _ => destruct x
      | |- agrees _ (if ?b then _ else _) _ _ => destruct b
      end ].

Ltac agree := repeat agree_step.

Import StateDelta StateNode.

Section Reads.
Context `{!Crypto} `{!DatabaseKeys} `{!Converter}.

Lemma read_deref l : reads_only (deref l).
Proof. unfold deref. reading. Qed.
#[local] Hint Resolve read_deref : reads.

Lemma read_backend l : reads_only (backend l).
Proof. unfold backend. reading. Qed.
Lemma read_is_removed l k : reads_only (is_removed l k).
Proof. unfold is_removed. reading. Qed.
Lemma read_is_root l : reads_only (is_root l).
Proof. unfold is_root. reading. Qed.
Lemma read_revision l : reads_only (revision l).
Proof. unfold revision. reading. Qed.
Lemma read_is_finalized l : reads_only (is_finalized l).
Proof. unfold is_finalized. reading. Qed.
Lemma read_id l : reads_only (id l).
Proof. unfold id. reading. Qed.
Lemma read_parent l : reads_only (parent l).
Proof. unfold parent. reading. Qed.
#[local] Hint Resolve read_backend read_is_removed read_is_root read_revision read_is_finalized read_id read_parent : reads.

Lemma read_is_modified l k : reads_only (is_modified l k).
Proof. unfold is_modified. reading. Qed.
Lemma read_parent_id l : reads_only (parent_id l).
Proof. unfold parent_id. reading. Qed.
Lemma read_find l k : reads_only (find l k).
Proof. unfold find. generalize (fuel_of l) at 1 as n. intros n. revert l. induction n; intros; cbn [find_loop]; reading. Qed.
Lemma read_object_keys l : reads_only (object_keys l).
Proof. unfold object_keys. reading. Qed.
#[local] Hint Resolve read_is_modified read_parent_id read_find read_object_keys : reads.

Lemma read_delta_entries l : reads_only (get_delta_entries l).
Proof. unfold get_delta_entries. reading. Qed.
Lemma read_pending_root l : reads_only (pending_merkle_root l).
Proof. unfold pending_merkle_root, calculate_merkle_root. reading. Qed.
Lemma read_get_object l sp k : reads_only (get_object l sp k).
Proof. unfold get_object. reading. Qed.

(** *** The merge iterator *)

Import MergeIterator.

Lemma read_key_of w : reads_only (key_of w).
Proof. unfold key_of. reading. Qed.
Lemma read_advance w : reads_only (advance w).
Proof. unfold advance. reading. Qed.
Lemma read_retreat w : reads_only (retreat w).
Proof. unfold retreat. reading. Qed.
Lemma read_first l : reads_only (first l).
Proof. unfold first. reading. Qed.
#[local] Hint Resolve read_key_of read_advance read_retreat read_first : reads.

Lemma read_is_dirty d w : reads_only (is_dirty d w).
Proof. unfold is_dirty. induction (reverse d); cbn [dirty_loop]; reading. Qed.
#[local] Hint Resolve read_is_dirty : reads.

Lemma read_resolve it : reads_only (resolve_conflicts it).
Proof.
  unfold resolve_conflicts. apply read_bind; [|reading].
  generalize (fuel_for (_itr_revision_index it)). intros n. generalize (_itr_revision_index it).
  induction n; intros; cbn [resolve_loop]; reading.
Qed.
#[local] Hint Resolve read_resolve : reads.

Lemma read_new l init : reads_only (new l init).
Proof.
  unfold new. apply read_bind; [|reading]. generalize (mk_merge_iterator [] []). generalize (fuel_of l). intros n.
  revert l. induction n; intros; cbn [collect]; reading.
Qed.
#[local] Hint Resolve read_new : reads.

Lemma read_increment it : reads_only (increment it).
Proof. unfold increment. reading. Qed.

Lemma read_rewind_one d hk w : reads_only (rewind_one d hk w).
Proof.
  unfold rewind_one. destruct (_ =? 0); [reading|]. apply read_bind.
  - destruct hk as [hk|]; [|reading]. apply read_bind; [reading|]. intros w'.
    generalize (S (size_of w')). intros n. revert w'. induction n; intros; cbn [rewind_loop]; reading.
  - intros w'. generalize (S (size_of w')). intros n. revert w'. induction n; intros; cbn [undirty_loop]; reading.
Qed.
#[local] Hint Resolve read_rewind_one : reads.

Lemma read_decrement it : reads_only (decrement it).
Proof.
  unfold decrement. apply read_bind; [reading|]. intros w. apply read_bind.
  { generalize (_itr_revision_index it). intros l. induction l; cbn [rewind_all]; reading. }
  intros l. destruct (_ <? _)%nat; [|reading]. apply read_bind.
  { generalize (by_reverse_order_revision l). intros l'. induction l'; cbn [least_loop]; reading. }
  intros [least|]; (apply read_bind; [|reading]); [|reading]. apply read_bind; [reading|]. intros k.
  generalize (fuel_for l). intros n. revert l. induction n; intros; cbn [forward_loop]; reading.
Qed.

Lemma read_value it : reads_only (value it).
Proof. unfold value. reading. Qed.
Lemma read_key it : reads_only (key it).
Proof. unfold key. reading. Qed.
#[local] Hint Resolve read_increment read_decrement read_value read_key : reads.

Lemma read_object_at it sp : reads_only (ObjectIteration.object_at it sp).
Proof. unfold ObjectIteration.object_at, ObjectIteration.convert. reading. Qed.
#[local] Hint Resolve read_object_at : reads.

Lemma read_get_next l sp k : reads_only (ObjectIteration.get_next_object l sp k).
Proof. unfold ObjectIteration.get_next_object, lower_bound, end_, begin_. reading. Qed.
Lemma read_get_prev l sp k : reads_only (ObjectIteration.get_prev_object l sp k).
Proof. unfold ObjectIteration.get_prev_object, lower_bound, end_, begin_. reading. Qed.

End Reads.

#[export] Hint Resolve read_deref read_backend read_is_removed read_is_root read_revision read_is_finalized read_id
  read_parent read_is_modified read_parent_id read_find read_delta_entries read_pending_root read_get_object read_get_next
  read_get_prev : reads.

(** ** Frames

    [hframe n W h0 h]: of the deltas below [n], those outside [W] are as in
    [h0], and all have their parents; the newer ones descend from those that
    may change. *)

Definition free (n : loc) (W : loc → Prop) (l : loc) : Prop := W l ∨ (n ≤ l)%positive.

(** No delta is where the next one goes. *)
Definition fresh_above (h : heap) : Prop := ∀ l, (next_loc h ≤ l)%positive → deltas h !! l = None.

Record hframe (n : loc) (W : loc → Prop) (h0 h : heap) : Prop := {
  hf_next : (n ≤ next_loc h)%positive;
  hf_fresh : fresh_above h;
  hf_same l : (l < n)%positive → ¬ W l → deltas h !! l = deltas h0 !! l;
  hf_parent l : (l < n)%positive → _parent <$> deltas h !! l = _parent <$> deltas h0 !! l;
  hf_new l d p : (n ≤ l)%positive → deltas h !! l = Some d → _parent d = Some p → free n W p
}.

(** A frame begins anywhere. *)
Lemma hframe_start W h : fresh_above h → hframe (next_loc h) W h h.
Proof. intros Hf. split; [lia|done..|]. intros l d p Hl Hd. by rewrite Hf in Hd. Qed.

Lemma hframe_trans n W W' h0 h1 h2 : hframe n W h0 h1 → hframe (next_loc h1) W' h1 h2 →
  (∀ l, W' l → free n W l) → hframe n W h0 h2.
Proof.
  intros [Hn Hf Hs Hp Hnew] [Hn' Hf' Hs' Hp' Hnew'] Hw. split.
  - lia.
  - done.
  - intros l Hl Hnw. rewrite <- Hs by done. apply Hs'; [lia|]. intros [?|?]%Hw; [done|lia].
  - intros l Hl. rewrite Hp' by lia. by apply Hp.
  - intros l d p Hl Hd Hpd. destruct (decide (l < next_loc h1)%positive) as [Hlt|Hge].
    + pose proof (Hp' l Hlt) as Hpar. rewrite Hd in Hpar. symmetry in Hpar. cbn in Hpar.
      apply fmap_Some in Hpar as (d1 & Hd1 & Heq). eapply Hnew; [done..|congruence].
    + destruct (Hnew' l d p) as [?|?]; [lia|done..|auto|]. right. lia.
Qed.

Section Frames.
Context `{!Crypto} `{!DatabaseKeys}.
Context (n : loc) (W : loc → Prop) (h0 : heap).
Abbreviation keeps_frame m := (agrees_ (hframe n W h0) m m).
Abbreviation free_ l := (free n W l).

Lemma modify_frame l f : free_ l → (∀ d, _parent (f d) = _parent d) → keeps_frame (modify l f).
Proof.
  intros Hl Hf h Hh. split; [done|]. split; [|done]. unfold modify. rewrite run_bind. unfold deref.
  rewrite run_gets. destruct (deltas h !! l) as [d|] eqn:Hd; [|done]. cbn [mret prog_ret].
  destruct Hh as [Hn Hfr Hs Hp Hnew]. split; cbn.
  - done.
  - intros x. cbn. intros Hx. rewrite lookup_insert_ne; [by apply Hfr|]. intros ->. by rewrite Hfr in Hd.
  - intros x Hx Hnw. rewrite lookup_insert_ne; [by apply Hs|]. intros ->. destruct Hl; [done|lia].
  - intros x Hx. destruct (decide (x = l)) as [->|Hne].
    + rewrite lookup_insert_eq. cbn. rewrite Hf, <- Hp, Hd by done. done.
    + rewrite lookup_insert_ne by done. by apply Hp.
  - intros x d' p Hx. destruct (decide (x = l)) as [->|Hne].
    + rewrite lookup_insert_eq. intros [= <-]. rewrite Hf. eauto.
    + rewrite lookup_insert_ne by done. eauto.
Qed.

Lemma on_backend_frame l f : free_ l → keeps_frame (on_backend l f).
Proof.
  intros Hl. unfold on_backend. apply agrees_bind_; [apply agrees_read, read_backend|]. intros b.
  by apply modify_frame.
Qed.

Lemma on_removed_frame l f : free_ l → keeps_frame (on_removed l f).
Proof. intros Hl. by apply modify_frame. Qed.

Lemma alloc_frame d : (∀ p, _parent d = Some p → free_ p) →
  agrees (hframe n W h0) (alloc d) (alloc d) (λ l, (n ≤ l)%positive).
Proof.
  intros Hd h [Hn Hfr Hs Hp Hnew]. split; [done|]. rewrite run_alloc. split; [|by intros ? [= <-]].
  split; cbn [fst snd alloc_delta deltas next_loc].
  - lia.
  - intros l Hl. cbn [alloc_delta deltas next_loc] in *. rewrite lookup_insert_ne by lia. apply Hfr. lia.
  - intros l Hl. rewrite lookup_insert_ne by lia. auto.
  - intros l Hl. rewrite lookup_insert_ne by lia. auto.
  - intros l d' p Hl. destruct (decide (l = next_loc h)) as [->|Hne].
    + rewrite lookup_insert_eq. intros [= <-]. apply Hd.
    + rewrite lookup_insert_ne by done. eauto.
Qed.

#[local] Hint Resolve on_backend_frame on_removed_frame : agrees.
#[local] Hint Extern 1 (agrees _ ?m ?m (λ _, True)) => apply agrees_read; solve [eauto 1 with reads nocore] : agrees.

Lemma put_frame l k v : free_ l → keeps_frame (put l k v).
Proof. apply on_backend_frame. Qed.

Lemma erase_frame l k t : free_ l → keeps_frame (erase l k t).
Proof. intros Hl. unfold erase. agree. Qed.

Lemma assert_frame b (e : exn) : keeps_frame (assert_that b e).
Proof. destruct b; cbn [assert_that]; agree. Qed.
#[local] Hint Resolve put_frame erase_frame assert_frame : agrees.

Lemma put_object_frame l sp k v : free_ l → keeps_frame (put_object l sp k v).
Proof. intros Hl. unfold put_object. agree. Qed.

Lemma remove_object_frame l sp k t : free_ l → keeps_frame (remove_object_ l sp k t).
Proof. intros Hl. unfold remove_object_. agree. Qed.

Lemma make_child_frame l i hd : free_ l →
  agrees (hframe n W h0) (make_child l i hd) (make_child l i hd) (λ l, (n ≤ l)%positive).
Proof.
  intros Hl. unfold make_child. apply agrees_bind_; [apply agrees_read, read_deref|]. intros d. apply alloc_frame.
  by intros ? [= <-].
Qed.

(** An anonymous node is new. *)
Definition new_node (x y : abstract_state_node) : Prop := ∃ l, y = AnonymousNode x l ∧ (n ≤ l)%positive.

Lemma create_anonymous_frame x : free_ (state_of x) →
  agrees (hframe n W h0) (create_anonymous_node x) (create_anonymous_node x) (new_node x).
Proof.
  intros Hx. unfold create_anonymous_node. eapply agrees_bind; [by apply make_child_frame|]. intros l Hl.
  apply agrees_ret. by exists l.
Qed.

Lemma for_each_frame {A} (f : A → prog heap exn unit) l : (∀ x, keeps_frame (f x)) → keeps_frame (for_each f l).
Proof. intros Hf. induction l as [|x l IH]; cbn [for_each]; [by apply agrees_ret|]. by apply agrees_bind_. Qed.

(** Squashing writes to the parent. *)
Lemma squash_frame l : (∀ h d p, hframe n W h0 h → deltas h !! l = Some d → _parent d = Some p → free_ p) →
  keeps_frame (squash l).
Proof.
  intros Hp. unfold squash. apply agrees_bind_; [agree|]. intros [|]; [agree|].
  apply (agrees_bind _ _ _ _ _ (λ d, ∀ p, _parent d = Some p → free_ p)).
  - intros h Hh. split; [done|]. rewrite read_deref. split; [done|]. intros d. unfold deref. rewrite run_gets.
    destruct (deltas h !! l) as [d'|] eqn:Hd; [|done]. intros [= <-] p Hpd. by eapply Hp.
  - intros d Hd. destruct (_parent d) as [p|]; [|agree]. specialize (Hd _ eq_refl).
    apply agrees_bind_; [apply for_each_frame; agree|]. intros ?.
    apply agrees_bind_; [agree|]. intros ?. apply for_each_frame. agree.
Qed.

Lemma anonymous_reset_frame x : free_ (state_of x) →
  agrees (hframe n W h0) (anonymous_reset x) (anonymous_reset x) (λ y, free_ (state_of y)).
Proof.
  intros Hx. destruct x as [l|x l]; cbn [anonymous_reset]; [apply agrees_raise|].
  eapply agrees_bind; [by apply make_child_frame|]. intros l' Hl. apply agrees_ret. by right.
Qed.

(** A new anonymous node may be committed. *)
Lemma anonymous_commit_frame x l : (n ≤ l)%positive →
  agrees (hframe n W h0) (anonymous_commit (AnonymousNode x l)) (anonymous_commit (AnonymousNode x l))
    (λ y, free_ (state_of y)).
Proof.
  intros Hl. cbn [anonymous_commit]. apply agrees_bind_; [agree|]. intros fin.
  apply agrees_bind_; [agree|]. intros ?. apply agrees_bind_; [apply squash_frame|].
  { intros h d p Hh Hd. by apply (hf_new _ _ _ _ Hh l). }
  intros ?. apply anonymous_reset_frame. by right.
Qed.

End Frames.
