(* ===== verification/ExecutionFacts.v ===== *)
(** What the parts of an execution keep.

    An invariant of executions is a predicate of the stack and the machine that
    looks at no more than the heap, the state nodes and the table of system
    calls: [closed].  Then every operation of the execution context that changes
    none of these keeps it, the reading thunks keep it whatever the system calls
    they make do, and so does a contract, if the thunks it can reach do.

    What the thunks and the contracts keep of an invariant of executions: the
    thunks that read, dispatch, the host API and the virtual machine.

    What dispatch, the host API and the virtual machine keep of an invariant of
    executions that the thunks keep. *)

From S2P Require Import Prelude Keys MapBackend StateDelta StateNode MergeIterator ObjectIteration Session.
From S2P Require Import Chronicler ResourceMeter ChainTypes ExecutionContext ProtoUtils SystemCalls Dispatch.
From S2P Require Import VirtualMachine ProgramLogic.
Import StateDelta StateNode Chain ExecutionContext.

(** Contexts that an invariant cannot tell apart. *)
Record ctx_same (c c' : execution_context) : Prop := {
  same_stack : _stack c' = _stack c;
  same_node : _current_state_node c' = _current_state_node c;
  same_parent : _parent_state_node c' = _parent_state_node c;
  same_table : system_call_table (_cache c') = system_call_table (_cache c)
}.

Abbreviation invariant := (list stack_frame → machine → Prop).

(** [overridable]: whether a system call may be overridden by a contract. *)
Class closed `{!Outside} (I : invariant) (overridable : Prop) : Prop := {
  closed_stack st s : I st s → _stack (ctx s) = st;
  closed_small st s : I st s → (length st ≤ 256)%nat;
  closed_same st s s' : I st s → heap_ s' = heap_ s → ctx_same (ctx s) (ctx s') → I st s';
  closed_frames st st' s : I st s → (length st' ≤ 256)%nat → I st' (set_ctx (with_stack st') s);
  closed_cache st id : agrees_ (I st) (cache_system_call id) (cache_system_call id);
  closed_exists st id : agrees (I st) (system_call_exists id) (system_call_exists id) (λ b, b = true → overridable)
}.

Section Facts.
Context `{!Outside} {I : invariant} {overridable : Prop} `{Hclosed : !closed I overridable}.

Abbreviation keeps st m := (agrees_ (I st) m m).

Lemma ctx_same_refl c : ctx_same c c.
Proof. done. Qed.

Lemma keeps_mod_ctx st f : (∀ c, ctx_same c (f c)) → keeps st (mod_ctx f).
Proof. intros Hf. apply agrees_mod. intros s Hs. by eapply closed_same; [done..|apply Hf]. Qed.

Lemma keeps_set_ctx st f s : (∀ c, ctx_same c (f c)) → I st s → I st (set_ctx f s).
Proof. intros Hf Hs. by eapply closed_same; [done..|apply Hf]. Qed.

Lemma keeps_gets_ctx {A} st (f : execution_context → A) : keeps st (gets_ctx f).
Proof. by apply agrees_gets. Qed.

Lemma keeps_raise_named {A} st n t l (Q : A → Prop) : agrees (I st) (raise_ n t l) (raise_ n t l) Q.
Proof. apply agrees_raise. Qed.

Lemma keeps_assert st b n t l : keeps st (koinos_assert b n t l).
Proof. destruct b; [by apply agrees_ret|apply agrees_raise]. Qed.

Lemma keeps_convert {A} st (r : exn + A) : keeps st (convert r).
Proof. destruct r; [apply agrees_raise|by apply agrees_ret]. Qed.

Lemma keeps_meter {A} st (m : prog ResourceMeter.metering meter_exn A) : keeps st (on_meter m).
Proof.
  intros s Hs. split; [done|]. split; [|done]. unfold on_meter. destruct (m _) as [[a|e|] x]; by eapply closed_same.
Qed.

Lemma keeps_heap {A} st (m : prog heap MapBackend.exn A) : reads_only m → keeps st (on_heap m).
Proof.
  intros Hm s Hs. split; [done|]. split; [|done]. unfold on_heap. specialize (Hm (heap_ s)).
  destruct (m (heap_ s)) as [[a|e|] h]; cbn in Hm; subst h; by eapply closed_same.
Qed.

Lemma keeps_finally {A} st (m m' : M A) f Q : agrees (I st) m m' Q → (∀ c, ctx_same c (f c)) →
  agrees (I st) (finally m f) (finally m' f) Q.
Proof.
  intros Hm Hf s Hs. destruct (Hm s Hs) as (He & Hi & HQ). unfold finally. rewrite <- He.
  destruct (m s) as [r s']. split; [done|]. split; [by apply keeps_set_ctx|done].
Qed.

(** *** The stack *)

Lemma run_push st s f : I st s →
  push_frame f s = if (length st <? 256)%nat then (Ok tt, set_ctx (with_stack (f :: st)) s)
                   else raise_ reversion_exception (str "apply context stack overflow") [] s.
Proof.
  intros Hs. unfold push_frame. unfold gets_ctx. rewrite run_gets, (closed_stack _ _ Hs), run_bind. unfold stack_limit.
  destruct (Nat.ltb_spec (length st) 256); destruct (Z.ltb_spec (Z.of_nat (length st)) 256); try lia; done.
Qed.

Lemma keeps_with_frame {A} st f (m m' : M A) Q : ((length st < 256)%nat → agrees (I (f :: st)) m m' Q) →
  agrees (I st) (with_stack_frame f m) (with_stack_frame f m') Q.
Proof.
  intros Hm s Hs. unfold with_stack_frame. rewrite !run_bind, (run_push _ _ _ Hs).
  destruct (Nat.ltb_spec (length st) 256) as [Hl|]; [|by split_and!].
  assert (I (f :: st) (set_ctx (with_stack (f :: st)) s)) as Hs' by (eapply closed_frames; [done|cbn; lia]).
  destruct (Hm Hl _ Hs') as (He & Hi & HQ). unfold finally. rewrite <- He. destruct (m _) as [r s'].
  split; [done|]. split; [|done]. unfold set_ctx. cbn. pose proof (closed_stack _ _ Hi) as Hst. cbn in Hst.
  rewrite Hst. cbn. eapply closed_frames in Hi; [exact Hi|]. cbn. lia.
Qed.

Lemma keeps_with_privilege {A} f st p (m m' : M A) Q : agrees (I (frame_with_privilege p f :: st)) m m' Q →
  agrees (I (f :: st)) (with_privilege p m) (with_privilege p m') Q.
Proof.
  intros Hm s Hs. unfold with_privilege. pose proof (closed_stack _ _ Hs) as Hst. pose proof (closed_small _ _ Hs) as Hsm.
  rewrite !run_bind. unfold get_privilege, gets_ctx. rewrite run_gets, Hst. cbn [mret prog_ret].
  assert (set_privilege p s = (Ok tt, set_ctx (put_privilege p) s)) as Hset.
  { unfold set_privilege, gets_ctx. rewrite run_gets, Hst, (bool_decide_eq_false_2 (f :: st = [])) by done. done. }
  rewrite !run_bind, Hset.
  assert (set_ctx (put_privilege p) s = set_ctx (with_stack (frame_with_privilege p f :: st)) s) as ->.
  { unfold set_ctx, put_privilege. by rewrite Hst. }
  assert (I (frame_with_privilege p f :: st) (set_ctx (with_stack (frame_with_privilege p f :: st)) s)) as Hs'.
  { eapply closed_frames; [done|]. cbn in *. lia. }
  destruct (Hm _ Hs') as (He & Hi & HQ). unfold finally. rewrite <- He. destruct (m _) as [r s'].
  split; [done|]. split; [|done]. cbn in Hi |- *. pose proof (closed_stack _ _ Hi) as Hst'.
  assert (set_ctx (put_privilege (call_privilege f)) s' = set_ctx (with_stack (f :: st)) s') as ->.
  { unfold set_ctx, put_privilege. rewrite Hst'. by destruct f. }
  by eapply closed_frames.
Qed.

Lemma gets_stack {A} st (f : execution_context → A) (g : list stack_frame → A) (Q : A → Prop) :
  (∀ c, f c = g (_stack c)) → Q (g st) → agrees (I st) (gets_ctx f) (gets_ctx f) Q.
Proof. intros Hf HQ. apply agrees_gets. intros s Hs. rewrite Hf. by rewrite (closed_stack _ _ Hs). Qed.

Lemma run_pop f st s : I (f :: st) s → pop_frame s = (Ok f, set_ctx (with_stack st) s).
Proof. intros Hs. unfold pop_frame, gets_ctx. by rewrite run_gets, (closed_stack _ _ Hs). Qed.

Lemma run_gets_ctx {A B} (f : execution_context → A) (k : A → M B) s : (gets_ctx f ≫= k) s = k (f (ctx s)) s.
Proof. done. Qed.

Lemma keeps_get_caller f f' st : keeps (f :: f' :: st) Thunk.get_caller_.
Proof.
  intros s Hs. split; [done|]. split; [|done]. pose proof (closed_small _ _ Hs) as Hsm. cbn in Hsm.
  assert (I (f' :: st) (set_ctx (with_stack (f' :: st)) s)) as H1 by (eapply closed_frames; [done|cbn; lia]).
  eassert (I st _) as H2 by (eapply closed_frames; [exact H1|lia]).
  eassert (I (f' :: st) _) as H3 by (eapply (closed_frames _ (f' :: st)); [exact H2|cbn; lia]).
  unfold Thunk.get_caller_. rewrite run_bind, (run_pop _ _ _ Hs), run_bind, (run_pop _ _ _ H1), !run_gets_ctx.
  rewrite run_bind, (run_push _ _ _ H2). destruct (Nat.ltb_spec (length st) 256); [|lia].
  rewrite run_bind, (run_push _ _ _ H3). cbn [length]. destruct (Nat.ltb_spec (S (length st)) 256); [|lia].
  eapply closed_frames; [exact H3|cbn; lia].
Qed.

(** *** With variables of its own *)

Abbreviation with_vars X st := (λ s : machine * X, I st s.1).

Lemma keeps_at_machine {X A} st (m m' : M A) Q : agrees (I st) m m' Q →
  agrees (with_vars X st) (at_machine m) (at_machine m') Q.
Proof.
  intros Hm [s x] Hs. cbn in Hs. destruct (Hm s Hs) as (He & Hi & HQ). unfold at_machine. cbn. rewrite <- He.
  destruct (m s) as [r s']. by split_and!.
Qed.

Lemma keeps_vars {X} st (f : machine * X → machine * X) : (∀ s, (f s).1 = s.1) →
  agrees_ (with_vars X st) (mod_state f : prog (machine * X) exn unit) (mod_state f).
Proof. intros Hf. apply agrees_mod. intros s Hs. by rewrite Hf. Qed.

Lemma keeps_finally_with {X A} st (m m' : prog (machine * X) exn A) f Q : agrees (with_vars X st) m m' Q →
  (∀ c, ctx_same c (f c)) → agrees (with_vars X st) (finally_with m f) (finally_with m' f) Q.
Proof.
  intros Hm Hf s Hs. destruct (Hm s Hs) as (He & Hi & HQ). unfold finally_with. rewrite <- He.
  destruct (m s) as [r s']. split; [done|]. split; [by apply keeps_set_ctx|done].
Qed.

End Facts.

#[export] Hint Resolve keeps_gets_ctx keeps_raise_named keeps_assert keeps_convert keeps_meter : agrees.
#[export] Hint Extern 1 (agrees _ (on_heap _) (on_heap _) _) => apply keeps_heap; solve [eauto 1 with reads nocore] : agrees.
#[export] Hint Extern 1 (agrees _ (mod_ctx _) (mod_ctx _) _) => apply keeps_mod_ctx; done : agrees.
#[export] Hint Extern 1 (agrees _ (Thunk.mod_locals _) (Thunk.mod_locals _) _) => apply keeps_vars; done : agrees.
#[export] Hint Extern 2 (agrees _ (at_machine _) (at_machine _) _) => apply keeps_at_machine : agrees.
#[export] Hint Extern 0 (closed _ _) => typeclasses eauto : agrees.

Import StateDelta StateNode Chain ExecutionContext SystemCall Thunk.

(** The calls that write objects or apply blocks, transactions or operations. *)
Definition harmless {A} (c : call A) : bool :=
  match c with
  | apply_block _ | apply_transaction _ | apply_upload_contract_operation _ | apply_call_contract_operation _
  | apply_set_system_call_operation _ | apply_set_system_contract_operation _ | set_account_nonce _ _
  | put_object _ _ _ | remove_object _ _ => false
  | _ => true
  end.

(** What is known of an object that was read. *)
Definition post (P : object_space → database_object → Prop) {A} (c : call A) : A → Prop :=
  match c in call A return A → Prop with get_object sp _ => P sp | _ => λ _, True end.

Section Facts.
Context `{!Outside} `{!Reflection} {I : invariant} {overridable : Prop} `{Hclosed : !closed I overridable}.

Abbreviation keeps st m := (agrees_ (I st) m m).

(** *** The execution context *)

Lemma keeps_deref st n : keeps st (deref_node n).
Proof. destruct n; cbn [deref_node]; agree. Qed.
Lemma keeps_node_id st n : keeps st (node_id n).
Proof. unfold node_id. agree. Qed.
Lemma keeps_node_parent_id st n : keeps st (node_parent_id n).
Proof. unfold node_parent_id. agree. Qed.
Lemma keeps_node_revision st n : keeps st (node_revision n).
Proof. unfold node_revision. agree. Qed.
Lemma keeps_node_parent st n : keeps st (node_parent n).
Proof. destruct n; cbn [node_parent]; agree. Qed.
Lemma keeps_get_state_node st : keeps st get_state_node.
Proof. unfold get_state_node. agree. Qed.
Lemma keeps_get_parent_node st : keeps st get_parent_node.
Proof. unfold get_parent_node. agree. Qed.
Lemma keeps_current_node st : keeps st current_node.
Proof. unfold current_node, get_state_node. agree. Qed.
#[local] Hint Resolve keeps_deref keeps_node_id keeps_node_parent_id keeps_node_revision keeps_get_state_node
  keeps_get_parent_node keeps_current_node : agrees.

Lemma keeps_parent_object st sp k : keeps st (parent_object sp k).
Proof. unfold parent_object. agree. Qed.
#[local] Hint Resolve keeps_parent_object : agrees.

Lemma keeps_get_compute_bandwidth st n : keeps st (get_compute_bandwidth n).
Proof. unfold get_compute_bandwidth, get_cache, build_compute_registry_cache. agree. Qed.
Lemma keeps_descriptor_pool st : keeps st descriptor_pool.
Proof. unfold descriptor_pool, get_cache, build_descriptor_pool. agree. Qed.
Lemma keeps_block_hash_code st : keeps st block_hash_code.
Proof. unfold block_hash_code, get_cache, build_block_hash_code_cache. agree. Qed.
Lemma keeps_use_compute st n : keeps st (use_compute_bandwidth n).
Proof. unfold use_compute_bandwidth. agree. Qed.
Lemma keeps_use_disk st n : keeps st (use_disk_storage n).
Proof. unfold use_disk_storage. agree. Qed.
Lemma keeps_use_network st n : keeps st (use_network_bandwidth n).
Proof. unfold use_network_bandwidth. agree. Qed.
Lemma keeps_permissions st sp : keeps st (assert_permissions sp).
Proof. unfold assert_permissions. agree. Qed.
Lemma keeps_set_result st r : keeps st (set_result r).
Proof. unfold set_result. agree. Qed.
Lemma keeps_set_receipt st r : keeps st (set_receipt r).
Proof. unfold set_receipt. agree. Qed.
Lemma keeps_push_log st m : keeps st (log_ m).
Proof. unfold log_. agree. Qed.
Lemma keeps_require_kernel st : keeps st require_kernel.
Proof. unfold require_kernel. agree. Qed.
Lemma keeps_require_writable st : keeps st require_writable.
Proof. unfold require_writable. agree. Qed.
Lemma keeps_meter_state st : keeps st meter.
Proof. unfold meter. agree. Qed.
Lemma keeps_delta_entries st : keeps st delta_entries.
Proof. unfold delta_entries. agree. Qed.
Lemma keeps_translation st id : keeps st (thunk_translation id).
Proof.
  unfold thunk_translation, get_cache. apply agrees_bind_; [apply closed_cache|intros ?]. agree.
Qed.
#[local] Hint Resolve keeps_get_compute_bandwidth keeps_descriptor_pool keeps_block_hash_code keeps_use_compute keeps_use_disk
  keeps_use_network keeps_permissions keeps_set_result keeps_set_receipt keeps_push_log keeps_require_kernel
  keeps_require_writable keeps_meter_state keeps_delta_entries keeps_translation : agrees.

Lemma keeps_charge_thunk st id : keeps st (Dispatch.charge_thunk id).
Proof. unfold Dispatch.charge_thunk. agree. Qed.
Lemma keeps_charge_object st o : keeps st (charge_object o).
Proof. unfold charge_object. agree. Qed.
Lemma keeps_hash_code st i : keeps st (validate_hash_code i).
Proof. unfold validate_hash_code. agree. Qed.
Lemma keeps_hash_keys st i : keeps st (hash_compute_keys i).
Proof. unfold hash_compute_keys. agree. Qed.
#[local] Hint Resolve keeps_charge_thunk keeps_charge_object keeps_hash_code keeps_hash_keys : agrees.

Lemma keeps_for_all {A B} st (f f' : A → M B) l : (∀ x, agrees_ (I st) (f x) (f' x)) →
  agrees_ (I st) (for_all f l) (for_all f' l).
Proof. intros Hf. induction l as [|x l IH]; cbn [for_all]; agree; auto. Qed.

Lemma keeps_for_each {A} st (f f' : A → M unit) l : (∀ x, agrees_ (I st) (f x) (f' x)) →
  agrees_ (I st) (for_each_ f l) (for_each_ f' l).
Proof. intros Hf. induction l as [|x l IH]; cbn [for_each_]; agree; auto. Qed.

(** *** Fields of messages *)

Lemma keeps_field st m f t : keeps st (ProtoUtils.get_field_value m f t).
Proof. unfold ProtoUtils.get_field_value, ProtoUtils.unexpected_type. destruct t; agree. Qed.
Lemma keeps_repeated_field st m f t : keeps st (ProtoUtils.get_repeated_field_value m f t).
Proof. unfold ProtoUtils.get_repeated_field_value, ProtoUtils.unexpected_type. destruct t; agree. Qed.
#[local] Hint Resolve keeps_field keeps_repeated_field : agrees.

Lemma keeps_walk_path st p d m : keeps st (ProtoUtils.walk_path p d m).
Proof. revert d m. induction p as [|s p IH]; intros; cbn [ProtoUtils.walk_path]; agree. Qed.
#[local] Hint Resolve keeps_walk_path : agrees.

Lemma keeps_nested st m f : keeps st (ProtoUtils.get_nested_field_value m f).
Proof. unfold ProtoUtils.get_nested_field_value. agree. Qed.
#[local] Hint Resolve keeps_nested : agrees.

(** *** Thunks that make no system call *)

Lemma keeps_get_transaction st : keeps st get_transaction_.
Proof. unfold get_transaction_. agree. Qed.
Lemma keeps_get_block st : keeps st get_block_.
Proof. unfold get_block_. agree. Qed.
#[local] Hint Resolve keeps_get_transaction keeps_get_block : agrees.

Lemma keeps_get_object st sp k : keeps st (get_object_ sp k).
Proof. unfold get_object_. agree. Qed.
Lemma keeps_found_object st r : keeps st (found_object r).
Proof. unfold found_object. agree. Qed.
#[local] Hint Resolve keeps_found_object : agrees.
Lemma keeps_get_next st sp k : keeps st (get_next_object_ sp k).
Proof. unfold get_next_object_. agree. Qed.
Lemma keeps_get_prev st sp k : keeps st (get_prev_object_ sp k).
Proof. unfold get_prev_object_. agree. Qed.
Lemma keeps_event st n d l : keeps st (event_ n d l).
Proof. unfold event_. agree. Qed.
Lemma keeps_hash st i o n : keeps st (hash_ i o n).
Proof. unfold hash_. agree. Qed.
Lemma keeps_recover st t s d c : keeps st (recover_public_key_ t s d c).
Proof. unfold recover_public_key_. agree. Qed.
Lemma keeps_verify_merkle st r l : keeps st (verify_merkle_root_ r l).
Proof. unfold verify_merkle_root_. agree. apply keeps_for_all. agree. Qed.
Lemma keeps_vrf st t k p h m : keeps st (verify_vrf_proof_ t k p h m).
Proof. unfold verify_vrf_proof_. agree. Qed.
Lemma keeps_exit st n r : keeps st (exit_ n r).
Proof. unfold exit_. agree. Qed.
Lemma keeps_arguments st : keeps st get_arguments_.
Proof. unfold get_arguments_, get_contract_entry_point, get_contract_call_args. agree. Qed.
#[local] Hint Resolve keeps_get_object keeps_get_next keeps_get_prev keeps_event keeps_hash keeps_recover keeps_verify_merkle
  keeps_vrf keeps_exit keeps_arguments : agrees.

Lemma keeps_two_frames st : (2 ≤ length st)%nat → keeps st get_caller_.
Proof. destruct st as [|f [|f' rest]]; cbn [length]; intros ?; [lia..|]. apply keeps_get_caller. Qed.

(** *** Receipts *)

Lemma keeps_finish st trx : agrees_ (λ s : machine * trx_locals, I st s.1) (finish_receipt trx) (finish_receipt trx).
Proof.
  unfold finish_receipt. apply agrees_bind_; [by apply agrees_gets|intros ?]. apply keeps_at_machine.
  unfold generate_transaction_receipt, deliver_receipt. agree.
Qed.

Lemma keeps_receipt st b d x c : keeps st (receipt_of_block b d x c).
Proof. unfold receipt_of_block, generate_block_receipt. agree. Qed.

(** ** Thunks over the system calls *)

Section Thunks.
Context (sys sys' : ∀ A, call A → M A) (run run' : bytes → bytes → M unit) (P : object_space → database_object → Prop).
Context (st : list stack_frame).
Context (Hsys : ∀ A (c : call A), harmless c = true → agrees (I st) (sys A c) (sys' A c) (post P c)).

Lemma keeps_sys {A} (c : call A) : harmless c = true → agrees_ (I st) (sys A c) (sys' A c).
Proof. intros Hc. by eapply agrees_true, Hsys. Qed.
#[local] Hint Extern 1 (agrees _ (sys _ _) (sys' _ _) _) => apply keeps_sys; reflexivity : agrees.

Lemma keeps_signed_by a d l : agrees_ (I st) (signed_by sys a d l) (signed_by sys' a d l).
Proof. induction l as [|s l IH]; cbn [signed_by]; agree. Qed.
#[local] Hint Resolve keeps_signed_by : agrees.

(** The reading thunks, but for reading an object and calling a contract. *)
Lemma thunk_reads {A} (c : call A) : harmless c = true → (2 ≤ length st)%nat →
  (∀ sp k, agrees (I st) (get_object_ sp k) (get_object_ sp k) (P sp)) →
  (∀ i e a, agrees_ (I st) (call_contract_ sys run i e a) (call_contract_ sys' run' i e a)) →
  agrees (I st) (Dispatch.thunk sys run c) (Dispatch.thunk sys' run' c) (post P c).
Proof.
  intros Hc Hst Hget Hcall. pose proof (keeps_two_frames _ Hst) as Hcaller.
  destruct c; try discriminate; cbn [Dispatch.thunk post]; try apply Hget; try apply Hcall; try apply Hcaller;
    try solve [eauto 2 with agrees nocore].
  all: unfold get_head_info_, get_chain_id_, process_block_signature_, get_transaction_field_, get_block_field_,
    get_last_irreversible_block_, get_account_nonce_, verify_account_nonce_, check_system_authority_, get_operation_,
    get_account_rc_, get_resource_limits_, verify_signature_, get_contract_id_, check_authority_, authorized_by_contract.
  all: agree; try apply Hcaller.
Qed.

End Thunks.
End Facts.

Import StateDelta StateNode Chain ExecutionContext SystemCall.

Section Facts.
Context `{!Outside} `{!Reflection} `{!Wire} `{!Fizzy} {I : invariant} {overridable : Prop} `{Hclosed : !closed I overridable}.

Abbreviation keeps st m := (agrees_ (I st) m m).
Abbreviation with_memory st := (λ s : machine * bytes, I st s.1).

#[local] Hint Resolve keeps_translation keeps_charge_thunk keeps_get_compute_bandwidth keeps_use_compute : agrees.

(** What follows an assertion may use it. *)
Lemma keeps_assert_then {A} st b n t l (m m' : M A) Q : (b = true → agrees (I st) m m' Q) →
  agrees (I st) (koinos_assert b n t l;; m) (koinos_assert b n t l;; m') Q.
Proof.
  intros Hm. destruct b.
  - eapply agrees_bind_; [apply keeps_assert|]. intros _. by apply Hm.
  - intros s Hs. done.
Qed.

Lemma keeps_privilege st : agrees (I st) get_privilege get_privilege (λ p, ∃ f rest, st = f :: rest ∧ p = call_privilege f).
Proof.
  unfold get_privilege. eapply agrees_bind; [apply (gets_stack st _ (λ x, x) (λ x, x = st)); done|].
  intros x ->. destruct st as [|f rest]; cbn; [apply agrees_raise|]. apply agrees_ret. eauto.
Qed.

(** ** Overrides and calls *)

Lemma override_keeps st run run' id args :
  (∀ f code h, agrees_ (I (f :: st)) (run code h) (run' code h)) →
  agrees_ (I st) (ExecutionContext.system_call run id args) (ExecutionContext.system_call run' id args).
Proof.
  intros Hrun. unfold ExecutionContext.system_call, get_cache. apply agrees_bind_; [|intros ?; agree].
  apply agrees_catch; [|intros ?; agree]. apply agrees_bind_; [apply closed_cache|]. intros ?.
  apply agrees_bind_; [agree|]. intros c. destruct (_ !! _) as [[]|]; [by apply keeps_with_frame|agree..].
Qed.

(** *** Casts of thunks *)

(** The calls whose functions have one type, [void( execution_context& )], and
    do nothing. *)
Definition callbacks : list SystemCallId.system_call_id :=
  [SystemCallId.pre_block_callback; SystemCallId.post_block_callback; SystemCallId.pre_transaction_callback;
   SystemCallId.post_transaction_callback; SystemCallId.nop].

Section Casts.
Context (sys : ∀ A, call A → M A) (run : bytes → bytes → M unit).

(** A call is made with the type that its own thunk is registered with. *)
Lemma site_type_own {A} (c : call A) : Dispatch.type_of (Dispatch.registered sys run (id_of c)) = Dispatch.site_type (Dispatch.site c).
Proof. by destruct c. Qed.

(** The thunks that are registered with one type. *)
Lemma registered_types i j :
  Dispatch.type_of (Dispatch.registered sys run i) = Dispatch.type_of (Dispatch.registered sys run j) ↔
  i = j ∨ i ∈ callbacks ∧ j ∈ callbacks.
Proof.
  split.
  - intros Ht. destruct (decide (i = j)) as [->|Hne]; [by left|right].
    destruct i, j; first [discriminate Ht|done|by split; apply (bool_decide_unpack _)].
  - intros [->|[Hi Hj]]; [done|]. unfold callbacks in *.
    repeat first [apply elem_of_nil in Hi; done|apply elem_of_cons in Hi as [->|Hi]];
      repeat first [apply elem_of_nil in Hj; done|apply elem_of_cons in Hj as [->|Hj]]; reflexivity.
Qed.

Lemma call_type {A} (c : call A) i :
  Dispatch.type_of (Dispatch.registered sys run i) = Dispatch.site_type (Dispatch.site c) ↔
  i = id_of c ∨ i ∈ callbacks ∧ id_of c ∈ callbacks.
Proof. rewrite <- site_type_own. apply registered_types. Qed.

(** A cast that succeeds gives a function that does what the call's own does. *)
Lemma call_thunk_typed_eq {A} n (c : call A) :
  Dispatch.call_thunk_typed sys run n c =
  match id_of_number n with
  | None => raise_ unknown_thunk_exception (str "thunk ${id} not found") [(str "id", as_call_id n)]
  | Some i =>
    if decide (i = id_of c ∨ i ∈ callbacks ∧ id_of c ∈ callbacks) then Dispatch.thunk sys run c else raise StdException
  end.
Proof.
  unfold Dispatch.call_thunk_typed. destruct (id_of_number n) as [i|]; [|done]. unfold Dispatch.any_cast.
  destruct (decide (Dispatch.type_of _ = _)) as [e|Hn];
    [|by rewrite decide_False by (by rewrite <- call_type)].
  pose proof e as Hi. apply call_type in Hi. rewrite decide_True by done. destruct Hi as [->|[Hi Hc]].
  - destruct c; by rewrite (proof_irrel e eq_refl).
  - apply (bool_decide_pack _) in Hc. destruct c; try (by vm_compute in Hc);
      unfold callbacks in Hi; repeat first [apply elem_of_nil in Hi; done|apply elem_of_cons in Hi as [->|Hi]];
      by rewrite (proof_irrel e eq_refl).
Qed.

(** Such a thunk does nothing. *)
Lemma callback_idle {A} (c : call A) s : id_of c ∈ callbacks → ∃ a, Dispatch.thunk sys run c s = (Ok a, s).
Proof. intros Hc%(bool_decide_pack _). destruct c; first [by vm_compute in Hc|by exists tt]. Qed.

End Casts.

Section Calls.
Context (sys sys' : ∀ A, call A → M A) (run run' : bytes → bytes → M unit) (P : object_space → database_object → Prop).
Context (HP : overridable → ∀ sp o, P sp o).

Lemma post_override {A} (c : call A) a : overridable → post P c a.
Proof. intros Ho. destruct c; cbn; auto. Qed.

Lemma system_call_keeps {A} (c : call A) st :
  let f := kernel_frame (number (id_of c)) in
  ((length st < 256)%nat → agrees (I (f :: st)) (Dispatch.thunk sys run c) (Dispatch.thunk sys' run' c) (post P c)) →
  (overridable → (length st < 256)%nat → ∀ f' code h, agrees_ (I (f' :: f :: st)) (run code h) (run' code h)) →
  agrees (I st) (Dispatch.system_call sys run c) (Dispatch.system_call sys' run' c) (post P c).
Proof.
  cbn. intros Hthunk Hrun. unfold Dispatch.system_call. apply keeps_with_frame. intros Hl.
  eapply agrees_bind; [apply closed_exists|]. intros [|] Ho.
  - specialize (Ho eq_refl). apply agrees_bind_; [apply override_keeps; auto|]. intros r.
    unfold Dispatch.override_result. apply agrees_bind_; [agree|]. intros _. apply agrees_ret. by apply post_override.
  - apply agrees_bind_; [agree|]. intros id. apply agrees_bind_; [agree|]. intros _.
    rewrite !call_thunk_typed_eq. destruct (id_of_number id) as [i|]; [|agree].
    destruct (decide _); [by apply Hthunk|agree].
Qed.

(** ** The host API *)

Lemma keeps_read_memory st p n : agrees_ (with_memory st) (Dispatch.read_memory p n) (Dispatch.read_memory p n).
Proof. by apply agrees_gets. Qed.
Lemma keeps_write_memory st p b : agrees_ (with_memory st) (Dispatch.write_memory p b) (Dispatch.write_memory p b).
Proof. by apply keeps_vars. Qed.
Lemma keeps_write_u32 st p n : agrees_ (with_memory st) (Dispatch.write_u32 p n) (Dispatch.write_u32 p n).
Proof. apply keeps_write_memory. Qed.
#[local] Hint Resolve keeps_read_memory keeps_write_memory keeps_write_u32 : agrees.

Lemma call_thunk_keeps st id a b c d e : (∀ A (c : call A), agrees_ (I st) (Dispatch.thunk sys run c) (Dispatch.thunk sys' run' c)) →
  agrees_ (with_memory st) (Dispatch.call_thunk sys run id a b c d e) (Dispatch.call_thunk sys' run' id a b c d e).
Proof.
  intros Ht. unfold Dispatch.call_thunk, Dispatch.call_thunk_impl. destruct (id_of_number id); [|agree].
  agree; apply keeps_at_machine; agree; apply Ht.
Qed.

Lemma code_of_keeps st m m' : agrees_ (with_memory st) m m' →
  agrees_ (with_memory st) (Dispatch.code_of m) (Dispatch.code_of m').
Proof. intros Hm. unfold Dispatch.code_of. agree. Qed.

Lemma return_code_keeps st n e a b c :
  agrees_ (with_memory st) (Dispatch.return_code n e a b c) (Dispatch.return_code n e a b c).
Proof. unfold Dispatch.return_code. agree. Qed.
Lemma throw_code_keeps {A} st n c e : agrees_ (with_memory st) (Dispatch.throw_code (A := A) n c e) (Dispatch.throw_code n c e).
Proof. apply agrees_raise. Qed.
#[local] Hint Resolve return_code_keeps throw_code_keeps : agrees.

Lemma invoke_thunk_keeps st tid a b c d e :
  (∀ f rest, st = f :: rest → call_privilege f = kernel_mode →
     ∀ A (c : call A), agrees_ (I st) (Dispatch.thunk sys run c) (Dispatch.thunk sys' run' c)) →
  agrees_ (with_memory st) (Dispatch.invoke_thunk sys run tid a b c d e) (Dispatch.invoke_thunk sys' run' tid a b c d e).
Proof.
  intros Ht. unfold Dispatch.invoke_thunk. eapply agrees_bind; [apply keeps_at_machine, keeps_privilege|].
  intros p (f & rest & Hst & ->).
  destruct (bool_decide_reflect (call_privilege f = kernel_mode)) as [Hk|Hne]; cbn [koinos_assert]; [|by intros s Hs].
  apply agrees_bind_; [apply keeps_at_machine; agree|]. intros _.
  apply agrees_bind_; [apply code_of_keeps, call_thunk_keeps; eauto|agree].
Qed.

Lemma keeps_with_frame_in {A} st f (m m' : Dispatch.HM A) : ((length st < 256)%nat → agrees_ (with_memory (f :: st)) m m') →
  agrees_ (with_memory st) (Dispatch.with_stack_frame_in f m) (Dispatch.with_stack_frame_in f m').
Proof.
  intros Hm [s x] Hs. cbn in Hs. unfold Dispatch.with_stack_frame_in. rewrite !run_bind. unfold at_machine. cbn [fst snd].
  rewrite (run_push _ _ _ Hs). destruct (Nat.ltb_spec (length st) 256) as [Hl|]; [|by split_and!].
  assert (I (f :: st) (set_ctx (with_stack (f :: st)) s)) as Hs' by (eapply closed_frames; [done|cbn; lia]).
  destruct (Hm Hl (_, x) Hs') as (He & Hi & HQ). unfold finally_with. rewrite <- He. destruct (m _) as [r [s' x']].
  split; [done|]. split; [|done]. unfold set_ctx. cbn. cbn in Hi. pose proof (closed_stack _ _ Hi) as Hst.
  rewrite Hst. cbn. eapply closed_frames in Hi; [exact Hi|]. cbn. lia.
Qed.

Lemma host_call_keeps st sid a b c d e : let f := kernel_frame sid in
  ((length st < 256)%nat → ∀ A (c : call A), agrees_ (I (f :: st)) (Dispatch.thunk sys run c) (Dispatch.thunk sys' run' c)) →
  (overridable → (length st < 256)%nat → ∀ f' code h, agrees_ (I (f' :: f :: st)) (run code h) (run' code h)) →
  agrees_ (with_memory st) (Dispatch.host_call sys run sid a b c d e) (Dispatch.host_call sys' run' sid a b c d e).
Proof.
  cbn. intros Ht Hrun. unfold Dispatch.host_call. apply agrees_bind_; [agree|]. intros _. apply keeps_with_frame_in. intros Hl.
  eapply agrees_bind; [apply keeps_at_machine, closed_exists|]. intros [|] Ho.
  - apply agrees_bind_; [agree|]. intros args.
    apply agrees_bind_; [apply keeps_at_machine, override_keeps; auto|]. intros r.
    destruct (has_object _); [|agree]. apply agrees_bind_; [apply keeps_at_machine; agree|agree].
  - apply agrees_bind_; [apply keeps_at_machine; agree|]. intros id.
    apply agrees_bind_; [apply keeps_at_machine; agree|]. intros _.
    apply agrees_bind_; [apply keeps_at_machine; agree|]. intros _. apply call_thunk_keeps; auto.
Qed.

Lemma invoke_system_call_keeps st sid a b c d e : let f := kernel_frame sid in
  ((length st < 256)%nat → ∀ A (c : call A), agrees_ (I (f :: st)) (Dispatch.thunk sys run c) (Dispatch.thunk sys' run' c)) →
  (overridable → (length st < 256)%nat → ∀ f' code h, agrees_ (I (f' :: f :: st)) (run code h) (run' code h)) →
  agrees_ (with_memory st) (Dispatch.invoke_system_call sys run sid a b c d e) (Dispatch.invoke_system_call sys' run' sid a b c d e).
Proof.
  cbn. intros Ht Hrun. unfold Dispatch.invoke_system_call.
  apply agrees_bind_; [apply code_of_keeps, host_call_keeps; auto|]. intros [code error].
  apply agrees_bind_; [eapply keeps_at_machine, agrees_true, keeps_privilege|agree].
Qed.

(** ** The virtual machine *)

Import VirtualMachine.

(** What a contract whose frame is on top of [st] may call. *)
Record callable (st : list stack_frame) : Prop := {
  callable_directly f rest : st = f :: rest → call_privilege f = kernel_mode →
    ∀ A (c : call A), agrees_ (I st) (Dispatch.thunk sys run c) (Dispatch.thunk sys' run' c);
  callable_by_number sid : (length st < 256)%nat →
    ∀ A (c : call A), agrees_ (I (kernel_frame sid :: st)) (Dispatch.thunk sys run c) (Dispatch.thunk sys' run' c);
  callable_overrides sid : overridable → (length st < 256)%nat →
    ∀ f' code h, agrees_ (I (f' :: kernel_frame sid :: st)) (run code h) (run' code h)
}.

Lemma host_keeps st f a b c d e g : callable st →
  agrees_ (with_memory st) (host sys run f a b c d e g) (host sys' run' f a b c d e g).
Proof. intros [Hd Hn Ho]. destruct f; cbn [host]; [by apply invoke_thunk_keeps|apply invoke_system_call_keeps; auto]. Qed.

Lemma catch_all_keeps {S A} (J : S → Prop) (m m' : prog S exn A) (h : exn → prog S exn A) :
  agrees_ J m m' → (∀ e, agrees_ J (h e) (h e)) → agrees_ J (catch_all m h) (catch_all m' h).
Proof. intros Hm Hh. unfold catch_all. apply agrees_catch; [done|]. intros e. destruct e; auto with agrees. Qed.

Lemma call_host_keeps st r m a b c : callable st →
  agrees_ (I st) (call_host sys run r m a b c) (call_host sys' run' r m a b c).
Proof.
  intros Hc s Hs. unfold call_host.
  assert (agrees_ (with_memory st)
    (catch_all (v ← host sys run (function r) (xid r) a (ret_len r) b (arg_len r) c; mret (inr v)) (λ e, mret (inl e)))
    (catch_all (v ← host sys' run' (function r) (xid r) a (ret_len r) b (arg_len r) c; mret (inr v)) (λ e, mret (inl e)))) as Ha.
  { apply catch_all_keeps; [|agree]. apply agrees_bind_; [by apply host_keeps|agree]. }
  destruct (Ha (s, m) Hs) as (He & Hi & _). rewrite <- He. destruct (catch_all _ _ _) as [[v|e|] [s' m']]; done.
Qed.

Lemma keeps_resolve st m p n : keeps st (resolve_ptr m p n).
Proof. unfold resolve_ptr. agree. Qed.
Lemma keeps_use_ticks st n : keeps st (Dispatch.use_meter_ticks n).
Proof. unfold Dispatch.use_meter_ticks. agree. Qed.
Lemma keeps_get_ticks st : keeps st Dispatch.get_meter_ticks.
Proof. unfold Dispatch.get_meter_ticks. agree. Qed.
#[local] Hint Resolve keeps_resolve keeps_use_ticks keeps_get_ticks : agrees.

Lemma invoke_keeps st n r : callable st → agrees_ (I st) (invoke sys run n r) (invoke sys' run' n r).
Proof.
  intros Hc. unfold invoke. apply catch_all_keeps; [|agree].
  do 3 (apply agrees_bind_; [agree|intros ?]). destruct a, a0, a1, (memory r); agree. by apply call_host_keeps.
Qed.

Lemma execute_keeps st n m t p l e : callable st → agrees_ (I st) (execute sys run n m t p l e) (execute sys' run' n m t p l e).
Proof.
  intros Hc. revert p l e. induction n as [|n IH]; intros p l e; cbn [execute]; [agree|].
  destruct (fizzy_execute _ _ _); [|agree]. apply agrees_bind_; [by apply invoke_keeps|]. intros [[reply p'] e']. apply IH.
Qed.

Lemma keeps_modules st f : keeps st (mod_modules f).
Proof. apply agrees_mod. intros s Hs. by eapply closed_same. Qed.
#[local] Hint Resolve keeps_modules : agrees.

Lemma keeps_parse st b : keeps st (parse_bytecode b).
Proof. unfold parse_bytecode. agree. Qed.
#[local] Hint Resolve keeps_parse : agrees.

Lemma keeps_gets_machine {A} st (f : machine → A) : keeps st (gets_state f : M A).
Proof. by apply agrees_gets. Qed.
#[local] Hint Resolve keeps_gets_machine : agrees.

Lemma run_keeps st n code id : callable st → agrees_ (I st) (VirtualMachine.run sys run n code id) (VirtualMachine.run sys' run' n code id).
Proof.
  intros Hc. unfold VirtualMachine.run, cached_module, instantiate_module, call_start. agree. by apply execute_keeps.
Qed.

End Calls.
End Facts.
