(* ===== verification/FrameFacts.v ===== *)
(** What an execution may change: its stack is as before when it ends, and no
    delta changes but the current state node's and new ones.

    The knot of the system calls keeps every frame, and does not depend on its
    depth once that is more than the stack lets a call reach. *)

From S2P Require Import Prelude Keys MapBackend StateDelta StateNode MergeIterator ObjectIteration Session.
From S2P Require Import Chronicler ResourceMeter ChainTypes ExecutionContext ProtoUtils SystemCalls Dispatch.
From S2P Require Import VirtualMachine ProgramLogic ExecutionFacts.
Import StateDelta StateNode Chain ExecutionContext SystemCall Thunk.

(** [n], [W] and [h0] as in [hframe]. *)
Record framed (n : loc) (W : loc → Prop) (h0 : heap) (st : list stack_frame) (s : machine) : Prop := {
  fr_stack : _stack (ctx s) = st;
  fr_small : (length st ≤ 256)%nat;
  fr_heap : hframe n W h0 (heap_ s);
  fr_node node : _current_state_node (ctx s) = Some node → free n W (state_of node)
}.

Section Facts.
Context `{!Outside} `{!Reflection}.

(** *** The table of system calls is read from the nodes *)

Lemma cache_keeps (I : invariant) st id :
  (∀ s s', I st s → heap_ s' = heap_ s → _stack (ctx s') = _stack (ctx s) →
     _current_state_node (ctx s') = _current_state_node (ctx s) →
     _parent_state_node (ctx s') = _parent_state_node (ctx s) → I st s') →
  agrees_ (I st) (cache_system_call id) (cache_system_call id).
Proof.
  intros HI. unfold cache_system_call, get_cache, emplace_system_call, parent_object, get_parent_node.
  assert (∀ A (m : prog heap MapBackend.exn A), reads_only m → agrees_ (I st) (on_heap m) (on_heap m)) as Hheap.
  { intros A m Hm s Hs. split; [done|]. split; [|done]. unfold on_heap. specialize (Hm (heap_ s)).
    destruct (m (heap_ s)) as [[a|e|] h]; cbn in Hm; subst h; by eapply HI. }
  assert (∀ A (f : execution_context → A), agrees_ (I st) (gets_ctx f) (gets_ctx f)) as Hgets by (intros; by apply agrees_gets).
  assert (∀ A n t l, agrees_ (I st) (raise_ (A := A) n t l) (raise_ n t l)) as Hraise by (intros; apply agrees_raise).
  assert (∀ A (r : exn + A), agrees_ (I st) (convert r) (convert r)) as Hconvert.
  { intros A [e|a]; [apply agrees_raise|by apply agrees_ret]. }
  assert (∀ c, agrees_ (I st) (mod_ctx (λ x, with_cache (c x) x)) (mod_ctx (λ x, with_cache (c x) x))) as Hmod.
  { intros c. apply agrees_mod. intros s Hs. by eapply HI. }
  agree; auto using read_get_object.
Qed.

Lemma exists_keeps (I : invariant) st id : agrees_ (I st) (cache_system_call id) (cache_system_call id) →
  agrees_ (I st) (system_call_exists id) (system_call_exists id).
Proof.
  intros Hc. unfold system_call_exists, get_cache. apply agrees_bind_; [done|]. intros _.
  apply agrees_bind_; [by apply agrees_gets|]. intros c. destruct (_ !! _) as [[]|]; by apply agrees_ret.
Qed.

(** ** Frames are closed *)

Context (n : loc) (W : loc → Prop) (h0 : heap).
Abbreviation I := (framed n W h0).
Abbreviation keeps st m := (agrees_ (I st) m m).

#[export] Instance framed_closed : closed I True.
Proof.
  assert (∀ st id, keeps st (cache_system_call id)) as Hcache.
  { intros st id. apply cache_keeps. intros s s' [Hst Hl Hh Hn] Hh' Hs' Hc' _. split; [congruence|done|congruence|].
    intros node. rewrite Hc'. apply Hn. }
  split.
  - intros st s Hs. apply Hs.
  - intros st s Hs. apply Hs.
  - intros st s s' [Hst Hl Hh Hn] Hh' [Hs' Hc' _ _]. split; [congruence|done|congruence|]. intros node. rewrite Hc'. apply Hn.
  - intros st st' s [Hst Hl Hh Hn] Hl'. by split.
  - done.
  - intros st id. eapply agrees_weaken; [by apply exists_keeps|]. done.
Qed.

(** *** The current node *)

Lemma framed_heap {A} st (m : prog heap MapBackend.exn A) (Q : A → Prop) :
  agrees (hframe n W h0) m m Q → agrees (I st) (on_heap m) (on_heap m) Q.
Proof.
  intros Hm s [Hst Hl Hh Hn]. split; [done|]. destruct (Hm _ Hh) as (_ & Hi & HQ). unfold on_heap.
  destruct (m (heap_ s)) as [[a|e|] h]; (split; [by split|]); [|done..]. intros ? [= <-]. by apply HQ.
Qed.

Lemma framed_current st : agrees (I st) current_node current_node (free n W).
Proof.
  unfold current_node, get_state_node. eapply agrees_bind.
  - apply (agrees_gets _ (λ s, _current_state_node (ctx s)) (λ o, ∀ x, o = Some x → free n W (state_of x))).
    intros s Hs. apply Hs.
  - intros [x|] Hx; [|apply agrees_raise]. apply agrees_ret. by apply Hx.
Qed.

Lemma framed_state_node st :
  agrees (I st) get_state_node get_state_node (λ o, ∀ x, o = Some x → free n W (state_of x)).
Proof. apply (agrees_gets _ (λ s, _current_state_node (ctx s))). intros s Hs. apply Hs. Qed.

Lemma framed_deref st o : (∀ x, o = Some x → free n W (state_of x)) →
  agrees (I st) (deref_node o) (deref_node o) (λ x, free n W (state_of x)).
Proof. intros Ho. destruct o as [x|]; [|apply agrees_raise]. apply agrees_ret. by apply Ho. Qed.

Lemma framed_node st :
  agrees (I st) (get_state_node ≫= deref_node) (get_state_node ≫= deref_node) (λ x, free n W (state_of x)).
Proof. eapply agrees_bind; [apply framed_state_node|]. intros o. apply framed_deref. Qed.

Lemma framed_set_node st x p : free n W (state_of x) → keeps st (set_state_node (Some x) p).
Proof.
  intros Hx. unfold set_state_node. apply agrees_bind_.
  - apply agrees_mod. intros s [Hst Hl Hh Hn]. split; [done..|]. by intros ? [= <-].
  - intros _. assert (∀ p, keeps st (mod_ctx (with_parent_state_node p))) as Hp.
    { intros q. apply agrees_mod. intros s [Hst Hl Hh Hn]. by split. }
    destruct p as [p|]; [done|]. apply agrees_bind_; [apply keeps_node_parent|]. intros q. apply Hp.
Qed.

Lemma framed_with_node st x : free n W (state_of x) → keeps st (mod_ctx (with_current_state_node (Some x))).
Proof. intros Hx. apply agrees_mod. intros s [Hst Hl Hh Hn]. split; [done..|]. by intros ? [= <-]. Qed.

(** *** Objects *)

#[local] Hint Resolve keeps_charge_object keeps_permissions keeps_use_disk keeps_require_kernel keeps_require_writable
  keeps_block_hash_code keeps_hash_code keeps_use_network keeps_get_state_node keeps_set_receipt keeps_push_log
  keeps_delta_entries keeps_meter_state keeps_node_parent : agrees.

Lemma framed_put st sp k v : keeps st (put_object_ sp k v).
Proof.
  unfold put_object_. do 4 (apply agrees_bind_; [agree|intros ?]). eapply agrees_bind; [apply framed_current|].
  intros l Hl. apply agrees_bind_; [by apply framed_heap, put_object_frame|agree].
Qed.

Lemma framed_remove st sp k : keeps st (remove_object_ sp k).
Proof.
  unfold remove_object_. do 3 (apply agrees_bind_; [agree|intros ?]). eapply agrees_bind; [apply framed_current|].
  intros l Hl. apply agrees_bind_; [by apply framed_heap, remove_object_frame|agree].
Qed.

(** ** Thunks that write *)

Section Thunks.
Context (sys sys' : ∀ A, call A → M A) (run run' : bytes → bytes → M unit) (st : list stack_frame).
Context (Hsys : ∀ st' A (c : call A), length st' = length st → agrees_ (I st') (sys A c) (sys' A c)).
Context (Hrun : ∀ f code h, agrees_ (I (f :: st)) (run code h) (run' code h)).

Lemma framed_sys {A} (c : call A) : agrees_ (I st) (sys A c) (sys' A c).
Proof. by apply Hsys. Qed.
#[local] Hint Resolve framed_sys : agrees.

#[local] Hint Extern 1 (agrees _ (mod_locals _) (mod_locals _) _) => by apply keeps_vars : agrees.

Lemma framed_nonce a x : agrees_ (I st) (set_account_nonce_ sys a x) (set_account_nonce_ sys' a x).
Proof. unfold set_account_nonce_. agree. Qed.
Lemma framed_upload o : agrees_ (I st) (apply_upload_contract_operation_ sys o) (apply_upload_contract_operation_ sys' o).
Proof. unfold apply_upload_contract_operation_. agree. Qed.
Lemma framed_set_call o : agrees_ (I st) (apply_set_system_call_operation_ sys o) (apply_set_system_call_operation_ sys' o).
Proof. unfold apply_set_system_call_operation_. agree. Qed.
Lemma framed_set_contract o :
  agrees_ (I st) (apply_set_system_contract_operation_ sys o) (apply_set_system_contract_operation_ sys' o).
Proof. unfold apply_set_system_contract_operation_. agree. Qed.

Lemma framed_call_operation o : st ≠ [] →
  agrees_ (I st) (apply_call_contract_operation_ sys o) (apply_call_contract_operation_ sys' o).
Proof.
  intros Hst. unfold apply_call_contract_operation_. do 2 (apply agrees_bind_; [agree|intros ?]).
  destruct st as [|f rest]; [done|]. apply keeps_with_privilege. apply agrees_catch; [|agree].
  apply agrees_bind_; [by apply Hsys|agree].
Qed.

Lemma framed_call_contract i e a : agrees_ (I st) (call_contract_ sys run i e a) (call_contract_ sys' run' i e a).
Proof.
  unfold call_contract_, until_success. do 8 (apply agrees_bind_; [agree|intros ?]).
  apply agrees_bind_; [|agree]. apply agrees_catch; [|agree]. by apply keeps_with_frame.
Qed.

(** *** Transactions *)

Abbreviation IL := (λ s : machine * trx_locals, I st s.1).

Lemma framed_operation o : agrees_ (I st) (apply_operation sys o) (apply_operation sys' o).
Proof.
  unfold apply_operation, with_operation_guard. apply keeps_finally; [|done]. unfold set_operation. agree.
Qed.

Lemma framed_run_operations trx x l : (n ≤ l)%positive →
  agrees_ (I st) (run_operations sys trx (AnonymousNode x l)) (run_operations sys' trx (AnonymousNode x l)).
Proof.
  intros Hl. unfold run_operations. apply agrees_bind_; [agree|intros _].
  apply agrees_bind_; [apply keeps_for_each, framed_operation|intros _]. apply agrees_bind_; [agree|intros _].
  eapply agrees_bind; [by apply framed_heap, anonymous_commit_frame|]. intros y Hy. by apply framed_with_node.
Qed.

Lemma framed_at {A} (m m' : M A) Q : agrees (I st) m m' Q → agrees IL (at_machine m) (at_machine m') Q.
Proof. apply keeps_at_machine. Qed.

Lemma framed_check trx : agrees_ IL (check_transaction sys trx) (check_transaction sys' trx).
Proof.
  unfold check_transaction. apply agrees_bind_; [apply framed_at; agree|intros ?].
  apply agrees_bind_; [by apply keeps_vars|intros ?]. apply framed_at. agree. apply keeps_for_all. agree.
Qed.

#[local] Hint Resolve keeps_finish : agrees.

Lemma framed_operations trx bn : free n W (state_of bn) →
  agrees_ IL (operations_body sys trx bn) (operations_body sys' trx bn).
Proof.
  intros Hbn. unfold operations_body.
  eapply agrees_bind; [by apply framed_at, framed_heap, create_anonymous_frame|]. intros tn (l & -> & Hl).
  apply agrees_bind_; [apply framed_at; agree|intros p].
  apply agrees_bind_; [apply framed_at, framed_set_node; by right|intros _].
  apply agrees_catch; [|intros e; unfold operations_failed].
  - apply agrees_bind_; [by apply framed_at, framed_run_operations|agree].
  - destruct (is_class Failure e).
    { apply agrees_bind_; [apply framed_at; agree|intros i]. destruct (bool_decide _); [|agree].
      apply agrees_bind_; [by apply framed_at, framed_set_node|agree]. }
    destruct (is_class Reversion e); [|agree].
    do 3 (apply agrees_bind_; [by first [apply keeps_vars|apply framed_at; agree]|intros _]). agree.
Qed.

Lemma framed_settle trx start bn : free n W (state_of bn) →
  agrees_ IL (settle_transaction sys trx start bn) (settle_transaction sys' trx start bn).
Proof.
  intros Hbn. unfold settle_transaction. apply agrees_bind_; [by apply framed_at, framed_set_node|intros _].
  apply agrees_bind_; [by apply keeps_vars|intros _]. apply agrees_bind_; [apply framed_at; agree|intros _].
  apply agrees_bind_; [by apply agrees_gets|intros vars].
  do 2 (apply agrees_bind_; [apply framed_at; agree|intros ?]). apply keeps_finish.
Qed.

Lemma framed_body trx : agrees_ IL (transaction_body sys trx) (transaction_body sys' trx).
Proof.
  unfold transaction_body. do 2 (apply agrees_bind_; [apply framed_at; unfold meter, make_session; agree|intros ?]).
  apply keeps_finally_with; [|done]. apply agrees_bind_; [apply agrees_catch; [apply framed_check|]|intros _].
  { intros e. destruct e; agree. }
  eapply agrees_bind; [apply framed_at, framed_node|]. intros bn Hbn.
  apply agrees_bind_; [by apply framed_operations|]. intros [|]; [by apply framed_settle|agree].
Qed.

Lemma framed_transaction trx : agrees_ (I st) (apply_transaction_ sys trx) (apply_transaction_ sys' trx).
Proof.
  assert (agrees_ IL (apply_transaction_l sys trx) (apply_transaction_l sys' trx)) as Hl.
  { unfold apply_transaction_l. apply agrees_bind_; [apply agrees_catch; [|intros []; agree]|].
    - do 3 (apply agrees_bind_; [apply framed_at; unfold set_transaction; agree|intros ?]).
      apply keeps_finally_with; [apply framed_body|done].
    - intros _. apply agrees_bind_; [by apply agrees_gets|agree]. }
  intros s Hs. destruct (Hl (s, no_locals) Hs) as (He & Hi & _). unfold apply_transaction_. rewrite <- He.
  destruct (apply_transaction_l _ _ _) as [r s']. by split_and!.
Qed.

(** *** Blocks *)

Lemma framed_transactions i l : agrees_ (I st) (apply_transactions sys i l) (apply_transactions sys' i l).
Proof.
  revert i. induction l as [|t l IH]; intros i; cbn [apply_transactions]; [agree|].
  apply agrees_bind_; [|auto]. unfold add_failed_transaction_index. agree.
Qed.

Lemma framed_hashes l : agrees_ (I st) (transaction_hashes sys l) (transaction_hashes sys' l).
Proof. induction l as [|t l IH]; cbn [transaction_hashes]; agree. Qed.

#[local] Hint Resolve keeps_receipt framed_hashes framed_transactions : agrees.

Lemma framed_block_body b : agrees_ (I st) (block_body sys b) (block_body sys' b).
Proof.
  unfold block_body, meter.
  do 16 (apply agrees_bind_; [agree|intros ?]).
  eapply agrees_bind; [apply framed_state_node|]. intros o Ho. eapply agrees_bind; [by apply framed_deref|]. intros x Hx.
  apply agrees_bind_; [by apply framed_heap, put_object_frame|]. agree.
Qed.

Lemma framed_block b : agrees_ (I st) (apply_block_ sys b) (apply_block_ sys' b).
Proof.
  unfold apply_block_, meter. apply agrees_bind_; [agree|intros _]. apply agrees_catch; [|agree].
  do 3 (apply agrees_bind_; [agree|intros ?]). unfold with_block_guard. apply keeps_finally; [|done].
  apply agrees_bind_; [unfold set_block; agree|intros _]. apply framed_block_body.
Qed.

(** ** Every thunk *)

Lemma framed_thunk {A} (c : call A) : (2 ≤ length st)%nat →
  agrees_ (I st) (Dispatch.thunk sys run c) (Dispatch.thunk sys' run' c).
Proof.
  intros Hst. destruct (harmless c) eqn:Hc.
  - eapply agrees_true. apply (thunk_reads _ _ _ _ (λ _ _, True)); [|done|done| |].
    + intros B c' _. eapply agrees_weaken; [apply framed_sys|]. by destruct c'.
    + intros sp k. apply keeps_get_object.
    + apply framed_call_contract.
  - destruct c; try discriminate; cbn [Dispatch.thunk].
    + apply framed_block.
    + apply framed_transaction.
    + apply framed_upload.
    + apply framed_call_operation. intros ->. cbn in Hst. lia.
    + apply framed_set_call.
    + apply framed_set_contract.
    + apply framed_nonce.
    + apply framed_put.
    + apply framed_remove.
Qed.

End Thunks.
End Facts.

Import StateDelta StateNode Chain ExecutionContext SystemCall Thunk VirtualMachine.

Section Facts.
Context `{!Outside} `{!Reflection} `{!Wire} `{!Fizzy} (fuel : nat).

(** Equal depths, or depths that a stack of [len] frames does not exhaust. *)
Definition same_depth (limit d d' len : nat) : Prop := d = d' ∨ (limit ≤ d + len ∧ limit ≤ d' + len)%nat.

Lemma same_depth_more limit limit' d d' len len' : (limit' + len ≤ limit + len')%nat →
  same_depth limit d d' len → same_depth limit' d d' len'.
Proof. intros ? [->|?]; [by left|right]; lia. Qed.

Lemma same_depth_in limit limit' d d' len len' : (S limit' + len ≤ limit + len')%nat →
  same_depth limit (S d) (S d') len → same_depth limit' d d' len'.
Proof. intros ? [?|?]; [left|right]; lia. Qed.

Definition calls_agree (k k' : knot) (ok : nat → Prop) : Prop := ∀ n W h0 st A (c : call A),
  (1 ≤ length st)%nat → ok (length st) → agrees_ (framed n W h0 st) (sys k A c) (sys k' A c).

Definition runs_agree (k k' : knot) (ok : nat → Prop) : Prop := ∀ n W h0 st code id,
  (2 ≤ length st)%nat → ok (length st) → agrees_ (framed n W h0 st) (run_contract k code id) (run_contract k' code id).

Lemma too_deep n W h0 st {A} (m m' : M A) : (257 ≤ length st)%nat → agrees_ (framed n W h0 st) m m'.
Proof. intros Hl s Hs. pose proof (fr_small _ _ _ _ _ Hs). lia. Qed.

Lemma thunk_step k k' d d' :
  calls_agree k k' (same_depth 257 d d') → runs_agree k k' (same_depth 258 d d') →
  ∀ n W h0 st A (c : call A), (2 ≤ length st)%nat → same_depth 257 d d' (length st) →
  agrees_ (framed n W h0 st) (Dispatch.thunk (sys k) (run_contract k) c) (Dispatch.thunk (sys k') (run_contract k') c).
Proof.
  intros Hsys Hrun n W h0 st A c Hst Hd. apply framed_thunk; [| |done].
  - intros st' B c' Hl. apply Hsys; rewrite Hl; [lia|done].
  - intros f code id. apply Hrun; cbn; [lia|]. eapply same_depth_more; [|done]. lia.
Qed.

Lemma knot_agrees d d' :
  calls_agree (knot_at fuel d) (knot_at fuel d') (same_depth 257 d d') ∧
  runs_agree (knot_at fuel d) (knot_at fuel d') (same_depth 258 d d').
Proof.
  revert d'. induction d as [|d IH]; intros [|d'].
  - split; intros n W h0 st; intros; apply agrees_fuel.
  - split; intros n W h0 st; intros; apply too_deep; unfold same_depth in *; lia.
  - split; intros n W h0 st; intros; apply too_deep; unfold same_depth in *; lia.
  - destruct (IH d') as [Hsys Hrun]. pose proof (thunk_step _ _ _ _ Hsys Hrun) as Hthunk. split.
    + intros n W h0 st A c Hst Hd. cbn [knot_at sys]. eapply agrees_true.
      apply (system_call_keeps _ _ _ _ (λ _ _, True)); [done| |]; cbn.
      * intros Hl. eapply agrees_weaken; [apply Hthunk; cbn; [lia|]|by destruct c].
        eapply same_depth_in, Hd. lia.
      * intros _ Hl f' code id. apply Hrun; cbn; [lia|]. eapply same_depth_in, Hd. lia.
    + intros n W h0 st code id Hst Hd. cbn [knot_at run_contract]. apply run_keeps. split.
      * intros f rest _ _ A c. apply Hthunk; [done|]. eapply same_depth_in, Hd. lia.
      * intros sid Hl A c. apply Hthunk; cbn; [lia|]. eapply same_depth_in, Hd. lia.
      * intros sid _ Hl f' code' id'. apply Hrun; cbn; [lia|]. eapply same_depth_in, Hd. lia.
Qed.

(** *** In any knot, a call keeps every frame *)

Lemma calls_keep d n W h0 st A (c : call A) : (1 ≤ length st)%nat →
  agrees_ (framed n W h0 st) (sys (knot_at fuel d) A c) (sys (knot_at fuel d) A c).
Proof. intros Hst. apply knot_agrees; [done|by left]. Qed.

Lemma runs_keep d n W h0 st code id : (2 ≤ length st)%nat →
  agrees_ (framed n W h0 st) (run_contract (knot_at fuel d) code id) (run_contract (knot_at fuel d) code id).
Proof. intros Hst. apply knot_agrees; [done|by left]. Qed.

Lemma thunks_keep d n W h0 st A (c : call A) : (2 ≤ length st)%nat →
  agrees_ (framed n W h0 st) (Dispatch.thunk (sys (knot_at fuel d)) (run_contract (knot_at fuel d)) c)
    (Dispatch.thunk (sys (knot_at fuel d)) (run_contract (knot_at fuel d)) c).
Proof.
  intros Hst. destruct (knot_agrees d d) as [Hsys Hrun]. by apply (thunk_step _ _ _ _ Hsys Hrun); [|left].
Qed.

End Facts.
