(* ===== verification/ExecutionTheorems.v ===== *)
(** Theorems on executions: what a system call may change, the depth of calls,
    and transactions that are reverted. *)

From S2P Require Import Prelude Keys MapBackend StateDelta StateNode MergeIterator ObjectIteration.
From S2P Require Import StateDeltaFacts StateCommit.
From S2P Require Import Session.
From S2P Require Import Chronicler.
From S2P Require Import ResourceMeter.
From S2P Require Import ChainTypes ExecutionContext ProtoUtils SystemCalls Dispatch VirtualMachine ProgramLogic.
From S2P Require Import ExecutionFacts FrameFacts.
Import StateDelta StateNode Chain ExecutionContext SystemCall Thunk VirtualMachine.

(** A machine in the middle of a call. *)
Record in_call (s : machine) : Prop := {
  in_stack : (1 ≤ length (_stack (ctx s)) ≤ 256)%nat;
  in_fresh : fresh_above (heap_ s)
}.

(** The delta that the current state node writes to. *)
Definition current_delta (s : machine) (l : loc) : Prop := ∃ n, _current_state_node (ctx s) = Some n ∧ state_of n = l.

Lemma framed_start s : in_call s → framed (next_loc (heap_ s)) (current_delta s) (heap_ s) (_stack (ctx s)) s.
Proof.
  intros [Hst Hf]. split; [done|lia|by apply hframe_start|]. intros n Hn. left. by exists n.
Qed.

Lemma framed_apart n W h0 st s l : framed n W h0 st s → (l < n)%positive → ¬ W l →
  deltas (heap_ s) !! l = deltas h0 !! l.
Proof. intros [_ _ Hh _]. apply Hh. Qed.

Section Theorems.
Context `{!Outside} `{!Reflection} `{!Wire} `{!Fizzy}.

(** C9. Whatever a system call does, with contracts that override it or that
    it runs, and however it ends, the stack is as before and no delta that
    existed has changed but the current state node's. *)
Theorem system_call_frame fuel depth A (c : call A) s : in_call s →
  let s' := (sys (knot_at fuel depth) A c s).2 in
  _stack (ctx s') = _stack (ctx s) ∧
  ∀ l, (l < next_loc (heap_ s))%positive → ¬ current_delta s l → deltas (heap_ s') !! l = deltas (heap_ s) !! l.
Proof.
  intros Hs s'. pose proof (in_stack _ Hs) as Hst.
  destruct (calls_keep fuel depth (next_loc (heap_ s)) (current_delta s) (heap_ s) (_stack (ctx s)) A c ltac:(lia) s
    (framed_start _ Hs)) as (_ & Hi & _).
  split; [apply Hi|]. intros l Hl Hn. by eapply framed_apart.
Qed.

(** C17. The depth of the calls does not matter from 256 on: the limit on the
    stack stops every recursion of contracts and system calls before. *)
Theorem stack_bounds_depth fuel depth A (c : call A) s : in_call s → (256 ≤ depth)%nat →
  sys (knot_at fuel depth) A c s = system_calls fuel A c s.
Proof.
  intros Hs Hd. pose proof (in_stack _ Hs) as Hst. unfold system_calls.
  destruct (knot_agrees fuel depth full_depth) as [Hk _].
  apply (Hk (next_loc (heap_ s)) (current_delta s) (heap_ s) (_stack (ctx s)) A c); [lia| |by apply framed_start].
  right. unfold full_depth. lia.
Qed.

(** ** Dispatch *)

(** C40. The cast of a registered thunk to the type of a system call succeeds
    for the call's own thunk and among the five that take and return nothing,
    and for no other two of the 46 registered thunks: a call that is
    translated to a number runs its own thunk with that number's, a thunk
    without effect where both take and return nothing, and throws for every
    other thunk before it runs, and for a number without a thunk. *)
Theorem dispatch_typed `{!SystemCallIdsLaws} (sys : ∀ A, call A → M A) run A (c : call A) n :
  let own := Dispatch.site_type (Dispatch.site c) in
  let type i := Dispatch.type_of (Dispatch.registered sys run i) in
  let r := Dispatch.call_thunk_typed sys run n c in
  (n = number (id_of c) → r = Dispatch.thunk sys run c) ∧
  match id_of_number n with
  | None => r = raise_ unknown_thunk_exception (str "thunk ${id} not found") [(str "id", as_call_id n)]
  | Some i =>
    (type i = own ↔ i = id_of c ∨ i ∈ callbacks ∧ id_of c ∈ callbacks) ∧
    (type i = own → r = Dispatch.thunk sys run c) ∧
    (type i = own → i ≠ id_of c → ∀ s, ∃ a, r s = (Ok a, s)) ∧
    (type i ≠ own → r = raise StdException)
  end.
Proof.
  intros own type r. unfold r. rewrite call_thunk_typed_eq. split.
  - intros ->. rewrite id_of_number_of. by rewrite decide_True by (by left).
  - destruct (id_of_number n) as [i|] eqn:Hi; [|done]. pose proof (call_type sys run c i) as Ht.
    split; [exact Ht|]. destruct (decide _) as [Hd|Hd].
    + split; [done|]. split; [|intros Hn; destruct Hn; by apply Ht]. intros _ Hne s.
      destruct Hd as [?|[_ Hc]]; [done|]. by apply callback_idle.
    + split; [intros Ho; destruct Hd; by apply Ht|]. split; [intros Ho; destruct Hd; by apply Ht|done].
Qed.

(** ** Reverted transactions *)

(** A call of a state node that throws nothing, undefined behaviour apart. *)
Definition throws_null {A} (m : prog heap MapBackend.exn A) : Prop := ∀ h,
  match m h with (Throw e, _) => e = null_dereference | _ => True end.

Lemma throws_bind {A B} (m : prog heap MapBackend.exn A) (k : A → prog heap MapBackend.exn B) :
  throws_null m → (∀ a, throws_null (k a)) → throws_null (m ≫= k).
Proof.
  intros Hm Hk h. rewrite run_bind. specialize (Hm h). destruct (m h) as [[a|e|] h']; [|done..]. apply Hk.
Qed.

Lemma throws_ret {A} (a : A) : throws_null (mret a).
Proof. done. Qed.
Lemma throws_deref l : throws_null (deref l).
Proof. intros h. unfold deref. rewrite run_gets. by destruct (_ !! _). Qed.
Lemma throws_modify l f : throws_null (modify l f).
Proof. unfold modify. apply throws_bind; [apply throws_deref|]. done. Qed.
Lemma throws_backend l : throws_null (backend l).
Proof. unfold backend. apply throws_bind; [apply throws_deref|]. intros d. by destruct (_backend d). Qed.
Lemma throws_is_root l : throws_null (is_root l).
Proof. unfold is_root. apply throws_bind; [apply throws_deref|done]. Qed.
Lemma throws_is_finalized l : throws_null (is_finalized l).
Proof. unfold is_finalized. apply throws_bind; [apply throws_deref|done]. Qed.
Lemma throws_on_backend l f : throws_null (on_backend l f).
Proof. unfold on_backend. apply throws_bind; [apply throws_backend|]. intros b. apply throws_modify. Qed.

Lemma throws_for_each {A} (f : A → prog heap MapBackend.exn unit) l : (∀ x, throws_null (f x)) → throws_null (for_each f l).
Proof. intros Hf. induction l as [|x l IH]; cbn [for_each]; [done|]. by apply throws_bind. Qed.

Lemma throws_squash l : throws_null (squash l).
Proof.
  unfold squash. apply throws_bind; [apply throws_is_root|]. intros [|]; [done|].
  apply throws_bind; [apply throws_deref|]. intros d. destruct (_parent d) as [p|]; [|done].
  assert (∀ f g, throws_null (on_backend p f;; root ← is_root p; if (root : bool) then mret tt else on_removed p g)) as Hw.
  { intros f g. apply throws_bind; [apply throws_on_backend|intros _].
    apply throws_bind; [apply throws_is_root|intros [|]]; [done|apply throws_modify]. }
  apply throws_bind; [by apply throws_for_each|intros _]. apply throws_bind; [apply throws_backend|intros b].
  apply throws_for_each. by intros [].
Qed.

Lemma throws_make_child l i hd : throws_null (make_child l i hd).
Proof. unfold make_child. apply throws_bind; [apply throws_deref|]. done. Qed.

(** A commit that throws has written nothing, undefined behaviour apart. *)
Lemma commit_throws x l h e h' : anonymous_commit (AnonymousNode x l) h = (Throw e, h') → e = null_dereference ∨ h' = h.
Proof.
  cbn [anonymous_commit]. rewrite run_bind. pose proof (throws_is_finalized (state_of x) h) as Hn.
  pose proof (read_is_finalized (state_of x) h) as Hr. destruct (is_finalized _ h) as [[b|e1|] h1]; [|intros [= <- <-]; auto|done].
  cbn in Hr. subst h1. destruct b; cbn [negb assert_that]; [intros [= <- <-]; auto|]. rewrite run_bind. cbn [mret prog_ret].
  assert (throws_null (squash l;; anonymous_reset (AnonymousNode x l))) as Hs.
  { apply throws_bind; [apply throws_squash|]. intros _. cbn [anonymous_reset].
    apply throws_bind; [apply throws_make_child|done]. }
  specialize (Hs h). intros He. rewrite He in Hs. by left.
Qed.

Lemma create_anonymous_run x h y h' : create_anonymous_node x h = (Ok y, h') →
  y = AnonymousNode x (next_loc h) ∧ next_loc h' = Pos.succ (next_loc h) ∧
  (∀ l, l ≠ next_loc h → deltas h' !! l = deltas h !! l).
Proof.
  unfold create_anonymous_node, make_child. rewrite !run_bind. unfold deref. rewrite run_gets.
  destruct (deltas h !! state_of x) as [d|]; [|done]. cbn [mret prog_ret]. rewrite run_alloc. intros [= <- <-].
  split_and!; [done..|]. intros l Hl. cbn [alloc_delta deltas]. by apply lookup_insert_ne.
Qed.

Section Reverted.
Context (fuel depth : nat).
Abbreviation k := (knot_at fuel depth).

Lemma operations_throw n W h0 st s trx x l e s' : (1 ≤ length st)%nat → framed n W h0 st s →
  run_operations (sys k) trx (AnonymousNode x l) s = (Throw e, s') → is_class Failure e || is_class Reversion e →
  framed n W h0 st s'.
Proof.
  intros Hst Hs. unfold run_operations. rewrite run_bind.
  pose proof (calls_keep fuel depth n W h0 st _ pre_transaction_callback Hst s Hs) as (_ & Hi & _).
  destruct (sys k _ pre_transaction_callback s) as [[[]|e1|] s1]; [|by intros [= <- <-]|done]. cbn [snd] in Hi.
  rewrite run_bind. assert (agrees_ (framed n W h0 st) (for_each_ (apply_operation (sys k)) (operations trx))
    (for_each_ (apply_operation (sys k)) (operations trx))) as Hops.
  { apply keeps_for_each. intros o. apply framed_operation. intros st' A c Hl. apply calls_keep. by rewrite Hl. }
  destruct (Hops _ Hi) as (_ & Hi2 & _). clear Hops.
  destruct (for_each_ _ _ s1) as [[[]|e1|] s2]; [|by intros [= <- <-]|done]. cbn [snd] in Hi2. rewrite run_bind.
  pose proof (calls_keep fuel depth n W h0 st _ post_transaction_callback Hst s2 Hi2) as (_ & Hi3 & _).
  destruct (sys k _ post_transaction_callback s2) as [[[]|e1|] s3]; [|by intros [= <- <-]|done]. cbn [snd] in Hi3.
  rewrite run_bind. unfold on_heap at 1. destruct (anonymous_commit _ (heap_ s3)) as [[y|e1|] h'] eqn:Hc; [done| |done].
  intros [= <- <-]. apply commit_throws in Hc as [->| ->]; [done|]. intros _. by destruct s3.
Qed.

Lemma run_at {X A B} (m : M A) (f : A → prog (machine * X) exn B) s x :
  (at_machine m ≫= f) (s, x) =
  match m s with
  | (Ok a, s') => f a (s', x)
  | (Throw e, s') => (Throw e, (s', x))
  | (OutOfFuel, s') => (OutOfFuel, (s', x))
  end.
Proof. rewrite run_bind. unfold at_machine. cbn [fst snd]. by destruct (m s) as [[a|e|] s']. Qed.

(** The handlers of [operations_body] write nothing. *)
Lemma failed_keeps h bn e : agrees_ (λ s : machine * trx_locals, heap_ s.1 = h) (operations_failed bn e) (operations_failed bn e).
Proof.
  assert (∀ A (m : M A), (∀ s, heap_ (m s).2 = heap_ s) →
    agrees_ (λ s : machine * trx_locals, heap_ s.1 = h) (at_machine m) (at_machine m)) as Hm.
  { intros A m Hm [s x] Hs. split; [done|]. split; [|done]. unfold at_machine. cbn [fst snd] in *. specialize (Hm s).
    destruct (m s) as [r s']. cbn in Hm |- *. congruence. }
  unfold operations_failed. destruct (is_class Failure e).
  - apply agrees_bind_; [by apply Hm|]. intros i. destruct (bool_decide _); [|agree].
    apply agrees_bind_; [apply Hm|agree]. intros s. unfold set_state_node. rewrite run_bind. cbn [mod_ctx mod_state].
    destruct bn as [b|b b']; cbn [node_parent]; [|done]. rewrite !run_bind. unfold on_heap.
    pose proof (read_parent b (heap_ s)) as Hp. cbn. destruct (parent b (heap_ s)) as [[a|e1|] h1]; cbn in Hp; by subst.
  - destruct (is_class Reversion e); [|agree]. apply agrees_bind_; [by apply agrees_mod|intros _].
    apply agrees_bind_; [apply Hm|intros _; apply agrees_bind_; [by apply agrees_mod|agree]].
    intros s. unfold log_. by destruct (validate_utf _).
Qed.

Lemma node_parent_same n s : (node_parent n s).2 = s.
Proof.
  destruct n as [b|b b']; cbn [node_parent]; [|done]. rewrite run_bind. unfold on_heap.
  pose proof (read_parent b (heap_ s)) as Hp. destruct (parent b (heap_ s)) as [[a|e1|] h1]; cbn in Hp; subst; by destruct s.
Qed.

Lemma set_state_node_run y p s :
  let s' := (set_state_node (Some y) p s).2 in
  heap_ s' = heap_ s ∧ _stack (ctx s') = _stack (ctx s) ∧ _current_state_node (ctx s') = Some y.
Proof.
  unfold set_state_node. rewrite run_bind. cbn [mod_ctx mod_state]. destruct p as [p|]; [done|]. rewrite run_bind.
  pose proof (node_parent_same y (set_ctx (with_current_state_node (Some y)) s)) as Hp. cbn.
  destruct (node_parent y _) as [[a|e|] s1]; cbn in Hp; by subst.
Qed.

(** The machine as the operations begin. *)
Lemma operations_begin bn s y s1 p s2 s3 : in_call s →
  on_heap (create_anonymous_node bn) s = (Ok y, s1) → node_parent bn s1 = (Ok p, s2) →
  set_state_node (Some y) p s2 = (Ok tt, s3) →
  y = AnonymousNode bn (next_loc (heap_ s)) ∧
  framed (Pos.succ (next_loc (heap_ s))) (λ x, x = next_loc (heap_ s)) (heap_ s1) (_stack (ctx s)) s3 ∧
  ∀ x, (x < next_loc (heap_ s))%positive → deltas (heap_ s1) !! x = deltas (heap_ s) !! x.
Proof.
  intros [Hst Hf] Hc Hp Hn. unfold on_heap in Hc. destruct (create_anonymous_node bn (heap_ s)) as [[y'|e|] h1] eqn:Hcr; [|done..].
  injection Hc as <- <-. apply create_anonymous_run in Hcr as (-> & Hnext & Hd). split; [done|].
  pose proof (node_parent_same bn (mk_machine h1 (modules s) (ctx s))) as Hsame. rewrite Hp in Hsame. cbn in Hsame. subst s2.
  pose proof (set_state_node_run (AnonymousNode bn (next_loc (heap_ s))) p (mk_machine h1 (modules s) (ctx s))) as Hrun.
  rewrite Hn in Hrun. cbn in Hrun. destruct Hrun as (Hh & Hs3 & Hcur). split.
  - rewrite <- Hnext. split; [done|lia| |].
    + rewrite Hh. apply hframe_start. intros l Hl. rewrite Hnext in Hl. rewrite Hd by lia. apply Hf. lia.
    + rewrite Hcur. intros node [= <-]. by left.
  - intros x Hx. apply Hd. lia.
Qed.

(** C2. The operations of a transaction that is reverted, or that a proposed
    block drops, leave every delta that existed before the anonymous node was
    created as it was, the block's included: all that was written since is on
    the anonymous node, which is dropped.  That includes what the
    pre-transaction callback wrote, which is called after the node was
    created, though the comment of [apply_transaction] says that it
    persists. *)
Theorem reverted_operations_discarded trx bn s l applied s' l' : in_call s → reverted l = false →
  operations_body (sys k) trx bn (s, l) = (Ok applied, (s', l')) →
  applied = false ∨ reverted l' = true →
  ∀ x, (x < next_loc (heap_ s))%positive → deltas (heap_ s') !! x = deltas (heap_ s) !! x.
Proof.
  intros Hs Hl. unfold operations_body. rewrite run_at. destruct (on_heap _ s) as [[y|e|] s1] eqn:Hc; [|done..].
  rewrite run_at. destruct (node_parent bn s1) as [[p|e|] s2] eqn:Hp; [|done..].
  rewrite run_at. destruct (set_state_node _ p s2) as [[[]|e|] s3] eqn:Hn; [|done..].
  destruct (operations_begin _ _ _ _ _ _ _ Hs Hc Hp Hn) as (-> & Hframe & Hd). unfold try_catch. rewrite run_at.
  destruct (run_operations _ _ _ s3) as [[[]|e|] s4] eqn:Hr; [intros [= <- <- <-] [?|?]; [done|congruence]| |done].
  intros Hh Ho x Hx. destruct (failed_keeps (heap_ s4) bn e (s4, l) eq_refl) as (_ & Hsame & _). rewrite Hh in Hsame.
  cbn in Hsame. rewrite Hsame, <- Hd by done. eapply operations_throw in Hr; [|apply Hs|exact Hframe|].
  - apply (framed_apart _ _ _ _ _ _ Hr); [lia|intros ->; lia].
  - unfold operations_failed in Hh. destruct (is_class Failure e), (is_class Reversion e); done.
Qed.

End Reverted.
End Theorems.
