(* ===== verification/IsolationTheorems.v ===== *)
(** What user code cannot reach: as long as no system call is overridden and
    no contract is of the system, code that runs in user mode keeps the objects
    of the system spaces.

    Theorems on user contracts: what they cannot change. *)

From S2P Require Import Prelude Keys MapBackend StateDelta StateNode StateDeltaFacts MergeIterator.
From S2P Require Import ObjectIteration Session Chronicler ResourceMeter ChainTypes ExecutionContext.
From S2P Require Import ProtoUtils SystemCalls Dispatch VirtualMachine ProgramLogic ExecutionFacts FrameFacts.
Import StateDelta StateNode Chain ExecutionContext SystemCall Thunk.

(** ** Keys that keep their values *)

Section Keys.
Context `{!Crypto} `{!DatabaseKeys}.

(** What a delta says of a key. *)
Definition seen (k : bytes) (d : state_delta) : option loc * option (option bytes) * bool :=
  (_parent d, (λ b, MapBackend.get b k) <$> _backend d, bool_decide (k ∈ _removed_objects d)).

Definition same_on (K : bytes → Prop) (h0 h : heap) : Prop :=
  ∀ l k, K k → seen k <$> deltas h !! l = seen k <$> deltas h0 !! l.

Lemma same_on_refl K h : same_on K h h.
Proof. done. Qed.

Lemma backend_run l h : backend l h =
  match deltas h !! l ≫= _backend with Some b => (Ok b, h) | None => (Throw null_dereference, h) end.
Proof.
  unfold backend, deref. rewrite run_bind, run_gets.
  destruct (deltas h !! l) as [d|]; [|done]. cbn. by destruct (_backend d).
Qed.

Lemma find_loop_same K h0 h n l k : same_on K h0 h → K k → (find_loop n l k h).1 = (find_loop n l k h0).1.
Proof.
  intros Hs Hk. revert l. induction n as [|n IH]; intros l; [done|]. cbn [find_loop]. pose proof (Hs l k Hk) as Hl.
  rewrite !run_bind, !backend_run.
  destruct (deltas h !! l) as [d|] eqn:Hd, (deltas h0 !! l) as [d0|] eqn:Hd0; cbn in Hl |- *; [|done..].
  injection Hl as Hp Hb Hr.
  destruct (_backend d) as [b|], (_backend d0) as [b0|]; cbn in Hb |- *; [|done..]. injection Hb as Hb. rewrite Hb. destruct (MapBackend.get b0 k); [done|].
  rewrite !run_bind, (run_is_removed _ _ _ _ Hd), (run_is_removed _ _ _ _ Hd0), Hr.
  clear Hr; destruct (bool_decide _); [done|]. rewrite !run_bind, (run_parent _ _ _ Hd), (run_parent _ _ _ Hd0), Hp.
  destruct (_parent d0); [|done]. apply IH.
Qed.

Lemma find_same K h0 h l k : same_on K h0 h → K k → (find l k h).1 = (find l k h0).1.
Proof. apply find_loop_same. Qed.

Context (K : bytes → Prop) (h0 : heap).
Abbreviation keeps_keys m := (agrees_ (same_on K h0) m m).

Lemma modify_keys l f : (∀ k d, K k → seen k (f d) = seen k d) → keeps_keys (modify l f).
Proof.
  intros Hf h Hh. split; [done|]. split; [|done]. unfold modify. rewrite run_bind. unfold deref.
  rewrite run_gets. destruct (deltas h !! l) as [d|] eqn:Hd; [|done]. cbn. intros x k Hk. cbn.
  destruct (decide (x = l)) as [->|Hne]; [|rewrite lookup_insert_ne by done; by apply Hh].
  rewrite lookup_insert_eq. cbn. rewrite Hf by done. rewrite <- Hh, Hd by done. done.
Qed.

Lemma on_backend_keys l f : (∀ k b, K k → MapBackend.get (f b) k = MapBackend.get b k) → keeps_keys (on_backend l f).
Proof.
  intros Hf h Hh. split; [done|]. split; [|done]. unfold on_backend. rewrite run_bind, backend_run.
  destruct (deltas h !! l) as [d|] eqn:Hd; [|done]. cbn. destruct (_backend d) as [b|] eqn:Hb; [|done].
  rewrite (run_modify _ _ _ _ Hd). cbn. intros x k Hk. cbn.
  destruct (decide (x = l)) as [->|Hne]; [|rewrite lookup_insert_ne by done; by apply Hh].
  rewrite lookup_insert_eq. cbn. rewrite <- Hh, Hd by done. unfold seen. cbn. by rewrite Hb, Hf.
Qed.

Lemma put_keys l k v : ¬ K k → keeps_keys (put l k v).
Proof.
  intros Hk. apply on_backend_keys. intros k' b Hk'. unfold MapBackend.get, MapBackend.put. cbn.
  apply lookup_insert_ne. by intros <-.
Qed.

Lemma erase_keys l k t : ¬ K k → keeps_keys (erase l k t).
Proof.
  intros Hk. unfold erase. apply agrees_bind_; [apply agrees_read, read_find|]. intros v. destruct (_ || _); [|agree].
  apply agrees_bind_.
  - apply on_backend_keys. intros k' b Hk'. unfold MapBackend.get, MapBackend.erase. cbn.
    apply lookup_delete_ne. by intros <-.
  - intros _. apply modify_keys. intros k' d Hk'. unfold seen. cbn. f_equal. apply bool_decide_ext.
    assert (k' ≠ k) by (by intros ->). set_solver.
Qed.

End Keys.

Section Spaces.
Context `{!Crypto} `{!DatabaseKeys} `{!DatabaseKeysLaws}.

(** The keys of the system spaces. *)
Definition system_key (k : bytes) : Prop := ∃ sp key, k = key_string (mk_database_key sp key) ∧ MapBackend.system sp = true.

Lemma user_key sp key : MapBackend.system sp = false → ¬ system_key (key_string (mk_database_key sp key)).
Proof.
  intros Hsp (sp' & key' & Heq & Hsys). apply (f_equal parse_key) in Heq. rewrite !parse_key_string in Heq.
  injection Heq as -> ->. congruence.
Qed.

Lemma object_same h0 h l sp key : same_on system_key h0 h → MapBackend.system sp = true →
  (StateNode.get_object l sp key h).1 = (StateNode.get_object l sp key h0).1.
Proof. intros Hs Hsp. unfold StateNode.get_object. eapply find_same; [done|]. by exists sp, key. Qed.

Lemma put_object_keys h0 l sp key v : MapBackend.system sp = false →
  agrees_ (same_on system_key h0) (StateNode.put_object l sp key v) (StateNode.put_object l sp key v).
Proof.
  intros Hsp. unfold StateNode.put_object. apply agrees_bind_; [apply agrees_read, read_is_finalized|intros fin].
  apply agrees_bind_; [apply agrees_read, read_assert|intros _]. apply agrees_bind_; [apply agrees_read, read_find|intros o].
  apply agrees_bind_; [by apply put_keys, user_key|agree].
Qed.

Lemma remove_object_keys h0 l sp key : MapBackend.system sp = false →
  agrees_ (same_on system_key h0) (StateNode.remove_object l sp key) (StateNode.remove_object l sp key).
Proof.
  intros Hsp. unfold StateNode.remove_object, remove_object_. apply agrees_bind_; [apply agrees_read, read_is_finalized|intros fin].
  apply agrees_bind_; [apply agrees_read, read_assert|intros _]. apply agrees_bind_; [apply agrees_read, read_find|intros o].
  apply agrees_bind_; [by apply erase_keys, user_key|agree].
Qed.

End Spaces.

(** ** Isolation *)

Section Facts.
Context `{!Outside} `{!Reflection} `{!DatabaseKeysLaws}.

(** No system call is overridden, as far as the state node [node] says. *)
Definition no_overrides (node : option abstract_state_node) (h : heap) : Prop := ∀ x id obj c e,
  node = Some x → (StateNode.get_object (state_of x) (space_of system_call_dispatch) (as_call_id id) h).1 = Ok (Some obj) →
  to_message obj ≠ inr (bundle_target c e).

(** Nor is a contract of the system. *)
Definition no_system_contracts (node : option abstract_state_node) (h : heap) : Prop := ∀ x id obj m,
  node = Some x → (StateNode.get_object (state_of x) (space_of contract_metadata) id h).1 = Ok (Some obj) →
  to_message obj = inr m → meta_system m = false.

(** [_parent_state_node], or else the current one. *)
Definition cache_node (c : execution_context) : option abstract_state_node :=
  match _parent_state_node c with Some p => Some p | None => _current_state_node c end.

Record isolated (h0 : heap) (node parent : option abstract_state_node) (st : list stack_frame) (s : machine) : Prop := {
  iso_stack : _stack (ctx s) = st;
  iso_small : (length st ≤ 256)%nat;
  iso_heap : same_on system_key h0 (heap_ s);
  iso_node : _current_state_node (ctx s) = node;
  iso_parent : cache_node (ctx s) = parent;
  iso_table id b : system_call_table (_cache (ctx s)) !! id = Some b → ∃ t o, b = thunk_cache_bundle t o
}.

Context (h0 : heap) (node parent : option abstract_state_node).
Context (Hdispatch : no_overrides parent h0) (Hcontracts : no_system_contracts node h0).
Abbreviation I := (isolated h0 node parent).
Abbreviation keeps st m := (agrees_ (I st) m m).

Lemma isolated_same st s s' : I st s → heap_ s' = heap_ s → ctx_same (ctx s) (ctx s') → I st s'.
Proof.
  intros [Hst Hl Hh Hn Hp Ht] Hh' [Hs' Hc' Hp' Ht']. split; [congruence|done|by rewrite Hh'|congruence| |].
  - unfold cache_node in *. by rewrite Hp', Hc'.
  - intros id b. rewrite Ht'. apply Ht.
Qed.

Lemma isolated_heap {A} st (m : prog heap MapBackend.exn A) (Q : A → Prop) :
  agrees (same_on system_key h0) m m Q → agrees (I st) (on_heap m) (on_heap m) Q.
Proof.
  intros Hm s [Hst Hl Hh Hn Hp Ht]. split; [done|]. destruct (Hm _ Hh) as (_ & Hi & HQ). unfold on_heap.
  destruct (m (heap_ s)) as [[a|e|] h]; (split; [by split|]); [|done..]. intros ? [= <-]. by apply HQ.
Qed.

(** An object of a system space is what it was. *)
Lemma isolated_object st l sp key (Q : option bytes → Prop) : MapBackend.system sp = true →
  (∀ o, (StateNode.get_object l sp key h0).1 = Ok o → Q o) →
  agrees (I st) (on_heap (StateNode.get_object l sp key)) (on_heap (StateNode.get_object l sp key)) Q.
Proof.
  intros Hsp HQ. apply isolated_heap. intros h Hh. split; [done|]. rewrite read_get_object. split; [done|].
  intros o. rewrite (object_same _ _ _ _ _ Hh Hsp). apply HQ.
Qed.

(** Only thunks come to the table. *)
Lemma isolated_cache st id : keeps st (cache_system_call id).
Proof.
  unfold cache_system_call, parent_object. eapply agrees_bind.
  { apply (agrees_gets _ (λ s, cache_node (ctx s)) (λ o, o = parent)). intros s Hs. apply Hs. }
  intros n Hp. destruct n as [p|]; [|apply agrees_raise]. apply agrees_bind_; [by apply agrees_gets|]. intros c.
  destruct (_ !! _); [by apply agrees_ret|]. eapply agrees_bind.
  { unfold get_parent_node. eapply agrees_bind.
    { apply (agrees_gets _ (λ s, cache_node (ctx s)) (λ o, o = parent)). intros s Hs. apply Hs. }
    intros n Hn. destruct n as [x|]; [|apply agrees_raise]. apply (isolated_object _ _ _ _ (λ o, ∀ obj c e, o = Some obj → to_message obj ≠ inr (bundle_target c e)));
      [done|]. intros o Ho obj c' e ->. by eapply Hdispatch. }
  intros o Ho. assert (∀ t b, keeps st (emplace_system_call id (thunk_cache_bundle t b))) as Hput.
  { intros t b. apply agrees_mod. intros s [Hst Hl Hh Hn Hpn Ht]. split; [done..|]. cbn. intros i b'.
    destruct (decide (i = id)) as [->|Hne]; [rewrite lookup_insert_eq; intros [= <-]; eauto|].
    rewrite lookup_insert_ne by done. apply Ht. }
  destruct o as [obj|]; [|apply Hput]. specialize (Ho obj). destruct (to_message obj) as [e|t] eqn:Ht; cbn [convert].
  - intros s Hs. done.
  - eapply (agrees_bind _ _ _ _ _ (λ t', t' = t)); [by apply agrees_ret|]. intros t' ->.
    destruct t as [t|c' e]; [apply Hput|]. by destruct (Ho c' e).
Qed.

#[export] Instance isolated_closed : closed I False.
Proof.
  split.
  - intros st s Hs. apply Hs.
  - intros st s Hs. apply Hs.
  - apply isolated_same.
  - intros st st' s [Hst Hl Hh Hn Hp Ht] Hl'. by split.
  - apply isolated_cache.
  - intros st id. unfold system_call_exists. apply agrees_bind_; [apply isolated_cache|]. intros _. eapply agrees_bind.
    + apply (agrees_gets _ (λ s, _cache (ctx s)) (λ c, ∀ b, system_call_table c !! id = Some b → ∃ t o, b = thunk_cache_bundle t o)).
      intros s Hs b. apply Hs.
    + intros c Hc. destruct (_ !! _) as [b|] eqn:Hb; [|by apply agrees_ret]. destruct (Hc b Hb) as (t & o & ->).
      by apply agrees_ret.
Qed.

(** ** Thunks called from user mode *)

Definition no_contract_of_system (sp : object_space) (o : database_object) : Prop :=
  sp = space_of contract_metadata → exists_ o = true → ∀ m, to_message (object_value o) = inr m → meta_system m = false.

#[local] Hint Resolve keeps_charge_object keeps_permissions keeps_use_disk keeps_require_kernel keeps_require_writable
  keeps_block_hash_code keeps_use_network keeps_set_receipt keeps_push_log keeps_delta_entries keeps_meter_state
  keeps_current_node : agrees.

Lemma isolated_current st : agrees (I st) current_node current_node (λ l, ∃ x, node = Some x ∧ l = state_of x).
Proof.
  unfold current_node, get_state_node. eapply agrees_bind.
  { apply (agrees_gets _ (λ s, _current_state_node (ctx s)) (λ o, o = node)). intros s Hs. apply Hs. }
  intros n Hn. destruct n as [x|]; [|apply agrees_raise]. apply agrees_ret. by exists x.
Qed.

(** What is read is what was there before. *)
Lemma isolated_get st sp key : agrees (I st) (get_object_ sp key) (get_object_ sp key) (no_contract_of_system sp).
Proof.
  destruct (MapBackend.system sp) eqn:Hsp.
  - unfold get_object_. apply agrees_bind_; [agree|intros _]. eapply agrees_bind; [apply isolated_current|].
    intros l (x & Hx & ->). eapply agrees_bind.
    { apply (isolated_object _ _ _ _ (λ o, ∀ obj m, o = Some obj → sp = space_of contract_metadata →
        to_message obj = inr m → meta_system m = false)); [done|]. intros o Ho obj m -> ->. by eapply Hcontracts. }
    intros [obj|] Ho; [|by apply agrees_ret]. apply agrees_bind_; [agree|intros _]. apply agrees_ret. intros ? _ m. by apply Ho.
  - eapply agrees_weaken; [apply keeps_get_object|]. intros a _ ->. done.
Qed.

(** The caller of the thunk, in user mode. *)
Section User.
Context (g f : stack_frame) (rest : list stack_frame) (Hf : call_privilege f = user_mode).
Abbreviation st := (g :: f :: rest).

Lemma isolated_privilege : agrees (I st) (gets_ctx get_caller_privilege) (gets_ctx get_caller_privilege) (λ p, p = user_mode).
Proof.
  apply (gets_stack st _ (λ l, match l !! 1%nat with Some f => call_privilege f | None => kernel_mode end) (λ p, p = user_mode));
    done.
Qed.

(** Kernel code stops here. *)
Lemma isolated_kernel : agrees (I st) require_kernel require_kernel (λ _, False).
Proof.
  unfold require_kernel. eapply agrees_bind; [apply isolated_privilege|]. intros p ->. apply agrees_raise.
Qed.

Lemma isolated_permissions sp : agrees (I st) (assert_permissions sp) (assert_permissions sp) (λ _, MapBackend.system sp = false).
Proof.
  unfold assert_permissions. eapply agrees_bind; [apply isolated_privilege|]. intros p ->.
  destruct (MapBackend.system sp); cbn [negb koinos_assert]; [intros s Hs; done|].
  apply agrees_bind_; [by apply agrees_ret|intros _]. apply agrees_bind_; [agree|intros c].
  by destruct (bool_decide _); [apply agrees_ret|apply agrees_raise].
Qed.

Lemma isolated_put sp key v : keeps st (put_object_ sp key v).
Proof.
  unfold put_object_. do 3 (apply agrees_bind_; [agree|intros ?]). eapply agrees_bind; [apply isolated_permissions|].
  intros u Hsp. apply agrees_bind_; [agree|intros l]. apply agrees_bind_; [by apply isolated_heap, put_object_keys|agree].
Qed.

Lemma isolated_remove sp key : keeps st (remove_object_ sp key).
Proof.
  unfold remove_object_. do 2 (apply agrees_bind_; [agree|intros ?]). eapply agrees_bind; [apply isolated_permissions|].
  intros u Hsp. apply agrees_bind_; [agree|intros l]. apply agrees_bind_; [by apply isolated_heap, remove_object_keys|agree].
Qed.

Lemma kernel_first {A} (m m' : M A) : agrees_ (I st) (require_kernel;; m) (require_kernel;; m').
Proof. eapply agrees_bind; [apply isolated_kernel|]. done. Qed.

Lemma isolated_transaction sys sys' trx : agrees_ (I st) (apply_transaction_ sys trx) (apply_transaction_ sys' trx).
Proof.
  assert (agrees_ (λ s : machine * trx_locals, I st s.1) (apply_transaction_l sys trx) (apply_transaction_l sys' trx)) as Hl.
  { unfold apply_transaction_l. apply agrees_bind_; [|intros _; apply agrees_bind_; [by apply agrees_gets|agree]].
    apply agrees_catch; [eapply agrees_bind; [apply keeps_at_machine, isolated_kernel|done]|].
    intros []; [|agree..]. apply agrees_bind_; [apply keeps_finish|agree]. }
  intros s Hs. destruct (Hl (s, no_locals) Hs) as (He & Hi & _). unfold apply_transaction_. rewrite <- He.
  destruct (apply_transaction_l _ _ _) as [r s']. by split_and!.
Qed.

Lemma isolated_block sys sys' b : agrees_ (I st) (apply_block_ sys b) (apply_block_ sys' b).
Proof.
  unfold apply_block_. apply agrees_bind_; [agree|intros _]. apply agrees_catch; [apply kernel_first|].
  intros e. unfold meter. do 2 (apply agrees_bind_; [first [apply keeps_receipt|agree]|intros ?]). agree.
Qed.

(** A thunk that is not harmless, called by user code. *)
Lemma isolated_writer sys sys' run run' {A} (c : call A) : harmless c = false →
  agrees_ (I st) (Dispatch.thunk sys run c) (Dispatch.thunk sys' run' c).
Proof.
  intros Hc. destruct c; try discriminate; cbn [Dispatch.thunk]; try apply kernel_first.
  - apply isolated_block.
  - apply isolated_transaction.
  - apply isolated_put.
  - apply isolated_remove.
Qed.

End User.

(** ** Harmless thunks *)

Section Thunks.
Context (sys sys' : ∀ A, call A → M A) (run run' : bytes → bytes → M unit) (st : list stack_frame).
Context (Hsys : ∀ A (c : call A), harmless c = true → agrees (I st) (sys A c) (sys' A c) (post no_contract_of_system c)).
Context (Hrun : ∀ f code h, call_privilege f = user_mode → agrees_ (I (f :: st)) (run code h) (run' code h)).

(** A contract runs in user mode. *)
Lemma isolated_call i e a : agrees_ (I st) (call_contract_ sys run i e a) (call_contract_ sys' run' i e a).
Proof.
  unfold call_contract_. eapply agrees_bind; [by apply Hsys|intros o _]. apply agrees_bind_; [agree|intros _].
  eapply agrees_bind; [by apply Hsys|]. intros o' Ho. apply keeps_assert_then. intros Hex.
  specialize (Ho eq_refl Hex). destruct (to_message (object_value o')) as [e'|m] eqn:Hm; cbn [convert].
  { intros s Hs. done. }
  eapply (agrees_bind _ _ _ _ _ (λ m', m' = m)); [by apply agrees_ret|]. intros m' ->. rewrite (Ho m) by done.
  do 3 (apply agrees_bind_; [agree|intros ?]). apply agrees_bind_; [|agree]. unfold until_success.
  apply agrees_catch; [|agree]. apply keeps_with_frame. intros _. by apply Hrun.
Qed.

Lemma isolated_harmless {A} (c : call A) : harmless c = true → (2 ≤ length st)%nat →
  agrees (I st) (Dispatch.thunk sys run c) (Dispatch.thunk sys' run' c) (post no_contract_of_system c).
Proof. intros Hc Hst. apply (thunk_reads _ _ _ _ _ st Hsys); [done..|apply isolated_get|apply isolated_call]. Qed.

End Thunks.
End Facts.

Import StateDelta StateNode Chain ExecutionContext SystemCall Thunk VirtualMachine.

Section Theorems.
Context `{!Outside} `{!Reflection} `{!Wire} `{!Fizzy} `{!DatabaseKeysLaws} (fuel : nat).
Context (h0 : heap) (node parent : option abstract_state_node).
Context (Hdispatch : no_overrides parent h0) (Hcontracts : no_system_contracts node h0).
Abbreviation I := (isolated h0 node parent).

#[local] Instance isolation : closed I False := isolated_closed h0 node parent Hdispatch.

(** A call is no danger if it only reads or if user code makes it. *)
Definition guarded {A} (c : call A) (st : list stack_frame) : Prop :=
  harmless c = true ∨ ∃ f rest, st = f :: rest ∧ call_privilege f = user_mode.

Definition calls_guarded (k : knot) : Prop := ∀ st A (c : call A), (1 ≤ length st)%nat → guarded c st →
  agrees (I st) (sys k A c) (sys k A c) (post no_contract_of_system c).

Definition runs_guarded (k : knot) : Prop := ∀ f st code id, call_privilege f = user_mode → (1 ≤ length st)%nat →
  agrees_ (I (f :: st)) (run_contract k code id) (run_contract k code id).

Lemma thunk_guarded k : calls_guarded k → runs_guarded k → ∀ g st A (c : call A), (1 ≤ length st)%nat → guarded c st →
  agrees (I (g :: st)) (Dispatch.thunk (sys k) (run_contract k) c) (Dispatch.thunk (sys k) (run_contract k) c)
    (post no_contract_of_system c).
Proof.
  intros Hsys Hrun g st A c Hst Hc. destruct (harmless c) eqn:Hh.
  - apply isolated_harmless; [done..| | |done|cbn; lia].
    + intros B c' Hc'. apply Hsys; [cbn; lia|by left].
    + intros f code id Hf. apply Hrun; [done|cbn; lia].
  - destruct Hc as [?|(f & rest & -> & Hf)]; [congruence|].
    eapply agrees_weaken; [by apply isolated_writer|]. intros a _. by destruct c.
Qed.

Lemma knot_guarded d : calls_guarded (knot_at fuel d) ∧ runs_guarded (knot_at fuel d).
Proof.
  induction d as [|d [Hsys Hrun]]; [split; intros ?; intros; cbn [knot_at]; apply agrees_fuel|].
  pose proof (thunk_guarded _ Hsys Hrun) as Hthunk. split.
  - intros st A c Hst Hc. cbn [knot_at sys]. apply (system_call_keeps (overridable := False)); [done| |done]. intros _. by apply Hthunk.
  - intros f st code id Hf Hst. cbn [knot_at run_contract]. apply run_keeps. split.
    + intros f' rest [= <- <-] Hk. congruence.
    + intros sid _ A c. eapply agrees_true. apply Hthunk; [cbn; lia|]. right. eauto.
    + done.
Qed.

End Theorems.

Section Properties.
Context `{!Outside} `{!Reflection} `{!Wire} `{!Fizzy} `{!DatabaseKeysLaws}.

(** A machine about to run a contract in user mode, on a chain without
    overrides or system contracts. *)
Record user_contract (s : machine) : Prop := {
  uc_stack : ∃ f g rest, _stack (ctx s) = f :: g :: rest ∧ call_privilege f = user_mode;
  uc_small : (length (_stack (ctx s)) ≤ 256)%nat;
  uc_overrides : no_overrides (cache_node (ctx s)) (heap_ s);
  uc_contracts : no_system_contracts (_current_state_node (ctx s)) (heap_ s);
  uc_table id b : system_call_table (_cache (ctx s)) !! id = Some b → ∃ t o, b = thunk_cache_bundle t o
}.

(** C1. A contract in user mode cannot change an object of a system space,
    in any state node, by whatever host calls it makes and through whatever
    contracts it calls, where no system call is overridden and no contract is a
    system contract. *)
Theorem user_contract_isolated fuel depth code id s l sp key : user_contract s → MapBackend.system sp = true →
  (StateNode.get_object l sp key (heap_ (run_contract (knot_at fuel depth) code id s).2)).1 =
  (StateNode.get_object l sp key (heap_ s)).1.
Proof.
  intros [(f & g & rest & Hst & Hf) Hsm Ho Hc Ht] Hsp.
  destruct (knot_guarded fuel _ _ _ Ho Hc depth) as [_ Hrun].
  destruct (Hrun f (g :: rest) code id Hf ltac:(cbn; lia) s) as (_ & Hi & _).
  - split; [done|by rewrite <- Hst|done..].
  - apply object_same; [apply Hi|done].
Qed.

End Properties.
