(* ===== verification/ControllerTheorems.v ===== *)
(** What the controller's reads and trial applications keep: the blocks.

    Theorems on the controller. *)

From S2P Require Import Prelude Keys MapBackend StateDelta StateNode StateDeltaFacts StateCommit.
From S2P Require Import StateDatabase MergeIterator ObjectIteration Session Chronicler ResourceMeter.
From S2P Require Import ChainTypes ExecutionContext ProtoUtils SystemCalls Dispatch VirtualMachine Rectify.
From S2P Require Import Controller ProgramLogic ExecutionFacts FrameFacts.
Import StateDelta Chain ExecutionContext Controller.

(** [s'] has the blocks of [s]: the same index, head and forks, the same head
    in the cache, and their deltas unchanged; other deltas may be new. *)
Record chain_kept (s s' : controller_impl) : Prop := {
  kept_db : _db s' = StateDatabase.set_heap (StateDatabase.db_heap (_db s')) (_db s);
  kept_head : _cached_head_block s' = _cached_head_block s;
  kept_next : (next_loc (StateDatabase.db_heap (_db s)) ≤ next_loc (StateDatabase.db_heap (_db s')))%positive;
  kept_fresh : fresh_above (StateDatabase.db_heap (_db s'));
  kept_delta l : (l < next_loc (StateDatabase.db_heap (_db s)))%positive →
    deltas (StateDatabase.db_heap (_db s')) !! l = deltas (StateDatabase.db_heap (_db s)) !! l
}.

Abbreviation heap_of s := (StateDatabase.db_heap (_db s)).

Lemma chain_kept_refl s : fresh_above (heap_of s) → chain_kept s s.
Proof. intros Hf. split; [by destruct s as [[]]|done|lia|done..]. Qed.

Lemma set_heap_eq db db0 h h' : db = StateDatabase.set_heap h' db0 → StateDatabase.set_heap h db = StateDatabase.set_heap h db0.
Proof. by intros ->. Qed.

Section Facts.
Context `{!Outside} `{!Reflection} `{!Wire} `{!Fizzy} `{!Literals} `{!ChainRpc}.
Context (fuel : nat) (s0 : controller_impl).
Abbreviation n0 := (next_loc (heap_of s0)).
Abbreviation kept := (chain_kept s0).

(** *** Reads of the database *)

Lemma read_lift {A} (m : prog StateDatabase.database MapBackend.exn A) : reads_only m → agrees_ kept (on_db m) (on_db m).
Proof.
  intros Hm s Hs. split; [done|]. split; [|done]. unfold on_db. specialize (Hm (_db s)).
  destruct (m (_db s)) as [[a|e|] db]; cbn in Hm; subst db; by destruct s.
Qed.

Lemma read_heap {A} (m : prog heap MapBackend.exn A) : reads_only m → reads_only (StateDatabase.on_heap m).
Proof.
  intros Hm db. unfold StateDatabase.on_heap. specialize (Hm (StateDatabase.db_heap db)). destruct (m _) as [r h].
  cbn in Hm |- *. subst h. by destruct db.
Qed.

Lemma read_assert_open : reads_only (StateDatabase.assert_open).
Proof. unfold StateDatabase.assert_open. apply read_bind; [apply read_gets|]. intros db. apply read_assert. Qed.

Lemma read_head_shared l : reads_only (StateDatabase.get_head_shared l).
Proof.
  unfold StateDatabase.get_head_shared, StateDatabase.get_head_lockless. apply read_bind; [apply read_assert|intros _].
  apply read_bind; [|reading]. apply read_bind; [apply read_assert_open|]. intros _. unfold StateDatabase.deref_ptr. reading.
Qed.

(** *** A new node *)

Lemma create_anonymous_eq x h : StateNode.create_anonymous_node x h =
  match deltas h !! StateNode.state_of x with
  | None => (Throw null_dereference, h)
  | Some d => (Ok (StateNode.AnonymousNode x (next_loc h)),
      mk_heap (<[next_loc h := mk_state_delta (Some (StateNode.state_of x))
        (Some (MapBackend.set_block_header default_header MapBackend.new)) ∅ null_id (u64 (_revision d + 1)) None false]> (deltas h))
        (Pos.succ (next_loc h)))
  end.
Proof.
  unfold StateNode.create_anonymous_node. rewrite run_bind. unfold make_child. rewrite run_bind. unfold deref. rewrite run_gets.
  by destruct (deltas h !! StateNode.state_of x) as [d|].
Qed.

(** A new anonymous node, where no block is. *)
Definition new_child (y : StateNode.abstract_state_node) : Prop := (n0 ≤ StateNode.state_of y)%positive.

Lemma create_kept x : agrees kept (on_node (StateNode.create_anonymous_node x)) (on_node (StateNode.create_anonymous_node x)) new_child.
Proof.
  intros s [Hdb Hc Hn Hf Hd]. split; [done|]. unfold on_node, on_db, StateDatabase.on_heap. rewrite create_anonymous_eq.
  destruct (deltas (heap_of s) !! StateNode.state_of x) as [d|]; cbn.
  - split; [|by intros ? [= <-]]. split; cbn.
    + by eapply set_heap_eq.
    + done.
    + lia.
    + intros l Hl. cbn in Hl |- *. rewrite lookup_insert_ne by lia. apply Hf. lia.
    + intros l Hl. rewrite lookup_insert_ne by lia. by apply Hd.
  - split; [|done]. split; cbn; [by eapply set_heap_eq|done..].
Qed.

Lemma at_head_kept l : agrees kept (at_head l) (at_head l) new_child.
Proof.
  unfold at_head. apply agrees_bind_; [apply read_lift, read_head_shared|]. intros h. apply create_kept.
Qed.

(** *** Contexts *)

Definition machine_of (s : controller_impl) (c : execution_context) : machine := mk_machine (heap_of s) (vm_modules s) c.

(** The context's node is not a block's. *)
Record apart (h1 : heap) (st : list stack_frame) (s : controller_impl) (c : execution_context) : Prop := {
  apart_kept : kept s;
  apart_framed : framed (next_loc h1) (λ l, (n0 ≤ l)%positive) h1 st (machine_of s c);
  apart_heap l : (l < n0)%positive → deltas h1 !! l = deltas (heap_of s0) !! l;
  apart_next : (n0 ≤ next_loc h1)%positive
}.

Lemma apart_new s : kept s → ∀ i, apart (heap_of s) [] s (ExecutionContext.new i).
Proof.
  intros Hs i. split; [done| |apply Hs|apply Hs]. split; cbn; [done|lia| |done].
  apply hframe_start, Hs.
Qed.

(** A program of the context keeps the blocks. *)
Lemma run_context_apart h1 st st' s c {A} (m : M A) : apart h1 st s c →
  framed (next_loc h1) (λ l, (n0 ≤ l)%positive) h1 st' (m (machine_of s c)).2 →
  ∃ s' c', run_context m c s = ((m (machine_of s c)).1, s', c') ∧ apart h1 st' s' c'.
Proof.
  intros [Hk Hfr Hh Hn] Hm. unfold run_context. fold (machine_of s c). destruct (m (machine_of s c)) as [r m'] eqn:Hr.
  eexists _, _. split; [done|]. cbn in Hm. split; [| |done..].
  - destruct Hk as [Hdb Hc Hnx Hf Hd]. split; cbn.
    + by eapply set_heap_eq.
    + done.
    + pose proof (hf_next _ _ _ _ (fr_heap _ _ _ _ _ Hm)). lia.
    + apply (hf_fresh _ _ _ _ (fr_heap _ _ _ _ _ Hm)).
    + intros l Hl. rewrite <- Hh by done. apply (hf_same _ _ _ _ (fr_heap _ _ _ _ _ Hm)); lia.
  - by destruct m'.
Qed.

Lemma on_context_apart h1 st {A} (m : M A) :
  agrees_ (framed (next_loc h1) (λ l, (n0 ≤ l)%positive) h1 st) m m →
  agrees_ (λ x : controller_impl * variables, apart h1 st x.1 (context x.2)) (on_context m) (on_context m).
Proof.
  intros Hm [s v] Hs. cbn in Hs. split; [done|]. split; [|done]. unfold on_context. cbn [fst snd].
  destruct (Hm _ (apart_framed _ _ _ _ Hs)) as (_ & Hi & _).
  destruct (run_context_apart _ _ _ _ _ m Hs Hi) as (s' & c' & -> & Ha). done.
Qed.

Lemma at_controller_apart h1 st {A} (m : C A) Q :
  (∀ c, agrees (λ s, apart h1 st s c) m m Q) →
  agrees (λ x : controller_impl * variables, apart h1 st x.1 (context x.2)) (at_controller m) (at_controller m) Q.
Proof.
  intros Hm [s v] Hs. cbn in Hs. split; [done|]. unfold at_controller. cbn [fst snd].
  destruct (Hm (context v) s Hs) as (_ & Hi & HQ). destruct (m s) as [r s']. by split.
Qed.

Lemma send_apart h1 st c msg : agrees_ (λ s, apart h1 st s c) (send msg) (send msg).
Proof. apply agrees_mod. intros s [[Hdb Hc Hnx Hf Hd] Hfr Hh Hn]. split; [split|..]; done. Qed.

End Facts.

Section Theorems.
Context `{!Outside} `{!Reflection} `{!Wire} `{!Fizzy} `{!Literals} `{!ChainRpc}.
Context (fuel : nat) (read_limit bufsize : Z) (pending_limit : option Z) (client : option services).

(** *** Frames of the controller's own contexts *)

Section Frames.
Context (n : loc) (W : loc → Prop) (h1 : heap).
Abbreviation F st := (framed n W h1 st).

Lemma sys_keeps st {A} (c : SystemCall.call A) : (1 ≤ length st)%nat → agrees_ (F st) (sys fuel c) (sys fuel c).
Proof. apply calls_keep. Qed.

(** The frame is pushed first, on an empty stack. *)
Lemma push_first f {A} (m : M A) s : agrees_ (F [f]) m m → F [] s → ∃ st, F st ((push_frame f;; m) s).2.
Proof.
  intros Hm Hs. rewrite run_bind, (run_push _ _ _ Hs). cbn [length Nat.ltb Nat.leb].
  assert (F [f] (set_ctx (with_stack [f]) s)) as Hs' by (eapply closed_frames; [done|cbn; lia]).
  exists [f]. by destruct (Hm _ Hs') as (_ & Hi & _).
Qed.

(** Or last. *)
Lemma push_last f {A B} (m : M A) (m' : M B) s : agrees_ (F []) m m → agrees_ (F []) m' m' → F [] s →
  match (m;; m';; push_frame f) s with (Ok _, s') => F [f] s' | (_, s') => F [] s' end.
Proof.
  intros Hm Hm' Hs. rewrite run_bind. destruct (Hm _ Hs) as (_ & Hi & _). destruct (m s) as [[a|e|] s1]; [|done..].
  cbn in Hi. rewrite run_bind. destruct (Hm' _ Hi) as (_ & Hi' & _). destruct (m' s1) as [[a'|e|] s2]; [|done..].
  cbn in Hi'. rewrite (run_push _ _ _ Hi'). cbn [length Nat.ltb Nat.leb]. eapply closed_frames; [done|cbn; lia].
Qed.

End Frames.

Lemma reset_cache_keeps n W h1 st : agrees_ (framed n W h1 st) reset_cache reset_cache.
Proof. apply agrees_mod. intros s [Hst Hl Hh Hn]. by split. Qed.

Lemma set_block_keeps n W h1 st b : agrees_ (framed n W h1 st) (set_block b) (set_block b).
Proof. unfold set_block. agree. Qed.

(** ** Trial applications and reads *)

Lemma validate_reads t : reads_only (validate_transaction t).
Proof. unfold validate_transaction, missing. reading. Qed.

(** A context of its own, with a node that is no block's. *)
Lemma with_context_kept s0 f {A} (m : M A) i :
  (∀ h1, agrees_ (framed (next_loc h1) (λ l, (next_loc (heap_of s0) ≤ l)%positive) h1 [f]) m m) →
  agrees_ (chain_kept s0) (with_context (ExecutionContext.new i) (push_frame f;; m)) (with_context (ExecutionContext.new i) (push_frame f;; m)).
Proof.
  intros Hm s Hs. split; [done|]. split; [|done]. unfold with_context. pose proof (apart_new _ _ Hs i) as Ha.
  destruct (push_first _ _ _ f m _ (Hm (heap_of s)) (apart_framed _ _ _ _ _ Ha)) as [st Hi].
  destruct (run_context_apart _ _ _ _ _ _ _ Ha Hi) as (s' & c' & -> & Ha'). apply Ha'.
Qed.

Lemma read_head_kept s0 f {A} (c : SystemCall.call A) :
  agrees_ (chain_kept s0) (read_head fuel f c) (read_head fuel f c).
Proof.
  unfold read_head. eapply agrees_bind; [apply at_head_kept|]. intros y Hy. apply with_context_kept. intros h1.
  apply agrees_bind_; [apply framed_set_node; by left|intros _]. apply agrees_bind_; [apply reset_cache_keeps|intros _].
  by apply sys_keeps.
Qed.

Lemma read_contract_kept s0 id e args :
  agrees_ (chain_kept s0) (read_contract fuel read_limit id e args) (read_contract fuel read_limit id e args).
Proof.
  unfold read_contract. apply agrees_bind_; [apply agrees_read; unfold missing; reading|intros _].
  apply agrees_bind_; [by apply agrees_gets|intros b]. eapply agrees_bind; [apply at_head_kept|]. intros y Hy.
  apply with_context_kept. intros h1. apply agrees_bind_; [apply framed_set_node; by left|intros _].
  apply agrees_bind_; [apply set_block_keeps|intros _]. apply agrees_bind_; [apply reset_cache_keeps|intros _].
  apply agrees_bind_; [apply keeps_meter|intros _]. apply agrees_bind_; [|agree].
  apply agrees_catch; [by apply sys_keeps|intros ex]. destruct ex; agree.
Qed.

Lemma call_in_buffer_keeps n W h1 st id args : (1 ≤ length st)%nat →
  agrees_ (framed n W h1 st) (call_in_buffer fuel bufsize id args) (call_in_buffer fuel bufsize id args).
Proof.
  intros Hst s Hs. split; [done|]. split; [|done]. unfold call_in_buffer.
  set (mem := _ ++ _ ++ _).
  assert (agrees_ (λ x : machine * bytes, framed n W h1 st x.1)
    (Dispatch.host_call (VirtualMachine.sys (VirtualMachine.knot_at fuel VirtualMachine.full_depth))
       (VirtualMachine.run_contract (VirtualMachine.knot_at fuel VirtualMachine.full_depth)) id 0 bufsize bufsize
       (Dispatch.byte_size args) (bufsize + Dispatch.byte_size args))
    (Dispatch.host_call (VirtualMachine.sys (VirtualMachine.knot_at fuel VirtualMachine.full_depth))
       (VirtualMachine.run_contract (VirtualMachine.knot_at fuel VirtualMachine.full_depth)) id 0 bufsize bufsize
       (Dispatch.byte_size args) (bufsize + Dispatch.byte_size args))) as Hcall.
  { apply host_call_keeps.
    - intros Hl A c. apply thunks_keep. cbn. lia.
    - intros _ Hl f' code h. apply runs_keep. cbn. lia. }
  destruct (Hcall (s, mem) Hs) as (_ & Hi & _). destruct (Dispatch.host_call _ _ _ _ _ _ _ _ _) as [r [s' m']]. done.
Qed.

Lemma invoke_system_call_kept s0 id name caller args :
  agrees_ (chain_kept s0) (invoke_system_call fuel read_limit bufsize id name caller args)
    (invoke_system_call fuel read_limit bufsize id name caller args).
Proof.
  unfold invoke_system_call. apply agrees_bind_; [by destruct (_ || _); [apply agrees_ret|apply agrees_raise]|intros _].
  eapply agrees_bind; [apply at_head_kept|]. intros y Hy. apply with_context_kept. intros h1.
  apply agrees_bind_; [apply framed_set_node; by left|intros _]. apply agrees_bind_; [apply reset_cache_keeps|intros _].
  apply agrees_bind_; [apply keeps_meter|intros _].
  apply agrees_bind_; [destruct id, name as [nm|]; [..|destruct (system_call_id_Parse nm)|]; agree|intros sid].
  apply call_in_buffer_keeps. cbn. lia.
Qed.

(** A read of the chain, with whatever contract it runs, changes no block:
    the index, the head and the forks are as before, and so is every delta; it
    writes to an anonymous child of the head. *)
Theorem reads_keep_blocks s : fresh_above (heap_of s) →
  (∀ id e args, chain_kept s (read_contract fuel read_limit id e args s).2) ∧
  (∀ id name caller args, chain_kept s (invoke_system_call fuel read_limit bufsize id name caller args s).2) ∧
  (∀ f A (c : SystemCall.call A), chain_kept s (read_head fuel f c s).2).
Proof.
  intros Hs. apply chain_kept_refl in Hs. split_and!.
  - intros i e args. by destruct (read_contract_kept s i e args s Hs) as (_ & Hi & _).
  - intros i name caller args. by destruct (invoke_system_call_kept s i name caller args s Hs) as (_ & Hi & _).
  - intros f A c. by destruct (read_head_kept s f c s Hs) as (_ & Hi & _).
Qed.

(** *** Transactions *)

Section Trial.
Context (s0 : controller_impl) (h1 : heap).
Abbreviation AV st := (λ x : controller_impl * variables, apart s0 h1 st x.1 (context x.2)).
Abbreviation F st := (framed (next_loc h1) (λ l, (next_loc (heap_of s0) ≤ l)%positive) h1 st).

Lemma context_keeps st {A} (m : M A) : agrees_ (F st) m m → agrees_ (AV st) (on_context m) (on_context m).
Proof. apply on_context_apart. Qed.

Abbreviation AC st c := (λ s, apart s0 h1 st s c).

Lemma rpc_keeps st c cl msg : agrees_ (AC st c) (rpc cl msg) (rpc cl msg).
Proof.
  unfold rpc. apply agrees_bind_; [by apply (agrees_gets _ (λ s, s))|intros s].
  apply agrees_bind_; [apply send_apart|agree].
Qed.

Lemma expect_keeps {A} (J : controller_impl → Prop) (f : response → option A) r : agrees_ J (expect f r) (expect f r).
Proof. unfold expect, mempool_failure. destruct r; agree. Qed.

Lemma assert_keeps {S} (J : S → Prop) b n t : agrees_ J (assert_c b n t) (assert_c b n t).
Proof. destruct b; [by apply agrees_ret|apply agrees_raise]. Qed.

Lemma converted_keeps {S A} (J : S → Prop) (r : exn + A) : agrees_ J (converted r) (converted r).
Proof. destruct r; [apply agrees_raise|by apply agrees_ret]. Qed.

#[local] Hint Resolve rpc_keeps expect_keeps assert_keeps converted_keeps send_apart : agrees.

Lemma ask_mempool_keeps st c cl t n : agrees_ (AC st c) (ask_mempool pending_limit cl t n) (ask_mempool pending_limit cl t n).
Proof. unfold ask_mempool. agree. Qed.

Lemma submit_body_keeps f t b :
  agrees_ (AV [f]) (submit_body fuel pending_limit client t b) (submit_body fuel pending_limit client t b).
Proof.
  unfold submit_body. apply agrees_bind_; [apply context_keeps, reset_cache_keeps|intros _].
  apply agrees_bind_; [by apply context_keeps, sys_keeps|intros rc].
  apply agrees_bind_; [destruct client as [cl|], b; agree|intros _].
  { apply at_controller_apart. intros c. apply ask_mempool_keeps. }
  { apply context_keeps. unfold set_mempool_nonce. agree. }
  apply agrees_bind_; [apply context_keeps|intros _].
  { apply agrees_bind_; [by apply sys_keeps|intros l]. apply agrees_bind_; [apply keeps_meter|intros _]. by apply sys_keeps. }
  apply agrees_bind_; [by apply agrees_gets|intros c]. destruct (_receipt c); [agree..|].
  apply agrees_bind_; [|agree]. destruct client as [cl|], b; [|agree..].
  apply agrees_bind_; [by destruct (_current_state_node c); [apply agrees_ret|apply agrees_raise]|intros node].
  apply agrees_bind_; [apply context_keeps, keeps_node_revision|intros h].
  apply at_controller_apart. intros c'. apply send_apart.
Qed.

Lemma submit_handler_keeps f e : agrees_ (AV [f]) (submit_handler e) (submit_handler e).
Proof. unfold submit_handler. destruct e; [apply agrees_bind_; [by apply agrees_gets|]|..]; agree. Qed.

End Trial.

(** C11. Submitting a transaction changes no block, whether it is accepted or
    not: it is applied to an anonymous child of the head. *)
Theorem submit_transaction_keeps_blocks t broadcast s : fresh_above (heap_of s) →
  chain_kept s (submit_transaction fuel pending_limit client t broadcast s).2.
Proof.
  intros Hs. apply chain_kept_refl in Hs as Hk. unfold submit_transaction. rewrite run_bind.
  pose proof (validate_reads t s) as Hv. destruct (validate_transaction t s) as [[[]|e|] s']; cbn in Hv; subst s'; [|done..].
  unfold with_variables. rewrite run_bind. cbn [at_controller gets_state fst snd]. rewrite run_bind. unfold at_controller at 1.
  cbn [fst snd]. destruct (at_head_kept s shared_lock s Hk) as (_ & Hk1 & Hy).
  destruct (at_head shared_lock s) as [[y|e|] s1]; cbn [fst snd] in *; [|done..]. specialize (Hy y eq_refl).
  pose proof (apart_new s s1 Hk1 transaction_application) as Ha. rewrite run_bind.
  pose proof (push_last _ _ _ (frame_of [] kernel_mode) (set_block (_cached_head_block s)) (set_state_node (Some y) None) _
    (set_block_keeps _ _ _ _ _) (framed_set_node _ _ _ _ y None (or_introl Hy)) (apart_framed _ _ _ _ _ Ha)) as Hp.
  unfold on_context at 1. cbn [fst snd context initial_variables].
  match goal with |- context [run_context ?m ?c s1] => set (prefix := m) in * end.
  assert (∃ st, framed (next_loc (heap_of s1)) (λ l, (next_loc (heap_of s) ≤ l)%positive) (heap_of s1) st
    (prefix (machine_of s1 (ExecutionContext.new transaction_application))).2 ∧
    ((prefix (machine_of s1 (ExecutionContext.new transaction_application))).1 = Ok tt → st = [frame_of [] kernel_mode])) as (st & Hi & Hst).
  { destruct (prefix _) as [[[]|e|] m']; [by exists [frame_of [] kernel_mode]|by exists []..]. }
  destruct (run_context_apart _ _ _ _ _ _ _ Ha Hi) as (s2 & c2 & -> & Ha2). cbn [fst snd].
  destruct (prefix _).1 as [[]|e|]; [|apply Ha2..]. rewrite Hst in Ha2 by done.
  pose proof (agrees_catch _ _ _ _ _ _ (submit_body_keeps s (heap_of s1) (frame_of [] kernel_mode) t broadcast)
    (submit_handler_keeps s (heap_of s1) (frame_of [] kernel_mode))) as Hb.
  destruct (Hb (s2, set_context c2 (initial_variables transaction_application)) Ha2) as (_ & Hi2 & _).
  destruct (try_catch _ _ _) as [r [s3 v3]]. apply Hi2.
Qed.

(** ** Blocks that are not applied *)

Lemma read_index_find id : reads_only (StateDatabase.index_find id).
Proof. unfold StateDatabase.index_find. reading. Qed.

Lemma read_node_shared id l : reads_only (StateDatabase.get_node_shared id l).
Proof.
  unfold StateDatabase.get_node_shared, StateDatabase.get_node_lockless. apply read_bind; [apply read_assert|intros _].
  apply read_bind; [|reading]. apply read_bind; [apply read_assert_open|intros _]. apply read_bind; [|reading].
  apply read_index_find.
Qed.

Lemma read_db {A} (m : prog StateDatabase.database MapBackend.exn A) : reads_only m → reads_only (on_db m).
Proof.
  intros Hm s. unfold on_db. specialize (Hm (_db s)). destruct (m (_db s)) as [[a|e|] db]; cbn in Hm; subst db; by destruct s.
Qed.

Lemma read_at {A} (m : C A) : reads_only m → reads_only (at_controller m).
Proof. intros Hm [s v]. unfold at_controller. cbn. specialize (Hm s). destruct (m s) as [r s']. cbn in *. by subst. Qed.

Lemma read_validate b : reads_only (validate_block b).
Proof.
  unfold validate_block, missing. repeat (apply read_bind; [reading|intros _]).
  induction (transactions b) as [|t l IH]; cbn [validate_transactions]; [reading|].
  apply read_bind; [apply validate_reads|done].
Qed.

(** The node of an id. *)
Definition node_at (s : controller_impl) (i : multihash) : outcome MapBackend.exn (option StateDatabase.state_node) :=
  (StateDatabase.get_node_shared i shared_lock (_db s)).1.

Lemma run_node_at i s : (on_db (StateDatabase.get_node_shared i shared_lock) s) =
  (match node_at s i with Ok n => Ok n | Throw e => Throw (of_state_db e) | OutOfFuel => OutOfFuel end, s).
Proof.
  unfold node_at, on_db. pose proof (read_node_shared i shared_lock (_db s)) as Hr.
  destruct (StateDatabase.get_node_shared _ _ _) as [[n|e|] db]; cbn in Hr; subst db; by destruct s.
Qed.

(** What a block is refused for: it fails the validation, one of its ids is
    not an id, its node is there already, or its parent's is not. *)
Inductive refused (b : block) (s : controller_impl) : Prop :=
| refused_invalid e : (validate_block b s).1 = Throw e → refused b s
| refused_id e : to_multihash (block_id b) = inl e → refused b s
| refused_previous e : to_multihash (previous (header b)) = inl e → refused b s
| refused_known i n : to_multihash (block_id b) = inr i → node_at s i = Ok (Some n) → refused b s
| refused_orphan p : to_multihash (previous (header b)) = inr p → node_at s p = Ok None → refused b s.

Lemma read_orphan i n : reads_only (orphan_block i n shared_lock).
Proof.
  unfold orphan_block. apply read_bind; [apply read_db|intros r].
  { unfold StateDatabase.get_root_shared, StateDatabase.get_root_lockless. apply read_bind; [apply read_assert|intros _].
    apply read_bind; [|reading]. apply read_bind; [apply read_assert_open|]. intros _. unfold StateDatabase.deref_ptr. reading. }
  apply read_bind; [apply read_db, read_heap, read_revision|intros n'].
  apply read_bind; [unfold assert_c; reading|intros _]. apply read_bind; [apply read_db, read_heap, read_id|intros r'].
  unfold assert_c. reading.
Qed.

(** A run over the controller and the variables ends with the controller as
    it was, and applied no block. *)
Definition unapplied (s : controller_impl) (r : outcome Chain.exn apply_block_result * (controller_impl * variables)) : Prop :=
  r.2.1 = s ∧ ∀ x, r.1 = Ok x → x = no_apply_result.

Lemma unapplied_node i s (v : variables) k :
  unapplied s (match node_at s i with Ok n => k n (s, v) | Throw e => (Throw (of_state_db e), (s, v)) | OutOfFuel => (OutOfFuel, (s, v)) end) →
  unapplied s ((at_controller (on_db (StateDatabase.get_node_shared i shared_lock)) ≫= k) (s, v)).
Proof. rewrite run_bind. unfold at_controller. cbn [fst snd]. rewrite run_node_at. by destruct (node_at s i). Qed.

Lemma apply_block_with_refused b o io s v :
  refused b s → (validate_block b s).1 = Ok tt → unapplied s (apply_block_with fuel client b o io (s, v)).
Proof.
  intros Hr Hv. unfold apply_block_with. rewrite run_bind.
  destruct (to_multihash (block_id b)) as [e|i] eqn:Hi; cbn [converted]; [done|]. cbn [mret prog_ret]. rewrite run_bind.
  destruct (to_multihash (previous (header b))) as [e|p] eqn:Hp; cbn [converted]; [done|]. cbn [mret prog_ret].
  apply unapplied_node. destruct (node_at s i) as [applied|e|] eqn:Hni; [|done..].
  apply unapplied_node. destruct (node_at s p) as [parent|e|] eqn:Hnp; [|done..].
  destruct applied as [n|]; [by split; [|intros ? [= <-]]|].
  assert (parent = None) as ->.
  { destruct Hr; congruence. }
  rewrite run_bind. unfold at_controller. cbn [fst snd]. pose proof (read_orphan i (height (header b)) s) as Ho.
  destruct (orphan_block _ _ _ s) as [[[]|e|] s']; cbn in Ho; subst s'; cbn;
    split; try done; by intros ? [= <-].
Qed.

(** C20. A block that fails validation, that has an id that is not one, whose
    node is there already, or whose parent's is not, changes nothing when it
    is applied, and is not reported as applied; what the validation throws
    is thrown. *)
Theorem apply_block_refused b o io s :
  refused b s →
  (apply_block fuel client b o io s).2 = s ∧
  (∀ x, (apply_block fuel client b o io s).1 = Ok x → x = no_apply_result) ∧
  ∀ e, (validate_block b s).1 = Throw e → (apply_block fuel client b o io s).1 = Throw e.
Proof.
  intros Hr. unfold apply_block. rewrite run_bind. pose proof (read_validate b s) as Hv.
  destruct (validate_block b s) as [[[]|e|] s'] eqn:Hval; cbn in Hv; subst s'; simpl;
    [|(split; [done|split; [intros ? [=]|intros ? [=]; congruence]])..].
  unfold with_variables.
  pose proof (apply_block_with_refused b o io s
    (initial_variables (if propose_block o then block_proposal else block_application)) Hr) as Hw.
  rewrite Hval in Hw. specialize (Hw eq_refl). destruct (apply_block_with _ _ _ _ _ _) as [r s']. destruct Hw as [Hw1 Hw2].
  split; [exact Hw1|]. split; [exact Hw2|by intros].
Qed.

(** ** The heads of the forks *)

(** The loop that would find the head ends before it begins. *)
Lemma head_first_same id l : head_first id l = l.
Proof. unfold head_first. by destruct (length l). Qed.

#[local] Instance higher_trans : Transitive higher.
Proof. intros x y z. unfold higher. lia. Qed.
#[local] Instance higher_total : Total higher.
Proof. intros x y. unfold higher. lia. Qed.

Lemma any_agrees {S E A} (m : prog S E A) : agrees_ (λ _, True) m m.
Proof. done. Qed.

(** The heads of the forks come the highest first, and the head of the
    chain has no place of its own among them. *)
Theorem fork_heads_sorted l s heads lib s' : get_fork_data fuel l s = (Ok (heads, lib), s') →
  StronglySorted higher heads.
Proof.
  unfold get_fork_data. rewrite run_bind. destruct (on_db _ s) as [[r|e|] s1]; [|done..].
  rewrite run_bind. destruct (on_db _ s1) as [[forks|e|] s2]; [|done..]. unfold with_context, run_context.
  set (m := push_frame _ ≫= _).
  assert (agrees (λ _, True) m m (λ x, StronglySorted higher x.1)) as Hm.
  { do 3 (apply agrees_bind_; [apply any_agrees|intros ?]). apply agrees_ret. cbn [fst].
    rewrite head_first_same. apply StronglySorted_merge_sort; apply _. }
  match goal with |- context [m ?c] => destruct (Hm c I) as (_ & _ & HQ); destruct (m c) as [o m'] end.
  intros [= -> _]. by apply (HQ (heads, lib)).
Qed.

End Theorems.
