(* ===== verification/ChainExample.v ===== *)
(** A concrete chain: the witnesses of the theorems on executions. *)

From S2P Require Import Prelude Keys MapBackend StateDelta StateNode MergeIterator ObjectIteration.
From S2P Require Import Session.
From S2P Require Import Chronicler.
From S2P Require Import ResourceMeter.
From S2P Require Import Storage StateDeltaFacts StateDatabase StateExample ObjectIterationTheorems.
From S2P Require Import ChainTypes ExecutionContext ProtoUtils SystemCalls Dispatch VirtualMachine ProgramLogic.
From S2P Require Import ExecutionFacts FrameFacts ExecutionTheorems IsolationTheorems.
From S2P Require Import IsolationTheorems.
From S2P Require Import Rectify Controller ControllerTheorems.
Import StateDelta StateNode Chain ExecutionContext SystemCall Thunk VirtualMachine.

(** ** The outside *)

#[local] Instance some_exceptions : Exceptions := {|
  success := 0;
  reversion := 1;
  failure := -1;
  insufficient_return_buffer := 2;
  default_code n := match class_of n with Reversion => 1 | Failure => -1 | _ => 0 end;
  format t _ := mk_error_data t [];
  get_message e := message (data e)
|}.

#[local] Instance unreadable {A} : Convert A := {| as_string _ := []; to_message _ := inl StdException |}.

Definition costs : compute_bandwidth_registry :=
  [(str "thunk", 0); (str "deserialize_message_per_byte", 0); (str "object_serialization_per_byte", 0);
   (str "event_per_impacted", 0)].

#[local] Instance some_conversions : Conversions := {|
  convert_registry := {| as_string _ := []; to_message _ := inr costs |};
  convert_metadata := {| as_string m := if meta_system m then [byte_of 1] else [byte_of 0];
                         to_message b := inr (mk_contract_metadata_object [byte_of 7] (bool_decide (b = [byte_of 1])) false false false) |};
  convert_target := {| as_string _ := []; to_message _ := inr (thunk_target 0) |};
  to_max_account_resources _ := inr 1000;
  to_authorize_result _ := inr true;
  to_varint _ := inr 18;
  as_call_id n := [byte_of n];
  trx_size _ := 100;
  block_size _ := 1000;
  set_system_call_event _ := [];
  set_system_contract_event _ := [];
  utf_decode b := match b with [] => None | _ :: b => Some b end
|}.

#[local] Instance some_crypto : ChainCrypto := {|
  sha1 := 17; sha2_256 := 18; sha2_512 := 19; keccak_256 := 27; ripemd_160 := 4179;
  to_multihash b := inr b;
  as_multihash m := m;
  hash_code _ := 18;
  digest m := m;
  crypto_hash _ b _ := inr b;
  merkle_root_of _ l := concat l;
  is_zero m := bool_decide (m = []);
  public_key := bytes;
  to_public_key b := inr b;
  as_public_key k := k;
  serialize_uncompressed k := k;
  to_address_bytes k := k;
  is_canonical _ := true;
  recover _ _ := inr [];
  key_valid _ := true;
  verify_random_proof _ _ _ := None
|}.

Definition all_ids : list SystemCallId.system_call_id :=
  [SystemCallId.get_head_info; SystemCallId.apply_block; SystemCallId.apply_transaction;
   SystemCallId.apply_upload_contract_operation; SystemCallId.apply_call_contract_operation;
   SystemCallId.apply_set_system_call_operation; SystemCallId.apply_set_system_contract_operation;
   SystemCallId.pre_block_callback; SystemCallId.post_block_callback; SystemCallId.pre_transaction_callback;
   SystemCallId.post_transaction_callback; SystemCallId.get_chain_id; SystemCallId.process_block_signature;
   SystemCallId.get_transaction; SystemCallId.get_transaction_field; SystemCallId.get_block;
   SystemCallId.get_block_field; SystemCallId.get_last_irreversible_block; SystemCallId.get_account_nonce;
   SystemCallId.verify_account_nonce; SystemCallId.set_account_nonce; SystemCallId.check_system_authority;
   SystemCallId.get_operation; SystemCallId.get_account_rc; SystemCallId.consume_account_rc;
   SystemCallId.get_resource_limits; SystemCallId.consume_block_resources; SystemCallId.put_object;
   SystemCallId.remove_object; SystemCallId.get_object; SystemCallId.get_next_object; SystemCallId.get_prev_object;
   SystemCallId.log; SystemCallId.event; SystemCallId.hash; SystemCallId.recover_public_key;
   SystemCallId.verify_merkle_root; SystemCallId.verify_signature; SystemCallId.verify_vrf_proof; SystemCallId.call;
   SystemCallId.exit; SystemCallId.get_arguments; SystemCallId.get_contract_id; SystemCallId.get_caller;
   SystemCallId.check_authority; SystemCallId.nop].

#[local] Instance some_ids : SystemCallIds := {|
  number i := match list_find (eq i) all_ids with Some (n, _) => Z.of_nat n | None => -1 end;
  id_of_number n := if n <? 0 then None else all_ids !! Z.to_nat n;
  enum_name n := Some (str "thunk")
|}.

#[local] Instance some_ids_laws : SystemCallIdsLaws.
Proof.
  split.
  - by intros [].
  - intros n i. cbn [id_of_number some_ids]. destruct (Z.ltb_spec n 0); [done|].
    destruct (Z_of_nat_complete n) as [k ->]; [done|]. rewrite Nat2Z.id. intros Hi.
    assert (k < 46)%nat as Hk by (by apply lookup_lt_Some in Hi). revert Hi.
    do 46 (destruct k as [|k]; [by intros [= <-]|]). lia.
  - intros i. by exists (str "thunk").
Qed.

#[local] Instance some_spaces : SystemSpaces := {|
  space_number s := match s with
                    | contract_bytecode => 0 | contract_metadata => 1 | system_call_dispatch => 2 | metadata => 3
                    | transaction_nonce => 4
                    end
|}.

#[local] Instance some_int128 : ResourceMeter.Int128 := { ResourceMeter.convert_to_int64 := i64 }.
#[local] Instance some_descriptors : Descriptors := {| parse_descriptors _ := true |}.
#[local] Instance some_outside : Outside.
Proof. constructor; typeclasses eauto. Defined.

#[local] Instance no_reflection : Reflection := {|
  reflected := unit; descriptor := unit; field_descriptor := unit;
  of_transaction _ := tt; of_block _ := tt; type_name _ := [];
  FindMessageTypeByName _ _ := None; FindFieldByName _ _ := None; FindFieldByNumber _ _ := None;
  is_repeated _ := false; GetMessage _ _ _ := tt; FieldSize _ _ := 0%nat;
  GetInt64 _ _ _ := 0; GetUInt64 _ _ _ := 0; GetInt32 _ _ _ := 0; GetUInt32 _ _ _ := 0; GetBool _ _ _ := false;
  GetString _ _ _ := []; GetEnum _ _ _ := (0, []); pack_message _ := []; pack_enum _ := []; pack_list _ := []
|}.

(** Arguments of a write: whether it is to the system space. *)
#[local] Instance some_wire : Wire := {|
  parse_arguments i b :=
    match i, b with
    | SystemCallId.put_object, f :: v =>
      @existT Type call unit (put_object (mk_object_space (bool_decide (f = byte_of 1)) (if bool_decide (f = byte_of 1) then [] else str "bob") 3)
        (str "key") v)
    | _, _ => @existT Type call unit nop
    end;
  serialize_arguments A c := [];
  parse_result A c b :=
    match c in call A return A with
    | get_head_info => mk_head_info (mk_block_topology [] [] 0) 0 0
    | get_transaction => mk_transaction [] None [] []
    | get_block => mk_block [] None [] []
    | get_transaction_field _ | get_block_field _ => no_value
    | get_operation => no_operation
    | get_resource_limits => ResourceMeter.mk_resource_limit_data 0 0 0 0 0 0
    | get_object _ _ | get_next_object _ _ | get_prev_object _ _ => no_object
    | get_arguments => mk_argument_data 0 []
    | get_caller => mk_caller_data [] kernel_mode
    | get_last_irreversible_block | get_account_rc _ => 0
    | process_block_signature _ _ _ | verify_account_nonce _ _ | check_system_authority | consume_account_rc _ _
    | consume_block_resources _ _ _ | verify_merkle_root _ _ | verify_signature _ _ _ _ _ | verify_vrf_proof _ _ _ _ _
    | check_authority _ _ _ => false
    | get_chain_id | get_account_nonce _ | hash _ _ _ | recover_public_key _ _ _ _ | call_ _ _ _ | get_contract_id => []
    | _ => tt
    end;
  serialize_result A c a := []
|}.

(** A contract is its first byte: it writes one object, to the system space
    or to its own. *)
Definition write_request (code : bytes) (ticks : Z) : host_request :=
  mk_host_request host_invoke_system_call (number SystemCallId.put_object) 0 0 0 2 4
    (Some (take 1 code ++ [byte_of 42; byte_of 0; byte_of 0; byte_of 0; byte_of 0; byte_of 0; byte_of 0])) ticks.

#[local] Instance some_fizzy : Fizzy := {|
  fizzy_module := bytes;
  fizzy_parse b := inr b;
  fizzy_resolve_instantiate _ := None;
  fizzy_has_start _ := true;
  fizzy_execute m ticks replies :=
    match replies with [] => HostCall (write_request m ticks) | r :: _ => Finished (trapped r) (reply_ticks r) end
|}.

(** ** A machine *)

Definition registry_key : bytes := key_string (mk_database_key (space_of metadata) key_compute_bandwidth_registry).
Definition backend0 : MapBackend.map_backend := MapBackend.put registry_key (str "costs") MapBackend.new.
Definition delta0 : state_delta := mk_state_delta None (Some backend0) ∅ (str "block") 1 None false.
Definition delta1 : state_delta := mk_state_delta (Some 1%positive) (Some MapBackend.new) ∅ (str "next") 2 None false.
Definition heap0 : heap := mk_heap {[ 1%positive := delta0; 2%positive := delta1 ]} 3.
Definition bob_frame : stack_frame := mk_stack_frame (str "bob") 0 user_mode [] 0.
Definition context0 (st : list stack_frame) : execution_context :=
  with_current_state_node (Some (StateNode 2)) (with_stack st (ExecutionContext.new block_application)).
Definition machine0 (st : list stack_frame) : machine := mk_machine heap0 [] (context0 st).

Definition user_machine : machine := machine0 [bob_frame; kernel_frame 0].
Definition kernel_machine : machine := machine0 [kernel_frame 0; kernel_frame 0].

Definition system_space0 : object_space := mk_object_space true [] 3.
Definition bob_space : object_space := mk_object_space false (str "bob") 3.

(** The contract of bob writes to its own space, and is stopped at the
    system's. *)
Example bob_writes :
  let s := run_contract (knot_at 5 10) [byte_of 0] [] user_machine in
  s.1 = Ok tt ∧ (StateNode.get_object 2 bob_space (str "key") (heap_ s.2)).1 = Ok (Some [byte_of 42]).
Proof. vm_compute. done. Qed.

Example bob_stopped :
  let s := run_contract (knot_at 5 10) [byte_of 1] [] user_machine in
  (∃ e, s.1 = Throw (Koinos e) ∧ name e = reversion_exception) ∧
  (StateNode.get_object 2 system_space0 (str "key") (heap_ s.2)).1 = Ok None.
Proof. vm_compute. eauto. Qed.

(** ** Witnesses *)

Lemma heap0_fresh : fresh_above heap0.
Proof.
  intros l Hl. cbn [next_loc heap0] in Hl. cbn [deltas heap0]. rewrite lookup_insert_ne by lia. apply lookup_singleton_ne. lia.
Qed.

Lemma machine_in_call st : (1 ≤ length st ≤ 256)%nat → in_call (machine0 st).
Proof. intros Hst. split; [done|apply heap0_fresh]. Qed.

(** The kernel's write changes the current node's delta, and not its
    parent's. *)
Lemma system_call_frame_witness :
  let s := kernel_machine in
  let s' := (sys (knot_at 5 10) _ (put_object system_space0 (str "key") (str "value")) s).2 in
  (_stack (ctx s') = _stack (ctx s) ∧ deltas (heap_ s') !! 1%positive = deltas (heap_ s) !! 1%positive) ∧
  (StateNode.get_object 2 system_space0 (str "key") (heap_ s')).1 = Ok (Some (str "value")).
Proof.
  cbn zeta. split; [|vm_compute; reflexivity].
  destruct (system_call_frame 5 10 _ (put_object system_space0 (str "key") (str "value")) kernel_machine) as [Hs Hd].
  - apply machine_in_call. cbn. lia.
  - split; [exact Hs|]. apply Hd; [cbn; lia|]. intros (n & [= <-] & [=]).
Defined.

Lemma stack_bounds_depth_witness :
  sys (knot_at 5 300) _ get_contract_id kernel_machine = system_calls 5 _ get_contract_id kernel_machine.
Proof. apply (stack_bounds_depth 5 300 _ get_contract_id kernel_machine); [apply machine_in_call; cbn; lia|lia]. Defined.

(** A transaction with an operation that is not there is reverted. *)
Definition bad_transaction : transaction := mk_transaction (str "trx") None [no_operation] [].

Lemma pair_parts {A B C} (p : A * (B * C)) a : p.1 = a → p = (a, (p.2.1, p.2.2)).
Proof. by destruct p as [? []]; intros <-. Qed.

Lemma reverted_operations_discarded_witness :
  let r := operations_body (sys (knot_at 5 10)) bad_transaction (StateNode 2) (kernel_machine, no_locals) in
  (r.1 = Ok true ∧ reverted r.2.2 = true) ∧
  deltas (heap_ r.2.1) !! 2%positive = deltas heap0 !! 2%positive.
Proof.
  cbn zeta. split; [vm_compute; split; reflexivity|].
  apply (reverted_operations_discarded 5 10 bad_transaction (StateNode 2) kernel_machine no_locals true
    (operations_body (sys (knot_at 5 10)) bad_transaction (StateNode 2) (kernel_machine, no_locals)).2.1
    (operations_body (sys (knot_at 5 10)) bad_transaction (StateNode 2) (kernel_machine, no_locals)).2.2).
  - apply machine_in_call. cbn. lia.
  - reflexivity.
  - apply pair_parts. vm_compute. reflexivity.
  - right. vm_compute. reflexivity.
  - cbn. lia.
Defined.

(** No object of another key is there. *)
Lemma object_absent sp key : key_string (mk_database_key sp key) ≠ registry_key →
  (StateNode.get_object 2 sp key heap0).1 = Ok None.
Proof.
  intros Hne. assert (deltas heap0 !! 1%positive = Some delta0) as H1 by reflexivity.
  assert (deltas heap0 !! 2%positive = Some delta1) as H2 by reflexivity.
  unfold StateNode.get_object, find. change (fuel_of 2) with 2%nat.
  generalize dependent (key_string (mk_database_key sp key)). intros k Hne. cbn [find_loop].
  assert (MapBackend.get MapBackend.new k = None) as Hnew by apply lookup_empty.
  assert (MapBackend.get backend0 k = None) as Hold by (unfold MapBackend.get; cbn; by rewrite lookup_insert_ne).
  rewrite run_bind, (run_backend _ _ _ _ H2 eq_refl), Hnew.
  rewrite run_bind, (run_is_removed _ _ _ _ H2), bool_decide_eq_false_2 by (cbn; set_solver).
  rewrite run_bind, (run_parent _ _ _ H2). cbn [_parent delta1].
  rewrite run_bind, (run_backend _ _ _ _ H1 eq_refl), Hold.
  rewrite run_bind, (run_is_removed _ _ _ _ H1), bool_decide_eq_false_2 by (cbn; set_solver).
  by rewrite run_bind, (run_parent _ _ _ H1).
Qed.

Lemma other_space sp key : space_id sp ≠ 3 → key_string (mk_database_key sp key) ≠ registry_key.
Proof.
  intros Hne Heq. apply (f_equal parse_key) in Heq. unfold registry_key in Heq. rewrite !parse_key_string in Heq.
  injection Heq as -> _. done.
Qed.

Lemma user_machine_ok : user_contract user_machine.
Proof.
  split.
  - by exists bob_frame, (kernel_frame 0), [].
  - cbn. lia.
  - intros x id obj c e [= <-]. cbn [state_of]. change (heap_ user_machine) with heap0.
    by rewrite object_absent by (by apply other_space).
  - intros x id obj m [= <-]. cbn [state_of]. change (heap_ user_machine) with heap0.
    by rewrite object_absent by (by apply other_space).
  - intros id b. cbn. by rewrite lookup_empty.
Qed.

Lemma user_contract_isolated_witness :
  (StateNode.get_object 1 system_space0 (str "key")
    (heap_ (run_contract (knot_at 5 10) [byte_of 1] [] user_machine).2)).1 =
  (StateNode.get_object 1 system_space0 (str "key") (heap_ user_machine)).1.
Proof.
  exact (user_contract_isolated 5 10 [byte_of 1] [] user_machine 1%positive system_space0 (str "key")
    user_machine_ok eq_refl).
Defined.

(** ** A controller *)

#[local] Instance some_literals : Rectify.Literals := {| Rectify.from_hex s := str s; Rectify.from_base64 s := str s; Rectify.new_bytecode := [] |}.
#[local] Instance some_rpc : ChainRpc := {| genesis_bytes _ := []; system_call_id_Parse _ := None |}.

Definition database0 : StateDatabase.database :=
  StateDatabase.mk_database heap0 [1%positive; 2%positive] (Some 2%positive) {[ str "next" := 2%positive ]} (Some 1%positive)
    None None None.
Definition empty_block : block := mk_block [] None [] [].
Definition controller0 : Controller.controller_impl := Controller.mk_controller_impl database0 [] empty_block [].

Lemma controller0_fresh : fresh_above (StateDatabase.db_heap (Controller._db controller0)).
Proof. exact heap0_fresh. Qed.

Lemma reads_keep_blocks_witness :
  chain_kept controller0 (Controller.read_contract 5 1000 (str "bob") 0 [] controller0).2.
Proof. exact (proj1 (reads_keep_blocks 5 1000 10 controller0 controller0_fresh) (str "bob") 0 []). Defined.

(** A transaction that is stopped at its checks. *)
Definition some_transaction : transaction :=
  mk_transaction (str "trx") (Some (mk_transaction_header [] 10 [] (str "root") (str "bob") [])) [] [str "signature"].

Lemma submit_transaction_keeps_blocks_witness :
  chain_kept controller0 (Controller.submit_transaction 5 None None some_transaction true controller0).2.
Proof. exact (submit_transaction_keeps_blocks 5 None None some_transaction true controller0 controller0_fresh). Defined.

(** The block of the head, again. *)
Definition old_header : Chain.block_header :=
  mk_block_header (str "block") 2 (str "root") (str "root") (MapBackend.mk_block_header 5 (str "bob") []).
Definition old_block : block := mk_block (str "next") (Some old_header) [some_transaction] (str "signature").
Definition options0 : Controller.apply_block_options := Controller.mk_apply_block_options 0 0 false None true.
Definition interference0 : Controller.interference :=
  Controller.mk_interference (StateDatabase.mk_timing true (λ db, db) true true) (λ s, s) (λ s, s).

Lemma apply_block_refused_witness :
  let applied := Controller.apply_block 5 None old_block options0 interference0 controller0 in
  (Controller.validate_block old_block controller0).1 = Ok tt ∧
  applied.2 = controller0 ∧ (∀ x, applied.1 = Ok x → x = Controller.no_apply_result) ∧
  ∀ e, (Controller.validate_block old_block controller0).1 = Throw e → applied.1 = Throw e.
Proof.
  split; [reflexivity|].
  apply (apply_block_refused 5 None old_block options0 interference0 controller0).
  eapply refused_known; [reflexivity|]. vm_compute. reflexivity.
Defined.

Definition fork_data0 := Controller.get_fork_data 5 Controller.shared_lock controller0.

Lemma fork_heads_sorted_witness :
  StronglySorted Controller.higher [mk_block_topology (str "next") (str "block") 2].
Proof.
  apply (fork_heads_sorted 5 Controller.shared_lock controller0 _ (mk_block_topology (str "block") [] 1) fork_data0.2).
  vm_compute. reflexivity.
Defined.

Lemma dispatch_typed_witness :
  let typed i := Dispatch.call_thunk_typed (sys (knot_at 5 10)) (run_contract (knot_at 5 10)) (number i) get_chain_id in
  typed SystemCallId.get_chain_id = Dispatch.thunk (sys (knot_at 5 10)) (run_contract (knot_at 5 10)) get_chain_id ∧
  typed SystemCallId.hash = raise StdException.
Proof.
  split.
  - apply (dispatch_typed (sys (knot_at 5 10)) (run_contract (knot_at 5 10)) _ get_chain_id). reflexivity.
  - pose proof (dispatch_typed (sys (knot_at 5 10)) (run_contract (knot_at 5 10)) _ get_chain_id (number SystemCallId.hash)) as [_ Hr].
    rewrite id_of_number_of in Hr. apply Hr. discriminate.
Defined.
